(* ===== verification/_CoqProject ===== *)
-Q . S2P
Prelude.v
Effects.v
GoStrings.v
GoPath.v
GoTime.v
Enum.v
Grammar.v
Invocation.v
Parser.v
CacheKey.v
Rewrite.v
Preprocess.v
AsmClosure.v
Manifest.v
Store.v
S3Store.v
GoJson.v
FcModels.v
CompileCache.v
Scheduler.v
Pool.v
Staging.v
WorkerCAS.v
Config.v
Secret.v
Worker.v
Dispatch.v
Cluster.v
Liaison.v
Daemon.v
Sha256.v
Explain.v
SquashMeta.v
SquashCodec.v
SquashWriter.v
SquashReader.v
SquashBuild.v
SquashLayout.v
SquashTree.v
SquashImage.v
Rootfs.v
Agent.v
Firecracker.v
FcApi.v
CdImage.v
Hcsshim.v
