(* ===== verification/Prelude.v ===== *)
(** * hpcc: a verification of the distributed compile cache

    ** The program

    hpcc runs in front of a C or C++ compiler.  A build calls it in place of the
    compiler; it answers from a cache, has a remote worker compile, or runs the
    local compiler.  Its parts, and the files that model them:

    - _the command line_ ([internal/compiler], [internal/enum]).  A command is
      parsed into an [Invocation] against tables of flags, asked whether it can
      be cached or dispatched, rewritten for a remote machine, and given a cache
      key made from its flags, its compiler and the manifest of its sources.
      [Enum], [Grammar], [Invocation], [Parser] ([ParseGNU], [ParseMSVC],
      [expandResponseFiles]), [CacheKey] ([cacheKeyFlags]), [Rewrite],
      [Preprocess], [AsmClosure] ([scanAssemblyClosure]), [Manifest]
      ([BuildManifest], [CacheKey]).
    - _the stores_ ([internal/cache]).  [Store] is the file system the development
      uses and the disk store, and states what a store promises ([StoreOps],
      [StoreLaws]) and what remains of it when reads may fail ([StoreSafety]);
      [S3Store] is the store on an object service; [CompileCache] is the cache
      of compile results over any store that keeps the full promise.
    - _the daemon_ ([internal/daemon], [internal/runner], [internal/auth],
      [internal/explain]).  [Dispatch] is the remote compile path against an
      interface of the cluster ([Mesh], [MeshLaws]); [Daemon] is the daemon with
      its socket protocol, its client and the runner; [Explain] (over [Sha256])
      records why a compile missed the cache.
    - _the scheduler_ ([internal/scheduler]).  [Scheduler]: sessions, the table of
      workers, routing and task tokens, as a step relation over RPCs.
    - _the worker_ ([internal/worker]).  [Config], [Staging] (sources and outputs
      on disk), [WorkerCAS] (uploads, token checks), [Pool] (the container pool
      as interleaved critical sections), [Worker] (the whole of [Compile] and
      [ProbeCompileCache]), [Liaison] (enrolment, heartbeats, image eviction).
    - _secrets_ ([internal/secret]).  [Secret] resolves the references to tokens
      and key pairs in the configurations of scheduler and worker.
    - _the microVMs_ ([internal/worker/runtime], [agent], [firecracker]).
      [Agent] is an [Exec] stream from both ends, [Firecracker] the life of a VM,
      [FcModels] and [FcApi] the data and the client of the VMM's API (over
      [GoJson]), and [Hcsshim] containers under containerd and the choice of a
      runtime.
    - _the images_ ([squashfs], [internal/worker/image]).  [SquashMeta],
      [SquashCodec] and [SquashWriter] are the image writer down to its bytes,
      [SquashReader] reads an image as a kernel does, [SquashBuild] to
      [SquashImage] relate the two, and [Rootfs] makes a VM's root file system
      from a registry's image.  [CdImage] ([image/cdimage]) prepares images
      under containerd.

    [Cluster] composes scheduler and workers into an implementation of the
    dispatcher's interface, so that theorems about the dispatcher hold of the
    whole system; [Firecracker] composes [Rootfs] with the start of a VM, and
    [FcApi] puts the API's client under that start.  [Prelude], [Effects],
    [GoStrings], [GoPath], [GoTime] and [GoJson] hold what the components share
    and the parts of Go's standard library they use.

    ** How the code is modelled

    A definition has the name of the Go function or type it translates where that
    name is free; the name of its source is in the heading of the file.
    - A Go string or byte slice is a [string] of bytes; a map is a [gmap], or an
      association list where order is visible; an integer is a [Z] that wraps or
      is bounded where the source depends on its width; a struct is a [Record].
    - A fallible function returns [result] with the text of the error.  A handler
      that changes state is an action ([act], in [Effects]) that ends in [Done],
      [Failed] or [Panicked]; deferred calls run in every case.
    - An iteration over a Go map takes its order as an argument, and what is
      proved holds for all orders.  Time, randomness and the answers of the
      operating system are arguments too.
    - Files are those of [Store]: directories and regular files with contents and
      modification time, and the errors a Unix system documents.
    - Code that is not in the repository is a parameter with its documented
      behaviour as a hypothesis: BLAKE3 and JWT signing, zlib, the registry
      client, the object service, containerd, containers and their compiler,
      protobuf, the HTTP transport, the AWS SDK.  A theorem with such a
      hypothesis has a witness in which the parameter is a concrete function.
    - Loops that are not structural run on fuel: the length of what they consume
      (chunks of a file, messages of a connection, metadata blocks, listings,
      JSON text, flags and durations), the number of files (the assembler
      closure, [AsmClosure.walk]) or of entries (the tree of an image,
      [SquashWriter.grow]), the depth of a path ([Manifest.findUp],
      [Rootfs.ancestorsFrom]), or the rounds until a deadline
      ([Firecracker.socketFuel], [agentFuel]).  That this is enough is shown
      where a result depends on it, by lemmas such as [closure_total],
      [chunks_concat], [readMessages_frames], [parse_encode] and
      [waitSocket_ends], and by the round-trip theorems, which no loop that
      stops early would satisfy.

    ** What is shown

    - _Compiling remotely is compiling._  What a dispatch returns is what the
      compiler produces on exactly the sources of the command
      ([Dispatch.dispatchCAS_sound], [Dispatch.staged_is_local]); a worker runs
      only verified inputs, for an authorised tenant, apart from other requests,
      and gives back what it took ([Worker.compile_runs_verified],
      [compile_gated], [compile_isolated], [compile_releases]); what was written
      to the cache is replayed ([Worker.compile_replayed],
      [Daemon.daemon_replays], [Daemon.run_with_daemon]).
    - _Keys separate._  Equal keys come from equal inputs
      ([Manifest.CacheKey_separates], [CacheKey.cacheKeyFlags_faithful]), daemon
      and worker agree on them ([Manifest.CacheKey_worker_agrees]), and they do
      not depend on where a checkout lies ([Manifest.manifest_relocatable]),
      assembler sources and paths through parent directories included.
    - _Parsing and rewriting._  Every command line is a sequence of words, and is
      parsed to what its words say, rewriting keeps its meaning, the scan of assembler sources is exact and always ends
      ([Parser.ParseGNU_roundtrip], [Rewrite.preprocessed_rewrite_reparse],
      [AsmClosure.scanAssemblyClosure_exact], [Manifest.BuildManifest_total]).
    - _Stores._  The disk store meets the contract
      ([Store.disk_store_contract]), the object store as far as the service
      answers ([S3Store.s3_store_contract]); an eviction there leaves alone what
      fits the budget and touches nothing else ([S3Store.s3_evict_budget]);
      tenants cannot see each other ([CompileCache.Store_then_Lookup],
      [CompileCache.tenants_isolated]).
    - _Authority._  Routing and tokens ([Scheduler.route_authorised],
      [WorkerCAS.task_token_binding], [WorkerCAS.upload_addressed]).
    - _Concurrency and recovery._  The pool neither leaks nor hands out a stopped
      container, nor one to more tasks than it has processors, in any
      interleaving ([Pool.pool_handle_safe],
      [Pool.pool_no_leak]); a lost session or worker comes back, whichever calls
      or answers are lost and whatever other workers do in between
      ([Cluster.session_recovers], [Liaison.ticking_worker_enrolled]).
    - _Images and VMs._  An image reads back as the calls that made it describe
      ([SquashImage.image_reads_back]) and has only values that its fields hold,
      after failed calls as well ([reachable_well_typed]); a user's image
      cannot replace the agent or exceed its bounds ([Rootfs.agent_intact],
      [Rootfs.build_bounded]); a VM boots the image that was pulled and gives
      back files, directories, mounts and processes
      ([Firecracker.pulled_image_boots], [vm_lifecycle]); a command
      in a VM sees its inputs and returns its outputs, and no guest writes
      outside its directory on the host ([Agent.vm_exec_faithful],
      [Agent.host_confined]); what goes over the wire is what the API documents
      ([FcApi.boot_on_the_wire], [FcApi.client_verdict],
      [FcModels.model_roundtrip]).  Under containerd a prepared image keeps its
      parts through garbage collection ([CdImage.prepared_image]), a container
      is given back with its directory whatever was done in it
      ([Hcsshim.container_lifecycle]) and a command in one sees
      its inputs and returns its outputs ([Hcsshim.silo_exec_faithful]).
    - _Secrets._  A reference asks for the secret, the region and the field it
      names, after any other lookups ([Secret.reference_resolved],
      [Secret.answered_by_region]); what is validated is the secret and not its
      reference ([Secret.resolved_token_checked]).

    Some theorems and examples show where the code does not do what it says:
    those about secrets with an at sign, the Hyper-V output path, a guest that
    hangs up, the owner of linked images, what a failed start or pull leaves,
    dependency files, the estimate and the deletes of the object store, and
    others; each is named in its file.  What a theorem supposes of a run beyond
    the types of its arguments is said in the comment above it.

    ** Not modelled

    - The commands ([cmd], [main.go]): flag definitions, prompts and start-up of
      services; [internal/bootstrap].
    - Generated code of protobuf and gRPC ([internal/protocol/gen],
      [proto/agent/*.pb.go]): the messages are records of the files that use them,
      the wire format is the library's.
    - [internal/metrics], [internal/logging], [internal/tracing]: they observe.
    - The calls of Windows itself ([hcsshim_acl_windows.go],
      [agent_dial_windows.go]); their answers are parameters of [Hcsshim].
    - The process side of the agent ([agent/init_linux.go], [exec_linux.go],
      [pause]): mounts, reaping and process groups.
    - Network and TLS set-up, reading TOML files, the construction of clients.
    - [bench], [tools], [scripts], [deploy], [web]: not part of the program. *)

From stdpp Require Export prelude gmap strings list fin_maps sorting.
From Stdlib Require Export Ascii.
From Stdlib Require String ZArith Lia.

(** ** Scopes, automation *)

Declare Scope go_scope.
Delimit Scope go_scope with go.
#[global] Open Scope string_scope.
#[global] Open Scope nat_scope.
#[global] Open Scope list_scope.
#[global] Open Scope go_scope.

(** [gostr] holds the string lemmas that normalise byte sequences,
    [goenc] those that cancel equal-length heads of encodings. *)
Create HintDb gostr.
Create HintDb goenc.

(** ** Fallible code

    A Go function returning [(T, error)] returns [Ok] with the value or
    [Err] with the error text (the wrapped cause is appended to the text
    the same way [fmt.Errorf("...: %w")] does). *)

Inductive result (A : Type) : Type :=
| Ok (a : A)
| Err (msg : string).
Arguments Ok {A} a.
Arguments Err {A} msg.

Definition rbind {A B} (r : result A) (f : A -> result B) : result B :=
  match r with Ok a => f a | Err e => Err e end.

Definition rmap {A B} (f : A -> B) (r : result A) : result B :=
  match r with Ok a => Ok (f a) | Err e => Err e end.

(** [fmt.Errorf("ctx: %w", err)] on the error path only. *)
Definition wrapErr {A} (ctx : string) (r : result A) : result A :=
  match r with Ok a => Ok a | Err e => Err (ctx +:+ ": " +:+ e) end.

Notation "'let!' x ':=' r 'in' k" := (rbind r (fun x => k))
  (at level 10, x pattern, r at level 100, k at level 200) : go_scope.

Definition is_ok {A} (r : result A) : bool :=
  match r with Ok _ => true | Err _ => false end.

Lemma rbind_Ok {A B} (r : result A) (f : A -> result B) b :
  rbind r f = Ok b <-> exists a, r = Ok a /\ f a = Ok b.
Proof. destruct r; naive_solver. Qed.

Lemma wrapErr_Ok {A} ctx (r : result A) a : wrapErr ctx r = Ok a <-> r = Ok a.
Proof. destruct r; naive_solver. Qed.

(** Splits every [rbind]/[wrapErr] success in the context. *)
Ltac inv_ok :=
  repeat match goal with
  | H : Ok _ = Ok _ |- _ => injection H as H; subst
  | H : Err _ = Ok _ |- _ => discriminate H
  | H : Ok _ = Err _ |- _ => discriminate H
  | H : rbind _ _ = Ok _ |- _ =>
      apply rbind_Ok in H; destruct H as (? & ? & H)
  | H : wrapErr _ _ = Ok _ |- _ => apply wrapErr_Ok in H
  end.

(** Membership of a concrete element in a concrete list. *)
Ltac in_list := vm_compute; repeat first [left; reflexivity | right].

(** A decidable property of concrete data, by evaluation. *)
Ltac decided := refine (bool_decide_unpack _ _); vm_compute; exact I.

(** A decidable property of the numbers below a bound, by evaluation. *)
Definition below (k : nat) : list N := N.of_nat <$> seq 0 k.

Lemma elem_of_below k n : (n < N.of_nat k)%N -> n ∈ below k.
Proof. intros H. apply list_elem_of_fmap. exists (N.to_nat n). split; [lia|]. apply elem_of_seq. lia. Qed.

Lemma below_ind k (P : N -> Prop) `{!forall n, Decision (P n)} : bool_decide (Forall P (below k)) = true -> forall n, (n < N.of_nat k)%N -> P n.
Proof. intros Hb n Hn%elem_of_below. apply bool_decide_eq_true in Hb. rewrite Forall_forall in Hb. by apply Hb. Qed.

(** Destructs the scrutinee of a [match]/[if] in the goal. *)
Ltac case_goal :=
  match goal with
  | |- context [if ?b then _ else _] => destruct b eqn:?
  | |- context [match ?x with _ => _ end] => destruct x eqn:?
  end.

(** ** Byte sequences

    Go strings and byte slices are both finite sequences of 8-bit values;
    both are [string].  [slen] is Go's [len], [sdrop n s] is [s[n:]] and
    [stake n s] is [s[:n]] for [n <= len(s)]. *)

Abbreviation slen := String.length.

#[global] Arguments String.append !_ _ : simpl nomatch.

Fixpoint sdrop (n : nat) (s : string) : string :=
  match n, s with
  | O, _ => s
  | S n, String _ t => sdrop n t
  | S _, EmptyString => EmptyString
  end.

Fixpoint stake (n : nat) (s : string) : string :=
  match n, s with
  | O, _ => EmptyString
  | S n, String c t => String c (stake n t)
  | S _, EmptyString => EmptyString
  end.

(** [s[i]], [None] being the out-of-range panic. *)
Fixpoint sget (i : nat) (s : string) : option ascii :=
  match i, s with
  | _, EmptyString => None
  | O, String c _ => Some c
  | S i, String _ t => sget i t
  end.

Lemma sapp_assoc (a b c : string) : (a +:+ b) +:+ c = a +:+ (b +:+ c).
Proof. induction a; cbn; congruence. Qed.

Lemma sapp_nil_r (a : string) : a +:+ "" = a.
Proof. induction a; cbn; congruence. Qed.

Lemma slen_app (a b : string) : slen (a +:+ b) = slen a + slen b.
Proof. induction a; cbn; congruence. Qed.

Lemma sapp_inv_head (a b c : string) : a +:+ b = a +:+ c -> b = c.
Proof. induction a; cbn; intros; simplify_eq; auto. Qed.

Lemma sapp_inj_len (a a' b b' : string) :
  slen a = slen a' -> a +:+ b = a' +:+ b' -> a = a' /\ b = b'.
Proof.
  revert a'. induction a as [|c a IH]; intros [|c' a']; cbn; intros Hl He;
    simplify_eq; auto.
  destruct (IH a') as [-> ->]; auto.
Qed.

Lemma slen_0 (a : string) : slen a = 0 <-> a = "".
Proof. destruct a; cbn; naive_solver. Qed.

Lemma sapp_eq_nil (a b : string) : a +:+ b = "" <-> a = "" /\ b = "".
Proof. destruct a; cbn; naive_solver. Qed.

Lemma sdrop_app (a b : string) : sdrop (slen a) (a +:+ b) = b.
Proof. induction a; cbn; auto. Qed.

Lemma stake_app (a b : string) : stake (slen a) (a +:+ b) = a.
Proof. induction a; cbn; congruence. Qed.

Lemma stake_sdrop n (s : string) : stake n s +:+ sdrop n s = s.
Proof. revert s; induction n; intros [|c s]; cbn; congruence. Qed.

Lemma slen_stake n (s : string) : n <= slen s -> slen (stake n s) = n.
Proof. revert s; induction n; intros [|c s]; cbn; intros; auto with lia. Qed.

Lemma slen_sdrop n (s : string) : slen (sdrop n s) = slen s - n.
Proof. revert s; induction n; intros [|c s]; cbn; auto. Qed.

Lemma sdrop_all n (s : string) : slen s <= n -> sdrop n s = "".
Proof. revert s; induction n; intros [|c s]; cbn; auto with lia. Qed.

Lemma stake_app_plus n (a b : string) :
  stake (slen a + n) (a +:+ b) = a +:+ stake n b.
Proof. induction a; cbn; congruence. Qed.

Lemma sdrop_app_plus n (a b : string) : sdrop (slen a + n) (a +:+ b) = sdrop n b.
Proof. induction a; cbn; congruence. Qed.

(** The strings one after the other. *)
Fixpoint sconcat (l : list string) : string :=
  match l with [] => "" | x :: r => x +:+ sconcat r end.

Lemma sconcat_app l1 l2 : sconcat (l1 ++ l2) = sconcat l1 +:+ sconcat l2.
Proof. induction l1 as [|x l1 IH]; [done|]. cbn. by rewrite IH, sapp_assoc. Qed.

Lemma sdrop_sdrop a b s : sdrop a (sdrop b s) = sdrop (b + a) s.
Proof. revert s. induction b as [|b IH]; intros [|x s]; cbn; auto. by destruct a. Qed.

Lemma stake_app_le n a b : n <= slen a -> stake n (a +:+ b) = stake n a.
Proof. revert a. induction n as [|n IH]; intros [|x a] H; cbn in *; try lia; auto. rewrite IH by lia. done. Qed.

Lemma sdrop_app_le n a b : n <= slen a -> sdrop n (a +:+ b) = sdrop n a +:+ b.
Proof. revert a. induction n as [|n IH]; intros [|x a] H; cbn in *; try lia; auto. apply IH. lia. Qed.

Lemma stake_all n s : slen s <= n -> stake n s = s.
Proof. revert s. induction n as [|n IH]; intros [|x s] H; cbn in *; try lia; auto. by rewrite IH by lia. Qed.

Lemma stake_split a b s : a <= b -> stake b s = stake a s +:+ stake (b - a) (sdrop a s).
Proof.
  revert b s. induction a as [|a IH]; intros b s H; [cbn; by rewrite Nat.sub_0_r|].
  destruct b as [|b]; [lia|]. destruct s as [|x s]; cbn; [by destruct (b - a)|]. by rewrite <- IH by lia.
Qed.

#[export] Hint Rewrite sapp_assoc sapp_nil_r slen_app sdrop_app stake_app : gostr.

(** ** Big-endian integers ([encoding/binary.BigEndian])

    [be_bytes n z] are the [n] low bytes of [z], most significant first:
    [PutUint32]/[PutUint64] are the instances 4 and 8. *)

Definition byte_of_Z (z : Z) : ascii := ascii_of_N (Z.to_N (z mod 256)).
Definition Z_of_byte (c : ascii) : Z := Z.of_N (N_of_ascii c).

Fixpoint be_bytes (n : nat) (z : Z) : string :=
  match n with
  | O => ""
  | S n' => be_bytes n' (Z.shiftr z 8) +:+ String (byte_of_Z z) ""
  end.

Fixpoint be_value_from (acc : Z) (s : string) : Z :=
  match s with
  | EmptyString => acc
  | String c t => be_value_from (Z.lor (Z.shiftl acc 8) (Z_of_byte c)) t
  end.

(** [BigEndian.Uint32]/[Uint64] of a slice of the right length. *)
Definition be_value (s : string) : Z := be_value_from 0 s.

Lemma slen_be_bytes n z : slen (be_bytes n z) = n.
Proof. revert z; induction n; intros; cbn; [done|]. rewrite slen_app, IHn; cbn; lia. Qed.

Lemma Z_of_byte_bound c : (0 <= Z_of_byte c < 256)%Z.
Proof.
  unfold Z_of_byte. pose proof (N_ascii_bounded c). lia.
Qed.

Lemma Z_of_byte_of_Z z : Z_of_byte (byte_of_Z z) = (z mod 256)%Z.
Proof.
  unfold Z_of_byte, byte_of_Z.
  pose proof (Z.mod_pos_bound z 256 ltac:(lia)).
  rewrite N_ascii_embedding; lia.
Qed.

Lemma lor_shiftl_8 a b : (0 <= b < 256)%Z -> Z.lor (Z.shiftl a 8) b = (a * 256 + b)%Z.
Proof.
  intros Hb. rewrite Z.shiftl_mul_pow2 by lia. change (2 ^ 8)%Z with 256%Z.
  symmetry.
  assert (Hl : Z.land (a * 256) b = 0%Z).
  { apply Z.bits_inj'. intros n Hn. rewrite Z.land_spec, Z.bits_0.
    destruct (decide (n < 8)%Z).
    - change 256%Z with (2 ^ 8)%Z. rewrite Z.mul_pow2_bits_low by lia. done.
    - rewrite (Z.bits_above_log2 b n), andb_false_r; [done|lia|].
      destruct (decide (b = 0)%Z) as [->|]; [cbn; lia|].
      apply Z.log2_lt_pow2; [lia|].
      apply Z.lt_le_trans with (2 ^ 8)%Z; [cbn; lia|].
      apply Z.pow_le_mono_r; lia. }
  rewrite <- Z.lxor_lor by done. rewrite <- Z.add_nocarry_lxor by done. done.
Qed.

Lemma be_value_from_app acc a b :
  be_value_from acc (a +:+ b) = be_value_from (be_value_from acc a) b.
Proof. revert acc; induction a; intros; cbn; auto. Qed.

(** Decoding the encoding yields the value modulo the width. *)
Lemma be_value_bytes n z : be_value (be_bytes n z) = (z mod 2 ^ (8 * Z.of_nat n))%Z.
Proof.
  unfold be_value. revert z. induction n as [|n IH]; intros z.
  { cbn. by rewrite Z.mod_1_r. }
  cbn [be_bytes]. rewrite be_value_from_app, IH. cbn [be_value_from].
  rewrite lor_shiftl_8 by apply Z_of_byte_bound.
  rewrite Z_of_byte_of_Z, Z.shiftr_div_pow2 by lia.
  replace (8 * Z.of_nat (S n))%Z with (8 + 8 * Z.of_nat n)%Z by lia.
  rewrite Z.pow_add_r by lia. change (2 ^ 8)%Z with 256%Z.
  assert (0 < 2 ^ (8 * Z.of_nat n))%Z by (apply Z.pow_pos_nonneg; lia).
  rewrite Z.rem_mul_r by lia. lia.
Qed.

Lemma be_value_bytes_small n z :
  (0 <= z < 2 ^ (8 * Z.of_nat n))%Z -> be_value (be_bytes n z) = z.
Proof. intros. rewrite be_value_bytes. by apply Z.mod_small. Qed.

(** Encoding the decoded value yields the bytes, by induction from the last
    byte. *)
Lemma string_snoc_ind (P : string -> Prop) :
  P "" -> (forall s c, P s -> P (s +:+ String c "")) -> forall s, P s.
Proof.
  intros H0 Hs s. remember (slen s) as n eqn:E. revert s E. induction n as [|n IH]; intros s E.
  { by destruct s. }
  rewrite <- (stake_sdrop n s). pose proof (slen_sdrop n s) as Hd.
  destruct (sdrop n s) as [|c [|c' t]]; cbn in Hd; [lia| |lia].
  apply Hs, IH. rewrite slen_stake; lia.
Qed.

Lemma be_value_snoc s c : be_value (s +:+ String c "") = (be_value s * 256 + Z_of_byte c)%Z.
Proof. unfold be_value. rewrite be_value_from_app. cbn. apply lor_shiftl_8, Z_of_byte_bound. Qed.

Lemma be_value_range s : (0 <= be_value s < 2 ^ (8 * Z.of_nat (slen s)))%Z.
Proof.
  induction s as [|s c IH] using string_snoc_ind; [cbn; lia|].
  rewrite be_value_snoc, slen_app. pose proof (Z_of_byte_bound c).
  replace (8 * Z.of_nat (slen s + slen (String c "")))%Z with (8 + 8 * Z.of_nat (slen s))%Z by (cbn [slen String.length]; lia).
  rewrite Z.pow_add_r by lia. change (2 ^ 8)%Z with 256%Z. lia.
Qed.

Lemma be_bytes_value s : be_bytes (slen s) (be_value s) = s.
Proof.
  induction s as [|s c IH] using string_snoc_ind; [done|].
  rewrite be_value_snoc, slen_app. replace (slen s + slen (String c "")) with (S (slen s)) by (cbn; lia).
  cbn [be_bytes]. pose proof (Z_of_byte_bound c) as Hc. f_equal.
  - rewrite Z.shiftr_div_pow2 by lia. change (2 ^ 8)%Z with 256%Z.
    rewrite Z.div_add_l, Z.div_small, Z.add_0_r by lia. exact IH.
  - f_equal. unfold byte_of_Z. rewrite Z.add_comm, Z.mod_add, Z.mod_small by lia.
    unfold Z_of_byte. rewrite N2Z.id. apply ascii_N_embedding.
Qed.

Lemma be_bytes_inj n a b :
  (0 <= a < 2 ^ (8 * Z.of_nat n))%Z -> (0 <= b < 2 ^ (8 * Z.of_nat n))%Z ->
  be_bytes n a = be_bytes n b -> a = b.
Proof.
  intros Ha Hb H. rewrite <- (be_value_bytes_small n a), <- (be_value_bytes_small n b) by done.
  by f_equal.
Qed.

(** ** Machine integers *)

(** Conversion to [int32]: two's complement wrap-around. *)
Definition int32 (z : Z) : Z := ((z + 2 ^ 31) mod 2 ^ 32 - 2 ^ 31)%Z.

Definition isInt32 (z : Z) : Prop := (- 2 ^ 31 <= z < 2 ^ 31)%Z.

(** Conversion to [int64]. *)
Definition int64 (z : Z) : Z := ((z + 2 ^ 63) mod 2 ^ 64 - 2 ^ 63)%Z.

Lemma int64_id z : (- 2 ^ 63 <= z < 2 ^ 63)%Z -> int64 z = z.
Proof. unfold int64. intros H. rewrite Z.mod_small by lia. lia. Qed.

Lemma int32_range z : isInt32 (int32 z).
Proof. unfold isInt32, int32. pose proof (Z.mod_pos_bound (z + 2 ^ 31) (2 ^ 32)). lia. Qed.

Lemma int32_id z : isInt32 z -> int32 z = z.
Proof. unfold isInt32, int32. intros H. rewrite Z.mod_small by lia. lia. Qed.
