(* ===== verification/Effects.v ===== *)
(** * Effects: code that changes state, fails or panics.

    A Go handler is a function of the state that answers with an outcome and
    the new state: [Done] with a value, [Failed] with the error it returned,
    [Panicked] when the goroutine panics.  Deferred calls run in all three
    cases ([defer]).  [keeps R m] says that [m] moves the state along the
    relation [R] whatever its outcome; the lemmas in the hint database [act]
    derive it for a handler from its parts. *)

From S2P Require Import Prelude.

Inductive outcome (A : Type) := Done (a : A) | Failed (e : string) | Panicked.
#[global] Arguments Done {A}.
#[global] Arguments Failed {A}.
#[global] Arguments Panicked {A}.

Definition act (St A : Type) : Type := St -> outcome A * St.

Section Combinators.
  Context {St : Type}.

Definition ret {A} (a : A) : act St A := fun s => (Done a, s).
Definition failure {A} (e : string) : act St A := fun s => (Failed e, s).
Definition panic {A} : act St A := fun s => (Panicked, s).

Definition bind {A B} (m : act St A) (k : A -> act St B) : act St B := fun s =>
  match m s with
  | (Done a, s') => k a s'
  | (Failed e, s') => (Failed e, s')
  | (Panicked, s') => (Panicked, s')
  end.

(** A fallible computation on a value read from the state. *)
Definition check {A} (r : St -> result A) : act St A := fun s =>
  (match r s with Ok a => Done a | Err e => Failed e end, s).

(** The same where [None] is a panic. *)
Definition checkPanic {A} (r : St -> option (result A)) : act St A := fun s =>
  (match r s with Some (Ok a) => Done a | Some (Err e) => Failed e | None => Panicked end, s).

(** [if err != nil \{ return fmt.Errorf("ctx: %w", err) \}]. *)
Definition wrapping {A} (ctx : string) (m : act St A) : act St A := fun s =>
  match m s with
  | (Failed e, s') => (Failed (ctx +:+ ": " +:+ e), s')
  | r => r
  end.

Definition modify (f : St -> St) : act St unit := fun s => (Done tt, f s).

(** The body [m] after [defer cleanup()]. *)
Definition defer {A} (cleanup : St -> St) (m : act St A) : act St A := fun s =>
  let '(o, s') := m s in (o, cleanup s').

(** A computation on a part of the state. *)
Definition on {T A} (get : St -> T) (put : T -> St -> St) (m : T -> result A * T) : act St A := fun s =>
  let '(r, t) := m (get s) in
  (match r with Ok a => Done a | Err e => Failed e end, put t s).
End Combinators.

Notation "'let*' x ':=' m 'in' k" := (bind m (fun x => k))
  (at level 10, x pattern, m at level 100, k at level 200) : go_scope.

(** ** Inversion *)

Lemma bind_Done {St A B} (m : act St A) (k : A -> act St B) s b s' :
  bind m k s = (Done b, s') <-> exists a s1, m s = (Done a, s1) /\ k a s1 = (Done b, s').
Proof. unfold bind. destruct (m s) as [[a|e|] s1]; naive_solver. Qed.

Lemma check_Done {St A} (r : St -> result A) s a s' :
  check r s = (Done a, s') <-> r s = Ok a /\ s' = s.
Proof. unfold check. destruct (r s); naive_solver. Qed.

Lemma bind_assoc {St A B C} (m : act St A) (f : A -> act St B) (g : B -> act St C) s :
  (let* y := (let* x := m in f x) in g y) s = (let* x := m in let* y := f x in g y) s.
Proof. unfold bind. by destruct (m s) as [[]]. Qed.

Lemma bind_check {St A B} (r : St -> result A) (k : A -> act St B) s :
  bind (check r) k s = match r s with Ok a => k a s | Err e => (Failed e, s) end.
Proof. unfold bind, check. by destruct (r s). Qed.

Lemma wrapping_Done {St A} ctx (m : act St A) s a s' :
  wrapping ctx m s = (Done a, s') <-> m s = (Done a, s').
Proof. unfold wrapping. destruct (m s) as [[]]; naive_solver. Qed.

Lemma defer_spec {St A} c (m : act St A) s o s' :
  defer c m s = (o, s') <-> exists s1, m s = (o, s1) /\ s' = c s1.
Proof. unfold defer. destruct (m s). naive_solver. Qed.

(** ** Congruence: computations are compared at the states they are run from *)

Lemma bind_ext {St A B} (m m' : act St A) (k k' : A -> act St B) s :
  m' s = m s -> (forall a s1, m s = (Done a, s1) -> k' a s1 = k a s1) -> bind m' k' s = bind m k s.
Proof. intros E Hk. unfold bind. rewrite E. destruct (m s) as [[a|e|] s1]; auto. Qed.

Lemma wrapping_ext {St A} ctx (m m' : act St A) s : m' s = m s -> wrapping ctx m' s = wrapping ctx m s.
Proof. intros E. unfold wrapping. by rewrite E. Qed.

Lemma defer_ext {St A} c (m m' : act St A) s : m' s = m s -> defer c m' s = defer c m s.
Proof. intros E. unfold defer. by rewrite E. Qed.

(** ** Relations kept *)

Definition keeps {St A} (R : St -> St -> Prop) (m : act St A) : Prop := forall s, R s (m s).2.

Create HintDb act.

Section Keeps.
  Context {St : Type} (R : St -> St -> Prop) `{!PreOrder R}.

Lemma keeps_ret {A} (a : A) : keeps R (ret a).
Proof. intros s. cbn. reflexivity. Qed.
Lemma keeps_failure {A} e : keeps R (failure (A := A) e).
Proof. intros s. cbn. reflexivity. Qed.
Lemma keeps_panic {A} : keeps R (panic (A := A)).
Proof. intros s. cbn. reflexivity. Qed.
Lemma keeps_check {A} (r : St -> result A) : keeps R (check r).
Proof. intros s. cbn. reflexivity. Qed.
Lemma keeps_checkPanic {A} (r : St -> option (result A)) : keeps R (checkPanic r).
Proof. intros s. cbn. reflexivity. Qed.

Lemma keeps_bind {A B} (m : act St A) (k : A -> act St B) :
  keeps R m -> (forall a, keeps R (k a)) -> keeps R (bind m k).
Proof.
  intros Hm Hk s. unfold bind. specialize (Hm s). destruct (m s) as [[a|e|] s1]; [|done..].
  etransitivity; [exact Hm|apply Hk].
Qed.

Lemma keeps_wrapping {A} ctx (m : act St A) : keeps R m -> keeps R (wrapping ctx m).
Proof. intros Hm s. unfold wrapping. specialize (Hm s). by destruct (m s) as [[]]. Qed.

Lemma keeps_defer {A} c (m : act St A) :
  keeps R m -> (forall s, R s (c s)) -> keeps R (defer c m).
Proof.
  intros Hm Hc s. unfold defer. specialize (Hm s). destruct (m s) as [o s1].
  etransitivity; [exact Hm|apply Hc].
Qed.

Lemma keeps_modify f : (forall s, R s (f s)) -> keeps R (modify f).
Proof. intros Hf s. apply Hf. Qed.

Lemma keeps_on {T A} (get : St -> T) put (m : T -> result A * T) :
  (forall s, R s (put (m (get s)).2 s)) -> keeps R (on get put m).
Proof. intros H s. unfold on. specialize (H s). by destruct (m (get s)). Qed.
End Keeps.

#[export] Hint Resolve keeps_ret keeps_failure keeps_panic keeps_check keeps_checkPanic : act.
#[export] Hint Resolve keeps_bind keeps_wrapping keeps_defer keeps_modify keeps_on : act.

(** Equality of a projection of the state, as a relation to keep. *)
Definition sameBy {St T} (f : St -> T) (s s' : St) : Prop := f s' = f s.

#[global] Instance sameBy_preorder {St T} (f : St -> T) : PreOrder (sameBy f).
Proof. split; [done|]. intros s1 s2 s3 H1 H2. unfold sameBy in *. congruence. Qed.

Lemma keeps_sub {St A} (R Q : St -> St -> Prop) (m : act St A) :
  keeps R m -> (forall s s', R s s' -> Q s s') -> keeps Q m.
Proof. intros H HQ s. apply HQ, H. Qed.
