(* ===== verification/GoStrings.v ===== *)
(** * GoStrings: the functions of Go's [strings] and [sort] packages that
    the sources use, on byte sequences.

    Case folding and white space are the ASCII parts of the Go functions
    ([strings.ToLower], [strings.Fields], [strings.TrimSpace] also know
    the Unicode classes; no caller in the sources depends on them). *)

From stdpp Require Import pretty.
From S2P Require Import Prelude.

(** ** Prefixes, suffixes, searching *)

(** [strings.HasPrefix(s, p)]. *)
Fixpoint hasPrefix (s p : string) {struct p} : bool :=
  match p, s with
  | EmptyString, _ => true
  | String c p', String d s' => Ascii.eqb c d && hasPrefix s' p'
  | String _ _, EmptyString => false
  end.

(** [strings.HasSuffix(s, x)]. *)
Definition hasSuffix (s x : string) : bool :=
  (slen x <=? slen s) && String.eqb (sdrop (slen s - slen x) s) x.

(** [strings.TrimPrefix(s, p)], [strings.TrimSuffix(s, x)]. *)
Definition trimPrefix (s p : string) : string :=
  if hasPrefix s p then sdrop (slen p) s else s.
Definition trimSuffix (s x : string) : string :=
  if hasSuffix s x then stake (slen s - slen x) s else s.

(** [strings.Index(s, sub)]; [None] is -1. *)
Fixpoint indexOf (s sub : string) : option nat :=
  if hasPrefix s sub then Some 0
  else match s with
       | EmptyString => None
       | String _ t => S <$> indexOf t sub
       end.

(** [strings.Contains(s, sub)]. *)
Definition contains (s sub : string) : bool :=
  match indexOf s sub with Some _ => true | None => false end.

(** [strings.IndexByte] and [strings.IndexAny], by a predicate on bytes. *)
Fixpoint indexBy (f : ascii -> bool) (s : string) : option nat :=
  match s with
  | EmptyString => None
  | String c t => if f c then Some 0 else S <$> indexBy f t
  end.

(** [strings.LastIndexByte] and [strings.LastIndexAny]. *)
Fixpoint lastIndexBy (f : ascii -> bool) (s : string) : option nat :=
  match s with
  | EmptyString => None
  | String c t =>
      match lastIndexBy f t with
      | Some i => Some (S i)
      | None => if f c then Some 0 else None
      end
  end.

(** [strings.ContainsRune(s, c)] for an ASCII rune. *)
Fixpoint containsByte (s : string) (c : ascii) : bool :=
  match s with
  | EmptyString => false
  | String d t => Ascii.eqb d c || containsByte t c
  end.

(** [strings.Cut(s, sep)] for a one-byte separator: before and after the
    first separator; the whole string and "" when there is none. *)
Fixpoint cut (sep : ascii) (s : string) : string * string * bool :=
  match s with
  | EmptyString => ("", "", false)
  | String c t =>
      if Ascii.eqb c sep then ("", t, true)
      else let '(b, a, ok) := cut sep t in (String c b, a, ok)
  end.

(** ** Splitting and trimming *)

(** [strings.Split(s, sep)] for a one-byte separator. *)
Fixpoint splitOn (sep : ascii) (s : string) : list string :=
  match s with
  | EmptyString => [""]
  | String c t =>
      if Ascii.eqb c sep then "" :: splitOn sep t
      else match splitOn sep t with
           | [] => [String c ""]
           | w :: ws => String c w :: ws
           end
  end.

(** [strings.Join(ws, sep)]. *)
Fixpoint joinWith (sep : string) (ws : list string) : string :=
  match ws with
  | [] => ""
  | [w] => w
  | w :: ws' => w +:+ sep +:+ joinWith sep ws'
  end.

(** The ASCII white space of [unicode.IsSpace]: tab, LF, VT, FF, CR, space. *)
Definition isSpace (c : ascii) : bool :=
  let n := N_of_ascii c in ((9 <=? n) && (n <=? 13) || (n =? 32))%N.

(** [strings.Fields(s)]: the maximal runs of non-space bytes. [cur] is the
    run being read. *)
Fixpoint fieldsFrom (cur : string) (s : string) : list string :=
  match s with
  | EmptyString => if String.eqb cur "" then [] else [cur]
  | String c t =>
      if isSpace c
      then (if String.eqb cur "" then [] else [cur]) ++ fieldsFrom "" t
      else fieldsFrom (cur +:+ String c "") t
  end.
Definition fields (s : string) : list string := fieldsFrom "" s.

(** [strings.TrimLeftFunc] and [strings.TrimRightFunc]. *)
Fixpoint trimLeftBy (f : ascii -> bool) (s : string) : string :=
  match s with
  | String c t => if f c then trimLeftBy f t else s
  | EmptyString => ""
  end.
Fixpoint trimRightBy (f : ascii -> bool) (s : string) : string :=
  match s with
  | EmptyString => ""
  | String c t =>
      let t' := trimRightBy f t in
      if String.eqb t' "" && f c then "" else String c t'
  end.

(** [strings.TrimSpace(s)]. *)
Definition trimSpace (s : string) : string := trimRightBy isSpace (trimLeftBy isSpace s).

(** [strings.ReplaceAll(s, old, new)] for a non-empty [old]; the fuel is the
    number of positions left to scan. *)
Fixpoint replaceFrom (fuel : nat) (s old new : string) : string :=
  match fuel, s with
  | S fuel', String c t =>
      if hasPrefix s old then new +:+ replaceFrom fuel' (sdrop (slen old) s) old new
      else String c (replaceFrom fuel' t old new)
  | _, _ => s
  end.
Definition replaceAll (s old new : string) : string := replaceFrom (slen s) s old new.

(** ** Case, order *)

Definition lowerByte (c : ascii) : ascii :=
  let n := N_of_ascii c in
  if ((65 <=? n) && (n <=? 90))%N then ascii_of_N (n + 32) else c.

(** [strings.ToLower(s)] on ASCII. *)
Fixpoint toLower (s : string) : string :=
  match s with
  | EmptyString => ""
  | String c t => String (lowerByte c) (toLower t)
  end.

(** The value of a decimal digit. *)
Definition digitVal (c : ascii) : option Z :=
  let n := N_of_ascii c in
  if ((48 <=? n) && (n <=? 57))%N then Some (Z.of_N (n - 48)) else None.

(** ** [strconv] *)

(** [strconv.Itoa]. *)
Definition itoa (z : Z) : string := pretty z.

Fixpoint digitsVal (acc : Z) (s : string) : option Z :=
  match s with
  | EmptyString => Some acc
  | String c t => match digitVal c with
                  | Some d => digitsVal (acc * 10 + d)%Z t
                  | None => None
                  end
  end.

(** [strconv.Atoi] on a 64-bit platform: an optional sign and digits, in
    range. *)
Definition atoi (s : string) : option Z :=
  let '(neg, body) :=
    match s with
    | String c t => if Ascii.eqb c "-"%char then (true, t)
                    else if Ascii.eqb c "+"%char then (false, t) else (false, s)
    | EmptyString => (false, s)
    end in
  if String.eqb body "" then None
  else match digitsVal 0 body with
  | None => None
  | Some v =>
      let v := if neg : bool then (- v)%Z else v in
      if ((- 2 ^ 63 <=? v) && (v <? 2 ^ 63))%Z then Some v else None
  end.

(** Go's [<=] on strings: byte-wise lexicographic. *)
Definition sle (a b : string) : Prop := String.leb a b = true.
#[global] Instance sle_dec : RelDecision sle.
Proof. intros a b. unfold sle. apply _. Defined.

Definition slt (a b : string) : bool := negb (String.leb b a).

(** ** Sorting

    Insertion sort by a decidable relation; equal elements keep their
    order ([sort.SliceStable]).  The Go calls that are not stable
    ([sort.Slice], [slices.SortFunc], [slices.Sort]) are only used on
    elements whose order is determined by the key ([sorted_unique]). *)

Section Sort.
Context {A : Type} (R : relation A) `{!RelDecision R}.

Fixpoint insertBy (x : A) (l : list A) : list A :=
  match l with
  | [] => [x]
  | y :: l' => if decide (R x y) then x :: y :: l' else y :: insertBy x l'
  end.

Fixpoint isort (l : list A) : list A :=
  match l with
  | [] => []
  | x :: l' => insertBy x (isort l')
  end.

Lemma insertBy_Permutation x l : insertBy x l ≡ₚ x :: l.
Proof.
  induction l as [|y l IH]; cbn; [done|]. case_decide; [done|].
  rewrite IH. by constructor.
Qed.

Lemma isort_Permutation l : isort l ≡ₚ l.
Proof. induction l as [|x l IH]; cbn; [done|]. by rewrite insertBy_Permutation, IH. Qed.

Lemma insertBy_Sorted `{!Transitive R, !Total R} x l :
  StronglySorted R l -> StronglySorted R (insertBy x l).
Proof.
  induction 1 as [|y l Hs IH Hy]; cbn; [by repeat constructor|].
  case_decide as Hd.
  - constructor; [by constructor|]. constructor; [done|].
    eapply Forall_impl; [exact Hy|]. intros z Hz. by transitivity y.
  - constructor; [done|]. rewrite insertBy_Permutation. constructor; [|done].
    by destruct (total R x y).
Qed.

Lemma isort_Sorted `{!Transitive R, !Total R} l : StronglySorted R (isort l).
Proof. induction l; cbn; [constructor|]. by apply insertBy_Sorted. Qed.

(** Sorting leaves a sorted list alone. *)
Lemma isort_id l : StronglySorted R l -> isort l = l.
Proof.
  induction 1 as [|y l Hs IH Hy]; cbn; [done|]. rewrite IH.
  destruct l as [|z l]; [done|]. cbn. inversion Hy; subst. by rewrite decide_True.
Qed.
End Sort.

(** Two sorted permutations agree when the order is antisymmetric on the
    elements at hand. *)
Lemma sorted_unique {A} (R : relation A) (l1 l2 : list A) :
  (forall x y, x ∈ l1 -> y ∈ l1 -> R x y -> R y x -> x = y) ->
  StronglySorted R l1 -> StronglySorted R l2 -> l1 ≡ₚ l2 -> l1 = l2.
Proof.
  revert l2. induction l1 as [|x l1 IH]; intros l2 Hanti H1 H2 Hp.
  { by apply Permutation_nil_l in Hp. }
  destruct l2 as [|y l2]; [by apply Permutation_nil_r in Hp|].
  assert (x = y) as <-.
  { assert (y ∈ x :: l1) as Hy by (rewrite Hp; set_solver).
    assert (x ∈ y :: l2) as Hx by (rewrite <- Hp; set_solver).
    apply elem_of_cons in Hy as [->|Hy]; [done|].
    apply elem_of_cons in Hx as [->|Hx]; [done|].
    inversion H1 as [|? ? ? F1]; inversion H2 as [|? ? ? F2]; subst.
    rewrite Forall_forall in F1, F2.
    apply Hanti; [set_solver|set_solver|by apply F1|by apply F2]. }
  f_equal. inversion H1; inversion H2; subst.
  apply IH; [|done|done|by eapply Permutation_cons_inv].
  intros; apply Hanti; set_solver.
Qed.

(** ** Facts *)

Lemma hasPrefix_app p s : hasPrefix (p +:+ s) p = true.
Proof. induction p; cbn; rewrite ?Ascii.eqb_refl; auto. Qed.

Lemma hasPrefix_spec s p : hasPrefix s p = true <-> exists r, s = p +:+ r.
Proof.
  split.
  - revert s. induction p as [|c p IH]; intros s Hp; [by exists s|].
    destruct s as [|d s]; [done|]. cbn in Hp. apply andb_true_iff in Hp as [Hc Hp].
    apply Ascii.eqb_eq in Hc as ->. destruct (IH _ Hp) as [r ->]. by exists r.
  - intros [r ->]. apply hasPrefix_app.
Qed.

(** [s == p] implies [HasPrefix(s, p)]. *)
Lemma hasPrefix_refl s : hasPrefix s s = true.
Proof. rewrite <- (sapp_nil_r s) at 1. apply hasPrefix_app. Qed.

Lemma hasPrefix_split s p : hasPrefix s p = true -> s = p +:+ sdrop (slen p) s.
Proof. intros [r ->]%hasPrefix_spec. by rewrite sdrop_app. Qed.

(** Two prefixes of one string are comparable. *)
Lemma hasPrefix_common s p q :
  hasPrefix s p = true -> hasPrefix s q = true -> slen p <= slen q -> hasPrefix q p = true.
Proof.
  revert s q. induction p as [|c p IH]; intros s q Hp Hq Hl; [done|].
  destruct q as [|d q]; cbn in Hl; [lia|]. destruct s as [|e s]; [done|].
  cbn in *. apply andb_true_iff in Hp as [Hc Hp], Hq as [Hd Hq].
  apply Ascii.eqb_eq in Hc as ->, Hd as ->. rewrite Ascii.eqb_refl. cbn.
  eapply IH; eauto. lia.
Qed.

Lemma hasPrefix_trans s p q :
  hasPrefix s p = true -> hasPrefix p q = true -> hasPrefix s q = true.
Proof.
  intros [r ->]%hasPrefix_spec [r' ->]%hasPrefix_spec. rewrite sapp_assoc. apply hasPrefix_app.
Qed.

Lemma hasPrefix_slen s p : hasPrefix s p = true -> slen p <= slen s.
Proof. intros [r ->]%hasPrefix_spec. rewrite slen_app. lia. Qed.

(** [Index] returns a position where [sub] occurs. *)
Lemma hasPrefix_len_eq s p q :
  slen p = slen q -> hasPrefix s p = true -> hasPrefix s q = true -> p = q.
Proof.
  intros Hl [r ->]%hasPrefix_spec [r' H]%hasPrefix_spec.
  by apply sapp_inj_len in H as [? _].
Qed.

Lemma indexOf_spec s sub i :
  indexOf s sub = Some i -> s = stake i s +:+ sub +:+ sdrop (i + slen sub) s.
Proof.
  revert i. induction s as [|c s IH]; intros i Hi; cbn [indexOf] in Hi.
  - destruct (hasPrefix "" sub) eqn:Hp; simplify_eq.
    destruct sub; [done|discriminate Hp].
  - destruct (hasPrefix (String c s) sub) eqn:Hp; simplify_eq.
    + cbn [stake plus]. by apply hasPrefix_split.
    + destruct (indexOf s sub) as [j|] eqn:Hj; simplify_eq/=.
      f_equal. by apply IH.
Qed.

Lemma contains_spec s sub : contains s sub = true <-> exists a b, s = a +:+ sub +:+ b.
Proof.
  unfold contains. split.
  - destruct (indexOf s sub) as [i|] eqn:Hi; [|done]. intros _.
    apply indexOf_spec in Hi. eauto.
  - intros (a & b & ->). induction a as [|c a IH]; cbn [String.append indexOf].
    + pose proof (hasPrefix_app sub b) as H.
      destruct (sub +:+ b); cbn [indexOf]; by rewrite H.
    + destruct (hasPrefix _ sub); [done|]. by destruct (indexOf (a +:+ sub +:+ b) sub).
Qed.

(** [Cut] splits at the first separator. *)
Lemma cut_spec sep s b a ok :
  cut sep s = (b, a, ok) ->
  (ok = true -> s = b +:+ String sep a) /\ (ok = false -> b = s /\ a = "") /\
  containsByte b sep = false.
Proof.
  revert b a ok. induction s as [|c s IH]; intros b a ok H; cbn in H; simplify_eq; [done|].
  destruct (Ascii.eqb_spec c sep) as [->|Hne]; simplify_eq; [done|].
  destruct (cut sep s) as [[b' a'] ok'] eqn:Hc; simplify_eq.
  destruct (IH _ _ _ eq_refl) as (H1 & H2 & H3). cbn.
  split; [|split].
  - intros ->. by rewrite H1 at 1.
  - intros ->. by destruct H2 as [-> ->].
  - apply orb_false_iff. split; [by apply Ascii.eqb_neq|done].
Qed.

Lemma cut_at sep w r : containsByte w sep = false -> cut sep (w +:+ String sep r) = (w, r, true).
Proof.
  induction w as [|c w IH]; cbn; [by rewrite Ascii.eqb_refl|]. intros [-> Hw]%orb_false_iff. by rewrite IH.
Qed.

Lemma cut_none sep w : containsByte w sep = false -> cut sep w = (w, "", false).
Proof. induction w as [|c w IH]; [done|]. cbn. intros [-> Hw]%orb_false_iff. by rewrite IH. Qed.

Lemma splitOn_ne sep s : splitOn sep s <> [].
Proof. destruct s as [|c s]; cbn; [done|]. case_match; [done|]. by destruct (splitOn sep s). Qed.

(** Joining the pieces of [Split] with the separator gives the string back. *)
Lemma joinWith_splitOn sep s : joinWith (String sep "") (splitOn sep s) = s.
Proof.
  induction s as [|c s IH]; [done|]. cbn [splitOn].
  pose proof (splitOn_ne sep s) as Hne.
  destruct (Ascii.eqb_spec c sep) as [->|_].
  - destruct (splitOn sep s) as [|w ws]; [done|]. cbn [joinWith] in *. by rewrite IH.
  - destruct (splitOn sep s) as [|w ws]; [done|].
    destruct ws; cbn in *; by rewrite IH.
Qed.

Lemma splitOn_no_sep sep s : Forall (fun w => containsByte w sep = false) (splitOn sep s).
Proof.
  induction s as [|c s IH]; cbn; [by repeat constructor|].
  destruct (Ascii.eqb_spec c sep) as [->|Hne]; [by constructor|].
  pose proof (splitOn_ne sep s). destruct (splitOn sep s) as [|w ws]; [done|].
  inversion IH; subst. constructor; [|done]. cbn.
  apply orb_false_iff. split; [by apply Ascii.eqb_neq|done].
Qed.

Lemma containsByte_app a b c : containsByte (a +:+ b) c = containsByte a c || containsByte b c.
Proof. induction a; cbn; [done|]. by rewrite IHa, orb_assoc. Qed.

(** ASCII folding is length preserving and idempotent. *)
Lemma indexOf_byte a c r :
  containsByte a c = false -> indexOf (a +:+ String c r) (String c "") = Some (slen a).
Proof.
  induction a as [|x a IH]; cbn [containsByte].
  - intros _. cbn. by rewrite Ascii.eqb_refl.
  - intros [Hx Ha]%orb_false_iff. cbn [String.append indexOf hasPrefix].
    rewrite Ascii.eqb_sym, Hx. cbn [andb]. by rewrite IH.
Qed.

(** ** Replacing *)

Lemma replaceFrom_fuel n m s old new :
  old <> "" -> slen s <= n -> slen s <= m -> replaceFrom n s old new = replaceFrom m s old new.
Proof.
  intros Ho. revert m s. induction n as [|n IH]; intros m s Hn Hm.
  - destruct s; [by destruct m|simpl in Hn; lia].
  - destruct s as [|c s]; [by destruct m|]. destruct m as [|m]; [simpl in Hm; lia|].
    cbn [replaceFrom]. simpl in Hn, Hm. destruct (hasPrefix (String c s) old).
    + f_equal. assert (0 < slen old) by (destruct old; simpl; [done|lia]).
      apply IH; rewrite slen_sdrop; simpl; lia.
    + f_equal. apply IH; lia.
Qed.

Lemma replaceAll_hit old new r :
  old <> "" -> replaceAll (old +:+ r) old new = new +:+ replaceAll r old new.
Proof.
  intros Ho. unfold replaceAll. destruct old as [|c old]; [done|].
  change (slen (String c old +:+ r)) with (S (slen (old +:+ r))).
  cbn [String.append replaceFrom].
  change (String c (old +:+ r)) with (String c old +:+ r).
  rewrite hasPrefix_app, sdrop_app. f_equal.
  apply replaceFrom_fuel; [done| |lia]. rewrite slen_app. lia.
Qed.

Lemma replaceAll_copy c t d old new :
  c <> d -> replaceAll (String c t) (String d old) new = String c (replaceAll t (String d old) new).
Proof.
  intros Hc. unfold replaceAll. cbn [slen replaceFrom hasPrefix].
  destruct (Ascii.eqb_spec d c); [congruence|]. done.
Qed.

Lemma replaceAll_app w r d old new :
  containsByte w d = false ->
  replaceAll (w +:+ r) (String d old) new = w +:+ replaceAll r (String d old) new.
Proof.
  induction w as [|c w IH]; cbn [containsByte]; intros H; [done|].
  apply orb_false_iff in H as [Hc H]. cbn [String.append].
  rewrite replaceAll_copy; [by rewrite IH|]. by apply Ascii.eqb_neq.
Qed.

Lemma replaceAll_absent s old new : old <> "" -> contains s old = false -> replaceAll s old new = s.
Proof.
  intros Ho. unfold replaceAll. generalize (le_n (slen s)).
  generalize (slen s) at 2 3. intros n. revert s.
  induction n as [|n IH]; intros [|c s] Hn Hc; try done.
  cbn [replaceFrom]. simpl in Hn.
  destruct (hasPrefix (String c s) old) eqn:E.
  - apply hasPrefix_spec in E as [r E].
    assert (contains (String c s) old = true) by (apply contains_spec; exists "", r; done).
    congruence.
  - f_equal. apply IH; [lia|]. destruct (contains s old) eqn:E2; [|done].
    apply contains_spec in E2 as (a & b & ->).
    assert (contains (String c (a +:+ old +:+ b)) old = true)
      by (apply contains_spec; exists (String c a), b; done).
    congruence.
Qed.

Lemma contains_byte s old c : contains s old = true -> containsByte old c = true -> containsByte s c = true.
Proof.
  intros (a & b & ->)%contains_spec H. rewrite !containsByte_app, H. by rewrite orb_true_r.
Qed.

(** ** Fields *)

Fixpoint spaceFree (s : string) : bool :=
  match s with EmptyString => true | String c t => negb (isSpace c) && spaceFree t end.

Lemma fieldsFrom_word cur w s :
  spaceFree w = true -> fieldsFrom cur (w +:+ s) = fieldsFrom (cur +:+ w) s.
Proof.
  revert cur. induction w as [|c w IH]; intros cur; cbn [spaceFree].
  - intros _. by rewrite sapp_nil_r.
  - intros [Hc%negb_true_iff H]%andb_true_iff. cbn [String.append fieldsFrom]. rewrite Hc, IH by done.
    by rewrite sapp_assoc.
Qed.

Lemma fieldsFrom_space cur c s :
  isSpace c = true -> cur <> "" -> fieldsFrom cur (String c s) = cur :: fields s.
Proof.
  intros Hc Hn. cbn [fieldsFrom]. rewrite Hc. by rewrite (proj2 (String.eqb_neq _ _) Hn).
Qed.

Lemma fields_space c s : isSpace c = true -> fields (String c s) = fields s.
Proof. intros Hc. unfold fields. cbn [fieldsFrom]. by rewrite Hc. Qed.

Lemma slen_toLower s : slen (toLower s) = slen s.
Proof. induction s; cbn; congruence. Qed.

Lemma lowerByte_idem c : lowerByte (lowerByte c) = lowerByte c.
Proof.
  destruct c as [b0 b1 b2 b3 b4 b5 b6 b7].
  destruct b0, b1, b2, b3, b4, b5, b6, b7; vm_compute; reflexivity.
Qed.

Lemma toLower_idem s : toLower (toLower s) = toLower s.
Proof. induction s; cbn; [done|]. by rewrite lowerByte_idem, IHs. Qed.

(** ** Byte-wise string order *)

Lemma ascii_compare_N a b : Ascii.compare a b = N.compare (N_of_ascii a) (N_of_ascii b).
Proof. done. Qed.

Lemma scompare_refl s : String.compare s s = Eq.
Proof. induction s; cbn; [done|]. by rewrite ascii_compare_N, N.compare_refl. Qed.

Lemma sle_refl s : sle s s.
Proof. unfold sle, String.leb. by rewrite scompare_refl. Qed.

Lemma scompare_trans_le a b c :
  String.compare a b <> Gt -> String.compare b c <> Gt -> String.compare a c <> Gt.
Proof.
  revert b c. induction a as [|x a IH]; intros [|y b] [|z c]; cbn; try done.
  rewrite !ascii_compare_N.
  destruct (N.compare_spec (N_of_ascii x) (N_of_ascii y)) as [Hxy|Hxy|Hxy];
    destruct (N.compare_spec (N_of_ascii y) (N_of_ascii z)) as [Hyz|Hyz|Hyz];
    destruct (N.compare_spec (N_of_ascii x) (N_of_ascii z)) as [Hxz|Hxz|Hxz];
    intros; try done; try lia. by eapply IH.
Qed.

Lemma sle_trans a b c : sle a b -> sle b c -> sle a c.
Proof.
  unfold sle, String.leb. intros H1 H2.
  pose proof (scompare_trans_le a b c) as H.
  destruct (String.compare a b), (String.compare b c), (String.compare a c); try done;
    exfalso; by apply H.
Qed.

Lemma sle_antisym a b : sle a b -> sle b a -> a = b.
Proof. apply String.leb_antisym. Qed.

#[global] Instance sle_preorder : PreOrder sle.
Proof. split; [exact sle_refl|exact sle_trans]. Qed.
#[global] Instance sle_total : Total sle.
Proof. intros a b. apply String.leb_total. Qed.
#[global] Instance sle_antisymm : AntiSymm (=) sle.
Proof. intros a b. apply sle_antisym. Qed.

(** [sort.Strings] / [slices.Sort] on strings: the order is antisymmetric,
    so the result is the sorted permutation, whatever the algorithm. *)
Definition sortStrings (l : list string) : list string := isort sle l.

Lemma sortStrings_Permutation l : sortStrings l ≡ₚ l.
Proof. apply isort_Permutation. Qed.

Lemma sortStrings_perm_eq l1 l2 : l1 ≡ₚ l2 -> sortStrings l1 = sortStrings l2.
Proof.
  intros Hp. apply (sorted_unique sle).
  - intros; by apply sle_antisym.
  - apply isort_Sorted; apply _.
  - apply isort_Sorted; apply _.
  - unfold sortStrings. by rewrite !isort_Permutation.
Qed.

#[export] Hint Resolve hasPrefix_app hasPrefix_refl : gostr.
