(* ===== verification/GoPath.v ===== *)
(** * GoPath: [path] and [path/filepath] as built for Unix.

    The separator is ['/'], there are no volume names, so [ToSlash] and
    [FromSlash] are the identity and [path] and [path/filepath] agree. *)

From S2P Require Import Prelude GoStrings.

Definition slash : ascii := "/"%char.

(** [filepath.ToSlash], [filepath.FromSlash]. *)
Definition toSlash (p : string) : string := p.
Definition fromSlash (p : string) : string := p.

(** [filepath.IsAbs(p)]. *)
Definition isAbs (p : string) : bool := hasPrefix p "/".

(** ** [Clean]

    The lexical processing of [filepath.Clean]: one component at a time,
    [out] being the components written so far, last first. *)
Definition cleanStep (rooted : bool) (out : list string) (c : string) : list string :=
  if String.eqb c "" || String.eqb c "." then out
  else if String.eqb c ".." then
    match out with
    | o :: out' => if String.eqb o ".." then ".." :: out else out'
    | [] => if rooted then [] else [".."]
    end
  else c :: out.

Definition cleanComps (rooted : bool) (cs : list string) : list string :=
  rev (foldl (cleanStep rooted) [] cs).

(** [filepath.Clean(p)]. *)
Definition clean (p : string) : string :=
  let body := joinWith "/" (cleanComps (isAbs p) (splitOn slash p)) in
  if isAbs p then "/" +:+ body
  else if String.eqb body "" then "." else body.

(** [filepath.Join(elems...)]: empty leading elements are ignored, the rest
    is joined with the separator and cleaned. *)
Fixpoint join (elems : list string) : string :=
  match elems with
  | [] => ""
  | e :: es => if String.eqb e "" then join es else clean (joinWith "/" (e :: es))
  end.

(** [filepath.Dir(p)]: [Clean] of everything up to and including the last
    slash. *)
Definition dir (p : string) : string :=
  match lastIndexBy (Ascii.eqb slash) p with
  | Some i => clean (stake (S i) p)
  | None => "."
  end.

(** [filepath.Base(p)]. *)
Definition base (p : string) : string :=
  if String.eqb p "" then "."
  else
    let q := trimRightBy (Ascii.eqb slash) p in
    if String.eqb q "" then "/"
    else match lastIndexBy (Ascii.eqb slash) q with
         | Some i => sdrop (S i) q
         | None => q
         end.

(** [filepath.Ext(p)]: the suffix from the last dot of the last element. *)
Definition ext (p : string) : string :=
  let last := match lastIndexBy (Ascii.eqb slash) p with
              | Some i => sdrop (S i) p
              | None => p
              end in
  match lastIndexBy (Ascii.eqb "."%char) last with
  | Some i => sdrop i last
  | None => ""
  end.

(** ** [Rel] *)

(** The components of a cleaned path. *)
Definition comps (p : string) : list string :=
  let q := trimPrefix p "/" in
  if String.eqb q "" then [] else splitOn slash q.

Fixpoint stripCommon (b t : list string) : list string * list string :=
  match b, t with
  | x :: b', y :: t' => if String.eqb x y then stripCommon b' t' else (b, t)
  | _, _ => (b, t)
  end.

(** [filepath.Rel(basepath, targpath)]. *)
Definition rel (basepath targpath : string) : result string :=
  let b := clean basepath in
  let t := clean targpath in
  if String.eqb t b then Ok "."
  else
    let b := if String.eqb b "." then "" else b in
    if negb (Bool.eqb (isAbs b) (isAbs t)) then
      Err ("Rel: can't make " +:+ targpath +:+ " relative to " +:+ basepath)
    else
      let '(br, tr) := stripCommon (comps b) (comps t) in
      if String.eqb (default "" (head br)) ".."
      then Err ("Rel: can't make " +:+ targpath +:+ " relative to " +:+ basepath)
      else Ok (joinWith "/" (repeat ".." (length br) ++ tr)).

(** [filepath.Abs(p)], [getwd] being [os.Getwd()]. *)
Definition abs (getwd : result string) (p : string) : result string :=
  if isAbs p then Ok (clean p)
  else let! wd := getwd in Ok (join [wd; p]).

Example clean_ex1 : clean "/a/b/../c/./d//" = "/a/c/d". Proof. reflexivity. Qed.
Example clean_ex2 : clean "a/../../b" = "../b". Proof. reflexivity. Qed.
Example clean_ex3 : (clean "", clean "/..", clean "./") = (".", "/", "."). Proof. reflexivity. Qed.
Example join_ex : join ["/tmp/src"; "../x"] = "/tmp/x". Proof. reflexivity. Qed.
Example dir_ex : (dir "a/b.c", dir "a", dir "/a") = ("a", ".", "/"). Proof. reflexivity. Qed.
Example base_ex : (base "/a/b.c", base "", base "//") = ("b.c", ".", "/"). Proof. reflexivity. Qed.
Example ext_ex : (ext "a.b/c", ext "x.tar.S", ext ".c") = ("", ".S", ".c"). Proof. reflexivity. Qed.
Example rel_ex1 : rel "/p" "/p/src/a.c" = Ok "src/a.c". Proof. reflexivity. Qed.
Example rel_ex2 : rel "/p/q" "/p/r" = Ok "../r". Proof. reflexivity. Qed.
Example rel_ex3 : is_ok (rel "/p" "q") = false. Proof. reflexivity. Qed.
Example rel_ex4 : rel "/" "/q" = Ok "q". Proof. reflexivity. Qed.

(** ** Containment of joined paths *)

Lemma splitOn_cons_app sep a b :
  splitOn sep (a +:+ String sep b) = splitOn sep a ++ splitOn sep b.
Proof.
  induction a as [|c a IH]; simpl.
  - by rewrite Ascii.eqb_refl.
  - destruct (Ascii.eqb c sep); [by rewrite IH|].
    rewrite IH. destruct (splitOn sep a) eqn:E; [by apply splitOn_ne in E|done].
Qed.

Lemma joinWith_cons sep w ws :
  ws <> [] -> joinWith sep (w :: ws) = w +:+ sep +:+ joinWith sep ws.
Proof. by destruct ws. Qed.

Lemma joinWith_app sep l1 l2 :
  l1 <> [] -> l2 <> [] ->
  joinWith sep (l1 ++ l2) = joinWith sep l1 +:+ sep +:+ joinWith sep l2.
Proof.
  intros H1 H2. induction l1 as [|w l1 IH]; [done|].
  destruct (decide (l1 = [])) as [->|Hne]; [by apply joinWith_cons|].
  rewrite <- app_comm_cons, (joinWith_cons _ _ l1), joinWith_cons, IH, !sapp_assoc; auto.
  by destruct l1.
Qed.

(** A stack of the relative processing that has never escaped. *)
Definition inside (out : list string) : Prop := Forall (fun c => c <> "..") out.

Lemma cleanStep_inside A out c :
  inside A -> inside out -> inside (cleanStep false out c) ->
  cleanStep true (out ++ A) c = cleanStep false out c ++ A.
Proof.
  unfold cleanStep. intros HA Ho Hs.
  destruct (String.eqb c "" || String.eqb c "."); [done|].
  destruct (String.eqb c "..") eqn:E; [|done].
  destruct out as [|o out]; simpl.
  - by inversion Hs.
  - inversion Ho as [|?? Hne ?]; subst.
    by rewrite (proj2 (String.eqb_neq o "..") Hne).
Qed.

(** Once a [..] is at the bottom of the relative stack it stays there. *)
Lemma cleanStep_outside out c :
  last out = Some ".." -> last (cleanStep false out c) = Some "..".
Proof.
  intros H. unfold cleanStep. destruct out as [|o out]; [done|].
  repeat case_match; simpl in *; try done;
    destruct out; simpl in *; simplify_eq; try done.
Qed.

Lemma cleanStep_inside_or_outside out c :
  inside out ->
  inside (cleanStep false out c) \/ last (cleanStep false out c) = Some "..".
Proof.
  intros H. unfold cleanStep, inside.
  destruct (String.eqb c "" || String.eqb c "."); [by left|].
  destruct (String.eqb_spec c "..").
  - destruct out as [|o out]; [by right|]. inversion H; subst.
    rewrite (proj2 (String.eqb_neq o "..")) by done. by left.
  - left. by constructor.
Qed.

Lemma foldl_outside cs out :
  last out = Some ".." -> last (foldl (cleanStep false) out cs) = Some "..".
Proof. revert out. induction cs; simpl; auto using cleanStep_outside. Qed.

Lemma foldl_contained A cs out :
  inside A -> inside out ->
  last (foldl (cleanStep false) out cs) <> Some ".." ->
  foldl (cleanStep true) (out ++ A) cs = foldl (cleanStep false) out cs ++ A.
Proof.
  revert out. induction cs as [|c cs IH]; intros out HA Ho Hl; [done|].
  simpl in *. destruct (cleanStep_inside_or_outside out c Ho) as [Hi|Hd].
  - rewrite cleanStep_inside by done. by apply IH.
  - by destruct Hl; apply foldl_outside.
Qed.

Lemma cleanStep_rooted_inside out c : inside out -> inside (cleanStep true out c).
Proof.
  intros H. unfold cleanStep, inside. repeat case_match; auto.
  - inversion H; subst. by match goal with E : String.eqb _ _ = true |- _ => apply String.eqb_eq in E end.
  - by inversion H.
  - apply Forall_cons; split; [|done]. by apply String.eqb_neq.
Qed.

Lemma foldl_rooted_inside cs out :
  inside out -> inside (foldl (cleanStep true) out cs).
Proof. revert out; induction cs; simpl; auto using cleanStep_rooted_inside. Qed.

Lemma cleanComps_head cs : last (foldl (cleanStep false) [] cs) = head (cleanComps false cs).
Proof.
  unfold cleanComps.
  generalize (foldl (cleanStep false) [] cs); intros l.
  induction l as [|x l IH] using rev_ind; [done|].
  by rewrite last_snoc, rev_app_distr.
Qed.

Lemma cleanComps_join d p :
  head (cleanComps false (splitOn slash p)) <> Some ".." ->
  cleanComps true (splitOn slash (d +:+ "/" +:+ p))
  = cleanComps true (splitOn slash d) ++ cleanComps false (splitOn slash p).
Proof.
  intros H. rewrite <- cleanComps_head in H.
  unfold cleanComps. change ("/" +:+ p) with (String slash p).
  rewrite splitOn_cons_app, foldl_app, <- rev_app_distr. f_equal.
  rewrite <- (foldl_contained _ _ []); [done|apply foldl_rooted_inside; constructor|constructor|done].
Qed.

(** [q] is [d] or lies below it. *)
Definition below (d q : string) : Prop :=
  q = d \/ hasPrefix q (if String.eqb d "/" then d else d +:+ "/") = true.

(** Joining a relative path that does not lexically escape to an absolute
    directory stays in that directory. *)
Lemma join_below d p :
  isAbs d = true -> head (cleanComps false (splitOn slash p)) <> Some ".." ->
  below (clean d) (join [d; p]).
Proof.
  intros Hd Hp. unfold join. destruct (String.eqb_spec d "") as [->|_]; [done|].
  unfold joinWith, clean.
  assert (isAbs (d +:+ "/" +:+ p) = true) as ->.
  { apply hasPrefix_spec in Hd as [r ->]. by rewrite sapp_assoc; apply hasPrefix_app. }
  rewrite Hd, cleanComps_join by done.
  set (A := cleanComps true (splitOn slash d)).
  set (B := cleanComps false (splitOn slash p)).
  destruct (decide (B = [])) as [->|HB]; [left; by rewrite app_nil_r|].
  right. destruct (decide (A = [])) as [->|HA]; [by rewrite app_nil_l|].
  rewrite joinWith_app by done.
  destruct (String.eqb_spec ("/" +:+ joinWith "/" A) "/") as [E|_].
  - rewrite E. apply hasPrefix_app.
  - rewrite !sapp_assoc. rewrite <- (sapp_assoc _ "/" (joinWith "/" B)), <- (sapp_assoc "/").
    apply hasPrefix_app.
Qed.

(** ** Cleaned paths *)

(** A path component that [Clean] keeps in a rooted path. *)
Definition proper (c : string) : Prop :=
  c <> "" /\ c <> "." /\ c <> ".." /\ containsByte c slash = false.

Lemma cleanStep_proper out c :
  Forall proper out -> containsByte c slash = false -> Forall proper (cleanStep true out c).
Proof.
  intros Ho Hc. unfold cleanStep.
  destruct (String.eqb_spec c ""); [done|]. destruct (String.eqb_spec c "."); [done|]. cbn [orb].
  destruct (String.eqb_spec c "..").
  - destruct out as [|o out]; [done|]. inversion Ho as [|?? (?&?&?&?)]; subst.
    by rewrite (proj2 (String.eqb_neq o "..")).
  - by constructor.
Qed.

Lemma cleanComps_proper cs :
  Forall (fun c => containsByte c slash = false) cs -> Forall proper (cleanComps true cs).
Proof.
  intros H. unfold cleanComps. apply Forall_rev.
  assert (Forall proper []) as H0 by constructor. revert H0.
  generalize (@nil string) as out. induction H as [|c cs Hc _ IH]; intros out Ho; [done|].
  cbn [foldl]. apply IH. by apply cleanStep_proper.
Qed.

Lemma foldl_clean_proper b out cs :
  Forall proper cs -> foldl (cleanStep b) out cs = rev cs ++ out.
Proof.
  intros H. revert out. induction H as [|c cs (H1 & H2 & H3 & _) _ IH]; intros out; [done|].
  cbn [foldl rev]. rewrite IH. unfold cleanStep.
  rewrite (proj2 (String.eqb_neq _ _) H1), (proj2 (String.eqb_neq _ _) H2),
    (proj2 (String.eqb_neq _ _) H3). cbn [orb]. by rewrite <- app_assoc.
Qed.

Lemma cleanComps_id b cs : Forall proper cs -> cleanComps b cs = cs.
Proof.
  intros H. unfold cleanComps. rewrite foldl_clean_proper by done.
  by rewrite app_nil_r, rev_involutive.
Qed.

Lemma splitOn_word sep w : containsByte w sep = false -> splitOn sep w = [w].
Proof.
  induction w as [|c w IH]; [done|]. cbn [containsByte splitOn].
  intros [Hc Hw]%orb_false_iff. by rewrite Hc, IH.
Qed.

Lemma splitOn_joinWith sep ws :
  Forall (fun w => containsByte w sep = false) ws -> ws <> [] ->
  splitOn sep (joinWith (String sep "") ws) = ws.
Proof.
  induction 1 as [|w ws Hw Hall IH]; [done|]. intros _.
  destruct (decide (ws = [])) as [->|Hne]; [by apply splitOn_word|].
  rewrite joinWith_cons by done.
  change (String sep "" +:+ ?x) with (String sep x).
  rewrite splitOn_cons_app, splitOn_word by done. by rewrite IH.
Qed.

Lemma proper_noslash cs : Forall proper cs -> Forall (fun w => containsByte w slash = false) cs.
Proof. intros H. eapply Forall_impl; [exact H|]. by intros w (_ & _ & _ & ?). Qed.

(** The absolute path with the components [cs]. *)
Definition absOf (cs : list string) : string := "/" +:+ joinWith "/" cs.

Lemma splitOn_absOf cs :
  Forall proper cs -> cs <> [] -> splitOn slash (absOf cs) = "" :: cs.
Proof.
  intros H Hne. unfold absOf. cbn [String.append splitOn].
  rewrite (splitOn_joinWith slash) by (done || by apply proper_noslash). done.
Qed.

Lemma clean_absOf cs : Forall proper cs -> clean (absOf cs) = absOf cs.
Proof.
  intros H. destruct (decide (cs = [])) as [->|Hne]; [done|].
  unfold clean. rewrite splitOn_absOf by done.
  change (isAbs (absOf cs)) with true. cbn iota. unfold absOf. f_equal. f_equal.
  unfold cleanComps. cbn [foldl]. change (cleanStep true [] "") with (@nil string).
  apply cleanComps_id; done.
Qed.

(** Every cleaned absolute path is given by proper components. *)
Lemma clean_abs_shape p :
  isAbs p = true -> exists cs, Forall proper cs /\ clean p = absOf cs.
Proof.
  intros H. exists (cleanComps true (splitOn slash p)). split.
  - apply cleanComps_proper, splitOn_no_sep.
  - unfold clean. by rewrite H.
Qed.

Lemma clean_abs_idem p : isAbs p = true -> clean (clean p) = clean p.
Proof. intros (cs & Hcs & ->)%clean_abs_shape. by apply clean_absOf. Qed.

Lemma isAbs_absOf cs : isAbs (absOf cs) = true.
Proof. apply hasPrefix_app. Qed.

Lemma comps_absOf cs : Forall proper cs -> comps (absOf cs) = cs.
Proof.
  intros H. unfold comps, trimPrefix. change (hasPrefix (absOf cs) "/") with true.
  unfold absOf. change (slen "/") with 1. cbn [String.append sdrop].
  destruct (decide (cs = [])) as [->|Hne]; [done|].
  destruct (String.eqb_spec (joinWith "/" cs) "") as [E|_].
  - destruct cs as [|c cs]; [done|]. inversion H as [|?? (Hc & _)]; subst.
    destruct (decide (cs = [])) as [->|Hn]; [done|].
    rewrite joinWith_cons in E by done. apply sapp_eq_nil in E as [? _]. done.
  - by apply (splitOn_joinWith slash); [apply proper_noslash|].
Qed.

Lemma absOf_inj cs1 cs2 : Forall proper cs1 -> Forall proper cs2 -> absOf cs1 = absOf cs2 -> cs1 = cs2.
Proof. intros H1 H2 E. apply (f_equal comps) in E. by rewrite !comps_absOf in E. Qed.

(** ** [Dir] and [Rel] on cleaned absolute paths *)

Lemma lastIndexBy_app f a c r :
  f c = true -> lastIndexBy f r = None -> lastIndexBy f (a +:+ String c r) = Some (slen a).
Proof.
  intros Hc Hr. induction a as [|x a IH]; cbn [String.append lastIndexBy].
  - by rewrite Hr, Hc.
  - by rewrite IH.
Qed.

Lemma lastIndexBy_noslash w : containsByte w slash = false -> lastIndexBy (Ascii.eqb slash) w = None.
Proof.
  induction w as [|c w IH]; [done|]. cbn [containsByte lastIndexBy].
  intros [Hc Hw]%orb_false_iff. rewrite IH by done. by rewrite Ascii.eqb_sym, Hc.
Qed.

Lemma clean_trailing a : isAbs a = true -> clean (a +:+ "/") = clean a.
Proof.
  intros Ha. unfold clean.
  assert (isAbs (a +:+ "/") = true) as ->.
  { apply hasPrefix_spec in Ha as [r ->]. rewrite sapp_assoc. apply hasPrefix_app. }
  rewrite Ha. f_equal. f_equal. change "/" with (String slash "").
  rewrite splitOn_cons_app. unfold cleanComps. by rewrite foldl_app.
Qed.

Lemma absOf_snoc cs c :
  absOf (cs ++ [c]) = (if decide (cs = []) then "" else absOf cs) +:+ String slash c.
Proof.
  unfold absOf. case_decide as E; [by subst|].
  rewrite joinWith_app by done. by rewrite sapp_assoc.
Qed.

Lemma dir_absOf_snoc cs c : Forall proper cs -> proper c -> dir (absOf (cs ++ [c])) = absOf cs.
Proof.
  intros Hcs (_ & _ & _ & Hc). unfold dir. rewrite absOf_snoc.
  rewrite lastIndexBy_app by (reflexivity || by apply lastIndexBy_noslash).
  case_decide as E.
  - by subst.
  - replace (S (slen (absOf cs))) with (slen (absOf cs +:+ "/")) by (rewrite slen_app; simpl; lia).
    change (String slash c) with ("/" +:+ c). rewrite <- sapp_assoc, stake_app.
    rewrite clean_trailing by apply isAbs_absOf. by apply clean_absOf.
Qed.

Lemma trimRightBy_keep f a c : f c = false -> trimRightBy f (a +:+ String c "") = a +:+ String c "".
Proof.
  intros Hc. induction a as [|x a IH]; cbn; [by rewrite Hc|]. rewrite IH. by destruct a.
Qed.

Lemma base_absOf_snoc cs c : proper c -> base (absOf (cs ++ [c])) = c.
Proof.
  intros (Hne & _ & _ & Hc). rewrite absOf_snoc.
  set (d := if decide (cs = []) then "" else absOf cs). unfold base.
  destruct (String.eqb_spec (d +:+ String slash c) "") as [E|_]; [by destruct d|].
  assert (trimRightBy (Ascii.eqb slash) (d +:+ String slash c) = d +:+ String slash c) as ->.
  { induction c as [|c' c0 _] using string_snoc_ind; [done|].
    change (String slash (c' +:+ String c0 "")) with (String slash c' +:+ String c0 ""). rewrite <- sapp_assoc.
    apply trimRightBy_keep. rewrite containsByte_app in Hc. apply orb_false_iff in Hc as [_ Hc].
    cbn in Hc. rewrite orb_false_r in Hc. by rewrite Ascii.eqb_sym. }
  destruct (String.eqb_spec (d +:+ String slash c) "") as [E|_]; [by destruct d|].
  rewrite lastIndexBy_app by (reflexivity || by apply lastIndexBy_noslash).
  replace (S (slen d)) with (slen (d +:+ "/")) by (rewrite slen_app; cbn; lia).
  change (String slash c) with ("/" +:+ c). by rewrite <- sapp_assoc, sdrop_app.
Qed.

Lemma dir_root : dir "/" = "/".
Proof. reflexivity. Qed.

Lemma absOf_slen cs : Forall proper cs -> length cs < slen (absOf cs).
Proof.
  intros H.
  induction cs as [|c cs IH] using rev_ind; [cbn; lia|].
  apply Forall_app in H as [Hcs Hc]. inversion Hc as [|?? (Hne & _)]; subst.
  rewrite absOf_snoc, length_app, slen_app. specialize (IH Hcs). cbn [length slen].
  destruct c; [done|]. case_decide; subst; cbn [slen length] in *; lia.
Qed.

Lemma stripCommon_app bs ts : stripCommon bs (bs ++ ts) = ([], ts).
Proof. induction bs as [|b bs IH]; [by destruct ts|]. cbn. by rewrite String.eqb_refl. Qed.

Lemma stripCommon_spec bs ts br tr :
  stripCommon bs ts = (br, tr) -> exists pre, bs = pre ++ br /\ ts = pre ++ tr.
Proof.
  revert ts. induction bs as [|b bs IH]; intros ts H; cbn in H.
  - destruct ts; simplify_eq; by exists [].
  - destruct ts as [|t ts]; [simplify_eq; by exists []|].
    destruct (String.eqb_spec b t) as [->|]; [|simplify_eq; by exists []].
    apply IH in H as (pre & -> & ->). by exists (t :: pre).
Qed.

(** [Rel] between cleaned absolute paths never fails: up from the base to
    the common ancestor, then down to the target. *)
Lemma rel_absOf bs ts :
  Forall proper bs -> Forall proper ts ->
  rel (absOf bs) (absOf ts)
  = if decide (ts = bs) then Ok "."
    else let '(br, tr) := stripCommon bs ts in
         Ok (joinWith "/" (repeat ".." (length br) ++ tr)).
Proof.
  intros Hb Ht. unfold rel. rewrite !clean_absOf by done.
  destruct (String.eqb_spec (absOf ts) (absOf bs)) as [E|E].
  - apply absOf_inj in E; [|done..]. by rewrite decide_True.
  - rewrite decide_False by (intros ->; done).
    change (String.eqb (absOf bs) ".") with false. cbn iota.
    rewrite !isAbs_absOf. cbn [Bool.eqb negb]. rewrite !comps_absOf by done.
    destruct (stripCommon bs ts) as [br tr] eqn:Es.
    apply stripCommon_spec in Es as (pre & -> & ->).
    apply Forall_app in Hb as [_ Hb]. destruct br as [|b br]; [done|].
    inversion Hb as [|?? (_ & _ & H3 & _)]; subst.
    change (default "" (head (b :: br))) with b.
    by rewrite (proj2 (String.eqb_neq _ _) H3).
Qed.

(** Joining to a cleaned absolute path continues the lexical processing from
    its components. *)
Lemma join_absOf rs p :
  Forall proper rs ->
  join [absOf rs; p] = absOf (rev (foldl (cleanStep true) (rev rs) (splitOn slash p))).
Proof.
  intros Hr. cbn [join]. change (String.eqb (absOf rs) "") with false. cbn iota.
  cbn [joinWith]. unfold clean.
  assert (isAbs (absOf rs +:+ "/" +:+ p) = true) as ->
    by (unfold absOf; rewrite sapp_assoc; apply hasPrefix_app).
  unfold absOf at 2. f_equal. f_equal.
  change ("/" +:+ p) with (String slash p). rewrite splitOn_cons_app.
  unfold cleanComps. rewrite foldl_app. do 2 f_equal.
  destruct (decide (rs = [])) as [->|Hrs]; [done|]. rewrite splitOn_absOf by done.
  cbn [foldl]. change (cleanStep true [] "") with (@nil string).
  by rewrite foldl_clean_proper, app_nil_r.
Qed.

Lemma proper_rel_join rs tr :
  Forall proper rs -> Forall proper tr -> tr <> [] ->
  join [absOf rs; joinWith "/" tr] = absOf (rs ++ tr).
Proof.
  intros Hr Ht Hne. rewrite join_absOf by done.
  rewrite (splitOn_joinWith slash) by (done || by apply proper_noslash).
  by rewrite foldl_clean_proper, rev_app_distr, !rev_involutive.
Qed.

(** A cleaned path below another extends its components. *)
Lemma below_absOf rs cs :
  Forall proper rs -> Forall proper cs -> below (absOf rs) (absOf cs) -> exists tr, cs = rs ++ tr.
Proof.
  intros Hr Hc [E|H].
  - apply absOf_inj in E; [|done..]. exists []. by rewrite app_nil_r.
  - destruct (decide (rs = [])) as [->|Hne]; [by exists cs|].
    destruct (String.eqb_spec (absOf rs) "/") as [E|_].
    { apply (absOf_inj rs []) in E; [done|done|constructor]. }
    apply hasPrefix_spec in H as [x E]. rewrite sapp_assoc in E.
    change ("/" +:+ x) with (String slash x) in E.
    apply (f_equal (splitOn slash)) in E. rewrite splitOn_cons_app, (splitOn_absOf rs) in E by done.
    destruct (decide (cs = [])) as [->|Hcs].
    + destruct rs as [|r rs]; [done|]. cbn in E. inversion Hr as [|?? (? & _)]; subst. congruence.
    + rewrite splitOn_absOf in E by done. cbn [app] in E. injection E as ->. eauto.
Qed.
