(* ===== verification/GoTime.v ===== *)
(** * GoTime: the part of the [time] package the sources use.

    A [time.Duration] is a number of nanoseconds in a signed 64-bit integer,
    here a [Z]; instants ([time.Time]) are nanoseconds on one clock.
    [ParseDuration] computes the fraction of a unit in [float64], which is
    modelled with the Standard Library's executable binary64 ([SpecFloat]). *)

From Stdlib Require Import SpecFloat.
From S2P Require Import Prelude GoStrings.

Definition nanosecond : Z := 1.
Definition microsecond : Z := 1000.
Definition millisecond : Z := 1000000.
Definition second : Z := 1000000000.
Definition minute : Z := 60 * second.
Definition hour : Z := 60 * minute.

(** The unit names of [ParseDuration]; [µs] is accepted in both of its
    UTF-8 spellings. *)
Definition unitMap : list (string * Z) :=
  [("ns", nanosecond); ("us", microsecond); ("µs", microsecond); ("μs", microsecond);
   ("ms", millisecond); ("s", second); ("m", minute); ("h", hour)].

Fixpoint lookupUnit (u : string) (l : list (string * Z)) : option Z :=
  match l with
  | [] => None
  | (n, v) :: l' => if String.eqb u n then Some v else lookupUnit u l'
  end.

(** ** [float64] *)

Definition float64 := spec_float.
Definition f64_of_Z (z : Z) : float64 := binary_normalize 53 1024 z 0 false.
Definition f64_mul : float64 -> float64 -> float64 := SFmul 53 1024.
Definition f64_div : float64 -> float64 -> float64 := SFdiv 53 1024.

(** [uint64(f)] for a finite non-negative [f]: truncation. *)
Definition f64_trunc (f : float64) : Z :=
  match f with
  | S754_finite _ m e => if (0 <=? e)%Z then (Z.pos m * 2 ^ e)%Z else (Z.pos m / 2 ^ (- e))%Z
  | _ => 0%Z
  end.

(** ** [ParseDuration] *)

(** [leadingInt]: the digits at the head of [s]; [None] on overflow. *)
Fixpoint leadingInt (x : Z) (s : string) : option (Z * string) :=
  match s with
  | EmptyString => Some (x, s)
  | String c t =>
      match digitVal c with
      | None => Some (x, s)
      | Some d =>
          if (2 ^ 63 / 10 <? x)%Z then None
          else let x' := (x * 10 + d)%Z in
               if (2 ^ 63 <? x')%Z then None else leadingInt x' t
      end
  end.

(** [leadingFraction]: digits that would overflow are skipped. *)
Fixpoint leadingFraction (x : Z) (scale : float64) (overflow : bool) (s : string)
    : Z * float64 * string :=
  match s with
  | EmptyString => (x, scale, s)
  | String c t =>
      match digitVal c with
      | None => (x, scale, s)
      | Some d =>
          if overflow then leadingFraction x scale true t
          else if ((2 ^ 63 - 1) / 10 <? x)%Z then leadingFraction x scale true t
          else let y := (x * 10 + d)%Z in
               if (2 ^ 63 <? y)%Z then leadingFraction x scale true t
               else leadingFraction y (f64_mul scale (f64_of_Z 10)) false t
      end
  end.

Definition unitEnd (c : ascii) : bool :=
  Ascii.eqb c "."%char || match digitVal c with Some _ => true | None => false end.

(** The unit at the head of [s]. *)
Fixpoint spanUnit (s : string) : string * string :=
  match s with
  | EmptyString => ("", "")
  | String c t => if unitEnd c then ("", s) else let '(u, r) := spanUnit t in (String c u, r)
  end.

Definition invalidDuration (orig : string) : result Z := Err ("time: invalid duration " +:+ orig).

(** One number with its unit: its value in nanoseconds and the rest. *)
Definition parseTerm (orig s : string) : result (Z * string) :=
  let bad := Err ("time: invalid duration " +:+ orig) in
  match s with
  | EmptyString => bad
  | String c0 _ =>
      if negb (unitEnd c0) then bad
      else match leadingInt 0 s with
      | None => bad
      | Some (v, s1) =>
          let pre := negb (slen s1 =? slen s) in
          let '(f, scale, s2, post) :=
            match s1 with
            | String c t =>
                if Ascii.eqb c "."%char
                then let '(f, scale, r) := leadingFraction 0 (f64_of_Z 1) false t in
                     (f, scale, r, negb (slen r =? slen t))
                else (0%Z, f64_of_Z 1, s1, false)
            | EmptyString => (0%Z, f64_of_Z 1, s1, false)
            end in
          if negb pre && negb post then bad
          else let '(u, rest) := spanUnit s2 in
          if String.eqb u "" then Err ("time: missing unit in duration " +:+ orig)
          else match lookupUnit u unitMap with
          | None => Err ("time: unknown unit " +:+ u +:+ " in duration " +:+ orig)
          | Some unit =>
              if (2 ^ 63 / unit <? v)%Z then bad
              else let v := (v * unit)%Z in
                   if (0 <? f)%Z
                   then let v := (v + f64_trunc (f64_mul (f64_of_Z f) (f64_div (f64_of_Z unit) scale)))%Z in
                        if (2 ^ 63 <? v)%Z then bad else Ok (v, rest)
                   else Ok (v, rest)
          end
      end
  end.

(** The loop over the terms; each consumes at least one byte. *)
Fixpoint parseTerms (fuel : nat) (orig : string) (d : Z) (s : string) : result Z :=
  match s, fuel with
  | EmptyString, _ => Ok d
  | _, 0 => invalidDuration orig
  | _, S fuel' =>
      let! t := parseTerm orig s in
      let d := (d + t.1)%Z in
      if (2 ^ 63 <? d)%Z then invalidDuration orig else parseTerms fuel' orig d t.2
  end.

(** [time.ParseDuration]. *)
Definition ParseDuration (s : string) : result Z :=
  let '(neg, body) :=
    match s with
    | String c t => if Ascii.eqb c "-"%char then (true, t)
                    else if Ascii.eqb c "+"%char then (false, t) else (false, s)
    | EmptyString => (false, s)
    end in
  if String.eqb body "0" then Ok 0%Z
  else if String.eqb body "" then invalidDuration s
  else let! d := parseTerms (slen body) s 0 body in
       if neg : bool then Ok (- d)%Z
       else if (2 ^ 63 - 1 <? d)%Z then invalidDuration s else Ok d.
