(* ===== verification/Enum.v ===== *)
(** * Enum: the enumerations of [internal/enum] and their text forms.

    [CacheType] and [SourceMode] are Go [int]s: a value outside the declared
    constants can exist (a conversion, a corrupted config struct), and
    [MarshalText] reports it as an error.  They are therefore modelled as [Z]
    with the constants of the source.  The other enumerations are only ever
    compared with their constants. *)

From S2P Require Import Prelude GoStrings.

(** [internal/enum/invocation_mode.go]. *)
Inductive InvocationMode :=
  | UnknownMode | CompileMode | PreprocessMode | AssembleMode | LinkMode | DepOnlyMode.
#[global] Instance InvocationMode_eq_dec : EqDecision InvocationMode.
Proof. solve_decision. Defined.

(** The [iota] value of a mode, as [fmt.Sprintf] prints it with [%d]. *)
Definition modeDigit (m : InvocationMode) : string :=
  match m with
  | UnknownMode => "0" | CompileMode => "1" | PreprocessMode => "2"
  | AssembleMode => "3" | LinkMode => "4" | DepOnlyMode => "5"
  end.

(** [internal/enum/family.go]. *)
Inductive Family := UnknownFamily | GNUFamily | MSVCFamily.
#[global] Instance Family_eq_dec : EqDecision Family.
Proof. solve_decision. Defined.

(** [internal/enum/cache_type.go]. *)
Definition CacheUnknown : Z := 0.
Definition CacheDisk : Z := 1.
Definition CacheS3 : Z := 2.

Definition CacheType_MarshalText (c : Z) : result string :=
  if (c =? CacheDisk)%Z then Ok "disk"
  else if (c =? CacheS3)%Z then Ok "s3"
  else if (c =? CacheUnknown)%Z then Ok ""
  else Err "invalid cache type".

Definition CacheType_UnmarshalText (text : string) : result Z :=
  if String.eqb text "disk" then Ok CacheDisk
  else if String.eqb text "s3" then Ok CacheS3
  else if String.eqb text "" then Ok CacheUnknown
  else Err "unknown cache type (want disk or s3)".

(** [internal/enum/source_mode.go]. *)
Definition SourceModeUnspecified : Z := 0.
Definition SourceModePreprocessed : Z := 1.
Definition SourceModeCAS : Z := 2.

Definition SourceMode_MarshalText (m : Z) : result string :=
  if (m =? SourceModePreprocessed)%Z then Ok "preprocessed"
  else if (m =? SourceModeCAS)%Z then Ok "cas"
  else if (m =? SourceModeUnspecified)%Z then Ok ""
  else Err "invalid source mode".

Definition SourceMode_UnmarshalText (text : string) : result Z :=
  if String.eqb text "preprocessed" then Ok SourceModePreprocessed
  else if String.eqb text "cas" then Ok SourceModeCAS
  else if String.eqb text "" then Ok SourceModeUnspecified
  else Err "unknown source mode (want preprocessed|cas)".

Lemma modeDigit_inj m1 m2 : modeDigit m1 = modeDigit m2 -> m1 = m2.
Proof. by destruct m1, m2. Qed.

(** A configuration value printed by [MarshalText] is read back by
    [UnmarshalText], and conversely: the two text codecs are inverse
    bijections between the valid constants and the accepted texts. *)
Lemma enum_text_roundtrip (z : Z) (t : string) :
  (SourceMode_MarshalText z = Ok t <-> SourceMode_UnmarshalText t = Ok z) /\
  (CacheType_MarshalText z = Ok t <-> CacheType_UnmarshalText t = Ok z).
Proof.
  unfold SourceMode_MarshalText, SourceMode_UnmarshalText,
    CacheType_MarshalText, CacheType_UnmarshalText.
  split; split; intros H; repeat case_match;
    repeat match goal with
    | E : (_ =? _)%Z = true |- _ => apply Z.eqb_eq in E
    | E : String.eqb _ _ = true |- _ => apply String.eqb_eq in E
    end; simplify_eq; done.
Qed.
