(* ===== verification/Grammar.v ===== *)
(** * Grammar: the flag tables of [internal/compiler/grammar.go] and
    [grammar_msvc.go], and the order in which the matchers scan them. *)

From S2P Require Import Prelude GoStrings.

Inductive ValueMode := NoValue | JoinedValue | SeparateValue | JoinedOrSeparate.

Inductive Category :=
  | CatUnknown | CatMode | CatOutput | CatInclude | CatSystemInclude
  | CatDefine | CatUndefine | CatLibrary | CatLibraryDir | CatStandard
  | CatOptim | CatDebug | CatWarning | CatFeature | CatMachine
  | CatLanguage | CatPassthrough.

#[global] Instance ValueMode_eq_dec : EqDecision ValueMode.
Proof. solve_decision. Defined.
#[global] Instance Category_eq_dec : EqDecision Category.
Proof. solve_decision. Defined.

Record FlagSpec := mkFlagSpec {
  specName : string;
  specValue : ValueMode;
  specCategory : Category
}.
#[global] Instance FlagSpec_eq_dec : EqDecision FlagSpec.
Proof. solve_decision. Defined.

Definition gnuFlags : list FlagSpec :=
  [ mkFlagSpec "-c" NoValue CatMode;
    mkFlagSpec "-E" NoValue CatMode;
    mkFlagSpec "-S" NoValue CatMode;
    mkFlagSpec "-M" NoValue CatMode;
    mkFlagSpec "-MM" NoValue CatMode;
    mkFlagSpec "-o" SeparateValue CatOutput;
    mkFlagSpec "-I" JoinedOrSeparate CatInclude;
    mkFlagSpec "-isystem" SeparateValue CatSystemInclude;
    mkFlagSpec "-iquote" SeparateValue CatSystemInclude;
    mkFlagSpec "-D" JoinedOrSeparate CatDefine;
    mkFlagSpec "-U" JoinedOrSeparate CatUndefine;
    mkFlagSpec "-l" JoinedOrSeparate CatLibrary;
    mkFlagSpec "-L" JoinedOrSeparate CatLibraryDir;
    mkFlagSpec "-std=" JoinedValue CatStandard;
    mkFlagSpec "-x" SeparateValue CatLanguage;
    mkFlagSpec "-O" JoinedValue CatOptim;
    mkFlagSpec "-g" JoinedValue CatDebug;
    mkFlagSpec "-W" JoinedValue CatWarning;
    mkFlagSpec "-f" JoinedValue CatFeature;
    mkFlagSpec "-m" JoinedValue CatMachine;
    mkFlagSpec "-Wl," JoinedValue CatPassthrough;
    mkFlagSpec "-Wa," JoinedValue CatPassthrough;
    mkFlagSpec "-Wp," JoinedValue CatPassthrough;
    mkFlagSpec "-Xlinker" SeparateValue CatPassthrough;
    mkFlagSpec "-Xassembler" SeparateValue CatPassthrough;
    mkFlagSpec "-Xpreprocessor" SeparateValue CatPassthrough;
    mkFlagSpec "-include" SeparateValue CatPassthrough;
    mkFlagSpec "-MD" NoValue CatPassthrough;
    mkFlagSpec "-MMD" NoValue CatPassthrough;
    mkFlagSpec "-MF" SeparateValue CatPassthrough;
    mkFlagSpec "-MT" SeparateValue CatPassthrough;
    mkFlagSpec "-MQ" SeparateValue CatPassthrough ].

Definition msvcFlags : list FlagSpec :=
  [ mkFlagSpec "/c" NoValue CatMode;
    mkFlagSpec "/E" NoValue CatMode;
    mkFlagSpec "/EP" NoValue CatMode;
    mkFlagSpec "/P" NoValue CatMode;
    mkFlagSpec "/Fo" JoinedValue CatOutput;
    mkFlagSpec "/Fe" JoinedValue CatOutput;
    mkFlagSpec "/I" JoinedOrSeparate CatInclude;
    mkFlagSpec "/external:I" SeparateValue CatSystemInclude;
    mkFlagSpec "/D" JoinedOrSeparate CatDefine;
    mkFlagSpec "/U" JoinedOrSeparate CatUndefine;
    mkFlagSpec "/std" JoinedValue CatStandard;
    mkFlagSpec "/Tc" JoinedOrSeparate CatLanguage;
    mkFlagSpec "/Tp" JoinedOrSeparate CatLanguage;
    mkFlagSpec "/O" JoinedValue CatOptim;
    mkFlagSpec "/W" JoinedValue CatWarning;
    mkFlagSpec "/Zi" NoValue CatDebug;
    mkFlagSpec "/Z7" NoValue CatDebug;
    mkFlagSpec "/ZI" NoValue CatDebug;
    mkFlagSpec "/MDd" NoValue CatPassthrough;
    mkFlagSpec "/MTd" NoValue CatPassthrough;
    mkFlagSpec "/MD" NoValue CatPassthrough;
    mkFlagSpec "/MT" NoValue CatPassthrough;
    mkFlagSpec "/EH" JoinedValue CatPassthrough;
    mkFlagSpec "/nologo" NoValue CatPassthrough;
    mkFlagSpec "/showIncludes" NoValue CatPassthrough;
    mkFlagSpec "/Fd" JoinedValue CatPassthrough;
    mkFlagSpec "/Fa" JoinedValue CatPassthrough;
    mkFlagSpec "/link" NoValue CatPassthrough ].

(** The order of the [sort.SliceStable] calls in the two [init] functions:
    longer names first. *)
Definition nameLongerEq (a b : FlagSpec) : Prop := slen (specName b) <= slen (specName a).
#[global] Instance nameLongerEq_dec : RelDecision nameLongerEq.
Proof. intros a b. unfold nameLongerEq. apply _. Defined.

Definition gnuFlagsSorted : list FlagSpec := isort nameLongerEq gnuFlags.
Definition msvcFlagsSorted : list FlagSpec := isort nameLongerEq msvcFlags.

#[global] Instance nameLongerEq_trans : Transitive nameLongerEq.
Proof. unfold nameLongerEq. intros ???. lia. Qed.
#[global] Instance nameLongerEq_total : Total nameLongerEq.
Proof. unfold nameLongerEq. intros ??. lia. Qed.

(** Scanning a list sorted by decreasing name length, the first hit is a
    longest hit. *)
Lemma find_longest (hit : FlagSpec -> bool) l s t :
  StronglySorted nameLongerEq l ->
  List.find hit l = Some s -> In t l -> hit t = true ->
  slen (specName t) <= slen (specName s).
Proof.
  intros Hs Hf. induction Hs as [|x l Hs IH Hx]; [done|]. simpl in Hf.
  destruct (hit x) eqn:E; simplify_eq.
  - intros [<-|Hin] _; [done|].
    rewrite List.Forall_forall in Hx. by apply Hx.
  - intros [<-|Hin] Ht; [congruence|]. auto.
Qed.

Lemma gnuFlagsSorted_sorted : StronglySorted nameLongerEq gnuFlagsSorted.
Proof. apply isort_Sorted; apply _. Qed.
Lemma msvcFlagsSorted_sorted : StronglySorted nameLongerEq msvcFlagsSorted.
Proof. apply isort_Sorted; apply _. Qed.
