(* ===== verification/Invocation.v ===== *)
(** * Invocation: the parsed compile command of
    [internal/compiler/invocation.go], its predicates ([Cacheable],
    [DispatchableUnderCAS], ...) and the compiler detection of [detect.go].

    [inv.Defines] is a [gmap]; [*\[32\]byte] is an [option string]; the record
    fields keep the names of the struct. *)

From S2P Require Import Prelude GoStrings GoPath Enum.

Record Invocation := mkInvocation {
  Mode : InvocationMode;
  Inputs : list string;
  Output : string;
  Includes : list string;
  SystemIncludes : list string;
  Defines : gmap string string;
  Undefines : list string;
  Libraries : list string;
  LibraryDirs : list string;
  Std : string;
  Optim : string;
  Debug : string;
  Warnings : list string;
  Features : list string;
  Machine : list string;
  Language : string;
  Passthrough : list string;
  Unknown : list string;
  RawArgs : list string;
  Cwd : string;
  PreprocessedDigest : option string;
  ManifestDigest : option string
}.

(** Field assignment, one function per field the code assigns. *)
Definition set_Mode (v : InvocationMode) (i : Invocation) : Invocation :=
    mkInvocation v (Inputs i) (Output i) (Includes i) (SystemIncludes i)
    (Defines i) (Undefines i) (Libraries i) (LibraryDirs i) (Std i) (Optim i)
    (Debug i) (Warnings i) (Features i) (Machine i) (Language i) (Passthrough
    i) (Unknown i) (RawArgs i) (Cwd i) (PreprocessedDigest i) (ManifestDigest
    i).
Definition set_Inputs (v : list string) (i : Invocation) : Invocation :=
    mkInvocation (Mode i) v (Output i) (Includes i) (SystemIncludes i)
    (Defines i) (Undefines i) (Libraries i) (LibraryDirs i) (Std i) (Optim i)
    (Debug i) (Warnings i) (Features i) (Machine i) (Language i) (Passthrough
    i) (Unknown i) (RawArgs i) (Cwd i) (PreprocessedDigest i) (ManifestDigest
    i).
Definition set_Output (v : string) (i : Invocation) : Invocation :=
    mkInvocation (Mode i) (Inputs i) v (Includes i) (SystemIncludes i)
    (Defines i) (Undefines i) (Libraries i) (LibraryDirs i) (Std i) (Optim i)
    (Debug i) (Warnings i) (Features i) (Machine i) (Language i) (Passthrough
    i) (Unknown i) (RawArgs i) (Cwd i) (PreprocessedDigest i) (ManifestDigest
    i).
Definition set_Includes (v : list string) (i : Invocation) : Invocation :=
    mkInvocation (Mode i) (Inputs i) (Output i) v (SystemIncludes i) (Defines
    i) (Undefines i) (Libraries i) (LibraryDirs i) (Std i) (Optim i) (Debug i)
    (Warnings i) (Features i) (Machine i) (Language i) (Passthrough i)
    (Unknown i) (RawArgs i) (Cwd i) (PreprocessedDigest i) (ManifestDigest i).
Definition set_SystemIncludes (v : list string) (i : Invocation) : Invocation :=
    mkInvocation (Mode i) (Inputs i) (Output i) (Includes i) v (Defines i)
    (Undefines i) (Libraries i) (LibraryDirs i) (Std i) (Optim i) (Debug i)
    (Warnings i) (Features i) (Machine i) (Language i) (Passthrough i)
    (Unknown i) (RawArgs i) (Cwd i) (PreprocessedDigest i) (ManifestDigest i).
Definition set_Defines (v : gmap string string) (i : Invocation) : Invocation :=
    mkInvocation (Mode i) (Inputs i) (Output i) (Includes i) (SystemIncludes
    i) v (Undefines i) (Libraries i) (LibraryDirs i) (Std i) (Optim i) (Debug
    i) (Warnings i) (Features i) (Machine i) (Language i) (Passthrough i)
    (Unknown i) (RawArgs i) (Cwd i) (PreprocessedDigest i) (ManifestDigest i).
Definition set_Undefines (v : list string) (i : Invocation) : Invocation :=
    mkInvocation (Mode i) (Inputs i) (Output i) (Includes i) (SystemIncludes
    i) (Defines i) v (Libraries i) (LibraryDirs i) (Std i) (Optim i) (Debug i)
    (Warnings i) (Features i) (Machine i) (Language i) (Passthrough i)
    (Unknown i) (RawArgs i) (Cwd i) (PreprocessedDigest i) (ManifestDigest i).
Definition set_Libraries (v : list string) (i : Invocation) : Invocation :=
    mkInvocation (Mode i) (Inputs i) (Output i) (Includes i) (SystemIncludes
    i) (Defines i) (Undefines i) v (LibraryDirs i) (Std i) (Optim i) (Debug i)
    (Warnings i) (Features i) (Machine i) (Language i) (Passthrough i)
    (Unknown i) (RawArgs i) (Cwd i) (PreprocessedDigest i) (ManifestDigest i).
Definition set_LibraryDirs (v : list string) (i : Invocation) : Invocation :=
    mkInvocation (Mode i) (Inputs i) (Output i) (Includes i) (SystemIncludes
    i) (Defines i) (Undefines i) (Libraries i) v (Std i) (Optim i) (Debug i)
    (Warnings i) (Features i) (Machine i) (Language i) (Passthrough i)
    (Unknown i) (RawArgs i) (Cwd i) (PreprocessedDigest i) (ManifestDigest i).
Definition set_Std (v : string) (i : Invocation) : Invocation :=
    mkInvocation (Mode i) (Inputs i) (Output i) (Includes i) (SystemIncludes
    i) (Defines i) (Undefines i) (Libraries i) (LibraryDirs i) v (Optim i)
    (Debug i) (Warnings i) (Features i) (Machine i) (Language i) (Passthrough
    i) (Unknown i) (RawArgs i) (Cwd i) (PreprocessedDigest i) (ManifestDigest
    i).
Definition set_Optim (v : string) (i : Invocation) : Invocation :=
    mkInvocation (Mode i) (Inputs i) (Output i) (Includes i) (SystemIncludes
    i) (Defines i) (Undefines i) (Libraries i) (LibraryDirs i) (Std i) v
    (Debug i) (Warnings i) (Features i) (Machine i) (Language i) (Passthrough
    i) (Unknown i) (RawArgs i) (Cwd i) (PreprocessedDigest i) (ManifestDigest
    i).
Definition set_Debug (v : string) (i : Invocation) : Invocation :=
    mkInvocation (Mode i) (Inputs i) (Output i) (Includes i) (SystemIncludes
    i) (Defines i) (Undefines i) (Libraries i) (LibraryDirs i) (Std i) (Optim
    i) v (Warnings i) (Features i) (Machine i) (Language i) (Passthrough i)
    (Unknown i) (RawArgs i) (Cwd i) (PreprocessedDigest i) (ManifestDigest i).
Definition set_Warnings (v : list string) (i : Invocation) : Invocation :=
    mkInvocation (Mode i) (Inputs i) (Output i) (Includes i) (SystemIncludes
    i) (Defines i) (Undefines i) (Libraries i) (LibraryDirs i) (Std i) (Optim
    i) (Debug i) v (Features i) (Machine i) (Language i) (Passthrough i)
    (Unknown i) (RawArgs i) (Cwd i) (PreprocessedDigest i) (ManifestDigest i).
Definition set_Features (v : list string) (i : Invocation) : Invocation :=
    mkInvocation (Mode i) (Inputs i) (Output i) (Includes i) (SystemIncludes
    i) (Defines i) (Undefines i) (Libraries i) (LibraryDirs i) (Std i) (Optim
    i) (Debug i) (Warnings i) v (Machine i) (Language i) (Passthrough i)
    (Unknown i) (RawArgs i) (Cwd i) (PreprocessedDigest i) (ManifestDigest i).
Definition set_Machine (v : list string) (i : Invocation) : Invocation :=
    mkInvocation (Mode i) (Inputs i) (Output i) (Includes i) (SystemIncludes
    i) (Defines i) (Undefines i) (Libraries i) (LibraryDirs i) (Std i) (Optim
    i) (Debug i) (Warnings i) (Features i) v (Language i) (Passthrough i)
    (Unknown i) (RawArgs i) (Cwd i) (PreprocessedDigest i) (ManifestDigest i).
Definition set_Language (v : string) (i : Invocation) : Invocation :=
    mkInvocation (Mode i) (Inputs i) (Output i) (Includes i) (SystemIncludes
    i) (Defines i) (Undefines i) (Libraries i) (LibraryDirs i) (Std i) (Optim
    i) (Debug i) (Warnings i) (Features i) (Machine i) v (Passthrough i)
    (Unknown i) (RawArgs i) (Cwd i) (PreprocessedDigest i) (ManifestDigest i).
Definition set_Passthrough (v : list string) (i : Invocation) : Invocation :=
    mkInvocation (Mode i) (Inputs i) (Output i) (Includes i) (SystemIncludes
    i) (Defines i) (Undefines i) (Libraries i) (LibraryDirs i) (Std i) (Optim
    i) (Debug i) (Warnings i) (Features i) (Machine i) (Language i) v (Unknown
    i) (RawArgs i) (Cwd i) (PreprocessedDigest i) (ManifestDigest i).
Definition set_Unknown (v : list string) (i : Invocation) : Invocation :=
    mkInvocation (Mode i) (Inputs i) (Output i) (Includes i) (SystemIncludes
    i) (Defines i) (Undefines i) (Libraries i) (LibraryDirs i) (Std i) (Optim
    i) (Debug i) (Warnings i) (Features i) (Machine i) (Language i)
    (Passthrough i) v (RawArgs i) (Cwd i) (PreprocessedDigest i)
    (ManifestDigest i).
Definition set_RawArgs (v : list string) (i : Invocation) : Invocation :=
    mkInvocation (Mode i) (Inputs i) (Output i) (Includes i) (SystemIncludes
    i) (Defines i) (Undefines i) (Libraries i) (LibraryDirs i) (Std i) (Optim
    i) (Debug i) (Warnings i) (Features i) (Machine i) (Language i)
    (Passthrough i) (Unknown i) v (Cwd i) (PreprocessedDigest i)
    (ManifestDigest i).
Definition set_Cwd (v : string) (i : Invocation) : Invocation :=
    mkInvocation (Mode i) (Inputs i) (Output i) (Includes i) (SystemIncludes
    i) (Defines i) (Undefines i) (Libraries i) (LibraryDirs i) (Std i) (Optim
    i) (Debug i) (Warnings i) (Features i) (Machine i) (Language i)
    (Passthrough i) (Unknown i) (RawArgs i) v (PreprocessedDigest i)
    (ManifestDigest i).
Definition set_PreprocessedDigest (v : option string) (i : Invocation) : Invocation :=
    mkInvocation (Mode i) (Inputs i) (Output i) (Includes i) (SystemIncludes
    i) (Defines i) (Undefines i) (Libraries i) (LibraryDirs i) (Std i) (Optim
    i) (Debug i) (Warnings i) (Features i) (Machine i) (Language i)
    (Passthrough i) (Unknown i) (RawArgs i) (Cwd i) v (ManifestDigest i).
Definition set_ManifestDigest (v : option string) (i : Invocation) : Invocation :=
    mkInvocation (Mode i) (Inputs i) (Output i) (Includes i) (SystemIncludes
    i) (Defines i) (Undefines i) (Libraries i) (LibraryDirs i) (Std i) (Optim
    i) (Debug i) (Warnings i) (Features i) (Machine i) (Language i)
    (Passthrough i) (Unknown i) (RawArgs i) (Cwd i) (PreprocessedDigest i) v.

(** [NewInvocation]. *)
Definition NewInvocation : Invocation :=
  mkInvocation UnknownMode [] "" [] [] ∅ [] [] [] "" "" "" [] [] [] "" [] [] [] ""
    None None.

(** [(inv *Invocation) ReadsStdin]. *)
Definition ReadsStdin (inv : Invocation) : bool :=
  existsb (fun i => String.eqb i "-" || String.eqb i "/dev/stdin") (Inputs inv).

(** One iteration of the loop of [HasUncapturedSideEffectFlag]. *)
Definition uncapturedFlag (a : string) : bool :=
  String.eqb a "-save-temps" || hasPrefix a "-save-temps="
  || hasPrefix a "-fdump-"
  || (String.eqb a "-fcallgraph-info" || hasPrefix a "-fcallgraph-info=")
  || (String.eqb a "-fprofile-generate" || hasPrefix a "-fprofile-generate=")
  || (String.eqb a "-fprofile-arcs" || String.eqb a "-ftest-coverage"
      || String.eqb a "--coverage")
  || String.eqb a "-gsplit-dwarf"
  || (String.eqb a "-fdiagnostics-format=sarif-file"
      || String.eqb a "-fdiagnostics-format=json-file").

Definition HasUncapturedSideEffectFlag (args : list string) : bool :=
  existsb uncapturedFlag args.

(** [isAssembly]: forced language, or an input whose lower-cased extension
    is [.s]. *)
Definition isAssembly (inv : Invocation) : bool :=
  String.eqb (Language inv) "assembler"
  || String.eqb (Language inv) "assembler-with-cpp"
  || existsb (fun i => let e := toLower (ext i) in
                       String.eqb e ".s" || String.eqb e ".S") (Inputs inv).

Definition isProbeInvocation (inv : Invocation) : bool :=
  String.eqb (Output inv) "/dev/null"
  || existsb (fun i => String.eqb i "/dev/null") (Inputs inv).

Definition cacheableShape (inv : Invocation) : bool :=
  if negb (bool_decide (Mode inv = CompileMode)) then false
  else if negb (length (Inputs inv) =? 1) then false
  else if ReadsStdin inv then false
  else if isProbeInvocation inv then false
  else if HasUncapturedSideEffectFlag (RawArgs inv) then false
  else true.

Definition Cacheable (inv : Invocation) : bool :=
  if negb (cacheableShape inv) then false
  else if isAssembly inv then false
  else true.

Definition DispatchableUnderCAS (inv : Invocation) : bool := cacheableShape inv.

(** ** [detect.go] *)

Definition isSep (c : ascii) : bool := Ascii.eqb c "/"%char || Ascii.eqb c "\"%char.

(** [normalizeName]: base name, lower-cased, without [.exe]. *)
Definition normalizeName (argv0 : string) : string :=
  let argv0 := match lastIndexBy isSep argv0 with
               | Some i => sdrop (S i) argv0
               | None => argv0
               end in
  trimSuffix (toLower argv0) ".exe".

(** The two implementations of the [Compiler] interface, with the fields
    [Detect] sets ([exec] is [LocalExecutor{}] for both). *)
Inductive Compiler :=
  | clangCompiler (name path : string)
  | clCompiler (name path : string).

Definition compilerName (c : Compiler) : string :=
  match c with clangCompiler n _ | clCompiler n _ => n end.
Definition compilerPath (c : Compiler) : string :=
  match c with clangCompiler _ p | clCompiler _ p => p end.
Definition compilerFamily (c : Compiler) : Family :=
  match c with clangCompiler _ _ => GNUFamily | clCompiler _ _ => MSVCFamily end.

Definition gnuNames : list string := ["clang"; "clang++"; "cc"; "c++"; "gcc"; "g++"].

Definition Detect (argv0 : string) : result Compiler :=
  let name := normalizeName argv0 in
  if existsb (String.eqb name) gnuNames then Ok (clangCompiler name argv0)
  else if String.eqb name "cl" then Ok (clCompiler name argv0)
  else Err ("unknown compiler " +:+ argv0).

(** ** [InvocationResult]

    The field [Err] is neither assigned nor read anywhere and is left out. *)
Record InvocationResult := mkInvocationResult {
  resOutput : string;
  resStdout : string;
  resStderr : string;
  resExitCode : Z;
  resDuration : Z;
  resExtras : gmap string string
}.

(** ** Facts *)

Lemma cacheableShape_spec inv :
  cacheableShape inv = true ->
  Mode inv = CompileMode /\
  exists i, Inputs inv = [i] /\ i <> "-" /\ i <> "/dev/stdin" /\ i <> "/dev/null" /\
    Output inv <> "/dev/null" /\ HasUncapturedSideEffectFlag (RawArgs inv) = false.
Proof.
  unfold cacheableShape, ReadsStdin, isProbeInvocation.
  case_bool_decide as Hm; [|done].
  destruct (Inputs inv) as [|i [|? ?]]; simpl; try done.
  destruct (String.eqb_spec i "-"), (String.eqb_spec i "/dev/stdin"),
    (String.eqb_spec i "/dev/null"), (String.eqb_spec (Output inv) "/dev/null");
    simpl; try done.
  destruct (HasUncapturedSideEffectFlag (RawArgs inv)); naive_solver.
Qed.

(** Neither directory components (either separator), letter case nor an
    [.exe] suffix matters to [Detect]. *)
Lemma normalizeName_base d c n :
  isSep c = true -> lastIndexBy isSep n = None ->
  normalizeName (d +:+ String c n) = normalizeName n.
Proof.
  intros Hc Hn. unfold normalizeName. rewrite Hn.
  assert (lastIndexBy isSep (d +:+ String c n) = Some (slen d)) as ->.
  { induction d as [|x d IH]; simpl; [by rewrite Hn, Hc|].
    by rewrite IH. }
  f_equal. f_equal. induction d; simpl; auto.
Qed.
