(* ===== verification/Parser.v ===== *)
(** * Parser: [internal/compiler/parser.go] and [parser_msvc.go].

    The index loops over [expanded] become recursion on the remaining
    arguments; an option's separate value is the next remaining argument.
    [os.ReadFile] is the argument [readFile]. *)

From S2P Require Import Prelude GoStrings GoPath Enum Grammar Invocation.

(** ** Response files *)

(** An argument that [expandResponseFiles] replaces. *)
Definition isResponse (a : string) : bool := hasPrefix a "@" && negb (slen a =? 1).

Section Expand.
  Variable readFile : string -> result string.

(** One level of the loop, [rec] being the recursive call at [depth+1]. *)
Fixpoint expandArgs (rec : list string -> result (list string)) (args : list string)
    : result (list string) :=
  match args with
  | [] => Ok []
  | a :: rest =>
      if negb (isResponse a) then
        let! out := expandArgs rec rest in Ok (a :: out)
      else
        let path := sdrop 1 a in
        let! data := wrapErr ("read response file " +:+ path) (readFile path) in
        let! expanded := rec (fields data) in
        let! out := expandArgs rec rest in
        Ok (expanded ++ out)
  end.

(** [expandResponseFiles(args, depth)], [levels] being [17 - depth]: the
    call fails when [depth > 16]. *)
Fixpoint expandResponseFiles (levels : nat) (args : list string) : result (list string) :=
  match levels with
  | 0 => Err "response file recursion too deep"
  | S l => expandArgs (expandResponseFiles l) args
  end.

Definition expandTop (args : list string) : result (list string) :=
  expandResponseFiles 17 args.
End Expand.

(** ** Flag matching *)

(** The match of one table entry against [arg], [next] being the argument
    after it: the extracted value and the number of arguments consumed. *)
Definition matchSpecGNU (arg : string) (next : option string) (spec : FlagSpec)
    : option (string * nat) :=
  let separate := match next with Some v => Some (v, 2) | None => Some ("", 1) end in
  match specValue spec with
  | NoValue => if String.eqb arg (specName spec) then Some ("", 1) else None
  | SeparateValue => if String.eqb arg (specName spec) then separate else None
  | JoinedValue =>
      if hasPrefix arg (specName spec) then Some (sdrop (slen (specName spec)) arg, 1)
      else None
  | JoinedOrSeparate =>
      if String.eqb arg (specName spec) then separate
      else if hasPrefix arg (specName spec) then Some (sdrop (slen (specName spec)) arg, 1)
      else None
  end.

(** The scan of a sorted table: the first entry that matches. *)
Fixpoint scanSpecs (m : FlagSpec -> option (string * nat)) (specs : list FlagSpec)
    : option (FlagSpec * string * nat) :=
  match specs with
  | [] => None
  | s :: ss => match m s with
               | Some (v, n) => Some (s, v, n)
               | None => scanSpecs m ss
               end
  end.

(** [matchGNUFlag(args, i)] with [arg = args\[i\]] and [rest = args\[i+1:\]]. *)
Definition matchGNUFlag (arg : string) (rest : list string)
    : option (FlagSpec * string * nat) :=
  scanSpecs (matchSpecGNU arg (head rest)) gnuFlagsSorted.

(** [trimMSVCColon], [canonicalizeMSVC], [isMSVCFlag]. *)
Definition trimMSVCColon (s : string) : string := trimPrefix s ":".

Definition canonicalizeMSVC (arg : string) : string :=
  if hasPrefix arg "-" then "/" +:+ sdrop 1 arg else arg.

Definition isMSVCFlag (arg : string) : bool :=
  (1 <? slen arg) && (hasPrefix arg "/" || hasPrefix arg "-").

Definition matchSpecMSVC (canon : string) (next : option string) (spec : FlagSpec)
    : option (string * nat) :=
  let separate := match next with Some v => Some (v, 2) | None => Some ("", 1) end in
  match specValue spec with
  | NoValue => if String.eqb canon (specName spec) then Some ("", 1) else None
  | SeparateValue => if String.eqb canon (specName spec) then separate else None
  | JoinedValue =>
      if hasPrefix canon (specName spec) && negb (String.eqb canon (specName spec))
      then Some (trimMSVCColon (sdrop (slen (specName spec)) canon), 1)
      else None
  | JoinedOrSeparate =>
      if String.eqb canon (specName spec) then separate
      else if hasPrefix canon (specName spec)
           then Some (trimMSVCColon (sdrop (slen (specName spec)) canon), 1)
           else None
  end.

Definition matchMSVCFlag (arg : string) (rest : list string)
    : option (FlagSpec * string * nat) :=
  scanSpecs (matchSpecMSVC (canonicalizeMSVC arg) (head rest)) msvcFlagsSorted.

(** ** Applying a flag *)

Definition applyFlag (inv : Invocation) (spec : FlagSpec) (value : string) : Invocation :=
  match specCategory spec with
  | CatUnknown => inv
  | CatMode =>
      if String.eqb (specName spec) "-c" then set_Mode CompileMode inv
      else if String.eqb (specName spec) "-E" then set_Mode PreprocessMode inv
      else if String.eqb (specName spec) "-S" then set_Mode AssembleMode inv
      else if String.eqb (specName spec) "-M" || String.eqb (specName spec) "-MM"
           then set_Mode DepOnlyMode inv
      else inv
  | CatOutput => set_Output value inv
  | CatInclude => set_Includes (Includes inv ++ [value]) inv
  | CatSystemInclude => set_SystemIncludes (SystemIncludes inv ++ [value]) inv
  | CatDefine =>
      let '(name, val, _) := cut "="%char value in
      set_Defines (<[name := val]> (Defines inv)) inv
  | CatUndefine => set_Undefines (Undefines inv ++ [value]) inv
  | CatLibrary => set_Libraries (Libraries inv ++ [value]) inv
  | CatLibraryDir => set_LibraryDirs (LibraryDirs inv ++ [value]) inv
  | CatStandard => set_Std value inv
  | CatOptim => set_Optim value inv
  | CatDebug => set_Debug value inv
  | CatWarning => set_Warnings (Warnings inv ++ [value]) inv
  | CatFeature => set_Features (Features inv ++ [value]) inv
  | CatMachine => set_Machine (Machine inv ++ [value]) inv
  | CatLanguage => set_Language value inv
  | CatPassthrough =>
      match specValue spec with
      | NoValue => set_Passthrough (Passthrough inv ++ [specName spec]) inv
      | JoinedValue => set_Passthrough (Passthrough inv ++ [specName spec +:+ value]) inv
      | SeparateValue | JoinedOrSeparate =>
          set_Passthrough (Passthrough inv ++ [specName spec; value]) inv
      end
  end.

Definition applyMSVCFlag (inv : Invocation) (spec : FlagSpec) (value : string) : Invocation :=
  let n := specName spec in
  if String.eqb n "/c" then set_Mode CompileMode inv
  else if String.eqb n "/E" || String.eqb n "/EP" || String.eqb n "/P"
       then set_Mode PreprocessMode inv
  else if String.eqb n "/Zi" || String.eqb n "/Z7" || String.eqb n "/ZI"
       then set_Debug n inv
  else if String.eqb n "/Tc"
       then set_Inputs (Inputs inv ++ [value]) (set_Language "c" inv)
  else if String.eqb n "/Tp"
       then set_Inputs (Inputs inv ++ [value]) (set_Language "c++" inv)
  else applyFlag inv spec value.

(** ** Default output *)

(** [base]: the last path element of the input (either separator) without
    its extension; a leading dot is no extension. *)
Definition objectBase (i : string) : string :=
  let b := match lastIndexBy isSep i with
           | Some k => sdrop (S k) i
           | None => i
           end in
  match lastIndexBy (Ascii.eqb "."%char) b with
  | Some dot => if 0 <? dot then stake dot b else b
  | None => b
  end.

Definition inferDefaultOutput (inv : Invocation) (objExt : string) : Invocation :=
  if negb (bool_decide (Mode inv = CompileMode)) || negb (String.eqb (Output inv) "")
     || negb (length (Inputs inv) =? 1)
  then inv
  else
    let i := default "" (head (Inputs inv)) in
    if String.eqb i "-" then inv
    else if String.eqb (objectBase i) "" then inv
    else set_Output (objectBase i +:+ objExt) inv.

(** ** The two parsers *)

(** The main loop of [ParseGNU]. *)
Fixpoint parseGNULoop (inv : Invocation) (args : list string) : Invocation :=
  match args with
  | [] => inv
  | a :: rest =>
      if String.eqb a "--" then set_Inputs (Inputs inv ++ rest) inv
      else if negb (hasPrefix a "-") || String.eqb a "-" then
        parseGNULoop (set_Inputs (Inputs inv ++ [a]) inv) rest
      else match matchGNUFlag a rest with
      | None => parseGNULoop (set_Unknown (Unknown inv ++ [a]) inv) rest
      | Some (spec, value, consumed) =>
          let inv' := applyFlag inv spec value in
          match consumed, rest with
          | 2, _ :: rest' => parseGNULoop inv' rest'
          | _, _ => parseGNULoop inv' rest
          end
      end
  end.

(** The main loop of [ParseMSVC]. *)
Fixpoint parseMSVCLoop (inv : Invocation) (args : list string) : Invocation :=
  match args with
  | [] => inv
  | a :: rest =>
      if negb (isMSVCFlag a) then
        parseMSVCLoop (set_Inputs (Inputs inv ++ [a]) inv) rest
      else match matchMSVCFlag a rest with
      | None => parseMSVCLoop (set_Unknown (Unknown inv ++ [a]) inv) rest
      | Some (spec, value, consumed) =>
          if String.eqb (specName spec) "/link" then
            set_Passthrough (Passthrough inv ++ a :: rest) inv
          else
            let inv' := applyMSVCFlag inv spec value in
            match consumed, rest with
            | 2, _ :: rest' => parseMSVCLoop inv' rest'
            | _, _ => parseMSVCLoop inv' rest
            end
      end
  end.

Definition defaultMode (inv : Invocation) : Invocation :=
  if bool_decide (Mode inv = UnknownMode) then set_Mode LinkMode inv else inv.

Section Parse.
  Variable readFile : string -> result string.

Definition ParseGNU (args : list string) : result Invocation :=
  let! expanded := expandTop readFile args in
  let inv := parseGNULoop (set_RawArgs expanded NewInvocation) expanded in
  Ok (inferDefaultOutput (defaultMode inv) ".o").

Definition ParseMSVC (args : list string) : result Invocation :=
  let! expanded := expandTop readFile args in
  let inv := parseMSVCLoop (set_RawArgs expanded NewInvocation) expanded in
  Ok (inferDefaultOutput (defaultMode inv) ".obj").

(** [Compiler.Parse] of [clang.go] and [cl.go]. *)
Definition Parse (c : Compiler) (args : list string) : result Invocation :=
  match c with
  | clangCompiler _ _ => ParseGNU args
  | clCompiler _ _ => ParseMSVC args
  end.
End Parse.

(** ** Response files: facts *)

Section ExpandFacts.
  Context (readFile : string -> result string).

Lemma expandArgs_Forall (P : string -> Prop) rec args out :
  (forall a, isResponse a = false -> In a args -> P a) ->
  (forall l o, rec l = Ok o -> Forall P o) ->
  expandArgs readFile rec args = Ok out -> Forall P out.
Proof.
  intros Hp Hr. revert out. induction args as [|a args IH]; simpl; intros out H.
  { by inv_ok. }
  destruct (isResponse a) eqn:E; simpl in H; inv_ok.
  - apply Forall_app. split; [eauto|]. apply IH; auto. intros; apply Hp; simpl; auto.
  - constructor; [apply Hp; simpl; auto|]. apply IH; auto. intros; apply Hp; simpl; auto.
Qed.

Lemma expandArgs_id rec args :
  Forall (fun a => isResponse a = false) args -> expandArgs readFile rec args = Ok args.
Proof. induction 1 as [|a l Ha _ IH]; simpl; [done|]. by rewrite Ha; simpl; rewrite IH. Qed.

Lemma expandResponseFiles_plain n args out :
  expandResponseFiles readFile n args = Ok out -> Forall (fun a => isResponse a = false) out.
Proof.
  revert args out. induction n as [|n IH]; simpl; intros args out H; [done|].
  eapply expandArgs_Forall; [|exact IH|exact H]. auto.
Qed.

Lemma expandArgs_err rec a args :
  In a args -> isResponse a = true ->
  (forall data out, readFile (sdrop 1 a) = Ok data -> rec (fields data) <> Ok out) ->
  forall out, expandArgs readFile rec args <> Ok out.
Proof.
  intros Hin Ha Hr. induction args as [|b args IH]; intros out H; [done|].
  simpl in H. destruct Hin as [->|Hin].
  - rewrite Ha in H. simpl in H. inv_ok. eapply Hr; eauto.
  - destruct (isResponse b); simpl in H; inv_ok; eapply IH; eauto.
Qed.

(** Expansion is closed: the result mentions no response file and expanding
    it again changes nothing. *)
Lemma expandTop_closed args out :
  expandTop readFile args = Ok out ->
  Forall (fun a => isResponse a = false) out /\ expandTop readFile out = Ok out.
Proof.
  intros H. assert (Hf := expandResponseFiles_plain _ _ _ H).
  split; [done|]. by apply expandArgs_id.
Qed.

Lemma expandTop_plain args : Forall (fun a => isResponse a = false) args -> expandTop readFile args = Ok args.
Proof. apply expandArgs_id. Qed.

(** A response file that mentions itself is an error, whatever else the
    command line holds. *)
Lemma expandTop_cycle a data args :
  isResponse a = true -> readFile (sdrop 1 a) = Ok data -> In a (fields data) ->
  In a args -> forall out, expandTop readFile args <> Ok out.
Proof.
  intros Ha Hd Hc. unfold expandTop. generalize 17 as n.
  intros n. revert args. induction n as [|n IH]; intros args Hin out; simpl; [done|].
  eapply expandArgs_err; eauto. intros data' out' Hd'. simplify_eq.
  rewrite Hd in Hd'. simplify_eq. by apply IH.
Qed.
End ExpandFacts.

(** Without response files nothing is read. *)
Lemma Parse_plain rf rf' c args :
  Forall (fun a => isResponse a = false) args -> Parse rf c args = Parse rf' c args.
Proof. intros H. unfold Parse, ParseGNU, ParseMSVC. by rewrite !(expandTop_plain _ _ H). Qed.

(** ** Flag matching: facts *)

Lemma scanSpecs_find m specs s v n :
  scanSpecs m specs = Some (s, v, n) ->
  List.find (fun t => bool_decide (is_Some (m t))) specs = Some s /\ m s = Some (v, n).
Proof.
  induction specs as [|t specs IH]; simpl; intros H; [done|].
  destruct (m t) as [[v' n']|] eqn:E; simplify_eq; [done|].
  case_bool_decide as Hb; [by destruct Hb|auto].
Qed.

Lemma scanSpecs_None m specs :
  scanSpecs m specs = None <-> Forall (fun t => m t = None) specs.
Proof.
  induction specs as [|t specs IH]; simpl; [by split|].
  rewrite Forall_cons. destruct (m t) as [[? ?]|]; naive_solver.
Qed.

(** The scan of a table sorted by decreasing name length. *)
Lemma scanSpecs_longest m table s v n :
  scanSpecs m (isort nameLongerEq table) = Some (s, v, n) ->
  In s table /\ m s = Some (v, n) /\
  forall t, In t table -> is_Some (m t) -> slen (specName t) <= slen (specName s).
Proof.
  assert (forall t, In t (isort nameLongerEq table) <-> In t table) as Hp.
  { intros t. rewrite <- !list_elem_of_In. by rewrite isort_Permutation. }
  intros H. apply scanSpecs_find in H as [Hf Hm]. split_and!; [|done|].
  - apply Hp. by apply List.find_some in Hf as [? _].
  - intros t Ht Hs. eapply find_longest; [apply isort_Sorted; apply _|exact Hf| |].
    + by apply Hp.
    + by apply bool_decide_eq_true_2.
Qed.

(** The spelling of a flag and its value on a GNU command line. *)
Definition renderGNU (f : FlagSpec * string) : list string :=
  let '(spec, v) := f in
  match specValue spec with
  | NoValue => [specName spec]
  | JoinedValue => [specName spec +:+ v]
  | SeparateValue | JoinedOrSeparate => [specName spec; v]
  end.

(** No table entry with a longer name claims the spelling of [f]: [-W] with
    the value [l,x] is not writable, since [-Wl,] wins. *)
Definition writableGNU (f : FlagSpec * string) : bool :=
  match specValue f.1 with
  | NoValue => String.eqb f.2 ""
  | JoinedValue =>
      forallb (fun t => (slen (specName t) <=? slen (specName f.1))
                        || bool_decide (matchSpecGNU (specName f.1 +:+ f.2) None t = None))
        gnuFlags
  | SeparateValue | JoinedOrSeparate => true
  end.

Lemma matchSpecGNU_next arg n1 n2 spec :
  is_Some (matchSpecGNU arg n1 spec) <-> is_Some (matchSpecGNU arg n2 spec).
Proof.
  unfold matchSpecGNU. destruct (specValue spec), n1, n2; repeat case_match;
    split; intros [? ?]; simplify_eq; eauto.
Qed.

(** A matching entry's name is a prefix of the argument. *)
Lemma matchSpecGNU_prefix arg next s :
  is_Some (matchSpecGNU arg next s) -> hasPrefix arg (specName s) = true.
Proof.
  unfold matchSpecGNU. intros [x H].
  destruct (String.eqb_spec arg (specName s)) as [->|Hne]; [apply hasPrefix_refl|].
  by destruct (specValue s), (hasPrefix arg (specName s)).
Qed.

Lemma gnuFlags_names_NoDup s t :
  In s gnuFlags -> In t gnuFlags -> specName s = specName t -> s = t.
Proof.
  intros Hs Ht E.
  assert (forallb (fun a => forallb (fun b =>
    negb (String.eqb (specName a) (specName b)) || bool_decide (a = b)) gnuFlags) gnuFlags
    = true) as H by (vm_compute; reflexivity).
  rewrite forallb_forall in H. specialize (H _ Hs).
  rewrite forallb_forall in H. specialize (H _ Ht).
  rewrite E, String.eqb_refl in H. simpl in H. by apply bool_decide_eq_true in H.
Qed.

(** The entry that claims an argument, whatever follows it. *)
Lemma matchGNUFlag_claims arg rest s v n :
  In s gnuFlags -> matchSpecGNU arg (head rest) s = Some (v, n) ->
  (forall t, In t gnuFlags -> slen (specName s) < slen (specName t) ->
     matchSpecGNU arg (head rest) t = None) ->
  matchGNUFlag arg rest = Some (s, v, n).
Proof.
  intros Hs Hm Hl. destruct (matchGNUFlag arg rest) as [[[s' v'] n']|] eqn:E.
  - apply scanSpecs_longest in E as (Hs' & Hm' & Hlong).
    assert (slen (specName s) <= slen (specName s')) as Hle by (apply Hlong; eauto).
    assert (~ slen (specName s) < slen (specName s')) as Hnlt.
    { intros Hlt. by rewrite Hl in Hm'. }
    assert (specName s = specName s') as En.
    { apply (hasPrefix_len_eq arg); [lia| |]; eapply matchSpecGNU_prefix; eauto. }
    assert (s = s') as <- by (by apply gnuFlags_names_NoDup). congruence.
  - apply scanSpecs_None in E. rewrite List.Forall_forall in E.
    rewrite E in Hm; [done|].
    apply list_elem_of_In. unfold gnuFlagsSorted. rewrite isort_Permutation.
    by apply list_elem_of_In.
Qed.

Lemma matchSpecGNU_short arg next t :
  slen arg < slen (specName t) -> matchSpecGNU arg next t = None.
Proof.
  intros Hl. destruct (matchSpecGNU arg next t) eqn:E; [|done].
  assert (hasPrefix arg (specName t) = true) as H%hasPrefix_slen
    by (eapply matchSpecGNU_prefix; eauto).
  lia.
Qed.

Lemma writable_joined s v t next :
  specValue s = JoinedValue -> writableGNU (s, v) = true ->
  In t gnuFlags -> slen (specName s) < slen (specName t) ->
  matchSpecGNU (specName s +:+ v) next t = None.
Proof.
  unfold writableGNU. cbn [fst snd]. intros Ev H Ht Hl. rewrite Ev in H.
  rewrite forallb_forall in H. specialize (H _ Ht).
  apply orb_true_iff in H as [H|H]; [apply Nat.leb_le in H; lia|].
  apply bool_decide_eq_true in H. rewrite eq_None_not_Some in *.
  by rewrite (matchSpecGNU_next _ next None).
Qed.

Lemma matchGNUFlag_render f rest :
  In f.1 gnuFlags -> writableGNU f = true ->
  exists w ws, renderGNU f = w :: ws /\
    matchGNUFlag w (ws ++ rest) = Some (f.1, f.2, S (length ws)).
Proof.
  destruct f as [s v]. unfold renderGNU. simpl. intros Hs Hw.
  destruct (specValue s) eqn:Ev; eexists _, _; (split; [done|]);
    apply matchGNUFlag_claims; try done; simpl;
    try (by intros; apply matchSpecGNU_short);
    try (by intros; apply writable_joined);
    unfold matchSpecGNU; rewrite Ev, ?String.eqb_refl, ?hasPrefix_app, ?sdrop_app; try done.
  unfold writableGNU in Hw. cbn [fst snd] in Hw. rewrite Ev in Hw.
  by apply String.eqb_eq in Hw as ->.
Qed.

(** A spelled flag is neither an input nor the end-of-flags marker. *)
Lemma render_is_flag f w ws :
  In f.1 gnuFlags -> renderGNU f = w :: ws ->
  String.eqb w "--" = false /\ negb (hasPrefix w "-") || String.eqb w "-" = false.
Proof.
  intros Hin H.
  assert (forallb (fun t => match specName t with
     | String a (String b _) => Ascii.eqb a "-" && negb (Ascii.eqb b "-")
     | _ => false end) gnuFlags = true) as Hall by (vm_compute; reflexivity).
  rewrite forallb_forall in Hall. specialize (Hall _ Hin).
  destruct f as [s v]. unfold renderGNU in H. simpl in *.
  destruct (specName s) as [|a [|b n]]; try done.
  apply andb_true_iff in Hall as [Ha%Ascii.eqb_eq Hb%negb_true_iff]. subst a.
  destruct (specValue s); simplify_eq; simpl; by rewrite Hb.
Qed.

(** Writing a sequence of flags out and parsing it applies each of them in
    order. *)
Lemma parseGNULoop_render fs inv rest :
  Forall (fun f => In f.1 gnuFlags /\ writableGNU f = true) fs ->
  parseGNULoop inv (concat (map renderGNU fs) ++ rest)
  = parseGNULoop (foldl (fun i f => applyFlag i f.1 f.2) inv fs) rest.
Proof.
  intros H. revert inv. induction H as [|f fs [Hin Hw] _ IH]; intros inv; [done|].
  destruct (matchGNUFlag_render f (concat (map renderGNU fs) ++ rest) Hin Hw)
    as (w & ws & Hr & Hm).
  destruct (render_is_flag f w ws Hin Hr) as [E1 E2].
  cbn [map concat]. rewrite Hr, <- app_assoc.
  cbn [app parseGNULoop]. rewrite E1, E2, Hm.
  destruct ws as [|x [|y ws]]; cbn [app length foldl]; [apply IH|apply IH|].
  destruct f as [s v]. simpl in Hr. by destruct (specValue s).
Qed.

(** *** Whole command lines

    A word of a command, with its value: an input, a flag in the form of
    [renderGNU], a [JoinedOrSeparate] flag with its value glued on, a flag no
    entry of the table knows.  A command ends with its words, with [--] and
    files, or with a flag whose value is missing. *)
Inductive word :=
  | WInput (a : string)
  | WFlag (f : FlagSpec * string)
  | WGlued (f : FlagSpec * string)
  | WUnknown (a : string).

Inductive ending := EndHere | EndFiles (files : list string) | EndDangling (s : FlagSpec).

Definition renderWord (w : word) : list string :=
  match w with
  | WInput a | WUnknown a => [a]
  | WFlag f => renderGNU f
  | WGlued f => [specName f.1 +:+ f.2]
  end.

Definition renderEnding (e : ending) : list string :=
  match e with EndHere => [] | EndFiles files => "--" :: files | EndDangling s => [specName s] end.

Definition renderCommand (ws : list word) (e : ending) : list string := concat (map renderWord ws) ++ renderEnding e.

Definition isPositional (a : string) : bool := negb (hasPrefix a "-") || String.eqb a "-".
Definition takesNext (s : FlagSpec) : bool :=
  match specValue s with SeparateValue | JoinedOrSeparate => true | _ => false end.

(** No entry with a longer name than that of [s] matches [arg]. *)
Definition unclaimed (s : FlagSpec) (arg : string) : bool :=
  forallb (fun t => (slen (specName t) <=? slen (specName s)) || bool_decide (matchSpecGNU arg None t = None)) gnuFlags.

Definition unknownFlag (a : string) : bool :=
  forallb (fun t => bool_decide (matchSpecGNU a None t = None)) gnuFlags.

Definition wordOk (w : word) : Prop :=
  match w with
  | WInput a => isPositional a = true
  | WFlag f => In f.1 gnuFlags /\ writableGNU f = true
  | WGlued f => In f.1 gnuFlags /\ specValue f.1 = JoinedOrSeparate /\ f.2 <> "" /\ unclaimed f.1 (specName f.1 +:+ f.2) = true
  | WUnknown a => isPositional a = false /\ a <> "--" /\ unknownFlag a = true
  end.

Definition endingOk (e : ending) : Prop :=
  match e with EndDangling s => In s gnuFlags /\ takesNext s = true | _ => True end.

(** What a word does to the invocation. *)
Definition applyWord (inv : Invocation) (w : word) : Invocation :=
  match w with
  | WInput a => set_Inputs (Inputs inv ++ [a]) inv
  | WFlag f | WGlued f => applyFlag inv f.1 f.2
  | WUnknown a => set_Unknown (Unknown inv ++ [a]) inv
  end.

Definition applyEnding (inv : Invocation) (e : ending) : Invocation :=
  match e with
  | EndHere => inv
  | EndFiles files => set_Inputs (Inputs inv ++ files) inv
  | EndDangling s => applyFlag inv s ""
  end.

Lemma unclaimed_None s arg t next :
  unclaimed s arg = true -> In t gnuFlags -> slen (specName s) < slen (specName t) -> matchSpecGNU arg next t = None.
Proof.
  intros H Ht Hl. unfold unclaimed in H. rewrite forallb_forall in H. specialize (H _ Ht).
  apply orb_true_iff in H as [H|H]; [apply Nat.leb_le in H; lia|].
  apply bool_decide_eq_true in H. rewrite eq_None_not_Some in *. by rewrite (matchSpecGNU_next _ next None).
Qed.

Lemma spelled_flag s v : In s gnuFlags -> String.eqb (specName s +:+ v) "--" = false /\ isPositional (specName s +:+ v) = false.
Proof.
  intros Hin.
  assert (forallb (fun t => match specName t with
     | String a (String b _) => Ascii.eqb a "-" && negb (Ascii.eqb b "-")
     | _ => false end) gnuFlags = true) as Hall by (vm_compute; reflexivity).
  rewrite forallb_forall in Hall. specialize (Hall _ Hin). destruct (specName s) as [|a [|b n]]; try done.
  apply andb_true_iff in Hall as [Ha%Ascii.eqb_eq Hb%negb_true_iff]. subst a. unfold isPositional. cbn. by rewrite Hb.
Qed.

Lemma parse_word w inv rest :
  wordOk w -> parseGNULoop inv (renderWord w ++ rest) = parseGNULoop (applyWord inv w) rest.
Proof.
  destruct w as [a|f|[s v]|a]; cbn [wordOk renderWord applyWord].
  - intros H. cbn [app parseGNULoop]. unfold isPositional in H. rewrite H. destruct (String.eqb_spec a "--") as [->|]; done.
  - intros H. pose proof (parseGNULoop_render [f] inv rest) as E. cbn [map concat foldl] in E.
    rewrite app_nil_r in E. apply E. by constructor.
  - cbn [fst snd]. intros (Hs & Hv & Hne & Hu). cbn [app parseGNULoop]. destruct (spelled_flag s v Hs) as [-> Hp].
    unfold isPositional in Hp. rewrite Hp. rewrite (matchGNUFlag_claims _ rest s v 1); [by destruct rest|done| |].
    + unfold matchSpecGNU. rewrite Hv, hasPrefix_app, sdrop_app. destruct (String.eqb_spec (specName s +:+ v) (specName s)) as [E|]; [|done].
      rewrite <- (sapp_nil_r (specName s)) in E at 2. by apply sapp_inv_head in E.
    + intros t Ht Hl. by eapply unclaimed_None.
  - intros (Hp & Hd & Hn). cbn [app parseGNULoop]. rewrite (proj2 (String.eqb_neq _ _) Hd). unfold isPositional in Hp. rewrite Hp.
    replace (matchGNUFlag a rest) with (@None (FlagSpec * string * nat)); [done|]. symmetry. apply scanSpecs_None.
    apply List.Forall_forall. intros t Ht%list_elem_of_In. unfold gnuFlagsSorted in Ht. rewrite isort_Permutation in Ht.
    apply list_elem_of_In in Ht. unfold unknownFlag in Hn. rewrite forallb_forall in Hn.
    specialize (Hn t Ht). apply bool_decide_eq_true in Hn. rewrite eq_None_not_Some in *. by rewrite (matchSpecGNU_next _ _ None).
Qed.

Lemma parse_ending e inv : endingOk e -> parseGNULoop inv (renderEnding e) = applyEnding inv e.
Proof.
  destruct e as [|files|s]; cbn [endingOk renderEnding applyEnding]; [done|done|]. intros [Hs Ht]. cbn [parseGNULoop].
  destruct (spelled_flag s "" Hs) as [E1 E2]. rewrite sapp_nil_r in E1, E2. unfold isPositional in E2. rewrite E1, E2.
  rewrite (matchGNUFlag_claims _ [] s "" 1); [done|done| |by intros; apply matchSpecGNU_short].
  unfold matchSpecGNU, takesNext in *. by destruct (specValue s); rewrite ?String.eqb_refl.
Qed.

(** The whole loop. *)
Lemma parse_command ws e inv :
  Forall wordOk ws -> endingOk e ->
  parseGNULoop inv (renderCommand ws e) = applyEnding (foldl applyWord inv ws) e.
Proof.
  intros Hws He. revert inv. unfold renderCommand. induction Hws as [|w ws Hw _ IH]; intros inv; cbn [map concat foldl].
  - by apply parse_ending.
  - rewrite <- app_assoc, parse_word by done. apply IH.
Qed.

(** How the table reads a flag is how it can be written. *)
Lemma match_writes a rest s v n :
  matchGNUFlag a rest = Some (s, v, n) ->
  (exists w, wordOk w /\ ((renderWord w = [a] /\ n = 1) \/ (exists x r, rest = x :: r /\ renderWord w = [a; x] /\ n = 2))) \/
  (rest = [] /\ In s gnuFlags /\ takesNext s = true /\ a = specName s).
Proof.
  intros H. apply scanSpecs_longest in H as (Hs & Hm & Hl).
  assert (unclaimed s a = true) as Hu.
  { unfold unclaimed. apply forallb_forall. intros t Ht. apply orb_true_iff.
    destruct (matchSpecGNU a None t) eqn:E; [left|right; by apply bool_decide_eq_true].
    apply Nat.leb_le, Hl; [done|]. apply (matchSpecGNU_next _ _ None). eauto. }
  unfold matchSpecGNU in Hm. destruct (specValue s) eqn:Ev.
  - destruct (String.eqb_spec a (specName s)) as [->|]; [|done]. injection Hm as <- <-. left. exists (WFlag (s, "")).
    cbn. unfold writableGNU. cbn. rewrite Ev. auto.
  - destruct (hasPrefix a (specName s)) eqn:Ep; [|done]. injection Hm as <- <-. left. apply hasPrefix_split in Ep.
    exists (WFlag (s, sdrop (slen (specName s)) a)). cbn. unfold writableGNU. cbn. rewrite Ev, <- Ep. auto.
  - destruct (String.eqb_spec a (specName s)) as [->|]; [|done]. destruct rest as [|x rest]; cbn in Hm; injection Hm as <- <-.
    + right. unfold takesNext. by rewrite Ev.
    + left. exists (WFlag (s, x)). cbn. unfold writableGNU. cbn. rewrite Ev. eauto 10.
  - destruct (String.eqb_spec a (specName s)) as [->|Hne].
    + destruct rest as [|x rest]; cbn in Hm; injection Hm as <- <-.
      * right. unfold takesNext. by rewrite Ev.
      * left. exists (WFlag (s, x)). cbn. unfold writableGNU. cbn. rewrite Ev. eauto 10.
    + destruct (hasPrefix a (specName s)) eqn:Ep; [|done]. injection Hm as <- <-. left. apply hasPrefix_split in Ep.
      exists (WGlued (s, sdrop (slen (specName s)) a)). cbn. rewrite <- Ep. split_and!; auto.
      intros E. rewrite E, sapp_nil_r in Ep. done.
Qed.

(** Every command line is the spelling of a command. *)
Lemma command_complete args : exists ws e, Forall wordOk ws /\ endingOk e /\ args = renderCommand ws e.
Proof.
  remember (length args) as n eqn:Hn. assert (length args <= n) as Hle by lia. clear Hn.
  revert args Hle. induction n as [|n IH]; intros [|a rest] Hle; cbn in Hle; try lia; try (by exists [], EndHere).
  assert (forall w r, wordOk w -> a :: rest = renderWord w ++ r -> length r <= n ->
    exists ws e, Forall wordOk ws /\ endingOk e /\ a :: rest = renderCommand ws e) as Hstep.
  { intros w r Hw -> Hr. destruct (IH r Hr) as (ws & e & H1 & H2 & ->). exists (w :: ws), e.
    split; [by constructor|]. split; [done|]. unfold renderCommand. cbn. by rewrite app_assoc. }
  destruct (String.eqb_spec a "--") as [->|Hd]; [by exists [], (EndFiles rest)|].
  destruct (isPositional a) eqn:Hp; [apply (Hstep (WInput a) rest); [done|done|lia]|].
  destruct (matchGNUFlag a rest) as [[[s v] c]|] eqn:E.
  - apply match_writes in E as [(w & Hw & [[Hr _]|(x & r & -> & Hr & _)])|(-> & Hs & Ht & ->)].
    + apply (Hstep w rest Hw); [by rewrite Hr|lia].
    + apply (Hstep w r Hw); [by rewrite Hr|cbn in Hle; lia].
    + by exists [], (EndDangling s).
  - apply (Hstep (WUnknown a) rest); [|done|lia]. split_and!; [done|done|]. apply forallb_forall. intros t Ht.
    apply bool_decide_eq_true. apply scanSpecs_None in E. rewrite List.Forall_forall in E. specialize (E t).
    rewrite eq_None_not_Some in *. rewrite (matchSpecGNU_next _ None (head rest)). apply E.
    apply list_elem_of_In. unfold gnuFlagsSorted. rewrite isort_Permutation. by apply list_elem_of_In.
Qed.

(** ** Invariants of the parsing loops

    [good] holds of the command line's words; a flag's value is the empty
    string, the word after the flag, or the rest of the flag's word. *)
Section LoopInvariant.
  Context (good : string -> Prop) (P : Invocation -> Prop).
  Hypothesis good_nil : good "".
  Hypothesis good_sdrop : forall n s, good s -> good (sdrop n s).
  Hypothesis P_inputs : forall i l, P i -> Forall good l -> P (set_Inputs (Inputs i ++ l) i).
  Hypothesis P_unknown : forall i a, P i -> good a -> P (set_Unknown (Unknown i ++ [a]) i).

Lemma matchSpecGNU_value arg next s v n :
  good arg -> (forall x, next = Some x -> good x) ->
  matchSpecGNU arg next s = Some (v, n) -> good v.
Proof.
  unfold matchSpecGNU. intros Ha Hn H.
  destruct next as [x|]; repeat case_match; simplify_eq; auto.
Qed.

Lemma parseGNULoop_inv inv args :
  (forall i s v, P i -> In s gnuFlags -> good v -> P (applyFlag i s v)) ->
  Forall good args -> P inv -> P (parseGNULoop inv args).
Proof.
  intros Hap. remember (length args) as n eqn:Hn.
  assert (length args <= n) as Hle by lia. clear Hn.
  revert inv args Hle. induction n as [|n IH]; intros inv [|a rest] Hle Hg HP; simpl in Hle;
    [done|lia|done|].
  apply Forall_cons in Hg as [Ha Hr]. cbn [parseGNULoop].
  destruct (String.eqb a "--"); [auto|].
  destruct (negb (hasPrefix a "-") || String.eqb a "-").
  { apply IH; [lia|done|]. apply P_inputs; auto. }
  destruct (matchGNUFlag a rest) as [[[s v] c]|] eqn:E.
  - apply scanSpecs_longest in E as (Hs & Hm & _).
    apply matchSpecGNU_value in Hm; [|done|destruct Hr; naive_solver].
    assert (P (applyFlag inv s v)) by auto.
    destruct c as [|[|[|?]]], rest as [|x rest]; apply IH; simpl in *; auto; try lia.
    by apply Forall_cons in Hr as [_ ?].
  - apply IH; [lia|done|]. by apply P_unknown.
Qed.
End LoopInvariant.

(** The names recorded for [-D] never contain an equals sign. *)
Definition definesOk (inv : Invocation) : Prop :=
  map_Forall (fun k _ => containsByte k "="%char = false) (Defines inv).

Lemma applyFlag_definesOk inv s v : definesOk inv -> definesOk (applyFlag inv s v).
Proof.
  unfold definesOk. intros H. unfold applyFlag.
  destruct (specCategory s); try done; repeat case_match; try done.
  apply map_Forall_insert_2; [|done].
  match goal with E : cut _ _ = _ |- _ => apply cut_spec in E end. tauto.
Qed.

Lemma parseGNULoop_definesOk inv args :
  definesOk inv -> definesOk (parseGNULoop inv args).
Proof.
  apply (parseGNULoop_inv (fun _ => True)); auto using applyFlag_definesOk.
  apply Forall_true. done.
Qed.

Lemma applyFlag_Inputs inv s v : Inputs (applyFlag inv s v) = Inputs inv.
Proof. unfold applyFlag. destruct (specCategory s); try done; by repeat case_match. Qed.

Lemma applyFlags_Inputs fs inv :
  Inputs (foldl (fun i f => applyFlag i f.1 f.2) inv fs) = Inputs inv.
Proof. revert inv. induction fs; intros inv; simpl; [done|]. by rewrite IHfs, applyFlag_Inputs. Qed.

Lemma lastIndexBy_stake f s k : lastIndexBy f s = Some k -> k < slen s.
Proof.
  revert k. induction s as [|c s IH]; intros k H; simpl in *; [done|].
  destruct (lastIndexBy f s) as [j|]; [|destruct (f c); simplify_eq; lia].
  simplify_eq. specialize (IH j eq_refl). lia.
Qed.

Lemma stake_nil n s : stake n s = "" -> n = 0 \/ s = "".
Proof. destruct n, s; simpl; auto; done. Qed.

Lemma objectBase_nonempty i :
  (forall k, lastIndexBy isSep i = Some k -> S k <> slen i) -> i <> "" ->
  objectBase i <> "".
Proof.
  intros Hlast Hne. unfold objectBase.
  set (b := match lastIndexBy isSep i with Some k => sdrop (S k) i | None => i end).
  assert (b <> "") as Hb.
  { unfold b. destruct (lastIndexBy isSep i) as [k|] eqn:E; [|done].
    intros Hd. apply (f_equal slen) in Hd. rewrite slen_sdrop in Hd. simpl in Hd.
    specialize (Hlast k eq_refl). apply lastIndexBy_stake in E. lia. }
  destruct (lastIndexBy _ b) as [d|]; [|done].
  destruct (Nat.ltb_spec 0 d); [|done]. intros [?|?]%stake_nil; [lia|done].
Qed.

(** Without an [-o], a single-input compile gets an output name unless the
    input's last element is empty. *)
Lemma inferDefaultOutput_spec inv e i :
  Mode inv = CompileMode -> Inputs inv = [i] -> i <> "-" -> objectBase i <> "" ->
  Output (inferDefaultOutput inv e)
  = if String.eqb (Output inv) "" then objectBase i +:+ e else Output inv.
Proof.
  intros Hm Hi Hd Hb. unfold inferDefaultOutput.
  rewrite bool_decide_eq_true_2, Hi by done. cbn [negb orb length Nat.eqb].
  destruct (String.eqb_spec (Output inv) ""); [|done].
  change (default "" (head [i])) with i. cbn [negb orb].
  by rewrite (proj2 (String.eqb_neq _ _) Hd), (proj2 (String.eqb_neq _ _) Hb).
Qed.

Lemma inferDefaultOutput_frame inv e :
  Mode (inferDefaultOutput inv e) = Mode inv /\ Inputs (inferDefaultOutput inv e) = Inputs inv
  /\ RawArgs (inferDefaultOutput inv e) = RawArgs inv.
Proof. unfold inferDefaultOutput. repeat case_match; done. Qed.

(** ** Properties *)



(** Expanding response files leaves no response-file reference behind,
    so expanding the result again is the identity. *)
Theorem expand_closed (readFile : string -> result string) (args out : list string) :
  expandTop readFile args = Ok out ->
  Forall (fun a => isResponse a = false) out /\ expandTop readFile out = Ok out.
Proof. apply expandTop_closed. Qed.

Lemma expand_closed_witness :
  expandTop (fun p => if String.eqb p "f" then Ok "-c @g" else Ok "x.c") ["@f"; "-O2"]
    = Ok ["-c"; "x.c"; "-O2"] /\
  Forall (fun a => isResponse a = false) ["-c"; "x.c"; "-O2"].
Proof.
  split; [vm_compute; reflexivity|].
  apply (expand_closed (fun p => if String.eqb p "f" then Ok "-c @g" else Ok "x.c")
           ["@f"; "-O2"]).
  vm_compute; reflexivity.
Defined.

(** A response file that mentions itself is rejected, wherever it is
    used on the command line: expansion never loops. *)
Theorem expand_cycle_rejected (readFile : string -> result string) (a data : string)
    (args : list string) :
  isResponse a = true -> readFile (sdrop 1 a) = Ok data -> In a (fields data) ->
  In a args -> is_ok (expandTop readFile args) = false.
Proof.
  intros Ha Hd Hc Hin. assert (H := expandTop_cycle readFile a data args Ha Hd Hc Hin).
  destruct (expandTop readFile args); [by edestruct H|done].
Qed.

Lemma expand_cycle_rejected_witness :
  is_ok (expandTop (fun _ => Ok "-O2 @loop x.c") ["-c"; "@loop"]) = false.
Proof.
  apply (expand_cycle_rejected (fun _ => Ok "-O2 @loop x.c") "@loop" "-O2 @loop x.c").
  - reflexivity.
  - reflexivity.
  - in_list.
  - in_list.
Defined.

(** Both flag matchers choose an entry of their table that matches the
    argument and whose name is a longest among the entries that match, so
    that [-Wl,x] is a linker flag and not the warning [l,x]. *)
Theorem matchFlag_longest (arg : string) (rest : list string) (s : FlagSpec) (v : string) (n : nat) :
  (matchGNUFlag arg rest = Some (s, v, n) ->
   In s gnuFlags /\ matchSpecGNU arg (head rest) s = Some (v, n) /\
   forall t, In t gnuFlags -> is_Some (matchSpecGNU arg (head rest) t) ->
     slen (specName t) <= slen (specName s)) /\
  (matchMSVCFlag arg rest = Some (s, v, n) ->
   In s msvcFlags /\ matchSpecMSVC (canonicalizeMSVC arg) (head rest) s = Some (v, n) /\
   forall t, In t msvcFlags -> is_Some (matchSpecMSVC (canonicalizeMSVC arg) (head rest) t) ->
     slen (specName t) <= slen (specName s)).
Proof. split; apply scanSpecs_longest. Qed.

Lemma matchFlag_longest_witness :
  matchGNUFlag "-Wl,x" [] = Some (mkFlagSpec "-Wl," JoinedValue CatPassthrough, "x", 1) /\
  slen "-W" <= slen "-Wl,".
Proof.
  split; [vm_compute; reflexivity|].
  apply (proj1 (matchFlag_longest "-Wl,x" [] (mkFlagSpec "-Wl," JoinedValue CatPassthrough) "x" 1)
           ltac:(vm_compute; reflexivity)) with (t := mkFlagSpec "-W" JoinedValue CatWarning).
  - in_list.
  - vm_compute. eauto.
Defined.

(** A parsed command that may be cached or dispatched has an output
    path, given or inferred, unless its only input ends in a separator or is
    the empty word: the cache always knows which file it stores and
    restores. *)
Theorem ParseGNU_output_known (readFile : string -> result string) (args : list string)
    (inv : Invocation) :
  ParseGNU readFile args = Ok inv -> cacheableShape inv = true -> Output inv = "" ->
  exists i, Inputs inv = [i] /\ (i = "" \/ exists k, lastIndexBy isSep i = Some k /\ S k = slen i).
Proof.
  unfold ParseGNU. intros H Hc Ho. inv_ok.
  apply cacheableShape_spec in Hc as (Hm & i & Hi & Hd & _).
  match goal with |- context [inferDefaultOutput ?x _] => set (j := x) in * end.
  destruct (inferDefaultOutput_frame j ".o") as (Em & Ei & _).
  exists i. split; [done|].
  destruct (decide (i = "")) as [|Hne]; [by left|]. right.
  destruct (decide (objectBase i = "")) as [Hb|Hb].
  - destruct (lastIndexBy isSep i) as [k|] eqn:E.
    + exists k. split; [done|]. destruct (decide (S k = slen i)); [done|].
      by destruct (objectBase_nonempty i); [naive_solver|..].
    + by destruct (objectBase_nonempty i); [naive_solver|..].
  - rewrite (inferDefaultOutput_spec j ".o" i) in Ho by congruence.
    destruct (String.eqb_spec (Output j) ""); [|done].
    by apply sapp_eq_nil in Ho as [? _].
Qed.

Lemma ParseGNU_output_known_witness :
  exists i, Inputs (set_Mode CompileMode (set_Inputs ["src/"] NewInvocation)) = [i] /\
    (i = "" \/ exists k, lastIndexBy isSep i = Some k /\ S k = slen i).
Proof.
  apply (ParseGNU_output_known (fun _ => Err "no such file") ["-c"; "src/"]
    (set_RawArgs ["-c"; "src/"] (set_Mode CompileMode (set_Inputs ["src/"] NewInvocation))));
    vm_compute; reflexivity.
Defined.

(** The joined spelling [-obar.o], which GCC and Clang accept, is not an
    entry of the table: it is kept as an unknown flag and the output is
    inferred from the input's name instead. *)
Theorem joined_output_unrecognised (readFile : string -> result string) :
  exists inv, ParseGNU readFile ["-c"; "foo.c"; "-obar.o"] = Ok inv /\
    Unknown inv = ["-obar.o"] /\ Output inv = "foo.o" /\ Cacheable inv = true.
Proof. eexists. split; [reflexivity|]. by vm_compute. Qed.
