(* ===== verification/CacheKey.v ===== *)
(** * CacheKey: the canonical flag encoding of
    [internal/compiler/cache_key.go] and the chunk framing of the key in
    [invocation.go]. *)

From S2P Require Import Prelude GoStrings Enum Grammar Invocation Parser.

Definition nul : ascii := "000"%char.
Definition nulS : string := String nul "".

(** [filterIrrelevantPassthrough], [skip] being the value of [skipNext]. *)
Fixpoint filterPassthroughFrom (skip : bool) (passthrough : list string) : list string :=
  match passthrough with
  | [] => []
  | a :: rest =>
      if skip then filterPassthroughFrom false rest
      else if String.eqb a "-MD" || String.eqb a "-MMD" then filterPassthroughFrom false rest
      else if String.eqb a "-MF" || String.eqb a "-MT" || String.eqb a "-MQ"
           then filterPassthroughFrom true rest
      else if String.eqb a "/showIncludes" then filterPassthroughFrom false rest
      else a :: filterPassthroughFrom false rest
  end.

Definition filterIrrelevantPassthrough (passthrough : list string) : list string :=
  filterPassthroughFrom false passthrough.

(** The entries of a list section and its terminator. *)
Fixpoint writeItems (items : list string) : string :=
  match items with
  | [] => nulS
  | item :: rest => item +:+ nulS +:+ writeItems rest
  end.

(** The local closures [writeList] and [writeKV]. *)
Definition writeList (tag : string) (items : list string) : string :=
  tag +:+ nulS +:+ writeItems items.
Definition writeKV (tag value : string) : string := tag +:+ "=" +:+ value +:+ nulS.

(** The entries of the [D] section, for the keys in the order given. *)
Definition defineEntries (defines : gmap string string) (keys : list string) : list string :=
  map (fun k => k +:+ "=" +:+ default "" (defines !! k)) keys.

Definition sortedKeys (m : gmap string string) : list string :=
  sortStrings (map fst (map_to_list m)).

Definition cacheKeyFlags (inv : Invocation) : string :=
  writeList "I" (Includes inv)
  +:+ writeList "isystem" (SystemIncludes inv)
  +:+ writeList "U" (Undefines inv)
  +:+ writeList "D" (defineEntries (Defines inv) (sortedKeys (Defines inv)))
  +:+ writeKV "std" (Std inv)
  +:+ writeKV "opt" (Optim inv)
  +:+ writeKV "dbg" (Debug inv)
  +:+ writeKV "lang" (Language inv)
  +:+ writeKV "mode" (modeDigit (Mode inv))
  +:+ writeList "W" (Warnings inv)
  +:+ writeList "f" (Features inv)
  +:+ writeList "m" (Machine inv)
  +:+ writeList "pass" (filterIrrelevantPassthrough (Passthrough inv))
  +:+ writeList "unk" (Unknown inv).

(** [CacheKeyFlagsBytes]. *)
Definition CacheKeyFlagsBytes (inv : Invocation) : string := cacheKeyFlags inv.

(** [writeChunk] of [CacheKeyWithManifest]: an 8-byte big-endian length and
    the data. *)
Definition chunk (data : string) : string := be_bytes 8 (Z.of_nat (slen data)) +:+ data.

(** What the digest of [CacheKeyWithManifest] absorbs, for the source digest
    chosen by its [switch]. *)
Definition keyPreimage (source identity : string) (inv : Invocation) : string :=
  chunk source +:+ chunk identity +:+ chunk (cacheKeyFlags inv).

(** ** What the encoding distinguishes *)

(** The fields of an invocation the key depends on. *)
Definition keyView (inv : Invocation) :=
  (Includes inv, SystemIncludes inv, Undefines inv, Defines inv,
   (Std inv, Optim inv, Debug inv, Language inv, Mode inv),
   (Warnings inv, Features inv, Machine inv,
    filterIrrelevantPassthrough (Passthrough inv), Unknown inv)).

Definition nulFree (s : string) : bool := negb (containsByte s nul).
Definition itemOk (s : string) : bool := negb (String.eqb s "") && nulFree s.

(** Every keyed word is free of NUL (which no [execve] argument can hold),
    no list holds an empty word, and macro names hold no equals sign. *)
Definition wellKeyed (inv : Invocation) : bool :=
  forallb itemOk (Includes inv) && forallb itemOk (SystemIncludes inv)
  && forallb itemOk (Undefines inv)
  && forallb (fun kv => nulFree kv.1 && nulFree kv.2 && negb (containsByte kv.1 "="%char))
       (map_to_list (Defines inv))
  && nulFree (Std inv) && nulFree (Optim inv) && nulFree (Debug inv)
  && nulFree (Language inv)
  && forallb itemOk (Warnings inv) && forallb itemOk (Features inv)
  && forallb itemOk (Machine inv)
  && forallb itemOk (filterIrrelevantPassthrough (Passthrough inv))
  && forallb itemOk (Unknown inv).

(** ** Lemmas *)

Lemma sep_inj c a b r1 r2 :
  containsByte a c = false -> containsByte b c = false ->
  a +:+ String c r1 = b +:+ String c r2 -> a = b /\ r1 = r2.
Proof.
  revert b. induction a as [|x a IH]; intros [|y b] Ha Hb H; simpl in *; simplify_eq.
  - done.
  - by rewrite Ascii.eqb_refl in Hb.
  - by rewrite Ascii.eqb_refl in Ha.
  - apply orb_false_iff in Ha as [_ Ha], Hb as [_ Hb].
    by destruct (IH b Ha Hb) as [-> ->].
Qed.

Lemma nulS_inj a b r1 r2 :
  nulFree a = true -> nulFree b = true ->
  a +:+ nulS +:+ r1 = b +:+ nulS +:+ r2 -> a = b /\ r1 = r2.
Proof. unfold nulFree. rewrite !negb_true_iff. apply (sep_inj nul). Qed.

Lemma itemOk_spec s : itemOk s = true <-> s <> "" /\ nulFree s = true.
Proof. unfold itemOk. rewrite andb_true_iff, negb_true_iff, String.eqb_neq. done. Qed.

Lemma nulFree_no_nul x : nulFree (String nul x) = true -> False.
Proof. by unfold nulFree. Qed.

Lemma writeItems_inj l1 l2 r1 r2 :
  forallb itemOk l1 = true -> forallb itemOk l2 = true ->
  writeItems l1 +:+ r1 = writeItems l2 +:+ r2 -> l1 = l2 /\ r1 = r2.
Proof.
  revert l2. induction l1 as [|a l1 IH]; intros [|b l2] H1 H2 H; simpl in H1, H2.
  - by apply (sapp_inv_head nulS) in H.
  - apply andb_true_iff in H2 as [[Hne Hf]%itemOk_spec _].
    destruct b as [|c b]; [done|]. simpl in H. injection H as <- _.
    by apply nulFree_no_nul in Hf.
  - apply andb_true_iff in H1 as [[Hne Hf]%itemOk_spec _].
    destruct a as [|c a]; [done|]. simpl in H. injection H as -> _.
    by apply nulFree_no_nul in Hf.
  - apply andb_true_iff in H1 as [[_ Ha]%itemOk_spec H1], H2 as [[_ Hb]%itemOk_spec H2].
    cbn [writeItems] in H. rewrite !sapp_assoc in H.
    apply nulS_inj in H as [-> H]; [|done..].
    by destruct (IH l2 H1 H2 H) as [-> ->].
Qed.

Lemma writeList_inj tag l1 l2 r1 r2 :
  forallb itemOk l1 = true -> forallb itemOk l2 = true ->
  writeList tag l1 +:+ r1 = writeList tag l2 +:+ r2 -> l1 = l2 /\ r1 = r2.
Proof.
  intros H1 H2 H. unfold writeList in H. rewrite !sapp_assoc in H.
  apply sapp_inv_head, sapp_inv_head in H. by apply writeItems_inj in H.
Qed.

Lemma writeKV_inj tag a b r1 r2 :
  nulFree a = true -> nulFree b = true ->
  writeKV tag a +:+ r1 = writeKV tag b +:+ r2 -> a = b /\ r1 = r2.
Proof.
  intros H1 H2 H. unfold writeKV in H. rewrite !sapp_assoc in H.
  apply sapp_inv_head, sapp_inv_head in H. by apply nulS_inj in H.
Qed.

Lemma elem_of_sortedKeys m k : k ∈ sortedKeys m <-> is_Some (m !! k).
Proof.
  unfold sortedKeys. rewrite sortStrings_Permutation, list_elem_of_fmap.
  split.
  - intros ([k' v] & -> & H%elem_of_map_to_list). eauto.
  - intros [v H]. exists (k, v). by rewrite elem_of_map_to_list.
Qed.

(** The order in which the runtime enumerates the map is irrelevant. *)
Lemma sortedKeys_any_order m keys :
  NoDup keys -> (forall k, k ∈ keys <-> is_Some (m !! k)) -> sortStrings keys = sortedKeys m.
Proof.
  intros Hd Hk. apply sortStrings_perm_eq, NoDup_Permutation; [done|apply NoDup_fst_map_to_list|].
  intros k. rewrite Hk, <- elem_of_sortedKeys. unfold sortedKeys.
  by rewrite sortStrings_Permutation.
Qed.

Definition defineOk (k v : string) : bool :=
  nulFree k && nulFree v && negb (containsByte k "="%char).

Lemma definesOk_map m :
  forallb (fun kv => defineOk kv.1 kv.2) (map_to_list m) = true <->
  map_Forall (fun k v => defineOk k v = true) m.
Proof.
  rewrite forallb_forall, map_Forall_to_list, List.Forall_forall.
  split; intros H [k v] Hin; apply (H (k, v) Hin).
Qed.

Lemma defineEntries_ok m :
  map_Forall (fun k v => defineOk k v = true) m ->
  forallb itemOk (defineEntries m (sortedKeys m)) = true.
Proof.
  intros H. apply forallb_forall. intros e (k & <- & Hk%list_elem_of_In)%in_map_iff.
  apply elem_of_sortedKeys in Hk as [v Hv]. rewrite Hv. simpl.
  specialize (H k v Hv). unfold defineOk, nulFree in H.
  rewrite !andb_true_iff, !negb_true_iff in H. destruct H as [[H1 H2] _].
  apply itemOk_spec. split; [by destruct k|].
  unfold nulFree. rewrite containsByte_app. simpl. by rewrite H1, H2.
Qed.

Lemma defineEntries_inj m1 m2 ks1 ks2 :
  Forall (fun k => containsByte k "="%char = false) ks1 ->
  Forall (fun k => containsByte k "="%char = false) ks2 ->
  defineEntries m1 ks1 = defineEntries m2 ks2 ->
  ks1 = ks2 /\ Forall (fun k => default "" (m1 !! k) = default "" (m2 !! k)) ks1.
Proof.
  intros H1. revert ks2. induction H1 as [|k ks1 Hk _ IH]; intros [|k2 ks2] H2 H;
    simplify_eq/=; [done|].
  apply Forall_cons in H2 as [Hk2 H2].
  match goal with E : k +:+ _ = _ |- _ => apply (sep_inj "="%char) in E as [-> Ev] end; [|done..].
  destruct (IH ks2) as [-> HF]; [done|done|]. split; [done|]. by constructor.
Qed.

Lemma sortedKeys_noeq m :
  map_Forall (fun k v => defineOk k v = true) m ->
  Forall (fun k => containsByte k "="%char = false) (sortedKeys m).
Proof.
  intros H. apply Forall_forall. intros k [v Hv]%elem_of_sortedKeys.
  specialize (H k v Hv). unfold defineOk in H.
  rewrite !andb_true_iff, !negb_true_iff in H. tauto.
Qed.

Lemma defines_inj m1 m2 :
  map_Forall (fun k v => defineOk k v = true) m1 ->
  map_Forall (fun k v => defineOk k v = true) m2 ->
  defineEntries m1 (sortedKeys m1) = defineEntries m2 (sortedKeys m2) -> m1 = m2.
Proof.
  intros H1 H2 H. apply defineEntries_inj in H as [Hk HF]; [|by apply sortedKeys_noeq..].
  apply map_eq. intros k. rewrite Forall_forall in HF.
  assert (is_Some (m1 !! k) <-> is_Some (m2 !! k)) as Hiff
    by (rewrite <- !elem_of_sortedKeys; by rewrite Hk).
  destruct (m1 !! k) as [v1|] eqn:E1.
  - destruct (proj1 Hiff (ex_intro _ v1 eq_refl)) as [v2 E2].
    specialize (HF k (proj2 (elem_of_sortedKeys m1 k) (ex_intro _ v1 E1))).
    by rewrite E1, E2 in HF; rewrite E2; simpl in HF; subst.
  - destruct (m2 !! k); [|done]. destruct (proj2 Hiff) as [? ?]; [eauto|done].
Qed.

Lemma modeDigit_nulFree m : nulFree (modeDigit m) = true.
Proof. by destruct m. Qed.

(** Peel one section off an equation between two encodings. *)
Ltac peel H :=
  first [ apply writeList_inj in H as [? H]; [|assumption..]
        | apply writeKV_inj in H as [? H]; [|solve [assumption | apply modeDigit_nulFree]..] ].

Lemma cacheKeyFlags_inj i1 i2 :
  wellKeyed i1 = true -> wellKeyed i2 = true ->
  cacheKeyFlags i1 = cacheKeyFlags i2 -> keyView i1 = keyView i2.
Proof.
  unfold wellKeyed, cacheKeyFlags, keyView. intros W1 W2 H.
  repeat match goal with
  | W : (_ && _) = true |- _ => apply andb_true_iff in W as [W ?]
  end.
  repeat match goal with
  | W : forallb _ (map_to_list _) = true |- _ => apply definesOk_map in W
  end.
  assert (forallb itemOk (defineEntries (Defines i1) (sortedKeys (Defines i1))) = true)
    by (by apply defineEntries_ok).
  assert (forallb itemOk (defineEntries (Defines i2) (sortedKeys (Defines i2))) = true)
    by (by apply defineEntries_ok).
  do 13 peel H.
  rewrite <- (sapp_nil_r (writeList "unk" _)), <- (sapp_nil_r (writeList "unk" (Unknown i2))) in H.
  peel H.
  assert (Defines i1 = Defines i2) by (by apply defines_inj).
  assert (Mode i1 = Mode i2) by (by apply modeDigit_inj).
  congruence.
Qed.

Lemma cacheKeyFlags_view i1 i2 : keyView i1 = keyView i2 -> cacheKeyFlags i1 = cacheKeyFlags i2.
Proof. unfold keyView, cacheKeyFlags. intros H. simplify_eq. congruence. Qed.

Lemma chunk_inj a b r1 r2 :
  (Z.of_nat (slen a) < 2 ^ 64)%Z -> (Z.of_nat (slen b) < 2 ^ 64)%Z ->
  chunk a +:+ r1 = chunk b +:+ r2 -> a = b /\ r1 = r2.
Proof.
  unfold chunk. rewrite !sapp_assoc. intros Ha Hb H.
  apply sapp_inj_len in H as [Hl H]; [|by rewrite !slen_be_bytes].
  apply be_bytes_inj in Hl; [|lia..].
  apply sapp_inj_len in H; [done|lia].
Qed.

Lemma keyPreimage_inj s1 s2 id1 id2 i1 i2 :
  (Z.of_nat (slen s1) < 2 ^ 64)%Z -> (Z.of_nat (slen s2) < 2 ^ 64)%Z ->
  (Z.of_nat (slen id1) < 2 ^ 64)%Z -> (Z.of_nat (slen id2) < 2 ^ 64)%Z ->
  keyPreimage s1 id1 i1 = keyPreimage s2 id2 i2 ->
  s1 = s2 /\ id1 = id2 /\ cacheKeyFlags i1 = cacheKeyFlags i2.
Proof.
  unfold keyPreimage. intros ???? H.
  apply chunk_inj in H as [-> H]; [|done..].
  apply chunk_inj in H as [-> H]; [|done..].
  unfold chunk in H. apply sapp_inj_len in H; [tauto|by rewrite !slen_be_bytes].
Qed.

(** ** Dependency-emission flags *)

Definition depFlags : list FlagSpec :=
  [ mkFlagSpec "-MD" NoValue CatPassthrough; mkFlagSpec "-MMD" NoValue CatPassthrough;
    mkFlagSpec "-MF" SeparateValue CatPassthrough;
    mkFlagSpec "-MT" SeparateValue CatPassthrough;
    mkFlagSpec "-MQ" SeparateValue CatPassthrough ].

(** The words a flag adds to [inv.Passthrough]. *)
Definition passWords (f : FlagSpec * string) : list string :=
  match specCategory f.1 with
  | CatPassthrough =>
      match specValue f.1 with
      | NoValue => [specName f.1]
      | JoinedValue => [specName f.1 +:+ f.2]
      | SeparateValue | JoinedOrSeparate => [specName f.1; f.2]
      end
  | _ => []
  end.

(** The filter reads a flag's words as that flag: it is not in the middle of
    a dependency flag after them. *)
Definition settled (f : FlagSpec * string) : Prop :=
  forall rest, filterPassthroughFrom false (passWords f ++ rest)
    = filterPassthroughFrom false (passWords f) ++ filterPassthroughFrom false rest.

Lemma applyFlag_Passthrough i s v :
  Passthrough (applyFlag i s v) = Passthrough i ++ passWords (s, v).
Proof.
  unfold applyFlag, passWords. simpl.
  destruct (specCategory s); simpl; rewrite ?app_nil_r; try done;
    repeat case_match; simpl; rewrite ?app_nil_r; done.
Qed.

Lemma set_Passthrough_twice p q i : set_Passthrough p (set_Passthrough q i) = set_Passthrough p i.
Proof. reflexivity. Qed.

(** Applying a flag neither reads the passthrough words nor changes them but
    by appending its own. *)
Lemma applyFlag_set_Passthrough p i s v :
  applyFlag (set_Passthrough p i) s v
  = set_Passthrough (p ++ passWords (s, v)) (applyFlag i s v).
Proof.
  unfold applyFlag, passWords. cbn [fst snd].
  destruct (specCategory s); rewrite ?app_nil_r; try reflexivity.
  - repeat case_match; reflexivity.
  - destruct (cut "=" v) as [[? ?] ?]. reflexivity.
  - destruct (specValue s); reflexivity.
Qed.

Lemma applyFlags_set_Passthrough fs p i :
  foldl (fun i f => applyFlag i f.1 f.2) (set_Passthrough p i) fs
  = set_Passthrough (p ++ concat (map passWords fs))
      (foldl (fun i f => applyFlag i f.1 f.2) i fs).
Proof.
  revert p i. induction fs as [|[s v] fs IH]; intros p i; cbn [foldl map concat fst snd].
  - by rewrite app_nil_r.
  - by rewrite applyFlag_set_Passthrough, IH, app_assoc.
Qed.

Lemma applyFlags_Passthrough fs i :
  Passthrough (foldl (fun i f => applyFlag i f.1 f.2) i fs)
  = Passthrough i ++ concat (map passWords fs).
Proof.
  revert i. induction fs as [|[s v] fs IH]; intros i; simpl; [by rewrite app_nil_r|].
  by rewrite IH, applyFlag_Passthrough, app_assoc.
Qed.

Lemma filter_settled fs rest :
  Forall settled fs ->
  filterIrrelevantPassthrough (concat (map passWords fs) ++ rest)
  = filterIrrelevantPassthrough (concat (map passWords fs)) ++ filterIrrelevantPassthrough rest.
Proof.
  unfold filterIrrelevantPassthrough.
  induction 1 as [|f fs Hf _ IH]; simpl; [done|].
  rewrite <- app_assoc, !Hf, IH. by rewrite app_assoc.
Qed.

Lemma keyView_set_Passthrough i p q :
  filterIrrelevantPassthrough p = filterIrrelevantPassthrough q ->
  keyView (set_Passthrough p i) = keyView (set_Passthrough q i).
Proof. intros H. unfold keyView. cbn -[filterIrrelevantPassthrough]. by rewrite H. Qed.

Lemma set_Passthrough_id i : set_Passthrough (Passthrough i) i = i.
Proof. by destruct i. Qed.

(** Applying a dependency flag only extends the passthrough words. *)
Lemma applyFlag_dep i f :
  In f.1 depFlags -> applyFlag i f.1 f.2 = set_Passthrough (Passthrough i ++ passWords f) i.
Proof. destruct f as [s v]. cbn [fst snd]. intros H. by repeat destruct H as [<-|H]. Qed.

Lemma depFlag_words f rest :
  In f.1 depFlags -> filterPassthroughFrom false (passWords f ++ rest)
  = filterPassthroughFrom false rest.
Proof.
  destruct f as [s v]. simpl. intros H.
  repeat destruct H as [<-|H]; done.
Qed.

(** ** Properties *)

(** C9: on well-keyed invocations (NUL-free words, no empty list entries, no
    equals sign in a macro name) the flag encoding is faithful: two
    invocations have the same flag bytes exactly when they agree on every
    keyed field, macros compared as maps and the dependency flags removed
    from the passthrough words. *)
Theorem cacheKeyFlags_faithful (i1 i2 : Invocation) :
  wellKeyed i1 = true -> wellKeyed i2 = true ->
  cacheKeyFlags i1 = cacheKeyFlags i2 <-> keyView i1 = keyView i2.
Proof. split; [by apply cacheKeyFlags_inj|apply cacheKeyFlags_view]. Qed.

Lemma cacheKeyFlags_faithful_witness :
  cacheKeyFlags (set_Includes ["a"; "b"] NewInvocation)
  <> cacheKeyFlags (set_Includes ["b"; "a"] NewInvocation).
Proof.
  intros H.
  apply (cacheKeyFlags_faithful (set_Includes ["a"; "b"] NewInvocation)
           (set_Includes ["b"; "a"] NewInvocation)) in H;
    [discriminate H|vm_compute; reflexivity|vm_compute; reflexivity].
Defined.

(** A dependency-emission flag ([-MD], [-MMD], [-MF x], [-MT x],
    [-MQ x]), wherever it is placed among the flags of a command, does not
    change the flag bytes, provided the other passthrough flags do not have
    a dependency flag as their value. *)
Theorem dep_flags_not_keyed (inv : Invocation) (fs1 fs2 : list (FlagSpec * string))
    (dep : FlagSpec * string) :
  Passthrough inv = [] -> In dep.1 depFlags -> Forall settled fs1 ->
  cacheKeyFlags (foldl (fun i f => applyFlag i f.1 f.2) inv (fs1 ++ dep :: fs2))
  = cacheKeyFlags (foldl (fun i f => applyFlag i f.1 f.2) inv (fs1 ++ fs2)).
Proof.
  intros Hp Hd Hs. apply cacheKeyFlags_view. rewrite !foldl_app. cbn [foldl].
  set (i := foldl _ inv fs1). rewrite (applyFlag_dep i dep Hd), applyFlags_set_Passthrough.
  set (j := foldl _ i fs2). rewrite <- (set_Passthrough_id j) at 2.
  apply keyView_set_Passthrough. unfold j, i. rewrite !applyFlags_Passthrough, Hp.
  rewrite !app_nil_l, <- app_assoc, !filter_settled by done. f_equal.
  unfold filterIrrelevantPassthrough. by rewrite depFlag_words.
Qed.

Lemma dep_flags_not_keyed_witness :
  cacheKeyFlags (foldl (fun i f => applyFlag i f.1 f.2) NewInvocation
    [(mkFlagSpec "-Wa," JoinedValue CatPassthrough, "-x");
     (mkFlagSpec "-MF" SeparateValue CatPassthrough, "a.d")])
  = cacheKeyFlags (foldl (fun i f => applyFlag i f.1 f.2) NewInvocation
    [(mkFlagSpec "-Wa," JoinedValue CatPassthrough, "-x")]).
Proof.
  apply (dep_flags_not_keyed NewInvocation [(mkFlagSpec "-Wa," JoinedValue CatPassthrough, "-x")] []
    (mkFlagSpec "-MF" SeparateValue CatPassthrough, "a.d")).
  - reflexivity.
  - in_list.
  - constructor; [|constructor]. intros rest. reflexivity.
Defined.

(** Without the restriction on empty words the encoding is ambiguous:
    two command lines with different include directories have the same flag
    bytes. *)
Theorem flags_empty_word_collision (readFile : string -> result string) :
  exists i1 i2,
    ParseGNU readFile ["-c"; "a.c"; "-I"; ""; "-Iisystem"] = Ok i1 /\
    ParseGNU readFile ["-c"; "a.c"; "-isystem"; ""; "-isystem"; "isystem"] = Ok i2 /\
    Includes i1 <> Includes i2 /\ cacheKeyFlags i1 = cacheKeyFlags i2.
Proof. eexists _, _. split; [reflexivity|]. split; [reflexivity|]. by vm_compute. Qed.

(** The relative order of [-D] and [-U], which decides whether the macro
    is defined, is not keyed. *)
Theorem define_undefine_order_unkeyed (readFile : string -> result string) :
  exists i1 i2,
    ParseGNU readFile ["-c"; "a.c"; "-DFOO"; "-UFOO"] = Ok i1 /\
    ParseGNU readFile ["-c"; "a.c"; "-UFOO"; "-DFOO"] = Ok i2 /\
    cacheKeyFlags i1 = cacheKeyFlags i2.
Proof. eexists _, _. split; [reflexivity|]. split; [reflexivity|]. by vm_compute. Qed.
