(* ===== verification/Rewrite.v ===== *)
(** * Rewrite: the command-line rewrites of [internal/compiler/rewrite.go].

    The index loops become recursion on the remaining arguments.  Paths are
    those of a Unix build ([filepath.ToSlash] is the identity). *)

From S2P Require Import Prelude GoStrings GoPath Enum Grammar Invocation Parser.

(** ** Host paths *)

Definition hostPathSubstrings : list string := ["/home/"; "/Users/"; ":\Users\"; ":\users\"].

(** [ValidateNoHostPaths]; the error names the first offending word. *)
Definition ValidateNoHostPaths (args : list string) : result unit :=
  match List.find (fun a => existsb (contains a) hostPathSubstrings) args with
  | Some a => Err ("argv contains host-shaped path in " +:+ a)
  | None => Ok tt
  end.

(** ** Prefix rewriting *)

(** [end == len(s) || s\[end\] == '/' || s\[end\] == '='] for [rest = s\[end:\]]. *)
Definition atBoundary (rest : string) : bool :=
  match rest with
  | EmptyString => true
  | String c _ => Ascii.eqb c "/"%char || Ascii.eqb c "="%char
  end.

(** The scan of [rewritePrefix]; [skip] bytes belong to an occurrence of
    [host] already replaced. *)
Fixpoint rewriteFrom (host vm : string) (skip : nat) (s : string) : string :=
  match s with
  | EmptyString => ""
  | String c t =>
      match skip with
      | S k => rewriteFrom host vm k t
      | 0 =>
          if hasPrefix s host && atBoundary (sdrop (slen host) s)
          then vm +:+ rewriteFrom host vm (slen host - 1) t
          else String c (rewriteFrom host vm 0 t)
      end
  end.

(** [rewritePrefix(s, host, vm)]; its callers guarantee [host != ""]. *)
Definition rewritePrefix (s host vm : string) : string :=
  if negb (contains s host) then s else rewriteFrom host vm 0 s.

Definition trimSlashes (s : string) : string := trimRightBy (Ascii.eqb slash) s.

Definition RewritePathPrefix (inv : Invocation) (hostPrefix vmPrefix : string) : Invocation :=
  let host := trimSlashes (toSlash hostPrefix) in
  let vm := trimSlashes (toSlash vmPrefix) in
  if String.eqb host "" || String.eqb vm "" then inv
  else
    let rw := fun s => rewritePrefix s host vm in
    set_RawArgs (map rw (RawArgs inv))
    (set_Inputs (map rw (Inputs inv))
    (set_Includes (map rw (Includes inv))
    (set_SystemIncludes (map rw (SystemIncludes inv))
    (set_LibraryDirs (map rw (LibraryDirs inv))
    (set_Output (rw (Output inv))
    (set_Defines (rw <$> Defines inv) inv)))))).

Definition InjectReproducibilityFlags (args : list string) (family : Family) (srcRoot : string)
    : list string :=
  match family with
  | MSVCFamily => args ++ ["/d1trimfile:" +:+ srcRoot; "/PDBSourcePath:" +:+ srcRoot]
  | GNUFamily => args ++ ["-ffile-prefix-map=" +:+ srcRoot +:+ "=."; "-Werror=date-time"]
  | UnknownFamily => args
  end.

Fixpoint rewriteOutputFlagGNU (args : list string) (newOut : string) : list string :=
  match args with
  | [] => []
  | a :: rest =>
      if String.eqb a "-o" then
        match rest with
        | _ :: rest' => "-o" :: newOut :: rewriteOutputFlagGNU rest' newOut
        | [] => [a]
        end
      else if hasPrefix a "-o" then ("-o" +:+ newOut) :: rewriteOutputFlagGNU rest newOut
      else a :: rewriteOutputFlagGNU rest newOut
  end.

Definition RewriteForCAS (inv : Invocation) (projectRoot srcRoot outRoot : string) : Invocation :=
  let cp := RewritePathPrefix inv projectRoot srcRoot in
  if String.eqb (Output inv) "" then cp
  else
    let newOut := outRoot +:+ "/" +:+ base (Output inv) in
    set_RawArgs (rewriteOutputFlagGNU (RawArgs cp) newOut) (set_Output newOut cp).

(** ** Dependency files *)

Definition wpDepPrefixes : list string := ["-Wp,-MMD,"; "-Wp,-MD,"; "-Wp,-MF,"].

(** [splitWpDepEmission]: the matching prefix and the path after it. *)
Definition splitWpDepEmission (a : string) : option (string * string) :=
  match List.find (hasPrefix a) wpDepPrefixes with
  | Some pfx => Some (pfx, sdrop (slen pfx) a)
  | None => None
  end.

Fixpoint ExtractDepEmissionPaths (args : list string) : list string :=
  match args with
  | [] => []
  | a :: rest =>
      match splitWpDepEmission a with
      | Some (_, p) => p :: ExtractDepEmissionPaths rest
      | None =>
          if String.eqb a "-MF" then
            match rest with
            | v :: rest' => v :: ExtractDepEmissionPaths rest'
            | [] => []
            end
          else ExtractDepEmissionPaths rest
      end
  end.

(** [CollectDepEmissionExtras], [os.ReadFile] being [readFile]; the nil map
    is [None]. *)
Definition CollectDepEmissionExtras (readFile : string -> result string) (inv : Invocation)
    : option (gmap string string) :=
  let depPaths := ExtractDepEmissionPaths (RawArgs inv) in
  let collect := fun (extras : gmap string string) p =>
    let full := if negb (isAbs p) && negb (String.eqb (Cwd inv) "")
                then join [Cwd inv; p] else p in
    match readFile full with
    | Ok b => <[p := b]> extras
    | Err _ => extras
    end in
  let extras := foldl collect ∅ depPaths in
  if bool_decide (extras = ∅) then None else Some extras.

(** [rewriteWpDepEmission]. *)
Definition rewriteWpDepEmission (a outRoot : string) : option (string * string) :=
  match splitWpDepEmission a with
  | Some (pfx, orig) => Some (pfx +:+ toSlash (join [outRoot; orig]), orig)
  | None => None
  end.

Fixpoint RewriteDepEmissionForCAS (args : list string) (outRoot : string)
    : list string * list string :=
  match args with
  | [] => ([], [])
  | a :: rest =>
      match rewriteWpDepEmission a outRoot with
      | Some (w, p) =>
          let '(out, paths) := RewriteDepEmissionForCAS rest outRoot in
          (w :: out, p :: paths)
      | None =>
          if String.eqb a "-MF" || String.eqb a "-MT" || String.eqb a "-MQ" then
            match rest with
            | v :: rest' =>
                let '(out, paths) := RewriteDepEmissionForCAS rest' outRoot in
                if String.eqb a "-MF"
                then (a :: toSlash (join [outRoot; v]) :: out, v :: paths)
                else (a :: v :: out, paths)
            | [] => ([a], [])
            end
          else
            let '(out, paths) := RewriteDepEmissionForCAS rest outRoot in
            (a :: out, paths)
      end
  end.

(** ** Rewriting for preprocessed source *)

Definition isWerrorFlag (arg : string) : bool :=
  String.eqb arg "-Werror" || hasPrefix arg "-Werror=".

(** The categories both keep-filters let through. *)
Definition codegenCategory (c : Category) : bool :=
  match c with
  | CatStandard | CatOptim | CatDebug | CatWarning | CatFeature | CatMachine => true
  | _ => false
  end.

Fixpoint gnuKeepForPreprocessed (args : list string) : list string :=
  match args with
  | [] => []
  | a :: rest =>
      if String.eqb a "--" then []
      else if negb (hasPrefix a "-") || String.eqb a "-" then gnuKeepForPreprocessed rest
      else match matchGNUFlag a rest with
      | None => a :: gnuKeepForPreprocessed rest
      | Some (spec, _, consumed) =>
          let kept :=
            if codegenCategory (specCategory spec)
            then if bool_decide (specCategory spec = CatWarning) && isWerrorFlag a then []
                 else take consumed args
            else [] in
          match consumed, rest with
          | 2, _ :: rest' => kept ++ gnuKeepForPreprocessed rest'
          | _, _ => kept ++ gnuKeepForPreprocessed rest
          end
      end
  end.

(** The result both rewrites build from the code-generation fields of
    [inv]. *)
Definition preprocessedInvocation (inv : Invocation) (srcPath lang : string)
    (args : list string) : Invocation :=
  set_Unknown (Unknown inv)
  (set_Machine (Machine inv)
  (set_Features (Features inv)
  (set_Warnings (Warnings inv)
  (set_Debug (Debug inv)
  (set_Optim (Optim inv)
  (set_Std (Std inv)
  (set_RawArgs args
  (set_Language lang
  (set_Output (Output inv)
  (set_Inputs [srcPath]
  (set_Mode CompileMode NewInvocation))))))))))).

Definition rewriteGNUForPreprocessed (inv : Invocation) (srcPath lang : string) : Invocation :=
  let args := ["-x"; lang; "-c"; srcPath]
    ++ (if String.eqb (Output inv) "" then [] else ["-o"; Output inv])
    ++ gnuKeepForPreprocessed (RawArgs inv) in
  preprocessedInvocation inv srcPath lang args.

Definition cxxExts : list string := [".cpp"; ".cxx"; ".cc"; ".c++"; ".cp"; ".hpp"; ".hxx"].

(** The loop over the inputs of [gnuPreprocessedLanguage]. *)
Fixpoint languageOfInputs (inputs : list string) : string :=
  match inputs with
  | [] => "cpp-output"
  | i :: rest =>
      let e := toLower (ext i) in
      if existsb (String.eqb e) cxxExts then "c++-cpp-output"
      else if String.eqb e ".s" || String.eqb e ".S" then "assembler"
      else languageOfInputs rest
  end.

Definition gnuPreprocessedLanguage (compilerName : string) (inv : Invocation) : string :=
  if String.eqb compilerName "clang++" || String.eqb compilerName "g++"
     || String.eqb compilerName "c++" || String.eqb (Language inv) "c++"
  then "c++-cpp-output"
  else if String.eqb (Language inv) "assembler" || String.eqb (Language inv) "assembler-with-cpp"
  then "assembler"
  else languageOfInputs (Inputs inv).

Definition msvcRuntimeFlag (n : string) : bool :=
  existsb (String.eqb n) ["/MD"; "/MDd"; "/MT"; "/MTd"; "/EH"].

Fixpoint msvcKeepForPreprocessed (args : list string) : list string :=
  match args with
  | [] => []
  | a :: rest =>
      if negb (isMSVCFlag a) then msvcKeepForPreprocessed rest
      else match matchMSVCFlag a rest with
      | None => a :: msvcKeepForPreprocessed rest
      | Some (spec, _, consumed) =>
          if String.eqb (specName spec) "/link" then []
          else
            let kept :=
              if codegenCategory (specCategory spec)
                 || (bool_decide (specCategory spec = CatPassthrough)
                     && msvcRuntimeFlag (specName spec))
              then take consumed args else [] in
            match consumed, rest with
            | 2, _ :: rest' => kept ++ msvcKeepForPreprocessed rest'
            | _, _ => kept ++ msvcKeepForPreprocessed rest
            end
      end
  end.

Definition rewriteMSVCForPreprocessed (inv : Invocation) (srcPath langFlag : string) : Invocation :=
  let args := ["/c"; "/nologo"; langFlag +:+ srcPath]
    ++ (if String.eqb (Output inv) "" then [] else ["/Fo:" +:+ Output inv])
    ++ msvcKeepForPreprocessed (RawArgs inv) in
  let lang := if String.eqb langFlag "/Tp" then "c++" else "c" in
  preprocessedInvocation inv srcPath lang args.

Definition msvcPreprocessedLanguage (inv : Invocation) : string :=
  if String.eqb (Language inv) "c++" then "/Tp"
  else if String.eqb (Language inv) "c" then "/Tc"
  else if existsb (fun i => let e := toLower (ext i) in
                            existsb (String.eqb e) (cxxExts ++ [".ii"])) (Inputs inv)
  then "/Tp" else "/Tc".

(** [RewriteForPreprocessed] of [clang.go] and [cl.go]. *)
Definition RewriteForPreprocessed (c : Compiler) (inv : Invocation) (srcPath : string)
    : result Invocation :=
  match c with
  | clangCompiler name _ =>
      Ok (rewriteGNUForPreprocessed inv srcPath (gnuPreprocessedLanguage name inv))
  | clCompiler _ _ =>
      Ok (rewriteMSVCForPreprocessed inv srcPath (msvcPreprocessedLanguage inv))
  end.

(** ** Prefix rewriting: facts *)

Lemma rewriteFrom_skip host vm p s :
  rewriteFrom host vm (slen p) (p +:+ s) = rewriteFrom host vm 0 s.
Proof. induction p; simpl; auto. Qed.

(** An occurrence of [host] at a path boundary is replaced. *)
Lemma rewriteFrom_hit host vm r :
  host <> "" -> atBoundary r = true ->
  rewriteFrom host vm 0 (host +:+ r) = vm +:+ rewriteFrom host vm 0 r.
Proof.
  destruct host as [|c h]; [done|]. intros _ Hb.
  change (String c h +:+ r) with (String c (h +:+ r)). cbn [rewriteFrom].
  change (String c (h +:+ r)) with (String c h +:+ r).
  rewrite hasPrefix_app, sdrop_app, Hb. cbn [andb]. f_equal.
  replace (slen (String c h) - 1) with (slen h) by (simpl; lia). apply rewriteFrom_skip.
Qed.

(** Bytes at which [host] does not start are copied. *)
Lemma rewriteFrom_copy host vm pre s :
  (forall a b, pre = a +:+ b -> b <> "" -> hasPrefix (b +:+ s) host = false) ->
  rewriteFrom host vm 0 (pre +:+ s) = pre +:+ rewriteFrom host vm 0 s.
Proof.
  induction pre as [|c pre IH]; intros H; [done|].
  cbn [String.append rewriteFrom].
  assert (hasPrefix (String c pre +:+ s) host = false) as Hp by (apply (H ""); done).
  cbn [String.append] in Hp. rewrite Hp. cbn [andb]. f_equal. apply IH.
  intros a b -> Hb. by apply (H (String c a)).
Qed.

Lemma rewriteFrom_absent host vm s :
  contains s host = false -> rewriteFrom host vm 0 s = s.
Proof.
  intros H. rewrite <- (sapp_nil_r s) at 1. rewrite rewriteFrom_copy; [by rewrite sapp_nil_r|].
  intros a b -> _. rewrite sapp_nil_r. destruct (hasPrefix b host) eqn:E; [|done].
  apply hasPrefix_spec in E as [r ->].
  assert (contains (a +:+ host +:+ r) host = true) by (apply contains_spec; eauto). congruence.
Qed.

Lemma rewritePrefix_from s host vm :
  rewritePrefix s host vm = rewriteFrom host vm 0 s.
Proof.
  unfold rewritePrefix. destruct (contains s host) eqn:E; [done|]. simpl.
  by rewrite rewriteFrom_absent.
Qed.

Lemma contains_false_suffix a b host :
  contains (a +:+ b) host = false -> contains b host = false.
Proof.
  intros H. destruct (contains b host) eqn:E; [|done].
  apply contains_spec in E as (x & y & ->).
  assert (contains (a +:+ x +:+ host +:+ y) host = true).
  { apply contains_spec. exists (a +:+ x), y. by rewrite !sapp_assoc. }
  congruence.
Qed.

(** [host] starts with a slash and [pre] holds none, so [host] does not start
    inside [pre]. *)
Lemma no_start_in_pre pre h s :
  containsByte pre slash = false ->
  forall a b, pre = a +:+ b -> b <> "" -> hasPrefix (b +:+ s) (String slash h) = false.
Proof.
  intros Hp a b -> Hb. rewrite containsByte_app in Hp. apply orb_false_iff in Hp as [_ Hp].
  destruct b as [|c b]; [done|]. simpl in Hp. apply orb_false_iff in Hp as [Hc _].
  cbn [hasPrefix String.append]. by rewrite Ascii.eqb_sym, Hc.
Qed.

(** ** Dependency files: facts *)

Lemma splitWp_spec a pfx p :
  splitWpDepEmission a = Some (pfx, p) -> a = pfx +:+ p /\ In pfx wpDepPrefixes.
Proof.
  unfold splitWpDepEmission. intros H.
  destruct (List.find (hasPrefix a) wpDepPrefixes) as [q|] eqn:E; simplify_eq.
  apply List.find_some in E as [Hin Hp]. split; [by apply hasPrefix_split|done].
Qed.

(** Replacing the path keeps the flag. *)
Lemma splitWp_replace pfx q : In pfx wpDepPrefixes -> splitWpDepEmission (pfx +:+ q) = Some (pfx, q).
Proof. intros H. destruct H as [<-|[<-|[<-|[]]]]; reflexivity. Qed.

(** The value of [-MT] and [-MQ] is not itself spelled as a dependency-file
    flag. *)
Definition isDepWord (a : string) : bool :=
  String.eqb a "-MF" || match splitWpDepEmission a with Some _ => true | None => false end.

Fixpoint targetsPlain (args : list string) : bool :=
  match args with
  | [] => true
  | a :: rest =>
      if (String.eqb a "-MT" || String.eqb a "-MQ")
      then match rest with
           | v :: rest' => negb (isDepWord v) && targetsPlain rest'
           | [] => true
           end
      else if String.eqb a "-MF" then
        match rest with _ :: rest' => targetsPlain rest' | [] => true end
      else targetsPlain rest
  end.

Lemma Rewrite_Extract args outRoot :
  targetsPlain args = true ->
  (RewriteDepEmissionForCAS args outRoot).2 = ExtractDepEmissionPaths args /\
  ExtractDepEmissionPaths (RewriteDepEmissionForCAS args outRoot).1
  = map (fun p => join [outRoot; p]) (ExtractDepEmissionPaths args).
Proof.
  remember (length args) as n eqn:Hn. assert (length args <= n) as Hle by lia. clear Hn.
  revert args Hle. induction n as [|n IH]; intros [|a rest] Hle Ht; try done; simpl in Hle; [lia|].
  cbn [RewriteDepEmissionForCAS ExtractDepEmissionPaths targetsPlain] in *.
  unfold rewriteWpDepEmission. destruct (splitWpDepEmission a) as [[pfx p]|] eqn:Ea.
  - apply splitWp_spec in Ea as [-> Hin].
    assert (String.eqb (pfx +:+ p) "-MT" || String.eqb (pfx +:+ p) "-MQ" = false
      /\ String.eqb (pfx +:+ p) "-MF" = false) as [E1 E2]
      by (destruct Hin as [<-|[<-|[<-|[]]]]; done).
    rewrite E1, E2 in Ht. destruct (IH rest ltac:(lia) Ht) as [H1 H2].
    destruct (RewriteDepEmissionForCAS rest outRoot) as [out paths]. simpl in H1, H2 |- *.
    rewrite splitWp_replace by done. by rewrite H1, H2.
  - destruct (String.eqb_spec a "-MF") as [->|Hmf].
    + cbn [orb]. destruct rest as [|v rest]; [done|]. simpl in Hle, Ht.
      destruct (IH rest ltac:(lia) Ht) as [H1 H2].
      destruct (RewriteDepEmissionForCAS rest outRoot) as [out paths]. simpl in H1, H2 |- *.
      by rewrite H1, H2.
    + cbn [orb]. destruct (String.eqb a "-MT" || String.eqb a "-MQ").
      * destruct rest as [|v rest].
        { simpl. rewrite Ea. by rewrite (proj2 (String.eqb_neq _ _) Hmf). }
        simpl in Hle. apply andb_true_iff in Ht as [Hv Ht].
        destruct (IH rest ltac:(lia) Ht) as [H1 H2].
        destruct (RewriteDepEmissionForCAS rest outRoot) as [out paths].
        unfold isDepWord in Hv. rewrite negb_true_iff, orb_false_iff in Hv.
        destruct Hv as [Ev Hv]. cbn [fst snd ExtractDepEmissionPaths] in *.
        rewrite Ea, (proj2 (String.eqb_neq _ _) Hmf), Ev.
        by destruct (splitWpDepEmission v).
      * destruct (IH rest ltac:(lia) Ht) as [H1 H2].
        destruct (RewriteDepEmissionForCAS rest outRoot) as [out paths].
        cbn [fst snd ExtractDepEmissionPaths] in *.
        by rewrite Ea, (proj2 (String.eqb_neq _ _) Hmf).
Qed.

(** ** The preprocessed rewrite and the parser *)

(** The value of a [-W] flag that the rewrite drops. *)
Definition notError (v : string) : bool := negb (String.eqb v "error" || hasPrefix v "error=").

Definition codegenView (i : Invocation) :=
  (Std i, Optim i, Debug i, Features i, Machine i, Unknown i).

Definition frameView (i : Invocation) := (Mode i, Inputs i, Output i, Language i).

(** [j] carries the code-generation fields of [i] without the [-Werror]
    promotions. *)
Definition carries (i j : Invocation) : Prop :=
  codegenView i = codegenView j /\ Warnings j = List.filter notError (Warnings i).

Lemma codegen_joined s :
  In s gnuFlags -> codegenCategory (specCategory s) = true ->
  specValue s = JoinedValue /\ (specCategory s = CatWarning -> specName s = "-W").
Proof.
  intros Hin Hc.
  assert (forallb (fun t => negb (codegenCategory (specCategory t)) ||
    (bool_decide (specValue t = JoinedValue) &&
     (negb (bool_decide (specCategory t = CatWarning)) || String.eqb (specName t) "-W")))
    gnuFlags = true) as H by (vm_compute; reflexivity).
  rewrite forallb_forall in H. specialize (H _ Hin). rewrite Hc in H. simpl in H.
  apply andb_true_iff in H as [H1 H2]. apply bool_decide_eq_true in H1. split; [done|].
  intros Hw. rewrite bool_decide_eq_true_2 in H2 by done. simpl in H2. by apply String.eqb_eq.
Qed.

Lemma matchGNUFlag_joined a r1 r2 s v n :
  matchGNUFlag a r1 = Some (s, v, n) -> specValue s = JoinedValue ->
  a = specName s +:+ v /\ n = 1 /\ matchGNUFlag a r2 = Some (s, v, 1).
Proof.
  intros H Hj. apply scanSpecs_longest in H as (Hs & Hm & Hl).
  assert (Hm2 := Hm). unfold matchSpecGNU in Hm. rewrite Hj in Hm.
  destruct (hasPrefix a (specName s)) eqn:Hp; [|done]. simplify_eq.
  split_and!; [by apply hasPrefix_split|done|].
  apply matchGNUFlag_claims; [done| |].
  - unfold matchSpecGNU. by rewrite Hj, Hp.
  - intros t Ht Hlt. apply eq_None_not_Some.
    rewrite (matchSpecGNU_next _ _ (head r1)). intros Hsome.
    specialize (Hl t Ht Hsome). lia.
Qed.

Lemma matchGNUFlag_None_rest a r1 r2 : matchGNUFlag a r1 = None -> matchGNUFlag a r2 = None.
Proof.
  unfold matchGNUFlag. rewrite !scanSpecs_None. intros H.
  eapply Forall_impl; [exact H|]. intros t. cbn beta. rewrite !eq_None_not_Some. by rewrite (matchSpecGNU_next _ (head r2) (head r1)).
Qed.

Lemma applyFlag_carries_drop i j s v :
  carries i j -> codegenCategory (specCategory s) = false -> carries (applyFlag i s v) j.
Proof.
  unfold carries, codegenView, applyFlag. intros H Hc.
  destruct (specCategory s); try done; repeat case_match; done.
Qed.

Lemma applyFlag_carries_error i j s v :
  carries i j -> specCategory s = CatWarning -> notError v = false ->
  carries (applyFlag i s v) j.
Proof.
  unfold carries, codegenView, applyFlag. intros [H1 H2] -> Hv.
  split; [done|]. cbn. rewrite H2, List.filter_app. cbn. by rewrite Hv, app_nil_r.
Qed.

Lemma applyFlag_carries_keep i j s v :
  carries i j -> codegenCategory (specCategory s) = true ->
  (specCategory s = CatWarning -> notError v = true) ->
  carries (applyFlag i s v) (applyFlag j s v) /\ frameView (applyFlag j s v) = frameView j.
Proof.
  unfold carries, codegenView, frameView, applyFlag. intros [H1 H2] Hc Hv.
  destruct (specCategory s); try done; cbn; simplify_eq; split_and!; try done; try congruence.
  rewrite H2, List.filter_app. cbn. by rewrite Hv.
Qed.

Lemma isWerror_value v : isWerrorFlag ("-W" +:+ v) = negb (notError v).
Proof. unfold isWerrorFlag, notError. rewrite negb_involutive. reflexivity. Qed.

(** Parsing what the rewrite keeps sets the same code-generation fields as
    parsing the whole command, and nothing else. *)
Lemma gnuKeep_parse args i j :
  carries i j ->
  carries (parseGNULoop i args) (parseGNULoop j (gnuKeepForPreprocessed args)) /\
  frameView (parseGNULoop j (gnuKeepForPreprocessed args)) = frameView j.
Proof.
  remember (length args) as n eqn:Hn. assert (length args <= n) as Hle by lia. clear Hn.
  revert args i j Hle. induction n as [|n IH]; intros [|a rest] i j Hle HR; try done;
    simpl in Hle; [lia|].
  cbn [parseGNULoop gnuKeepForPreprocessed].
  destruct (String.eqb a "--") eqn:Edd; [done|].
  destruct (negb (hasPrefix a "-") || String.eqb a "-") eqn:Ein.
  { apply IH; [lia|]. done. }
  destruct (matchGNUFlag a rest) as [[[s v] c]|] eqn:Em.
  2:{ cbn [parseGNULoop]. rewrite Edd, Ein, (matchGNUFlag_None_rest _ rest _ Em).
      apply (IH rest _ (set_Unknown (Unknown j ++ [a]) j)); [lia|].
      destruct HR as [H1 H2]. unfold codegenView in H1. split; [|done].
      unfold codegenView. cbn. simplify_eq. congruence. }
  destruct (codegenCategory (specCategory s)) eqn:Ec.
  - assert (In s gnuFlags) as Hs by (by apply scanSpecs_longest in Em as (? & _)).
    destruct (codegen_joined s Hs Ec) as [Hj Hw].
    destruct (matchGNUFlag_joined _ _ rest _ _ _ Em Hj) as (Ha & -> & _).
    destruct (bool_decide (specCategory s = CatWarning) && isWerrorFlag a) eqn:Ew.
    + apply andb_true_iff in Ew as [Ecw%bool_decide_eq_true Ew].
      rewrite Ha, (Hw Ecw), isWerror_value, negb_true_iff in Ew.
      apply IH; [lia|]. by apply applyFlag_carries_error.
    + destruct (applyFlag_carries_keep i j s v HR Ec) as [HR' HF].
      { intros Ecw. rewrite bool_decide_eq_true_2 in Ew by done. simpl in Ew.
        rewrite Ha, (Hw Ecw), isWerror_value, negb_false_iff in Ew. done. }
      change (take 1 (a :: rest) ++ gnuKeepForPreprocessed rest)
        with (a :: gnuKeepForPreprocessed rest).
      cbn [parseGNULoop]. rewrite Edd, Ein.
      destruct (matchGNUFlag_joined _ _ (gnuKeepForPreprocessed rest) _ _ _ Em Hj)
        as (_ & _ & ->).
      destruct (IH rest _ _ ltac:(lia) HR') as [H1 H2]. by rewrite <- HF.
  - assert (carries (applyFlag i s v) j) by (by apply applyFlag_carries_drop).
    destruct c as [|[|[|c]]], rest as [|x rest]; simpl in Hle; apply IH; simpl; auto; lia.
Qed.

Lemma gnuKeep_plain args :
  Forall (fun w => isResponse w = false) (gnuKeepForPreprocessed args).
Proof.
  remember (length args) as n eqn:Hn. assert (length args <= n) as Hle by lia. clear Hn.
  revert args Hle. induction n as [|n IH]; intros [|a rest] Hle; try constructor; simpl in Hle; [lia|].
  cbn [gnuKeepForPreprocessed]. destruct (String.eqb a "--"); [constructor|].
  destruct (negb (hasPrefix a "-") || String.eqb a "-") eqn:Ein; [apply IH; lia|].
  assert (isResponse a = false) as Ha.
  { apply orb_false_iff in Ein as [Hd%negb_false_iff _]. unfold isResponse.
    destruct a as [|c a]; [done|]. cbn [hasPrefix] in Hd.
    by destruct (Ascii.eqb_spec "-" c) as [<-|]. }
  destruct (matchGNUFlag a rest) as [[[s v] c]|] eqn:Em;
    [|constructor; [done|apply IH; lia]].
  assert (Forall (fun w => isResponse w = false)
    (if codegenCategory (specCategory s)
     then if bool_decide (specCategory s = CatWarning) && isWerrorFlag a then []
          else take c (a :: rest) else [])) as Hk.
  { destruct (codegenCategory (specCategory s)) eqn:Ec; [|constructor].
    destruct (_ && _); [constructor|].
    assert (In s gnuFlags) as Hs by (by apply scanSpecs_longest in Em as (? & _)).
    destruct (codegen_joined s Hs Ec) as [Hj _].
    destruct (matchGNUFlag_joined _ _ rest _ _ _ Em Hj) as (_ & -> & _).
    by constructor. }
  destruct c as [|[|[|c]]], rest as [|x rest]; simpl in Hle;
    (apply Forall_app; split; [done|apply IH; simpl; lia]).
Qed.

Lemma applyFlag_RawArgs i s v : RawArgs (applyFlag i s v) = RawArgs i.
Proof. unfold applyFlag. destruct (specCategory s); try done; by repeat case_match. Qed.

Lemma parseGNULoop_RawArgs i args : RawArgs (parseGNULoop i args) = RawArgs i.
Proof.
  apply (parseGNULoop_inv (fun _ => True) (fun j => RawArgs j = RawArgs i)); auto.
  - intros. by rewrite applyFlag_RawArgs.
  - by apply Forall_true.
Qed.

Lemma inferDefaultOutput_shape i e :
  exists o, inferDefaultOutput i e = set_Output o i /\ (Output i <> "" -> o = Output i).
Proof.
  assert (i = set_Output (Output i) i) as Hid by (by destruct i).
  unfold inferDefaultOutput. destruct (String.eqb_spec (Output i) "") as [E|E].
  - repeat case_match; eexists; (split; [done || exact Hid|done]).
  - cbn [negb]. rewrite orb_true_r. cbn [orb]. eauto.
Qed.

Lemma defaultMode_shape i :
  exists m, defaultMode i = set_Mode m i /\ (Mode i <> UnknownMode -> m = Mode i).
Proof.
  assert (i = set_Mode (Mode i) i) as Hid by (by destruct i).
  unfold defaultMode. case_bool_decide; eexists; (split; [done || exact Hid|done]).
Qed.

Lemma finishParse_view i e :
  let j := inferDefaultOutput (defaultMode i) e in
  codegenView j = codegenView i /\ Warnings j = Warnings i /\ RawArgs j = RawArgs i /\
  Inputs j = Inputs i /\ Language j = Language i /\
  (Mode i <> UnknownMode -> Mode j = Mode i) /\ (Output i <> "" -> Output j = Output i).
Proof.
  cbn zeta. destruct (defaultMode_shape i) as (m & -> & Hm).
  destruct (inferDefaultOutput_shape (set_Mode m i) e) as (o & -> & Ho). done.
Qed.

(** ** The output flag *)

Definition setOutput (newOut : string) (f : FlagSpec * string) : FlagSpec * string :=
  if bool_decide (specCategory f.1 = CatOutput) then (f.1, newOut) else f.

(** No word but the output flag itself starts with [-o]. *)
Definition outputPlain (f : FlagSpec * string) : Prop :=
  specCategory f.1 <> CatOutput -> Forall (fun w => hasPrefix w "-o" = false) (renderGNU f).

Lemma gnuFlags_output s : In s gnuFlags -> specCategory s = CatOutput ->
  s = mkFlagSpec "-o" SeparateValue CatOutput.
Proof.
  intros Hin Hc.
  assert (forallb (fun t => negb (bool_decide (specCategory t = CatOutput)) ||
    bool_decide (t = mkFlagSpec "-o" SeparateValue CatOutput)) gnuFlags = true) as H
    by (vm_compute; reflexivity).
  rewrite forallb_forall in H. specialize (H _ Hin).
  rewrite bool_decide_eq_true_2 in H by done. by apply bool_decide_eq_true in H.
Qed.

Lemma rewriteOutput_plain ws rest newOut :
  Forall (fun w => hasPrefix w "-o" = false) ws ->
  rewriteOutputFlagGNU (ws ++ rest) newOut = ws ++ rewriteOutputFlagGNU rest newOut.
Proof.
  induction 1 as [|w ws Hw _ IH]; [done|].
  cbn [app rewriteOutputFlagGNU]. rewrite Hw.
  destruct (String.eqb_spec w "-o") as [->|_]; [done|]. by rewrite IH.
Qed.

Lemma rewriteOutput_render fs rest newOut :
  Forall (fun f => In f.1 gnuFlags /\ outputPlain f) fs ->
  rewriteOutputFlagGNU (concat (map renderGNU fs) ++ rest) newOut
  = concat (map renderGNU (map (setOutput newOut) fs)) ++ rewriteOutputFlagGNU rest newOut.
Proof.
  induction 1 as [|f fs [Hin Hp] _ IH]; [done|].
  cbn [map concat]. rewrite <- !app_assoc.
  destruct f as [s v]. unfold setOutput at 1. cbn [fst snd] in *.
  case_bool_decide as Hc.
  - rewrite (gnuFlags_output s) by done. cbn. by rewrite IH.
  - rewrite rewriteOutput_plain by (by apply Hp). by rewrite IH.
Qed.

Lemma applyFlags_Output fs newOut inv :
  (exists f, In f fs /\ specCategory f.1 = CatOutput) ->
  Output (foldl (fun i f => applyFlag i f.1 f.2) inv (map (setOutput newOut) fs)) = newOut.
Proof.
  assert (forall gs i, Output i = newOut ->
    Output (foldl (fun i f => applyFlag i f.1 f.2) i (map (setOutput newOut) gs)) = newOut)
    as Hkeep.
  { induction gs as [|[s v] gs IH]; intros i Hi; [done|]. cbn [map foldl]. apply IH.
    unfold setOutput. cbn [fst snd]. case_bool_decide as Hc; cbn [fst snd]; unfold applyFlag.
    - by rewrite Hc.
    - destruct (specCategory s); try done; repeat case_match; done. }
  intros (f & Hin & Hc). revert inv. induction fs as [|g fs IH]; intros inv; [done|].
  cbn [map foldl]. destruct Hin as [->|Hin]; [|by apply IH].
  apply Hkeep. unfold setOutput. rewrite bool_decide_eq_true_2 by done. cbn [fst snd].
  unfold applyFlag. by rewrite Hc.
Qed.

Lemma writable_setOutput f newOut : In f.1 gnuFlags -> writableGNU f = true ->
  In (setOutput newOut f).1 gnuFlags /\ writableGNU (setOutput newOut f) = true.
Proof.
  intros Hin Hw. unfold setOutput. case_bool_decide as Hc; [|done].
  split; [done|]. destruct f as [s v]. cbn [fst snd] in *.
  by rewrite (gnuFlags_output s Hin Hc).
Qed.

(** Parsing the head of the rewritten command. *)
Lemma parse_preprocessed_head j srcPath lang out rest :
  hasPrefix srcPath "-" = false ->
  parseGNULoop j (["-x"; lang; "-c"; srcPath]
    ++ (if String.eqb out "" then [] else ["-o"; out]) ++ rest)
  = parseGNULoop
      ((if String.eqb out "" then id else set_Output out)
        (set_Inputs (Inputs j ++ [srcPath]) (set_Mode CompileMode (set_Language lang j)))) rest.
Proof.
  intros Hs.
  change (["-x"; lang; "-c"; srcPath] ++ ?r) with
    (concat (map renderGNU [(mkFlagSpec "-x" SeparateValue CatLanguage, lang);
       (mkFlagSpec "-c" NoValue CatMode, "")]) ++ srcPath :: r).
  rewrite parseGNULoop_render
    by (repeat (apply Forall_cons; split; [split; [in_list|reflexivity]|]); constructor).
  cbn [parseGNULoop]. rewrite Hs.
  destruct (String.eqb_spec srcPath "--") as [->|_]; [done|]. cbn [negb orb].
  destruct (String.eqb out ""); [done|].
  change (["-o"; out] ++ rest) with
    (concat (map renderGNU [(mkFlagSpec "-o" SeparateValue CatOutput, out)]) ++ rest).
  rewrite parseGNULoop_render
    by (repeat (apply Forall_cons; split; [split; [in_list|reflexivity]|]); constructor).
  done.
Qed.

(** ** Properties *)

(** Prefix rewriting moves a path word under the container root
    whatever precedes the path (a joined flag such as [-I], or nothing),
    exactly when the host prefix ends at a path boundary: with host
    [/home/a/proj] the word [-I/home/a/proj/x] is rewritten and
    [/home/a/proj-other] is left alone. *)
Theorem rewritePrefix_boundary (pre h vm rest : string) :
  containsByte pre slash = false ->
  contains (h +:+ rest) (String slash h) = false ->
  rewritePrefix (pre +:+ String slash h +:+ rest) (String slash h) vm
  = if atBoundary rest then pre +:+ vm +:+ rest else pre +:+ String slash h +:+ rest.
Proof.
  intros Hpre Htail. rewrite rewritePrefix_from.
  rewrite rewriteFrom_copy by (by apply no_start_in_pre).
  destruct (atBoundary rest) eqn:Hb.
  - rewrite rewriteFrom_hit by done. rewrite rewriteFrom_absent; [done|].
    by apply contains_false_suffix in Htail.
  - f_equal. cbn [String.append rewriteFrom].
    change (String slash (h +:+ rest)) with (String slash h +:+ rest).
    rewrite sdrop_app, Hb, andb_false_r. by rewrite rewriteFrom_absent.
Qed.

Lemma rewritePrefix_boundary_witness :
  rewritePrefix "-I/home/a/proj/inc" "/home/a/proj" "/src" = "-I/src/inc".
Proof.
  apply (rewritePrefix_boundary "-I" "home/a/proj" "/src" "/inc"); vm_compute; reflexivity.
Defined.

(** The rewritten command asks for the same dependency files as the
    original one, each relocated under the output root, and the paths
    reported to the client are those of the original command; a path that
    does not climb out with [..] stays below the output root. *)
Theorem dep_emission_relocated (args : list string) (outRoot : string) :
  targetsPlain args = true ->
  let '(newArgs, paths) := RewriteDepEmissionForCAS args outRoot in
  paths = ExtractDepEmissionPaths args /\
  ExtractDepEmissionPaths newArgs = map (fun p => join [outRoot; p]) paths /\
  (isAbs outRoot = true -> forall p, In p paths ->
     head (cleanComps false (splitOn slash p)) <> Some ".." ->
     below (clean outRoot) (join [outRoot; p])).
Proof.
  intros Ht. destruct (Rewrite_Extract args outRoot Ht) as [H1 H2].
  destruct (RewriteDepEmissionForCAS args outRoot) as [newArgs paths]. cbn [fst snd] in *.
  split_and!; [done|by rewrite H1|]. intros. by apply join_below.
Qed.

Lemma dep_emission_relocated_witness :
  ExtractDepEmissionPaths
    (RewriteDepEmissionForCAS ["-c"; "-Wp,-MMD,d/.a.o.d"; "-MT"; "a.o"; "a.c"] "/out").1
  = ["/out/d/.a.o.d"].
Proof.
  destruct (dep_emission_relocated ["-c"; "-Wp,-MMD,d/.a.o.d"; "-MT"; "a.o"; "a.c"] "/out"
              ltac:(vm_compute; reflexivity)) as (H1 & H2 & _).
  exact H2.
Defined.

(** Rewriting [-o] in a command written from flags, the end-of-flags
    marker and inputs makes the parser see the new output path, with the
    same inputs, as long as an [-o] was given and no other word starts with
    [-o]. *)
Theorem output_flag_rewritten (readFile : string -> result string)
    (fs : list (FlagSpec * string)) (inputs : list string) (newOut : string) :
  Forall (fun f => In f.1 gnuFlags /\ writableGNU f = true /\ outputPlain f) fs ->
  (exists f, In f fs /\ specCategory f.1 = CatOutput) -> newOut <> "" ->
  Forall (fun w => isResponse w = false /\ hasPrefix w "-o" = false) inputs ->
  Forall (fun w => isResponse w = false) (concat (map renderGNU (map (setOutput newOut) fs))) ->
  exists inv,
    ParseGNU readFile (rewriteOutputFlagGNU (concat (map renderGNU fs) ++ "--" :: inputs) newOut)
    = Ok inv /\ Output inv = newOut /\ Inputs inv = inputs.
Proof.
  intros Hfs Ho Hne Hin Hresp.
  rewrite rewriteOutput_render by (eapply Forall_impl; [exact Hfs|]; cbn; tauto).
  assert (rewriteOutputFlagGNU ("--" :: inputs) newOut = "--" :: inputs) as ->.
  { rewrite <- (app_nil_r ("--" :: inputs)), rewriteOutput_plain; [done|].
    constructor; [done|]. eapply Forall_impl; [exact Hin|]. cbn. tauto. }
  unfold ParseGNU, expandTop. cbn [expandResponseFiles].
  rewrite expandArgs_id.
  2:{ apply Forall_app. split; [done|]. constructor; [done|].
      eapply Forall_impl; [exact Hin|]. cbn. tauto. }
  cbn [rbind]. rewrite parseGNULoop_render.
  2:{ apply Forall_map. eapply Forall_impl; [exact Hfs|]. cbn beta.
      intros f (H1 & H2 & _). by apply writable_setOutput. }
  cbn [parseGNULoop]. eexists. split; [done|].
  match goal with |- context [inferDefaultOutput (defaultMode ?i) ?e] =>
    destruct (finishParse_view i e) as (_ & _ & _ & Hi & _ & _ & Hout) end.
  cbn zeta in Hi, Hout. rewrite Hi. split.
  - rewrite Hout; [by apply applyFlags_Output|].
    intros E. apply Hne. rewrite <- E. symmetry. by apply applyFlags_Output.
  - cbn [set_Inputs Inputs]. by rewrite applyFlags_Inputs.
Qed.

Lemma output_flag_rewritten_witness :
  exists inv,
    ParseGNU (fun _ => Err "no such file")
      (rewriteOutputFlagGNU ["-c"; "-o"; "build/a.o"; "--"; "a.c"] "/out/a.o")
    = Ok inv /\ Output inv = "/out/a.o" /\ Inputs inv = ["a.c"].
Proof.
  apply (output_flag_rewritten (fun _ => Err "no such file")
    [(mkFlagSpec "-c" NoValue CatMode, "");
     (mkFlagSpec "-o" SeparateValue CatOutput, "build/a.o")] ["a.c"] "/out/a.o").
  - constructor; [split_and!; [in_list|reflexivity|by repeat constructor]|].
    constructor; [split_and!; [in_list|reflexivity|by intros []]|]. constructor.
  - eexists. split; [right; left; reflexivity|reflexivity].
  - discriminate.
  - by repeat constructor.
  - by repeat constructor.
Defined.

(** C31: re-parsing the command built for preprocessed source gives the mode,
    input, language and output the rewrite announces, and its
    code-generation fields, the [-Werror] promotions removed from the
    warnings: the worker compiles with exactly the code-generation options
    of the user's command.  The path given to the worker is not a flag; no
    word put on the command names a response file; the output is compared
    when the user's command has one. *)
Theorem preprocessed_rewrite_reparse (readFile : string -> result string) (args : list string)
    (inv : Invocation) (srcPath lang : string) :
  ParseGNU readFile args = Ok inv ->
  hasPrefix srcPath "-" = false -> isResponse srcPath = false ->
  isResponse lang = false -> isResponse (Output inv) = false ->
  let rw := rewriteGNUForPreprocessed inv srcPath lang in
  exists inv', ParseGNU readFile (RawArgs rw) = Ok inv' /\
    Mode inv' = Mode rw /\ Inputs inv' = Inputs rw /\ Language inv' = Language rw /\
    (Output inv <> "" -> Output inv' = Output rw) /\
    codegenView inv' = codegenView rw /\ Warnings inv' = List.filter notError (Warnings rw).
Proof.
  intros Hp Hsd Hsr Hlr Hor. cbn zeta. unfold ParseGNU in Hp. inv_ok.
  match goal with H : expandTop _ _ = Ok ?l |- _ => rename l into ex; clear H end.
  match goal with |- context [inferDefaultOutput (defaultMode ?l) _] =>
    set (L := l) in *; destruct (finishParse_view L ".o") as (Vc & Vw & Vr & _) end.
  cbn zeta in Vc, Vw, Vr. set (inv := inferDefaultOutput (defaultMode L) ".o") in *.
  assert (RawArgs inv = ex) as Eraw by (by rewrite Vr; unfold L; rewrite parseGNULoop_RawArgs).
  unfold ParseGNU, expandTop, rewriteGNUForPreprocessed.
  cbn [RawArgs preprocessedInvocation set_RawArgs set_Unknown set_Machine set_Features
       set_Warnings set_Debug set_Optim set_Std expandResponseFiles]. rewrite Eraw.
  rewrite expandArgs_id.
  2:{ repeat (constructor; [done|]). apply Forall_app. split; [|apply gnuKeep_plain].
      destruct (String.eqb (Output inv) ""); by repeat constructor. }
  cbn [rbind]. rewrite parse_preprocessed_head by done.
  match goal with |- context [parseGNULoop ?j (gnuKeepForPreprocessed ex)] =>
    destruct (gnuKeep_parse ex (set_RawArgs ex NewInvocation) j) as [[K1 K2] K3] end.
  { by destruct (String.eqb (Output inv) ""). }
  eexists. split; [done|].
  match goal with |- context [inferDefaultOutput (defaultMode ?l) _] =>
    set (M := l) in *; destruct (finishParse_view M ".o") as (Wc & Ww & _ & Wi & Wl & Wm & Wo) end.
  cbn zeta in Wc, Ww, Wi, Wl, Wm, Wo.
  assert (frameView M = (CompileMode, [srcPath], Output inv, lang)) as KF.
  { rewrite K3. by destruct (String.eqb_spec (Output inv) "") as [->|]. }
  unfold frameView in KF. injection KF as KFm KFi KFo KFl.
  fold L in K1, K2. rewrite Wi, Wl, Ww, Wc, KFi, KFl, K2, <- K1, <- Vc.
  split_and!; try done.
  - by rewrite Wm, KFm by (by rewrite KFm).
  - intros Ho. by rewrite Wo, KFo by (by rewrite KFo).
  - cbn. by rewrite Vw.
Qed.

Lemma preprocessed_rewrite_reparse_witness :
  let args := ["-c"; "-O2"; "-Werror"; "-Wall"; "-DX=1"; "a.c"; "-o"; "a.o"] in
  exists inv inv',
    ParseGNU (fun _ => Err "no such file") args = Ok inv /\
    ParseGNU (fun _ => Err "no such file")
      (RawArgs (rewriteGNUForPreprocessed inv "/src/main.i" "cpp-output")) = Ok inv' /\
    Warnings inv' = ["all"] /\ Output inv' = "a.o".
Proof.
  intros args. eexists. eassert (ParseGNU (fun _ => Err "no such file") args = Ok _) as Hp
    by reflexivity.
  destruct (preprocessed_rewrite_reparse (fun _ => Err "no such file") args _ "/src/main.i"
              "cpp-output" Hp) as (inv' & H1 & _ & _ & _ & H2 & _ & H3); try reflexivity.
  exists inv'. split; [exact Hp|]. split; [exact H1|]. split.
  - rewrite H3. reflexivity.
  - rewrite H2; [reflexivity|discriminate].
Defined.

(** When the output path was inferred, the rewrite for content-addressed
    dispatch changes the output field but the command it sends holds no
    [-o]: parsed again, it names an output outside the output root. *)
Theorem inferred_output_not_sent (readFile : string -> result string) :
  exists inv inv',
    ParseGNU readFile ["-c"; "/p/foo.c"] = Ok inv /\
    Output (RewriteForCAS inv "/p" "/src" "/out") = "/out/foo.o" /\
    ParseGNU readFile (RawArgs (RewriteForCAS inv "/p" "/src" "/out")) = Ok inv' /\
    Output inv' = "foo.o".
Proof. eexists _, _. split; [reflexivity|]. split; [reflexivity|]. by split. Qed.

(** The rewrite for preprocessed source keeps [error] among the
    structured warnings although it drops [-Werror] from the command, so the
    structured fields differ from those of the command it builds. *)
Theorem werror_kept_in_fields (readFile : string -> result string) :
  exists inv inv',
    ParseGNU readFile ["-c"; "a.c"; "-Werror"] = Ok inv /\
    ParseGNU readFile (RawArgs (rewriteGNUForPreprocessed inv "m.i" "cpp-output")) = Ok inv' /\
    Warnings (rewriteGNUForPreprocessed inv "m.i" "cpp-output") = ["error"] /\
    Warnings inv' = [].
Proof. eexists _, _. split; [reflexivity|]. split; [reflexivity|]. by split. Qed.
