(* ===== verification/Preprocess.v ===== *)
(** * Preprocess: running the compiler ([internal/compiler/executor.go],
    [clang.go], [cl.go]) and reading its dependency output
    ([preprocess.go]).

    An [Executor] is what the Go interface of that name offers: the process
    runs outside the model.  [blake3] is [blake3.Sum256].  *)

From S2P Require Import Prelude GoStrings GoPath Enum Grammar Invocation Parser.

Definition nl : ascii := "010"%char.
Definition cr : ascii := "013"%char.
Definition bs : ascii := "\"%char.

(** [Executor]: [Run bin args extraEnv cwd] gives stdout, stderr and the exit
    code; a non-zero exit code is not an error. *)
Class Executor := {
  Run : string -> list string -> list string -> string -> result (string * string * Z);
  ReadOutput : string -> result string
}.

(** [parseMakeDeps]. *)
Definition parseMakeDeps (data : string) : list string :=
  let s := match indexOf data ":" with Some i => sdrop (S i) data | None => data end in
  let s := replaceAll s (String bs (String cr (String nl ""))) " " in
  let s := replaceAll s (String bs (String nl "")) " " in
  fields s.

Definition includePrefix : string := "Note: including file:".

(** [parseShowIncludes]. *)
Definition parseShowIncludes (data : string) : list string :=
  omap (fun line =>
    let line := trimRightBy (Ascii.eqb cr) line in
    if negb (hasPrefix line includePrefix) then None
    else
      let path := trimSpace (sdrop (slen includePrefix) line) in
      if String.eqb path "" then None else Some path) (splitOn nl data).

(** [filterSources]. *)
Definition filterSources (deps sources : list string) : list string :=
  List.filter (fun d => negb (existsb (String.eqb d) sources)) deps.

(** ** Command lines for the preprocessor *)

Definition modeOrOutput (c : Category) : bool :=
  match c with CatMode | CatOutput => true | _ => false end.

Fixpoint stripGNUModeAndOutput (args : list string) : list string :=
  match args with
  | [] => []
  | a :: rest =>
      if negb (hasPrefix a "-") || String.eqb a "-" || String.eqb a "--"
      then a :: stripGNUModeAndOutput rest
      else match matchGNUFlag a rest with
      | Some (spec, _, consumed) =>
          if modeOrOutput (specCategory spec) then
            match consumed, rest with
            | 2, _ :: rest' => stripGNUModeAndOutput rest'
            | _, _ => stripGNUModeAndOutput rest
            end
          else a :: stripGNUModeAndOutput rest
      | None => a :: stripGNUModeAndOutput rest
      end
  end.

Definition wpDepFamily : list string :=
  ["-Wp,-MMD,"; "-Wp,-MD,"; "-Wp,-MF,"; "-Wp,-MT,"; "-Wp,-MQ,"].

Definition isGNUDepEmissionFlag (a : string) : bool :=
  existsb (String.eqb a) ["-MD"; "-MMD"; "-MF"; "-MT"; "-MQ"]
  || existsb (hasPrefix a) wpDepFamily.

Fixpoint stripGNUModeOutputAndDepEmission (args : list string) : list string :=
  match args with
  | [] => []
  | a :: rest =>
      if negb (hasPrefix a "-") || String.eqb a "-" || String.eqb a "--"
      then a :: stripGNUModeOutputAndDepEmission rest
      else if isGNUDepEmissionFlag a then
        match rest with
        | _ :: rest' =>
            if String.eqb a "-MF" || String.eqb a "-MT" || String.eqb a "-MQ"
            then stripGNUModeOutputAndDepEmission rest'
            else stripGNUModeOutputAndDepEmission rest
        | [] => []
        end
      else match matchGNUFlag a rest with
      | Some (spec, _, consumed) =>
          if modeOrOutput (specCategory spec) then
            match consumed, rest with
            | 2, _ :: rest' => stripGNUModeOutputAndDepEmission rest'
            | _, _ => stripGNUModeOutputAndDepEmission rest
            end
          else a :: stripGNUModeOutputAndDepEmission rest
      | None => a :: stripGNUModeOutputAndDepEmission rest
      end
  end.

Fixpoint stripMSVCModeAndOutput (args : list string) : list string :=
  match args with
  | [] => []
  | a :: rest =>
      if negb (isMSVCFlag a) then a :: stripMSVCModeAndOutput rest
      else match matchMSVCFlag a rest with
      | Some (spec, _, consumed) =>
          if modeOrOutput (specCategory spec) then
            match consumed, rest with
            | 2, _ :: rest' => stripMSVCModeAndOutput rest'
            | _, _ => stripMSVCModeAndOutput rest
            end
          else a :: stripMSVCModeAndOutput rest
      | None => a :: stripMSVCModeAndOutput rest
      end
  end.

(** ** The operations of the [Compiler] interface *)

Record PreprocessResult := mkPreprocessResult {
  ppSource : string;
  ppDigest : string;
  ppStderr : string;
  ppExitCode : Z
}.

Section Ops.
  Context {exec : Executor} (blake3 : string -> string).

Definition runPreprocessor (bin : string) (args : list string) (cwd : string)
    : result PreprocessResult :=
  let! r := Run bin args [] cwd in
  let '(stdout, stderr, exitCode) := r in
  Ok (mkPreprocessResult stdout (blake3 stdout) stderr exitCode).

Definition Preprocess (c : Compiler) (inv : Invocation) : result PreprocessResult :=
  match c with
  | clangCompiler _ path =>
      runPreprocessor path ("-E" :: stripGNUModeAndOutput (RawArgs inv)) (Cwd inv)
  | clCompiler _ path =>
      runPreprocessor path ("/E" :: "/nologo" :: stripMSVCModeAndOutput (RawArgs inv)) (Cwd inv)
  end.

Definition FindDependencies (c : Compiler) (inv : Invocation) : result (list string) :=
  match c with
  | clangCompiler _ path =>
      let! r := Run path ("-M" :: stripGNUModeOutputAndDepEmission (RawArgs inv)) [] (Cwd inv) in
      let '(stdout, stderr, exitCode) := r in
      if negb (exitCode =? 0)%Z then Err ("clang -M exit: " +:+ stderr)
      else Ok (filterSources (parseMakeDeps stdout) (Inputs inv))
  | clCompiler _ path =>
      let! r := Run path ("/E" :: "/showIncludes" :: "/nologo" :: stripMSVCModeAndOutput (RawArgs inv))
                  ["VSLANG=1033"] (Cwd inv) in
      let '(_, stderr, exitCode) := r in
      if negb (exitCode =? 0)%Z then Err ("cl /showIncludes exit: " +:+ stderr)
      else Ok (filterSources (parseShowIncludes stderr) (Inputs inv))
  end.

(** [Invoke]; [elapsed] is [time.Since(start)]. *)
Definition Invoke (elapsed : Z) (c : Compiler) (inv : Invocation) : result InvocationResult :=
  let! r := Run (compilerPath c) (RawArgs inv) [] (Cwd inv) in
  let '(stdout, stderr, exitCode) := r in
  if negb (String.eqb (Output inv) "") && (exitCode =? 0)%Z then
    let! data := wrapErr ("read output " +:+ Output inv) (ReadOutput (Output inv)) in
    Ok (mkInvocationResult data stdout stderr exitCode elapsed ∅)
  else Ok (mkInvocationResult "" stdout stderr exitCode elapsed ∅).

(** [Identity]: the digest of the resolved compiler binary; [lookPath] is
    [exec.LookPath] and [readFile] is [os.ReadFile]. *)
Definition Identity (lookPath readFile : string -> result string) (c : Compiler)
    : result string :=
  let! path := wrapErr "resolve compiler path" (lookPath (compilerPath c)) in
  let! bin := wrapErr "read compiler binary" (readFile path) in
  Ok (blake3 bin).
End Ops.

(** ** Stripping: facts *)

(** A word that no stripping loop reads as a flag. *)
Definition plainWord (w : string) : bool := negb (hasPrefix w "-").

(** The separate value of [f], if any, is a plain word. *)
Definition plainValue (f : FlagSpec * string) : Prop :=
  forallb plainWord (tail (renderGNU f)) = true.

Definition keptByStrip (f : FlagSpec * string) : bool := negb (modeOrOutput (specCategory f.1)).

Definition keptByDepStrip (f : FlagSpec * string) : bool :=
  keptByStrip f && negb (isGNUDepEmissionFlag (default "" (head (renderGNU f)))).

Lemma strip_plain ws rest :
  forallb plainWord ws = true ->
  stripGNUModeAndOutput (ws ++ rest) = ws ++ stripGNUModeAndOutput rest /\
  stripGNUModeOutputAndDepEmission (ws ++ rest) = ws ++ stripGNUModeOutputAndDepEmission rest.
Proof.
  induction ws as [|w ws IH]; [done|]. cbn [forallb]. intros [Hw H]%andb_true_iff.
  destruct (IH H) as [H1 H2]. unfold plainWord in Hw.
  cbn [app stripGNUModeAndOutput stripGNUModeOutputAndDepEmission].
  rewrite Hw. cbn [orb]. by rewrite H1, H2.
Qed.

Lemma renderGNU_tail f w ws : renderGNU f = w :: ws -> ws = [] \/ exists v, ws = [v].
Proof. destruct f as [s v]. cbn. destruct (specValue s); intros; simplify_eq; eauto. Qed.

Lemma strip_render1 f rest :
  In f.1 gnuFlags -> writableGNU f = true -> plainValue f ->
  stripGNUModeAndOutput (renderGNU f ++ rest)
  = (if keptByStrip f then renderGNU f else []) ++ stripGNUModeAndOutput rest.
Proof.
  intros Hin Hw Hp.
  destruct (matchGNUFlag_render f rest Hin Hw) as (w & ws & Hr & Hm).
  destruct (render_is_flag f w ws Hin Hr) as [E1 E2].
  unfold plainValue in Hp. rewrite Hr in *. cbn [tail] in Hp.
  cbn [app stripGNUModeAndOutput]. rewrite E2, E1, Hm. cbn [orb]. unfold keptByStrip.
  destruct (modeOrOutput (specCategory f.1)); cbn [negb app].
  - destruct (renderGNU_tail f w ws Hr) as [->|[v ->]]; done.
  - f_equal. by apply strip_plain.
Qed.

(** The flag read by [isGNUDepEmissionFlag] takes the next word exactly when
    it is spelled with a separate value. *)
Lemma dep_render f w ws :
  In f.1 gnuFlags -> renderGNU f = w :: ws -> isGNUDepEmissionFlag w = true ->
  ws = [] /\ (String.eqb w "-MF" || String.eqb w "-MT" || String.eqb w "-MQ") = false \/
  (exists v, ws = [v]) /\ (String.eqb w "-MF" || String.eqb w "-MT" || String.eqb w "-MQ") = true.
Proof.
  destruct f as [s v]. cbn [fst]. intros Hin Hr Hd.
  assert (forallb (fun t => match specValue t with
    | SeparateValue | JoinedOrSeparate => negb (isGNUDepEmissionFlag (specName t)) ||
        (String.eqb (specName t) "-MF" || String.eqb (specName t) "-MT" || String.eqb (specName t) "-MQ")
    | NoValue => negb (String.eqb (specName t) "-MF" || String.eqb (specName t) "-MT" || String.eqb (specName t) "-MQ")
    | JoinedValue => negb (hasPrefix (specName t) "-M") && (2 <=? slen (specName t))
    end) gnuFlags = true) as H by (vm_compute; reflexivity).
  rewrite forallb_forall in H. specialize (H _ Hin). unfold renderGNU in Hr.
  destruct (specValue s) eqn:Ev; simplify_eq.
  - left. split; [done|]. by apply negb_true_iff.
  - left. split; [done|]. apply andb_true_iff in H as [H1%negb_true_iff H2].
    destruct (specName s) as [|c1 [|c2 n]]; try done. cbn [String.append].
    destruct (Ascii.eqb_spec "-" c1) as [<-|N1]; [destruct (Ascii.eqb_spec "M" c2) as [<-|N2]|].
    + done.
    + assert (forall k, String.eqb (String "-" (String c2 (n +:+ v))) (String "-" (String "M" k)) = false)
        as Hn by (intros k; apply String.eqb_neq; congruence).
      by rewrite !Hn.
    + assert (forall k, String.eqb (String c1 (String c2 (n +:+ v))) (String "-" k) = false)
        as Hn by (intros k; apply String.eqb_neq; congruence).
      by rewrite !Hn.
  - right. rewrite Hd in H. cbn [negb orb] in H. eauto.
  - right. rewrite Hd in H. cbn [negb orb] in H. eauto.
Qed.

Lemma strip_dep_render1 f rest :
  In f.1 gnuFlags -> writableGNU f = true -> plainValue f ->
  stripGNUModeOutputAndDepEmission (renderGNU f ++ rest)
  = (if keptByDepStrip f then renderGNU f else []) ++ stripGNUModeOutputAndDepEmission rest.
Proof.
  intros Hin Hw Hp.
  destruct (matchGNUFlag_render f rest Hin Hw) as (w & ws & Hr & Hm).
  destruct (render_is_flag f w ws Hin Hr) as [E1 E2].
  unfold plainValue in Hp. unfold keptByDepStrip. rewrite Hr in *. cbn [tail] in Hp.
  change (default "" (head (w :: ws))) with w.
  cbn [app stripGNUModeOutputAndDepEmission]. rewrite E2, E1. cbn [orb]. unfold keptByStrip.
  destruct (isGNUDepEmissionFlag w) eqn:Ed; cbn [negb]; rewrite ?andb_false_r, ?andb_true_r.
  - destruct (dep_render f w ws Hin Hr Ed) as [[-> E]|[[v ->] E]]; rewrite E; [|done].
    by destruct rest.
  - rewrite Hm. destruct (modeOrOutput (specCategory f.1)); cbn [negb app].
    + destruct (renderGNU_tail f w ws Hr) as [->|[v ->]]; done.
    + f_equal. by apply strip_plain.
Qed.

(** ** Dependency rules: facts *)

(** The separator GCC writes between two prerequisites: a space, or a
    continued line. *)
Definition depSep (continued : bool) : string :=
  if continued then String " " (String bs (String nl "  ")) else " ".

(** The prerequisites of a rule, each with its separator. *)
Definition depBody (deps : list (bool * string)) : string :=
  joinWith "" (map (fun bd => depSep bd.1 +:+ bd.2) deps) +:+ String nl "".

Definition depRule (target : string) (deps : list (bool * string)) : string :=
  target +:+ ":" +:+ depBody deps.

(** A prerequisite Make needs no escape for. *)
Definition depWord (d : string) : bool :=
  negb (String.eqb d "") && spaceFree d && negb (containsByte d bs).

(** The body with its continuations replaced by a space. *)
Definition flatSep (continued : bool) : string := if continued then "    " else " ".
Definition flatBody (deps : list (bool * string)) : string :=
  joinWith "" (map (fun bd => flatSep bd.1 +:+ bd.2) deps) +:+ String nl "".

Lemma joinWith_nil_cons w ws : joinWith "" (w :: ws) = w +:+ joinWith "" ws.
Proof. destruct ws; cbn; [by rewrite sapp_nil_r|done]. Qed.

Lemma depWord_spec d :
  depWord d = true -> d <> "" /\ spaceFree d = true /\ containsByte d bs = false.
Proof.
  unfold depWord. rewrite !andb_true_iff, !negb_true_iff, String.eqb_neq. tauto.
Qed.

Lemma spaceFree_cr d : spaceFree d = true -> containsByte d cr = false.
Proof.
  induction d as [|c d IH]; [done|]. cbn [spaceFree containsByte].
  intros [Hc%negb_true_iff H]%andb_true_iff. rewrite IH by done.
  by destruct (Ascii.eqb_spec c cr) as [->|].
Qed.

Lemma depBody_no_cr deps :
  Forall (fun bd => depWord bd.2 = true) deps -> containsByte (depBody deps) cr = false.
Proof.
  unfold depBody. rewrite containsByte_app.
  induction 1 as [|[b d] deps Hd _ IH]; [done|].
  cbn [map]. rewrite joinWith_nil_cons, !containsByte_app.
  apply depWord_spec in Hd as (_ & Hs & _). apply orb_false_iff in IH as [-> _].
  cbn [fst snd] in *. rewrite (spaceFree_cr d Hs). by destruct b.
Qed.

Lemma depBody_flat deps :
  Forall (fun bd => depWord bd.2 = true) deps ->
  replaceAll (depBody deps) (String bs (String nl "")) " " = flatBody deps.
Proof.
  unfold depBody, flatBody. induction 1 as [|[b d] deps Hd _ IH]; [done|].
  cbn [map]. rewrite !joinWith_nil_cons. cbn [fst snd].
  apply depWord_spec in Hd as (_ & _ & Hb).
  rewrite !sapp_assoc. destruct b.
  - change (depSep true) with (" " +:+ (String bs (String nl "")) +:+ "  ").
    change (flatSep true) with (" " +:+ " " +:+ "  "). rewrite !sapp_assoc.
    rewrite replaceAll_app by done. rewrite replaceAll_hit by done.
    rewrite replaceAll_app by done. rewrite replaceAll_app by done. by rewrite IH.
  - change (depSep false) with " ". change (flatSep false) with " ".
    rewrite replaceAll_app by done. rewrite replaceAll_app by done. by rewrite IH.
Qed.

Lemma fields_flat deps :
  Forall (fun bd => depWord bd.2 = true) deps -> fields (flatBody deps) = map snd deps.
Proof.
  unfold flatBody. induction 1 as [|[b d] deps Hd Hall IH]; [done|].
  apply depWord_spec in Hd as (Hne & Hs & _).
  cbn [map snd fst]. rewrite joinWith_nil_cons. rewrite !sapp_assoc.
  assert (fields (flatSep b +:+ d +:+ joinWith "" (map (fun bd => flatSep bd.1 +:+ bd.2) deps)
      +:+ String nl "")
    = fields (d +:+ joinWith "" (map (fun bd => flatSep bd.1 +:+ bd.2) deps) +:+ String nl ""))
    as -> by (by destruct b).
  unfold fields at 1. rewrite fieldsFrom_word by done. cbn [String.append].
  rewrite <- IH. destruct deps as [|[b' d'] deps].
  { cbn [map joinWith String.append]. by rewrite fieldsFrom_space. }
  cbn [map fst snd]. rewrite joinWith_nil_cons, !sapp_assoc.
  assert (exists r, flatSep b' = String " " r) as [r ->] by (destruct b'; eauto).
  cbn [String.append]. rewrite fieldsFrom_space by done. by rewrite fields_space.
Qed.

(** ** Properties *)

(** The commands built to run the preprocessor and to list dependencies
    are the user's command without its mode and output flags, and for the
    dependency listing also without the dependency-emission flags, each with
    its value; every other flag and every input is passed on unchanged and in
    order.  Separate values and inputs must not look like flags. *)
Theorem preprocess_commands (fs : list (FlagSpec * string)) (inputs : list string) :
  Forall (fun f => In f.1 gnuFlags /\ writableGNU f = true /\ plainValue f) fs ->
  forallb plainWord inputs = true ->
  stripGNUModeAndOutput (concat (map renderGNU fs) ++ inputs)
    = concat (map renderGNU (List.filter keptByStrip fs)) ++ inputs /\
  stripGNUModeOutputAndDepEmission (concat (map renderGNU fs) ++ inputs)
    = concat (map renderGNU (List.filter keptByDepStrip fs)) ++ inputs.
Proof.
  intros Hfs Hi. destruct (strip_plain inputs [] Hi) as [H1 H2].
  rewrite !app_nil_r in H1, H2.
  induction Hfs as [|f fs (Hin & Hw & Hp) _ [IH1 IH2]]; [done|].
  cbn [map concat List.filter]. rewrite <- !app_assoc.
  rewrite strip_render1, strip_dep_render1, IH1, IH2 by done.
  destruct (keptByStrip f), (keptByDepStrip f); cbn [map concat app]; by rewrite <- ?app_assoc.
Qed.

Lemma preprocess_commands_witness :
  stripGNUModeOutputAndDepEmission ["-c"; "-O2"; "-MF"; "a.d"; "-o"; "a.o"; "a.c"] = ["-O2"; "a.c"].
Proof.
  apply (preprocess_commands
    [(mkFlagSpec "-c" NoValue CatMode, ""); (mkFlagSpec "-O" JoinedValue CatOptim, "2");
     (mkFlagSpec "-MF" SeparateValue CatPassthrough, "a.d");
     (mkFlagSpec "-o" SeparateValue CatOutput, "a.o")] ["a.c"]).
  - repeat (apply Forall_cons; split;
      [split; [in_list|split; [vm_compute; reflexivity|vm_compute; reflexivity]]|]).
    constructor.
  - reflexivity.
Defined.

(** Reading back a Make rule as the compiler prints it gives its
    prerequisites, in order, whether they are separated by spaces or
    continued lines; prerequisites hold no white space or backslash and the
    target no colon. *)
Theorem parseMakeDeps_rule (target : string) (deps : list (bool * string)) :
  containsByte target ":"%char = false ->
  Forall (fun bd => depWord bd.2 = true) deps ->
  parseMakeDeps (depRule target deps) = map snd deps.
Proof.
  intros Ht Hd. unfold parseMakeDeps, depRule.
  change (":" +:+ depBody deps) with (String ":" (depBody deps)).
  rewrite indexOf_byte by done.
  replace (S (slen target)) with (slen (target +:+ ":")) by (rewrite slen_app; simpl; lia).
  change (String ":" (depBody deps)) with (":" +:+ depBody deps).
  rewrite <- sapp_assoc, sdrop_app.
  rewrite (replaceAll_absent (depBody deps)); [|done|].
  - rewrite depBody_flat by done. by apply fields_flat.
  - destruct (contains (depBody deps) _) eqn:E; [|done].
    eapply contains_byte with (c := cr) in E; [|done].
    by rewrite depBody_no_cr in E.
Qed.

Lemma parseMakeDeps_rule_witness :
  parseMakeDeps (depRule "a.o" [(false, "a.c"); (true, "/usr/include/stdio.h"); (false, "b.h")])
  = ["a.c"; "/usr/include/stdio.h"; "b.h"].
Proof.
  apply (parseMakeDeps_rule "a.o" [(false, "a.c"); (true, "/usr/include/stdio.h"); (false, "b.h")]).
  - reflexivity.
  - repeat (apply Forall_cons; split; [vm_compute; reflexivity|]). constructor.
Defined.
