(* ===== verification/AsmClosure.v ===== *)
(** * AsmClosure: the assembler include closure of
    [internal/compiler/manifest.go].

    The regular expression [assemblyIncludeRe] is written out as a scanner:
    every part of it is deterministic, so the leftmost match at a line start
    is unique.  The file system is a finite map from the path given to
    [os.ReadFile] to the file's bytes. *)

From S2P Require Import Prelude GoStrings GoPath.

Definition quoteChar : ascii := ascii_of_nat 34.
Definition lineFeed : ascii := "010"%char.
Definition isBlank (c : ascii) : bool := Ascii.eqb c " "%char || Ascii.eqb c "009"%char.

Inductive Directive := Incbin (path : string) | Include (path : string).
#[global] Instance Directive_eq_dec : EqDecision Directive.
Proof. solve_decision. Defined.

Definition directivePath (d : Directive) : string :=
  match d with Incbin p | Include p => p end.

(** A quoted path: [quote], one or more non-quotes, [quote]. *)
Definition matchQuoted (s : string) : option string :=
  match s with
  | String c t =>
      if negb (Ascii.eqb c quoteChar) then None
      else match indexBy (Ascii.eqb quoteChar) t with
           | Some 0 | None => None
           | Some n => Some (stake n t)
           end
  | EmptyString => None
  end.

(** One or more blanks, then a quoted path. *)
Definition matchArgument (s : string) : option string :=
  match s with
  | String c t => if isBlank c then matchQuoted (trimLeftBy isBlank t) else None
  | EmptyString => None
  end.

(** The expression at a line start: blanks, a dot, the directive's name, its
    argument.  The path may span lines, since a non-quote may be a line
    feed. *)
Definition matchDirective (s : string) : option Directive :=
  let s := trimLeftBy isBlank s in
  if hasPrefix s ".incbin" then Incbin <$> matchArgument (sdrop 7 s)
  else if hasPrefix s ".include" then Include <$> matchArgument (sdrop 8 s)
  else None.

(** The number of bytes from the line start to the end of the match. *)
Definition matchLength (s : string) (d : Directive) : nat :=
  let t := trimLeftBy isBlank s in
  let n := match d with Incbin _ => 7 | Include _ => 8 end in
  let u := sdrop n t in
  (slen s - slen t) + n + (slen u - slen (trimLeftBy isBlank u)) + slen (directivePath d) + 2.

(** [FindAllSubmatch]: leftmost matches that do not overlap.  [bol]: the
    position is a line start; [skip]: bytes of the last match still to
    pass. *)
Fixpoint scanDirectives (bol : bool) (skip : nat) (s : string) : list Directive :=
  match s with
  | EmptyString => []
  | String c t =>
      let bol' := Ascii.eqb c lineFeed in
      match skip with
      | S k => scanDirectives bol' k t
      | 0 =>
          match (if bol then matchDirective s else None) with
          | Some d => d :: scanDirectives bol' (matchLength s d - 1) t
          | None => scanDirectives bol' 0 t
          end
      end
  end.

(** [scanAssemblyIncludes]: the [Incbin] and [Include] slices. *)
Definition incbins (ds : list Directive) : list string :=
  omap (fun d => match d with Incbin p => Some p | Include _ => None end) ds.
Definition includes (ds : list Directive) : list string :=
  omap (fun d => match d with Include p => Some p | Incbin _ => None end) ds.

Section Closure.
  Context (fs : gmap string string) (cwd : string).

Definition scanAssemblyIncludes (filePath : string) : option (list string * list string) :=
  match fs !! filePath with
  | None => None
  | Some data => let ds := scanDirectives true 0 data in Some (incbins ds, includes ds)
  end.

(** The closure [resolve]. *)
Definition resolve (p : string) : string :=
  if isAbs p || String.eqb cwd "" then p else join [cwd; p].

(** The state of the walk: [scanned], [emitted], [queue] and [out]. *)
Record Walk := mkWalk {
  scanned : gset string;
  emitted : gset string;
  queue : list string;
  out : list string
}.

Definition enqueue (w : Walk) (p : string) : Walk :=
  if decide (p ∈ scanned w) then w
  else mkWalk ({[p]} ∪ scanned w) (emitted w) (queue w ++ [p]) (out w).

Definition emit (w : Walk) (p : string) : Walk :=
  let a := resolve p in
  if decide (a ∈ emitted w) then w
  else mkWalk (scanned w) ({[a]} ∪ emitted w) (queue w) (out w ++ [p]).

(** One iteration of the second inner loop: emit, then recurse. *)
Definition includeStep (w : Walk) (p : string) : Walk := enqueue (emit w p) (resolve p).

(** The body of the main loop for the path [cur] taken off the queue. *)
Definition walkStep (w : Walk) (cur : string) : Walk :=
  match scanAssemblyIncludes cur with
  | None => w
  | Some (bins, incs) => foldl includeStep (foldl emit w bins) incs
  end.

Definition pop (w : Walk) : Walk := mkWalk (scanned w) (emitted w) (tail (queue w)) (out w).

(** The main loop; [None] when the fuel runs out. *)
Fixpoint walk (fuel : nat) (w : Walk) : option Walk :=
  match queue w with
  | [] => Some w
  | cur :: _ =>
      match fuel with
      | 0 => None
      | S n => walk n (walkStep (pop w) cur)
      end
  end.

Definition seed (rootAbs : string) (cppDeps : list string) : Walk :=
  foldl (fun w d => enqueue w (resolve d)) (enqueue (mkWalk ∅ ∅ [] []) rootAbs) cppDeps.

(** Enough iterations: one for each seed and one for each [.include] in any
    file. *)
Definition closureFuel (cppDeps : list string) : nat :=
  S (length cppDeps)
  + sum_list (map (fun kv => length (includes (scanDirectives true 0 kv.2))) (map_to_list fs)).

(** [scanAssemblyClosure(rootAbs, cppDeps, cwd)]. *)
Definition scanAssemblyClosure (rootAbs : string) (cppDeps : list string)
    : option (list string) :=
  out <$> walk (closureFuel cppDeps) (seed rootAbs cppDeps).
End Closure.

Example scan_ex :
  scanDirectives true 0
    ("  .incbin " +:+ String quoteChar ("a.bin" +:+ String quoteChar (String lineFeed
      ("# .include " +:+ String quoteChar ("no" +:+ String quoteChar (String lineFeed
      (".include " +:+ String quoteChar ("b.S" +:+ String quoteChar ""))))))))
  = [Incbin "a.bin"; Include "b.S"].
Proof. reflexivity. Qed.

(** ** Facts about the walk *)

Section Facts.
  Context (fs : gmap string string) (cwd : string).
  Notation resolve := (resolve cwd).
  Notation scan := (scanAssemblyIncludes fs).

(** The files the assembler can open, starting from [seeds]. *)
Inductive reach (seeds : list string) : string -> Prop :=
  | reach_seed p : p ∈ seeds -> reach seeds p
  | reach_include p bins incs i :
      reach seeds p -> scan p = Some (bins, incs) -> i ∈ incs -> reach seeds (resolve i).

(** [x] is named by a directive of a reachable file. *)
Definition named (seeds : list string) (x : string) : Prop :=
  exists p bins incs, reach seeds p /\ scan p = Some (bins, incs) /\ x ∈ bins ++ incs.

(** What holds between two iterations ([busy = None]) and while the path
    [busy] is being processed. *)
Record WalkInv (seeds : list string) (busy : option string) (w : Walk) : Prop := {
  inv_queue_nodup : NoDup (queue w);
  inv_queue_scanned : forall p, p ∈ queue w -> p ∈ scanned w;
  inv_reach : forall p, p ∈ scanned w -> reach seeds p;
  inv_emitted : forall a, a ∈ emitted w <-> a ∈ map resolve (out w);
  inv_out_nodup : NoDup (map resolve (out w));
  inv_out_named : forall x, x ∈ out w -> named seeds x;
  inv_done : forall p bins incs, busy <> Some p -> p ∈ scanned w -> p ∉ queue w -> scan p = Some (bins, incs) ->
    (forall x, x ∈ bins ++ incs -> resolve x ∈ emitted w) /\
    (forall x, x ∈ incs -> resolve x ∈ scanned w)
}.

(** The effect of the inner loops on the sets of the walk. *)
Lemma emit_spec w p :
  scanned (emit cwd w p) = scanned w /\ queue (emit cwd w p) = queue w /\
  (forall a, a ∈ emitted (emit cwd w p) <-> a = resolve p \/ a ∈ emitted w) /\
  (out (emit cwd w p) = out w /\ resolve p ∈ emitted w \/
   out (emit cwd w p) = out w ++ [p] /\ resolve p ∉ emitted w).
Proof. unfold emit. case_decide; cbn; split_and!; set_solver. Qed.

Lemma enqueue_spec w p :
  emitted (enqueue w p) = emitted w /\ out (enqueue w p) = out w /\
  (forall a, a ∈ scanned (enqueue w p) <-> a = p \/ a ∈ scanned w) /\
  (queue (enqueue w p) = queue w /\ p ∈ scanned w \/
   queue (enqueue w p) = queue w ++ [p] /\ p ∉ scanned w).
Proof. unfold enqueue. case_decide; cbn; split_and!; set_solver. Qed.

Lemma emit_inv seeds busy w p :
  named seeds p ->
  WalkInv seeds busy w -> WalkInv seeds busy (emit cwd w p).
Proof.
  intros Hn [Q1 Q2 Q4 Q5 Q6 Q7 Q8].
  destruct (emit_spec w p) as (Es & Eq & Ee & [[Eo Hin]|[Eo Hin]]); split; rewrite ?Es, ?Eq, ?Eo; auto.
  - intros a. rewrite Ee, <- Q5. set_solver.
  - intros q bins incs Hne Hs Hq Hscan. destruct (Q8 q bins incs Hne Hs Hq Hscan). split; [|done].
    intros x Hx. rewrite Ee. auto.
  - intros a. rewrite Ee, map_app, elem_of_app, <- Q5. cbn. set_solver.
  - rewrite map_app. apply NoDup_app. split_and!; [done| |apply NoDup_singleton].
    cbn. intros a Ha Hl. rewrite <- Q5 in Ha. set_solver.
  - intros x [Hx|Hx]%elem_of_app; [auto|]. apply list_elem_of_singleton in Hx. by subst.
  - intros q bins incs Hne Hs Hq Hscan. destruct (Q8 q bins incs Hne Hs Hq Hscan). split; [|done].
    intros x Hx. rewrite Ee. auto.
Qed.

Lemma enqueue_inv seeds busy w p :
  reach seeds p -> busy <> Some p \/ p ∈ scanned w ->
  WalkInv seeds busy w -> WalkInv seeds busy (enqueue w p).
Proof.
  intros Hr Hb [Q1 Q2 Q4 Q5 Q6 Q7 Q8].
  destruct (enqueue_spec w p) as (Ee & Eo & Es & [[Eq Hin]|[Eq Hin]]); split;
    rewrite ?Eo, ?Ee, ?Eq; auto.
  - intros q Hq. rewrite Es. auto.
  - intros q. rewrite Es. intros [->|?]; auto.
  - intros q bins incs Hne Hs Hq Hscan. rewrite Es in Hs.
    destruct (Q8 q bins incs) as [H1 H2]; [done|set_solver|done|done|].
    split; [done|]. intros x Hx. rewrite Es. auto.
  - apply NoDup_app. split_and!; [done| |apply NoDup_singleton]. set_solver.
  - intros q. rewrite Es, elem_of_app. intros [?|?]; [auto|set_solver].
  - intros q. rewrite Es. intros [->|?]; auto.
  - intros q bins incs Hne Hs Hq Hscan. rewrite Es in Hs.
    destruct (Q8 q bins incs) as [H1 H2]; [done|set_solver|set_solver|done|].
    split; [done|]. intros x Hx. rewrite Es. auto.
Qed.

(** The two inner loops: the invariant and what they add. *)
Lemma emits_inv seeds busy w ps :
  (forall p, p ∈ ps -> named seeds p) -> WalkInv seeds busy w ->
  let w' := foldl (emit cwd) w ps in
  WalkInv seeds busy w' /\ scanned w' = scanned w /\ queue w' = queue w /\
  (forall a, a ∈ emitted w -> a ∈ emitted w') /\
  (forall p, p ∈ ps -> resolve p ∈ emitted w').
Proof.
  revert w. induction ps as [|p ps IH]; intros w Hn Hw; cbn; [set_solver|].
  destruct (IH (emit cwd w p)) as (H1 & H2 & H3 & H4 & H5);
    [set_solver|apply emit_inv; [set_solver|done]|].
  destruct (emit_spec w p) as (Es & Eq & Ee & _).
  split_and!; [done|congruence|congruence| |].
  - intros a Ha. apply H4. rewrite Ee. auto.
  - intros q [->|Hq]%elem_of_cons; [|auto]. apply H4. rewrite Ee. auto.
Qed.

Lemma includes_inv seeds busy w ps :
  (forall p, p ∈ ps -> named seeds p /\ reach seeds (resolve p)) ->
  (forall b, busy = Some b -> b ∈ scanned w) -> WalkInv seeds busy w ->
  let w' := foldl (includeStep cwd) w ps in
  WalkInv seeds busy w' /\
  (forall a, a ∈ emitted w -> a ∈ emitted w') /\ (forall a, a ∈ scanned w -> a ∈ scanned w') /\
  (forall p, p ∈ ps -> resolve p ∈ emitted w' /\ resolve p ∈ scanned w').
Proof.
  revert w. induction ps as [|p ps IH]; intros w Hn Hb Hw; cbn; [set_solver|].
  destruct (emit_spec w p) as (Es & Eq & Ee & _).
  destruct (enqueue_spec (emit cwd w p) (resolve p)) as (Fe & _ & Fs & _).
  unfold includeStep at 2 4 6 8 10.
  destruct (IH (enqueue (emit cwd w p) (resolve p))) as (H1 & H2 & H3 & H4).
  - set_solver.
  - intros b Hbb. rewrite Fs, Es. auto.
  - apply enqueue_inv; [by apply Hn; set_solver| |apply emit_inv; [by apply Hn; set_solver|done]].
    rewrite Es. destruct (decide (busy = Some (resolve p))) as [E|E]; [right; auto|by left].
  - split_and!; [done| | |].
    + intros a Ha. apply H2. rewrite Fe, Ee. auto.
    + intros a Ha. apply H3. rewrite Fs, Es. auto.
    + intros q [->|Hq]%elem_of_cons; [|auto].
      split; [apply H2; rewrite Fe, Ee; auto|apply H3; rewrite Fs; auto].
Qed.

Lemma pop_inv seeds w cur rest :
  queue w = cur :: rest -> WalkInv seeds None w ->
  WalkInv seeds (Some cur) (pop w) /\ cur ∈ scanned w /\ cur ∉ queue (pop w).
Proof.
  intros Hq [Q1 Q2 Q4 Q5 Q6 Q7 Q8]. rewrite Hq in Q1.
  apply NoDup_cons in Q1 as [Hni Hnd]. unfold pop. split_and!.
  - split; cbn; rewrite ?Hq; cbn; auto.
    + intros p Hp. apply Q2. rewrite Hq. set_solver.
    + intros p bins incs Hne Hs Hp Hscan. apply (Q8 p bins incs); [done|done| |done].
      rewrite Hq. intros [->|?]%elem_of_cons; done.
  - apply Q2. rewrite Hq. set_solver.
  - cbn. by rewrite Hq.
Qed.

Lemma walkStep_inv seeds w cur rest :
  queue w = cur :: rest -> WalkInv seeds None w ->
  WalkInv seeds None (walkStep fs cwd (pop w) cur) /\
  (forall p, p ∈ scanned w -> p ∈ scanned (walkStep fs cwd (pop w) cur)).
Proof.
  intros Hq Hw. destruct (pop_inv seeds w cur rest Hq Hw) as (Hp & Hc & Hnq).
  assert (reach seeds cur) as Hr by (by eapply inv_reach).
  assert (forall w', WalkInv seeds (Some cur) w' ->
    (forall bins incs, scan cur = Some (bins, incs) ->
      (forall x, x ∈ bins ++ incs -> resolve x ∈ emitted w') /\
      (forall x, x ∈ incs -> resolve x ∈ scanned w')) -> WalkInv seeds None w') as Hdone.
  { intros w' [Q1 Q2 Q4 Q5 Q6 Q7 Q8] Hcur. split; auto.
    intros p bins incs _ Hs Hpq Hscan. destruct (decide (p = cur)) as [->|Hne]; [by apply Hcur|].
    apply (Q8 p bins incs); congruence. }
  unfold walkStep. destruct (scan cur) as [[bins incs]|] eqn:E.
  2:{ split; [apply Hdone; [done|congruence]|done]. }
  destruct (emits_inv seeds (Some cur) (pop w) bins) as (I1 & I2 & I3 & I4 & I5); [|done|].
  { intros p Hpb. exists cur, bins, incs. set_solver. }
  destruct (includes_inv seeds (Some cur) (foldl (emit cwd) (pop w) bins) incs)
    as (J1 & J2 & J3 & J4); [| |done|].
  { intros p Hpi. split; [exists cur, bins, incs; set_solver|by eapply reach_include]. }
  { intros b [= <-]. rewrite I2. by cbn. }
  split; [|intros p Hps; apply J3; by rewrite I2].
  apply Hdone; [done|]. intros bins' incs' [= <- <-]. split; [|intros x Hx; by apply J4].
  intros x [Hx|Hx]%elem_of_app; [apply J2; auto|by apply J4].
Qed.

(** ** The fuel is enough *)

Definition includeCount (kv : string * string) : nat :=
  length (includes (scanDirectives true 0 kv.2)).

(** A file whose directives have not been processed yet. *)
Definition pendingFile (w : Walk) (p : string) : bool :=
  bool_decide (p ∉ scanned w) || bool_decide (p ∈ queue w).

Definition pendingWork (w : Walk) (l : list (string * string)) : nat :=
  sum_list (map (fun kv => if pendingFile w kv.1 then includeCount kv else 0) l).

Definition measure (w : Walk) : nat := length (queue w) + pendingWork w (map_to_list fs).

Lemma pendingWork_ext w w' l :
  (forall p, pendingFile w p = pendingFile w' p) -> pendingWork w l = pendingWork w' l.
Proof. intros H. unfold pendingWork. f_equal. apply map_ext. intros kv. by rewrite H. Qed.

Lemma pendingFile_emit w p q : pendingFile (emit cwd w p) q = pendingFile w q.
Proof. destruct (emit_spec w p) as (Es & Eq & _). unfold pendingFile. by rewrite Es, Eq. Qed.

Lemma pendingFile_enqueue w p q : pendingFile (enqueue w p) q = pendingFile w q.
Proof.
  destruct (enqueue_spec w p) as (_ & _ & Es & [[Eq Hin]|[Eq Hin]]); unfold pendingFile; rewrite Eq;
    apply eq_iff_eq_true; rewrite !orb_true_iff, !bool_decide_eq_true, Es,
      ?elem_of_app, ?list_elem_of_singleton; destruct (decide (q = p)) as [->|]; tauto.
Qed.

Lemma emits_measure w ps : measure (foldl (emit cwd) w ps) = measure w.
Proof.
  revert w. induction ps as [|p ps IH]; intros w; cbn; [done|]. rewrite IH. unfold measure.
  rewrite (pendingWork_ext _ w) by apply pendingFile_emit.
  by destruct (emit_spec w p) as (_ & -> & _).
Qed.

Lemma enqueue_measure w p : measure (enqueue w p) <= S (measure w).
Proof.
  unfold measure. rewrite (pendingWork_ext _ w) by apply pendingFile_enqueue.
  destruct (enqueue_spec w p) as (_ & _ & _ & [[-> _]|[-> _]]); rewrite ?length_app; cbn; lia.
Qed.

Lemma includes_measure w ps : measure (foldl (includeStep cwd) w ps) <= length ps + measure w.
Proof.
  revert w. induction ps as [|p ps IH]; intros w; cbn; [done|].
  etransitivity; [apply IH|]. unfold includeStep.
  assert (H := enqueue_measure (emit cwd w p) (resolve p)).
  assert (E := emits_measure w [p]). cbn in E. lia.
Qed.

(** Taking [cur] off the queue accounts for its own directives. *)
Lemma pendingWork_pop w cur rest (l : list (string * string)) :
  queue w = cur :: rest -> NoDup (queue w) -> cur ∈ scanned w -> NoDup (map fst l) ->
  (forall d, (cur, d) ∈ l -> pendingWork (pop w) l + includeCount (cur, d) = pendingWork w l) /\
  (cur ∉ map fst l -> pendingWork (pop w) l = pendingWork w l).
Proof.
  intros Hq Hnd Hs.
  assert (pendingFile w cur = true) as Hc.
  { unfold pendingFile. rewrite (bool_decide_eq_true_2 (cur ∈ queue w)); [by rewrite orb_true_r|].
    rewrite Hq. set_solver. }
  rewrite Hq in Hnd. apply NoDup_cons in Hnd as [Hni _].
  assert (pendingFile (pop w) cur = false) as Hp.
  { unfold pendingFile, pop. cbn. rewrite Hq. cbn.
    rewrite (bool_decide_eq_false_2 (cur ∉ scanned w)) by set_solver.
    by rewrite bool_decide_eq_false_2. }
  assert (forall p, p <> cur -> pendingFile (pop w) p = pendingFile w p) as Ho.
  { intros p Hne. unfold pendingFile, pop. cbn. rewrite Hq. cbn. f_equal.
    apply bool_decide_ext. set_solver. }
  induction l as [|[k d'] l IH]; [set_solver|]. cbn [map fst]. rewrite NoDup_cons. intros [Hk Hl].
  destruct (IH Hl) as [IH1 IH2]. unfold pendingWork in *. cbn [map sum_list_with fst id].
  destruct (decide (k = cur)) as [->|Hne].
  - rewrite Hc, Hp. split; [|set_solver]. intros d [E|Hin]%elem_of_cons.
    + simplify_eq. rewrite IH2 by done. lia.
    + destruct Hk. apply list_elem_of_fmap. by exists (cur, d).
  - rewrite Ho by done. split.
    + intros d [E|Hin]%elem_of_cons; [congruence|]. specialize (IH1 d Hin). lia.
    + intros Hn. rewrite IH2 by set_solver. done.
Qed.

Lemma walkStep_measure seeds w cur rest :
  queue w = cur :: rest -> WalkInv seeds None w ->
  S (measure (walkStep fs cwd (pop w) cur)) <= measure w.
Proof.
  intros Hq Hw.
  destruct (pendingWork_pop w cur rest (map_to_list fs)) as [H1 H2];
    [done|by eapply inv_queue_nodup|eapply inv_queue_scanned; [done|rewrite Hq; set_solver]
    |apply NoDup_fst_map_to_list|].
  assert (length (queue w) = S (length (queue (pop w)))) as Hlen by (cbn; by rewrite Hq).
  unfold walkStep, scanAssemblyIncludes. destruct (fs !! cur) as [d|] eqn:E.
  - specialize (H1 d ltac:(by apply elem_of_map_to_list)).
    etransitivity; [apply le_n_S, includes_measure|]. rewrite emits_measure.
    unfold measure, includeCount in *. cbn [snd] in H1. lia.
  - assert (cur ∉ map fst (map_to_list fs)) as Hn.
    { intros ([k v] & -> & Hin)%list_elem_of_fmap. apply elem_of_map_to_list in Hin.
      cbn in E. congruence. }
    specialize (H2 Hn). unfold measure. rewrite Hlen, H2. lia.
Qed.

Lemma walk_enough seeds n w :
  WalkInv seeds None w -> measure w <= n ->
  exists w', walk fs cwd n w = Some w' /\ WalkInv seeds None w' /\ queue w' = [] /\
    (forall p, p ∈ scanned w -> p ∈ scanned w').
Proof.
  revert w. induction n as [|n IH]; intros w Hw Hm; cbn [walk].
  - destruct (queue w) eqn:E; [eauto 6|]. unfold measure in Hm. rewrite E in Hm. cbn in Hm. lia.
  - destruct (queue w) as [|cur rest] eqn:E; [eauto 6|].
    assert (Hs := walkStep_measure seeds w cur rest E Hw).
    destruct (walkStep_inv seeds w cur rest E Hw) as [Hi Hsc].
    destruct (IH _ Hi ltac:(lia)) as (w' & ? & ? & ? & ?). eauto 10.
Qed.

Lemma enqueues_inv seeds ds w :
  (forall d, d ∈ ds -> resolve d ∈ seeds) -> WalkInv seeds None w ->
  let w' := foldl (fun w d => enqueue w (resolve d)) w ds in
  WalkInv seeds None w' /\ measure w' <= length ds + measure w /\
  (forall p, p ∈ scanned w \/ p ∈ map resolve ds -> p ∈ scanned w').
Proof.
  revert w. induction ds as [|d ds IH]; intros w Hd Hw; cbn; [set_solver by lia|].
  destruct (IH (enqueue w (resolve d))) as (H1 & H2 & H3); [set_solver| |].
  { apply enqueue_inv; [apply reach_seed; set_solver|by left|done]. }
  assert (Hm := enqueue_measure w (resolve d)).
  destruct (enqueue_spec w (resolve d)) as (_ & _ & Es & _).
  split_and!; [done|lia|]. intros p Hp. apply H3. rewrite Es. set_solver.
Qed.

Lemma seed_inv rootAbs cppDeps :
  let seeds := rootAbs :: map resolve cppDeps in
  WalkInv seeds None (seed cwd rootAbs cppDeps) /\
  measure (seed cwd rootAbs cppDeps) <= closureFuel fs cppDeps /\
  (forall p, p ∈ seeds -> p ∈ scanned (seed cwd rootAbs cppDeps)).
Proof.
  intros seeds. unfold seed. set (w0 := mkWalk ∅ ∅ [] []).
  assert (WalkInv seeds None w0) as H0.
  { split; cbn; try apply NoDup_nil_2; set_solver. }
  destruct (enqueues_inv seeds cppDeps (enqueue w0 rootAbs)) as (H1 & H2 & H3).
  - intros d Hd. unfold seeds. apply elem_of_cons. right. apply list_elem_of_fmap. eauto.
  - apply enqueue_inv; [apply reach_seed; set_solver|by left|done].
  - split_and!; [done| |].
    + etransitivity; [exact H2|]. assert (Hm := enqueue_measure w0 rootAbs).
      unfold closureFuel. assert (measure w0 <= sum_list (map includeCount (map_to_list fs))) as Hw0.
      { unfold measure, pendingWork. cbn [queue w0 length Nat.add].
        induction (map_to_list fs) as [|kv l IHl]; cbn [map sum_list_with id]; [done|].
        destruct (pendingFile w0 kv.1); lia. }
      unfold includeCount in Hw0. lia.
    + intros p [->|Hp]%elem_of_cons; apply H3; [|by right].
      left. destruct (enqueue_spec w0 rootAbs) as (_ & _ & Es & _). rewrite Es. auto.
Qed.

(** A finished walk has visited every reachable file. *)
Lemma reach_scanned seeds w p :
  WalkInv seeds None w -> queue w = [] -> (forall s, s ∈ seeds -> s ∈ scanned w) ->
  reach seeds p -> p ∈ scanned w.
Proof.
  intros Hw Hq Hs. induction 1 as [p Hp|p bins incs i _ IH Hscan Hi]; [auto|].
  eapply (inv_done _ _ _ Hw p bins incs); [done|done|by rewrite Hq; set_solver|done|done].
Qed.
End Facts.

(** The walk ends within its fuel. *)
Lemma closure_total fs cwd rootAbs cppDeps :
  is_Some (scanAssemblyClosure fs cwd rootAbs cppDeps).
Proof.
  destruct (seed_inv fs cwd rootAbs cppDeps) as (Hi & Hm & _).
  destruct (walk_enough fs cwd _ _ _ Hi Hm) as (w & Hw & _).
  unfold scanAssemblyClosure. rewrite Hw. eauto.
Qed.

(** ** The same closure in another place *)

(** The paths in [ps], and those named by a directive of a file so found. *)
Inductive mentioned (fs : gmap string string) (cwd : string) (ps : list string) : string -> Prop :=
  | mentioned_given p : p ∈ ps -> mentioned fs cwd ps p
  | mentioned_directive p data d :
      mentioned fs cwd ps p -> fs !! resolve cwd p = Some data -> d ∈ scanDirectives true 0 data -> mentioned fs cwd ps (directivePath d).

Section Relocate.
  Context (fs1 fs2 : gmap string string) (cwd1 cwd2 : string) (good : string -> Prop).
  Hypothesis (good_agree : forall p q, good p -> good q -> resolve cwd1 p = resolve cwd1 q <-> resolve cwd2 p = resolve cwd2 q).
  Hypothesis (good_content : forall p, good p -> fs1 !! resolve cwd1 p = fs2 !! resolve cwd2 p).
  Hypothesis (good_closed : forall p data d, good p -> fs1 !! resolve cwd1 p = Some data -> d ∈ scanDirectives true 0 data -> good (directivePath d)).

(** Two walks that hold the resolutions of the same paths. *)
Record alike (sc em qu : list string) (w1 w2 : Walk) : Prop := {
  al_scanned : scanned w1 = list_to_set (map (resolve cwd1) sc) /\ scanned w2 = list_to_set (map (resolve cwd2) sc);
  al_emitted : emitted w1 = list_to_set (map (resolve cwd1) em) /\ emitted w2 = list_to_set (map (resolve cwd2) em);
  al_queue : queue w1 = map (resolve cwd1) qu /\ queue w2 = map (resolve cwd2) qu;
  al_out : out w1 = out w2;
  al_good : Forall good sc /\ Forall good em /\ Forall good qu /\ Forall good (out w1)
}.
Definition inStep (w1 w2 : Walk) : Prop := exists sc em qu, alike sc em qu w1 w2.

Lemma resolved_mem l p : good p -> Forall good l ->
  resolve cwd1 p ∈ (list_to_set (map (resolve cwd1) l) : gset string) <-> resolve cwd2 p ∈ (list_to_set (map (resolve cwd2) l) : gset string).
Proof using good_agree.
  intros Hp Hl. rewrite !elem_of_list_to_set, !list_elem_of_fmap. rewrite Forall_forall in Hl.
  split; intros (q & E & Hq); exists q; (split; [|done]); by apply (good_agree p q); auto.
Qed.

Lemma enqueue_inStep w1 w2 p : good p -> inStep w1 w2 -> inStep (enqueue w1 (resolve cwd1 p)) (enqueue w2 (resolve cwd2 p)).
Proof using good_agree.
  intros Hp (sc & em & qu & [[S1 S2] E [Q1 Q2] O (G1 & G2 & G3 & G4)]). unfold enqueue. rewrite S1, S2.
  pose proof (resolved_mem sc p Hp G1) as Hm. case_decide as H1; case_decide as H2; [exists sc, em, qu; by split|tauto|tauto|].
  exists (p :: sc), em, (qu ++ [p]). split; cbn; [done|done| |done|]; [rewrite !map_app, Q1, Q2; done|].
  split_and!; [by constructor|done|apply Forall_app; split; [done|by constructor]|done].
Qed.

Lemma emit_inStep w1 w2 p : good p -> inStep w1 w2 -> inStep (emit cwd1 w1 p) (emit cwd2 w2 p).
Proof using good_agree.
  intros Hp (sc & em & qu & [S [E1 E2] Q O (G1 & G2 & G3 & G4)]). unfold emit. rewrite E1, E2.
  pose proof (resolved_mem em p Hp G2) as Hm. case_decide as H1; case_decide as H2; [exists sc, em, qu; by split|tauto|tauto|].
  exists sc, (p :: em), qu. split; cbn; [done|done|done|by rewrite O|].
  split_and!; [done|by constructor|done|apply Forall_app; split; [done|by constructor]].
Qed.

Lemma fold_inStep (f1 f2 : Walk -> string -> Walk) l : (forall w1 w2 p, good p -> inStep w1 w2 -> inStep (f1 w1 p) (f2 w2 p)) ->
  Forall good l -> forall w1 w2, inStep w1 w2 -> inStep (foldl f1 w1 l) (foldl f2 w2 l).
Proof. intros Hf. induction 1 as [|p l Hp _ IH]; intros w1 w2 Hw; [done|]. cbn. auto. Qed.

Lemma walkStep_inStep w1 w2 p : good p -> inStep w1 w2 ->
  inStep (walkStep fs1 cwd1 w1 (resolve cwd1 p)) (walkStep fs2 cwd2 w2 (resolve cwd2 p)).
Proof using All.
  intros Hp Hw. unfold walkStep, scanAssemblyIncludes. rewrite <- good_content by done.
  destruct (fs1 !! resolve cwd1 p) as [data|] eqn:E; [|done].
  assert (forall d, d ∈ scanDirectives true 0 data -> good (directivePath d)) as Hd by (intros d; by eapply good_closed).
  apply fold_inStep; [| |apply fold_inStep; [apply emit_inStep| |done]].
  - intros u1 u2 q Hq Hu. by apply enqueue_inStep, emit_inStep.
  - apply Forall_forall. intros q ([b|i] & Hin & Hq)%list_elem_of_omap; [done|]. injection Hq as <-. by apply (Hd (Include i)).
  - apply Forall_forall. intros q ([b|i] & Hin & Hq)%list_elem_of_omap; [|done]. injection Hq as <-. by apply (Hd (Incbin b)).
Qed.

Lemma walk_inStep n1 n2 w1 w2 v1 v2 : inStep w1 w2 -> walk fs1 cwd1 n1 w1 = Some v1 -> walk fs2 cwd2 n2 w2 = Some v2 ->
  out v1 = out v2 /\ Forall good (out v1).
Proof using All.
  revert n2 w1 w2. induction n1 as [|n1 IH]; intros n2 w1 w2 Hw H1 H2.
  all: destruct Hw as (sc & em & qu & Ha); pose proof (al_queue _ _ _ _ _ Ha) as [Q1 Q2]; pose proof (al_good _ _ _ _ _ Ha) as (G1 & G2 & G3 & G4).
  all: destruct n2; cbn [walk] in H1, H2; rewrite Q1 in H1; rewrite Q2 in H2; destruct qu as [|p qu]; cbn [map] in H1, H2; try done.
  all: try (injection H1 as <-; injection H2 as <-; split; [by eapply al_out|done]).
  apply Forall_cons in G3 as [Gp G3]. eapply IH; [|exact H1|exact H2]. apply walkStep_inStep; [done|].
  exists sc, em, qu. destruct Ha as [S E Q O G]. split; cbn; [done|done|by rewrite Q1, Q2|done|done].
Qed.

(** The closure is spelled the same in both places. *)
Lemma closure_relocates i deps : good i -> Forall good deps ->
  scanAssemblyClosure fs2 cwd2 (resolve cwd2 i) deps = scanAssemblyClosure fs1 cwd1 (resolve cwd1 i) deps /\
  exists l, scanAssemblyClosure fs1 cwd1 (resolve cwd1 i) deps = Some l /\ Forall good l.
Proof using All.
  intros Hi Hd. destruct (closure_total fs1 cwd1 (resolve cwd1 i) deps) as [l1 E1], (closure_total fs2 cwd2 (resolve cwd2 i) deps) as [l2 E2].
  rewrite E1, E2. unfold scanAssemblyClosure in E1, E2.
  apply fmap_Some in E1 as (v1 & E1 & ->), E2 as (v2 & E2 & ->).
  assert (inStep (seed cwd1 (resolve cwd1 i) deps) (seed cwd2 (resolve cwd2 i) deps)) as Hs.
  { unfold seed. apply fold_inStep; [intros w1 w2 p; apply enqueue_inStep|done|]. apply enqueue_inStep; [done|].
    exists [], [], []. split; cbn; try done. }
  destruct (walk_inStep _ _ _ _ _ _ Hs E1 E2) as [-> G]. eauto.
Qed.
End Relocate.

(** ** Properties *)

(** C37: the assembler closure always terminates with a result, even on
    circular includes, and the result is exact: up to resolution against the
    working directory it lists, once each, the paths named by an [.incbin] or
    [.include] directive in some file reachable from the source or the
    preprocessor's dependencies through [.include]. *)
Theorem scanAssemblyClosure_exact (fs : gmap string string) (cwd rootAbs : string)
    (cppDeps : list string) :
  let seeds := rootAbs :: map (resolve cwd) cppDeps in
  exists out, scanAssemblyClosure fs cwd rootAbs cppDeps = Some out /\
    NoDup (map (resolve cwd) out) /\
    (forall x, x ∈ out -> named fs cwd seeds x) /\
    (forall x, named fs cwd seeds x -> resolve cwd x ∈ map (resolve cwd) out).
Proof.
  intros seeds. destruct (seed_inv fs cwd rootAbs cppDeps) as (Hi & Hm & Hs).
  destruct (walk_enough fs cwd seeds _ _ Hi Hm) as (w & Hw & Hinv & Hq & Hsc).
  exists (out w). unfold scanAssemblyClosure. rewrite Hw. split_and!; [done| | |].
  - by eapply inv_out_nodup.
  - intros x. by eapply inv_out_named.
  - intros x (p & bins & incs & Hr & Hscan & Hx).
    assert (p ∈ scanned w) as Hp by (eapply reach_scanned; eauto).
    rewrite <- (inv_emitted _ _ _ _ _ Hinv).
    eapply (inv_done _ _ _ _ _ Hinv p bins incs); [done|done|by rewrite Hq; set_solver|done|done].
Qed.
