(* ===== verification/Manifest.v ===== *)
(** * Manifest: source-closure manifests ([internal/compiler/manifest.go])
    and the derivation of the cache key ([invocation.go]).

    Files are a finite map from the path given to [os.Open] to the bytes;
    [exists p] is whether [os.Stat] succeeds and [getwd] is [os.Getwd].
    [blake3] stands for [blake3.Sum256] of a third-party package: no property
    of it is assumed. *)

From S2P Require Import Prelude GoStrings GoPath Enum Grammar Invocation Parser CacheKey.
From S2P Require Import Preprocess AsmClosure.

Definition projectMarkerFile : string := ".hpcc".

(** ** Path normalization *)

Definition extPrefix : string := "\\?\".
Definition uncExtPrefix : string := "\\?\UNC\".

Definition stripExtendedLengthPrefix (p : string) : string :=
  if hasPrefix p uncExtPrefix then "\\" +:+ sdrop (slen uncExtPrefix) p
  else if hasPrefix p extPrefix then sdrop (slen extPrefix) p
  else p.

Definition rejectUNC (p what : string) : result unit :=
  let stripped := stripExtendedLengthPrefix p in
  if negb (hasPrefix stripped "\\") then Ok tt
  else if hasPrefix stripped extPrefix then Ok tt
  else Err ("UNC " +:+ what +:+ " " +:+ p +:+ " is not supported").

Definition normalizeManifestPath (getwd : result string) (p projectRoot : string) : result string :=
  let! _ := rejectUNC p "input path" in
  if String.eqb projectRoot "" then Ok p
  else match abs getwd p with
  | Err _ => Ok p
  | Ok absP =>
      let absP := stripExtendedLengthPrefix absP in
      let root := stripExtendedLengthPrefix projectRoot in
      let! _ := rejectUNC absP "input path" in
      let! _ := rejectUNC root "project root" in
      match rel root absP with
      | Err _ => Ok p
      | Ok r => if String.eqb r ".." || hasPrefix r "../" then Ok p else Ok (toSlash r)
      end
  end.

(** ** Project root *)

(** The loop of [FindProjectRoot]. *)
Fixpoint findUp (exists_ : string -> bool) (fuel : nat) (d : string) : option string :=
  match fuel with
  | 0 => None
  | S n =>
      if exists_ (join [d; projectMarkerFile]) then Some d
      else
        let parent := dir d in
        if String.eqb parent d then Some "" else findUp exists_ n parent
  end.

(** [FindProjectRoot(startDir)]; a path has fewer elements than bytes, so
    its length is fuel enough. *)
Definition FindProjectRoot (exists_ : string -> bool) (getwd : result string) (startDir : string)
    : option string :=
  match abs getwd startDir with
  | Err _ => Some ""
  | Ok d => findUp exists_ (slen d) d
  end.

(** ** Manifests *)

Record BlobRef := mkBlobRef {
  blobPath : string;
  blobDigest : string;
  blobSize : Z
}.
#[global] Instance BlobRef_eq_dec : EqDecision BlobRef.
Proof. solve_decision. Defined.

Record Manifest := mkManifest {
  manifestDigest : string;
  manifestBlobs : list BlobRef
}.

Definition isAssemblySource (p : string) : bool :=
  String.eqb (ext p) ".s" || String.eqb (ext p) ".S".

(** [asciiLower]; the early return for a string without upper-case letters
    has the same result. *)
Definition asciiLower (s : string) : string := toLower s.

(** The bytes one blob contributes to the manifest digest. *)
Definition blobEncoding (b : BlobRef) : string :=
  let folded := asciiLower (blobPath b) in
  be_bytes 8 (Z.of_nat (slen folded)) +:+ folded +:+ blobDigest b.

Fixpoint manifestPreimage (blobs : list BlobRef) : string :=
  match blobs with
  | [] => ""
  | b :: rest => blobEncoding b +:+ manifestPreimage rest
  end.

(** The order [BuildManifest] sorts by. *)
Definition blobPathLe (a b : BlobRef) : Prop := sle (blobPath a) (blobPath b).
#[global] Instance blobPathLe_dec : RelDecision blobPathLe.
Proof. intros a b. unfold blobPathLe. apply _. Defined.

(** The paths of [inputs] then [deps], each once, first occurrence kept. *)
Fixpoint dedupFrom (seen : list string) (ps : list string) : list string :=
  match ps with
  | [] => []
  | p :: rest =>
      if existsb (String.eqb p) seen then dedupFrom seen rest
      else p :: dedupFrom (p :: seen) rest
  end.

(** Evaluate [f] on each element, left to right, stopping at the first
    error. *)
Fixpoint mapR {A B} (f : A -> result B) (l : list A) : result (list B) :=
  match l with
  | [] => Ok []
  | a :: rest => let! b := f a in let! bs := mapR f rest in Ok (b :: bs)
  end.

Section Build.
  Context (blake3 : string -> string) (fs : gmap string string)
    (exists_ : string -> bool) (getwd : result string).

Definition AggregateManifestDigest (blobs : list BlobRef) : string :=
  blake3 (manifestPreimage blobs).

Definition hashFileBlob (path : string) : result BlobRef :=
  match fs !! path with
  | None => Err ("open " +:+ path)
  | Some data => Ok (mkBlobRef path (blake3 data) (Z.of_nat (slen data)))
  end.

(** A path as opened: relative ones against [inv.Cwd]. *)
Definition inCwd (inv : Invocation) (p : string) : string :=
  if negb (isAbs p) && negb (String.eqb (Cwd inv) "") then join [Cwd inv; p] else p.

(** The loop over the inputs that adds the assembler closure. *)
Fixpoint addAssembly (inv : Invocation) (inputs deps : list string) : option (list string) :=
  match inputs with
  | [] => Some deps
  | i :: rest =>
      if negb (isAssemblySource i) then addAssembly inv rest deps
      else match scanAssemblyClosure fs (Cwd inv) (inCwd inv i) deps with
      | Some more => addAssembly inv rest (deps ++ more)
      | None => None
      end
  end.

(** The body of the loop that builds [blobs]. *)
Definition buildBlob (inv : Invocation) (projectRoot p : string) : result BlobRef :=
  let full := inCwd inv p in
  let! ref := hashFileBlob full in
  let! normalized := wrapErr ("normalize " +:+ full)
                       (normalizeManifestPath getwd full projectRoot) in
  Ok (mkBlobRef normalized (blobDigest ref) (blobSize ref)).

(** [BuildManifest] after dependency discovery; [None] would be a loop that
    does not end. *)
Definition manifestOf (inv : Invocation) (deps : list string) : option (result Manifest) :=
  match addAssembly inv (Inputs inv) deps with
  | None => None
  | Some deps =>
      let paths := dedupFrom [] (Inputs inv ++ deps) in
      let root := if String.eqb (Cwd inv) "" then Some ""
                  else FindProjectRoot exists_ getwd (Cwd inv) in
      match root with
      | None => None
      | Some projectRoot => Some (
          let! blobs := mapR (buildBlob inv projectRoot) paths in
          let blobs := isort blobPathLe blobs in
          Ok (mkManifest (AggregateManifestDigest blobs) blobs))
      end
  end.

(** [BuildManifest(inv, ctx)], [findDeps] being
    [ctx.Compiler.FindDependencies]. *)
Definition BuildManifest (findDeps : Invocation -> result (list string)) (inv : Invocation)
    : option (result Manifest) :=
  if bool_decide (Inputs inv = []) then Some (Err "no input files in invocation")
  else match wrapErr "find dependencies" (findDeps inv) with
  | Err e => Some (Err e)
  | Ok deps => manifestOf inv deps
  end.

(** ** The cache key *)

(** What [CacheKeyWithManifest] reads of the context: the configured source
    mode, the identity override and the compiler's operations. *)
Record KeyContext := mkKeyContext {
  ctxSourceMode : Z;
  ctxIdentityOverride : option string;
  ctxIdentity : result string;
  ctxPreprocess : Invocation -> result PreprocessResult;
  ctxFindDependencies : Invocation -> result (list string)
}.

(** The source digest the [switch] chooses, and the manifest when one was
    built. *)
Definition keySource (inv : Invocation) (ctx : KeyContext)
    : option (result (string * option Manifest)) :=
  match ManifestDigest inv, PreprocessedDigest inv with
  | Some d, _ => Some (Ok (d, None))
  | None, Some d => Some (Ok (d, None))
  | None, None =>
      if (ctxSourceMode ctx =? SourceModePreprocessed)%Z then
        Some (let! res := ctxPreprocess ctx inv in
              if negb (ppExitCode res =? 0)%Z then Err ("preprocessor exit: " +:+ ppStderr res)
              else Ok (ppDigest res, None))
      else rmap (fun m => (manifestDigest m, Some m)) <$> BuildManifest (ctxFindDependencies ctx) inv
  end.

Definition CacheKeyWithManifest (inv : Invocation) (ctx : KeyContext)
    : option (result (string * option Manifest)) :=
  if bool_decide (Inputs inv = []) then Some (Err "no input files in invocation")
  else
    match (match ctxIdentityOverride ctx with
           | Some id => Ok id
           | None => wrapErr "get compiler identity" (ctxIdentity ctx)
           end) with
    | Err e => Some (Err e)
    | Ok identity =>
        (fun r => let! s := r in
                  Ok (blake3 (keyPreimage s.1 identity inv), s.2)) <$> keySource inv ctx
    end.

(** [CacheKey] drops the manifest. *)
Definition CacheKey (inv : Invocation) (ctx : KeyContext) : option (result string) :=
  rmap fst <$> CacheKeyWithManifest inv ctx.
End Build.

(** ** Encoding: facts *)

Definition blobView (b : BlobRef) : string * string := (asciiLower (blobPath b), blobDigest b).

(** Digests are 32 bytes and paths shorter than 2^64. *)
Definition blobOk (b : BlobRef) : Prop :=
  slen (blobDigest b) = 32 /\ (Z.of_nat (slen (blobPath b)) < 2 ^ 64)%Z.

Lemma blobEncoding_inj a b r1 r2 :
  blobOk a -> blobOk b -> blobEncoding a +:+ r1 = blobEncoding b +:+ r2 ->
  blobView a = blobView b /\ r1 = r2.
Proof.
  intros [Ha1 Ha2] [Hb1 Hb2]. unfold blobEncoding, blobView, asciiLower. rewrite !sapp_assoc.
  intros H. apply sapp_inj_len in H as [Hl H]; [|by rewrite !slen_be_bytes].
  apply be_bytes_inj in Hl; [|rewrite slen_toLower; lia..].
  apply sapp_inj_len in H as [Hp H]; [|lia].
  apply sapp_inj_len in H as [Hd H]; [|lia]. split; congruence.
Qed.

Lemma blobEncoding_ne a : blobEncoding a <> "".
Proof.
  intros H. apply (f_equal slen) in H. unfold blobEncoding in H.
  rewrite !slen_app, slen_be_bytes in H. simpl in H. lia.
Qed.

Lemma manifestPreimage_inj l1 l2 :
  Forall blobOk l1 -> Forall blobOk l2 ->
  manifestPreimage l1 = manifestPreimage l2 -> map blobView l1 = map blobView l2.
Proof.
  intros H1. revert l2. induction H1 as [|a l1 Ha _ IH]; intros [|b l2] H2 H;
    cbn [manifestPreimage map] in *.
  - done.
  - symmetry in H. apply sapp_eq_nil in H as [H _]. by apply blobEncoding_ne in H.
  - apply sapp_eq_nil in H as [H _]. by apply blobEncoding_ne in H.
  - apply Forall_cons in H2 as [Hb H2].
    apply blobEncoding_inj in H as [-> H]; [|done..]. f_equal. auto.
Qed.

Lemma manifestPreimage_view l1 l2 :
  map blobView l1 = map blobView l2 -> manifestPreimage l1 = manifestPreimage l2.
Proof.
  revert l2. induction l1 as [|a l1 IH]; intros [|b l2] H; cbn [map] in H; try done.
  assert (blobView a = blobView b) as Hv by congruence.
  assert (map blobView l1 = map blobView l2) as Hl by congruence.
  cbn [manifestPreimage]. rewrite (IH l2 Hl). f_equal.
  unfold blobView in Hv. injection Hv as Hp Hd. unfold blobEncoding. by rewrite Hp, Hd.
Qed.

(** ** Project root: facts *)

(** The ancestors of a directory given by its components, itself first. *)
Fixpoint ancestorsRev (rcs : list string) : list string :=
  absOf (rev rcs) :: match rcs with [] => [] | _ :: r => ancestorsRev r end.
Definition ancestors (cs : list string) : list string := ancestorsRev (rev cs).

Lemma findUp_spec exists_ n rcs :
  Forall proper rcs -> length rcs < n ->
  findUp exists_ n (absOf (rev rcs))
  = Some (default "" (List.find (fun d => exists_ (join [d; projectMarkerFile])) (ancestorsRev rcs))).
Proof.
  revert rcs. induction n as [|n IH]; intros rcs Hp Hn; [lia|].
  cbn [findUp]. destruct rcs as [|c rcs].
  - cbn [rev ancestorsRev List.find]. change (absOf []) with "/".
    destruct (exists_ (join ["/"; projectMarkerFile])); [done|].
    by rewrite dir_root, String.eqb_refl.
  - cbn [ancestorsRev List.find].
    destruct (exists_ (join [absOf (rev (c :: rcs)); projectMarkerFile])); [done|].
    apply Forall_cons in Hp as [Hc Hp]. cbn [rev].
    rewrite dir_absOf_snoc by (try apply Forall_rev; done).
    destruct (String.eqb_spec (absOf (rev rcs)) (absOf (rev rcs ++ [c]))) as [E|_].
    + apply absOf_inj in E; [|by apply Forall_rev|].
      * apply (f_equal length) in E. rewrite length_app in E. cbn in E. lia.
      * apply Forall_app. split; [by apply Forall_rev|by constructor].
    + apply IH; [done|]. cbn in Hn. lia.
Qed.

Lemma findUp_absOf exists_ cs :
  Forall proper cs ->
  findUp exists_ (slen (absOf cs)) (absOf cs)
  = Some (default "" (List.find (fun d => exists_ (join [d; projectMarkerFile]))
                       (ancestorsRev (rev cs)))).
Proof.
  intros H. rewrite <- findUp_spec with (n := slen (absOf cs)).
  - by rewrite rev_involutive.
  - by apply Forall_rev.
  - rewrite length_rev. by apply absOf_slen.
Qed.

Lemma abs_shape getwd p d :
  (forall wd, getwd = Ok wd -> isAbs wd = true) -> abs getwd p = Ok d ->
  exists cs, Forall proper cs /\ d = absOf cs.
Proof.
  unfold abs. intros Hwd. destruct (isAbs p) eqn:Ep.
  - intros H. inv_ok. apply clean_abs_shape in Ep as (cs & ? & ->). eauto.
  - destruct getwd as [wd|]; [|done]. cbn [rbind join]. specialize (Hwd wd eq_refl).
    destruct (String.eqb_spec wd "") as [->|_]; [done|]. intros [= <-].
    apply (clean_abs_shape (joinWith "/" [wd; p])).
    cbn [joinWith]. apply hasPrefix_spec in Hwd as [r ->]. rewrite sapp_assoc. apply hasPrefix_app.
Qed.

(** ** Normalization: facts *)

Lemma isAbs_no_unc p : isAbs p = true ->
  stripExtendedLengthPrefix p = p /\ forall what, rejectUNC p what = Ok tt.
Proof.
  intros [r ->]%hasPrefix_spec. split; [done|]. intros what. done.
Qed.

Lemma joinWith_updir n tr :
  let r := joinWith "/" (repeat ".." (S n) ++ tr) in
  String.eqb r ".." || hasPrefix r "../" = true.
Proof.
  cbn [repeat app]. destruct (repeat ".." n ++ tr) as [|x l] eqn:E; [done|].
  rewrite joinWith_cons by done. apply orb_true_iff. right.
  rewrite <- sapp_assoc. apply (hasPrefix_app "../").
Qed.

Lemma joinWith_inside t tr :
  proper t -> let r := joinWith "/" (t :: tr) in
  String.eqb r ".." || hasPrefix r "../" = false.
Proof.
  intros (Hne & _ & Hdd & Hns). cbn zeta. apply orb_false_iff.
  destruct (decide (tr = [])) as [->|Htr].
  - cbn [joinWith]. split; [by apply String.eqb_neq|].
    destruct (hasPrefix t "../") eqn:E; [|done].
    apply hasPrefix_spec in E as [r ->]. done.
  - rewrite joinWith_cons by done. change ("/" +:+ ?x) with (String slash x). split.
    + apply String.eqb_neq. intros E. apply (f_equal (fun s => containsByte s slash)) in E.
      rewrite containsByte_app in E. cbn in E. rewrite orb_true_r in E. done.
    + destruct (hasPrefix _ "../") eqn:E; [|done].
      apply hasPrefix_spec in E as [r E].
      change ("../" +:+ r) with (".." +:+ String slash r) in E.
      by apply sep_inj in E as [? _].
Qed.

Lemma normalize_abs getwd p rs cs :
  Forall proper rs -> Forall proper cs -> isAbs p = true -> clean p = absOf cs ->
  normalizeManifestPath getwd p (absOf rs)
  = Ok (if decide (cs = rs) then "."
        else match stripCommon rs cs with
             | ([], tr) => joinWith "/" tr
             | (_ :: _, _) => p
             end).
Proof.
  intros Hr Hc Hp Ecl. unfold normalizeManifestPath.
  rewrite (proj2 (isAbs_no_unc p Hp)). cbn [rbind].
  change (String.eqb (absOf rs) "") with false. cbn iota. unfold abs. rewrite Hp, Ecl.
  destruct (isAbs_no_unc (absOf cs) (isAbs_absOf cs)) as [-> Hu].
  destruct (isAbs_no_unc (absOf rs) (isAbs_absOf rs)) as [-> Hu'].
  rewrite Hu, Hu'. cbn [rbind]. rewrite rel_absOf by done.
  case_decide as E; [done|]. destruct (stripCommon rs cs) as [br tr] eqn:Es.
  destruct br as [|b br].
  - cbn [length repeat app]. apply stripCommon_spec in Es as (pre & -> & ->).
    rewrite app_nil_r in *. destruct tr as [|t tr]; [by rewrite app_nil_r in E|].
    apply Forall_app in Hc as [_ Hc]. inversion Hc; subst.
    by rewrite joinWith_inside.
  - cbn [length]. assert (H := joinWith_updir (length br) tr). cbn zeta in H. by rewrite H.
Qed.

(** ** Building: facts *)

Lemma dedupFrom_spec seen ps :
  NoDup (dedupFrom seen ps) /\ forall x, x ∈ dedupFrom seen ps <-> x ∈ ps /\ x ∉ seen.
Proof.
  revert seen. induction ps as [|p ps IH]; intros seen; cbn [dedupFrom].
  - split; [apply NoDup_nil_2|set_solver].
  - destruct (existsb (String.eqb p) seen) eqn:E.
    + destruct (IH seen) as [H1 H2]. split; [done|]. intros x. rewrite H2.
      apply existsb_exists in E as (y & Hy%list_elem_of_In & <-%String.eqb_eq). set_solver.
    + destruct (IH (p :: seen)) as [H1 H2].
      assert (p ∉ seen) as Hp.
      { intros Hin%list_elem_of_In. rewrite <- not_true_iff_false, existsb_exists in E.
        apply E. exists p. by rewrite String.eqb_refl. }
      split; [constructor; [|done]; rewrite H2; set_solver|].
      intros x. rewrite elem_of_cons, H2. destruct (decide (x = p)); set_solver.
Qed.

Lemma mapR_spec {A B} (f : A -> result B) l bs :
  mapR f l = Ok bs <-> Forall2 (fun a b => f a = Ok b) l bs.
Proof.
  split.
  - revert bs. induction l as [|a l IH]; intros bs H; cbn in H; inv_ok; constructor; auto.
  - induction 1 as [|a b l bs Ha _ IH]; cbn; [done|]. rewrite Ha. cbn. by rewrite IH.
Qed.

Lemma Forall2_lookup_r_elem {A B} {R : A -> B -> Prop} {l k} :
  Forall2 R l k -> forall b, b ∈ k -> exists a, a ∈ l /\ R a b.
Proof. induction 1 as [|a b l k H _ IH]; intros x Hx; [set_solver|]. set_solver. Qed.

Lemma Forall2_lookup_l_elem {A B} {R : A -> B -> Prop} {l k} :
  Forall2 R l k -> forall a, a ∈ l -> exists b, b ∈ k /\ R a b.
Proof. induction 1 as [|a b l k H _ IH]; intros x Hx; [set_solver|]. set_solver. Qed.

Lemma mapR_perm {A B} (f : A -> result B) l1 l2 bs1 :
  l1 ≡ₚ l2 -> mapR f l1 = Ok bs1 -> exists bs2, mapR f l2 = Ok bs2 /\ bs1 ≡ₚ bs2.
Proof.
  intros Hp H. apply mapR_spec in H.
  destruct (Permutation_Forall2 Hp H) as (bs2 & Hb & Hf).
  exists bs2. split; [by apply mapR_spec|done].
Qed.

Lemma mapR_ext {A B} (f g : A -> result B) l bs :
  (forall a b, a ∈ l -> f a = Ok b -> g a = Ok b) -> mapR f l = Ok bs -> mapR g l = Ok bs.
Proof.
  intros H Hf. apply mapR_spec in Hf. apply mapR_spec.
  induction Hf as [|a b l bs Ha Hf IH]; constructor; [apply H; set_solver|].
  apply IH. intros; apply H; set_solver.
Qed.

#[global] Instance blobPathLe_trans : Transitive blobPathLe.
Proof. unfold blobPathLe. intros ???. apply sle_trans. Qed.
#[global] Instance blobPathLe_total : Total blobPathLe.
Proof. unfold blobPathLe. intros ??. apply (total sle). Qed.

Lemma isort_blobs l1 l2 :
  l1 ≡ₚ l2 -> (forall a b, a ∈ l1 -> b ∈ l1 -> blobPath a = blobPath b -> a = b) ->
  isort blobPathLe l1 = isort blobPathLe l2.
Proof.
  intros Hp Hu. eapply sorted_unique; [| apply isort_Sorted; apply _..|].
  - intros x y Hx Hy H1 H2. rewrite isort_Permutation in Hx, Hy.
    apply Hu; [done..|]. by apply sle_antisym.
  - by rewrite !isort_Permutation.
Qed.

Lemma addAssembly_none fs inv inputs deps :
  forallb (fun i => negb (isAssemblySource i)) inputs = true ->
  addAssembly fs inv inputs deps = Some deps.
Proof.
  induction inputs as [|i inputs IH]; [done|]. cbn [forallb addAssembly].
  intros [Hi H]%andb_true_iff. rewrite Hi. auto.
Qed.

Lemma inCwd_abs inv p : isAbs (Cwd inv) = true -> isAbs (inCwd inv p) = true.
Proof.
  intros Hc. unfold inCwd. destruct (isAbs p) eqn:Ep; [done|]. cbn [negb andb].
  destruct (String.eqb_spec (Cwd inv) "") as [E|E]; [by rewrite E in Hc|]. cbn [negb].
  destruct (abs_shape (Ok (Cwd inv)) p (join [Cwd inv; p])) as (cs & _ & ->);
    [by intros ? [= <-]|unfold abs; by rewrite Ep|apply isAbs_absOf].
Qed.

(** A root that [FindProjectRoot] can return. *)
Definition rootShape (root : string) : Prop :=
  root = "" \/ exists rs, Forall proper rs /\ root = absOf rs.

Lemma FindProjectRoot_shape exists_ getwd d root :
  (forall wd, getwd = Ok wd -> isAbs wd = true) ->
  FindProjectRoot exists_ getwd d = Some root -> rootShape root.
Proof.
  unfold FindProjectRoot. intros Hwd. destruct (abs getwd d) as [a|] eqn:Ea.
  2:{ intros [= <-]. by left. }
  destruct (abs_shape _ _ _ Hwd Ea) as (cs & Hcs & ->).
  rewrite findUp_absOf by done. intros [= <-].
  assert (forall rcs, Forall proper rcs -> rootShape (default "" (List.find
    (fun d0 => exists_ (join [d0; projectMarkerFile])) (ancestorsRev rcs)))) as H.
  { induction 1 as [|c rcs Hc Hr IH]; cbn [ancestorsRev List.find].
    - destruct (exists_ _); [right; exists []; done|by left].
    - destruct (exists_ _); [|done]. right. exists (rev (c :: rcs)).
      split; [apply Forall_rev; by constructor|done]. }
  apply H. by apply Forall_rev.
Qed.

Lemma stripCommon_inside rs cs tr :
  Forall proper cs -> cs <> rs -> stripCommon rs cs = ([], tr) ->
  cs = rs ++ tr /\ Forall proper tr /\ tr <> [].
Proof.
  intros Hcs Hne Hs. apply stripCommon_spec in Hs as (pre & E1 & E2).
  rewrite app_nil_r in E1. subst. apply Forall_app in Hcs as [_ Ht]. split_and!; [done|done|].
  intros ->. by rewrite app_nil_r in Hne.
Qed.

(** A project-relative manifest path is neither absolute nor a dot. *)
Lemma joinWith_relative tr :
  Forall proper tr -> tr <> [] -> isAbs (joinWith "/" tr) = false /\ joinWith "/" tr <> ".".
Proof.
  intros Ht Hne. destruct tr as [|t tr]; [done|].
  inversion Ht as [|?? (Ha & Hb & _ & Hd)]; subst.
  destruct t as [|c t]; [done|]. cbn [containsByte] in Hd. apply orb_false_iff in Hd as [Hd Hd'].
  assert (forall x, isAbs (String c t +:+ x) = false) as Habs.
  { intros x. unfold isAbs. cbn [hasPrefix String.append].
    unfold slash in Hd. by rewrite Ascii.eqb_sym, Hd. }
  destruct (decide (tr = [])) as [->|Hn].
  - cbn [joinWith]. split; [|done]. rewrite <- (sapp_nil_r (String c t)). apply Habs.
  - rewrite joinWith_cons by done. split; [apply Habs|].
    intros E. apply (f_equal (fun s => containsByte s slash)) in E.
    rewrite !containsByte_app in E. cbn in E. by rewrite !orb_true_r in E.
Qed.

(** Two absolute files listed under one manifest path are spellings of one
    path. *)
Lemma normalize_path_inj getwd root p q r :
  rootShape root -> isAbs p = true -> isAbs q = true ->
  normalizeManifestPath getwd p root = Ok r -> normalizeManifestPath getwd q root = Ok r ->
  clean p = clean q.
Proof.
  intros Hroot Hp Hq H1 H2. destruct Hroot as [->|(rs & Hrs & ->)].
  { unfold normalizeManifestPath in H1, H2.
    rewrite (proj2 (isAbs_no_unc p Hp)) in H1. rewrite (proj2 (isAbs_no_unc q Hq)) in H2.
    cbn in H1, H2. congruence. }
  destruct (clean_abs_shape p Hp) as (cp & Hcp & Ep), (clean_abs_shape q Hq) as (cq & Hcq & Eq).
  rewrite (normalize_abs getwd p rs cp) in H1 by done.
  rewrite (normalize_abs getwd q rs cq) in H2 by done.
  rewrite <- H2 in H1. injection H1 as H1. clear H2. rewrite Ep, Eq. f_equal.
  destruct (stripCommon rs cp) as [[|b br] tr] eqn:Es, (stripCommon rs cq) as [[|b' br'] tr'] eqn:Es';
    repeat case_decide; subst; try done;
    repeat match goal with
    | E : stripCommon rs ?c = ([], ?t), N : ?c <> rs, F : Forall proper ?c |- _ =>
        destruct (stripCommon_inside rs c t F N E) as (-> & ? & ?); clear E;
        destruct (joinWith_relative t) as [? ?]; [done|done|]
    end; try done; try congruence.
  - f_equal. apply (f_equal (splitOn slash)) in H1.
    by rewrite !(splitOn_joinWith slash) in H1 by (done || by apply proper_noslash).
  - rewrite Ep in Eq. by apply absOf_inj in Eq.
Qed.

(** Different spellings of one path, among the paths at hand, open the same
    file. *)
Definition spellingsAgree (fs : gmap string string) (inv : Invocation) (ps : list string) : Prop :=
  forall p q, p ∈ ps -> q ∈ ps -> clean (inCwd inv p) = clean (inCwd inv q) ->
    fs !! inCwd inv p = fs !! inCwd inv q.

Lemma buildBlob_unique blake3 fs getwd inv root ps p q a b :
  rootShape root -> isAbs (Cwd inv) = true -> spellingsAgree fs inv ps -> p ∈ ps -> q ∈ ps ->
  buildBlob blake3 fs getwd inv root p = Ok a -> buildBlob blake3 fs getwd inv root q = Ok b ->
  blobPath a = blobPath b -> a = b.
Proof.
  intros Hr Hc Hs Hp Hq Ha Hb E. unfold buildBlob, hashFileBlob in Ha, Hb.
  destruct (fs !! inCwd inv p) as [dp|] eqn:Ep; [|done].
  destruct (fs !! inCwd inv q) as [dq|] eqn:Eq; [|done].
  cbn [rbind] in Ha, Hb. inv_ok. cbn [blobPath] in E. subst.
  assert (clean (inCwd inv p) = clean (inCwd inv q)) as Ecl
    by (eapply normalize_path_inj; eauto using inCwd_abs).
  specialize (Hs p q Hp Hq Ecl). rewrite Ep, Eq in Hs. by simplify_eq.
Qed.

(** ** Properties *)

(** The manifest encoding is faithful: two blob lists with 32-byte
    digests have the same digest input exactly when they list the same
    case-folded paths with the same content digests in the same order. *)
Theorem manifest_encoding_faithful (l1 l2 : list BlobRef) :
  Forall blobOk l1 -> Forall blobOk l2 ->
  manifestPreimage l1 = manifestPreimage l2 <-> map blobView l1 = map blobView l2.
Proof. split; [by apply manifestPreimage_inj|apply manifestPreimage_view]. Qed.

Definition zeros32 : string := "00000000000000000000000000000000".

Lemma manifest_encoding_faithful_witness :
  manifestPreimage [mkBlobRef "A.h" zeros32 0] = manifestPreimage [mkBlobRef "a.h" zeros32 7] /\
  manifestPreimage [mkBlobRef "ab" zeros32 0] <> manifestPreimage [mkBlobRef "a" zeros32 0].
Proof.
  assert (forall p n, (Z.of_nat (slen p) < 2 ^ 64)%Z -> Forall blobOk [mkBlobRef p zeros32 n]) as H.
  { intros p n Hl. constructor; [by split|constructor]. }
  split.
  - apply (manifest_encoding_faithful [mkBlobRef "A.h" zeros32 0] [mkBlobRef "a.h" zeros32 7]);
      [apply H; reflexivity|apply H; reflexivity|reflexivity].
  - intros E. apply (manifest_encoding_faithful [mkBlobRef "ab" zeros32 0] [mkBlobRef "a" zeros32 0])
      in E; [discriminate E|apply H; reflexivity|apply H; reflexivity].
Defined.

(** The manifest does not depend on the order in which dependency
    discovery lists the files: two listings of the same files give the same
    manifest, blobs and digest alike.  The inputs are not assembly sources,
    the working directory is absolute, and different spellings of one path
    open the same file. *)
Theorem manifest_order_independent (blake3 : string -> string) (fs : gmap string string)
    (exists_ : string -> bool) (getwd : result string) (inv : Invocation)
    (deps1 deps2 : list string) (m : Manifest) :
  isAbs (Cwd inv) = true -> (forall wd, getwd = Ok wd -> isAbs wd = true) ->
  forallb (fun i => negb (isAssemblySource i)) (Inputs inv) = true ->
  (forall p, p ∈ deps1 <-> p ∈ deps2) -> spellingsAgree fs inv (Inputs inv ++ deps1) ->
  manifestOf blake3 fs exists_ getwd inv deps1 = Some (Ok m) ->
  manifestOf blake3 fs exists_ getwd inv deps2 = Some (Ok m).
Proof.
  intros Hc Hwd Hasm Hd Hs. unfold manifestOf. rewrite !addAssembly_none by done.
  destruct (String.eqb_spec (Cwd inv) "") as [E|_]; [by rewrite E in Hc|].
  destruct (FindProjectRoot exists_ getwd (Cwd inv)) as [root|] eqn:Er; [|done].
  assert (rootShape root) as Hroot by (by eapply FindProjectRoot_shape).
  intros [= H]. f_equal. inv_ok.
  match goal with Hm : mapR _ _ = Ok ?l |- _ => rename Hm into Hmap; rename l into bs1 end.
  destruct (dedupFrom_spec [] (Inputs inv ++ deps1)) as [N1 M1].
  destruct (dedupFrom_spec [] (Inputs inv ++ deps2)) as [N2 M2].
  assert (dedupFrom [] (Inputs inv ++ deps1) ≡ₚ dedupFrom [] (Inputs inv ++ deps2)) as Hp.
  { apply NoDup_Permutation; [done..|]. intros z. rewrite M1, M2, !elem_of_app, Hd. done. }
  destruct (mapR_perm _ _ _ _ Hp Hmap) as (bs2 & -> & Hb). cbn [rbind].
  rewrite (isort_blobs bs1 bs2); [done|done|].
  intros a b Ha Hbb E. apply mapR_spec in Hmap.
  destruct (Forall2_lookup_r_elem Hmap a Ha) as (p & Hpin & Hpa).
  destruct (Forall2_lookup_r_elem Hmap b Hbb) as (q & Hqin & Hqb).
  eapply (buildBlob_unique blake3 fs getwd inv root (Inputs inv ++ deps1) p q); eauto; by apply M1.
Qed.

Definition exInv : Invocation :=
  set_Cwd "/p" (set_Inputs ["a.c"] (set_Mode CompileMode NewInvocation)).
Definition exFs : gmap string string :=
  {[ "/p/a.c" := "int x;"; "/p/a.h" := "h"; "/p/b.h" := "k" ]}.

Lemma manifest_order_independent_witness :
  manifestOf (fun s => s) exFs (fun p => String.eqb p "/p/.hpcc") (Ok "/") exInv ["b.h"; "a.h"]
  = manifestOf (fun s => s) exFs (fun p => String.eqb p "/p/.hpcc") (Ok "/") exInv ["a.h"; "b.h"].
Proof.
  assert (exists m, manifestOf (fun s => s) exFs (fun p => String.eqb p "/p/.hpcc") (Ok "/") exInv
    ["a.h"; "b.h"] = Some (Ok m)) as [m E] by (eexists; vm_compute; reflexivity).
  rewrite E.
  apply (manifest_order_independent (fun s => s) exFs (fun p => String.eqb p "/p/.hpcc") (Ok "/")
    exInv ["a.h"; "b.h"] ["b.h"; "a.h"] m).
  - reflexivity.
  - intros wd [= <-]. reflexivity.
  - reflexivity.
  - set_solver.
  - intros p q Hp Hq.
    assert (p = "a.c" \/ p = "a.h" \/ p = "b.h") as Hp' by set_solver.
    assert (q = "a.c" \/ q = "a.h" \/ q = "b.h") as Hq' by set_solver.
    destruct Hp' as [->|[->| ->]], Hq' as [->|[->| ->]]; vm_compute; congruence.
  - exact E.
Defined.

(** A path as the compiler or a directive spells it that means the same file
    in two checkouts rooted at [rs1] and [rs2], read from the subdirectory
    [sub]: relative, in any spelling, and resolving to a place in the tree, or
    absolute and outside both roots. *)
Definition outsideRoot (rs : list string) (p : string) : Prop :=
  exists cs, Forall proper cs /\ clean p = absOf cs /\ forall tr, cs <> rs ++ tr.

Definition portable (fs1 fs2 : gmap string string) (rs1 rs2 sub : list string) (p : string) : Prop :=
  (isAbs p = false /\ let tr := cleanComps false (sub ++ splitOn slash p) in
     head tr <> Some ".." /\ fs1 !! absOf (rs1 ++ tr) = fs2 !! absOf (rs2 ++ tr)) \/
  (isAbs p = true /\ outsideRoot rs1 p /\ outsideRoot rs2 p /\ fs1 !! p = fs2 !! p).

Lemma inCwd_resolve inv p : inCwd inv p = resolve (Cwd inv) p.
Proof. unfold inCwd, resolve. by destruct (isAbs p), (String.eqb (Cwd inv) ""). Qed.

Lemma proper_inside cs : Forall proper cs -> GoPath.inside cs.
Proof. intros H. eapply Forall_impl; [exact H|]. by intros c (_ & _ & ? & _). Qed.

Lemma foldl_cleanStep_proper l o :
  Forall (fun c => containsByte c slash = false) l -> Forall proper o -> Forall proper (foldl (cleanStep true) o l).
Proof. intros H. revert o. induction H as [|c l Hc _ IH]; intros o Ho; [done|]. cbn [foldl]. apply IH. by apply cleanStep_proper. Qed.

(** A relative path that does not climb above the root, from a directory in it. *)
Lemma resolve_within rs sub p : let tr := cleanComps false (sub ++ splitOn slash p) in
  Forall proper rs -> Forall proper sub -> isAbs p = false -> head tr <> Some ".." ->
  resolve (absOf (rs ++ sub)) p = absOf (rs ++ tr) /\ Forall proper (rs ++ tr).
Proof.
  intros tr Hr Hs Hp Hh. assert (Forall proper (rs ++ sub)) as Hrs by (by apply Forall_app).
  unfold resolve. rewrite Hp. cbn [orb]. change (String.eqb (absOf (rs ++ sub)) "") with false. cbn iota.
  rewrite join_absOf, rev_app_distr by done.
  assert (foldl (cleanStep true) (rev sub ++ rev rs) (splitOn slash p) = foldl (cleanStep false) [] (sub ++ splitOn slash p) ++ rev rs) as E.
  { rewrite <- (foldl_contained (rev rs) (sub ++ splitOn slash p) []); [|by apply proper_inside, Forall_rev|constructor|by rewrite cleanComps_head].
    by rewrite foldl_app, (foldl_clean_proper true _ sub) by done. }
  assert (rev (rs ++ tr) = foldl (cleanStep true) (rev sub ++ rev rs) (splitOn slash p)) as Er.
  { rewrite E, rev_app_distr. unfold tr, cleanComps. by rewrite rev_involutive. }
  rewrite <- Er, rev_involutive. split; [done|]. rewrite <- (rev_involutive (rs ++ tr)), Er. apply Forall_rev.
  apply foldl_cleanStep_proper; [apply splitOn_no_sep|]. apply Forall_app. split; by apply Forall_rev.
Qed.

Lemma normalize_inside getwd rs tr : Forall proper (rs ++ tr) ->
  normalizeManifestPath getwd (absOf (rs ++ tr)) (absOf rs) = Ok (if decide (tr = []) then "." else joinWith "/" tr).
Proof.
  intros H. pose proof H as [Hr Ht]%Forall_app.
  rewrite (normalize_abs getwd _ rs (rs ++ tr)) by (done || apply isAbs_absOf || by apply clean_absOf). rewrite stripCommon_app. f_equal.
  destruct (decide (tr = [])) as [->|Hne]; [by rewrite app_nil_r, decide_True|]. rewrite decide_False; [done|].
  intros E. apply (f_equal length) in E. rewrite length_app in E. destruct tr; [done|cbn in E; lia].
Qed.

Lemma normalize_outside getwd rs p : Forall proper rs -> isAbs p = true -> outsideRoot rs p ->
  normalizeManifestPath getwd p (absOf rs) = Ok p.
Proof.
  intros Hr Hp (cs & Hcs & Ec & Ho). rewrite (normalize_abs getwd p rs cs) by done. rewrite decide_False.
  2: { intros ->. apply (Ho []). by rewrite app_nil_r. }
  destruct (stripCommon rs cs) as [[|b br] tr] eqn:Es; [|done]. apply stripCommon_spec in Es as (pre & E1 & E2). rewrite app_nil_r in E1. subst.
  by destruct (Ho tr).
Qed.

Section Portable.
  Context (fs1 fs2 : gmap string string) (rs1 rs2 sub : list string).
  Hypothesis (H1 : Forall proper rs1) (H2 : Forall proper rs2) (Hs : Forall proper sub).
  #[local] Notation good := (portable fs1 fs2 rs1 rs2 sub).
  #[local] Notation r1 := (resolve (absOf (rs1 ++ sub))).
  #[local] Notation r2 := (resolve (absOf (rs2 ++ sub))).

Lemma portable_content p : good p -> fs1 !! r1 p = fs2 !! r2 p.
Proof using All.
  intros [(Hp & Hh & E)|(Hp & _ & _ & E)].
  - by rewrite (proj1 (resolve_within rs1 sub p H1 Hs Hp Hh)), (proj1 (resolve_within rs2 sub p H2 Hs Hp Hh)).
  - unfold resolve. by rewrite Hp.
Qed.

Lemma portable_apart rs p q : Forall proper rs -> isAbs p = false -> head (cleanComps false (sub ++ splitOn slash p)) <> Some ".." ->
  isAbs q = true -> outsideRoot rs q -> resolve (absOf (rs ++ sub)) p <> resolve (absOf (rs ++ sub)) q.
Proof using Hs.
  intros Hr Hp Hh Hq (cs & Hcs & Ec & Ho) E. destruct (resolve_within rs sub p Hr Hs Hp Hh) as [Ep Hpr].
  unfold resolve at 2 in E. rewrite Hq, Ep in E. cbn [orb] in E. rewrite <- E, clean_absOf in Ec by done. apply absOf_inj in Ec; [|done..]. by eapply Ho.
Qed.

Lemma portable_agree p q : good p -> good q -> r1 p = r1 q <-> r2 p = r2 q.
Proof using All.
  intros [(Hp & Hh & _)|(Hp & O1 & O2 & _)] [(Hq & Hi & _)|(Hq & O3 & O4 & _)].
  - destruct (resolve_within rs1 sub p H1 Hs Hp Hh) as [-> P1], (resolve_within rs2 sub p H2 Hs Hp Hh) as [-> P2].
    destruct (resolve_within rs1 sub q H1 Hs Hq Hi) as [-> P3], (resolve_within rs2 sub q H2 Hs Hq Hi) as [-> P4].
    split; intros E; apply absOf_inj in E; try done; apply app_inv_head in E; by rewrite E.
  - split; intros E; exfalso; [eapply (portable_apart rs1)|eapply (portable_apart rs2)]; try exact E; done.
  - split; intros E; exfalso; symmetry in E; [eapply (portable_apart rs1)|eapply (portable_apart rs2)]; try exact E; done.
  - unfold resolve. by rewrite Hp, Hq.
Qed.

Lemma buildBlob_portable blake3 gw1 gw2 inv1 inv2 p :
  Cwd inv1 = absOf (rs1 ++ sub) -> Cwd inv2 = absOf (rs2 ++ sub) -> good p -> forall b,
  buildBlob blake3 fs1 gw1 inv1 (absOf rs1) p = Ok b -> buildBlob blake3 fs2 gw2 inv2 (absOf rs2) p = Ok b.
Proof using All.
  intros C1 C2 Hp b. unfold buildBlob, hashFileBlob. rewrite !inCwd_resolve, C1, C2, <- (portable_content p Hp).
  destruct (fs1 !! _) as [data|]; [|done]. cbn [rbind]. destruct Hp as [(Hp & Hh & _)|(Hp & O1 & O2 & _)].
  - destruct (resolve_within rs1 sub p H1 Hs Hp Hh) as [-> P1], (resolve_within rs2 sub p H2 Hs Hp Hh) as [-> P2].
    by rewrite !normalize_inside by done.
  - assert (forall d, resolve d p = p) as E by (intros d; unfold resolve; by rewrite Hp). rewrite !E. by rewrite !normalize_outside by done.
Qed.

(** The directives of assembler sources are found the same. *)
Lemma addAssembly_portable inv1 inv2 seeds : Cwd inv1 = absOf (rs1 ++ sub) -> Cwd inv2 = absOf (rs2 ++ sub) ->
  (forall p, mentioned fs1 (Cwd inv1) seeds p -> good p) ->
  forall inputs deps, Forall (mentioned fs1 (Cwd inv1) seeds) inputs -> Forall (mentioned fs1 (Cwd inv1) seeds) deps ->
  addAssembly fs2 inv2 inputs deps = addAssembly fs1 inv1 inputs deps /\
  forall l, addAssembly fs1 inv1 inputs deps = Some l -> Forall (mentioned fs1 (Cwd inv1) seeds) l.
Proof using All.
  intros C1 C2 Hg. induction inputs as [|i inputs IH]; intros deps Hi Hd; cbn [addAssembly]; [split; [done|congruence]|].
  apply Forall_cons in Hi as [Hi Hr]. destruct (negb (isAssemblySource i)); [by apply IH|].
  destruct (closure_relocates fs1 fs2 (Cwd inv1) (Cwd inv2) (mentioned fs1 (Cwd inv1) seeds)) with (i := i) (deps := deps) as [E (l & El & Hl)]; try done.
  - intros p q Hp%Hg Hq%Hg. rewrite C1, C2. by apply portable_agree.
  - intros p Hp%Hg. rewrite C1, C2. by apply portable_content.
  - intros p data d Hp Hdata Hin. by eapply mentioned_directive.
  - rewrite !inCwd_resolve, E, El. apply IH; [done|]. by apply Forall_app.
Qed.
End Portable.

(** C32: manifests are portable between checkouts: two clones of a project at
    different absolute roots, compiled from the same subdirectory with the
    same inputs and dependency listing, have the same manifest, so that
    developers share cache entries.  The paths are relative, in any spelling,
    and resolve to places in the project with the same contents, or they are
    absolute, outside both roots and have the same contents; with assembler
    sources among the inputs this goes for the paths in their directives as
    well, and for those in the files these name.  A relative path that leaves
    the project is not covered: it names a file by its place next to the
    checkout. *)
Theorem manifest_relocatable (blake3 : string -> string) (fs1 fs2 : gmap string string)
    (ex1 ex2 : string -> bool) (gw1 gw2 : result string) (inv1 inv2 : Invocation)
    (rs1 rs2 sub deps : list string) (m : Manifest) :
  Forall proper rs1 -> Forall proper rs2 -> Forall proper sub ->
  Cwd inv1 = absOf (rs1 ++ sub) -> Cwd inv2 = absOf (rs2 ++ sub) -> Inputs inv1 = Inputs inv2 ->
  FindProjectRoot ex1 gw1 (Cwd inv1) = Some (absOf rs1) ->
  FindProjectRoot ex2 gw2 (Cwd inv2) = Some (absOf rs2) ->
  Forall (portable fs1 fs2 rs1 rs2 sub) (Inputs inv1 ++ deps) ->
  (existsb isAssemblySource (Inputs inv1) = true ->
   forall p, mentioned fs1 (Cwd inv1) (Inputs inv1 ++ deps) p -> portable fs1 fs2 rs1 rs2 sub p) ->
  manifestOf blake3 fs1 ex1 gw1 inv1 deps = Some (Ok m) ->
  manifestOf blake3 fs2 ex2 gw2 inv2 deps = Some (Ok m).
Proof.
  intros H1 H2 Hs C1 C2 Ei R1 R2 Hp Hm. unfold manifestOf. rewrite <- Ei.
  assert (addAssembly fs2 inv2 (Inputs inv1) deps = addAssembly fs1 inv1 (Inputs inv1) deps /\
    forall l, addAssembly fs1 inv1 (Inputs inv1) deps = Some l -> Forall (portable fs1 fs2 rs1 rs2 sub) (Inputs inv1 ++ l)) as [-> Hall].
  { destruct (existsb isAssemblySource (Inputs inv1)) eqn:Ea.
    - destruct (addAssembly_portable fs1 fs2 rs1 rs2 sub H1 H2 Hs inv1 inv2 (Inputs inv1 ++ deps) C1 C2 (Hm eq_refl) (Inputs inv1) deps) as [-> Hl];
        [apply Forall_forall; intros p Hin; apply mentioned_given, elem_of_app; auto..|]. split; [done|].
      intros l El. apply Forall_app. split; [by apply Forall_app in Hp as [? _]|]. eapply Forall_impl; [by apply Hl|]. by apply Hm.
    - assert (forallb (fun i => negb (isAssemblySource i)) (Inputs inv1) = true) as Hn.
      { apply forallb_forall. intros x Hx. destruct (isAssemblySource x) eqn:E; [|done]. rewrite <- not_true_iff_false in Ea. destruct Ea. apply existsb_exists. eauto. }
      rewrite !addAssembly_none by done. split; [done|]. by intros l [= <-]. }
  destruct (addAssembly fs1 inv1 (Inputs inv1) deps) as [l|]; [|done]. specialize (Hall l eq_refl).
  assert (String.eqb (Cwd inv1) "" = false) as -> by (by rewrite C1).
  assert (String.eqb (Cwd inv2) "" = false) as -> by (by rewrite C2).
  rewrite R1, R2. intros [= H]. f_equal. inv_ok.
  match goal with Hmap : mapR _ _ = Ok _ |- _ => eapply mapR_ext in Hmap; [rewrite Hmap; done|] end.
  intros p b Hin Hb. apply (buildBlob_portable fs1 fs2 rs1 rs2 sub H1 H2 Hs _ gw1 gw2 inv1 inv2); try done.
  rewrite Forall_forall in Hall. apply Hall. by apply dedupFrom_spec in Hin as [? _].
Qed.

(** Alice and Bob assemble the same source in a subdirectory; it takes in a
    binary from the directory above. *)
Definition exAsm : string := ".incbin " +:+ String quoteChar ("../b.bin" +:+ String quoteChar "").
Definition exCheckout (root : string) : gmap string string :=
  {[ root +:+ "/src/boot.S" := exAsm; root +:+ "/inc/a.h" := "h"; root +:+ "/b.bin" := "k" ]}.
Definition exAsmInv (root : string) : Invocation :=
  set_Cwd (root +:+ "/src") (set_Inputs ["boot.S"] (set_Mode CompileMode NewInvocation)).
Definition exAsmManifest (root : string) : option (result Manifest) :=
  manifestOf (fun s => s) (exCheckout root) (fun p => String.eqb p (root +:+ "/.hpcc")) (Ok "/") (exAsmInv root) ["../inc/a.h"].

Lemma exMentioned p : mentioned (exCheckout "/p") "/p/src" ["boot.S"; "../inc/a.h"] p -> p ∈ ["boot.S"; "../inc/a.h"; "../b.bin"].
Proof.
  assert (Forall (fun q => Forall (fun d => directivePath d = "../b.bin")
    (scanDirectives true 0 (default "" (exCheckout "/p" !! resolve "/p/src" q)))) ["boot.S"; "../inc/a.h"; "../b.bin"]) as Hnames by decided.
  induction 1 as [p Hp|p data d _ IH Hdata Hd].
  - rewrite !elem_of_cons in *. tauto.
  - rewrite Forall_forall in Hnames. specialize (Hnames p IH). rewrite Hdata, Forall_forall in Hnames. rewrite (Hnames d Hd), !elem_of_cons. auto.
Qed.

Lemma exPortable p : p ∈ ["boot.S"; "../inc/a.h"; "../b.bin"] -> portable (exCheckout "/p") (exCheckout "/home/bob/q") ["p"] ["home"; "bob"; "q"] ["src"] p.
Proof.
  rewrite !elem_of_cons. intros [->|[->|[->|H]]]; [| | |by apply elem_of_nil in H]; left; (split; [reflexivity|]); split; [discriminate|vm_compute; reflexivity|discriminate|vm_compute; reflexivity|discriminate|vm_compute; reflexivity].
Qed.

Lemma manifest_relocatable_witness : exists m, exAsmManifest "/p" = Some (Ok m) /\
  map blobPath (manifestBlobs m) = ["b.bin"; "inc/a.h"; "src/boot.S"] /\ exAsmManifest "/home/bob/q" = Some (Ok m).
Proof.
  assert (forall c, c = "p" \/ c = "home" \/ c = "bob" \/ c = "q" \/ c = "src" -> proper c)
    as Hpr by (intros c Hc; split_and!; intuition congruence || (intuition subst; reflexivity)).
  assert (exists m, exAsmManifest "/p" = Some (Ok m) /\ map blobPath (manifestBlobs m) = ["b.bin"; "inc/a.h"; "src/boot.S"]) as (m & E & Hm)
    by (eexists; split; vm_compute; reflexivity).
  exists m. split; [exact E|]. split; [exact Hm|].
  apply (manifest_relocatable (fun s => s) (exCheckout "/p") (exCheckout "/home/bob/q") (fun p => String.eqb p "/p/.hpcc")
    (fun p => String.eqb p "/home/bob/q/.hpcc") (Ok "/") (Ok "/") (exAsmInv "/p") (exAsmInv "/home/bob/q")
    ["p"] ["home"; "bob"; "q"] ["src"] ["../inc/a.h"] m); try reflexivity.
  - repeat (apply Forall_cons; split; [apply Hpr; tauto|]). constructor.
  - repeat (apply Forall_cons; split; [apply Hpr; tauto|]). constructor.
  - repeat (apply Forall_cons; split; [apply Hpr; tauto|]). constructor.
  - apply Forall_forall. intros p Hp. apply exPortable. cbn in Hp. rewrite !elem_of_cons in *. tauto.
  - intros _ p Hp. by apply exPortable, exMentioned.
  - exact E.
Defined.

(** Manifest paths are the staging paths: for an absolute file and a
    cleaned project root, normalization succeeds, and when its result is
    relative, joining it to the root gives back the file's cleaned path; when
    it is absolute it is the path as given, of a file outside the root. *)
Theorem normalize_roundtrip (getwd : result string) (p : string) (rs : list string) :
  Forall proper rs -> isAbs p = true ->
  exists r, normalizeManifestPath getwd p (absOf rs) = Ok r /\
    (if isAbs r then r = p /\ ~ below (absOf rs) (clean p)
     else join [absOf rs; r] = clean p).
Proof.
  intros Hr Hp. destruct (clean_abs_shape p Hp) as (cs & Hcs & Ec).
  rewrite (normalize_abs getwd p rs cs) by done. eexists. split; [done|].
  case_decide as E.
  - subst. change (isAbs ".") with false. cbn iota. rewrite Ec, join_absOf by done.
    change (splitOn slash ".") with ["."]. cbn [foldl].
    change (cleanStep true ?x ".") with x. by rewrite rev_involutive.
  - destruct (stripCommon rs cs) as [[|b br] tr] eqn:Es.
    + destruct (stripCommon_inside rs cs tr Hcs E Es) as (-> & Ht & Hne).
      rewrite (proj1 (joinWith_relative tr Ht Hne)), Ec. by apply proper_rel_join.
    + rewrite Hp. split; [done|]. rewrite Ec. intros (tr' & ->)%below_absOf; [|done..].
      by rewrite stripCommon_app in Es.
Qed.

Lemma normalize_roundtrip_witness :
  normalizeManifestPath (Ok "/") "/p/src/../a.h" "/p" = Ok "a.h" /\ join ["/p"; "a.h"] = "/p/a.h".
Proof.
  destruct (normalize_roundtrip (Ok "/") "/p/src/../a.h" ["p"]) as (r & E & H).
  - apply Forall_cons. split; [|constructor]. split_and!; try discriminate. reflexivity.
  - reflexivity.
  - assert (Ok r = Ok "a.h") as Er by (rewrite <- E; vm_compute; reflexivity).
    injection Er as ->. split; [exact E|exact H].
Defined.

(** The search for the project root always ends, and returns the nearest
    ancestor of the start directory, itself included, that holds the marker
    file, or the empty string when none does. *)
Theorem FindProjectRoot_nearest (exists_ : string -> bool) (getwd : result string)
    (startDir : string) (cs : list string) :
  Forall proper cs -> abs getwd startDir = Ok (absOf cs) ->
  exists root, FindProjectRoot exists_ getwd startDir = Some root /\
  ((root = "" /\ forall up down, cs = up ++ down ->
      exists_ (join [absOf up; projectMarkerFile]) = false) \/
   (exists up down, cs = up ++ down /\ root = absOf up /\
      exists_ (join [root; projectMarkerFile]) = true /\
      forall up' down', cs = up' ++ down' -> length up < length up' ->
        exists_ (join [absOf up'; projectMarkerFile]) = false)).
Proof.
  intros Hcs Ha. unfold FindProjectRoot. rewrite Ha.
  rewrite findUp_absOf by done. eexists. split; [done|].
  clear Ha Hcs. induction cs as [|c cs IH] using rev_ind.
  - cbn. destruct (exists_ _) eqn:E; cbn.
    + right. exists [], []. split_and!; try done. intros [|] ? E'; cbn; [lia|done].
    + left. split; [done|]. intros [|] ? E'; done.
  - rewrite rev_app_distr. cbn [rev app ancestorsRev List.find].
    rewrite rev_involutive.
    destruct (exists_ (join [absOf (cs ++ [c]); projectMarkerFile])) eqn:E.
    + right. exists (cs ++ [c]), []. split; [by rewrite app_nil_r|]. split; [done|].
      split; [exact E|]. intros up' down' E' Hl. apply (f_equal length) in E'.
      exfalso. rewrite (length_app up') in E'. lia.
    + assert (forall up down, cs ++ [c] = up ++ down -> up = cs ++ [c] \/ exists d, cs = up ++ d)
        as Hsplit.
      { intros up down. destruct down as [|d down _] using rev_ind.
        - rewrite app_nil_r. auto.
        - rewrite app_assoc. intros [-> _]%app_inj_tail. eauto. }
      destruct IH as [[-> Hno]|(up & down & -> & -> & Hyes & Hno)].
      * left. split; [done|]. intros up down [->|[d ->]]%Hsplit; [done|eauto].
      * right. exists up, (down ++ [c]). rewrite app_assoc. split_and!; try done.
        intros up' down' [->|[d Hd]]%Hsplit Hl; [done|eauto].
Qed.

Lemma FindProjectRoot_nearest_witness :
  exists root, FindProjectRoot (fun p => String.eqb p "/p/.hpcc") (Ok "/") "/p/src" = Some root /\
    root = "/p".
Proof.
  destruct (FindProjectRoot_nearest (fun p => String.eqb p "/p/.hpcc") (Ok "/") "/p/src" ["p"; "src"])
    as (root & E & _).
  - repeat (apply Forall_cons; split; [split_and!; try discriminate; reflexivity|]). constructor.
  - reflexivity.
  - exists root. split; [exact E|]. vm_compute in E. congruence.
Defined.

(** C38: building a manifest never runs forever: for every command, file
    system and answer of the compiler there is a manifest or an error. *)
Theorem BuildManifest_total (blake3 : string -> string) (fs : gmap string string)
    (exists_ : string -> bool) (getwd : result string)
    (findDeps : Invocation -> result (list string)) (inv : Invocation) :
  (forall wd, getwd = Ok wd -> isAbs wd = true) ->
  is_Some (BuildManifest blake3 fs exists_ getwd findDeps inv).
Proof.
  intros Hwd. unfold BuildManifest. case_bool_decide; [eauto|].
  destruct (wrapErr _ _) as [deps|]; [|eauto]. unfold manifestOf.
  assert (forall inputs deps, is_Some (addAssembly fs inv inputs deps)) as Hadd.
  { induction inputs as [|i inputs IH]; intros ds; cbn [addAssembly]; [eauto|].
    destruct (negb _); [auto|].
    destruct (closure_total fs (Cwd inv) (inCwd inv i) ds) as [more ->]. auto. }
  destruct (Hadd (Inputs inv) deps) as [ds ->].
  destruct (String.eqb (Cwd inv) ""); [eauto|].
  unfold FindProjectRoot. destruct (abs getwd (Cwd inv)) as [a|] eqn:Ea; [|eauto].
  destruct (abs_shape _ _ _ Hwd Ea) as (cs & Hcs & ->).
  rewrite findUp_absOf by done. eauto.
Qed.

Lemma BuildManifest_total_witness :
  is_Some (BuildManifest (fun s => s) exFs (fun _ => false) (Ok "/") (fun _ => Ok ["a.h"]) exInv).
Proof. apply BuildManifest_total. intros wd [= <-]. reflexivity. Defined.

(** Two clients whose paths differ only in letter case can have
    different manifest digests: blobs are sorted by the original path and
    folded only when hashed. *)
Theorem manifest_case_order_sensitive :
  exists l1 l2 : list BlobRef,
    Forall2 (fun a b => blobView a = blobView b) l1 l2 /\
    manifestPreimage (isort blobPathLe l1) <> manifestPreimage (isort blobPathLe l2).
Proof.
  exists [mkBlobRef "a.h" zeros32 0; mkBlobRef "B.h" zeros32 0],
         [mkBlobRef "a.h" zeros32 0; mkBlobRef "b.h" zeros32 0].
  split; [by repeat constructor|]. by vm_compute.
Qed.

(** ** Key derivation: facts *)

(** The blobs of a manifest are those of its paths, sorted. *)
Lemma BuildManifest_shape blake3 fs exists_ getwd findDeps inv m :
  BuildManifest blake3 fs exists_ getwd findDeps inv = Some (Ok m) ->
  exists root paths bs,
    (if String.eqb (Cwd inv) "" then Some "" else FindProjectRoot exists_ getwd (Cwd inv)) = Some root /\
    (forall p, p ∈ Inputs inv -> p ∈ paths) /\
    mapR (buildBlob blake3 fs getwd inv root) paths = Ok bs /\
    manifestBlobs m = isort blobPathLe bs /\
    manifestDigest m = AggregateManifestDigest blake3 (isort blobPathLe bs).
Proof.
  intros H. unfold BuildManifest in H. case_bool_decide; [done|].
  destruct (wrapErr _ _); [|done]. unfold manifestOf in H. destruct (addAssembly _ _ _ _); [|done].
  match type of H with match ?r with _ => _ end = _ => destruct r as [root|]; [|done] end.
  injection H as H. destruct (mapR _ _) as [bs|] eqn:E; cbn [rbind] in H; [|done]. injection H as <-.
  eexists root, _, bs. split_and!; [done| |done|done|done]. intros p Hp. apply dedupFrom_spec. set_solver.
Qed.

(** The identity the key mixes in. *)
Definition keyIdentity (ctx : KeyContext) : result string :=
  match ctxIdentityOverride ctx with
  | Some id => Ok id
  | None => wrapErr "get compiler identity" (ctxIdentity ctx)
  end.

(** A successful derivation hashes the framed source digest, identity and
    flags. *)
Lemma CacheKey_shape blake3 fs ex gw inv ctx k m :
  CacheKeyWithManifest blake3 fs ex gw inv ctx = Some (Ok (k, m)) ->
  exists src id, keySource blake3 fs ex gw inv ctx = Some (Ok (src, m)) /\
    keyIdentity ctx = Ok id /\ k = blake3 (keyPreimage src id inv) /\ Inputs inv <> [].
Proof.
  unfold CacheKeyWithManifest. case_bool_decide as Hin; [done|].
  fold (keyIdentity ctx). destruct (keyIdentity ctx) as [id|]; [|done].
  destruct (keySource blake3 fs ex gw inv ctx) as [[[src m']|]|]; cbn; intros [= <- <-]. eauto 7.
Qed.

Definition smallLen (s : string) : Prop := (Z.of_nat (slen s) < 2 ^ 64)%Z.

(** C6: cache keys separate compiles: if two commands have the same key then
    they have the same source digest, the same compiler identity and the same
    flag bytes, or the two framed inputs are a collision of the hash. *)
Theorem CacheKey_separates (blake3 : string -> string) (fs1 fs2 : gmap string string)
    (ex1 ex2 : string -> bool) (gw1 gw2 : result string) (inv1 inv2 : Invocation)
    (ctx1 ctx2 : KeyContext) (k : string) (m1 m2 : option Manifest) :
  CacheKeyWithManifest blake3 fs1 ex1 gw1 inv1 ctx1 = Some (Ok (k, m1)) ->
  CacheKeyWithManifest blake3 fs2 ex2 gw2 inv2 ctx2 = Some (Ok (k, m2)) ->
  exists s1 s2 id1 id2,
    keySource blake3 fs1 ex1 gw1 inv1 ctx1 = Some (Ok (s1, m1)) /\ keyIdentity ctx1 = Ok id1 /\
    keySource blake3 fs2 ex2 gw2 inv2 ctx2 = Some (Ok (s2, m2)) /\ keyIdentity ctx2 = Ok id2 /\
    (smallLen s1 -> smallLen s2 -> smallLen id1 -> smallLen id2 ->
     (s1 = s2 /\ id1 = id2 /\ cacheKeyFlags inv1 = cacheKeyFlags inv2) \/
     (keyPreimage s1 id1 inv1 <> keyPreimage s2 id2 inv2 /\
      blake3 (keyPreimage s1 id1 inv1) = blake3 (keyPreimage s2 id2 inv2))).
Proof.
  intros (s1 & id1 & Hs1 & Hi1 & Hk1 & _)%CacheKey_shape
         (s2 & id2 & Hs2 & Hi2 & Hk2 & _)%CacheKey_shape.
  exists s1, s2, id1, id2. split_and!; try done. intros L1 L2 L3 L4.
  destruct (decide (keyPreimage s1 id1 inv1 = keyPreimage s2 id2 inv2)) as [E|E].
  - left. by apply keyPreimage_inj in E.
  - right. split; congruence.
Qed.

Definition exCtx : KeyContext :=
  mkKeyContext SourceModeCAS (Some "id") (Err "unused") (fun _ => Err "unused") (fun _ => Ok ["a.h"]).

Lemma CacheKey_separates_witness :
  exists s1 s2 id1 id2,
    keySource (fun s => s) exFs (fun _ => false) (Ok "/") exInv exCtx
      = Some (Ok (s1, (fun r => match r with Some (Ok (_, m)) => m | _ => None end)
          (CacheKeyWithManifest (fun s => s) exFs (fun _ => false) (Ok "/") exInv exCtx))) /\
    keyIdentity exCtx = Ok id1 /\ s1 = s2 /\ id1 = id2.
Proof.
  assert (exists k m, CacheKeyWithManifest (fun s => s) exFs (fun _ => false) (Ok "/") exInv exCtx
    = Some (Ok (k, m))) as (k & m & E) by (eexists _, _; vm_compute; reflexivity).
  destruct (CacheKey_separates (fun s => s) exFs exFs (fun _ => false) (fun _ => false) (Ok "/") (Ok "/")
    exInv exInv exCtx exCtx k m m E E) as (s1 & s2 & id1 & id2 & H1 & H2 & H3 & H4 & _).
  exists s1, s2, id1, id2. rewrite E. split_and!; [exact H1|exact H2|congruence|congruence].
Defined.

(** C23: the worker computes the client's key: a key the client derives
    locally in CAS mode is the key anyone derives, in any mode and on any
    file system, from the manifest digest alone, given the same compiler
    identity; the manifest the client returns carries that digest. *)
Theorem CacheKey_worker_agrees (blake3 : string -> string) (fs fs' : gmap string string)
    (ex ex' : string -> bool) (gw gw' : result string) (inv : Invocation) (ctx ctx' : KeyContext)
    (id k : string) (m : Manifest) :
  keyIdentity ctx = Ok id -> ctxIdentityOverride ctx' = Some id ->
  CacheKeyWithManifest blake3 fs ex gw inv ctx = Some (Ok (k, Some m)) ->
  manifestDigest m = AggregateManifestDigest blake3 (manifestBlobs m) /\
  CacheKeyWithManifest blake3 fs' ex' gw' (set_ManifestDigest (Some (manifestDigest m)) inv) ctx'
  = Some (Ok (k, None)).
Proof.
  intros Hid Hov (src & id' & Hs & Hi & -> & Hin)%CacheKey_shape.
  assert (id' = id) as -> by congruence.
  unfold keySource in Hs.
  destruct (ManifestDigest inv); [done|]. destruct (PreprocessedDigest inv); [done|].
  destruct (ctxSourceMode ctx =? SourceModePreprocessed)%Z.
  { injection Hs as Hs. inv_ok. by case_match; inv_ok. }
  destruct (BuildManifest blake3 fs ex gw (ctxFindDependencies ctx) inv) as [[m'|]|] eqn:Eb;
    cbn in Hs; simplify_eq. split.
  - by apply BuildManifest_shape in Eb as (? & ? & bs & _ & _ & _ & -> & ->).
  - unfold CacheKeyWithManifest. rewrite bool_decide_eq_false_2 by done. by rewrite Hov.
Qed.

Lemma CacheKey_worker_agrees_witness :
  exists k m, CacheKeyWithManifest (fun s => s) exFs (fun _ => false) (Ok "/") exInv exCtx
    = Some (Ok (k, Some m)) /\
  CacheKeyWithManifest (fun s => s) ∅ (fun _ => false) (Err "none")
    (set_ManifestDigest (Some (manifestDigest m)) exInv) exCtx = Some (Ok (k, None)).
Proof.
  assert (exists k m, CacheKeyWithManifest (fun s => s) exFs (fun _ => false) (Ok "/") exInv exCtx
    = Some (Ok (k, Some m))) as (k & m & E) by (eexists _, _; vm_compute; reflexivity).
  exists k, m. split; [exact E|].
  apply (CacheKey_worker_agrees (fun s => s) exFs ∅ (fun _ => false) (fun _ => false) (Ok "/")
    (Err "none") exInv exCtx exCtx "id" k m); [reflexivity|reflexivity|exact E].
Defined.
