(* ===== verification/Store.v ===== *)
(** * Store: the cache stores of [internal/cache/store].

    A file system is modelled as a finite set of directories and a finite map
    of regular files, both named by the component list of their cleaned
    absolute path; joining a valid name to a directory appends it
    ([join_valid_name]).  Calls fail as the operating system documents for a
    missing parent or a path of the wrong kind; other I/O errors are not
    modelled.  The clock is the argument [now], in nanoseconds.

    [DiskCacheStore.writes] (a [singleflight.Group]) merges concurrent writes
    to one destination; a sequence of calls behaves as if it were absent. *)

From S2P Require Import Prelude GoStrings GoPath.

(** ** File system *)

Abbreviation path := (list string) (only parsing).

Record FS := mkFS {
  fsDirs : gset (list string);
  fsFiles : gmap (list string) (string * Z)
}.

(** The directory [p] and all above it. *)
Fixpoint pathPrefixes (p : list string) : list (list string) :=
  match p with
  | [] => [[]]
  | c :: r => [] :: map (cons c) (pathPrefixes r)
  end.

(** [os.MkdirAll]: fails when an element of the path is a file. *)
Definition mkdirAll (p : path) (fs : FS) : result FS :=
  if existsb (fun q => bool_decide (is_Some (fsFiles fs !! q))) (pathPrefixes p)
  then Err "not a directory"
  else Ok (mkFS (list_to_set (pathPrefixes p) ∪ fsDirs fs) (fsFiles fs)).

(** [os.WriteFile]. *)
Definition writeFile (p : path) (data : string) (now : Z) (fs : FS) : result FS :=
  if bool_decide (p ∈ fsDirs fs) then Err "is a directory"
  else if negb (bool_decide (take (length p - 1) p ∈ fsDirs fs)) then Err "no such directory"
  else Ok (mkFS (fsDirs fs) (<[p := (data, now)]> (fsFiles fs))).

(** [os.Rename] of a file within one directory. *)
Definition renameFile (src dst : path) (fs : FS) : result FS :=
  if bool_decide (dst ∈ fsDirs fs) then Err "is a directory"
  else match fsFiles fs !! src with
  | None => Err "no such file"
  | Some f => Ok (mkFS (fsDirs fs) (<[dst := f]> (delete src (fsFiles fs))))
  end.

(** [os.Remove] of a file. *)
Definition removeFile (p : path) (fs : FS) : FS := mkFS (fsDirs fs) (delete p (fsFiles fs)).

Definition isBelow (p q : path) : bool := bool_decide (take (length p) q = p).

(** [os.RemoveAll]. *)
Definition removeAll (p : path) (fs : FS) : FS :=
  mkFS (filter (fun q => isBelow p q = false) (fsDirs fs))
       (filter (fun kv => isBelow p kv.1 = false) (fsFiles fs)).

(** The last element of [q] when [q] is an entry of the directory [p]. *)
Definition childName (p q : path) : option string :=
  if bool_decide (take (length p) q = p)
  then match drop (length p) q with [n] => Some n | _ => None end
  else None.

(** [os.ReadDir], split into directories and files, each sorted by name. *)
Definition subDirs (p : path) (fs : FS) : list string :=
  sortStrings (omap (childName p) (elements (fsDirs fs))).
Definition dirFiles (p : path) (fs : FS) : list (string * (string * Z)) :=
  omap (fun kv => (fun n => (n, kv.2)) <$> childName p kv.1) (map_to_list (fsFiles fs)).

(** ** Names *)

Definition badNameByte (c : ascii) : bool :=
  Ascii.eqb c "/"%char || Ascii.eqb c "\"%char || Ascii.eqb c "000"%char.

Fixpoint hasBadByte (s : string) : bool :=
  match s with EmptyString => false | String c t => badNameByte c || hasBadByte t end.

(** [validateName] and [validateNamespace] accept the same strings. *)
Definition validateName (name : string) : result unit :=
  if String.eqb name "" then Err "cache blob name must not be empty"
  else if String.eqb name "." || String.eqb name ".." then Err "invalid cache blob name"
  else if hasBadByte name then Err "invalid cache blob name"
  else Ok tt.

Definition validateNamespace (prefix : string) : result unit :=
  if String.eqb prefix "" then Err "namespace prefix must not be empty"
  else if String.eqb prefix "." || String.eqb prefix ".." then Err "invalid namespace prefix"
  else if hasBadByte prefix then Err "invalid namespace prefix"
  else Ok tt.

(** [hex.EncodeToString]. *)
Definition hexDigit (n : N) : ascii :=
  ascii_of_N (if (n <? 10)%N then 48 + n else 87 + n)%N.
Fixpoint hexEncode (s : string) : string :=
  match s with
  | EmptyString => ""
  | String c t =>
      let n := N_of_ascii c in
      String (hexDigit (n / 16)) (String (hexDigit (n mod 16)) (hexEncode t))
  end.

(** ** The disk store *)

Record DiskCacheStore := mkDiskCacheStore {
  dsDir : list string;
  dsMaxSize : Z
}.

(** [Namespace]: panics on an invalid prefix ([None]); the size limit is not
    inherited. *)
Definition diskNamespace (d : DiskCacheStore) (prefix : string) : option DiskCacheStore :=
  match validateNamespace prefix with
  | Ok _ => Some (mkDiskCacheStore (dsDir d ++ [prefix]) 0)
  | Err _ => None
  end.

Definition entryDir (d : DiskCacheStore) (key : string) : path :=
  let h := hexEncode key in
  if 2 <=? slen h then dsDir d ++ [stake 2 h; h]
  else if String.eqb h "" then dsDir d else dsDir d ++ [h].

(** An element of the path is a file, which the system reports as ENOTDIR
    and not as a missing file. *)
Definition throughFile (p : path) (fs : FS) : bool :=
  existsb (fun q => bool_decide (is_Some (fsFiles fs !! q))) (pathPrefixes p).

(** [Get]: [None] is the nil slice of a missing blob. *)
Definition diskGet (d : DiskCacheStore) (fs : FS) (key name : string) : result (option string) :=
  let! _ := validateName name in
  let p := entryDir d key ++ [name] in
  if bool_decide (p ∈ fsDirs fs) then Err "read cache entry: is a directory"
  else match fsFiles fs !! p with
  | Some f => Ok (Some f.1)
  | None => if throughFile (entryDir d key) fs then Err "read cache entry: not a directory" else Ok None
  end.

(** [Has]: the directory of the entry is there; a file in its place is none. *)
Definition diskHas (d : DiskCacheStore) (fs : FS) (key : string) : result bool :=
  let p := entryDir d key in
  if bool_decide (p ∈ fsDirs fs) then Ok true
  else if throughFile (removelast p) fs then Err "stat cache entry: not a directory"
  else Ok false.

(** [writeAtomic]; the temporary file is removed when the rename fails. *)
Definition writeAtomic (dir : path) (name data : string) (now : Z) (fs : FS) : result unit * FS :=
  let tmp := dir ++ [name +:+ ".tmp"] in
  match writeFile tmp data now fs with
  | Err e => (Err ("write temp cache file: " +:+ e), fs)
  | Ok fs1 =>
      match renameFile tmp (dir ++ [name]) fs1 with
      | Err e => (Err ("rename cache file: " +:+ e), removeFile tmp fs1)
      | Ok fs2 => (Ok tt, fs2)
      end
  end.

(** ** Eviction *)

Record entryInfo := mkEntryInfo {
  entPath : list string;
  entSize : Z;
  entModTime : Z
}.

(** [dirStats]: total size and newest modification of the files directly in
    the directory. *)
Definition dirStats (p : path) (fs : FS) : Z * Z :=
  foldr (fun f acc => (acc.1 + Z.of_nat (slen f.2.1), Z.max acc.2 f.2.2)%Z) (0, 0)%Z (dirFiles p fs).

(** The entry a key directory contributes to a scan. *)
Definition entryAt (p : list string) (fs : FS) : entryInfo :=
  let '(size, newest) := dirStats p fs in mkEntryInfo p size newest.

(** [scanEntries]: the directories two levels down. *)
Definition scanEntries (d : DiskCacheStore) (fs : FS) : list entryInfo :=
  concat (map (fun shard =>
    map (fun k => entryAt (dsDir d ++ [shard; k]) fs)
        (subDirs (dsDir d ++ [shard]) fs))
    (subDirs (dsDir d) fs)).

Definition totalSize (es : list entryInfo) : Z := foldr (fun e n => (entSize e + n)%Z) 0%Z es.

Definition olderEq (a b : entryInfo) : Prop := (entModTime a <= entModTime b)%Z.
#[global] Instance olderEq_dec : RelDecision olderEq.
Proof. intros a b. unfold olderEq. apply _. Defined.

(** The removal loops of [evict] and [Clean]: [stop total e] ends the loop
    before [e]. *)
Fixpoint removeWhile (stop : Z -> entryInfo -> bool) (total : Z) (es : list entryInfo) (fs : FS) : FS :=
  match es with
  | [] => fs
  | e :: rest =>
      if stop total e then fs
      else removeWhile stop (total - entSize e)%Z rest (removeAll (entPath e) fs)
  end.

Definition evict (d : DiskCacheStore) (fs : FS) : FS :=
  let es := scanEntries d fs in
  let total := totalSize es in
  if (total <=? dsMaxSize d)%Z then fs
  else removeWhile (fun total _ => (total <=? dsMaxSize d)%Z) total (isort olderEq es) fs.

Definition diskPut (d : DiskCacheStore) (key name value : string) (now : Z) (fs : FS)
    : result unit * FS :=
  match validateName name with
  | Err e => (Err e, fs)
  | Ok _ =>
      let dir := entryDir d key in
      match mkdirAll dir fs with
      | Err e => (Err ("create cache subdir: " +:+ e), fs)
      | Ok fs1 =>
          let '(r, fs2) := writeAtomic dir name value now fs1 in
          match r with
          | Err e => (Err e, fs2)
          | Ok _ => (Ok tt, if (0 <? dsMaxSize d)%Z then evict d fs2 else fs2)
          end
      end
  end.

(** [Stats] and [Clean]. *)
Definition diskStats (d : DiskCacheStore) (fs : FS) : nat * Z :=
  let es := scanEntries d fs in (length es, totalSize es).

Definition diskClean (d : DiskCacheStore) (maxSize maxAge now : Z) (fs : FS) : FS :=
  let es := scanEntries d fs in
  let cutoff := if (0 <? maxAge)%Z then (now - maxAge)%Z else 0%Z in
  removeWhile (fun total e =>
    negb ((0 <? cutoff)%Z && (entModTime e <? cutoff)%Z)
    && negb ((0 <? maxSize)%Z && (maxSize <? total)%Z))
    (totalSize es) (isort olderEq es) fs.

(** ** The store interface

    What a cache facade relies on: blobs are addressed by a namespace (the
    prefixes of the [Namespace] calls), a key and a name. *)
Class StoreOps (S : Type) := {
  sGet : S -> list string -> string -> string -> result (option string);
  sPut : S -> list string -> string -> string -> string -> Z -> result unit * S;
  sHas : S -> list string -> string -> result bool
}.

(** Two blobs of namespaces of one depth that a [Put] of the first leaves
    apart: a different address, and not its temporary file. *)
Definition apart (ns : list string) (k n : string) (ns' : list string) (k' n' : string) : Prop :=
  length ns = length ns' /\ k <> "" /\ k' <> "" /\ (ns, k, n) <> (ns', k', n') /\
  (ns, k, n +:+ ".tmp") <> (ns', k', n').

Class StoreLaws (S : Type) `{!StoreOps S} := {
  get_put_same s ns k n v now s' :
    sPut s ns k n v now = (Ok tt, s') -> sGet s' ns k n = Ok (Some v);
  get_put_any s ns k n v now r s' :
    sPut s ns k n v now = (r, s') -> k <> "" ->
    sGet s' ns k n = sGet s ns k n \/ sGet s' ns k n = Ok (Some v);
  get_put_apart s ns k n v now r s' ns' k' n' :
    sPut s ns k n v now = (r, s') -> apart ns k n ns' k' n' -> sGet s' ns' k' n' = sGet s ns' k' n';
  has_put s ns k n v now s' :
    sPut s ns k n v now = (Ok tt, s') -> sHas s' ns k = Ok true;
  has_put_mono s ns k n v now r s' ns' k' :
    sPut s ns k n v now = (r, s') -> sHas s ns' k' = Ok true -> sHas s' ns' k' = Ok true;
  has_put_apart s ns k n v now r s' ns' k' :
    sPut s ns k n v now = (r, s') -> length ns = length ns' -> k <> "" -> k' <> "" ->
    (ns, k) <> (ns', k') -> sHas s' ns' k' = sHas s ns' k'
}.

(** What remains of these laws when any read may fail, as it may over a
    network: they hold of the reads that are answered. *)
Class StoreSafety (S : Type) `{!StoreOps S} := {
  safe_get_same s ns k n v now s' o :
    sPut s ns k n v now = (Ok tt, s') -> sGet s' ns k n = Ok o -> o = Some v;
  safe_get_any s ns k n v now r s' o o' :
    sPut s ns k n v now = (r, s') -> k <> "" -> sGet s ns k n = Ok o -> sGet s' ns k n = Ok o' -> o' = o \/ o' = Some v;
  safe_get_apart s ns k n v now r s' ns' k' n' o o' :
    sPut s ns k n v now = (r, s') -> apart ns k n ns' k' n' -> sGet s ns' k' n' = Ok o -> sGet s' ns' k' n' = Ok o' -> o' = o;
  safe_has_put s ns k n v now s' h :
    sPut s ns k n v now = (Ok tt, s') -> sHas s' ns k = Ok h -> h = true;
  safe_has_mono s ns k n v now r s' ns' k' h :
    sPut s ns k n v now = (r, s') -> sHas s ns' k' = Ok true -> sHas s' ns' k' = Ok h -> h = true;
  safe_has_apart s ns k n v now r s' ns' k' h h' :
    sPut s ns k n v now = (r, s') -> length ns = length ns' -> k <> "" -> k' <> "" ->
    (ns, k) <> (ns', k') -> sHas s ns' k' = Ok h -> sHas s' ns' k' = Ok h' -> h' = h
}.

(** ** Facts *)

#[export] Instance laws_safety {S} `{!StoreOps S} : StoreLaws S -> StoreSafety S.
Proof.
  intros L. split.
  - intros s ns k n v now s' o H E. rewrite (get_put_same _ _ _ _ _ _ _ H) in E. congruence.
  - intros s ns k n v now r s' o o' H Hk E E'. destruct (get_put_any _ _ _ _ _ _ _ _ H Hk); [left|right]; congruence.
  - intros s ns k n v now r s' ns' k' n' o o' H Ha E E'. rewrite (get_put_apart _ _ _ _ _ _ _ _ _ _ _ H Ha) in E'. congruence.
  - intros s ns k n v now s' h H E. rewrite (has_put _ _ _ _ _ _ _ H) in E. congruence.
  - intros s ns k n v now r s' ns' k' h H E E'. rewrite (has_put_mono _ _ _ _ _ _ _ _ _ _ H E) in E'. congruence.
  - intros s ns k n v now r s' ns' k' h h' H Hl Hk Hk' Hne E E'. rewrite (has_put_apart _ _ _ _ _ _ _ _ _ _ H Hl Hk Hk' Hne) in E'. congruence.
Qed.

Lemma hexDigit_inj a b : (a < 16)%N -> (b < 16)%N -> hexDigit a = hexDigit b -> a = b.
Proof.
  intros Ha Hb H.
  assert (forall n, (n < 16)%N -> N_of_ascii (hexDigit n) = if (n <? 10)%N then (48 + n)%N else (87 + n)%N)
    as Hd.
  { intros n Hn. unfold hexDigit. apply N_ascii_embedding. destruct (N.ltb_spec n 10); lia. }
  apply (f_equal N_of_ascii) in H. rewrite !Hd in H by done.
  destruct (N.ltb_spec a 10), (N.ltb_spec b 10); lia.
Qed.

Lemma hexEncode_inj a b : hexEncode a = hexEncode b -> a = b.
Proof.
  revert b. induction a as [|c a IH]; intros [|d b] H; cbn in H; simplify_eq; [done|].
  rewrite (IH b) by done. f_equal.
  assert (N_of_ascii c < 256)%N by apply N_ascii_bounded.
  assert (N_of_ascii d < 256)%N by apply N_ascii_bounded.
  match goal with H1 : hexDigit (_ / 16) = _, H2 : hexDigit (_ mod 16) = _ |- _ =>
    apply hexDigit_inj in H1; [apply hexDigit_inj in H2|..] end;
    try (apply N.mod_lt; lia); try (apply N.Div0.div_lt_upper_bound; lia).
  rewrite <- (ascii_N_embedding c), <- (ascii_N_embedding d). f_equal.
  rewrite (N.div_mod (N_of_ascii c) 16), (N.div_mod (N_of_ascii d) 16) by lia. congruence.
Qed.

Lemma slen_hexEncode s : slen (hexEncode s) = 2 * slen s.
Proof. induction s; cbn; lia. Qed.

Lemma entryDir_key d k :
  k <> "" -> entryDir d k = dsDir d ++ [stake 2 (hexEncode k); hexEncode k].
Proof.
  intros Hk. unfold entryDir. rewrite slen_hexEncode.
  destruct k; [done|]. cbn [slen]. by replace (2 <=? 2 * S (slen k)) with true by (symmetry; apply Nat.leb_le; lia).
Qed.

(** Joining a valid name to a directory appends it to the components. *)
Lemma join_valid_name rs c :
  Forall proper rs -> validateNamespace c = Ok tt -> proper c /\ join [absOf rs; c] = absOf (rs ++ [c]).
Proof.
  intros Hr H. assert (proper c) as Hc.
  { unfold validateNamespace in H. destruct (String.eqb_spec c ""); [done|].
    destruct (String.eqb_spec c "."), (String.eqb_spec c ".."); try done. cbn [orb] in H.
    destruct (hasBadByte c) eqn:E; [done|]. split_and!; try done. clear -E.
    induction c as [|x c IH]; [done|]. cbn [hasBadByte containsByte] in *.
    apply orb_false_iff in E as [E1 E2]. rewrite IH by done.
    unfold badNameByte in E1. apply orb_false_iff in E1 as [E1 _].
    apply orb_false_iff in E1 as [E1 _]. unfold slash. by rewrite E1. }
  split; [done|]. apply (proper_rel_join rs [c]); [done| |done]. by constructor.
Qed.

(** What a [Put] without size limit does to the files and directories. *)
Lemma diskPut_effect d k n v now fs r fs' :
  dsMaxSize d = 0%Z -> diskPut d k n v now fs = (r, fs') ->
  (forall q, q <> entryDir d k ++ [n] -> q <> entryDir d k ++ [n +:+ ".tmp"] ->
     fsFiles fs' !! q = fsFiles fs !! q) /\
  (fsDirs fs' = fsDirs fs \/
   fsDirs fs' = list_to_set (pathPrefixes (entryDir d k)) ∪ fsDirs fs) /\
  (r = Ok tt -> fsFiles fs' !! (entryDir d k ++ [n]) = Some (v, now) /\
     entryDir d k ++ [n] ∉ fsDirs fs' /\ validateName n = Ok tt /\
     fsDirs fs' = list_to_set (pathPrefixes (entryDir d k)) ∪ fsDirs fs).
Proof.
  intros Hmax H. unfold diskPut in H. destruct (validateName n) as [[]|] eqn:En; [|simplify_eq; split_and!; [done|by auto|done]].
  unfold mkdirAll in H. destruct (existsb _ _); [simplify_eq; split_and!; [done|by auto|done]|].
  unfold writeAtomic, writeFile, renameFile, removeFile in H. rewrite Hmax in H. cbn [Z.ltb Z.compare] in H.
  cbn [fsDirs fsFiles] in H. set (dirs := list_to_set _ ∪ fsDirs fs) in *.
  case_bool_decide; [simplify_eq; split_and!; [done|by auto|done]|].
  case_bool_decide; cbn [negb] in H; [|simplify_eq; split_and!; [done|by auto|done]].
  cbn [fsDirs fsFiles] in H. case_bool_decide.
  - simplify_eq. split_and!; [|by auto|done]. intros q Hq1 Hq2. cbn.
    rewrite lookup_delete_ne by congruence. by rewrite lookup_insert_ne by congruence.
  - rewrite lookup_insert_eq in H. simplify_eq. cbn [fsFiles fsDirs].
    split_and!; [|by auto|].
    + intros q Hq1 Hq2. rewrite lookup_insert_ne by congruence.
      rewrite lookup_delete_ne by congruence. by rewrite lookup_insert_ne by congruence.
    + intros _. by rewrite lookup_insert_eq.
Qed.

(** A failed [Put] leaves the blob as it was. *)
Lemma diskPut_failed d k n v now fs e fs' :
  dsMaxSize d = 0%Z -> diskPut d k n v now fs = (Err e, fs') ->
  fsFiles fs' !! (entryDir d k ++ [n]) = fsFiles fs !! (entryDir d k ++ [n]).
Proof.
  intros Hmax H. unfold diskPut in H. destruct (validateName n) as [[]|]; [|by simplify_eq].
  unfold mkdirAll in H. destruct (existsb _ _); [by simplify_eq|].
  unfold writeAtomic, writeFile, renameFile, removeFile in H. rewrite Hmax in H.
  cbn [Z.ltb Z.compare fsDirs fsFiles] in H.
  assert (entryDir d k ++ [n +:+ ".tmp"] <> entryDir d k ++ [n]) as Hne.
  { intros E. apply (inj (app (entryDir d k))) in E. injection E as E.
    apply (f_equal slen) in E. rewrite slen_app in E. cbn in E. lia. }
  case_bool_decide; [by simplify_eq|]. case_bool_decide; cbn [negb fsDirs fsFiles] in H; [|by simplify_eq].
  case_bool_decide; [|by rewrite lookup_insert_eq in H]. simplify_eq. cbn.
  rewrite lookup_delete_ne by done. by rewrite lookup_insert_ne.
Qed.

Lemma pathPrefixes_spec p q : q ∈ pathPrefixes p <-> exists r, p = q ++ r.
Proof.
  revert q. induction p as [|c p IH]; intros q; cbn [pathPrefixes].
  - rewrite list_elem_of_singleton. split; [intros ->; by exists []|].
    intros [r H]. by destruct q.
  - rewrite elem_of_cons, list_elem_of_fmap. split.
    + intros [->|(q' & -> & [r ->]%IH)]; [by exists (c :: p)|by exists r].
    + intros [r H]. destruct q as [|c' q]; [by left|]. right. simplify_eq/=.
      exists q. split; [done|]. apply IH. eauto.
Qed.

(** Addresses of one depth determine their path. *)
Lemma blob_path_inj root ns k n ns' k' n' :
  length ns = length ns' -> k <> "" -> k' <> "" ->
  entryDir (mkDiskCacheStore (root ++ ns) 0) k ++ [n]
  = entryDir (mkDiskCacheStore (root ++ ns') 0) k' ++ [n'] -> (ns, k, n) = (ns', k', n').
Proof.
  intros Hl Hk Hk' H. rewrite !entryDir_key in H by done. cbn [dsDir] in H.
  rewrite <- !app_assoc in H. apply app_inv_head in H.
  apply app_inj_1 in H as [-> H]; [|done]. cbn in H.
  injection H as _ Hh ->. by apply hexEncode_inj in Hh as ->.
Qed.

Lemma entry_path_inj root ns k ns' k' :
  length ns = length ns' -> k <> "" -> k' <> "" ->
  entryDir (mkDiskCacheStore (root ++ ns) 0) k = entryDir (mkDiskCacheStore (root ++ ns') 0) k' ->
  (ns, k) = (ns', k').
Proof.
  intros Hl Hk Hk' H. assert (E := blob_path_inj root ns k "" ns' k' "" Hl Hk Hk').
  rewrite H in E. specialize (E eq_refl). congruence.
Qed.

(** A directory of the same depth as an entry is on its path only if it is
    the entry. *)
Lemma entry_prefix root ns k ns' k' :
  length ns = length ns' -> k <> "" -> k' <> "" ->
  entryDir (mkDiskCacheStore (root ++ ns') 0) k'
    ∈ pathPrefixes (entryDir (mkDiskCacheStore (root ++ ns) 0) k) -> (ns, k) = (ns', k').
Proof.
  intros Hl Hk Hk' [r H]%pathPrefixes_spec. apply (entry_path_inj root); [done..|].
  rewrite H. assert (r = []) as ->; [|by rewrite app_nil_r].
  apply (f_equal length) in H. rewrite !entryDir_key in H by done.
  rewrite !length_app in H. cbn in H. rewrite !length_app in H. destruct r; [done|cbn in H; lia].
Qed.

Lemma blob_not_prefix root ns k ns' k' n' :
  length ns = length ns' -> k <> "" -> k' <> "" ->
  entryDir (mkDiskCacheStore (root ++ ns') 0) k' ++ [n']
    ∉ pathPrefixes (entryDir (mkDiskCacheStore (root ++ ns) 0) k).
Proof.
  intros Hl Hk Hk' [r H]%pathPrefixes_spec.
  apply (f_equal length) in H. rewrite !entryDir_key in H by done.
  rewrite !length_app in H. cbn in H. rewrite !length_app in H. lia.
Qed.

(** A [Put] puts no file on the way to an entry of its depth. *)
Lemma throughFile_same root ns k n v now fs r fs' ns' k' p :
  diskPut (mkDiskCacheStore (root ++ ns) 0) k n v now fs = (r, fs') -> length ns = length ns' -> k <> "" -> k' <> "" ->
  (exists t, entryDir (mkDiskCacheStore (root ++ ns') 0) k' = p ++ t) -> throughFile p fs' = throughFile p fs.
Proof.
  intros H Hl Hk Hk' [t Ht]. apply diskPut_effect in H as (Hf & _); [|done]. unfold throughFile. apply eq_iff_eq_true. rewrite !existsb_exists.
  assert (forall q, In q (pathPrefixes p) -> fsFiles fs' !! q = fsFiles fs !! q) as E; [|by split; intros (q & Hq & Hb); exists q; rewrite ?E in *].
  intros q Hq%list_elem_of_In. assert (q ∈ pathPrefixes (entryDir (mkDiskCacheStore (root ++ ns') 0) k')) as Hq'.
  { apply pathPrefixes_spec in Hq as [u ->]. apply pathPrefixes_spec. exists (u ++ t). by rewrite app_assoc. }
  apply Hf; intros ->; by eapply (blob_not_prefix root ns' k' ns k).
Qed.

(** ** The disk store implements the interface

    [root] is the directory given to [NewDiskCacheStore]; the operations are
    those of a store reached through [Namespace], so without size limit. *)
Definition disk_ops (root : list string) : StoreOps FS := {|
  sGet fs ns k n := diskGet (mkDiskCacheStore (root ++ ns) 0) fs k n;
  sPut fs ns k n v now := diskPut (mkDiskCacheStore (root ++ ns) 0) k n v now fs;
  sHas fs ns k := diskHas (mkDiskCacheStore (root ++ ns) 0) fs k
|}.

Lemma diskGet_found root ns k n v now fs fs' : diskPut (mkDiskCacheStore (root ++ ns) 0) k n v now fs = (Ok tt, fs') ->
  diskGet (mkDiskCacheStore (root ++ ns) 0) fs' k n = Ok (Some v).
Proof.
  intros H. apply diskPut_effect in H as (_ & _ & H); [|done]. destruct (H eq_refl) as (Hf & Hd & Hn & _). unfold diskGet. rewrite Hn. cbn [rbind].
  rewrite bool_decide_eq_false_2 by done. by rewrite Hf.
Qed.

(** A blob whose file was not touched is read as before. *)
Lemma diskGet_same root ns k n v now fs r fs' ns' k' n' :
  diskPut (mkDiskCacheStore (root ++ ns) 0) k n v now fs = (r, fs') -> length ns = length ns' -> k <> "" -> k' <> "" ->
  fsFiles fs' !! (entryDir (mkDiskCacheStore (root ++ ns') 0) k' ++ [n']) = fsFiles fs !! (entryDir (mkDiskCacheStore (root ++ ns') 0) k' ++ [n']) ->
  diskGet (mkDiskCacheStore (root ++ ns') 0) fs' k' n' = diskGet (mkDiskCacheStore (root ++ ns') 0) fs k' n'.
Proof.
  intros H Hl Hk Hk' Hf. unfold diskGet. destruct (validateName n') as [[]|]; [|done]. cbn [rbind].
  rewrite Hf, (throughFile_same root ns k n v now fs r fs' ns' k') by (done || by exists []; rewrite app_nil_r).
  apply diskPut_effect in H as (_ & Hd & _); [|done].
  assert (bool_decide (entryDir (mkDiskCacheStore (root ++ ns') 0) k' ++ [n'] ∈ fsDirs fs')
    = bool_decide (entryDir (mkDiskCacheStore (root ++ ns') 0) k' ++ [n'] ∈ fsDirs fs)) as ->; [|done].
  apply bool_decide_ext. destruct Hd as [->| ->]; [done|].
  assert (Hb := blob_not_prefix root ns k ns' k' n' Hl Hk Hk'). set_solver.
Qed.

Lemma disk_laws (root : list string) : @StoreLaws FS (disk_ops root).
Proof.
  split; cbn.
  - intros fs ns k n v now fs' H. by eapply diskGet_found.
  - intros fs ns k n v now r fs' H Hk. destruct r as [[]|e]; [right; by eapply diskGet_found|left].
    eapply diskGet_same; [exact H|done..|]. by eapply diskPut_failed.
  - intros fs ns k n v now r fs' ns' k' n' H (Hl & Hk & Hk' & Hne & Hnt). eapply diskGet_same; [exact H|done..|].
    apply diskPut_effect in H as (Hf & _); [|done].
    apply Hf; [by intros E; apply Hne; symmetry in E; apply blob_path_inj in E|by intros E; apply Hnt; symmetry in E; apply blob_path_inj in E].
  - intros fs ns k n v now fs' H. apply diskPut_effect in H as (_ & _ & H); [|done].
    destruct (H eq_refl) as (_ & _ & _ & Hd). unfold diskHas. rewrite bool_decide_eq_true_2; [done|].
    rewrite Hd. apply elem_of_union_l, elem_of_list_to_set, pathPrefixes_spec.
    exists []. by rewrite app_nil_r.
  - intros fs ns k n v now r fs' ns' k' H Hh. apply diskPut_effect in H as (_ & Hd & _); [|done]. unfold diskHas in *.
    rewrite bool_decide_eq_true_2; [done|]. case_bool_decide as Hin; [destruct Hd as [->| ->]; set_solver|by destruct (throughFile _ _)].
  - intros fs ns k n v now r fs' ns' k' H Hl Hk Hk' Hne. unfold diskHas.
    rewrite (throughFile_same root ns k n v now fs r fs' ns' k') by (done || eexists; apply (app_removelast_last (EmptyString)); by rewrite entryDir_key by done; destruct (root ++ ns')).
    apply diskPut_effect in H as (_ & Hd & _); [|done].
    assert (entryDir (mkDiskCacheStore (root ++ ns') 0) k'
      ∉ pathPrefixes (entryDir (mkDiskCacheStore (root ++ ns) 0) k)).
    { intros Hin. by apply Hne, (entry_prefix root). }
    assert (bool_decide (entryDir (mkDiskCacheStore (root ++ ns') 0) k' ∈ fsDirs fs')
      = bool_decide (entryDir (mkDiskCacheStore (root ++ ns') 0) k' ∈ fsDirs fs)) as ->; [|done].
    apply bool_decide_ext. destruct Hd as [->| ->]; [done|]. set_solver.
Qed.

(** ** The interface in memory

    A map from (namespace, key, name) to values: the plainest store that meets
    the laws, and one whose writes always succeed. *)
Abbreviation MemStore := (gmap (list string * string * string) string).

Definition memHas (m : MemStore) (ns : list string) (k : string) : bool :=
  existsb (fun e => bool_decide (e.1.1 = (ns, k))) (map_to_list m).

Definition mem_ops : StoreOps MemStore := {|
  sGet m ns k n := Ok (m !! (ns, k, n));
  sPut m ns k n v now := (Ok tt, <[(ns, k, n) := v]> m);
  sHas m ns k := Ok (memHas m ns k)
|}.

Lemma memHas_true m ns k : memHas m ns k = true <-> exists n v, m !! (ns, k, n) = Some v.
Proof.
  unfold memHas. rewrite existsb_exists. split.
  - intros ([[[ns' k'] n] v] & Hin & E). apply bool_decide_eq_true in E. cbn in E. simplify_eq.
    apply list_elem_of_In, elem_of_map_to_list in Hin. eauto.
  - intros (n & v & H). exists (ns, k, n, v). split; [by apply list_elem_of_In, elem_of_map_to_list|].
    by apply bool_decide_eq_true.
Qed.

Lemma mem_laws : @StoreLaws MemStore mem_ops.
Proof.
  split; cbn.
  - intros m ns k n v _ m' [= <-]. by rewrite lookup_insert_eq.
  - intros m ns k n v _ r m' [= <- <-] _. right. by rewrite lookup_insert_eq.
  - intros m ns k n v _ r m' ns' k' n' [= <- <-] (_ & _ & _ & Hne & _). rewrite lookup_insert_ne; [done|]. congruence.
  - intros m ns k n v _ m' [= <-]. f_equal. apply memHas_true. exists n, v. by rewrite lookup_insert_eq.
  - intros m ns k n v _ r m' ns' k' [= <- <-] [= H]. apply memHas_true in H. f_equal. apply memHas_true.
    destruct H as (n' & v' & H). destruct (decide ((ns, k, n) = (ns', k', n'))) as [E|Hne];
      [exists n, v; simplify_eq; by rewrite lookup_insert_eq|exists n', v'; by rewrite lookup_insert_ne].
  - intros m ns k n v _ r m' ns' k' [= <- <-] _ _ _ Hne. f_equal. apply eq_true_iff_eq. rewrite !memHas_true.
    split; intros (n' & v' & H); exists n', v'; [rewrite lookup_insert_ne in H by congruence|
      rewrite lookup_insert_ne by congruence]; done.
Qed.

(** ** Eviction: facts *)

Lemma childName_spec p q n : childName p q = Some n <-> q = p ++ [n].
Proof.
  unfold childName. split.
  - case_bool_decide as H; [|done]. destruct (drop (length p) q) as [|x [|]] eqn:E; intros; simplify_eq.
    rewrite <- (take_drop (length p) q). congruence.
  - intros ->. rewrite take_app_length, drop_app_length. by rewrite bool_decide_eq_true_2.
Qed.

Lemma NoDup_omap_inj {A B} (f : A -> option B) (l : list A) :
  (forall x y b, f x = Some b -> f y = Some b -> x = y) -> NoDup l -> NoDup (omap f l).
Proof.
  intros Hf. induction 1 as [|x l Hx _ IH]; cbn; [apply NoDup_nil_2|].
  destruct (f x) as [b|] eqn:E; [|done]. constructor; [|done].
  rewrite list_elem_of_omap. intros (y & Hy & Ey). by rewrite (Hf x y b E Ey) in Hx.
Qed.

Lemma subDirs_spec p fs : NoDup (subDirs p fs) /\ forall n, n ∈ subDirs p fs <-> p ++ [n] ∈ fsDirs fs.
Proof.
  unfold subDirs. split.
  - rewrite sortStrings_Permutation. apply NoDup_omap_inj; [|apply NoDup_elements].
    intros x y b Hx Hy. apply childName_spec in Hx, Hy. congruence.
  - intros n. rewrite sortStrings_Permutation, list_elem_of_omap. split.
    + intros (q & Hq & ->%childName_spec). by apply elem_of_elements.
    + intros H. exists (p ++ [n]). split; [by apply elem_of_elements|by apply childName_spec].
Qed.

Lemma entPath_entryAt p fs : entPath (entryAt p fs) = p.
Proof. unfold entryAt. by destruct (dirStats p fs). Qed.

Lemma entryAt_inj p q fs fs' : entryAt p fs = entryAt q fs' -> p = q.
Proof. intros E. apply (f_equal entPath) in E. by rewrite !entPath_entryAt in E. Qed.

Lemma scanEntries_spec d fs :
  NoDup (scanEntries d fs) /\
  forall e, e ∈ scanEntries d fs <->
    exists s k, dsDir d ++ [s] ∈ fsDirs fs /\ dsDir d ++ [s; k] ∈ fsDirs fs /\
      e = entryAt (dsDir d ++ [s; k]) fs.
Proof.
  unfold scanEntries.
  assert (forall s n, n ∈ subDirs (dsDir d ++ [s]) fs <-> dsDir d ++ [s; n] ∈ fsDirs fs) as Hsub.
  { intros s n. destruct (subDirs_spec (dsDir d ++ [s]) fs) as [_ H]. by rewrite H, <- app_assoc. }
  destruct (subDirs_spec (dsDir d) fs) as [Hnd Hin]. split.
  - clear Hin. induction Hnd as [|s l Hs _ IH]; cbn [map concat]; [apply NoDup_nil_2|].
    apply NoDup_app. split_and!; [| |done].
    + apply NoDup_fmap_2_strong; [|apply subDirs_spec].
      intros x y _ _ E%entryAt_inj. by apply app_inv_head in E as [= ->].
    + intros e (k & -> & _)%list_elem_of_fmap Hc.
      apply list_elem_of_In, in_concat in Hc as (es & Hes & He).
      apply in_map_iff in Hes as (s' & <- & Hs'). apply in_map_iff in He as (k' & E & _).
      apply entryAt_inj, app_inv_head in E. simplify_eq.
      by apply Hs, list_elem_of_In.
  - intros e. rewrite list_elem_of_In, in_concat. split.
    + intros (es & (s & <- & Hs%list_elem_of_In)%in_map_iff & (k & <- & Hk%list_elem_of_In)%in_map_iff).
      exists s, k. rewrite <- Hin, <- Hsub. done.
    + intros (s & k & Hs & Hk & ->). eexists. split.
      * apply in_map_iff. exists s. split; [done|]. apply list_elem_of_In. by rewrite Hin.
      * apply in_map_iff. exists k. split; [done|]. apply list_elem_of_In. by rewrite Hsub.
Qed.

Lemma isBelow_spec p q : isBelow p q = true <-> exists r, q = p ++ r.
Proof.
  unfold isBelow. rewrite bool_decide_eq_true. split.
  - intros H. exists (drop (length p) q). by rewrite <- H at 1; rewrite take_drop.
  - intros [r ->]. apply take_app_length.
Qed.

Lemma dirFiles_spec p fs :
  NoDup (dirFiles p fs) /\
  forall n f, (n, f) ∈ dirFiles p fs <-> fsFiles fs !! (p ++ [n]) = Some f.
Proof.
  unfold dirFiles. split.
  - apply NoDup_omap_inj; [|apply NoDup_map_to_list].
    intros [q f] [q' f'] b Hx Hy. cbn in Hx, Hy.
    destruct (childName p q) as [n|] eqn:E; [|done]. destruct (childName p q') as [n'|] eqn:E'; [|done].
    apply childName_spec in E, E'. cbn in Hx, Hy. congruence.
  - intros n f. rewrite list_elem_of_omap. split.
    + intros ([q g] & Hin%elem_of_map_to_list & H). cbn in H.
      destruct (childName p q) eqn:E; [|done]. cbn in H. simplify_eq. by apply childName_spec in E as ->.
    + intros H. exists (p ++ [n], f). rewrite elem_of_map_to_list. split; [done|]. cbn.
      by rewrite (proj2 (childName_spec p (p ++ [n]) n) eq_refl).
Qed.

Lemma dirStats_perm l1 l2 :
  l1 ≡ₚ l2 ->
  foldr (fun (f : string * (string * Z)) acc => (acc.1 + Z.of_nat (slen f.2.1), Z.max acc.2 f.2.2)%Z)
    (0, 0)%Z l1
  = foldr (fun f acc => (acc.1 + Z.of_nat (slen f.2.1), Z.max acc.2 f.2.2)%Z) (0, 0)%Z l2.
Proof.
  induction 1 as [|x l1 l2 _ IH|x y l|l1 l2 l3 _ IH1 _ IH2]; cbn; [done|by rewrite IH| |congruence].
  f_equal; lia.
Qed.

Lemma dirStats_removeAll p q fs :
  length p = length q -> p <> q -> dirStats q (removeAll p fs) = dirStats q fs.
Proof.
  intros Hl Hne. unfold dirStats. apply dirStats_perm.
  destruct (dirFiles_spec q fs) as [N1 M1], (dirFiles_spec q (removeAll p fs)) as [N2 M2].
  apply NoDup_Permutation; [done..|]. intros [n f]. rewrite M1, M2. cbn.
  rewrite map_lookup_filter_Some. cbn. split; [tauto|]. intros H. split; [done|].
  destruct (isBelow p (q ++ [n])) eqn:E; [|done]. apply isBelow_spec in E as [r E].
  by apply app_inj_1 in E as [? _].
Qed.

(** Removing one entry's directory removes it from the scan and nothing
    else. *)
Lemma scan_removeAll d fs e es :
  scanEntries d fs ≡ₚ e :: es -> scanEntries d (removeAll (entPath e) fs) ≡ₚ es.
Proof.
  intros Hp. destruct (scanEntries_spec d fs) as [N1 M1].
  destruct (scanEntries_spec d (removeAll (entPath e) fs)) as [N2 M2].
  assert (NoDup (e :: es)) as Hnd by (by rewrite <- Hp). apply NoDup_cons in Hnd as [He Hnd].
  assert (e ∈ scanEntries d fs) as Hin by (rewrite Hp; set_solver).
  apply M1 in Hin as (s & k & Hs & Hk & Ee).
  assert (entPath e = dsDir d ++ [s; k]) as Epath by (by rewrite Ee, entPath_entryAt).
  assert (forall s' k', isBelow (entPath e) (dsDir d ++ [s'; k']) = false <->
    dsDir d ++ [s'; k'] <> entPath e) as Hb.
  { intros s' k'. rewrite <- not_true_iff_false, isBelow_spec, Epath. split.
    - intros H E. apply H. exists []. by rewrite app_nil_r.
    - intros H [r E]. apply H. rewrite E. rewrite <- app_assoc in E. apply app_inv_head in E.
      by simplify_eq/=; rewrite app_nil_r. }
  assert (forall s', isBelow (entPath e) (dsDir d ++ [s']) = false) as Hb1.
  { intros s'. rewrite <- not_true_iff_false, isBelow_spec, Epath. intros [r E].
    rewrite <- app_assoc in E. apply app_inv_head in E. done. }
  assert (forall s' k', dsDir d ++ [s'; k'] <> entPath e ->
    entryAt (dsDir d ++ [s'; k']) (removeAll (entPath e) fs) = entryAt (dsDir d ++ [s'; k']) fs) as Hst.
  { intros s' k' Hne. unfold entryAt. rewrite dirStats_removeAll; [done| |congruence].
    by rewrite Epath, !length_app. }
  apply NoDup_Permutation; [done..|]. intros x. rewrite M2. cbn [fsDirs removeAll].
  assert (x ∈ es <-> x ∈ scanEntries d fs /\ x <> e) as ->.
  { rewrite Hp. set_solver. }
  rewrite M1. setoid_rewrite elem_of_filter. split.
  - intros (s' & k' & [_ Hs'] & [Hbb Hk'] & ->). apply Hb in Hbb. rewrite Hst by done.
    split; [eauto 6|]. intros E. apply Hbb. by rewrite <- E, entPath_entryAt.
  - intros [(s' & k' & Hs' & Hk' & ->) Hne].
    assert (dsDir d ++ [s'; k'] <> entPath e) as Hd.
    { intros E. apply Hne. rewrite Ee, E, Epath. done. }
    exists s', k'. rewrite Hst by done. split_and!; auto. by apply Hb.
Qed.

#[global] Instance olderEq_trans : Transitive olderEq.
Proof. unfold olderEq. intros ???. lia. Qed.
#[global] Instance olderEq_total : Total olderEq.
Proof. unfold olderEq. intros ??. lia. Qed.

Lemma totalSize_app l1 l2 : totalSize (l1 ++ l2) = (totalSize l1 + totalSize l2)%Z.
Proof. unfold totalSize. induction l1; cbn; lia. Qed.

Lemma totalSize_perm l1 l2 : l1 ≡ₚ l2 -> totalSize l1 = totalSize l2.
Proof. unfold totalSize. induction 1; cbn; lia. Qed.

(** The removal loop deletes a prefix of the list, the shortest one at which
    the loop may stop. *)
Lemma removeWhile_spec stop es total fs :
  exists removed kept, es = removed ++ kept /\
    removeWhile stop total es fs = foldl (fun f e => removeAll (entPath e) f) fs removed /\
    (forall e r, kept = e :: r -> stop (total - totalSize removed)%Z e = true) /\
    (forall r1 e r2, removed = r1 ++ e :: r2 -> stop (total - totalSize r1)%Z e = false).
Proof.
  revert total fs. induction es as [|e es IH]; intros total fs; cbn [removeWhile].
  - exists [], []. split_and!; try done. intros [] ? ? ?; done.
  - destruct (stop total e) eqn:E.
    + exists [], (e :: es). split_and!; try done.
      * intros e' r [= <- <-]. cbn. by rewrite Z.sub_0_r.
      * intros [] ? ? ?; done.
    + destruct (IH (total - entSize e)%Z (removeAll (entPath e) fs)) as (rm & kp & -> & Hr & Hk & Hm).
      exists (e :: rm), kp. split_and!; [done|done| |].
      * intros e' r Hkp. rewrite <- (Hk e' r Hkp). f_equal. unfold totalSize. cbn. lia.
      * intros [|x r1] e' r2 [= -> Hr1]; cbn; [by rewrite Z.sub_0_r|].
        rewrite <- (Hm r1 e' r2 Hr1). f_equal. unfold totalSize. cbn. lia.
Qed.

Lemma scan_removed d fs removed kept :
  scanEntries d fs ≡ₚ removed ++ kept ->
  scanEntries d (foldl (fun f e => removeAll (entPath e) f) fs removed) ≡ₚ kept.
Proof.
  revert fs. induction removed as [|e rm IH]; intros fs Hp; [done|].
  cbn [foldl]. apply IH. by apply scan_removeAll in Hp.
Qed.

Lemma sorted_split_le {A} (R : relation A) l1 l2 :
  StronglySorted R (l1 ++ l2) -> forall a b, a ∈ l1 -> b ∈ l2 -> R a b.
Proof.
  induction l1 as [|x l1 IH]; cbn; intros H a b Ha Hb; [set_solver|].
  inversion H as [|? ? Hs Hx]; subst. apply elem_of_cons in Ha as [->|Ha]; [|by apply IH].
  rewrite Forall_forall in Hx. apply Hx. set_solver.
Qed.

(** ** Properties *)

(** C34: the disk store keeps the contract the cache facade relies on: a
    [Put] is read back by [Get] under the same namespace, key and name; it
    changes no other blob of any namespace of the same depth (tenants are
    isolated from each other), its own temporary name apart; and [Has] then
    reports the key and only that key in addition. *)
Theorem disk_store_contract (root ns ns' : list string) (k k' n n' v : string) (now : Z)
    (fs fs' : FS) (r : result unit) :
  diskPut (mkDiskCacheStore (root ++ ns) 0) k n v now fs = (r, fs') ->
  (r = Ok tt -> diskGet (mkDiskCacheStore (root ++ ns) 0) fs' k n = Ok (Some v) /\
     diskHas (mkDiskCacheStore (root ++ ns) 0) fs' k = Ok true) /\
  (apart ns k n ns' k' n' ->
     diskGet (mkDiskCacheStore (root ++ ns') 0) fs' k' n'
     = diskGet (mkDiskCacheStore (root ++ ns') 0) fs k' n') /\
  (apart ns k n ns' k' n' -> (ns, k) <> (ns', k') ->
     diskHas (mkDiskCacheStore (root ++ ns') 0) fs' k' = diskHas (mkDiskCacheStore (root ++ ns') 0) fs k').
Proof.
  intros H. pose proof (disk_laws root) as L. split_and!.
  - intros ->. split.
    + by apply (@get_put_same _ (disk_ops root) L fs ns k n v now fs').
    + by apply (@has_put _ (disk_ops root) L fs ns k n v now fs').
  - intros Ha. by apply (@get_put_apart _ (disk_ops root) L fs ns k n v now r fs' ns' k' n').
  - intros (Hl & Hk & Hk' & _) Hne.
    by apply (@has_put_apart _ (disk_ops root) L fs ns k n v now r fs' ns' k').
Qed.

Definition emptyFS : FS := mkFS ∅ ∅.

Lemma disk_store_contract_witness :
  let ds t := mkDiskCacheStore (["c"] ++ ["compile"; t]) 0 in
  let fs' := (diskPut (ds "acme") "K" "output" "obj" 5 emptyFS).2 in
  diskGet (ds "acme") fs' "K" "output" = Ok (Some "obj") /\
  diskGet (ds "beta") fs' "K" "output" = diskGet (ds "beta") emptyFS "K" "output".
Proof.
  intros ds fs'.
  destruct (disk_store_contract ["c"] ["compile"; "acme"] ["compile"; "beta"] "K" "K" "output" "output"
    "obj" 5 emptyFS fs' (Ok tt)) as (H1 & H2 & _).
  - vm_compute. reflexivity.
  - split; [by apply H1|]. apply H2. unfold apart. split_and!; try discriminate; reflexivity.
Defined.

(** Eviction brings the store within its size limit and is least
    recently used first: it removes whole entries, each no newer than any
    entry kept, and stops as soon as the limit is met. *)
Theorem evict_within_budget (d : DiskCacheStore) (fs : FS) :
  (0 <= dsMaxSize d)%Z ->
  exists removed kept, scanEntries d fs ≡ₚ removed ++ kept /\ scanEntries d (evict d fs) ≡ₚ kept /\
    (totalSize kept <= dsMaxSize d)%Z /\
    (forall a b, a ∈ removed -> b ∈ kept -> (entModTime a <= entModTime b)%Z) /\
    (forall r e, removed = r ++ [e] -> (dsMaxSize d < totalSize (e :: kept))%Z).
Proof.
  intros Hmax. unfold evict. destruct (Z.leb_spec (totalSize (scanEntries d fs)) (dsMaxSize d)).
  { exists [], (scanEntries d fs). split_and!; [done|done|done|set_solver|]. intros [] ? ?; done. }
  set (es := scanEntries d fs).
  destruct (removeWhile_spec (fun total _ => (total <=? dsMaxSize d)%Z) (isort olderEq es)
    (totalSize es) fs) as (rm & kp & Hsplit & -> & Hk & Hm).
  assert (es ≡ₚ rm ++ kp) as Hp by (rewrite <- Hsplit; symmetry; apply isort_Permutation).
  assert (Ht := totalSize_perm _ _ Hp). rewrite totalSize_app in Ht.
  exists rm, kp. split_and!; [done|by apply scan_removed| | |].
  - destruct kp as [|e kp]; [by cbn|]. specialize (Hk e kp eq_refl). apply Z.leb_le in Hk. lia.
  - apply sorted_split_le. rewrite <- Hsplit. apply isort_Sorted; apply _.
  - intros r e ->. specialize (Hm r e [] eq_refl). apply Z.leb_gt in Hm.
    rewrite totalSize_app in Ht. unfold totalSize in *. cbn in *. lia.
Qed.

(** Two one-blob entries of four bytes, written at times 5 and 9. *)
Definition twoEntries : FS :=
  (diskPut (mkDiskCacheStore ["c"] 0) "L" "output" "efgh" 9
    (diskPut (mkDiskCacheStore ["c"] 0) "K" "output" "abcd" 5 emptyFS).2).2.

Lemma evict_within_budget_witness :
  (totalSize (scanEntries (mkDiskCacheStore ["c"] 6) twoEntries) = 8)%Z /\
  (totalSize (scanEntries (mkDiskCacheStore ["c"] 6) (evict (mkDiskCacheStore ["c"] 6) twoEntries)) <= 6)%Z.
Proof.
  split; [vm_compute; reflexivity|].
  destruct (evict_within_budget (mkDiskCacheStore ["c"] 6) twoEntries) as (rm & kp & _ & H & Ht & _).
  - cbn. lia.
  - rewrite (totalSize_perm _ _ H). exact Ht.
Defined.

(** Statistics and cleaning of a store whose entries live in namespaces
    do not see the entries: [Stats] reports the tenant directories as entries
    of size zero, cleaning to a size removes nothing, and cleaning by age
    removes a tenant's whole directory, here with a blob written one
    nanosecond ago while the limit is an hour. *)
Theorem clean_drops_fresh_entries :
  let root := mkDiskCacheStore ["c"] 0 in
  let hour := 3600000000000%Z in
  let now := 9000000000000%Z in
  let fs := (diskPut (mkDiskCacheStore ["c"; "compile"; "acme"] 0) "K" "output" "obj" (now - 1) emptyFS).2 in
  diskGet (mkDiskCacheStore ["c"; "compile"; "acme"] 0) fs "K" "output" = Ok (Some "obj") /\
  diskStats root fs = (1, 0%Z) /\
  diskClean root 1 0 now fs = fs /\
  fsFiles (diskClean root 0 hour now fs) = ∅.
Proof. by vm_compute. Qed.

(** The configured size limit is not applied to entries: a store derived
    with [Namespace] has no limit, so a [Put] through it never evicts. *)
Theorem namespace_drops_limit (d d' : DiskCacheStore) (prefix k n v : string) (now : Z) (fs : FS) :
  diskNamespace d prefix = Some d' ->
  dsMaxSize d' = 0%Z /\
  forall q, q ∈ fsDirs fs -> q ∈ fsDirs (diskPut d' k n v now fs).2.
Proof.
  unfold diskNamespace. destruct (validateNamespace prefix); [|done]. intros [= <-].
  split; [done|]. intros q Hq.
  destruct (diskPut _ k n v now fs) as [r fs'] eqn:E.
  apply diskPut_effect in E as (_ & Hd & _); [|done]. cbn. destruct Hd as [->| ->]; set_solver.
Qed.

Lemma namespace_drops_limit_witness :
  dsMaxSize (mkDiskCacheStore ["c"; "compile"] 0) = 0%Z.
Proof.
  apply (namespace_drops_limit (mkDiskCacheStore ["c"] 10) (mkDiskCacheStore ["c"; "compile"] 0)
    "compile" "K" "output" "v" 1 emptyFS). reflexivity.
Defined.

(** A blob whose name ends in [.tmp] is accepted and is destroyed by a
    [Put] of the blob it is named after. *)
Theorem tmp_name_clobbered :
  let ds := mkDiskCacheStore ["c"] 0 in
  let fs1 := (diskPut ds "K" "a.tmp" "keep" 1 emptyFS).2 in
  let fs2 := (diskPut ds "K" "a" "other" 2 fs1).2 in
  diskGet ds fs1 "K" "a.tmp" = Ok (Some "keep") /\ diskGet ds fs2 "K" "a.tmp" = Ok None.
Proof. by vm_compute. Qed.
