(* ===== verification/S3Store.v ===== *)
(** * S3Store: the cache store on an object service
    ([internal/cache/store/s3.go]).

    The second implementation of the store interface of the [Store] file: every
    blob is one object of a bucket.  The service is a parameter, as a class of
    its calls ([Service]) with the documented behaviour the store relies on
    ([ServiceLaws]): reads are consistent, listings are ordered by key, a
    deadline can strike during any call, and a bulk delete that is answered
    lists the keys it could not delete.  Deadlines are failing calls.  Eviction is gated by an estimate of the size and an
    [evicting] flag, both part of the store's state. *)

From S2P Require Import Prelude GoStrings GoPath Store.

(** ** The service *)

Record s3Object := mkS3Object {
  obKey : string;
  obSize : Z;
  obLastModified : option Z
}.

(** [bucketObjects] is what is stored: the data and its time.  The answer of
    [DeleteObjects] is its list of per-key errors. *)
Class Service (B : Type) := {
  bucketObjects : B -> gmap string (string * Z);
  GetObject : B -> string -> result (option string);
  PutObject : B -> string -> string -> Z -> result unit * B;
  ListObjectsV2 : B -> string -> nat -> result (list s3Object);
  ListPages : B -> string -> result (list (list s3Object));
  DeleteObjects : B -> list string -> result (list string) * B;
  maxKeys : nat
}.

Definition objectInfo (kv : string * (string * Z)) : s3Object :=
  mkS3Object kv.1 (Z.of_nat (slen kv.2.1)) (Some kv.2.2).

Definition keyLe (a b : string * (string * Z)) : Prop := sle a.1 b.1.
#[global] Instance keyLe_dec : RelDecision keyLe.
Proof. intros a b. unfold keyLe. apply _. Defined.

(** The objects below a prefix, in the order of their keys. *)
Definition listing (objects : gmap string (string * Z)) (prefix : string) : list s3Object :=
  map objectInfo (isort keyLe (List.filter (fun kv => hasPrefix kv.1 prefix) (map_to_list objects))).

Class ServiceLaws (B : Type) `{!Service B} := {
  get_object b k o : GetObject b k = Ok o -> o = fst <$> bucketObjects b !! k;
  put_object b k v now r b' : PutObject b k v now = (r, b') ->
    bucketObjects b' = <[k := (v, now)]> (bucketObjects b) \/ r <> Ok tt /\ bucketObjects b' = bucketObjects b;
  list_objects b p n l : ListObjectsV2 b p n = Ok l -> l = take (Nat.min n maxKeys) (listing (bucketObjects b) p);
  list_pages b p ps : ListPages b p = Ok ps -> concat ps = listing (bucketObjects b) p;
  delete_objects b ks r b' : DeleteObjects b ks = (r, b') ->
    exists gone, gone ⊆ ks /\ (forall errs, r = Ok errs -> forall k, k ∈ ks -> k ∈ gone \/ k ∈ errs) /\
      bucketObjects b' = filter (fun kv => kv.1 ∉ gone) (bucketObjects b);
  max_keys : 0 < maxKeys
}.

(** ** The store *)

Definition defaultObjectPrefix : string := "cache/".
Definition defaultS3MaxBlobBytes : Z := 2 ^ 30.
Definition evictHysteresisDenom : Z := 10.
Definition s3DeleteBatchMax : nat := 1000.

Record S3CacheStore := mkS3CacheStore {
  s3Prefix : string;
  s3MaxSize : Z;
  s3MaxBlobBytes : Z;
  s3EstimateSize : Z;
  s3Evicting : bool
}.

Definition resetEstimate (actual : Z) (s : S3CacheStore) : S3CacheStore :=
  mkS3CacheStore (s3Prefix s) (s3MaxSize s) (s3MaxBlobBytes s) actual (s3Evicting s).
Definition bumpEstimate (delta : Z) (s : S3CacheStore) : S3CacheStore := resetEstimate (s3EstimateSize s + delta) s.

Definition shouldEvict (s : S3CacheStore) : bool :=
  if (s3MaxSize s <=? 0)%Z then false
  else (s3MaxSize s + Z.quot (s3MaxSize s) evictHysteresisDenom <? s3EstimateSize s)%Z.

(** [Namespace]: [None] is the panic on an invalid prefix. *)
Definition s3Namespace (s : S3CacheStore) (prefix : string) : option S3CacheStore :=
  match validateNamespace prefix with
  | Ok _ => Some (mkS3CacheStore (s3Prefix s +:+ prefix +:+ "/") 0 (s3MaxBlobBytes s) 0 false)
  | Err _ => None
  end.

(** ** Object keys *)

Definition objectKey (s : S3CacheStore) (key name : string) : string :=
  let h := hexEncode key in
  if slen h <? 2 then s3Prefix s +:+ h +:+ "/" +:+ name
  else s3Prefix s +:+ stake 2 h +:+ "/" +:+ h +:+ "/" +:+ name.

Definition entryPrefix (s : S3CacheStore) (key : string) : string :=
  let h := hexEncode key in
  if slen h <? 2 then s3Prefix s +:+ h +:+ "/"
  else s3Prefix s +:+ stake 2 h +:+ "/" +:+ h +:+ "/".

(** [strings.SplitN] for a positive count. *)
Fixpoint splitN (n : nat) (sep : ascii) (s : string) : list string :=
  match n with
  | 0 => []
  | 1 => [s]
  | S n' => let '(before, after, found) := cut sep s in
            if found then before :: splitN n' sep after else [before]
  end.

(** [hex.DecodeString]; digits of either case. *)
Definition hexVal (c : ascii) : option N :=
  let n := N_of_ascii c in
  if ((48 <=? n) && (n <=? 57))%N then Some (n - 48)%N
  else if ((97 <=? n) && (n <=? 102))%N then Some (n - 87)%N
  else if ((65 <=? n) && (n <=? 70))%N then Some (n - 55)%N
  else None.

Fixpoint hexDecode (s : string) : option string :=
  match s with
  | EmptyString => Some ""
  | String a (String b t) =>
      match hexVal a, hexVal b, hexDecode t with
      | Some x, Some y, Some r => Some (String (ascii_of_N (x * 16 + y)) r)
      | _, _, _ => None
      end
  | _ => None
  end.

Definition parseObjectKey (s prefix : string) : option string :=
  if negb (hasPrefix s prefix) then None
  else match splitN 3 "/" (trimPrefix s prefix) with
       | [shard; hexKey; _] => if negb (slen shard =? 2) then None else hexDecode hexKey
       | [hexKey; _] => hexDecode hexKey
       | _ => None
       end.

(** ** Operations *)

Record s3EntryInfo := mkS3EntryInfo {
  s3eKey : string;
  s3eSize : Z;
  s3eModTime : Z
}.

Definition s3Older (a b : s3EntryInfo) : Prop := (s3eModTime a <= s3eModTime b)%Z.
#[global] Instance s3Older_dec : RelDecision s3Older.
Proof. intros a b. unfold s3Older. apply _. Defined.

(** The entry of a map after one object of it was met. *)
Definition addObject (k : string) (obj : s3Object) (e : option s3EntryInfo) : s3EntryInfo :=
  let e := default (mkS3EntryInfo k 0 0) e in
  mkS3EntryInfo (s3eKey e) (s3eSize e + obSize obj)%Z
    (match obLastModified obj with
     | Some t => if (s3eModTime e <? t)%Z then t else s3eModTime e
     | None => s3eModTime e
     end).

Definition rollUp (prefix : string) (entryMap : gmap string s3EntryInfo) (obj : s3Object) : gmap string s3EntryInfo :=
  match parseObjectKey (obKey obj) prefix with
  | None => entryMap
  | Some k => <[k := addObject k obj (entryMap !! k)]> entryMap
  end.

Definition s3Total (es : list s3EntryInfo) : Z := foldr (fun e n => (s3eSize e + n)%Z) 0%Z es.

(** [chunkObjectIdentifiers], with the rest of the slice as the loop's state. *)
Fixpoint chunkFrom {A} (fuel n : nat) (ids : list A) : list (list A) :=
  match fuel, ids with
  | S fuel', _ :: _ => take n ids :: chunkFrom fuel' n (drop n ids)
  | _, _ => []
  end.
Definition chunkObjectIdentifiers {A} (ids : list A) (n : nat) : list (list A) := chunkFrom (length ids) n ids.

Record S3Options := mkS3Options {
  soBucket : string;
  soMaxSize : Z;
  soAutoCreate : bool;
  soMaxBlobBytes : Z
}.

(** What the listing of the access check comes to. *)
Inductive accessCheck :=
  | Reachable
  | NoSuchBucket (e : string)
  | Inaccessible (e : string).

Section S3.
  Context {B : Type} `{!Service B}.
  (* The order in which Go ranges over the map of entries. *)
  Context (visit : list s3EntryInfo -> list s3EntryInfo).

Definition s3Get (s : S3CacheStore) (b : B) (key name : string) : result (option string) :=
  let! _ := validateName name in
  let objKey := objectKey s key name in
  match GetObject b objKey with
  | Err e => Err ("get S3 object " +:+ objKey +:+ ": " +:+ e)
  | Ok None => Ok None
  | Ok (Some body) =>
      let data := stake (Z.to_nat (s3MaxBlobBytes s + 1)) body in
      if (s3MaxBlobBytes s <? Z.of_nat (slen data))%Z
      then Err ("s3 object " +:+ objKey +:+ " exceeds max blob size of " +:+ itoa (s3MaxBlobBytes s) +:+ " bytes")
      else Ok (Some data)
  end.

Definition s3Has (s : S3CacheStore) (b : B) (key : string) : result bool :=
  match ListObjectsV2 b (entryPrefix s key) 1 with
  | Err e => Err ("list S3 objects: " +:+ e)
  | Ok l => Ok (0 <? length l)
  end.

Definition s3ScanEntries (s : S3CacheStore) (b : B) : result (list s3EntryInfo * Z) :=
  match ListPages b (s3Prefix s) with
  | Err e => Err ("list S3 objects: " +:+ e)
  | Ok pages =>
      let entries := visit (map snd (map_to_list (foldl (foldl (rollUp (s3Prefix s))) ∅ pages))) in
      Ok (entries, s3Total entries)
  end.

(** The per-key errors of an answer are not looked at. *)
Fixpoint deleteBatches (batches : list (list string)) (b : B) : result unit * B :=
  match batches with
  | [] => (Ok tt, b)
  | batch :: rest =>
      match DeleteObjects b batch with
      | (Ok _, b1) => deleteBatches rest b1
      | (Err e, b1) => (Err ("delete S3 objects: " +:+ e), b1)
      end
  end.

(** [deleteEntry]: what one listing returns. *)
Definition deleteEntry (s : S3CacheStore) (key : string) (b : B) : result unit * B :=
  match ListObjectsV2 b (entryPrefix s key) maxKeys with
  | Err e => (Err ("list objects under " +:+ entryPrefix s key +:+ ": " +:+ e), b)
  | Ok l => deleteBatches (chunkObjectIdentifiers (map obKey l) s3DeleteBatchMax) b
  end.

(** The loops of [evict] and [Clean]: the total that is left; a failing delete
    is passed over. *)
Fixpoint deleteWhile (stop : Z -> s3EntryInfo -> bool) (s : S3CacheStore) (total : Z) (es : list s3EntryInfo) (b : B) : Z * B :=
  match es with
  | [] => (total, b)
  | e :: rest =>
      if stop total e then (total, b)
      else match deleteEntry s (s3eKey e) b with
           | (Ok _, b1) => deleteWhile stop s (total - s3eSize e)%Z rest b1
           | (Err _, b1) => deleteWhile stop s total rest b1
           end
  end.

(** [evict]: the argument of the deferred [resetEstimate] is the total of the
    scan, since Go evaluates it at the [defer]. *)
Definition s3Evict (s : S3CacheStore) (b : B) : result unit * S3CacheStore * B :=
  match s3ScanEntries s b with
  | Err e => (Err e, s, b)
  | Ok (entries, total) =>
      let b' := if (total <=? s3MaxSize s)%Z then b
                else (deleteWhile (fun total _ => (total <=? s3MaxSize s)%Z) s total (isort s3Older entries) b).2 in
      (Ok tt, resetEstimate total s, b')
  end.

Definition s3Put (s : S3CacheStore) (key name value : string) (now : Z) (b : B) : result unit * S3CacheStore * B :=
  match validateName name with
  | Err e => (Err e, s, b)
  | Ok _ =>
      let objKey := objectKey s key name in
      match PutObject b objKey value now with
      | (Err e, b1) => (Err ("put S3 object " +:+ objKey +:+ ": " +:+ e), s, b1)
      | (Ok _, b1) =>
          if (0 <? s3MaxSize s)%Z then
            let s1 := bumpEstimate (Z.of_nat (slen value)) s in
            if shouldEvict s1 && negb (s3Evicting s1)
            then let '(_, s2, b2) := s3Evict s1 b1 in (Ok tt, s2, b2)
            else (Ok tt, s1, b1)
          else (Ok tt, s, b1)
      end
  end.

Definition s3Stats (s : S3CacheStore) (b : B) : result (nat * Z) :=
  let! (entries, total) := s3ScanEntries s b in Ok (length entries, total).

(** [NewS3CacheStore] behind the set-up of the client: the access check, with
    the bucket created when it is missing and that is asked for, and the seed
    of the estimate. *)
Definition NewS3CacheStore (opts : S3Options) (probe : accessCheck) (create : result unit) (b : B) : result S3CacheStore :=
  if String.eqb (soBucket opts) "" then Err "s3 cache: bucket is required"
  else
    let maxBlob := if (soMaxBlobBytes opts <=? 0)%Z then defaultS3MaxBlobBytes else soMaxBlobBytes opts in
    let s := mkS3CacheStore defaultObjectPrefix (soMaxSize opts) maxBlob 0 false in
    let! _ := match probe with
              | Reachable => Ok tt
              | NoSuchBucket e => if soAutoCreate opts
                                  then wrapErr ("s3 bucket " +:+ soBucket opts +:+ ": missing and auto_create failed") create
                                  else Err ("s3 bucket " +:+ soBucket opts +:+ " access check: " +:+ e)
              | Inaccessible e => Err ("s3 bucket " +:+ soBucket opts +:+ " access check: " +:+ e)
              end in
    Ok (match s3ScanEntries s b with Ok (_, total) => resetEstimate total s | Err _ => s end).

Definition s3Clean (s : S3CacheStore) (maxSize maxAge now : Z) (b : B) : result unit * S3CacheStore * B :=
  match s3ScanEntries s b with
  | Err e => (Err e, s, b)
  | Ok (entries, total) =>
      let cutoff := if (0 <? maxAge)%Z then (now - maxAge)%Z else 0%Z in
      let '(total, b') := deleteWhile (fun total e =>
          negb ((0 <? cutoff)%Z && (s3eModTime e <? cutoff)%Z) && negb ((0 <? maxSize)%Z && (maxSize <? total)%Z))
        s total (isort s3Older entries) b in
      (Ok tt, resetEstimate total s, b')
  end.
End S3.

(** ** Facts: keys *)

Abbreviation noSlash w := (containsByte w "/"%char = false).

Lemma hexVal_hexDigit n : (n < 16)%N -> hexVal (hexDigit n) = Some n /\ Ascii.eqb (hexDigit n) "/" = false.
Proof.
  revert n. apply (below_ind 16 (fun n => hexVal (hexDigit n) = Some n /\ Ascii.eqb (hexDigit n) "/" = false)). vm_compute. reflexivity.
Qed.

Lemma hexDigits c : (N_of_ascii c / 16 < 16)%N /\ (N_of_ascii c mod 16 < 16)%N.
Proof. pose proof (N_ascii_bounded c). split; [apply N.Div0.div_lt_upper_bound; lia|apply N.mod_lt; lia]. Qed.

Lemma hexDecode_hexEncode s : hexDecode (hexEncode s) = Some s.
Proof.
  induction s as [|c s IH]; [done|]. cbn [hexEncode hexDecode]. destruct (hexDigits c) as [H1 H2].
  rewrite (proj1 (hexVal_hexDigit _ H1)), (proj1 (hexVal_hexDigit _ H2)), IH. f_equal. f_equal.
  rewrite <- (ascii_N_embedding c) at 3. f_equal. rewrite N.mul_comm. symmetry. apply N.div_mod. lia.
Qed.

Lemma hexEncode_noSlash s : noSlash (hexEncode s).
Proof.
  induction s as [|c s IH]; [done|]. cbn [hexEncode containsByte]. destruct (hexDigits c) as [H1 H2].
  by rewrite (proj2 (hexVal_hexDigit _ H1)), (proj2 (hexVal_hexDigit _ H2)), IH.
Qed.

Lemma stake_noSlash n s : noSlash s -> noSlash (stake n s).
Proof.
  revert n. induction s as [|c s IH]; intros [|n] H; [done..|]. cbn [stake containsByte] in *.
  apply orb_false_iff in H as [-> H]. by rewrite IH.
Qed.

(** What the key of an entry adds to a prefix. *)
Definition entryComps (key : string) : list string :=
  let h := hexEncode key in if slen h <? 2 then [h] else [stake 2 h; h].

Lemma entryComps_noSlash key : Forall (fun w => noSlash w) (entryComps key).
Proof.
  pose proof (hexEncode_noSlash key). unfold entryComps. destruct (_ <? _); repeat constructor; auto using stake_noSlash.
Qed.

Lemma entryComps_inj k k' r r' : entryComps k ++ r = entryComps k' ++ r' -> length r = 1 -> length r' = 1 -> k = k' /\ r = r'.
Proof.
  intros H Hr Hr'. unfold entryComps in H. destruct r as [|x []], r' as [|x' []]; try done.
  destruct (slen (hexEncode k) <? 2), (slen (hexEncode k') <? 2); cbn in H; try (apply (f_equal length) in H; done);
    simplify_eq; split; [by apply hexEncode_inj|done|by apply hexEncode_inj|done].
Qed.

Lemma entryComps_prefix k k' n r : entryComps k ++ [n] = entryComps k' ++ r -> r <> [] -> k = k'.
Proof.
  assert (forall x, slen (hexEncode x) < 2 -> x = "") as Hshort by (intros []; [done|cbn; lia]).
  intros E Hr. unfold entryComps in E. destruct (Nat.ltb_spec (slen (hexEncode k)) 2), (Nat.ltb_spec (slen (hexEncode k')) 2); cbn [app] in E.
  - by rewrite (Hshort k), (Hshort k').
  - injection E as _ _ <-. done.
  - rewrite (Hshort k') in E by done. apply (f_equal (fun l => slen (hd EmptyString l))) in E. cbn [hd hexEncode slen] in E. rewrite slen_stake in E by lia. done.
  - injection E as _ E _. by apply hexEncode_inj.
Qed.

(** A store whose prefix has the components [ps]. *)
Record located (ps : list string) (s : S3CacheStore) : Prop := {
  lc_prefix : s3Prefix s = joinWith "/" ps +:+ "/";
  lc_ne : ps <> [];
  lc_slash : Forall (fun w => noSlash w) ps
}.

Lemma entryComps_ne k : entryComps k <> [].
Proof. unfold entryComps. by destruct (_ <? _). Qed.

Lemma entryComps_length k : k <> "" -> length (entryComps k) = 2.
Proof.
  intros H. unfold entryComps. rewrite slen_hexEncode. destruct k as [|c k]; [done|]. cbn [slen].
  by replace (2 * S (slen k) <? 2) with false by (symmetry; apply Nat.ltb_ge; lia).
Qed.

Lemma joinWith_comps ps k r : ps <> [] ->
  joinWith "/" (ps ++ entryComps k ++ [r]) = joinWith "/" ps +:+ "/" +:+ joinWith "/" (entryComps k) +:+ "/" +:+ r.
Proof.
  intros H. pose proof (entryComps_ne k). rewrite joinWith_app; [|done|by destruct (entryComps k)].
  rewrite joinWith_app by done. done.
Qed.

Lemma objectKey_comps ps s k n : located ps s -> objectKey s k n = joinWith "/" (ps ++ entryComps k ++ [n]).
Proof.
  intros [Hp Hne _]. rewrite joinWith_comps by done. unfold objectKey, entryComps. rewrite Hp.
  destruct (_ <? _); cbn [joinWith]; by rewrite !sapp_assoc.
Qed.

Lemma entryPrefix_comps ps s k : located ps s -> entryPrefix s k = joinWith "/" (ps ++ entryComps k ++ [""]).
Proof.
  intros [Hp Hne _]. rewrite joinWith_comps by done. unfold entryPrefix, entryComps. rewrite Hp.
  destruct (_ <? _); cbn [joinWith]; rewrite !sapp_assoc; by rewrite ?sapp_nil_r.
Qed.

(** A name below a directory, on strings and on components. *)
Lemma hasPrefix_joinWith l l1 : Forall (fun w => noSlash w) l -> l <> [] -> l1 <> [] -> Forall (fun w => noSlash w) l1 ->
  hasPrefix (joinWith "/" l) (joinWith "/" (l1 ++ [""])) = true <-> exists r, r <> [] /\ l = l1 ++ r.
Proof.
  intros Hl Hne Hne1 Hl1. rewrite joinWith_app by done. cbn [joinWith]. rewrite sapp_nil_r, hasPrefix_spec. split.
  - intros [r Hr]. exists (splitOn "/" r). split; [apply splitOn_ne|].
    rewrite <- (splitOn_joinWith "/" l), Hr by done. rewrite sapp_assoc. cbn [String.append].
    rewrite splitOn_cons_app, splitOn_joinWith by done. done.
  - intros (r & Hr & ->). exists (joinWith "/" r). rewrite joinWith_app by done. by rewrite sapp_assoc.
Qed.

Lemma joinWith_inj l l' : Forall (fun w => noSlash w) l -> Forall (fun w => noSlash w) l' -> l <> [] -> l' <> [] ->
  joinWith "/" l = joinWith "/" l' -> l = l'.
Proof. intros H H' Hn Hn' E. rewrite <- (splitOn_joinWith "/" l), E by done. by apply splitOn_joinWith. Qed.

Lemma comps_noSlash ps k r : Forall (fun w => noSlash w) ps -> noSlash r -> Forall (fun w => noSlash w) (ps ++ entryComps k ++ [r]).
Proof. intros Hp Hr. rewrite !Forall_app. split_and!; [done|apply entryComps_noSlash|by repeat constructor]. Qed.

Lemma comps_ne ps k r : ps ++ entryComps k ++ [r] <> [].
Proof. by destruct ps, (entryComps k). Qed.

Lemma validateName_noSlash n : validateName n = Ok tt -> noSlash n.
Proof.
  unfold validateName. destruct (String.eqb n ""), (String.eqb n "." || String.eqb n ".."), (hasBadByte n) eqn:E; try done. intros _.
  induction n as [|c n IH]; [done|]. cbn [hasBadByte containsByte] in *. apply orb_false_iff in E as [E E'].
  unfold badNameByte in E. rewrite IH by done. by destruct (Ascii.eqb c "/").
Qed.

Lemma validateNamespace_noSlash n : validateNamespace n = Ok tt -> noSlash n.
Proof.
  intros H. apply validateName_noSlash. unfold validateName, validateNamespace in *.
  by destruct (String.eqb n ""), (String.eqb n "." || String.eqb n ".."), (hasBadByte n).
Qed.

(** ** Facts: listings *)

Lemma objectInfo_keys l : map obKey (map objectInfo l) = l.*1.
Proof. rewrite map_map. apply map_ext. done. Qed.

Lemma listing_keys objects p : map obKey (listing objects p) ≡ₚ List.filter (fun k => hasPrefix k p) (map_to_list objects).*1.
Proof.
  unfold listing. rewrite objectInfo_keys, isort_Permutation. induction (map_to_list objects) as [|[k v] l IH]; [done|]. cbn.
  destruct (hasPrefix k p); cbn; by rewrite IH.
Qed.

Lemma elem_of_listing objects p k : k ∈ map obKey (listing objects p) <-> is_Some (objects !! k) /\ hasPrefix k p = true.
Proof.
  rewrite listing_keys, list_elem_of_In, filter_In, <- list_elem_of_In, list_elem_of_fmap. split.
  - intros [([k' v] & -> & H) Hp]. apply elem_of_map_to_list in H. cbn in *. split; [by eexists|done].
  - intros [[v H] Hp]. split; [|done]. exists (k, v). split; [done|]. by apply elem_of_map_to_list.
Qed.

Lemma listing_empty objects p : listing objects p = [] <-> forall k, is_Some (objects !! k) -> hasPrefix k p = false.
Proof.
  split.
  - intros E k Hk. destruct (hasPrefix k p) eqn:Hp; [|done]. assert (k ∈ map obKey (listing objects p)) as H by by apply elem_of_listing.
    rewrite E in H. by apply elem_of_nil in H.
  - intros H. destruct (listing objects p) as [|o l] eqn:E; [done|]. assert (obKey o ∈ map obKey (listing objects p)) as Ho
      by (rewrite E; cbn; left). apply elem_of_listing in Ho as [Hs Hp]. rewrite H in Hp by done. done.
Qed.

(** ** Facts: reads and writes *)

Section Contract.
  Context {B : Type} `{!Service B, !ServiceLaws B} (visit : list s3EntryInfo -> list s3EntryInfo).

Context (maxBlobBytes : Z).

(** The store behind a sequence of [Namespace] calls on a root without size
    limit. *)
Definition storeAt (ns : list string) : option S3CacheStore :=
  foldl (fun o c => o ≫= fun s => s3Namespace s c) (Some (mkS3CacheStore defaultObjectPrefix 0 maxBlobBytes 0 false)) ns.

#[local] Definition s3_ops : StoreOps B := {|
  sGet b ns k n := match storeAt ns with Some s => s3Get s b k n | None => Err "invalid namespace prefix" end;
  sPut b ns k n v now := match storeAt ns with
                         | Some s => let '(r, _, b') := s3Put visit s k n v now b in (r, b')
                         | None => (Err "invalid namespace prefix", b)
                         end;
  sHas b ns k := match storeAt ns with Some s => s3Has s b k | None => Err "invalid namespace prefix" end
|}.

Lemma storeAt_located ns s : storeAt ns = Some s -> located ("cache" :: ns) s /\ s3MaxSize s = 0%Z /\ s3MaxBlobBytes s = maxBlobBytes.
Proof.
  unfold storeAt. revert s. induction ns as [|c ns IH] using rev_ind; intros s H.
  { cbn in H. simplify_eq. split; [|done]. by split; [|done|repeat constructor]. }
  rewrite foldl_snoc in H. apply bind_Some in H as (s0 & H0 & H). apply IH in H0 as ([Hp Hne Hs] & Hm & Hb).
  unfold s3Namespace in H. destruct (validateNamespace c) as [[]|] eqn:Ev; [|done]. simplify_eq. cbn. split; [|done].
  split; cbn [s3Prefix]; [|done|].
  - rewrite Hp, app_comm_cons, joinWith_app by done. cbn [joinWith]. by rewrite !sapp_assoc.
  - rewrite app_comm_cons, Forall_app. split; [done|]. repeat constructor. by apply validateNamespace_noSlash.
Qed.

(** The blob at an address. *)
Definition blobAt (b : B) (s : S3CacheStore) (k n : string) : option string := fst <$> bucketObjects b !! objectKey s k n.

(** A read that is answered tells the blob; one of a blob above the limit is
    not. *)
Lemma s3Get_answer s b k n o : s3MaxBlobBytes s = maxBlobBytes -> s3Get s b k n = Ok o ->
  o = blobAt b s k n /\ validateName n = Ok tt /\ forall v, o = Some v -> (Z.of_nat (slen v) <= maxBlobBytes)%Z.
Proof.
  intros Hm. unfold s3Get. destruct (validateName n) as [[]|]; [|done]. cbn [rbind].
  destruct (GetObject b (objectKey s k n)) as [[body|]|] eqn:E; [|apply get_object in E; intros [= <-]; by split_and!|done].
  apply get_object in E. rewrite Hm. destruct (Z.ltb_spec maxBlobBytes (Z.of_nat (slen (stake (Z.to_nat (maxBlobBytes + 1)) body)))) as [|Hle]; [done|].
  intros [= <-]. assert (slen body <= Z.to_nat (maxBlobBytes + 1)) as Hb.
  { destruct (decide (slen body <= Z.to_nat (maxBlobBytes + 1))); [done|]. rewrite slen_stake in Hle by lia. lia. }
  rewrite stake_all in Hle |- * by done. unfold blobAt. split_and!; [done|done|]. by intros v [= <-].
Qed.

Lemma s3Get_within s b k n v : s3MaxBlobBytes s = maxBlobBytes -> blobAt b s k n = Some v -> (Z.of_nat (slen v) <= maxBlobBytes)%Z ->
  validateName n = Ok tt -> is_ok (GetObject b (objectKey s k n)) = true -> s3Get s b k n = Ok (Some v).
Proof.
  intros Hm Hb Hv Hn Ha. unfold s3Get. rewrite Hn. cbn [rbind].
  destruct (GetObject b (objectKey s k n)) as [o|] eqn:E; [|done]. apply get_object in E as ->. unfold blobAt in Hb. rewrite Hb, Hm.
  assert (stake (Z.to_nat (maxBlobBytes + 1)) v = v) as -> by (apply stake_all; lia).
  destruct (Z.ltb_spec maxBlobBytes (Z.of_nat (slen v))); [lia|done].
Qed.

Lemma s3Has_answer s b k h : s3Has s b k = Ok h -> h = negb (bool_decide (listing (bucketObjects b) (entryPrefix s k) = [])).
Proof.
  unfold s3Has. destruct (ListObjectsV2 b (entryPrefix s k) 1) as [l|] eqn:E; [|done]. intros [= <-].
  apply list_objects in E as ->. pose proof (max_keys (B := B)). rewrite Nat.min_l by lia. case_bool_decide as H0; [by rewrite H0|].
  by destruct (listing (bucketObjects b) (entryPrefix s k)).
Qed.

(** [Put] without a size limit: one object. *)
Lemma s3Put_effect s k n v now b r s' b' : s3MaxSize s = 0%Z -> s3Put visit s k n v now b = (r, s', b') ->
  bucketObjects b' = <[objectKey s k n := (v, now)]> (bucketObjects b) /\ validateName n = Ok tt \/
  r <> Ok tt /\ bucketObjects b' = bucketObjects b.
Proof.
  intros Hm H. unfold s3Put in H. destruct (validateName n) as [[]|e]; [|simplify_eq; by right].
  destruct (PutObject b (objectKey s k n) v now) as [r1 b1] eqn:Ep. apply put_object in Ep. rewrite Hm in H. cbn [Z.ltb Z.compare] in H.
  destruct r1 as [[]|e]; simplify_eq; destruct Ep as [Ep|[Hr Ep]]; [by left|done|by left|by right].
Qed.

Lemma blobAt_insert s s' ps ps' k n k' n' v now (b b' : B) : located ps s -> located ps' s' -> length ps = length ps' ->
  k <> "" -> k' <> "" -> noSlash n -> noSlash n' -> (ps, k, n) <> (ps', k', n') ->
  bucketObjects b' = <[objectKey s k n := (v, now)]> (bucketObjects b) -> blobAt b' s' k' n' = blobAt b s' k' n'.
Proof.
  intros L L' Hl Hk Hk' Hn Hn' Hne H. unfold blobAt. rewrite H, lookup_insert_ne; [done|]. intros E. apply Hne.
  rewrite (objectKey_comps ps), (objectKey_comps ps') in E by done.
  apply joinWith_inj in E; [|by apply comps_noSlash; [apply L|]|by apply comps_noSlash; [apply L'|]|apply comps_ne|apply comps_ne].
  apply app_inj_1 in E as [-> E]; [|done]. apply entryComps_inj in E as [-> E]; [|done..]. by simplify_eq.
Qed.

Lemma under_entry ps ps' s s' k n k' : located ps s -> located ps' s' -> length ps = length ps' -> k <> "" -> k' <> "" -> noSlash n ->
  hasPrefix (objectKey s k n) (entryPrefix s' k') = true <-> (ps, k) = (ps', k').
Proof.
  intros L L' Hl Hk Hk' Hn. rewrite (objectKey_comps ps), (entryPrefix_comps ps') by done.
  rewrite (app_assoc ps' (entryComps k')), hasPrefix_joinWith.
  - split.
    + intros (r & Hr & E). rewrite <- app_assoc in E. apply app_inj_1 in E as [-> E]; [|done].
      assert (length r = 1) as Hr1. { apply (f_equal length) in E. rewrite !length_app, !entryComps_length in E by done. cbn in E. lia. }
      apply entryComps_inj in E as [-> _]; done.
    + intros [= -> ->]. exists [n]. split; [done|]. by rewrite <- app_assoc.
  - apply comps_noSlash; [apply L|done].
  - apply comps_ne.
  - intros [-> _]%app_eq_nil. by destruct L'.
  - rewrite Forall_app. split; [apply L'|apply entryComps_noSlash].
Qed.

Lemma sPut_effect b ns k n v now r b' : @sPut _ s3_ops b ns k n v now = (r, b') -> bucketObjects b' = bucketObjects b /\ r <> Ok tt \/
  exists s, storeAt ns = Some s /\ validateName n = Ok tt /\ bucketObjects b' = <[objectKey s k n := (v, now)]> (bucketObjects b).
Proof.
  intros H. cbn in H. destruct (storeAt ns) as [s|] eqn:Es; [|simplify_eq; by left].
  destruct (s3Put visit s k n v now b) as [[r1 s1] b1] eqn:Ep. simplify_eq. apply storeAt_located in Es as Hs. destruct Hs as (L & Hm & _).
  apply s3Put_effect in Ep as [(Ep & Hn)|[Hr Ep]]; [right; eauto|by left|done].
Qed.

Lemma sGet_answer b ns k n o : @sGet _ s3_ops b ns k n = Ok o -> exists s, storeAt ns = Some s /\ located ("cache" :: ns) s /\
  o = blobAt b s k n /\ noSlash n /\ forall v, o = Some v -> (Z.of_nat (slen v) <= maxBlobBytes)%Z.
Proof.
  cbn. destruct (storeAt ns) as [s|] eqn:Es; [|done]. apply storeAt_located in Es as Hs. destruct Hs as (L & _ & Hm).
  intros (-> & Hn & Hv)%s3Get_answer; [|done]. exists s. split_and!; [done|done|done|by apply validateName_noSlash|done].
Qed.

Lemma sHas_answer b ns k h : @sHas _ s3_ops b ns k = Ok h -> exists s, storeAt ns = Some s /\ located ("cache" :: ns) s /\
  h = negb (bool_decide (listing (bucketObjects b) (entryPrefix s k) = [])).
Proof.
  cbn. destruct (storeAt ns) as [s|] eqn:Es; [|done]. apply storeAt_located in Es as Hs. intros ->%s3Has_answer. exists s. split_and!; [done|apply Hs|done].
Qed.

Lemma s3_safety : @StoreSafety B s3_ops.
Proof.
  split.
  - intros b ns k n v now b' o H Hg. apply sPut_effect in H as [[_ ?]|(s & Es & Hn & E)]; [done|].
    apply sGet_answer in Hg as (s' & Es' & _ & -> & _). assert (s' = s) as -> by congruence. unfold blobAt. by rewrite E, lookup_insert_eq.
  - intros b ns k n v now r b' o o' H _ Hg Hg'. apply sGet_answer in Hg as (s & Es & _ & -> & _), Hg' as (s' & Es' & _ & -> & _).
    assert (s' = s) as -> by congruence. unfold blobAt. apply sPut_effect in H as [[-> _]|(s1 & E1 & _ & ->)]; [by left|right].
    assert (s1 = s) as -> by congruence. by rewrite lookup_insert_eq.
  - intros b ns k n v now r b' ns' k' n' o o' H (Hl & Hk & Hk' & Hne & _) Hg Hg'.
    apply sGet_answer in Hg as (s' & Es' & L' & -> & Hn' & _), Hg' as (s2 & Es2 & _ & -> & _). assert (s2 = s') as -> by congruence.
    apply sPut_effect in H as [[E _]|(s & Es & Hn & E)]; [unfold blobAt; by rewrite E|]. apply storeAt_located in Es as (L & _).
    refine (blobAt_insert s s' ("cache" :: ns) ("cache" :: ns') k n k' n' v now b b' L L' _ Hk Hk'
      (validateName_noSlash _ Hn) Hn' _ E); [cbn; by f_equal|]. intros [=]. naive_solver.
  - intros b ns k n v now b' h H Hh. apply sPut_effect in H as [[_ ?]|(s & Es & Hn & E)]; [done|].
    apply sHas_answer in Hh as (s' & Es' & _ & ->). assert (s' = s) as -> by congruence.
    rewrite bool_decide_eq_false_2; [done|]. rewrite listing_empty. intros Hno.
    assert (hasPrefix (objectKey s k n) (entryPrefix s k) = true) as Hp.
    { unfold objectKey, entryPrefix. apply hasPrefix_spec. exists n. destruct (_ <? _); by rewrite !sapp_assoc. }
    rewrite Hno in Hp; [done|]. rewrite E, lookup_insert_eq. by eexists.
  - intros b ns k n v now r b' ns' k' h H Ht Hh. apply sHas_answer in Ht as (s' & Es' & _ & Ht), Hh as (s2 & Es2 & _ & ->).
    assert (s2 = s') as -> by congruence. symmetry in Ht. apply negb_true_iff, bool_decide_eq_false in Ht.
    apply negb_true_iff, bool_decide_eq_false. intros E. apply Ht.
    rewrite listing_empty in E |- *. intros x Hx. apply E. apply sPut_effect in H as [[-> _]|(s & _ & _ & ->)]; [done|].
    rewrite lookup_insert_is_Some. destruct (decide (objectKey s k n = x)); auto.
  - intros b ns k n v now r b' ns' k' h h' H Hl Hk Hk' Hne Ha Hb. apply sHas_answer in Ha as (s' & Es' & L' & ->), Hb as (s2 & Es2 & _ & ->).
    assert (s2 = s') as -> by congruence. f_equal. apply bool_decide_ext. rewrite !listing_empty.
    apply sPut_effect in H as [[-> _]|(s & Es & Hn & ->)]; [done|].
    apply storeAt_located in Es as (L & _). apply validateName_noSlash in Hn. split; intros Ha x Hx.
    + apply Ha, lookup_insert_is_Some. destruct (decide (objectKey s k n = x)); auto.
    + apply lookup_insert_is_Some in Hx as [<-|[_ Hx]]; [|by apply Ha]. apply not_true_iff_false.
      rewrite (under_entry ("cache" :: ns) ("cache" :: ns')) by (done || cbn; congruence). intros [=]. naive_solver.
Qed.
End Contract.

(** ** Facts: eviction *)

#[global] Instance keyLe_trans : Transitive keyLe.
Proof. intros a b c. unfold keyLe. apply sle_trans. Qed.

#[global] Instance keyLe_total : Total keyLe.
Proof. intros a b. unfold keyLe. apply (total sle). Qed.

#[global] Instance s3Older_trans : Transitive s3Older.
Proof. intros a b c. unfold s3Older. lia. Qed.

#[global] Instance s3Older_total : Total s3Older.
Proof. intros a b. unfold s3Older. lia. Qed.

Lemma StronglySorted_filter {A} (R : relation A) f l : StronglySorted R l -> StronglySorted R (List.filter f l).
Proof.
  induction 1 as [|x l Hs IH Hx]; cbn; [constructor|]. destruct (f x); [|done]. constructor; [done|].
  rewrite Forall_forall in Hx |- *. intros y Hy. apply Hx. apply list_elem_of_In, filter_In in Hy as [Hy _]. by apply list_elem_of_In.
Qed.

Lemma filter_perm {A} (f : A -> bool) l l' : l ≡ₚ l' -> List.filter f l ≡ₚ List.filter f l'.
Proof.
  induction 1 as [|x l l' _ IH|x y l|l1 l2 l3 _ IH1 _ IH2]; cbn.
  - done.
  - destruct (f x); by rewrite IH.
  - destruct (f x), (f y); done || apply Permutation_swap.
  - by rewrite IH1.
Qed.

Lemma filter_comm {A} (f g : A -> bool) l : List.filter f (List.filter g l) = List.filter g (List.filter f l).
Proof. induction l as [|x l IH]; [done|]. cbn. destruct (f x) eqn:Ef, (g x) eqn:Eg; cbn; by rewrite ?Ef, ?Eg, IH. Qed.

Lemma filter_map {A C} (f : C -> bool) (g : A -> C) l : List.filter f (map g l) = map g (List.filter (fun x => f (g x)) l).
Proof. induction l as [|x l IH]; [done|]. cbn. destruct (f (g x)); cbn; by rewrite IH. Qed.

Lemma map_to_list_filter_bool (f : string -> bool) (m : gmap string (string * Z)) :
  map_to_list (filter (fun kv => f kv.1 = true) m) ≡ₚ List.filter (fun kv => f kv.1) (map_to_list m).
Proof.
  apply NoDup_Permutation; [apply NoDup_map_to_list|apply NoDup_ListNoDup, List.NoDup_filter, NoDup_ListNoDup, NoDup_map_to_list|].
  intros [k v]. rewrite elem_of_map_to_list, map_lookup_filter_Some, list_elem_of_In, filter_In, <- list_elem_of_In, elem_of_map_to_list. done.
Qed.

(** Removing objects removes them from the listing. *)
Lemma listing_filter (f : string -> bool) objects p :
  listing (filter (fun kv => f kv.1 = true) objects) p = List.filter (fun o => f (obKey o)) (listing objects p).
Proof.
  unfold listing. rewrite filter_map. cbn. f_equal. set (l := List.filter (fun kv => hasPrefix kv.1 p) (map_to_list objects)).
  assert (List.filter (fun kv => hasPrefix kv.1 p) (map_to_list (filter (fun kv => f kv.1 = true) objects)) ≡ₚ List.filter (fun kv => f kv.1) l) as Hp.
  { unfold l. rewrite filter_comm. apply filter_perm, map_to_list_filter_bool. }
  apply (sorted_unique keyLe); [|apply isort_Sorted; apply _|apply StronglySorted_filter, isort_Sorted; apply _|].
  - intros [x vx] [y vy] Hx Hy Hxy Hyx. rewrite isort_Permutation, Hp, list_elem_of_In, filter_In, <- list_elem_of_In in Hx, Hy.
    unfold l in Hx, Hy. rewrite list_elem_of_In, filter_In, <- list_elem_of_In, elem_of_map_to_list in Hx, Hy.
    assert (x = y) as -> by by apply sle_antisym. destruct Hx as [[Hx _] _], Hy as [[Hy _] _]. congruence.
  - etrans; [apply isort_Permutation|]. etrans; [exact Hp|]. symmetry. apply filter_perm, isort_Permutation.
Qed.

(** The entries of a scan. *)
Definition entriesOf (prefix : string) (objects : gmap string (string * Z)) : gmap string s3EntryInfo :=
  foldl (rollUp prefix) ∅ (listing objects prefix).

Lemma rollUp_lookup prefix k l : forall m, foldl (rollUp prefix) m l !! k =
  foldl (fun e o => Some (addObject k o e)) (m !! k) (List.filter (fun o => bool_decide (parseObjectKey (obKey o) prefix = Some k)) l).
Proof.
  induction l as [|o l IH]; intros m; [done|]. cbn [foldl List.filter]. rewrite IH. unfold rollUp at 1.
  destruct (parseObjectKey (obKey o) prefix) as [k'|] eqn:E; [|by rewrite bool_decide_eq_false_2 by congruence].
  case_bool_decide as Hk; cbn [foldl]; [injection Hk as ->; by rewrite lookup_insert_eq|]. rewrite lookup_insert_ne; [done|]. congruence.
Qed.

Lemma rollUp_key prefix l : forall m, (forall k e, m !! k = Some e -> s3eKey e = k) ->
  forall k e, foldl (rollUp prefix) m l !! k = Some e -> s3eKey e = k.
Proof.
  induction l as [|o l IH]; intros m Hm k e H; [by apply Hm|]. cbn [foldl] in H. apply IH in H; [done|]. clear k e H.
  intros k e H. unfold rollUp in H. destruct (parseObjectKey _ _) as [k'|]; [|by apply Hm].
  apply lookup_insert_Some in H as [[-> <-]|[_ H]]; [|by apply Hm]. cbn. destruct (m !! k) as [e|] eqn:E; [by apply Hm|done].
Qed.

(** Entries whose objects are gone are gone, the others are as they were. *)
Lemma entriesOf_filter prefix objects (f : string -> bool) (ks : list string) :
  (forall key, is_Some (objects !! key) -> hasPrefix key prefix = true -> f key = false <-> exists k, k ∈ ks /\ parseObjectKey key prefix = Some k) ->
  forall k, entriesOf prefix (filter (fun kv => f kv.1 = true) objects) !! k = if decide (k ∈ ks) then None else entriesOf prefix objects !! k.
Proof.
  intros Hf k. unfold entriesOf. rewrite listing_filter, !rollUp_lookup, !lookup_empty.
  assert (forall o, o ∈ listing objects prefix -> f (obKey o) = false <-> exists k, k ∈ ks /\ parseObjectKey (obKey o) prefix = Some k) as Ho.
  { intros o Hin. apply (list_elem_of_fmap_2 obKey), elem_of_listing in Hin as [H1 H2]. by apply Hf. }
  case_decide as Hk.
  - replace (List.filter _ _) with (@nil s3Object); [done|]. symmetry.
    induction (listing objects prefix) as [|o l IH]; [done|]. cbn. pose proof (Ho o (list_elem_of_here _ _)) as H.
    destruct (f (obKey o)) eqn:Ef; cbn; [rewrite bool_decide_eq_false_2|]; try (apply IH; intros; apply Ho; by right).
    intros Hp. assert (true = false) as Hx by (apply H; eauto). done.
  - f_equal. induction (listing objects prefix) as [|o l IH]; [done|]. cbn. pose proof (Ho o (list_elem_of_here _ _)) as H.
    destruct (f (obKey o)) eqn:Ef; cbn; [|rewrite (bool_decide_eq_false_2 (_ = Some k))]; rewrite ?IH by (intros; apply Ho; by right); try done.
    intros Hp. destruct (proj1 H eq_refl) as (k' & Hk' & E). congruence.
Qed.

(** A key of the store is parsed back to its entry. *)
Lemma parse_objectKey s k n : noSlash n -> parseObjectKey (objectKey s k n) (s3Prefix s) = Some k.
Proof.
  intros Hn. pose proof (hexEncode_noSlash k) as Hh. unfold parseObjectKey, objectKey.
  destruct (slen (hexEncode k) <? 2) eqn:El; rewrite hasPrefix_app; cbn [negb]; unfold trimPrefix; rewrite hasPrefix_app, sdrop_app; cbn [splitN].
  - change ("/" +:+ n) with (String "/" n). rewrite cut_at, (cut_none _ n) by done. by rewrite hexDecode_hexEncode.
  - apply Nat.ltb_ge in El. change ("/" +:+ hexEncode k +:+ "/" +:+ n) with (String "/" (hexEncode k +:+ String "/" n)).
    rewrite cut_at by by apply stake_noSlash. rewrite cut_at by done. rewrite slen_stake by lia. cbn. apply hexDecode_hexEncode.
Qed.

Lemma chunkFrom_spec {A} n (ids : list A) : 0 < n -> forall fuel, length ids <= fuel ->
  concat (chunkFrom fuel n ids) = ids /\ Forall (fun c => length c <= n) (chunkFrom fuel n ids).
Proof.
  intros Hn fuel. revert ids. induction fuel as [|fuel IH]; intros [|x ids] Hf; cbn [chunkFrom concat]; [by split|cbn in Hf; lia|by split|].
  destruct (IH (drop n (x :: ids))) as [H1 H2]; [rewrite length_drop; cbn in *; lia|]. split; [by rewrite H1, take_drop|].
  constructor; [rewrite length_take; lia|done].
Qed.

(** Every chunk is within the cap, and none is lost. *)
Lemma chunk_spec {A} n (ids : list A) : 0 < n ->
  concat (chunkObjectIdentifiers ids n) = ids /\ Forall (fun c => length c <= n) (chunkObjectIdentifiers ids n).
Proof. intros Hn. by apply chunkFrom_spec. Qed.

(** The total over a map of entries. *)
Definition mapTotal (m : gmap string s3EntryInfo) : Z := map_fold (fun _ e n => (s3eSize e + n)%Z) 0%Z m.

Lemma mapTotal_list m : mapTotal m = s3Total (map snd (map_to_list m)).
Proof. unfold mapTotal. rewrite map_fold_foldr. induction (map_to_list m) as [|[k e] l IH]; [done|]. cbn. by rewrite IH. Qed.

Lemma s3Total_cons e es : s3Total (e :: es) = (s3eSize e + s3Total es)%Z.
Proof. done. Qed.

Lemma s3Total_app es es' : s3Total (es ++ es') = (s3Total es + s3Total es')%Z.
Proof. induction es as [|e es IH]; [done|]. cbn [app]. rewrite !s3Total_cons, IH. lia. Qed.

#[global] Instance s3Total_proper : Proper ((≡ₚ) ==> eq) s3Total.
Proof. intros l l' H. unfold s3Total. induction H; cbn; lia. Qed.

Section Evict.
  Context {B : Type} `{!Service B, !ServiceLaws B}.
  Context (s : S3CacheStore) (ps : list string) (loc : located ps s).

(** What lies below the prefix was written by the store, or through a namespace
    whose name is not two letters long. *)
Definition tidy (b : B) : Prop := forall key, is_Some (bucketObjects b !! key) -> hasPrefix key (s3Prefix s) = true ->
  (exists k n, key = objectKey s k n /\ noSlash n) \/
  (exists c r, key = joinWith "/" (ps ++ c :: r) /\ Forall (fun w => noSlash w) (c :: r) /\ c <> "" /\ slen c <> 2 /\ 2 <= length r).

Lemma filter_none (m : gmap string (string * Z)) : filter (fun kv => kv.1 ∉ @nil string) m = m.
Proof. apply map_filter_id. intros k v _. cbn. apply not_elem_of_nil. Qed.

Lemma filter_twice (l l' : list string) (m : gmap string (string * Z)) :
  filter (fun kv => kv.1 ∉ l') (filter (fun kv => kv.1 ∉ l) m) = filter (fun kv => kv.1 ∉ l ++ l') m.
Proof. rewrite map_filter_filter. apply map_filter_ext. intros k v _. cbn. rewrite elem_of_app. tauto. Qed.

Lemma deleteBatches_spec batches : forall (b : B) r b', deleteBatches batches b = (r, b') -> exists gone : list string, gone ⊆ concat batches /\
  bucketObjects b' = filter (fun kv => kv.1 ∉ gone) (bucketObjects b).
Proof.
  induction batches as [|batch batches IH]; intros b r b' H; cbn in H.
  { simplify_eq. exists []. split; [done|]. by rewrite filter_none. }
  destruct (DeleteObjects b batch) as [[errs|e] b1] eqn:E; apply delete_objects in E as (gone & Hsub & _ & E).
  - apply IH in H as (gone' & Hsub' & H). exists (gone ++ gone'). cbn. split; [set_solver|]. by rewrite H, E, filter_twice.
  - simplify_eq. exists gone. cbn. split; [set_solver|done].
Qed.

Lemma deleteEntry_spec k (b : B) r b' : deleteEntry s k b = (r, b') -> exists gone : list string,
  (forall key, key ∈ gone -> hasPrefix key (entryPrefix s k) = true) /\ bucketObjects b' = filter (fun kv => kv.1 ∉ gone) (bucketObjects b).
Proof.
  intros H. unfold deleteEntry in H. destruct (ListObjectsV2 b (entryPrefix s k) maxKeys) as [l|e] eqn:El.
  2: { simplify_eq. exists []. split; [by intros key ?%elem_of_nil|]. by rewrite filter_none. }
  apply list_objects in El. apply deleteBatches_spec in H as (gone & Hsub & H).
  rewrite (proj1 (chunk_spec s3DeleteBatchMax (map obKey l) ltac:(unfold s3DeleteBatchMax; lia))) in Hsub.
  exists gone. split; [|done]. intros key Hk. apply Hsub in Hk. subst l. rewrite <- firstn_map in Hk. eapply elem_of_take in Hk as (i & Hk & _).
  by apply list_elem_of_lookup_2, elem_of_listing in Hk as [_ Hk].
Qed.

(** The loop goes through a prefix of its entries, up to where it stops. *)
Lemma deleteWhile_spec stop es : Forall (fun e => 0 <= s3eSize e)%Z es -> forall total (b : B) total' b', deleteWhile stop s total es b = (total', b') ->
  exists (removed kept : list s3EntryInfo) (gone : list string), es = removed ++ kept /\
    (forall key, key ∈ gone -> exists e, e ∈ removed /\ hasPrefix key (entryPrefix s (s3eKey e)) = true) /\
    bucketObjects b' = filter (fun kv => kv.1 ∉ gone) (bucketObjects b) /\ (total - s3Total removed <= total')%Z /\
    (forall e r, kept = e :: r -> stop total' e = true) /\
    (forall r1 e r2, removed = r1 ++ e :: r2 -> stop (total - s3Total r1)%Z e = false \/
       exists e' (b1 : B), e' ∈ r1 /\ is_ok (deleteEntry s (s3eKey e') b1).1 = false).
Proof.
  induction 1 as [|e es Hsz _ IH]; intros total b total' b' H; cbn [deleteWhile] in H.
  { simplify_eq. exists [], [], []. split_and!; try done; [by intros key ?%elem_of_nil|by rewrite filter_none|cbn; lia|by intros []]. }
  destruct (stop total e) eqn:Es.
  { simplify_eq. exists [], (e :: es), []. split_and!; try done; [by intros key ?%elem_of_nil|by rewrite filter_none|cbn; lia|by intros ? ? [= <- _]|by intros []]. }
  destruct (deleteEntry s (s3eKey e) b) as [[[]|err] b1] eqn:E; pose proof E as Ed; apply deleteEntry_spec in E as (g1 & Hg1 & E1);
    apply IH in H as (removed & kept & g2 & -> & Hg2 & E2 & Ht & Hk & Hr); exists (e :: removed), kept, (g1 ++ g2);
    (split; [done|]); (split; [intros key [Hin|Hin]%elem_of_app; [exists e; split; [left|by apply Hg1]|destruct (Hg2 key Hin) as (e' & He' & Hp); exists e'; split; [by right|done]]|]);
    (split; [by rewrite E2, E1, filter_twice|]); rewrite s3Total_cons; (split; [lia|]); (split; [done|]).
  - intros [|x r1] e' r2 [= -> Hr1]; [left; cbn; by rewrite Z.sub_0_r|]. rewrite s3Total_cons. destruct (Hr r1 e' r2 Hr1) as [Hs|(e2 & b2 & He2 & Hf)].
    + left. rewrite <- Hs. f_equal. lia.
    + right. exists e2, b2. split; [by right|done].
  - intros [|x r1] e' r2 [= -> Hr1]; [left; cbn; by rewrite Z.sub_0_r|]. right. exists x, b. split; [left|by rewrite Ed].
Qed.

(** An object is of the entry it lies below. *)
Lemma tidy_entry b k key : tidy b -> is_Some (bucketObjects b !! key) -> hasPrefix key (s3Prefix s) = true ->
  parseObjectKey key (s3Prefix s) = Some k <-> hasPrefix key (entryPrefix s k) = true.
Proof using loc.
  intros Ho Hk Hp.
  assert (forall l, Forall (fun w => noSlash w) l -> l <> [] -> hasPrefix (joinWith "/" l) (entryPrefix s k) = true <-> exists r, r <> [] /\ l = (ps ++ entryComps k) ++ r) as Hup.
  { intros l Hl Hne. rewrite (entryPrefix_comps ps), (app_assoc ps (entryComps k) [""]) by done.
    apply hasPrefix_joinWith; [done|done|intros [-> _]%app_eq_nil; by destruct loc|]. rewrite Forall_app. split; [apply loc|apply entryComps_noSlash]. }
  destruct (Ho key Hk Hp) as [(k' & n & -> & Hn)|(c & r & -> & Hs & Hc & Hc2 & Hr)].
  - rewrite parse_objectKey by done. rewrite (objectKey_comps ps) by done. rewrite Hup by (apply comps_noSlash; [apply loc|done] || apply comps_ne). split.
    + intros [= ->]. exists [n]. split; [done|]. by rewrite <- app_assoc.
    + intros (r & Hr & E). rewrite <- app_assoc in E. apply app_inv_head in E. by rewrite (entryComps_prefix k' k n r).
  - rewrite Hup by (try apply Forall_app; (split; [apply loc|done]) || by destruct ps). split.
    + unfold parseObjectKey. rewrite Hp. cbn [negb]. rewrite (lc_prefix _ _ loc), joinWith_app by (apply loc || done).
      unfold trimPrefix. rewrite <- (sapp_assoc (joinWith "/" ps) "/"), hasPrefix_app, sdrop_app.
      destruct r as [|c2 [|c3 r]]; cbn in Hr; try lia. apply Forall_cons in Hs as [Hs1 Hs]. apply Forall_cons in Hs as [Hs2 Hs].
      rewrite joinWith_cons, (joinWith_cons "/" c2) by done. cbn [splitN].
      change ("/" +:+ c2 +:+ "/" +:+ joinWith "/" (c3 :: r)) with (String "/" (c2 +:+ String "/" (joinWith "/" (c3 :: r)))).
      rewrite cut_at by done. rewrite cut_at by done. apply Nat.eqb_neq in Hc2. by rewrite Hc2.
    + intros (t & Ht & E). rewrite <- app_assoc in E. apply app_inv_head in E. exfalso. unfold entryComps in E.
      destruct (Nat.ltb_spec (slen (hexEncode k)) 2) as [Hlt|Hge]; cbn [app] in E; apply (f_equal (hd "")) in E; cbn [hd] in E.
      * apply Hc. rewrite slen_hexEncode in Hlt. destruct k; [done|cbn in Hlt; lia].
      * apply Hc2. by rewrite E, slen_stake by lia.
Qed.

Lemma scan_entries visit (visit_perm : forall l, visit l ≡ₚ l) (b : B) entries total : s3ScanEntries visit s b = Ok (entries, total) ->
  entries ≡ₚ map snd (map_to_list (entriesOf (s3Prefix s) (bucketObjects b))) /\ total = s3Total entries /\
  total = mapTotal (entriesOf (s3Prefix s) (bucketObjects b)).
Proof.
  unfold s3ScanEntries. destruct (ListPages b (s3Prefix s)) as [pages|] eqn:E; [|done]. intros H. apply list_pages in E.
  assert (forall m, foldl (foldl (rollUp (s3Prefix s))) m pages = foldl (rollUp (s3Prefix s)) m (concat pages)) as Hf.
  { clear. induction pages as [|p pages IH]; intros m; cbn; [done|]. by rewrite IH, foldl_app. }
  rewrite Hf, E in H. injection H as <- <-. rewrite mapTotal_list, visit_perm. done.
Qed.

Lemma values_deleted removed : forall (m : gmap string s3EntryInfo) kept, map snd (map_to_list m) ≡ₚ removed ++ kept ->
  (forall k e, m !! k = Some e -> s3eKey e = k) -> map snd (map_to_list (foldl (fun m e => delete (s3eKey e) m) m removed)) ≡ₚ kept.
Proof.
  induction removed as [|e removed IH]; intros m kept Hp Hk; [done|]. cbn [foldl]. apply IH.
  - assert (e ∈ map snd (map_to_list m)) as He by (rewrite Hp; left). apply list_elem_of_fmap in He as ([k e'] & -> & He).
    apply elem_of_map_to_list in He. cbn in *. rewrite (Hk _ _ He). apply map_to_list_delete in He. rewrite <- He in Hp. cbn in Hp.
    by apply Permutation_cons_inv in Hp.
  - intros k e' [_ H]%lookup_delete_Some. by apply Hk.
Qed.

Lemma entries_keys (b : B) k e : entriesOf (s3Prefix s) (bucketObjects b) !! k = Some e -> s3eKey e = k.
Proof. apply rollUp_key. intros ? ? H. by rewrite lookup_empty in H. Qed.

End Evict.

Lemma rollUp_size prefix l : Forall (fun o => 0 <= obSize o)%Z l -> forall m, (forall k e, m !! k = Some e -> (0 <= s3eSize e)%Z) ->
  forall k e, foldl (rollUp prefix) m l !! k = Some e -> (0 <= s3eSize e)%Z.
Proof.
  induction 1 as [|o l Ho _ IH]; intros m Hm k e H; [by eapply Hm|]. cbn [foldl] in H. apply IH in H; [done|]. clear k e H.
  intros k e H. unfold rollUp in H. destruct (parseObjectKey _ _) as [k'|]; [|by eapply Hm].
  apply lookup_insert_Some in H as [[-> <-]|[_ H]]; [|by eapply Hm]. cbn. destruct (m !! k) as [e|] eqn:E; cbn; [|lia].
  pose proof (Hm _ _ E). lia.
Qed.

Lemma entries_size prefix objects k e : entriesOf prefix objects !! k = Some e -> (0 <= s3eSize e)%Z.
Proof.
  apply rollUp_size; [|by intros ? ? H; rewrite lookup_empty in H]. unfold listing. apply Forall_forall. intros o (kv & -> & _)%list_elem_of_fmap. cbn. lia.
Qed.

Lemma foldl_delete_lookup (removed : list s3EntryInfo) : forall (m : gmap string s3EntryInfo) k,
  foldl (fun m e => delete (s3eKey e) m) m removed !! k = if decide (k ∈ map s3eKey removed) then None else m !! k.
Proof.
  induction removed as [|e removed IH]; intros m k; [done|]. cbn [foldl map]. rewrite IH.
  destruct (decide (k = s3eKey e)) as [->|Hne].
  - rewrite (decide_True (P := s3eKey e ∈ _ :: _)) by left. rewrite lookup_delete_eq. by case_decide.
  - rewrite lookup_delete_ne by done. case_decide as H1; case_decide as H2; try done; [destruct H2; by right|].
    apply elem_of_cons in H2 as [?|?]; done.
Qed.


(** C39: The S3 store keeps the store interface as far as its reads are
    answered: over every service with the documented behaviour, and whatever
    calls fail, the blob that a successful [Put] wrote is the one an answered
    [Get] returns, no other blob of any namespace of the same depth changes,
    and an answered [Has] tells of the entry and of no other; after a [Put]
    that failed a read finds the old blob or the new one.  The read after a
    successful [Put] is answered when the service answers it and the blob is
    within the limit of reads; a larger blob is stored and never read. *)
Theorem s3_store_contract {B} `{!Service B, !ServiceLaws B} visit maxBlobBytes :
  @StoreSafety B (s3_ops visit maxBlobBytes) /\
  forall (b : B) ns k n v now b', @sPut B (s3_ops visit maxBlobBytes) b ns k n v now = (Ok tt, b') ->
    ((Z.of_nat (slen v) <= maxBlobBytes)%Z -> (forall key, is_ok (GetObject b' key) = true) ->
       @sGet B (s3_ops visit maxBlobBytes) b' ns k n = Ok (Some v)) /\
    ((maxBlobBytes < Z.of_nat (slen v))%Z -> is_ok (@sGet B (s3_ops visit maxBlobBytes) b' ns k n) = false).
Proof.
  split; [by apply s3_safety|]. intros b ns k n v now b' H. apply sPut_effect in H as [[_ ?]|(s & Es & Hn & E)]; [done|].
  apply storeAt_located in Es as Hs. destruct Hs as (_ & _ & Hm).
  assert (blobAt b' s k n = Some v) as Hb by (unfold blobAt; by rewrite E, lookup_insert_eq). split.
  - intros Hv Ha. cbn. rewrite Es. by eapply s3Get_within.
  - intros Hv. cbn. rewrite Es. destruct (s3Get s b' k n) as [o|] eqn:Eg; [|done]. eapply s3Get_answer in Eg as (-> & _ & Hle); [|done].
    specialize (Hle v Hb). lia.
Qed.

(** ** A service in memory *)

Abbreviation MemBucket := (gmap string (string * Z)).

(** Keys for which [locked] holds can not be deleted. *)
Definition memService (locked : string -> bool) : Service MemBucket := {|
  bucketObjects b := b;
  GetObject b k := Ok (fst <$> b !! k);
  PutObject b k v now := (Ok tt, <[k := (v, now)]> b);
  ListObjectsV2 b p n := Ok (take (Nat.min n 1000) (listing b p));
  ListPages b p := Ok [listing b p];
  DeleteObjects b ks := (Ok (List.filter locked ks), filter (fun kv => kv.1 ∉ List.filter (fun k => negb (locked k)) ks) b);
  maxKeys := 1000
|}.

Lemma memService_laws locked : @ServiceLaws MemBucket (memService locked).
Proof.
  split; cbn.
  - by intros b k o [= <-].
  - intros b k v now r b' [= <- <-]. by left.
  - by intros b p n l [= <-].
  - intros b p ps [= <-]. cbn. apply app_nil_r.
  - intros b ks r b' [= <- <-]. eexists. split; [|split; [|done]].
    + intros k. rewrite list_elem_of_In, filter_In, <- list_elem_of_In. tauto.
    + intros errs [= <-] k Hk. rewrite !list_elem_of_In, !filter_In, <- !list_elem_of_In. destruct (locked k); auto.
  - lia.
Qed.

#[local] Notation mem := (memService (fun _ => false)).

Lemma s3_store_contract_witness : let ops := @s3_ops MemBucket mem (fun l => l) 5 in
  let b' := (@sPut _ ops ∅ ["compile"; "acme"] "K" "output" "obj" 7).2 in
  @sGet _ ops b' ["compile"; "acme"] "K" "output" = Ok (Some "obj") /\
  bucketObjects (Service := mem) b' !! "cache/compile/acme/4b/4b/output" = Some ("obj", 7%Z).
Proof.
  intros ops b'. split; [|vm_compute; reflexivity].
  destruct (proj2 (@s3_store_contract _ mem (memService_laws _) (fun l => l) 5) ∅ ["compile"; "acme"] "K" "output" "obj" 7%Z b') as [Hg _].
  - vm_compute. reflexivity.
  - apply Hg; [cbn; lia|reflexivity].
Defined.

(** Three entries in a store of twelve bytes, an object of a namespace and one
    outside. *)
Definition exBucket : MemBucket :=
  {[ "cache/4b/4b31/output" := ("12345678", 3%Z); "cache/4b/4b31/stderr" := ("w", 1%Z); "cache/4b/4b32/output" := ("1234567", 2%Z);
     "cache/4b/4b33/output" := ("abc", 9%Z); "cache/compile/acme/4b/4b31/output" := ("object", 1%Z); "audit/log" := ("x", 1%Z) ]}.
Definition exS3 : S3CacheStore := mkS3CacheStore "cache/" 12 1000 30 false.

Lemma exBucket_tidy : @tidy MemBucket mem exS3 ["cache"] exBucket.
Proof.
  intros key Hk Hp.
  assert (map_Forall (fun key _ => hasPrefix key "cache/" = true -> key ∈ [objectKey exS3 "K1" "output"; objectKey exS3 "K1" "stderr";
    objectKey exS3 "K2" "output"; objectKey exS3 "K3" "output"; joinWith "/" (["cache"] ++ ["compile"; "acme"; "4b"; "4b31"; "output"])]) exBucket) as H
    by decided.
  destruct Hk as [v Hk]. specialize (H key v Hk Hp). rewrite !elem_of_cons, elem_of_nil in H.
  destruct H as [->|[->|[->|[->|[->|[]]]]]]; [left; eexists _, _; by split..|right].
  exists "compile", ["acme"; "4b"; "4b31"; "output"]. split_and!; [done|repeat constructor|done|done|cbn; lia].
Qed.

Definition exEvicted : MemBucket := (@s3Evict MemBucket mem (fun l => l) exS3 exBucket).2.


(** After an eviction the estimate is the size before it, so that the next
    [Put] evicts again. *)
Lemma evict_estimate_stale {B} `{!Service B} visit s (b : B) entries total s' b' :
  s3ScanEntries visit s b = Ok (entries, total) -> (0 < s3MaxSize s)%Z ->
  (s3MaxSize s + Z.quot (s3MaxSize s) evictHysteresisDenom < total)%Z -> s3Evict visit s b = (Ok tt, s', b') -> shouldEvict s' = true.
Proof.
  intros E Hm Ht H. unfold s3Evict in H. rewrite E in H. injection H as <- _. unfold shouldEvict. cbn.
  destruct (Z.leb_spec (s3MaxSize s) 0); [lia|]. by apply Z.ltb_lt.
Qed.

(** A blob above the limit of reads is stored, and can not be read. *)
Example oversized_put_unreadable : let s := mkS3CacheStore "cache/" 0 2 0 false in
  let '(r, _, b) := @s3Put MemBucket mem (fun l => l) s "K" "output" "obj" 7 ∅ in
  r = Ok tt /\ is_ok (@s3Get MemBucket mem s b "K" "output") = false.
Proof. vm_compute. split; reflexivity. Qed.

(** The blobs of a namespace of two letters count as an entry of the store
    above it, which [Clean] takes for deleted while they are all still there. *)
Example two_letter_namespace_counted : let s := mkS3CacheStore "cache/compile/" 0 9 0 false in
  let b : MemBucket := {[ "cache/compile/ab/4b/4b31/output" := ("obj", 7%Z) ]} in
  @s3Stats MemBucket mem (fun l => l) s b = Ok (1, 3%Z) /\
  let '(r, s', b') := @s3Clean MemBucket mem (fun l => l) s 1 0 9 b in
  r = Ok tt /\ s3EstimateSize s' = 0%Z /\ bool_decide (b' = b) = true.
Proof. vm_compute. split_and!; reflexivity. Qed.

(** Objects that the service refuses to delete one by one count as deleted:
    the answer of the call carries the errors, and nobody reads them. *)
Example refused_deletes_counted : let locked := memService (fun _ => true) in
  let '(r, s', b') := @s3Clean MemBucket locked (fun l => l) exS3 1 0 9 exBucket in
  r = Ok tt /\ s3EstimateSize s' = 0%Z /\ bool_decide (b' = exBucket) = true.
Proof. vm_compute. split_and!; reflexivity. Qed.

(** The store that has the size limit does not see what is written through its
    namespaces, so that no write is ever charged to the limit. *)
Example namespaced_objects_unseen : let s := mkS3CacheStore "cache/" 1 1000 0 false in
  let b : MemBucket := {[ "cache/compile/acme/4b/4b31/output" := ("object", 1%Z) ]} in
  @s3Stats MemBucket mem (fun l => l) s b = Ok (0, 0%Z) /\ bool_decide ((@s3Evict MemBucket mem (fun l => l) s b).2 = b) = true.
Proof. vm_compute. split; reflexivity. Qed.
