(* ===== verification/GoJson.v ===== *)
(** * GoJson: the JSON of [encoding/json].

    Values, the compact encoder with its string escapes, and the decoder.  A
    number is kept as its literal, as the decoder does until it meets the type
    of its destination.  Strings are byte sequences; both directions replace
    what is not UTF-8. *)

From stdpp Require Import pretty.
From S2P Require Import Prelude GoStrings.

Inductive json :=
  | JNull
  | JBool (b : bool)
  | JNum (literal : string)
  | JStr (s : string)
  | JArr (l : list json)
  | JObj (fields : list (string * json)).

(** ** UTF-8 *)

Definition byteIn (lo hi : N) (c : ascii) : bool := ((lo <=? N_of_ascii c) && (N_of_ascii c <=? hi))%N.

(** The size of the rune at the start of a string, 0 when there is none
    ([utf8.DecodeRuneInString]). *)
Definition runeSize (s : string) : nat :=
  match s with
  | EmptyString => 0
  | String a t =>
      if byteIn 0 127 a then 1
      else match t with
      | EmptyString => 0
      | String b t =>
          if byteIn 194 223 a then if byteIn 128 191 b then 2 else 0
          else match t with
          | EmptyString => 0
          | String c t =>
              if byteIn 224 239 a then
                let lo := (if byteIn 224 224 a then 160 else 128)%N in
                let hi := (if byteIn 237 237 a then 159 else 191)%N in
                if byteIn lo hi b && byteIn 128 191 c then 3 else 0
              else match t with
              | EmptyString => 0
              | String d _ =>
                  if byteIn 240 244 a then
                    let lo := (if byteIn 240 240 a then 144 else 128)%N in
                    let hi := (if byteIn 244 244 a then 143 else 191)%N in
                    if byteIn lo hi b && byteIn 128 191 c && byteIn 128 191 d then 4 else 0
                  else 0
              end
          end
      end
  end.

Definition byte (n : N) : string := String (ascii_of_N n) "".

(** [utf8.AppendRune]; a surrogate half is replaced. *)
Definition runeBytes (r : N) : string :=
  if (r <? 128)%N then byte r
  else if (r <? 2048)%N then byte (192 + r / 64) +:+ byte (128 + r mod 64)
  else if ((55296 <=? r) && (r <=? 57343))%N then byte 239 +:+ byte 191 +:+ byte 189
  else if (r <? 65536)%N then byte (224 + r / 4096) +:+ byte (128 + r / 64 mod 64) +:+ byte (128 + r mod 64)
  else byte (240 + r / 262144) +:+ byte (128 + r / 4096 mod 64) +:+ byte (128 + r / 64 mod 64) +:+ byte (128 + r mod 64).

Definition replacement : string := runeBytes 65533.

(** ** Encoding *)

Definition dquote : ascii := ascii_of_N 34.
Definition backslash : ascii := ascii_of_N 92.
Definition hexChar (n : N) : ascii := ascii_of_N (if (n <? 10)%N then 48 + n else 87 + n)%N.

(** An ASCII byte inside a string. *)
Definition escapeByte (html : bool) (c : ascii) : string :=
  let n := N_of_ascii c in
  if (n =? 34)%N || (n =? 92)%N then String backslash (String c "")
  else if (n =? 8)%N then String backslash "b"
  else if (n =? 12)%N then String backslash "f"
  else if (n =? 10)%N then String backslash "n"
  else if (n =? 13)%N then String backslash "r"
  else if (n =? 9)%N then String backslash "t"
  else if (n <? 32)%N || html && ((n =? 60) || (n =? 62) || (n =? 38))%N
  then String backslash ("u00" +:+ String (hexChar (n / 16)) (String (hexChar (n mod 16)) ""))
  else String c "".

(** U+2028 and U+2029. *)
Definition lineSeparator (s : string) : bool :=
  match s with
  | String a (String b (String c _)) => byteIn 226 226 a && byteIn 128 128 b && byteIn 168 169 c
  | _ => false
  end.

Fixpoint escape (fuel : nat) (html : bool) (s : string) : string :=
  match fuel, s with
  | S fuel', String c t =>
      if byteIn 0 127 c then escapeByte html c +:+ escape fuel' html t
      else match runeSize s with
           | 0 => String backslash "ufffd" +:+ escape fuel' html t
           | n => if lineSeparator s
                  then String backslash ("u202" +:+ match sget 2 s with Some d => String (hexChar (N_of_ascii d mod 16)) "" | None => "" end)
                         +:+ escape fuel' html (sdrop n s)
                  else stake n s +:+ escape fuel' html (sdrop n s)
           end
  | _, _ => ""
  end.

Definition quote (html : bool) (s : string) : string := String dquote (escape (slen s) html s +:+ String dquote "").

(** [json.Marshal], or an encoder with [SetEscapeHTML(false)]. *)
Fixpoint encode (html : bool) (j : json) : string :=
  match j with
  | JNull => "null"
  | JBool b => if b then "true" else "false"
  | JNum literal => literal
  | JStr s => quote html s
  | JArr l => "[" +:+ joinWith "," (map (encode html) l) +:+ "]"
  | JObj fields => "{" +:+ joinWith "," (map (fun f => quote html f.1 +:+ ":" +:+ encode html f.2) fields) +:+ "}"
  end.

(** ** Decoding *)

Definition jsonSpace (c : ascii) : bool :=
  let n := N_of_ascii c in ((n =? 32) || (n =? 9) || (n =? 10) || (n =? 13))%N.

Definition skipSpace (s : string) : string := trimLeftBy jsonSpace s.

Definition hexNibble (c : ascii) : option N :=
  let n := N_of_ascii c in
  if ((48 <=? n) && (n <=? 57))%N then Some (n - 48)%N
  else if ((97 <=? n) && (n <=? 102))%N then Some (n - 87)%N
  else if ((65 <=? n) && (n <=? 70))%N then Some (n - 55)%N
  else None.

(** [getu4], behind the backslash and [u]. *)
Definition hex4 (s : string) : option (N * string) :=
  match s with
  | String a (String b (String c (String d t))) =>
      match hexNibble a, hexNibble b, hexNibble c, hexNibble d with
      | Some w, Some x, Some y, Some z => Some (w * 4096 + x * 256 + y * 16 + z, t)%N
      | _, _, _, _ => None
      end
  | _ => None
  end.

(** The bytes of an escape sequence behind the backslash, and the rest. *)
Definition unescape (s : string) : option (string * string) :=
  match s with
  | EmptyString => None
  | String c t =>
      let n := N_of_ascii c in
      if ((n =? 34) || (n =? 92) || (n =? 47))%N then Some (String c "", t)
      else if (n =? 98)%N then Some (byte 8, t)
      else if (n =? 102)%N then Some (byte 12, t)
      else if (n =? 110)%N then Some (byte 10, t)
      else if (n =? 114)%N then Some (byte 13, t)
      else if (n =? 116)%N then Some (byte 9, t)
      else if (n =? 117)%N then
        match hex4 t with
        | None => None
        | Some (r, t) =>
            if ((55296 <=? r) && (r <=? 56319))%N then
              match t with
              | String a (String b t') =>
                  if Ascii.eqb a backslash && Ascii.eqb b "u"%char then
                    match hex4 t' with
                    | Some (r2, t2) =>
                        if ((56320 <=? r2) && (r2 <=? 57343))%N
                        then Some (runeBytes (65536 + (r - 55296) * 1024 + (r2 - 56320)), t2)
                        else Some (replacement, t)
                    | None => None
                    end
                  else Some (replacement, t)
              | _ => Some (replacement, t)
              end
            else Some (runeBytes r, t)
        end
      else None
  end.

(** The contents of a string behind its opening quote. *)
Fixpoint unquote (fuel : nat) (s : string) : option (string * string) :=
  match fuel, s with
  | S fuel', String c t =>
      if Ascii.eqb c dquote then Some ("", t)
      else if Ascii.eqb c backslash then
        match unescape t with
        | None => None
        | Some (bytes, t) => match unquote fuel' t with Some (r, t) => Some (bytes +:+ r, t) | None => None end
        end
      else if byteIn 0 31 c then None
      else match runeSize s with
           | 0 => match unquote fuel' t with Some (r, t) => Some (replacement +:+ r, t) | None => None end
           | n => match unquote fuel' (sdrop n s) with Some (r, t) => Some (stake n s +:+ r, t) | None => None end
           end
  | _, _ => None
  end.

Definition isDigit (c : ascii) : bool := byteIn 48 57 c.

Fixpoint span (f : ascii -> bool) (s : string) : string * string :=
  match s with
  | EmptyString => ("", "")
  | String c t => if f c then let '(a, b) := span f t in (String c a, b) else ("", s)
  end.

(** A number: an optional minus, an integer without leading zeros, an optional
    fraction and an optional exponent. *)
Definition scanInt (s : string) : option (string * string) :=
  match s with
  | EmptyString => None
  | String c t => if Ascii.eqb c "0"%char then Some ("0", t)
                  else if isDigit c then let '(a, b) := span isDigit t in Some (String c a, b) else None
  end.

Definition scanFrac (s : string) : option (string * string) :=
  match s with
  | String c t => if Ascii.eqb c "."%char
                  then let '(a, b) := span isDigit t in if String.eqb a "" then None else Some (String c a, b)
                  else Some ("", s)
  | EmptyString => Some ("", s)
  end.

Definition scanExp (s : string) : option (string * string) :=
  match s with
  | String c t =>
      if Ascii.eqb c "e"%char || Ascii.eqb c "E"%char then
        let '(sign, t) := match t with
                          | String d u => if Ascii.eqb d "+"%char || Ascii.eqb d "-"%char then (String d "", u) else ("", t)
                          | EmptyString => ("", t)
                          end in
        let '(a, b) := span isDigit t in if String.eqb a "" then None else Some (String c (sign +:+ a), b)
      else Some ("", s)
  | EmptyString => Some ("", s)
  end.

Definition scanNumber (s : string) : option (string * string) :=
  let '(sign, t) := match s with
                    | String c u => if Ascii.eqb c "-"%char then ("-", u) else ("", s)
                    | EmptyString => ("", s)
                    end in
  match scanInt t with
  | None => None
  | Some (i, t) => match scanFrac t with
                   | None => None
                   | Some (f, t) => match scanExp t with
                                    | None => None
                                    | Some (e, t) => Some (sign +:+ i +:+ f +:+ e, t)
                                    end
                   end
  end.

(** The head of a value decides what it is. *)
Fixpoint parseValue (fuel : nat) (s : string) : option (json * string) :=
  match fuel with
  | 0 => None
  | S fuel' =>
      match skipSpace s with
      | EmptyString => None
      | String c t =>
          if Ascii.eqb c dquote then match unquote (slen t) t with Some (r, t) => Some (JStr r, t) | None => None end
          else if Ascii.eqb c "{"%char then
            match skipSpace t with
            | String d u => if Ascii.eqb d "}"%char then Some (JObj [], u)
                            else match parseFields fuel' t with Some (fs, u) => Some (JObj fs, u) | None => None end
            | EmptyString => None
            end
          else if Ascii.eqb c "["%char then
            match skipSpace t with
            | String d u => if Ascii.eqb d "]"%char then Some (JArr [], u)
                            else match parseItems fuel' t with Some (l, u) => Some (JArr l, u) | None => None end
            | EmptyString => None
            end
          else if hasPrefix (String c t) "null" then Some (JNull, sdrop 4 (String c t))
          else if hasPrefix (String c t) "true" then Some (JBool true, sdrop 4 (String c t))
          else if hasPrefix (String c t) "false" then Some (JBool false, sdrop 5 (String c t))
          else match scanNumber (String c t) with Some (n, u) => Some (JNum n, u) | None => None end
      end
  end
with parseItems (fuel : nat) (s : string) : option (list json * string) :=
  match fuel with
  | 0 => None
  | S fuel' =>
      match parseValue fuel' s with
      | None => None
      | Some (j, t) =>
          match skipSpace t with
          | String c u => if Ascii.eqb c "]"%char then Some ([j], u)
                          else if Ascii.eqb c ","%char
                          then match parseItems fuel' u with Some (l, v) => Some (j :: l, v) | None => None end
                          else None
          | EmptyString => None
          end
      end
  end
with parseFields (fuel : nat) (s : string) : option (list (string * json) * string) :=
  match fuel with
  | 0 => None
  | S fuel' =>
      match skipSpace s with
      | EmptyString => None
      | String c t =>
          if negb (Ascii.eqb c dquote) then None
          else match unquote (slen t) t with
          | None => None
          | Some (k, t) =>
              match skipSpace t with
              | EmptyString => None
              | String c t =>
                  if negb (Ascii.eqb c ":"%char) then None
                  else match parseValue fuel' t with
                  | None => None
                  | Some (j, t) =>
                      match skipSpace t with
                      | String c u => if Ascii.eqb c "}"%char then Some ([(k, j)], u)
                                      else if Ascii.eqb c ","%char
                                      then match parseFields fuel' u with Some (l, v) => Some ((k, j) :: l, v) | None => None end
                                      else None
                      | EmptyString => None
                      end
                  end
              end
          end
      end
  end.

(** A document: one value and nothing else. *)
Definition parseJson (s : string) : option json :=
  match parseValue (S (slen s)) s with
  | Some (j, rest) => if String.eqb (skipSpace rest) "" then Some j else None
  | None => None
  end.

(** ** Facts: strings *)

Fixpoint utf8From (fuel : nat) (s : string) : bool :=
  match s, fuel with
  | EmptyString, _ => true
  | _, 0 => false
  | _, S fuel' => match runeSize s with 0 => false | n => utf8From fuel' (sdrop n s) end
  end.
Definition utf8 (s : string) : bool := utf8From (slen s) s.

(** A byte as the decoder reads it. *)
Lemma unquote_byte html c f T : byteIn 0 127 c = true ->
  unquote (S f) (escapeByte html c +:+ T) = match unquote f T with Some (r, t) => Some (String c r, t) | None => None end.
Proof. destruct c as [[] [] [] [] [] [] [] []]; (intros [=]; fail) || (intros _; destruct html; reflexivity). Qed.

Lemma runeSize_stake s T : runeSize s <> 0 -> runeSize (stake (runeSize s) s +:+ T) = runeSize s.
Proof.
  intros H. destruct s as [|a s]; [done|]. unfold runeSize in *. destruct (byteIn 0 127 a) eqn:Ea; [cbn; by rewrite Ea|].
  destruct s as [|b s]; [done|]. destruct (byteIn 194 223 a) eqn:Ea2; [destruct (byteIn 128 191 b) eqn:Eb; [cbn; by rewrite Ea, Ea2, Eb|done]|].
  destruct s as [|c s]; [done|]. cbn zeta in *. destruct (byteIn 224 239 a) eqn:Ea3.
  { destruct (_ && _) eqn:Eb in H |- *; [|done]. cbn. rewrite Ea, Ea2, Ea3. by rewrite Eb. }
  destruct s as [|d s]; [done|]. destruct (byteIn 240 244 a) eqn:Ea4; [|done].
  destruct (_ && _ && _) eqn:Eb in H |- *; [|done]. cbn. rewrite Ea, Ea2, Ea3, Ea4. by rewrite Eb.
Qed.

(** The bytes of a rune that is not ASCII. *)
Lemma rune_high s : byteIn 0 127 (default "000"%char (sget 0 s)) = false -> runeSize s <> 0 ->
  2 <= runeSize s /\ runeSize s <= slen s /\ s <> "".
Proof.
  intros Ha H. destruct s as [|a s]; [done|]. cbn in Ha. unfold runeSize in *. rewrite Ha in *. cbn zeta in *.
  repeat (case_match; try done); cbn; (split; [lia|split; [lia|done]]).
Qed.

Lemma lineSeparator_spec s : lineSeparator s = true ->
  exists d, (d = 8 \/ d = 9)%N /\ stake 3 s = byte 226 +:+ byte 128 +:+ byte (160 + d) /\ sget 2 s = Some (ascii_of_N (160 + d)).
Proof.
  destruct s as [|a [|b [|c s]]]; try done. unfold lineSeparator, byteIn. rewrite !andb_true_iff, !N.leb_le. intros [[[Ha1 Ha2] [Hb1 Hb2]] [Hc1 Hc2]].
  assert (a = ascii_of_N 226) as -> by (rewrite <- (ascii_N_embedding a); f_equal; lia).
  assert (b = ascii_of_N 128) as -> by (rewrite <- (ascii_N_embedding b); f_equal; lia).
  exists (N_of_ascii c - 160)%N. assert (c = ascii_of_N (160 + (N_of_ascii c - 160))) as Ec by (rewrite <- (ascii_N_embedding c) at 1; f_equal; lia).
  split; [lia|]. unfold byte. by rewrite <- Ec.
Qed.

Lemma unquote_high c t fuel T : byteIn 0 127 c = false -> runeSize (String c t) <> 0 -> 
  unquote (S fuel) (stake (runeSize (String c t)) (String c t) +:+ T) =
  match unquote fuel T with Some (r, u) => Some (stake (runeSize (String c t)) (String c t) +:+ r, u) | None => None end.
Proof.
  intros Hc Hn. pose proof (runeSize_stake (String c t) T Hn) as Hr. destruct (rune_high (String c t) Hc Hn) as (H2 & Hl & _).
  pose proof (slen_stake _ _ Hl) as Hlen. destruct (runeSize (String c t)) as [|n] eqn:En; [done|].
  change (stake (S n) (String c t)) with (String c (stake n t)) in *. cbn [String.append] in Hr |- *. cbn [unquote].
  assert (Ascii.eqb c dquote = false /\ Ascii.eqb c backslash = false /\ byteIn 0 31 c = false) as (-> & -> & ->).
  { unfold byteIn in *. apply andb_false_iff in Hc. rewrite !N.leb_gt in Hc. split; [|split].
    - apply Ascii.eqb_neq. intros ->. vm_compute in Hc. by destruct Hc.
    - apply Ascii.eqb_neq. intros ->. vm_compute in Hc. by destruct Hc.
    - apply andb_false_iff. rewrite !N.leb_gt. lia. }
  rewrite Hr. change (String c (stake n t +:+ T)) with (String c (stake n t) +:+ T). rewrite <- Hlen.
  rewrite sdrop_app, stake_app. by destruct (unquote fuel T) as [[r u]|].
Qed.

Lemma unquote_escape html : forall fuel s, slen s <= fuel -> utf8From (slen s) s = true -> forall fuel2 rest,
  slen (escape fuel html s) < fuel2 -> unquote fuel2 (escape fuel html s +:+ String dquote rest) = Some (s, rest).
Proof.
  assert (forall n m s, slen s <= n -> slen s <= m -> utf8From n s = utf8From m s) as Hfuel.
  { induction n as [|n IH]; intros [|m] [|c s] Hn Hm; cbn in Hn, Hm; try done; try lia. cbn [utf8From].
    destruct (runeSize (String c s)) as [|k]; [done|]. apply IH; rewrite slen_sdrop; cbn; lia. }
  induction fuel as [|fuel IH]; intros [|c t] Hf Hu [|fuel2] rest H2; cbn in Hf; try lia; try (cbn in H2; lia); [done|done|].
  cbn [escape] in *. cbn [slen utf8From] in Hu. destruct (byteIn 0 127 c) eqn:Ec.
  - rewrite sapp_assoc, unquote_byte by done. rewrite slen_app in H2.
    assert (0 < slen (escapeByte html c)) by (unfold escapeByte; repeat case_match; cbn; lia).
    assert (runeSize (String c t) = 1) as E1 by (cbn; by rewrite Ec). rewrite E1 in Hu. rewrite IH; [done|lia|exact Hu|lia].
  - destruct (runeSize (String c t)) as [|n] eqn:En; [done|].
    assert (runeSize (String c t) <> 0) as Hn by (by rewrite En). destruct (rune_high (String c t) Ec Hn) as (Hn2 & Hl & _). rewrite En in Hn2, Hl.
    assert (slen (sdrop (S n) (String c t)) <= fuel) as Hd by (rewrite slen_sdrop; cbn; lia).
    rewrite (Hfuel _ (slen (sdrop (S n) (String c t)))) in Hu; [|rewrite slen_sdrop; cbn; lia|done].
    destruct (lineSeparator (String c t)) eqn:El.
    + assert (S n = 3) as E3.
      { destruct (lineSeparator_spec _ El) as (d & Hd' & Es & _). destruct t as [|b [|x t]]; try done. unfold lineSeparator in El. clear - En El Hd' Es Ec.
        unfold byte in Es. cbn in Es. injection Es as -> -> ->. cbn in En. destruct Hd' as [->| ->]; by vm_compute in En. }
      rewrite E3 in *. destruct (lineSeparator_spec _ El) as (d & Hd' & Es & Eg). rewrite Eg in H2 |- *. rewrite !slen_app in H2. rewrite !sapp_assoc.
      transitivity (match unquote fuel2 (escape fuel html (sdrop 3 (String c t)) +:+ String dquote rest) with
                    | Some (r, u) => Some (stake 3 (String c t) +:+ r, u) | None => None end).
      { rewrite Es. destruct Hd' as [->| ->]; reflexivity. }
      rewrite IH; [by rewrite stake_sdrop|done|done|]. cbn [slen String.append] in H2. lia.
    + rewrite sapp_assoc, <- En, unquote_high by (done || by rewrite En). rewrite En. rewrite slen_app, slen_stake in H2 by done.
      rewrite IH; [by rewrite stake_sdrop|done|done|lia].
Qed.

(** ** Facts: numbers *)

(** Digits only. *)
Fixpoint digits (s : string) : bool := match s with EmptyString => true | String c t => isDigit c && digits t end.

Lemma span_digits s rest : digits s = true -> isDigit (default "x"%char (sget 0 rest)) = false -> span isDigit (s +:+ rest) = (s, rest).
Proof.
  intros Hs Hr. induction s as [|c s IH]; cbn in *.
  - destruct rest as [|d rest]; [done|]. cbn in *. by rewrite Hr.
  - apply andb_true_iff in Hs as [-> Hs]. by rewrite IH.
Qed.

Lemma prettyChar n : (n < 10)%N -> digitVal (pretty_N_char n) = Some (Z.of_N n) /\ isDigit (pretty_N_char n) = true /\
  (n <> 0%N -> Ascii.eqb (pretty_N_char n) "0" = false).
Proof.
  revert n. apply (below_ind 10 (fun n => digitVal (pretty_N_char n) = Some (Z.of_N n) /\ isDigit (pretty_N_char n) = true /\
    (n <> 0%N -> Ascii.eqb (pretty_N_char n) "0" = false))). vm_compute. reflexivity.
Qed.

(** The digits that [itoa] writes. *)
Lemma prettyN_go n : forall s, digits s = true -> (0 < n)%N -> exists c t, pretty_N_go n s = String c t /\
  Ascii.eqb c "0" = false /\ isDigit c = true /\ digits t = true /\ forall acc, digitsVal acc (String c t) = digitsVal (acc * 10 ^ Z.of_nat (slen (String c t) - slen s) + Z.of_N n)%Z s /\ slen s < slen (String c t).
Proof.
  induction (N.lt_wf_0 n) as [n _ IH]. intros s Hs Hn. rewrite pretty_N_go_step by done.
  destruct (prettyChar (n `mod` 10)) as (Hv & Hd & Hz); [apply N.mod_lt; lia|]. set (c := pretty_N_char (n `mod` 10)) in *.
  destruct (decide (n `div` 10 = 0)%N) as [E|E].
  - rewrite E, pretty_N_go_0. exists c, s. assert (n = n `mod` 10)%N as En by (pose proof (N.div_mod n 10 ltac:(lia)); lia).
    split_and!; [done|apply Hz; lia|done..|]. intros acc. cbn [digitsVal slen]. rewrite Hv. split; [|lia]. f_equal.
    replace (S (slen s) - slen s) with 1 by lia. change (10 ^ Z.of_nat 1)%Z with 10%Z. lia.
  - destruct (IH (n `div` 10)%N) with (s := String c s) as (c' & t & Ep & H0 & Hd' & Ht & Hval).
    { apply N.div_lt; lia. } { cbn. by rewrite Hd, Hs. } { by apply N.neq_0_lt_0. }
    exists c', t. split_and!; [done..|]. intros acc. destruct (Hval acc) as [Hv' Hl]. cbn [slen] in Hl. split; [|cbn [slen]; lia].
    rewrite Hv'. cbn [digitsVal]. rewrite Hv. f_equal. cbn [slen] in *.
    replace (S (slen t) - slen s) with (S (S (slen t) - S (slen s))) by lia. rewrite Nat2Z.inj_succ, Z.pow_succ_r by lia.
    pose proof (N.div_mod n 10 ltac:(lia)). lia.
Qed.

Lemma pretty_pos p : exists c t, pretty (Z.pos p) = String c t /\ Ascii.eqb c "0" = false /\ isDigit c = true /\ digits t = true /\
  digitsVal 0 (String c t) = Some (Z.pos p).
Proof.
  destruct (prettyN_go (N.pos p) "" eq_refl ltac:(lia)) as (c & t & E & H0 & Hd & Ht & Hv). exists c, t. split_and!; [|done..|].
  - rewrite <- E. done.
  - destruct (Hv 0%Z) as [-> _]. cbn. done.
Qed.

Lemma isDigit_head c : isDigit c = true -> Ascii.eqb c "-" = false /\ Ascii.eqb c "+" = false /\ jsonSpace c = false /\
  Ascii.eqb c dquote = false /\ Ascii.eqb c "{" = false /\ Ascii.eqb c "[" = false /\ Ascii.eqb c "n" = false /\
  Ascii.eqb c "t" = false /\ Ascii.eqb c "f" = false /\ Ascii.eqb c "]" = false.
Proof. destruct c as [[] [] [] [] [] [] [] []]; (intros [=]; fail) || (intros _; vm_compute; done). Qed.

(** What may follow a number. *)
Definition ends (rest : string) : bool :=
  match rest with EmptyString => true | String c _ => negb (isDigit c || Ascii.eqb c "." || Ascii.eqb c "e" || Ascii.eqb c "E") end.

Lemma scanNumber_tail c t rest : isDigit c = true -> Ascii.eqb c "0" = false -> digits t = true -> ends rest = true ->
  scanInt (String c t +:+ rest) = Some (String c t, rest) /\ scanFrac rest = Some ("", rest) /\ scanExp rest = Some ("", rest).
Proof.
  intros Hc H0 Ht Hr. unfold ends in Hr. split_and!.
  - cbn. rewrite H0, Hc, span_digits; [done|done|]. destruct rest; [done|]. cbn. by destruct (isDigit a).
  - destruct rest as [|d rest]; [done|]. cbn in *. by destruct (isDigit d), (Ascii.eqb d "."), (Ascii.eqb d "e"), (Ascii.eqb d "E").
  - destruct rest as [|d rest]; [done|]. cbn in *. by destruct (isDigit d), (Ascii.eqb d "."), (Ascii.eqb d "e"), (Ascii.eqb d "E").
Qed.

Lemma scanNumber_itoa z rest : ends rest = true -> scanNumber (itoa z +:+ rest) = Some (itoa z, rest).
Proof.
  intros Hr. unfold itoa. destruct z as [|p|p].
  - change (pretty 0%Z) with "0". cbn. destruct (scanNumber_tail "1" "" rest eq_refl eq_refl eq_refl Hr) as (_ & -> & ->). done.
  - destruct (pretty_pos p) as (c & t & -> & H0 & Hd & Ht & _). destruct (scanNumber_tail c t rest Hd H0 Ht Hr) as (Hi & Hf & He).
    destruct (isDigit_head c Hd) as (Hm & _). unfold scanNumber. cbn [String.append]. rewrite Hm.
    change (String c (t +:+ rest)) with (String c t +:+ rest). rewrite Hi, Hf, He. cbn. by rewrite !sapp_nil_r.
  - change (pretty (Z.neg p)) with ("-" +:+ pretty (Z.pos p)). destruct (pretty_pos p) as (c & t & -> & H0 & Hd & Ht & _).
    destruct (scanNumber_tail c t rest Hd H0 Ht Hr) as (Hi & Hf & He).
    change (("-" +:+ String c t) +:+ rest) with (String "-" (String c t +:+ rest)). unfold scanNumber.
    change (Ascii.eqb "-" "-") with true. cbv beta iota. rewrite Hi, Hf, He. by rewrite !sapp_nil_r.
Qed.

(** An integer in range is read back. *)
Lemma atoi_itoa z : (- 2 ^ 63 <= z < 2 ^ 63)%Z -> atoi (itoa z) = Some z.
Proof.
  intros Hz. unfold itoa, atoi. destruct z as [|p|p]; [vm_compute; done| |].
  - destruct (pretty_pos p) as (c & t & -> & _ & Hd & _ & Hv). destruct (isDigit_head c Hd) as (-> & -> & _). cbv beta iota zeta. cbn [String.eqb]. rewrite Hv.
    rewrite (proj2 (Z.leb_le _ _)), (proj2 (Z.ltb_lt _ _)) by lia. done.
  - change (pretty (Z.neg p)) with (String "-" (pretty (Z.pos p))). destruct (pretty_pos p) as (c & t & -> & _ & Hd & _ & Hv).
    change (Ascii.eqb "-" "-") with true. cbv beta iota zeta. cbn [String.eqb]. rewrite Hv.
    change (- Z.pos p)%Z with (Z.neg p). rewrite (proj2 (Z.leb_le _ _)), (proj2 (Z.ltb_lt _ _)) by lia. done.
Qed.

(** ** Facts: values *)

(** Values whose strings are UTF-8 and whose numbers are integers. *)
Inductive wellEncoded : json -> Prop :=
  | we_null : wellEncoded JNull
  | we_bool b : wellEncoded (JBool b)
  | we_num z : wellEncoded (JNum (itoa z))
  | we_str s : utf8 s = true -> wellEncoded (JStr s)
  | we_arr l : Forall wellEncoded l -> wellEncoded (JArr l)
  | we_obj fields : Forall (fun f => utf8 f.1 = true /\ wellEncoded f.2) fields -> wellEncoded (JObj fields).

Lemma itoa_head z : exists c t, itoa z = String c t /\ (isDigit c = true \/ c = "-"%char).
Proof.
  unfold itoa. destruct z as [|p|p]; [by eexists _, _; split; [|left]| |].
  - destruct (pretty_pos p) as (c & t & -> & _ & Hd & _). eauto.
  - eexists "-"%char, _. split; [reflexivity|by right].
Qed.

Lemma encode_head html j : wellEncoded j -> exists c t, encode html j = String c t /\ jsonSpace c = false /\ Ascii.eqb c "]" = false.
Proof.
  destruct 1 as [|[]|z|s|l|fs]; try by eexists _, _.
  destruct (itoa_head z) as (c & t & E & [Hd| ->]); exists c, t || exists "-"%char, t; cbn; (split; [done|]); [|done].
  destruct (isDigit_head c Hd) as (_ & _ & Hs & _ & _ & _ & _ & _ & _ & Hb). done.
Qed.

Lemma skipSpace_head c t : jsonSpace c = false -> skipSpace (String c t) = String c t.
Proof. unfold skipSpace. cbn. by intros ->. Qed.

Lemma unquote_quote html s rest : utf8 s = true ->
  unquote (slen (escape (slen s) html s +:+ String dquote rest)) (escape (slen s) html s +:+ String dquote rest) = Some (s, rest).
Proof. intros Hs. apply unquote_escape; [done|done|]. rewrite slen_app. cbn. lia. Qed.

Lemma hasPrefix_head c d t p : Ascii.eqb c d = false -> hasPrefix (String c t) (String d p) = false.
Proof. intros H. cbn. rewrite Ascii.eqb_sym. by rewrite H. Qed.

Lemma parseValue_str f t : parseValue (S f) (String dquote t) = match unquote (slen t) t with Some (r, t) => Some (JStr r, t) | None => None end.
Proof. done. Qed.

Lemma parseValue_arr f c t : jsonSpace c = false -> Ascii.eqb c "]" = false ->
  parseValue (S f) (String "[" (String c t)) = match parseItems f (String c t) with Some (l, u) => Some (JArr l, u) | None => None end.
Proof. intros H1 H2. cbn [parseValue]. rewrite skipSpace_head by done. cbn -[skipSpace parseItems]. by rewrite skipSpace_head, H2. Qed.

Lemma parseValue_obj f c t : jsonSpace c = false -> Ascii.eqb c "}" = false ->
  parseValue (S f) (String "{" (String c t)) = match parseFields f (String c t) with Some (l, u) => Some (JObj l, u) | None => None end.
Proof. intros H1 H2. cbn [parseValue]. rewrite skipSpace_head by done. cbn -[skipSpace parseFields]. by rewrite skipSpace_head, H2. Qed.

(** A number is none of the other values. *)
Lemma parse_number fuel z rest : ends rest = true -> parseValue (S fuel) (itoa z +:+ rest) = Some (JNum (itoa z), rest).
Proof.
  intros Hr. pose proof (scanNumber_itoa z rest Hr) as Hs. destruct (itoa_head z) as (c & t & E & Hc). rewrite E in *. cbn [String.append] in *.
  assert (jsonSpace c = false /\ Ascii.eqb c dquote = false /\ Ascii.eqb c "{" = false /\ Ascii.eqb c "[" = false /\
    Ascii.eqb c "n" = false /\ Ascii.eqb c "t" = false /\ Ascii.eqb c "f" = false) as (H1 & H2 & H3 & H4 & H5 & H6 & H7).
  { destruct Hc as [Hd| ->]; [|vm_compute; done]. by destruct (isDigit_head c Hd) as (_ & _ & ? & ? & ? & ? & ? & ? & ? & _). }
  cbn [parseValue]. rewrite skipSpace_head, H2, H3, H4 by done. by rewrite !hasPrefix_head, Hs.
Qed.

Section RoundTrip.
  Context (html : bool).
  #[local] Notation item f := (quote html f.1 +:+ ":" +:+ encode html f.2).

Lemma jsonJoined_cons (w : string) ws rest : joinWith "," (w :: ws) +:+ rest = w +:+ (match ws with [] => rest | _ => "," +:+ joinWith "," ws +:+ rest end).
Proof. destruct ws; [done|]. cbn [joinWith]. by rewrite !sapp_assoc. Qed.

Lemma joined_length w ws : slen (joinWith "," (w :: ws)) = slen w + match ws with [] => 0 | _ => S (slen (joinWith "," ws)) end.
Proof. destruct ws; [cbn; lia|]. cbn [joinWith]. rewrite !slen_app. done. Qed.

Lemma parse_encode fuel :
  (forall j rest, wellEncoded j -> ends rest = true -> slen (encode html j) < fuel -> parseValue fuel (encode html j +:+ rest) = Some (j, rest)) /\
  (forall j l rest, Forall wellEncoded (j :: l) -> slen (joinWith "," (map (encode html) (j :: l))) + 1 < fuel ->
     parseItems fuel (joinWith "," (map (encode html) (j :: l)) +:+ String "]" rest) = Some (j :: l, rest)) /\
  (forall f l rest, Forall (fun f => utf8 f.1 = true /\ wellEncoded f.2) (f :: l) -> slen (joinWith "," (map (fun f => item f) (f :: l))) + 1 < fuel ->
     parseFields fuel (joinWith "," (map (fun f => item f) (f :: l)) +:+ String "}" rest) = Some (f :: l, rest)).
Proof.
  induction fuel as [|fuel (IHv & IHi & IHf)]; [split_and!; intros; lia|]. split_and!.
  - intros j rest Hj Hr Hf. destruct Hj as [|b|z|s Hs|[|j l] Hl|[|[k j] fs] Hfs]; [done|by destruct b|by apply parse_number|..]; cbn [encode] in *; try done.
    + unfold quote. cbn [String.append]. rewrite parseValue_str, sapp_assoc. cbn [String.append]. by rewrite unquote_quote.
    + destruct (encode_head html j) as (c & t & Ej & Hsp & Hb); [by inversion Hl|]. cbn [map] in *.
      rewrite !slen_app in Hf. cbn [slen] in Hf. specialize (IHi j l rest Hl ltac:(cbn [map]; lia)). cbn [map] in IHi.
      change (("[" +:+ joinWith "," (encode html j :: map (encode html) l) +:+ "]") +:+ rest)
        with (String "[" ((joinWith "," (encode html j :: map (encode html) l) +:+ "]") +:+ rest)).
      rewrite sapp_assoc. cbn [String.append]. rewrite jsonJoined_cons, Ej in IHi |- *. cbn [String.append] in IHi |- *. by rewrite parseValue_arr, IHi.
    + cbn [map fst snd] in *. rewrite !slen_app in Hf. cbn [slen] in Hf. specialize (IHf (k, j) fs rest Hfs ltac:(cbn [map fst snd]; lia)).
      cbn [map fst snd] in IHf. set (x := quote html k +:+ ":" +:+ encode html j) in *.
      change (("{" +:+ joinWith "," (x :: map (fun f => item f) fs) +:+ "}") +:+ rest) with (String "{" ((joinWith "," (x :: map (fun f => item f) fs) +:+ "}") +:+ rest)).
      rewrite sapp_assoc. cbn [String.append]. rewrite jsonJoined_cons in IHf |- *. subst x. unfold quote in IHf |- *. cbn [String.append] in IHf |- *.
      by rewrite parseValue_obj, IHf.
  - intros j l rest Hl Hf. cbn [map] in *. rewrite joined_length in Hf. rewrite jsonJoined_cons. inversion Hl as [|? ? Hj Hl']; subst.
    cbn [parseItems]. destruct l as [|j' l]; cbn [map] in *.
    + rewrite IHv; [|done|done|lia]. cbn -[skipSpace]. by rewrite skipSpace_head.
    + rewrite IHv; [|done|done|lia]. cbn [String.append]. rewrite skipSpace_head by done. cbn -[parseItems joinWith].
      specialize (IHi j' l rest Hl' ltac:(cbn [map]; lia)). cbn [map] in IHi. by rewrite IHi.
  - intros [k j] l rest Hl Hf. cbn [map fst snd] in *. rewrite joined_length, !slen_app in Hf. rewrite jsonJoined_cons. inversion Hl as [|? ? [Hk Hj] Hl']; subst. cbn [fst snd] in *.
    unfold quote at 1. cbn [String.append parseFields]. rewrite skipSpace_head by done. change (negb (Ascii.eqb dquote dquote)) with false. cbv iota.
    rewrite !sapp_assoc. cbn [String.append]. rewrite unquote_quote by done. cbv iota beta. rewrite skipSpace_head by done. change (negb (Ascii.eqb ":" ":")) with false. cbv iota.
    destruct l as [|f' l]; cbn [map] in *.
    + rewrite IHv; [|done|done|cbn [slen] in Hf; lia]. by rewrite skipSpace_head.
    + rewrite IHv; [|done|done|cbn [slen] in Hf; lia]. cbn [String.append]. rewrite skipSpace_head by done.
      change (Ascii.eqb "," "}") with false. change (Ascii.eqb "," ",") with true. cbv iota. specialize (IHf f' l rest Hl' ltac:(cbn [map slen] in *; lia)). cbn [map String.append] in IHf. by rewrite IHf.
Qed.
End RoundTrip.

(** What is encoded is decoded. *)
Lemma parseJson_encode html j : wellEncoded j -> parseJson (encode html j) = Some j.
Proof.
  intros Hj. unfold parseJson. pose proof (proj1 (parse_encode html (S (slen (encode html j)))) j "" Hj eq_refl (Nat.lt_succ_diag_r _)) as H.
  rewrite sapp_nil_r in H. rewrite H. done.
Qed.

(** A trailing newline does not matter. *)
Lemma parseJson_encode_line html j : wellEncoded j -> parseJson (encode html j +:+ String "010" "") = Some j.
Proof.
  intros Hj. unfold parseJson. rewrite (proj1 (parse_encode html _) j (String "010" "")); [done|done|done|]. rewrite slen_app. cbn. lia.
Qed.
