(* ===== verification/FcModels.v ===== *)
(** * FcModels: the data of the VMM's API ([firecracker/models]).

    The client of the API is generated code of one shape: a struct with JSON
    names, a [Validate] method that runs one check after the other, and
    [MarshalBinary]/[UnmarshalBinary] through [encoding/json].  A struct type
    is a list of fields with their JSON name, Go type, [omitempty] and checks;
    what the methods do is defined once over such types, and each file of the
    package is one type. *)

From S2P Require Import Prelude GoStrings GoJson.

(** ** Go types and values *)

Inductive gotype :=
  | TString
  | TInt (bits : Z)
  | TBool
  | TPtr (t : gotype)
  | TSlice (t : gotype)
  | TStruct (fields : list field)
with field := mkField (name : string) (t : gotype) (omitempty : bool) (checks : list check)
with check :=
  | Required
  | MinimumInt (n : Z)
  | MaximumInt (n : Z)
  | EnumCase (values : list string).

Definition fName (f : field) : string := let 'mkField n _ _ _ := f in n.
Definition fType (f : field) : gotype := let 'mkField _ t _ _ := f in t.
Definition fOmit (f : field) : bool := let 'mkField _ _ o _ := f in o.
Definition fChecks (f : field) : list check := let 'mkField _ _ _ c := f in c.

(** A nil slice is [GSlice None]. *)
Inductive gval :=
  | GString (s : string)
  | GInt (z : Z)
  | GBool (b : bool)
  | GPtr (p : option gval)
  | GSlice (l : option (list gval))
  | GStruct (vs : list gval).

Fixpoint zeroOf (t : gotype) : gval :=
  match t with
  | TString => GString ""
  | TInt _ => GInt 0
  | TBool => GBool false
  | TPtr _ => GPtr None
  | TSlice _ => GSlice None
  | TStruct fields => GStruct (map (fun f => let 'mkField _ t _ _ := f in zeroOf t) fields)
  end.

(** Typing, by computation. *)
Definition intFits (bits z : Z) : bool := ((- 2 ^ (bits - 1) <=? z) && (z <? 2 ^ (bits - 1)))%Z.

Fixpoint hasType (t : gotype) (v : gval) {struct t} : bool :=
  match t, v with
  | TString, GString s => utf8 s
  | TInt bits, GInt z => intFits bits z
  | TBool, GBool _ => true
  | TPtr t, GPtr p => match p with None => true | Some v => hasType t v end
  | TSlice t, GSlice l => match l with None => true | Some l => forallb (hasType t) l end
  | TStruct fields, GStruct vs =>
      (fix go fields vs {struct fields} :=
         match fields, vs with
         | [], [] => true
         | mkField _ t _ _ :: fields, v :: vs => hasType t v && go fields vs
         | _, _ => false
         end) fields vs
  | _, _ => false
  end.

(** ** Encoding *)

(** What [omitempty] leaves out. *)
Definition isEmptyValue (v : gval) : bool :=
  match v with
  | GString s => String.eqb s ""
  | GInt z => (z =? 0)%Z
  | GBool b => negb b
  | GPtr None | GSlice None | GSlice (Some []) => true
  | _ => false
  end.

Fixpoint toJson (t : gotype) (v : gval) {struct t} : json :=
  match t, v with
  | TString, GString s => JStr s
  | TInt _, GInt z => JNum (itoa z)
  | TBool, GBool b => JBool b
  | TPtr t, GPtr (Some v) => toJson t v
  | TSlice t, GSlice (Some l) => JArr (map (toJson t) l)
  | TStruct fields, GStruct vs =>
      JObj ((fix go fields vs {struct fields} :=
         match fields, vs with
         | mkField n t omit _ :: fields, v :: vs =>
             if omit && isEmptyValue v then go fields vs else (n, toJson t v) :: go fields vs
         | _, _ => []
         end) fields vs)
  | _, _ => JNull
  end.

(** [MarshalBinary] of a non-nil model. *)
Definition MarshalBinary (t : gotype) (v : gval) : string := encode true (toJson t v).

(** ** Decoding *)

(** The field a key names: by its exact name, then without regard to the case
    of ASCII letters. *)
Definition findField (fields : list field) (key : string) : option nat :=
  match list_find (fun f => fName f = key) fields with
  | Some (i, _) => Some i
  | None => fst <$> list_find (fun f => toLower (fName f) = toLower key) fields
  end.

(** A value decoded into a destination that has the value [old]. *)
Fixpoint fromJson (t : gotype) (j : json) (old : gval) {struct t} : result gval :=
  match t, j with
  | TPtr _, JNull => Ok (GPtr None)
  | TSlice _, JNull => Ok (GSlice None)
  | _, JNull => Ok old
  | TString, JStr s => Ok (GString s)
  | TInt bits, JNum literal =>
      match atoi literal with
      | Some z => if intFits bits z then Ok (GInt z) else Err "json: number out of range"
      | None => Err "json: cannot unmarshal number"
      end
  | TBool, JBool b => Ok (GBool b)
  | TPtr t, _ =>
      let! v := fromJson t j (match old with GPtr (Some v) => v | _ => zeroOf t end) in Ok (GPtr (Some v))
  | TSlice t, JArr l =>
      let! vs := (fix go l := match l with
                              | [] => Ok []
                              | j :: l => let! v := fromJson t j (zeroOf t) in let! vs := go l in Ok (v :: vs)
                              end) l in
      Ok (GSlice (Some vs))
  | TStruct fields, JObj kvs =>
      let decoders := map (fun f => let 'mkField _ t _ _ := f in fromJson t) fields in
      let! vs := (fix go kvs vs := match kvs with
                  | [] => Ok vs
                  | (k, j) :: kvs =>
                      match findField fields k with
                      | None => go kvs vs
                      | Some i => match decoders !! i, vs !! i with
                                  | Some d, Some old => let! v := d j old in go kvs (<[i := v]> vs)
                                  | _, _ => Err "json: invalid destination"
                                  end
                      end
                  end) kvs (match old with GStruct vs => vs | _ => map (fun f => zeroOf (fType f)) fields end) in
      Ok (GStruct vs)
  | _, _ => Err "json: cannot unmarshal value"
  end.

(** [UnmarshalBinary]: into a fresh model. *)
Definition UnmarshalBinary (t : gotype) (b : string) : result gval :=
  match parseJson b with
  | None => Err "invalid JSON"
  | Some j => fromJson t j (zeroOf t)
  end.

(** ** Validation *)

(** The value behind a pointer, and [swag.IsZero]. *)
Definition deref (v : gval) : gval := match v with GPtr (Some v) => v | _ => v end.
Definition isZero (v : gval) : bool :=
  match v with
  | GString s => String.eqb s ""
  | GInt z => (z =? 0)%Z
  | GBool b => negb b
  | GPtr None | GSlice None => true
  | _ => false
  end.

Record violation := mkViolation {
  viPath : string;
  viCheck : check
}.

(** [validate.Required] is about the pointer, the other checks about what it
    points to. *)
Definition fails (v : gval) (c : check) : bool :=
  match c with
  | Required => isZero v
  | MinimumInt n => match deref v with GInt z => (z <? n)%Z | _ => false end
  | MaximumInt n => match deref v with GInt z => (n <? z)%Z | _ => false end
  | EnumCase values => match deref v with GString s => negb (existsb (String.eqb s) values) | _ => false end
  end.

Definition isRequired (checks : list check) : bool := existsb (fun c => match c with Required => true | _ => false end) checks.

Definition under (path : string) (vs : list violation) : list violation :=
  map (fun x => mkViolation (path +:+ "." +:+ viPath x) (viCheck x)) vs.

(** [Validate]: every field in turn; of a field the first check that fails, or
    what the model below it reports; of a slice the first element that
    fails. *)
Fixpoint Validate (t : gotype) (v : gval) {struct t} : list violation :=
  match t, v with
  | TPtr t, GPtr (Some v) => Validate t v
  | TSlice t, GSlice (Some l) =>
      (fix go i l := match l with
                     | [] => []
                     | v :: l => match Validate t v with [] => go (S i) l | vs => under (itoa (Z.of_nat i)) vs end
                     end) 0 l
  | TStruct fields, GStruct vs =>
      (fix go fields vs {struct fields} :=
         match fields, vs with
         | mkField n t _ checks :: fields, v :: vs =>
             (if isZero v && negb (isRequired checks) then []
              else match List.filter (fails v) checks with
                   | c :: _ => [mkViolation n c]
                   | [] => under n (Validate t v)
                   end) ++ go fields vs
         | _, _ => []
         end) fields vs
  | _, _ => []
  end.

(** ** The models *)

Definition CPUTemplate : check := EnumCase ["C3"; "T2"; "T2S"; "T2CL"; "T2A"; "V1N1"; "None"].

Definition ArmRegisterModifier : gotype := TStruct
    [mkField "addr" (TPtr TString) false [Required];
     mkField "bitmap" (TPtr TString) false [Required]].

Definition Balloon : gotype := TStruct
    [mkField "amount_mib" (TPtr (TInt 64)) false [Required];
     mkField "deflate_on_oom" (TPtr TBool) false [Required];
     mkField "free_page_hinting" TBool true [];
     mkField "free_page_reporting" TBool true [];
     mkField "stats_polling_interval_s" (TInt 64) true []].

Definition BalloonHintingStatus : gotype := TStruct
    [mkField "guest_cmd" (TInt 64) true [];
     mkField "host_cmd" (TPtr (TInt 64)) false [Required]].

Definition BalloonStartCmd : gotype := TStruct
    [mkField "acknowledge_on_stop" TBool true []].

Definition BalloonStats : gotype := TStruct
    [mkField "actual_mib" (TPtr (TInt 64)) false [Required];
     mkField "actual_pages" (TPtr (TInt 64)) false [Required];
     mkField "alloc_stall" (TInt 64) true [];
     mkField "async_reclaim" (TInt 64) true [];
     mkField "async_scan" (TInt 64) true [];
     mkField "available_memory" (TInt 64) true [];
     mkField "direct_reclaim" (TInt 64) true [];
     mkField "direct_scan" (TInt 64) true [];
     mkField "disk_caches" (TInt 64) true [];
     mkField "free_memory" (TInt 64) true [];
     mkField "hugetlb_allocations" (TInt 64) true [];
     mkField "hugetlb_failures" (TInt 64) true [];
     mkField "major_faults" (TInt 64) true [];
     mkField "minor_faults" (TInt 64) true [];
     mkField "oom_kill" (TInt 64) true [];
     mkField "swap_in" (TInt 64) true [];
     mkField "swap_out" (TInt 64) true [];
     mkField "target_mib" (TPtr (TInt 64)) false [Required];
     mkField "target_pages" (TPtr (TInt 64)) false [Required];
     mkField "total_memory" (TInt 64) true []].

Definition BalloonStatsUpdate : gotype := TStruct
    [mkField "stats_polling_interval_s" (TPtr (TInt 64)) false [Required]].

Definition BalloonUpdate : gotype := TStruct
    [mkField "amount_mib" (TPtr (TInt 64)) false [Required]].

Definition BootSource : gotype := TStruct
    [mkField "boot_args" TString true [];
     mkField "initrd_path" TString true [];
     mkField "kernel_image_path" (TPtr TString) false [Required]].

Definition CpuidRegisterModifier : gotype := TStruct
    [mkField "bitmap" (TPtr TString) false [Required];
     mkField "register" (TPtr TString) false [Required; EnumCase ["eax"; "ebx"; "ecx"; "edx"]]].

Definition CpuidLeafModifier : gotype := TStruct
    [mkField "flags" (TPtr (TInt 32)) false [Required];
     mkField "leaf" (TPtr TString) false [Required];
     mkField "modifiers" (TSlice (TPtr CpuidRegisterModifier)) false [Required];
     mkField "subleaf" (TPtr TString) false [Required]].

Definition MsrModifier : gotype := TStruct
    [mkField "addr" (TPtr TString) false [Required];
     mkField "bitmap" (TPtr TString) false [Required]].

Definition VcpuFeatures : gotype := TStruct
    [mkField "bitmap" (TPtr TString) false [Required];
     mkField "index" (TPtr (TInt 32)) false [Required]].

Definition CPUConfig : gotype := TStruct
    [mkField "cpuid_modifiers" (TSlice (TPtr CpuidLeafModifier)) false [];
     mkField "kvm_capabilities" (TSlice TString) false [];
     mkField "msr_modifiers" (TSlice (TPtr MsrModifier)) false [];
     mkField "reg_modifiers" (TSlice (TPtr ArmRegisterModifier)) false [];
     mkField "vcpu_features" (TSlice (TPtr VcpuFeatures)) false []].

Definition TokenBucket : gotype := TStruct
    [mkField "one_time_burst" (TPtr (TInt 64)) true [MinimumInt 0];
     mkField "refill_time" (TPtr (TInt 64)) false [Required; MinimumInt 0];
     mkField "size" (TPtr (TInt 64)) false [Required; MinimumInt 0]].

Definition RateLimiter : gotype := TStruct
    [mkField "bandwidth" (TPtr TokenBucket) true [];
     mkField "ops" (TPtr TokenBucket) true []].

Definition Drive : gotype := TStruct
    [mkField "cache_type" (TPtr TString) true [EnumCase ["Unsafe"; "Writeback"]];
     mkField "drive_id" (TPtr TString) false [Required];
     mkField "io_engine" (TPtr TString) true [EnumCase ["Sync"; "Async"]];
     mkField "is_read_only" TBool true [];
     mkField "is_root_device" (TPtr TBool) false [Required];
     mkField "partuuid" TString true [];
     mkField "path_on_host" TString true [];
     mkField "rate_limiter" (TPtr RateLimiter) true [];
     mkField "socket" TString true []].

Definition EntropyDevice : gotype := TStruct
    [mkField "rate_limiter" (TPtr RateLimiter) true []].

Definition Error : gotype := TStruct
    [mkField "fault_message" TString true []].

Definition FirecrackerVersion : gotype := TStruct
    [mkField "firecracker_version" (TPtr TString) false [Required]].

Definition Logger : gotype := TStruct
    [mkField "level" (TPtr TString) true [EnumCase ["Error"; "Warning"; "Info"; "Debug"; "Trace"; "Off"]];
     mkField "log_path" TString true [];
     mkField "module" TString true [];
     mkField "show_level" (TPtr TBool) true [];
     mkField "show_log_origin" (TPtr TBool) true []].

Definition MachineConfiguration : gotype := TStruct
    [mkField "cpu_template" (TPtr TString) true [CPUTemplate];
     mkField "huge_pages" TString true [EnumCase ["None"; "2M"]];
     mkField "mem_size_mib" (TPtr (TInt 64)) false [Required];
     mkField "smt" (TPtr TBool) true [];
     mkField "track_dirty_pages" (TPtr TBool) true [];
     mkField "vcpu_count" (TPtr (TInt 64)) false [Required; MinimumInt 1; MaximumInt 32]].

Definition MemoryHotplugConfig : gotype := TStruct
    [mkField "block_size_mib" (TInt 64) true [MinimumInt 2];
     mkField "slot_size_mib" (TInt 64) true [MinimumInt 128];
     mkField "total_size_mib" (TInt 64) true []].

Definition Metrics : gotype := TStruct
    [mkField "metrics_path" (TPtr TString) false [Required]].

Definition MmdsConfig : gotype := TStruct
    [mkField "imds_compat" (TPtr TBool) true [];
     mkField "ipv4_address" (TPtr TString) true [];
     mkField "network_interfaces" (TSlice TString) false [Required];
     mkField "version" (TPtr TString) true [EnumCase ["V1"; "V2"]]].

Definition NetworkInterface : gotype := TStruct
    [mkField "guest_mac" TString true [];
     mkField "host_dev_name" (TPtr TString) false [Required];
     mkField "iface_id" (TPtr TString) false [Required];
     mkField "rx_rate_limiter" (TPtr RateLimiter) true [];
     mkField "tx_rate_limiter" (TPtr RateLimiter) true []].

Definition Pmem : gotype := TStruct
    [mkField "id" (TPtr TString) false [Required];
     mkField "path_on_host" (TPtr TString) false [Required];
     mkField "read_only" TBool true [];
     mkField "root_device" TBool true []].

Definition Vsock : gotype := TStruct
    [mkField "guest_cid" (TPtr (TInt 64)) false [Required; MinimumInt 3];
     mkField "uds_path" (TPtr TString) false [Required];
     mkField "vsock_id" TString true []].

Definition FullVMConfiguration : gotype := TStruct
    [mkField "balloon" (TPtr Balloon) true [];
     mkField "boot-source" (TPtr BootSource) true [];
     mkField "cpu-config" (TPtr CPUConfig) true [];
     mkField "drives" (TSlice (TPtr Drive)) false [];
     mkField "entropy" (TPtr EntropyDevice) true [];
     mkField "logger" (TPtr Logger) true [];
     mkField "machine-config" (TPtr MachineConfiguration) true [];
     mkField "memory-hotplug" (TPtr MemoryHotplugConfig) true [];
     mkField "metrics" (TPtr Metrics) true [];
     mkField "mmds-config" (TPtr MmdsConfig) true [];
     mkField "network-interfaces" (TSlice (TPtr NetworkInterface)) false [];
     mkField "pmem" (TSlice (TPtr Pmem)) false [];
     mkField "vsock" (TPtr Vsock) true []].

Definition InstanceActionInfo : gotype := TStruct
    [mkField "action_type" (TPtr TString) false [Required; EnumCase ["FlushMetrics"; "InstanceStart"; "SendCtrlAltDel"]]].

Definition InstanceInfo : gotype := TStruct
    [mkField "app_name" (TPtr TString) false [Required];
     mkField "id" (TPtr TString) false [Required];
     mkField "state" (TPtr TString) false [Required; EnumCase ["Not started"; "Running"; "Paused"]];
     mkField "vmm_version" (TPtr TString) false [Required]].

Definition MemoryBackend : gotype := TStruct
    [mkField "backend_path" (TPtr TString) false [Required];
     mkField "backend_type" (TPtr TString) false [Required; EnumCase ["File"; "Uffd"]]].

Definition MemoryHotplugSizeUpdate : gotype := TStruct
    [mkField "requested_size_mib" (TInt 64) true []].

Definition MemoryHotplugStatus : gotype := TStruct
    [mkField "block_size_mib" (TInt 64) true [];
     mkField "plugged_size_mib" (TInt 64) true [];
     mkField "requested_size_mib" (TInt 64) true [];
     mkField "slot_size_mib" (TInt 64) true [];
     mkField "total_size_mib" (TInt 64) true []].

Definition NetworkOverride : gotype := TStruct
    [mkField "host_dev_name" (TPtr TString) false [Required];
     mkField "iface_id" (TPtr TString) false [Required]].

Definition PartialDrive : gotype := TStruct
    [mkField "drive_id" (TPtr TString) false [Required];
     mkField "path_on_host" TString true [];
     mkField "rate_limiter" (TPtr RateLimiter) true []].

Definition PartialNetworkInterface : gotype := TStruct
    [mkField "iface_id" (TPtr TString) false [Required];
     mkField "rx_rate_limiter" (TPtr RateLimiter) true [];
     mkField "tx_rate_limiter" (TPtr RateLimiter) true []].

Definition SerialDevice : gotype := TStruct
    [mkField "serial_out_path" TString true []].

Definition SnapshotCreateParams : gotype := TStruct
    [mkField "mem_file_path" (TPtr TString) false [Required];
     mkField "snapshot_path" (TPtr TString) false [Required];
     mkField "snapshot_type" TString true [EnumCase ["Full"; "Diff"]]].

Definition SnapshotLoadParams : gotype := TStruct
    [mkField "clock_realtime" TBool true [];
     mkField "enable_diff_snapshots" TBool true [];
     mkField "mem_backend" (TPtr MemoryBackend) true [];
     mkField "mem_file_path" TString true [];
     mkField "network_overrides" (TSlice (TPtr NetworkOverride)) false [];
     mkField "resume_vm" TBool true [];
     mkField "snapshot_path" (TPtr TString) false [Required];
     mkField "track_dirty_pages" TBool true []].

Definition VM : gotype := TStruct
    [mkField "state" (TPtr TString) false [Required; EnumCase ["Paused"; "Resumed"]]].

Definition models : list gotype :=
  [ArmRegisterModifier; Balloon; BalloonHintingStatus; BalloonStartCmd; BalloonStats; BalloonStatsUpdate;
   BalloonUpdate; BootSource; CpuidRegisterModifier; CpuidLeafModifier; MsrModifier; VcpuFeatures; CPUConfig;
   TokenBucket; RateLimiter; Drive; EntropyDevice; Error; FirecrackerVersion; Logger; MachineConfiguration;
   MemoryHotplugConfig; Metrics; MmdsConfig; NetworkInterface; Pmem; Vsock; FullVMConfiguration;
   InstanceActionInfo; InstanceInfo; MemoryBackend; MemoryHotplugSizeUpdate; MemoryHotplugStatus;
   NetworkOverride; PartialDrive; PartialNetworkInterface; SerialDevice; SnapshotCreateParams;
   SnapshotLoadParams; VM].

(** ** Facts *)

Lemma gotype_ind' (P : gotype -> Prop) : P TString -> (forall bits, P (TInt bits)) -> P TBool -> (forall t, P t -> P (TPtr t)) ->
  (forall t, P t -> P (TSlice t)) -> (forall fields, Forall (fun f => P (fType f)) fields -> P (TStruct fields)) -> forall t, P t.
Proof.
  intros HS HI HB HP HL HT. fix IH 1. intros [|bits| |t|t|fields]; [exact HS|apply HI|exact HB|apply HP, IH|apply HL, IH|].
  apply HT. revert fields. fix go 1. intros [|[n t o c] fields]; [constructor|]. constructor; [apply IH|apply go].
Qed.

(** A type of the kind the package uses: field names differ, what a pointer
    points to is not itself a pointer or slice, and slices are never
    [omitempty]. *)
Definition nullable (t : gotype) : bool := match t with TPtr _ | TSlice _ => true | _ => false end.

Fixpoint regular (t : gotype) : bool :=
  match t with
  | TString | TBool => true
  | TInt bits => ((0 <? bits) && (bits <=? 64))%Z
  | TPtr t => negb (nullable t) && regular t
  | TSlice t => regular t
  | TStruct fields =>
      bool_decide (NoDup (map fName fields)) &&
      forallb (fun f => let 'mkField n t omit _ := f in
                 utf8 n && regular t && negb (omit && match t with TSlice _ => true | TStruct _ => true | _ => false end)) fields
  end.

Fixpoint hasTypes (fields : list field) (vs : list gval) : bool :=
  match fields, vs with
  | [], [] => true
  | mkField _ t _ _ :: fields, v :: vs => hasType t v && hasTypes fields vs
  | _, _ => false
  end.

Fixpoint encodedFields (fields : list field) (vs : list gval) : list (string * json) :=
  match fields, vs with
  | mkField n t omit _ :: fields, v :: vs =>
      if omit && isEmptyValue v then encodedFields fields vs else (n, toJson t v) :: encodedFields fields vs
  | _, _ => []
  end.

Lemma hasType_struct fields vs : hasType (TStruct fields) (GStruct vs) = hasTypes fields vs.
Proof. done. Qed.

Lemma toJson_struct fields vs : toJson (TStruct fields) (GStruct vs) = JObj (encodedFields fields vs).
Proof. done. Qed.

Lemma toJson_nullable t v : hasType t v = true -> nullable t = false -> toJson t v <> JNull.
Proof. destruct t, v; done. Qed.

Lemma isEmptyValue_zero t v : hasType t v = true -> isEmptyValue v = true -> (match t with TSlice _ => false | TStruct _ => false | _ => true end) = true ->
  v = zeroOf t.
Proof.
  destruct t, v; cbn; try done.
  - by intros _ ->%String.eqb_eq.
  - by intros _ ->%Z.eqb_eq.
  - by destruct b.
  - by destruct p.
Qed.

(** The decoding of a struct, with the values so far. *)
Definition decodedFields (fields : list field) : list (string * json) -> list gval -> result (list gval) :=
  fix go kvs vs :=
    match kvs with
    | [] => Ok vs
    | (k, j) :: kvs =>
        match findField fields k with
        | None => go kvs vs
        | Some i => match map (fun f => let 'mkField _ t _ _ := f in fromJson t) fields !! i, vs !! i with
                    | Some d, Some old => let! v := d j old in go kvs (<[i := v]> vs)
                    | _, _ => Err "json: invalid destination"
                    end
        end
    end.

Lemma decodedFields_cons fields k j kvs vs i d old : findField fields k = Some i ->
  map (fun f => let 'mkField _ t _ _ := f in fromJson t) fields !! i = Some d -> vs !! i = Some old ->
  decodedFields fields ((k, j) :: kvs) vs = let! v := d j old in decodedFields fields kvs (<[i := v]> vs).
Proof. intros H1 H2 H3. cbn [decodedFields]. by rewrite H1, H2, H3. Qed.

Lemma fromJson_struct fields kvs vs : fromJson (TStruct fields) (JObj kvs) (GStruct vs) = let! vs := decodedFields fields kvs vs in Ok (GStruct vs).
Proof. done. Qed.

Lemma findField_at pre f post : NoDup (map fName (pre ++ f :: post)) -> findField (pre ++ f :: post) (fName f) = Some (length pre).
Proof.
  intros Hnd. unfold findField. assert (list_find (fun g => fName g = fName f) (pre ++ f :: post) = Some (length pre, f)) as ->; [|done].
  apply list_find_Some. split_and!; [by rewrite list_lookup_middle|done|]. intros i g Hi Hl E. rewrite lookup_app_l in Hi by done.
  rewrite map_app in Hnd. apply NoDup_app in Hnd as (_ & Hd & _). apply (Hd (fName g)); [by eapply (list_elem_of_fmap_2 fName), list_elem_of_lookup_2|].
  rewrite E. left.
Qed.

(** A struct is read back field by field: those already read, then the rest
    over its zero values. *)
Lemma decodedFields_encoded fields :
  NoDup (map fName fields) ->
  Forall (fun f => forall v, hasType (fType f) v = true -> fromJson (fType f) (toJson (fType f) v) (zeroOf (fType f)) = Ok v) fields ->
  Forall (fun f => fOmit f = true -> (match fType f with TSlice _ => false | TStruct _ => false | _ => true end) = true) fields ->
  forall post pre vpre vpost, fields = pre ++ post -> length pre = length vpre -> hasTypes post vpost = true ->
  decodedFields fields (encodedFields post vpost) (vpre ++ map (fun f => zeroOf (fType f)) post) = Ok (vpre ++ vpost).
Proof.
  intros Hnd Hrt Hom. induction post as [|f post IH]; intros pre vpre vpost E Hl Ht.
  { destruct vpost; [|done]. done. }
  destruct f as [n t omit c], vpost as [|v vpost]; [done|]. cbn [hasTypes] in Ht. apply andb_true_iff in Ht as [Hv Ht].
  assert (fields !! length pre = Some (mkField n t omit c)) as Hf by (rewrite E; by apply list_lookup_middle).
  pose proof (Forall_lookup_1 _ _ _ _ Hrt Hf v Hv) as Hd. pose proof (Forall_lookup_1 _ _ _ _ Hom Hf) as Ho. cbn [fType fOmit] in Hd, Ho.
  assert (fields = (pre ++ [mkField n t omit c]) ++ post) as E' by (by rewrite <- app_assoc).
  cbn [encodedFields map fType]. destruct (omit && isEmptyValue v) eqn:Eo.
  - apply andb_true_iff in Eo as [-> Eo]. rewrite <- (isEmptyValue_zero t v Hv Eo (Ho eq_refl)).
    specialize (IH (pre ++ [mkField n t true c]) (vpre ++ [v]) vpost E'). rewrite <- !app_assoc in IH. apply IH; [|done].
    rewrite !length_app. cbn. lia.
  - rewrite (decodedFields_cons fields n _ _ _ (length pre) (fromJson t) (zeroOf t)).
    2: { rewrite E. apply (findField_at pre (mkField n t omit c)). by rewrite <- E. }
    2: { by rewrite list_lookup_fmap, Hf. }
    2: { rewrite Hl. by apply list_lookup_middle. }
    rewrite Hd. cbn [rbind]. rewrite Hl, insert_app_r_alt, Nat.sub_diag by lia. cbn [insert list_insert].
    specialize (IH (pre ++ [mkField n t omit c]) (vpre ++ [v]) vpost E'). rewrite <- !app_assoc in IH. apply IH; [|done].
    rewrite !length_app. cbn. lia.
Qed.

Lemma from_to t : regular t = true -> forall v, hasType t v = true -> fromJson t (toJson t v) (zeroOf t) = Ok v.
Proof.
  induction t as [|bits| |t IH|t IH|fields IH] using gotype_ind'; intros Hr v Hv.
  - by destruct v.
  - destruct v as [|z| | | |]; try done. cbn in *. apply andb_true_iff in Hr as [H1 H2]. apply Z.ltb_lt in H1. apply Z.leb_le in H2.
    unfold intFits in *. rewrite atoi_itoa; [by rewrite Hv|]. apply andb_true_iff in Hv as [Hv1 Hv2]. apply Z.leb_le in Hv1. apply Z.ltb_lt in Hv2.
    assert (2 ^ (bits - 1) <= 2 ^ 63)%Z by (apply Z.pow_le_mono_r; lia). lia.
  - by destruct v.
  - destruct v as [| | |[v|]| |]; try done. cbn in Hr, Hv. apply andb_true_iff in Hr as [Hn Hr]. apply negb_true_iff in Hn.
    pose proof (toJson_nullable t v Hv Hn) as Hj. specialize (IH Hr v Hv). cbn [toJson fromJson zeroOf]. destruct (toJson t v); try done; by rewrite IH.
  - destruct v as [| | | |[l|]|]; try done. cbn in Hr, Hv. cbn [toJson fromJson].
    assert ((fix go l := match l with [] => Ok [] | j :: l => let! v := fromJson t j (zeroOf t) in let! vs := go l in Ok (v :: vs) end) (map (toJson t) l) = Ok l)
      as ->; [|done]. induction l as [|v l IHl]; [done|]. cbn in Hv. apply andb_true_iff in Hv as [Hv Hl]. cbn [map]. rewrite IH by done. cbn [rbind]. by rewrite IHl.
  - destruct v as [| | | | |vs]; try done. cbn in Hr. apply andb_true_iff in Hr as [Hnd Hr]. apply bool_decide_eq_true in Hnd. rewrite forallb_forall in Hr.
    rewrite toJson_struct. cbn [zeroOf]. rewrite fromJson_struct. rewrite hasType_struct in Hv.
    replace (map (fun f => let 'mkField _ t _ _ := f in zeroOf t) fields) with (map (fun f => zeroOf (fType f)) fields) by (apply map_ext; by intros []).
    rewrite (decodedFields_encoded fields Hnd) with (pre := []) (vpre := []) (vpost := vs); [done| | |done..].
    + rewrite Forall_forall in IH |- *. intros f Hf v Hv'. apply IH; [done| |done]. apply list_elem_of_In, Hr in Hf. destruct f. cbn in *.
      by apply andb_true_iff in Hf as [[_ Hf]%andb_true_iff _].
    + rewrite Forall_forall. intros f Hf Ho. apply list_elem_of_In, Hr in Hf. destruct f as [n t omit c]. cbn in *. subst omit.
      apply andb_true_iff in Hf as [_ Hf]. by destruct t.
Qed.

Lemma encoded_wellEncoded fields : Forall (fun f => utf8 (fName f) = true /\ forall v, hasType (fType f) v = true -> wellEncoded (toJson (fType f) v)) fields ->
  forall vs, hasTypes fields vs = true -> Forall (fun kv => utf8 kv.1 = true /\ wellEncoded kv.2) (encodedFields fields vs).
Proof.
  induction 1 as [|[n t o c] fields [Hn Ht] Hfs IH]; intros [|v vs] Hv; try done. cbn [hasTypes encodedFields] in *.
  apply andb_true_iff in Hv as [Hv Hvs]. destruct (o && isEmptyValue v); [by apply IH|]. constructor; [split; [done|by apply Ht]|by apply IH].
Qed.

Lemma toJson_wellEncoded t : regular t = true -> forall v, hasType t v = true -> wellEncoded (toJson t v).
Proof.
  induction t as [|bits| |t IH|t IH|fields IH] using gotype_ind'; intros Hr v Hv.
  - destruct v; try done. by constructor.
  - destruct v; try done. constructor.
  - destruct v; try done. constructor.
  - destruct v as [| | |[v|]| |]; try done; [|constructor]. cbn in Hr. apply andb_true_iff in Hr as [_ Hr]. by apply IH.
  - destruct v as [| | | |[l|]|]; try done; [|constructor]. cbn in Hr, Hv |- *. constructor. rewrite forallb_forall in Hv.
    apply Forall_forall. intros j Hj. apply list_elem_of_In, in_map_iff in Hj as (v & <- & Hin). apply IH; [done|by apply Hv].
  - destruct v as [| | | | |vs]; try done. cbn in Hr. apply andb_true_iff in Hr as [_ Hr]. rewrite forallb_forall in Hr. rewrite toJson_struct.
    constructor. apply encoded_wellEncoded; [|done]. rewrite Forall_forall in IH |- *. intros f Hf. specialize (IH f Hf).
    apply list_elem_of_In, Hr in Hf. destruct f as [n t o c]. cbn in *. apply andb_true_iff in Hf as [[Hn Ht]%andb_true_iff _]. split; [done|]. by apply IH.
Qed.

Lemma models_regular t : t ∈ models -> regular t = true.
Proof.
  assert (forallb regular models = true) as H by (vm_compute; reflexivity). rewrite forallb_forall in H. intros Ht. by apply H, list_elem_of_In.
Qed.

(** Every model of the VMM's API survives its JSON: what [MarshalBinary]
    writes, [UnmarshalBinary] reads back, for each of the forty models and every
    value of it whose strings are UTF-8 and whose integers fit their type. *)
Theorem model_roundtrip t v : t ∈ models -> hasType t v = true -> UnmarshalBinary t (MarshalBinary t v) = Ok v.
Proof.
  intros Ht%models_regular Hv. unfold UnmarshalBinary, MarshalBinary. rewrite parseJson_encode by by apply toJson_wellEncoded. by apply from_to.
Qed.

(** A drive with a rate limiter. *)
Definition exDrive : gval :=
  GStruct [GPtr None; GPtr (Some (GString "root")); GPtr (Some (GString "Sync")); GBool true; GPtr (Some (GBool true)); GString "";
           GString "/a<b"; GPtr (Some (GStruct [GPtr None; GPtr (Some (GStruct [GPtr None; GPtr (Some (GInt 100)); GPtr (Some (GInt 0))]))])); GString ""].

Lemma model_roundtrip_witness : UnmarshalBinary Drive (MarshalBinary Drive exDrive) = Ok exDrive.
Proof.
  apply model_roundtrip; [|vm_compute; reflexivity].
  unfold models. do 15 apply list_elem_of_further. apply list_elem_of_here.
Defined.

Definition quoted (s : string) : string := quote true s.

(** The JSON of the example, with its HTML-safe escape. *)
Example exDrive_json : MarshalBinary Drive exDrive =
  "{" +:+ quoted "drive_id" +:+ ":" +:+ quoted "root" +:+ "," +:+ quoted "io_engine" +:+ ":" +:+ quoted "Sync" +:+ "," +:+
  quoted "is_read_only" +:+ ":true," +:+ quoted "is_root_device" +:+ ":true," +:+ quoted "path_on_host" +:+ ":" +:+
  String dquote "/a" +:+ String backslash "u003cb" +:+ String dquote "," +:+ quoted "rate_limiter" +:+ ":{" +:+ quoted "ops" +:+ ":{" +:+
  quoted "refill_time" +:+ ":100," +:+ quoted "size" +:+ ":0}}}".
Proof. vm_compute. reflexivity. Qed.
