(* ===== verification/CompileCache.v ===== *)
(** * CompileCache: the compile-output cache of [internal/cache/compile.go].

    The facade is written against the store interface ([StoreOps],
    [StoreLaws]) and works for every implementation of it; the disk store is
    one ([disk_laws]).  A panic (an invalid namespace) is [None].  [cacheKey]
    is [inv.CacheKey(ctx)], [readFile] is [os.ReadFile] with a missing file as
    [Ok None], and [metadataJSON] is the marshalled metadata, which no code
    reads back. *)

From S2P Require Import Prelude GoStrings GoPath Enum Invocation Store.

(** ** The extras codec *)

Definition encodeEntry (p v : string) : string :=
  be_bytes 4 (Z.of_nat (slen p)) +:+ p +:+ be_bytes 8 (Z.of_nat (slen v)) +:+ v.

Fixpoint encodeEntries (extras : gmap string string) (paths : list string) : string :=
  match paths with
  | [] => ""
  | p :: rest => encodeEntry p (default "" (extras !! p)) +:+ encodeEntries extras rest
  end.

(** [encodeExtras]; lengths are truncated to 32 and 64 bits. *)
Definition encodeExtras (extras : gmap string string) : string :=
  let paths := sortStrings (map fst (map_to_list extras)) in
  be_bytes 4 (Z.of_nat (length paths)) +:+ encodeEntries extras paths.

(** A slice expression [data\[a:b\]]; out of range it panics ([None]). *)
Definition slice (data : string) (a b : nat) : option string :=
  if (a <=? b) && (b <=? slen data) then Some (stake (b - a) (sdrop a data)) else None.

Inductive decodeOutcome :=
  | Decoded (m : gmap string string)
  | UnexpectedEOF
  | Panic
  | OutOfFuel.

(** One pass of the decoding loop per unit of fuel; an iteration that does
    not fail consumes at least twelve bytes. *)
Fixpoint decodeLoop (fuel : nat) (count : Z) (data : string) (off : nat)
    (out : gmap string string) : decodeOutcome :=
  if (count <=? 0)%Z then Decoded out
  else match fuel with
  | 0 => OutOfFuel
  | S fuel' =>
      if slen data - off <? 4 then UnexpectedEOF
      else match slice data off (off + 4) with
      | None => Panic
      | Some hdr =>
          let pl := be_value hdr in
          let off := off + 4 in
          if (Z.of_nat (slen data - off) <? pl + 8)%Z then UnexpectedEOF
          else match slice data off (off + Z.to_nat pl),
                     slice data (off + Z.to_nat pl) (off + Z.to_nat pl + 8) with
          | Some p, Some hdr =>
              let vl := be_value hdr in
              let off := off + Z.to_nat pl + 8 in
              if (Z.of_nat (slen data - off) <? vl)%Z then UnexpectedEOF
              else match slice data off (off + Z.to_nat vl) with
              | Some v => decodeLoop fuel' (count - 1)%Z data (off + Z.to_nat vl) (<[p := v]> out)
              | None => Panic
              end
          | _, _ => Panic
          end
      end
  end.

(** [decodeExtras]; more iterations than bytes are never needed. *)
Definition decodeExtras (data : string) : decodeOutcome :=
  if slen data <? 4 then UnexpectedEOF
  else match slice data 0 4 with
  | None => Panic
  | Some hdr => decodeLoop (slen data) (be_value hdr) data 4 ∅
  end.

(** ** The facade *)

Definition blobOutput : string := "output".
Definition blobStdout : string := "stdout".
Definition blobStderr : string := "stderr".
Definition blobExitCode : string := "exit_code".
Definition blobMetadata : string := "metadata".
Definition blobExtras : string := "extras".

Section Facade.
  Context {S : Type} `{!StoreOps S}.
  Context (cacheKey : Invocation -> result string)
    (readFile : string -> result (option string))
    (metadataJSON : Invocation -> InvocationResult -> string).

(** [loadEntry(s, key, outputPath)] in the namespace [ns]; [Ok None] is
    [ok = false]. *)
Definition loadEntry (s : S) (ns : list string) (key outputPath : string)
    : result (option InvocationResult) :=
  let! raw := wrapErr "get exit_code" (sGet s ns key blobExitCode) in
  match raw with
  | None => Ok None
  | Some raw =>
      match atoi raw with
      | None => Ok None
      | Some exitCode =>
          let! stdout := wrapErr "get stdout" (sGet s ns key blobStdout) in
          let! stderr := wrapErr "get stderr" (sGet s ns key blobStderr) in
          let! output := (if String.eqb outputPath "" then Ok (Some "")
                          else wrapErr "get output" (sGet s ns key blobOutput)) in
          match output with
          | None => Ok None
          | Some output =>
              let extras := match sGet s ns key blobExtras with
                            | Ok (Some raw) =>
                                match decodeExtras raw with Decoded m => m | _ => ∅ end
                            | _ => ∅
                            end in
              Ok (Some (mkInvocationResult output (default "" stdout) (default "" stderr)
                          exitCode 0 extras))
          end
      end
  end.

(** The namespace of a tenant's entries. *)
Definition tenantNs (tenantID : string) : list string := ["compile"; tenantID].

(** The loop of [Lookup] over the stores. *)
Fixpoint lookupIn (stores : list S) (ns : list string) (key outputPath : string)
    : result (option InvocationResult) :=
  match stores with
  | [] => Ok None
  | s :: rest =>
      match sHas s ns key with
      | Ok true =>
          let! r := loadEntry s ns key outputPath in
          match r with
          | Some res => Ok (Some res)
          | None => lookupIn rest ns key outputPath
          end
      | _ => lookupIn rest ns key outputPath
      end
  end.

Definition Lookup (stores : list S) (inv : Invocation) (tenantID : string)
    : option (result (option InvocationResult)) :=
  if bool_decide (length stores = 0) then Some (Ok None)
  else if String.eqb tenantID "" then Some (Err "CompileCache.Lookup: tenantID is required")
  else match wrapErr "cache key" (cacheKey inv) with
  | Err e => Some (Err e)
  | Ok key =>
      if is_ok (validateNamespace tenantID)
      then Some (lookupIn stores (tenantNs tenantID) key (Output inv))
      else None
  end.

(** The output bytes [Store] writes; [None] is the nil slice. *)
Definition storeOutput (inv : Invocation) (res : InvocationResult) : result (option string) :=
  if negb (String.eqb (resOutput res) "") then Ok (Some (resOutput res))
  else if negb (String.eqb (Output inv) "") then wrapErr ("read output " +:+ Output inv) (readFile (Output inv))
  else Ok None.

(** The blobs of an entry, in the order they are written. *)
Definition entryBlobs (output : option string) (inv : Invocation) (res : InvocationResult)
    : list (string * string) :=
  match output with Some o => [(blobOutput, o)] | None => [] end
  ++ [(blobStdout, resStdout res); (blobStderr, resStderr res);
      (blobExitCode, itoa (resExitCode res)); (blobMetadata, metadataJSON inv res)]
  ++ (if bool_decide (resExtras res = ∅) then [] else [(blobExtras, encodeExtras (resExtras res))]).

(** The [Put]s of one store, up to the first error. *)
Fixpoint putBlobs (s : S) (ns : list string) (key : string) (blobs : list (string * string)) (now : Z)
    : result unit * S :=
  match blobs with
  | [] => (Ok tt, s)
  | (n, v) :: rest =>
      let '(r, s') := sPut s ns key n v now in
      match r with
      | Err e => (Err e, s')
      | Ok _ => putBlobs s' ns key rest now
      end
  end.

Fixpoint storeAll (stores : list S) (ns : list string) (key : string)
    (blobs : list (string * string)) (now : Z) : result unit * list S :=
  match stores with
  | [] => (Ok tt, [])
  | s :: rest =>
      let '(r, s') := putBlobs s ns key blobs now in
      match r with
      | Err e => (Err e, s' :: rest)
      | Ok _ => let '(r', rest') := storeAll rest ns key blobs now in (r', s' :: rest')
      end
  end.

(** [Store(inv, res, tenantID)], [res] not nil. *)
Definition Store (stores : list S) (inv : Invocation) (res : InvocationResult) (tenantID : string)
    (now : Z) : option (result unit * list S) :=
  if bool_decide (length stores = 0) then Some (Ok tt, stores)
  else if negb (resExitCode res =? 0)%Z then Some (Ok tt, stores)
  else if String.eqb tenantID "" then Some (Err "CompileCache.Store: tenantID is required", stores)
  else match wrapErr "cache key" (cacheKey inv) with
  | Err e => Some (Err e, stores)
  | Ok key =>
      match storeOutput inv res with
      | Err e => Some (Err e, stores)
      | Ok output =>
          if is_ok (validateNamespace tenantID)
          then Some (storeAll stores (tenantNs tenantID) key (entryBlobs output inv res) now)
          else None
      end
  end.
End Facade.

(** ** The codec: facts *)

Lemma slice_mid pre x post :
  slice (pre +:+ x +:+ post) (slen pre) (slen pre + slen x) = Some x.
Proof.
  unfold slice. rewrite !slen_app.
  rewrite (proj2 (Nat.leb_le _ _)), (proj2 (Nat.leb_le (slen pre + slen x) _)) by lia. cbn [andb].
  rewrite sdrop_app. replace (slen pre + slen x - slen pre) with (slen x) by lia.
  by rewrite stake_app.
Qed.

(** Lengths fit their fields. *)
Definition entryFits (p v : string) : Prop :=
  (Z.of_nat (slen p) < 2 ^ 32)%Z /\ (Z.of_nat (slen v) < 2 ^ 64)%Z.

Lemma be4 n : (Z.of_nat n < 2 ^ 32)%Z -> be_value (be_bytes 4 (Z.of_nat n)) = Z.of_nat n.
Proof. intros H. apply be_value_bytes_small. lia. Qed.
Lemma be8 n : (Z.of_nat n < 2 ^ 64)%Z -> be_value (be_bytes 8 (Z.of_nat n)) = Z.of_nat n.
Proof. intros H. apply be_value_bytes_small. lia. Qed.

Lemma decode_entry fuel count pre p v post out :
  entryFits p v -> (0 < count)%Z ->
  decodeLoop (Datatypes.S fuel) count (pre +:+ encodeEntry p v +:+ post) (slen pre) out
  = decodeLoop fuel (count - 1)%Z (pre +:+ encodeEntry p v +:+ post) (slen (pre +:+ encodeEntry p v))
      (<[p := v]> out).
Proof.
  intros [Hp Hv] Hc. cbn [decodeLoop].
  rewrite (proj2 (Z.leb_gt count 0)) by lia.
  set (data := pre +:+ encodeEntry p v +:+ post).
  assert (slen data = slen pre + 4 + slen p + 8 + slen v + slen post) as Hlen.
  { unfold data, encodeEntry. rewrite !slen_app, !slen_be_bytes. lia. }
  set (h4 := be_bytes 4 (Z.of_nat (slen p))). set (h8 := be_bytes 8 (Z.of_nat (slen v))).
  assert (slen h4 = 4) as L4 by apply slen_be_bytes.
  assert (slen h8 = 8) as L8 by apply slen_be_bytes.
  rewrite (proj2 (Nat.ltb_ge _ _)) by lia.
  assert (slice data (slen pre) (slen pre + 4) = Some h4) as ->.
  { rewrite <- L4. unfold data, encodeEntry. rewrite !sapp_assoc. apply slice_mid. }
  assert (be_value h4 = Z.of_nat (slen p)) as -> by (by apply be4). cbn zeta.
  rewrite Nat2Z.id. rewrite (proj2 (Z.ltb_ge _ _)) by lia.
  assert (slice data (slen pre + 4) (slen pre + 4 + slen p) = Some p) as ->.
  { replace (slen pre + 4) with (slen (pre +:+ h4)) by (rewrite slen_app; lia).
    unfold data, encodeEntry. rewrite !sapp_assoc, <- (sapp_assoc pre). apply slice_mid. }
  assert (slice data (slen pre + 4 + slen p) (slen pre + 4 + slen p + 8) = Some h8) as ->.
  { rewrite <- L8 at 1. replace (slen pre + 4 + slen p) with (slen (pre +:+ h4 +:+ p))
      by (rewrite !slen_app; lia).
    replace data with ((pre +:+ h4 +:+ p) +:+ h8 +:+ v +:+ post)
      by (unfold data, encodeEntry; by rewrite !sapp_assoc).
    apply slice_mid. }
  assert (be_value h8 = Z.of_nat (slen v)) as -> by (by apply be8). rewrite Nat2Z.id.
  rewrite (proj2 (Z.ltb_ge _ _)) by lia.
  assert (slice data (slen pre + 4 + slen p + 8) (slen pre + 4 + slen p + 8 + slen v) = Some v) as ->.
  { replace (slen pre + 4 + slen p + 8) with (slen (pre +:+ h4 +:+ p +:+ h8))
      by (rewrite !slen_app; lia).
    replace data with ((pre +:+ h4 +:+ p +:+ h8) +:+ v +:+ post)
      by (unfold data, encodeEntry; by rewrite !sapp_assoc).
    apply slice_mid. }
  f_equal. unfold encodeEntry. rewrite !slen_app, !slen_be_bytes. lia.
Qed.

Lemma decode_entries m ps fuel pre out :
  Forall (fun p => entryFits p (default "" (m !! p))) ps -> length ps <= fuel ->
  decodeLoop fuel (Z.of_nat (length ps)) (pre +:+ encodeEntries m ps) (slen pre) out
  = Decoded (foldl (fun o p => <[p := default "" (m !! p)]> o) out ps).
Proof.
  intros H. revert fuel pre out. induction H as [|p ps Hp _ IH]; intros fuel pre out Hf.
  - by destruct fuel.
  - destruct fuel as [|fuel]; [cbn in Hf; lia|]. cbn [encodeEntries length].
    rewrite decode_entry by (done || lia).
    replace (Z.of_nat (Datatypes.S (length ps)) - 1)%Z with (Z.of_nat (length ps)) by lia.
    rewrite <- sapp_assoc. rewrite IH; [done|]. cbn in Hf. lia.
Qed.

Lemma insert_keys (m out : gmap string string) ps :
  (forall p, p ∈ ps -> is_Some (m !! p)) ->
  foldl (fun o p => <[p := default "" (m !! p)]> o) out ps
  = filter (fun kv => kv.1 ∈ ps) m ∪ out.
Proof.
  intros H. apply map_eq. intros k. revert out H.
  induction ps as [|p ps IH]; intros out H; cbn [foldl].
  - rewrite lookup_union. assert (filter (fun kv => kv.1 ∈ []) m !! k = None) as ->.
    { apply map_lookup_filter_None. right. set_solver. }
    by rewrite (left_id_L None _).
  - rewrite IH by set_solver. rewrite !lookup_union.
    destruct (decide (k ∈ ps)) as [Hk|Hk].
    + destruct (H k ltac:(set_solver)) as [v Hv].
      rewrite !(map_lookup_filter_Some_2 _ m k v) by (done || set_solver).
      destruct (<[_:=_]> out !! k), (out !! k); done.
    + assert (filter (fun kv => kv.1 ∈ ps) m !! k = None) as ->.
      { apply map_lookup_filter_None. right. set_solver. }
      rewrite (left_id_L None _). destruct (decide (k = p)) as [->|Hne].
      * rewrite lookup_insert_eq. destruct (H p ltac:(set_solver)) as [v Hv]. rewrite Hv.
        rewrite (map_lookup_filter_Some_2 _ m p v) by (done || set_solver).
        by destruct (out !! p).
      * rewrite lookup_insert_ne by done.
        assert (filter (fun kv => kv.1 ∈ p :: ps) m !! k = None) as ->.
        { apply map_lookup_filter_None. right. set_solver. }
        by rewrite (left_id_L None _).
Qed.

Lemma be_value_from_nonneg acc s : (0 <= acc)%Z -> (0 <= be_value_from acc s)%Z.
Proof.
  revert acc. induction s as [|c s IH]; intros acc H; cbn; [done|]. apply IH.
  apply Z.lor_nonneg. split; [by apply Z.shiftl_nonneg|]. apply Z_of_byte_bound.
Qed.

Lemma slice_Some data a b : a <= b -> b <= slen data -> slice data a b <> None.
Proof.
  intros H1 H2. unfold slice.
  by rewrite (proj2 (Nat.leb_le _ _) H1), (proj2 (Nat.leb_le _ _) H2).
Qed.

(** Every slice of the loop is in range and the fuel outlasts the bytes. *)
Lemma decodeLoop_safe fuel count data off out :
  off <= slen data -> slen data - off < fuel ->
  decodeLoop fuel count data off out <> Panic /\ decodeLoop fuel count data off out <> OutOfFuel.
Proof.
  revert count off out. induction fuel as [|fuel IH]; intros count off out Ho Hf; [lia|].
  cbn [decodeLoop]. destruct (count <=? 0)%Z; [done|].
  destruct (Nat.ltb_spec (slen data - off) 4); [done|].
  destruct (slice data off (off + 4)) as [h4|] eqn:E4; [|by apply slice_Some in E4; lia].
  assert (0 <= be_value h4)%Z as Hpl by (by apply be_value_from_nonneg). cbn zeta.
  destruct (Z.ltb_spec (Z.of_nat (slen data - (off + 4))) (be_value h4 + 8)); [done|].
  destruct (slice data (off + 4) _) as [p|] eqn:Ep; [|by apply slice_Some in Ep; lia].
  destruct (slice data (off + 4 + _) _) as [h8|] eqn:E8; [|by apply slice_Some in E8; lia].
  assert (0 <= be_value h8)%Z as Hvl by (by apply be_value_from_nonneg).
  destruct (Z.ltb_spec (Z.of_nat (slen data - (off + 4 + Z.to_nat (be_value h4) + 8))) (be_value h8)); [done|].
  destruct (slice data (off + 4 + Z.to_nat (be_value h4) + 8) _) as [v|] eqn:Ev;
    [|by apply slice_Some in Ev; lia].
  apply IH; lia.
Qed.

Lemma decodeExtras_safe data : decodeExtras data <> Panic /\ decodeExtras data <> OutOfFuel.
Proof.
  unfold decodeExtras. destruct (Nat.ltb_spec (slen data) 4); [done|].
  destruct (slice data 0 4) eqn:E; [|by apply slice_Some in E; lia].
  apply decodeLoop_safe; lia.
Qed.

(** Extras whose lengths and number fit the format's fields. *)
Definition extrasFit (m : gmap string string) : Prop :=
  (Z.of_nat (size m) < 2 ^ 32)%Z /\ map_Forall (fun p v => entryFits p v) m.

Lemma extras_keys (m : gmap string string) p : p ∈ sortStrings (map fst (map_to_list m)) <-> is_Some (m !! p).
Proof.
  rewrite sortStrings_Permutation, list_elem_of_fmap. split.
  - intros ([k v] & -> & H%elem_of_map_to_list). eauto.
  - intros [v H]. exists (p, v). by rewrite elem_of_map_to_list.
Qed.

Lemma length_extras_keys (m : gmap string string) : length (sortStrings (map fst (map_to_list m))) = size m.
Proof. rewrite sortStrings_Permutation, length_map. apply length_map_to_list. Qed.

Lemma slen_encodeEntries m ps : length ps <= slen (encodeEntries m ps).
Proof.
  induction ps as [|p ps IH]; cbn [encodeEntries length]; [lia|].
  unfold encodeEntry. rewrite !slen_app, !slen_be_bytes. lia.
Qed.

Lemma extras_roundtrip m : extrasFit m -> decodeExtras (encodeExtras m) = Decoded m.
Proof.
  intros [Hn Hf]. unfold decodeExtras, encodeExtras. rewrite length_extras_keys.
  set (ps := sortStrings (map fst (map_to_list m))).
  set (h := be_bytes 4 (Z.of_nat (size m))). assert (slen h = 4) as Lh by apply slen_be_bytes.
  rewrite slen_app, Lh. rewrite (proj2 (Nat.ltb_ge _ _)) by lia.
  assert (slice (h +:+ encodeEntries m ps) 0 4 = Some h) as ->.
  { rewrite <- Lh. apply (slice_mid "" h). }
  assert (be_value h = Z.of_nat (size m)) as -> by (by apply be4).
  rewrite <- length_extras_keys. fold ps. rewrite <- Lh at 2.
  rewrite decode_entries.
  - rewrite insert_keys by (intros p Hp; by apply extras_keys). f_equal.
    rewrite (right_id_L ∅ (∪)). apply map_filter_id. intros k v Hk. cbn. apply extras_keys. eauto.
  - apply Forall_forall. intros p [v Hv]%extras_keys. rewrite Hv. by apply Hf.
  - assert (Hl := slen_encodeEntries m ps). lia.
Qed.

(** ** The facade: facts *)

Section FacadeFacts.
  Context {S : Type} `{!StoreOps S, !StoreLaws S}.

(** A name none of whose blobs is another's temporary file. *)
Definition cacheNames : list string :=
  [blobOutput; blobStdout; blobStderr; blobExitCode; blobMetadata; blobExtras].

Lemma apart_names ns k n n' :
  k <> "" -> In n cacheNames -> In n' cacheNames -> n <> n' -> apart ns k n ns k n'.
Proof.
  intros Hk Hn Hn' Hne. unfold apart. split_and!; try done; [congruence|].
  assert (forallb (fun a => forallb (fun b => negb (String.eqb (a +:+ ".tmp") b)) cacheNames) cacheNames
    = true) as H by (vm_compute; reflexivity).
  rewrite forallb_forall in H. specialize (H _ Hn). rewrite forallb_forall in H. specialize (H _ Hn').
  apply negb_true_iff, String.eqb_neq in H. congruence.
Qed.

Lemma apart_ns ns ns' k k' n n' :
  length ns = length ns' -> k <> "" -> k' <> "" -> ns <> ns' -> apart ns k n ns' k' n'.
Proof. intros. unfold apart. split_and!; try done; congruence. Qed.

(** What a sequence of [Put]s leaves in the store: each name written holds
    its value; a prefix of the sequence is written when it fails. *)
Lemma putBlobs_get blobs : forall (s : S) ns k now r s',
  k <> "" -> NoDup (map fst blobs) -> Forall (fun nv => In nv.1 cacheNames) blobs ->
  putBlobs s ns k blobs now = (r, s') ->
  (r = Ok tt -> forall n v, (n, v) ∈ blobs -> sGet s' ns k n = Ok (Some v)) /\
  (forall n, In n cacheNames -> n ∉ map fst blobs -> sGet s' ns k n = sGet s ns k n) /\
  (r = Ok tt -> blobs <> [] \/ sHas s ns k = Ok true -> sHas s' ns k = Ok true).
Proof.
  induction blobs as [|[n v] blobs IH]; intros s ns k now r s' Hk Hnd Hall H; cbn [putBlobs] in H.
  { simplify_eq. split_and!; [set_solver|done|]. intros _ [?|?]; done. }
  cbn [map fst] in Hnd. apply NoDup_cons in Hnd as [Hn Hnd].
  apply Forall_cons in Hall as [Hname Hall]. cbn [fst] in Hname.
  destruct (sPut s ns k n v now) as [r1 s1] eqn:Ep.
  assert (forall n', In n' cacheNames -> n <> n' -> sGet s1 ns k n' = sGet s ns k n') as Hother.
  { intros n' Hn' Hne. eapply get_put_apart; [exact Ep|]. by apply apart_names. }
  destruct r1 as [[]|e].
  - destruct (IH s1 ns k now r s' Hk Hnd Hall H) as (H1 & H2 & H3). split_and!.
    + intros Hr n' v' [E|Hin]%elem_of_cons; [|by apply H1]. simplify_eq.
      rewrite H2 by done. by eapply get_put_same.
    + intros n' Hn' Hnin. cbn [map fst] in Hnin. rewrite H2, Hother; set_solver.
    + intros Hr _. apply H3; [done|]. right. by eapply has_put.
  - simplify_eq. split_and!; [done| |done]. intros n' Hn' Hnin. apply Hother; set_solver.
Qed.

(** [Put]s in one namespace do not show in another of the same depth. *)
Lemma putBlobs_other blobs : forall (s : S) ns ns' k k' now r s' n',
  length ns = length ns' -> k <> "" -> k' <> "" -> ns <> ns' ->
  putBlobs s ns k blobs now = (r, s') ->
  sGet s' ns' k' n' = sGet s ns' k' n' /\ sHas s' ns' k' = sHas s ns' k'.
Proof.
  induction blobs as [|[n v] blobs IH]; intros s ns ns' k k' now r s' n' Hl Hk Hk' Hne H;
    cbn [putBlobs] in H; [by simplify_eq|].
  destruct (sPut s ns k n v now) as [r1 s1] eqn:Ep.
  assert (sGet s1 ns' k' n' = sGet s ns' k' n') as G
    by (eapply get_put_apart; [exact Ep|by apply apart_ns]).
  assert (sHas s1 ns' k' = sHas s ns' k') as Hs
    by (eapply has_put_apart; [exact Ep|done..|congruence]).
  destruct r1 as [[]|e]; [|by simplify_eq].
  destruct (IH s1 ns ns' k k' now r s' n' Hl Hk Hk' Hne H) as [-> ->]. done.
Qed.

Lemma loadEntry_ext (s s' : S) ns k out :
  (forall n, In n cacheNames -> sGet s' ns k n = sGet s ns k n) ->
  loadEntry s' ns k out = loadEntry s ns k out.
Proof.
  intros H. unfold loadEntry. rewrite !H by in_list. done.
Qed.

Lemma entryBlobs_names {meta} out inv res :
  NoDup (map fst (entryBlobs meta out inv res)) /\
  Forall (fun nv => In nv.1 cacheNames) (entryBlobs meta out inv res).
Proof.
  assert (NoDup cacheNames) as Hn by decided.
  assert (forall (x : string) l, NoDup (x :: l) -> NoDup l) as Htl by (intros x l H; by apply NoDup_cons in H as [_ H]).
  assert (Forall (fun nv => In nv.1 cacheNames) (entryBlobs meta out inv res)) as Hall.
  { unfold entryBlobs. destruct out; case_bool_decide; cbn [app];
      repeat (constructor; [cbn [fst]; in_list|]); constructor. }
  split; [|done]. unfold entryBlobs, cacheNames in *.
  destruct out; case_bool_decide; cbn [app map fst]; [|exact Hn| |by eapply Htl].
  - by apply (NoDup_app [_; _; _; _; _] [_]) in Hn as [Hn _].
  - by apply Htl, (NoDup_app [_; _; _; _] [_]) in Hn as [Hn _].
Qed.
Lemma storeAll_cons (s : S) rest ns k blobs now r stores' :
  storeAll (s :: rest) ns k blobs now = (r, stores') ->
  exists r1 s1 rest', putBlobs s ns k blobs now = (r1, s1) /\ stores' = s1 :: rest' /\
    (r = Ok tt -> r1 = Ok tt).
Proof.
  cbn [storeAll]. destruct (putBlobs s ns k blobs now) as [[[]|e] s1]; intros H.
  - destruct (storeAll rest ns k blobs now) as [r' rest'] eqn:E. simplify_eq.
    by exists (Ok tt), s1, rest'.
  - simplify_eq. exists (Err e), s1, rest. done.
Qed.

(** Two stores with the same contents in a namespace, as far as the
    interface shows them. *)
Definition agree (ns : list string) (s s' : S) : Prop :=
  forall k n, k <> "" -> sGet s' ns k n = sGet s ns k n /\ sHas s' ns k = sHas s ns k.

#[global] Instance agree_equiv ns : Equivalence (agree ns).
Proof.
  split; [done|intros s s' H k n Hk; by destruct (H k n Hk) as [-> ->]|].
  intros s1 s2 s3 H1 H2 k n Hk. destruct (H1 k n Hk) as [<- <-]. by apply H2.
Qed.

(** The same for lists of stores. *)
Abbreviation agreeOn ns := (Forall2 (agree ns)).

Lemma storeAll_agree stores : forall ns ns' k blobs now r stores',
  length ns = length ns' -> k <> "" -> ns <> ns' ->
  storeAll stores ns k blobs now = (r, stores') -> agreeOn ns' stores stores'.
Proof.
  induction stores as [|s rest IH]; intros ns ns' k blobs now r stores' Hl Hk Hne H;
    cbn [storeAll] in H; [simplify_eq; constructor|].
  destruct (putBlobs s ns k blobs now) as [r1 s1] eqn:E.
  assert (agree ns' s s1) as Ho
    by (intros k' n Hk'; exact (putBlobs_other blobs s ns ns' k k' now r1 s1 n Hl Hk Hk' Hne E)).
  destruct r1 as [[]|e]; [|simplify_eq; by constructor].
  destruct (storeAll rest ns k blobs now) as [r' rest'] eqn:Er. simplify_eq. constructor; [done|]. by eapply IH.
Qed.

#[global] Instance lookupIn_proper ns k out :
  k <> "" -> Proper (agreeOn ns ==> eq) (fun ss => lookupIn ss ns k out).
Proof.
  intros Hk ss ss' H. induction H as [|s s' ss ss' Hs Hss IH]; [done|]. cbn [lookupIn].
  rewrite (proj2 (Hs k "" Hk)), IH.
  by rewrite (loadEntry_ext s s' ns k out) by (intros n _; apply Hs, Hk).
Qed.

(** [Lookup] only sees the tenant's own namespace. *)
Lemma Lookup_agree cacheKey ss ss' inv t :
  (forall i k, cacheKey i = Ok k -> k <> "") -> agreeOn (tenantNs t) ss ss' ->
  Lookup cacheKey ss' inv t = Lookup cacheKey ss inv t.
Proof.
  intros Hk H. unfold Lookup. rewrite (Forall2_length _ _ _ H). case_bool_decide; [done|].
  destruct (String.eqb t ""); [done|]. destruct (cacheKey inv) as [k|e] eqn:Ek; cbn [wrapErr]; [|done].
  destruct (is_ok _); [|done]. f_equal. symmetry. by apply (lookupIn_proper _ k _ (Hk _ _ Ek)).
Qed.

(** [Store] leaves every other namespace of the same depth alone. *)
Lemma Store_agree cacheKey readFile meta ss inv res t now r ss' ns :
  (forall i k, cacheKey i = Ok k -> k <> "") -> length ns = 2 -> ns <> tenantNs t ->
  Store cacheKey readFile meta ss inv res t now = Some (r, ss') -> agreeOn ns ss ss'.
Proof.
  intros Hk Hl Hne H.
  assert (agreeOn ns ss ss) as Hrefl by (apply Forall2_same_length_lookup; naive_solver).
  unfold Store in H. repeat (case_match; [by simplify_eq|]).
  destruct (cacheKey inv) as [k|e] eqn:Ek; cbn [wrapErr] in H; [|by simplify_eq].
  destruct (storeOutput readFile inv res); [|by simplify_eq]. destruct (is_ok _); [|done].
  apply (inj Some) in H. eapply storeAll_agree; [|by eapply Hk| |exact H]; done.
Qed.

(** The extras a [Lookup] reads out of an entry. *)
Definition extrasOf (s : S) (ns : list string) (k : string) : gmap string string :=
  match sGet s ns k blobExtras with
  | Ok (Some raw) => match decodeExtras raw with Decoded m => m | _ => ∅ end
  | _ => ∅
  end.

(** A store that holds the four blobs replays the entry. *)
Lemma loadEntry_complete (s : S) ns k out o so se c :
  sGet s ns k blobExitCode = Ok (Some (itoa 0)) -> c = 0%Z ->
  sGet s ns k blobStdout = Ok (Some so) -> sGet s ns k blobStderr = Ok (Some se) ->
  sGet s ns k blobOutput = Ok (Some o) ->
  loadEntry s ns k out
  = Ok (Some (mkInvocationResult (if String.eqb out "" then "" else o) so se c 0 (extrasOf s ns k))).
Proof.
  intros Hc -> Hso Hse Ho. unfold loadEntry. rewrite Hc. cbn [wrapErr rbind].
  assert (atoi (itoa 0) = Some 0%Z) as -> by (vm_compute; reflexivity).
  rewrite Hso, Hse. cbn [wrapErr rbind].
  destruct (String.eqb out ""); [done|]. rewrite Ho. done.
Qed.
(** The blobs of an entry with an output, for a compile that succeeded. *)
Lemma entryBlobs_mem meta o inv res n v :
  (n, v) ∈ entryBlobs meta (Some o) inv res <->
  (n, v) ∈ [(blobOutput, o); (blobStdout, resStdout res); (blobStderr, resStderr res);
            (blobExitCode, itoa (resExitCode res)); (blobMetadata, meta inv res)] \/
  resExtras res <> ∅ /\ n = blobExtras /\ v = encodeExtras (resExtras res).
Proof.
  unfold entryBlobs. rewrite !elem_of_app. case_bool_decide; rewrite ?list_elem_of_singleton.
  - set_solver.
  - split; [|intros [H'|(_ & -> & ->)]; [|by do 2 right]].
    + intros [H'|[H'|H']]; [left; set_solver|left; set_solver|]. simplify_eq. by right.
    + rewrite !elem_of_cons in *. set_solver.
Qed.

Lemma putBlobs_entry meta o inv res (s s' : S) ns k now :
  k <> "" -> resExitCode res = 0%Z ->
  putBlobs s ns k (entryBlobs meta (Some o) inv res) now = (Ok tt, s') ->
  extrasFit (resExtras res) -> (resExtras res = ∅ -> extrasOf s ns k = ∅) ->
  sHas s' ns k = Ok true /\
  forall out, loadEntry s' ns k out
    = Ok (Some (mkInvocationResult (if String.eqb out "" then "" else o)
        (resStdout res) (resStderr res) 0 0 (resExtras res))).
Proof.
  intros Hk Hc Hp Hfit Hstale.
  destruct (entryBlobs_names (meta := meta) (Some o) inv res) as [Hnd Hall].
  destruct (putBlobs_get _ _ _ _ _ _ _ Hk Hnd Hall Hp) as (Hget & Hold & Hhas).
  specialize (Hget eq_refl). split; [by apply Hhas; [done|left]|]. intros out.
  assert (forall n v, (n, v) ∈ [(blobOutput, o); (blobStdout, resStdout res);
    (blobStderr, resStderr res); (blobExitCode, itoa (resExitCode res)); (blobMetadata, meta inv res)] ->
    sGet s' ns k n = Ok (Some v)) as Hmain by (intros; apply Hget, entryBlobs_mem; by left).
  rewrite Hc in Hmain.
  rewrite (loadEntry_complete s' ns k out o (resStdout res) (resStderr res) 0);
    try done; try (apply Hmain; set_solver).
  do 3 f_equal. unfold extrasOf. destruct (decide (resExtras res = ∅)) as [He|He].
  - rewrite Hold; [by rewrite He; apply Hstale|in_list|].
    intros Hin. apply list_elem_of_fmap in Hin as ([n v] & Hn & Hin). cbn [fst] in Hn.
    apply entryBlobs_mem in Hin as [Hin|[? _]]; [|done]. rewrite !elem_of_cons in Hin.
    destruct_or!; simplify_eq; by apply not_elem_of_nil in Hin.
  - rewrite (Hget blobExtras (encodeExtras (resExtras res))) by (apply entryBlobs_mem; by right).
    by rewrite extras_roundtrip.
Qed.
(** A [Store] cut short after [i] of its [Put]s. *)
Lemma putBlobs_prefix meta o inv res (s s' : S) ns k now i out :
  k <> "" -> resExitCode res = 0%Z -> extrasFit (resExtras res) ->
  (forall n, In n cacheNames -> sGet s ns k n = Ok None) ->
  putBlobs s ns k (take i (entryBlobs meta (Some o) inv res)) now = (Ok tt, s') ->
  loadEntry s' ns k out = Ok None \/
  exists ex, (ex = resExtras res \/ ex = ∅) /\
    loadEntry s' ns k out
    = Ok (Some (mkInvocationResult (if String.eqb out "" then "" else o)
        (resStdout res) (resStderr res) 0 0 ex)).
Proof.
  intros Hk Hc Hfit Hempty Hp. set (blobs := entryBlobs meta (Some o) inv res) in *.
  destruct (entryBlobs_names (meta := meta) (Some o) inv res) as [Hnd Hall]. fold blobs in Hnd, Hall.
  assert (NoDup (map fst (take i blobs))) as Hnd' by
    (rewrite <- firstn_map; rewrite <- (take_drop i (map fst blobs)) in Hnd;
     by apply NoDup_app in Hnd as [? _]).
  destruct (putBlobs_get _ _ _ _ _ _ _ Hk Hnd' (Forall_take _ i _ Hall) Hp) as (Hget & Hold & _).
  specialize (Hget eq_refl). destruct (decide (i <= 3)) as [Hi|Hi].
  - left. assert (blobExitCode ∉ map fst (take i blobs)) as Hnin.
    { rewrite <- firstn_map. unfold blobs, entryBlobs. cbn [app map fst].
      destruct i as [|[|[|[|i]]]]; try lia; cbn [take]; set_solver. }
    unfold loadEntry. rewrite Hold; [|in_list|done]. rewrite Hempty by in_list. done.
  - right. assert (exists rest, take i blobs = [(blobOutput, o); (blobStdout, resStdout res);
      (blobStderr, resStderr res); (blobExitCode, itoa (resExitCode res))] ++ rest) as [rest Ht].
    { destruct i as [|[|[|[|i]]]]; try lia. unfold blobs, entryBlobs. cbn [app take]. by eexists. }
    assert (forall n v, (n, v) ∈ [(blobOutput, o); (blobStdout, resStdout res);
      (blobStderr, resStderr res); (blobExitCode, itoa (resExitCode res))] ->
      sGet s' ns k n = Ok (Some v)) as Hmain by (intros; apply Hget; rewrite Ht, elem_of_app; by left).
    rewrite Hc in Hmain. exists (extrasOf s' ns k). split.
    + unfold extrasOf. destruct (decide (blobExtras ∈ map fst (take i blobs))) as [Hin|Hin].
      * apply list_elem_of_fmap in Hin as ([n v] & Hn & Hin). cbn [fst] in Hn.
        assert (sGet s' ns k n = Ok (Some v)) as Hg by by apply Hget.
        assert ((n, v) ∈ blobs) as Hin'
          by (rewrite <- (take_drop i blobs), elem_of_app; by left).
        apply entryBlobs_mem in Hin' as [Hin'|(_ & _ & ->)].
        { rewrite !elem_of_cons in Hin'. destruct_or!; simplify_eq. by apply not_elem_of_nil in Hin'. }
        left. by rewrite Hn, Hg, extras_roundtrip.
      * right. rewrite Hold; [|in_list|done]. by rewrite Hempty by in_list.
    + apply loadEntry_complete; try done; apply Hmain; set_solver.
Qed.
End FacadeFacts.

(** ** Claims *)

(** The extras codec is total and lossless.  On every byte string
    [decodeExtras] returns a map or an unexpected-EOF error: no slice
    expression is out of range and no input, whatever its count field, makes
    it loop.  It inverts [encodeExtras] on every map whose lengths fit the
    32- and 64-bit fields. *)
Theorem extras_codec m data :
  (decodeExtras data = UnexpectedEOF \/ exists m', decodeExtras data = Decoded m') /\
  (extrasFit m -> decodeExtras (encodeExtras m) = Decoded m).
Proof.
  split; [|apply extras_roundtrip].
  destruct (decodeExtras_safe data) as [H1 H2]. destruct (decodeExtras data); try done; eauto.
Qed.

Definition sampleExtras : gmap string string := {[ "a.d" := "a.o: a.c"; "a.dwo" := "" ]}.

Lemma sampleExtras_fit : extrasFit sampleExtras.
Proof.
  split; [vm_compute; reflexivity|]. apply map_Forall_insert_2; [vm_compute; done|].
  apply map_Forall_singleton. vm_compute; done.
Qed.

Lemma extras_codec_witness :
  decodeExtras (encodeExtras sampleExtras) = Decoded sampleExtras.
Proof. apply (extras_codec sampleExtras ""), sampleExtras_fit. Defined.

(** Writing the entry of this result into these stores, as they are, succeeds. *)
Definition entryWrites {S} `{!StoreOps S} meta (ss : list S) (inv : Invocation) (res : InvocationResult) (t key : string) (now : Z) : Prop :=
  (storeAll ss (tenantNs t) key (entryBlobs meta (Some (resOutput res)) inv res) now).1 = Ok tt.

(** A successful compile with an output is stored when its writes succeed. *)
Lemma Store_ok {S} `{!StoreOps S} cacheKey readFile meta (ss : list S) inv res t now r ss' key :
  entryWrites meta ss inv res t key now -> t <> "" -> cacheKey inv = Ok key -> resOutput res <> "" ->
  Store cacheKey readFile meta ss inv res t now = Some (r, ss') -> r = Ok tt.
Proof.
  intros Hp Ht Hk Ho H. unfold Store in H. do 2 (case_match; [by simplify_eq|]).
  rewrite (proj2 (String.eqb_neq _ _) Ht), Hk in H. cbn [wrapErr] in H. unfold storeOutput in H.
  rewrite (proj2 (String.eqb_neq _ _) Ho) in H. cbn [negb] in H. destruct (is_ok _); [|done].
  apply (inj Some) in H. unfold entryWrites in Hp. by rewrite H in Hp.
Qed.

(** A lookup depends on the key of its own invocation only. *)
Lemma Lookup_key {S} `{!StoreOps S} key key' (ss : list S) inv t :
  key inv = key' inv -> Lookup key ss inv t = Lookup key' ss inv t.
Proof. intros E. unfold Lookup. by rewrite E. Qed.

(** The replay of a stored compile. *)
Lemma Store_replays {S} `{!StoreOps S, !StoreLaws S} cacheKey readFile meta
    (s : S) rest inv res tenant now stores' key :
  cacheKey inv = Ok key -> key <> "" ->
  resExitCode res = 0%Z -> resOutput res <> "" -> extrasFit (resExtras res) ->
  (resExtras res = ∅ -> extrasOf s (tenantNs tenant) key = ∅) ->
  Store cacheKey readFile meta (s :: rest) inv res tenant now = Some (Ok tt, stores') ->
  Lookup cacheKey stores' inv tenant
  = Some (Ok (Some (mkInvocationResult (if String.eqb (Output inv) "" then "" else resOutput res)
      (resStdout res) (resStderr res) 0 0 (resExtras res)))).
Proof.
  intros Hkey Hk Hc Hout Hfit Hstale. unfold Store.
  rewrite bool_decide_eq_false_2 by done. rewrite Hc. cbn [Z.eqb negb].
  destruct (String.eqb tenant "") eqn:Et; [done|]. rewrite Hkey. cbn [wrapErr].
  unfold storeOutput. rewrite (proj2 (String.eqb_neq _ _) Hout). cbn [negb].
  destruct (is_ok (validateNamespace tenant)) eqn:Ens; [|done]. intros Hs. apply (inj Some) in Hs.
  apply storeAll_cons in Hs as (r1 & s1 & rest' & Hp & -> & Hr1). rewrite Hr1 in Hp by done.
  destruct (putBlobs_entry _ _ _ _ _ _ _ _ _ Hk Hc Hp Hfit Hstale) as [Hhas Hload].
  unfold Lookup. rewrite bool_decide_eq_false_2 by done. rewrite Et, Hkey. cbn [wrapErr].
  rewrite Ens. cbn [lookupIn]. by rewrite Hhas, Hload.
Qed.

(** C14: A stored compile is replayed.  If [Store] of a successful compile
    with output bytes succeeds, the next [Lookup] of the same invocation by
    the same tenant is a hit with the same output, stdout, stderr and extra
    outputs, exit code 0 and no duration, for every store that meets the
    store laws, whatever other stores follow it.  Where the compile has no
    extras the entry must not hold extras of an earlier store. *)
Theorem Store_then_Lookup {S} `{!StoreOps S, !StoreLaws S} cacheKey readFile meta
    (s : S) rest inv res tenant now stores' key :
  cacheKey inv = Ok key -> key <> "" ->
  resExitCode res = 0%Z -> resOutput res <> "" -> extrasFit (resExtras res) ->
  (resExtras res = ∅ -> extrasOf s (tenantNs tenant) key = ∅) ->
  Store cacheKey readFile meta (s :: rest) inv res tenant now = Some (Ok tt, stores') ->
  Lookup cacheKey stores' inv tenant
  = Some (Ok (Some (mkInvocationResult (if String.eqb (Output inv) "" then "" else resOutput res)
      (resStdout res) (resStderr res) 0 0 (resExtras res)))).
Proof. apply Store_replays. Qed.

(** The disk store under /c, and a compile with its dependency file. *)
Definition sampleInv : Invocation := set_Output "/w/a.o" NewInvocation.
Definition sampleRes : InvocationResult :=
  mkInvocationResult "obj" "" "note" 0 7 sampleExtras.
Definition sampleKey (inv : Invocation) : result string := Ok "K".
Definition noFile (p : string) : result (option string) := Ok None.
Definition noMeta (inv : Invocation) (res : InvocationResult) : string := "{}".

Definition storedAt (t : string) (res : InvocationResult) (fs : FS) : list FS :=
  match @Store FS (disk_ops ["c"]) sampleKey noFile noMeta [fs] sampleInv res t 5 with
  | Some (_, st) => st
  | None => []
  end.

Lemma sample_stored :
  @Store FS (disk_ops ["c"]) sampleKey noFile noMeta [emptyFS] sampleInv sampleRes "acme" 5
  = Some (Ok tt, storedAt "acme" sampleRes emptyFS).
Proof. vm_compute. reflexivity. Qed.

Lemma Store_then_Lookup_witness :
  @Lookup FS (disk_ops ["c"]) sampleKey (storedAt "acme" sampleRes emptyFS) sampleInv "acme"
  = Some (Ok (Some (mkInvocationResult "obj" "" "note" 0 0 sampleExtras))).
Proof.
  refine (@Store_then_Lookup FS (disk_ops ["c"]) (disk_laws ["c"]) sampleKey noFile noMeta emptyFS []
    sampleInv sampleRes "acme" 5 (storedAt "acme" sampleRes emptyFS) "K" eq_refl _ eq_refl _
    sampleExtras_fit _ sample_stored); [discriminate|discriminate|].
  intros _. vm_compute. reflexivity.
Defined.

(** C19: Tenants are isolated.  Whatever one tenant stores, and whether the
    store succeeds, fails half-way or is skipped, every [Lookup] of every
    other tenant answers as before, for every invocation and in every list
    of stores that meet the store laws. *)
Theorem tenants_isolated {S} `{!StoreOps S, !StoreLaws S} cacheKey readFile meta
    (stores : list S) inv res tenant now r stores' tenant' inv' :
  (forall i k, cacheKey i = Ok k -> k <> "") -> tenant <> tenant' ->
  Store cacheKey readFile meta stores inv res tenant now = Some (r, stores') ->
  Lookup cacheKey stores' inv' tenant' = Lookup cacheKey stores inv' tenant'.
Proof.
  intros Hk Hne H. apply Lookup_agree; [done|]. eapply Store_agree; [done| | |exact H]; [done|].
  unfold tenantNs. congruence.
Qed.

Lemma tenants_isolated_witness :
  @Lookup FS (disk_ops ["c"]) sampleKey (storedAt "acme" sampleRes emptyFS) sampleInv "beta"
  = Some (Ok None).
Proof.
  rewrite (@tenants_isolated FS (disk_ops ["c"]) (disk_laws ["c"]) sampleKey noFile noMeta [emptyFS]
    sampleInv sampleRes "acme" 5 (Ok tt) (storedAt "acme" sampleRes emptyFS) "beta" sampleInv);
    [vm_compute; reflexivity| |discriminate|exact sample_stored].
  intros i k [= <-]. discriminate.
Defined.

(** A crash while an entry is written does not leave a wrong result.
    After any prefix of the [Put]s of a store into an entry that was empty,
    a load of the entry is a miss or replays the compile's own output,
    stdout, stderr and exit code; only the extra outputs may be missing. *)
Theorem crash_consistent {S} `{!StoreOps S, !StoreLaws S} meta inv res (s s' : S) tenant key now i out :
  key <> "" -> resExitCode res = 0%Z -> extrasFit (resExtras res) ->
  (forall n, In n cacheNames -> sGet s (tenantNs tenant) key n = Ok None) ->
  putBlobs s (tenantNs tenant) key (take i (entryBlobs meta (Some (resOutput res)) inv res)) now
  = (Ok tt, s') ->
  loadEntry s' (tenantNs tenant) key out = Ok None \/
  exists ex, (ex = resExtras res \/ ex = ∅) /\
    loadEntry s' (tenantNs tenant) key out
    = Ok (Some (mkInvocationResult (if String.eqb out "" then "" else resOutput res)
        (resStdout res) (resStderr res) 0 0 ex)).
Proof. apply putBlobs_prefix. Qed.

(** The disk after the first [i] writes of the sample entry. *)
Definition afterPuts (i : nat) : FS :=
  (@putBlobs FS (disk_ops ["c"]) emptyFS (tenantNs "acme") "K"
    (take i (entryBlobs noMeta (Some "obj") sampleInv sampleRes)) 5).2.

Lemma crash_consistent_witness :
  @loadEntry FS (disk_ops ["c"]) (afterPuts 3) (tenantNs "acme") "K" "/w/a.o" = Ok None \/
  exists ex, (ex = sampleExtras \/ ex = ∅) /\
    @loadEntry FS (disk_ops ["c"]) (afterPuts 3) (tenantNs "acme") "K" "/w/a.o"
    = Ok (Some (mkInvocationResult "obj" "" "note" 0 0 ex)).
Proof.
  refine (@crash_consistent FS (disk_ops ["c"]) (disk_laws ["c"]) noMeta sampleInv sampleRes emptyFS
    (afterPuts 3) "acme" "K" 5 3 "/w/a.o" _ eq_refl sampleExtras_fit _ _); [discriminate| |].
  - intros n [<-|[<-|[<-|[<-|[<-|[<-|[]]]]]]]; vm_compute; reflexivity.
  - vm_compute. reflexivity.
Defined.

(** The extra outputs are outside the protection of the exit-code blob.
    On the disk store a crash after five of the six writes leaves a hit that
    lost the dependency file; an entry whose extras blob does not decode is
    a hit without extras, where the comment on [loadEntry] says it is a
    miss; and a compile without extras stored over one with them is replayed
    with the old ones. *)
Theorem extras_unprotected :
  let load fs := @loadEntry FS (disk_ops ["c"]) fs (tenantNs "acme") "K" "/w/a.o" in
  let hit ex := Ok (Some (mkInvocationResult "obj" "" "note" 0 0 ex)) in
  let bare := mkInvocationResult "obj" "" "note" 0 7 ∅ in
  load (afterPuts 5) = hit ∅ /\ load (afterPuts 6) = hit sampleExtras /\
  load (@sPut FS (disk_ops ["c"]) (afterPuts 6) (tenantNs "acme") "K" blobExtras "x" 6).2 = hit ∅ /\
  (load <$> storedAt "acme" bare (afterPuts 6)) = [hit sampleExtras].
Proof. vm_compute. split_and!; reflexivity. Qed.
