(* ===== verification/Scheduler.v ===== *)
(** * Scheduler: the routing service of [internal/scheduler].

    The state is the three [sync.Map]s of the [Scheduler] struct; a handler
    is a function from the state and the request to the reply and the state,
    and the service is the step relation [reach] over sequences of RPCs and
    reaper ticks, each handled atomically.  What the handlers read from
    outside is an argument: the clock, [rand.Text()] and the order in which
    [sync.Map.Range] visits the workers, which Go leaves open.  JWT parsing
    and signing and the JWKS key sources are third-party code and parameters;
    logging and metrics have no effect on the state. *)

From S2P Require Import Prelude GoStrings GoTime.

(** ** Configuration ([config.go]) *)

Record TLSConfig := mkTLSConfig {
  CertFile : string;
  KeyFile : string;
  CertRef : string;
  KeyRef : string
}.

Record Tenant := mkTenant {
  tID : string;
  tIssuer : string;
  tJWKSURL : string;
  tTokenURL : string;
  tAudience : string;
  tClientID : string;
  tScope : string
}.

Record Routing := mkRouting {
  StickyTenants : bool;
  WorkerTimeout : string
}.

Record Config := mkConfig {
  cfgListen : string;
  cfgMetricsListen : string;
  cfgTLS : TLSConfig;
  cfgWorkerToken : string;
  cfgTenants : list Tenant;
  cfgRouting : Routing;
  cfgParanoid : bool
}.

Definition WorkerTimeoutDur (r : Routing) : result Z :=
  if String.eqb (WorkerTimeout r) "" then Ok 0%Z else ParseDuration (WorkerTimeout r).

Definition DefaultConfig : Config :=
  mkConfig ":9091" "" (mkTLSConfig "" "" "" "") "" [] (mkRouting true "30s") false.

(** The loop of [Validate] over the tenants, with the set of seen ids. *)
Fixpoint validateTenants (seen : list string) (ts : list Tenant) : result unit :=
  match ts with
  | [] => Ok tt
  | t :: rest =>
      if String.eqb (tID t) "" then Err "tenant id is required"
      else if bool_decide (tID t ∈ seen) then Err ("tenant id " +:+ tID t +:+ " is duplicated")
      else if String.eqb (tIssuer t) "" then Err ("tenant " +:+ tID t +:+ " issuer is required")
      else if String.eqb (tJWKSURL t) "" then Err ("tenant " +:+ tID t +:+ " jwks_url is required")
      else if String.eqb (tTokenURL t) "" then Err ("tenant " +:+ tID t +:+ " token_url is required")
      else if String.eqb (tAudience t) "" then Err ("tenant " +:+ tID t +:+ " audience is required")
      else validateTenants (tID t :: seen) rest
  end.

Definition Validate (c : Config) : result unit :=
  let tls := cfgTLS c in
  if String.eqb (CertFile tls) "" && String.eqb (CertRef tls) ""
  then Err "one of tls.cert_file or tls.cert_ref is required"
  else if negb (String.eqb (CertFile tls) "") && negb (String.eqb (CertRef tls) "")
  then Err "tls.cert_file and tls.cert_ref are mutually exclusive"
  else if String.eqb (KeyFile tls) "" && String.eqb (KeyRef tls) ""
  then Err "one of tls.key_file or tls.key_ref is required"
  else if negb (String.eqb (KeyFile tls) "") && negb (String.eqb (KeyRef tls) "")
  then Err "tls.key_file and tls.key_ref are mutually exclusive"
  else if String.eqb (cfgWorkerToken c) "" then Err "auth.worker_token is required"
  else if slen (cfgWorkerToken c) <? 16 then Err "auth.worker_token must be at least 16 characters"
  else if bool_decide (length (cfgTenants c) = 0) then Err "at least one [[tenant]] entry is required"
  else let! _ := wrapErr "routing.worker_timeout" (WorkerTimeoutDur (cfgRouting c)) in
       validateTenants [] (cfgTenants c).

(** ** Workers ([state.go]) *)

Record VMInfo := mkVMInfo {
  VMID : string;
  vmTenantID : string;
  vmImageDigest : string;
  vmState : Z
}.

Record WorkerState := mkWorkerState {
  WorkerID : string;
  PublicAddr : string;
  ImageDigests : list string;
  AvailableVCPUs : Z;   (* int32 *)
  CurrentLoad : Z;      (* int32 *)
  wsRuntime : Z;
  CertFingerprint : string;
  ActiveVMs : list VMInfo;
  LastHeartbeat : Z
}.

Record RegisterWorkerRequest := mkRegisterWorkerRequest {
  rwSessionToken : string;
  rwWorkerId : string;
  rwPublicAddr : string;
  rwImageDigests : list string;
  rwAvailableVcpus : Z;
  rwCurrentLoad : Z;
  rwRuntime : Z;
  rwCertFingerprint : string
}.

Record WorkerHeartbeat := mkWorkerHeartbeat {
  hbSessionToken : string;
  hbWorkerId : string;
  hbAvailableVcpus : Z;
  hbCurrentLoad : Z;
  hbActiveVms : list VMInfo
}.

Definition workerStateFromRegistration (now : Z) (r : RegisterWorkerRequest) : WorkerState :=
  mkWorkerState (rwWorkerId r) (rwPublicAddr r) (rwImageDigests r) (rwAvailableVcpus r)
    (rwCurrentLoad r) (rwRuntime r) (rwCertFingerprint r) [] now.

Definition applyHeartbeat (now : Z) (hb : WorkerHeartbeat) (w : WorkerState) : WorkerState :=
  mkWorkerState (WorkerID w) (PublicAddr w) (ImageDigests w) (hbAvailableVcpus hb)
    (hbCurrentLoad hb) (wsRuntime w) (CertFingerprint w) (hbActiveVms hb) now.

(** [atomic.AddInt32(&w.CurrentLoad, 1)]. *)
Definition bumpLoad (w : WorkerState) : WorkerState :=
  mkWorkerState (WorkerID w) (PublicAddr w) (ImageDigests w) (AvailableVCPUs w)
    (int32 (CurrentLoad w + 1)) (wsRuntime w) (CertFingerprint w) (ActiveVMs w) (LastHeartbeat w).

(** ** Claims of a JWT ([jwt.MapClaims]) *)

(** The dynamic types [audienceMatches] and [verifyTenantJWT] look at; an
    element of a [[]any] that is not a string is [None]. *)
Inductive Claim :=
  | ClaimString (s : string)
  | ClaimAnys (l : list (option string))
  | ClaimStrings (l : list string)
  | ClaimOther.

Definition audienceMatches (claim : option Claim) (want : string) : bool :=
  match claim with
  | Some (ClaimString v) => String.eqb v want
  | Some (ClaimAnys l) => existsb (fun a => bool_decide (a = Some want)) l
  | Some (ClaimStrings l) => existsb (fun a => String.eqb a want) l
  | _ => false
  end.

(** The issuer claim as a string: the zero value when it is not one. *)
Definition claimString (claim : option Claim) : string :=
  match claim with Some (ClaimString v) => v | _ => "" end.

(** The claims of a task token. *)
Record TaskClaims := mkTaskClaims {
  tcTenantID : string;
  tcImageDigest : string;
  tcWorkerID : string;
  tcIat : Z;   (* Unix seconds *)
  tcExp : Z
}.

Definition taskTokenTTL : Z := 5 * minute.

(** [t.Unix()]. *)
Definition unixSeconds (t : Z) : Z := (t / second)%Z.

(** ** Messages *)

Inductive AuthToken :=
  | JwtToken (raw : string)
  | StaticToken (t : string)
  | NoToken.

Record AuthRequest := mkAuthRequest {
  arTenantId : string;
  arToken : AuthToken
}.

Record AuthResponse := mkAuthResponse {
  aSuccess : bool;
  aSessionToken : string;
  aSigningPublicKey : string
}.

Record RouteRequest := mkRouteRequest {
  rrSessionToken : string;
  rrTenantId : string;
  rrImageDigest : string
}.

Record RouteResponse := mkRouteResponse {
  rWorkerAddress : string;
  rToken : string;
  rCertFingerprint : string
}.

Record GetTenantIdPResponse := mkGetTenantIdPResponse {
  gIssuer : string;
  gTokenUrl : string;
  gAudience : string;
  gClientId : string;
  gScope : string
}.

(** ** Picking a worker *)

Definition coldPullPenalty : Z := 100.
Definition stickyTenantBonus : Z := 2.

(** The score of a worker; a [float64] in the source, exact on these
    integers. *)
Definition score (sticky : bool) (tenantID imageDigest : string) (w : WorkerState) : Z :=
  (CurrentLoad w
   + (if existsb (fun d => String.eqb d imageDigest) (ImageDigests w) then 0 else coldPullPenalty)
   - (if sticky && existsb (fun vm => String.eqb (vmTenantID vm) tenantID
                                      && String.eqb (vmImageDigest vm) imageDigest) (ActiveVMs w)
      then stickyTenantBonus else 0))%Z.

(** The body of the [Range] callback; the best score starts at
    [math.MaxFloat64], above every score, so [None] is its first value. *)
Definition consider (sticky : bool) (tenantID imageDigest : string)
    (best : option (string * WorkerState)) (kw : string * WorkerState) : option (string * WorkerState) :=
  if (AvailableVCPUs kw.2 <=? 0)%Z then best
  else match best with
  | None => Some kw
  | Some b => if (score sticky tenantID imageDigest kw.2 <? score sticky tenantID imageDigest b.2)%Z
              then Some kw else best
  end.

Definition pickBest (sticky : bool) (tenantID imageDigest : string)
    (workers : list (string * WorkerState)) : option (string * WorkerState) :=
  foldl (consider sticky tenantID imageDigest) None workers.

(** ** The service *)

(** A worker session holds [true] until the worker registers, then its id. *)
Inductive WorkerSession := SessionOpen | SessionOf (workerID : string).

#[global] Instance WorkerSession_eq_dec : EqDecision WorkerSession.
Proof. solve_decision. Defined.

Record tenantAuth (K : Type) := mkTenantAuth {
  taKeyfunc : K;
  taIssuer : string;
  taTokenURL : string;
  taAudience : string;
  taClientID : string;
  taScope : string
}.
#[global] Arguments mkTenantAuth {K}.
#[global] Arguments taKeyfunc {K}.
#[global] Arguments taIssuer {K}.
#[global] Arguments taTokenURL {K}.
#[global] Arguments taAudience {K}.
#[global] Arguments taClientID {K}.
#[global] Arguments taScope {K}.

Record Scheduler (K : Type) := mkScheduler {
  config : Config;
  tenantAuths : gmap string (tenantAuth K);
  userSessions : gmap string string;
  workerSessions : gmap string WorkerSession;
  workerStates : gmap string WorkerState;
  signingPubKey : string
}.
#[global] Arguments mkScheduler {K}.
#[global] Arguments config {K}.
#[global] Arguments tenantAuths {K}.
#[global] Arguments userSessions {K}.
#[global] Arguments workerSessions {K}.
#[global] Arguments workerStates {K}.
#[global] Arguments signingPubKey {K}.

Definition set_userSessions {K} (m : gmap string string) (s : Scheduler K) : Scheduler K :=
  mkScheduler (config s) (tenantAuths s) m (workerSessions s) (workerStates s) (signingPubKey s).
Definition set_workers {K} (ss : gmap string WorkerSession) (ws : gmap string WorkerState)
    (s : Scheduler K) : Scheduler K :=
  mkScheduler (config s) (tenantAuths s) (userSessions s) ss ws (signingPubKey s).

Section Service.
  Context {K : Type} (newKeyfunc : string -> result K)
    (jwtParse : K -> Z -> string -> option (gmap string Claim))
    (signJWT : TaskClaims -> result string).

(** The loop of [NewScheduler] over the tenants. *)
Fixpoint newTenants (acc : gmap string (tenantAuth K)) (ts : list Tenant)
    : result (gmap string (tenantAuth K)) :=
  match ts with
  | [] => Ok acc
  | t :: rest =>
      let! kf := wrapErr ("init JWKS keyfunc for tenant " +:+ tID t) (newKeyfunc (tJWKSURL t)) in
      newTenants (<[tID t := mkTenantAuth kf (tIssuer t) (tTokenURL t) (tAudience t)
                               (tClientID t) (tScope t)]> acc) rest
  end.

(** [NewScheduler], with the public half of the generated key pair. *)
Definition NewScheduler (pubKey : string) (c : Config) : result (Scheduler K) :=
  let! tenants := newTenants ∅ (cfgTenants c) in
  Ok (mkScheduler c tenants ∅ ∅ ∅ pubKey).

Definition GetTenantIdP (s : Scheduler K) (tenantId : string) : result GetTenantIdPResponse :=
  match tenantAuths s !! tenantId with
  | None => Err "unknown tenant"
  | Some ta => Ok (mkGetTenantIdPResponse (taIssuer ta) (taTokenURL ta) (taAudience ta)
                     (taClientID ta) (taScope ta))
  end.

(** [verifyTenantJWT]; [jwtParse] fails when the signature or the validity
    period does. *)
Definition verifyTenantJWT (s : Scheduler K) (now : Z) (tenantID raw : string) : bool :=
  if String.eqb tenantID "" then false
  else match tenantAuths s !! tenantID with
  | None => false
  | Some ta =>
      match jwtParse (taKeyfunc ta) now raw with
      | None => false
      | Some claims =>
          if negb (String.eqb (claimString (claims !! "iss")) (taIssuer ta)) then false
          else audienceMatches (claims !! "aud") (taAudience ta)
      end
  end.

Definition rejected : AuthResponse := mkAuthResponse false "" "".

(** [Authenticate]; [fresh] is the value of [rand.Text()]. *)
Definition Authenticate (s : Scheduler K) (now : Z) (fresh : string) (req : AuthRequest)
    : AuthResponse * Scheduler K :=
  match arToken req with
  | JwtToken raw =>
      if negb (verifyTenantJWT s now (arTenantId req) raw) then (rejected, s)
      else (mkAuthResponse true fresh "",
            set_userSessions (<[fresh := arTenantId req]> (userSessions s)) s)
  | StaticToken t =>
      if negb (String.eqb t (cfgWorkerToken (config s))) then (rejected, s)
      else (mkAuthResponse true fresh (signingPubKey s),
            set_workers (<[fresh := SessionOpen]> (workerSessions s)) (workerStates s) s)
  | NoToken => (rejected, s)
  end.

Definition signTaskToken (now : Z) (tenantID imageDigest workerID : string) : result string :=
  signJWT (mkTaskClaims tenantID imageDigest workerID (unixSeconds now)
             (unixSeconds (now + taskTokenTTL))).

(** [pickWorker], visiting the workers in the order [order]. *)
Definition pickWorker (s : Scheduler K) (order : list (string * WorkerState))
    (tenantID imageDigest : string) : result WorkerState * Scheduler K :=
  match pickBest (StickyTenants (cfgRouting (config s))) tenantID imageDigest order with
  | None => (Err "no available worker (no registered worker has free capacity)", s)
  | Some (id, w) =>
      (Ok (bumpLoad w), set_workers (workerSessions s) (<[id := bumpLoad w]> (workerStates s)) s)
  end.

Definition Route (s : Scheduler K) (now : Z) (order : list (string * WorkerState))
    (req : RouteRequest) : result RouteResponse * Scheduler K :=
  match userSessions s !! rrSessionToken req with
  | None => (Err "unauthenticated", s)
  | Some sessTenant =>
      if String.eqb sessTenant "" || negb (String.eqb sessTenant (rrTenantId req))
      then (Err "unauthenticated", s)
      else let '(r, s') := pickWorker s order (rrTenantId req) (rrImageDigest req) in
      match r with
      | Err e => (Err e, s')
      | Ok worker =>
          match wrapErr "sign task token"
                  (signTaskToken now (rrTenantId req) (rrImageDigest req) (WorkerID worker)) with
          | Err e => (Err e, s')
          | Ok taskToken =>
              (Ok (mkRouteResponse (PublicAddr worker) taskToken (CertFingerprint worker)), s')
          end
      end
  end.

Definition RegisterWorker (s : Scheduler K) (now : Z) (req : RegisterWorkerRequest)
    : bool * Scheduler K :=
  match workerSessions s !! rwSessionToken req with
  | None => (false, s)
  | Some _ =>
      (true, set_workers (<[rwSessionToken req := SessionOf (rwWorkerId req)]> (workerSessions s))
               (<[rwWorkerId req := workerStateFromRegistration now req]> (workerStates s)) s)
  end.

Definition Heartbeat (s : Scheduler K) (now : Z) (req : WorkerHeartbeat) : result unit * Scheduler K :=
  match workerSessions s !! hbSessionToken req with
  | None => (Err "unauthenticated", s)
  | Some workerID =>
      if negb (bool_decide (workerID = SessionOf (hbWorkerId req)))
      then (Err "session does not match worker ID", s)
      else match workerStates s !! hbWorkerId req with
      | None => (Err ("worker " +:+ hbWorkerId req +:+ " not registered"), s)
      | Some w => (Ok tt, set_workers (workerSessions s)
                            (<[hbWorkerId req := applyHeartbeat now req w]> (workerStates s)) s)
      end
  end.

Definition RegisteredWorkers (s : Scheduler K) : nat := size (workerStates s).

(** *** The reaper *)

(** [StartReaper]: the timeout and the tick interval, or no reaper. *)
Definition StartReaper (s : Scheduler K) : option (Z * Z) :=
  match WorkerTimeoutDur (cfgRouting (config s)) with
  | Err _ => None
  | Ok timeout =>
      if (timeout <=? 0)%Z then None
      else let interval := (timeout / 3)%Z in
           Some (timeout, if (interval <? second)%Z then second else interval)
  end.

Definition isStale (cutoff : Z) (w : WorkerState) : bool := (LastHeartbeat w <? cutoff)%Z.

(** The first pass of [reapStaleWorkers]: the ids of stale workers. *)
Definition collectStale (s : Scheduler K) (now timeout : Z) : list string :=
  map fst (List.filter (fun kw => isStale (now - timeout) kw.2) (map_to_list (workerStates s))).

(** A session survives unless it is bound to a stale worker. *)
Definition sessionSurvives (stale : list string) (v : WorkerSession) : bool :=
  match v with SessionOpen => true | SessionOf id => negb (bool_decide (id ∈ stale)) end.

(** The second pass: the workers and the sessions bound to them go. *)
Definition dropStale (stale : list string) (s : Scheduler K) : Scheduler K :=
  set_workers
    (filter (fun kv => sessionSurvives stale kv.2 = true) (workerSessions s))
    (filter (fun kv => kv.1 ∉ stale) (workerStates s)) s.

Definition reapStaleWorkers (s : Scheduler K) (now timeout : Z) : Scheduler K :=
  let stale := collectStale s now timeout in
  if bool_decide (length stale = 0) then s else dropStale stale s.

(** *** Runs of the service *)

Inductive Event :=
  | EvGetTenantIdP (tenantId : string)
  | EvAuthenticate (now : Z) (fresh : string) (req : AuthRequest)
  | EvRoute (now : Z) (order : list (string * WorkerState)) (req : RouteRequest)
  | EvRegister (now : Z) (req : RegisterWorkerRequest)
  | EvHeartbeat (now : Z) (req : WorkerHeartbeat)
  | EvReap (now timeout : Z).

Inductive Reply :=
  | ReIdP (r : result GetTenantIdPResponse)
  | ReAuth (r : AuthResponse)
  | ReRoute (r : result RouteResponse)
  | ReRegister (success : bool)
  | ReHeartbeat (r : result unit)
  | ReReap.

Definition handle (s : Scheduler K) (e : Event) : Reply * Scheduler K :=
  match e with
  | EvGetTenantIdP t => (ReIdP (GetTenantIdP s t), s)
  | EvAuthenticate now fresh req => let '(r, s') := Authenticate s now fresh req in (ReAuth r, s')
  | EvRoute now order req => let '(r, s') := Route s now order req in (ReRoute r, s')
  | EvRegister now req => let '(r, s') := RegisterWorker s now req in (ReRegister r, s')
  | EvHeartbeat now req => let '(r, s') := Heartbeat s now req in (ReHeartbeat r, s')
  | EvReap now timeout => (ReReap, reapStaleWorkers s now timeout)
  end.

(** [Range] visits every worker once, in some order. *)
Definition rangeOk (s : Scheduler K) (e : Event) : Prop :=
  match e with EvRoute _ order _ => order ≡ₚ map_to_list (workerStates s) | _ => True end.

(** The states a scheduler started from [c] reaches, with what it did. *)
Inductive reach (pubKey : string) (c : Config) : list (Event * Reply) -> Scheduler K -> Prop :=
  | reach_start s : NewScheduler pubKey c = Ok s -> reach pubKey c [] s
  | reach_step tr s e r s' :
      reach pubKey c tr s -> rangeOk s e -> handle s e = (r, s') ->
      reach pubKey c (tr ++ [(e, r)]) s'.
End Service.

(** ** Facts *)

(** Picking: the fold keeps the first best of the workers seen. *)
Lemma consider_fold sticky t i ws best :
  (forall b, best = Some b -> (0 < AvailableVCPUs b.2)%Z) ->
  let r := foldl (consider sticky t i) best ws in
  (r = None -> best = None /\ Forall (fun kw => (AvailableVCPUs kw.2 <= 0)%Z) ws) /\
  (forall b, r = Some b ->
    (best = Some b \/ b ∈ ws) /\ (0 < AvailableVCPUs b.2)%Z /\
    (forall b0, best = Some b0 -> (score sticky t i b.2 <= score sticky t i b0.2)%Z) /\
    (forall kw, kw ∈ ws -> (0 < AvailableVCPUs kw.2)%Z ->
      (score sticky t i b.2 <= score sticky t i kw.2)%Z)).
Proof.
  revert best. induction ws as [|kw ws IH]; intros best Hb; cbn [foldl].
  { split; [by intros ->|]. intros b Hb'. split_and!; [by left|by apply Hb| |set_solver].
    intros b0 Hb0. rewrite Hb' in Hb0. simplify_eq. lia. }
  assert (forall b, consider sticky t i best kw = Some b -> (0 < AvailableVCPUs b.2)%Z) as Hb'.
  { unfold consider. destruct (Z.leb_spec (AvailableVCPUs kw.2) 0); [done|].
    destruct best as [b0|]; [|by intros ? [= <-]]. case_match; [by intros ? [= <-]|].
    intros b [= <-]. by apply Hb. }
  specialize (IH _ Hb'). destruct IH as [IH1 IH2]. split.
  - intros Hr. destruct (IH1 Hr) as [Hc Hall]. unfold consider in Hc.
    destruct (Z.leb_spec (AvailableVCPUs kw.2) 0); [by split; [|constructor]|].
    destruct best; [|done]. by case_match.
  - intros b Hr. destruct (IH2 b Hr) as (Hin & Hv & Hle & Hws). unfold consider in Hin, Hle.
    destruct (Z.leb_spec (AvailableVCPUs kw.2) 0).
    { split_and!; [destruct Hin; set_solver|done|done|].
      intros kw' [->|Hin']%elem_of_cons Hv'; [lia|by apply Hws]. }
    destruct best as [b0|].
    + destruct (Z.ltb_spec (score sticky t i kw.2) (score sticky t i b0.2)).
      * specialize (Hle _ eq_refl). split_and!; [destruct Hin; set_solver|done| |].
        -- intros b1 [= <-]. lia.
        -- intros kw' [->|Hin']%elem_of_cons Hv'; [lia|by apply Hws].
      * specialize (Hle _ eq_refl). split_and!; [destruct Hin; set_solver|done| |].
        -- intros b1 [= <-]. lia.
        -- intros kw' [->|Hin']%elem_of_cons Hv'; [lia|by apply Hws].
    + specialize (Hle _ eq_refl). split_and!; [destruct Hin; set_solver|done|done|].
      intros kw' [->|Hin']%elem_of_cons Hv'; [lia|by apply Hws].
Qed.
Lemma pickBest_mem sticky t i order b : pickBest sticky t i order = Some b -> b ∈ order.
Proof.
  intros H. destruct (consider_fold sticky t i order None) as [_ H2]; [done|].
  destruct (H2 b H) as ([?|?] & _); done.
Qed.

(** *** Configured tenants *)

Lemma validateTenants_ids ts : forall seen,
  validateTenants seen ts = Ok tt ->
  NoDup (map tID ts) /\ Forall (fun t => tID t <> "" /\ tID t ∉ seen) ts.
Proof.
  induction ts as [|t ts IH]; intros seen H; cbn [validateTenants] in H; [repeat constructor|].
  destruct (String.eqb_spec (tID t) ""); [done|]. case_bool_decide; [done|].
  do 4 (case_match; [done|]). destruct (IH _ H) as [Hnd Hall]. cbn [map]. split.
  - constructor; [|done]. intros (t' & E & Hin)%list_elem_of_fmap.
    rewrite Forall_forall in Hall. destruct (Hall _ Hin) as [_ Hn]. set_solver.
  - constructor; [done|]. eapply Forall_impl; [exact Hall|]. cbn. set_solver.
Qed.

Definition authOf {K} (kf : K) (t : Tenant) : tenantAuth K :=
  mkTenantAuth kf (tIssuer t) (tTokenURL t) (tAudience t) (tClientID t) (tScope t).

Lemma newTenants_lookup {K} (newKeyfunc : string -> result K) ts : forall acc m,
  newTenants newKeyfunc acc ts = Ok m -> NoDup (map tID ts) ->
  (forall t, t ∈ ts -> exists kf, newKeyfunc (tJWKSURL t) = Ok kf /\ m !! tID t = Some (authOf kf t)) /\
  (forall id, id ∉ map tID ts -> m !! id = acc !! id).
Proof.
  induction ts as [|t ts IH]; intros acc m H Hnd; cbn [newTenants] in H.
  { simplify_eq. split; [set_solver|done]. }
  cbn [map] in Hnd. apply NoDup_cons in Hnd as [Hn Hnd].
  destruct (newKeyfunc (tJWKSURL t)) as [kf|e] eqn:E; cbn [wrapErr rbind] in H; [|done].
  destruct (IH _ _ H Hnd) as [IH1 IH2]. split.
  - intros t' [->|Hin]%elem_of_cons; [|by apply IH1]. exists kf. split; [done|].
    rewrite IH2 by done. by rewrite lookup_insert_eq.
  - intros id Hid. cbn [map] in Hid. rewrite IH2 by set_solver. apply lookup_insert_ne. set_solver.
Qed.

Section ServiceFacts.
  Context {K : Type} (newKeyfunc : string -> result K)
    (jwtParse : K -> Z -> string -> option (gmap string Claim))
    (signJWT : TaskClaims -> result string).
  Notation handle := (handle jwtParse signJWT).
  Notation reach := (reach newKeyfunc jwtParse signJWT).

(** *** What a run has granted *)

(** A user session: a token handed out for a JWT verified for the tenant. *)
Definition granted (s : Scheduler K) (tr : list (Event * Reply)) (tok tenant : string) : Prop :=
  exists now raw,
    (EvAuthenticate now tok (mkAuthRequest tenant (JwtToken raw)), ReAuth (mkAuthResponse true tok "")) ∈ tr /\
    verifyTenantJWT jwtParse s now tenant raw = true.

(** A worker session: a token handed out for the worker token. *)
Definition admittedWorker (s : Scheduler K) (tr : list (Event * Reply)) (tok : string) : Prop :=
  exists now tenant,
    (EvAuthenticate now tok (mkAuthRequest tenant (StaticToken (cfgWorkerToken (config s)))),
     ReAuth (mkAuthResponse true tok (signingPubKey s))) ∈ tr.

(** A registration accepted from such a session. *)
Definition registeredBy (s : Scheduler K) (tr : list (Event * Reply)) (req : RegisterWorkerRequest) : Prop :=
  (exists now, (EvRegister now req, ReRegister true) ∈ tr) /\ admittedWorker s tr (rwSessionToken req).

Record SchedInv (tr : list (Event * Reply)) (s : Scheduler K) : Prop := {
  inv_user tok tenant : userSessions s !! tok = Some tenant -> granted s tr tok tenant;
  inv_session tok v : workerSessions s !! tok = Some v -> admittedWorker s tr tok;
  inv_bound tok id : workerSessions s !! tok = Some (SessionOf id) ->
    exists req, rwSessionToken req = tok /\ rwWorkerId req = id /\ registeredBy s tr req;
  inv_worker id w : workerStates s !! id = Some w ->
    WorkerID w = id /\
    exists req, rwWorkerId req = id /\ PublicAddr w = rwPublicAddr req /\
      CertFingerprint w = rwCertFingerprint req /\ registeredBy s tr req
}.

(** The parts of the state no handler changes. *)
Definition sameSetup (s s' : Scheduler K) : Prop :=
  config s' = config s /\ tenantAuths s' = tenantAuths s /\ signingPubKey s' = signingPubKey s.

Lemma pickWorker_cases (s : Scheduler K) order t i :
  (exists e, pickWorker s order t i = (Err e, s)) \/
  (exists id w, pickBest (StickyTenants (cfgRouting (config s))) t i order = Some (id, w) /\
    pickWorker s order t i
    = (Ok (bumpLoad w), set_workers (workerSessions s) (<[id := bumpLoad w]> (workerStates s)) s)).
Proof. unfold pickWorker. destruct (pickBest _ _ _ _) as [[id w]|]; [right; eauto|left; eauto]. Qed.

Lemma Route_state (s : Scheduler K) now order req r s' :
  Route signJWT s now order req = (r, s') ->
  s' = s \/ exists id w, pickBest (StickyTenants (cfgRouting (config s))) (rrTenantId req)
      (rrImageDigest req) order = Some (id, w) /\
    s' = set_workers (workerSessions s) (<[id := bumpLoad w]> (workerStates s)) s.
Proof.
  unfold Route. intros H. destruct (userSessions s !! _); [|simplify_eq; by left].
  destruct (_ || _); [simplify_eq; by left|].
  destruct (pickWorker_cases s order (rrTenantId req) (rrImageDigest req))
    as [[e Hp]|(id & w & Hb & Hp)]; rewrite Hp in H; [simplify_eq; by left|].
  right. exists id, w. split; [done|]. destruct (wrapErr _ _); by simplify_eq.
Qed.

Lemma handle_setup (s : Scheduler K) e r s' : handle s e = (r, s') -> sameSetup s s'.
Proof.
  unfold sameSetup. destruct e as [t|now f q|now o q|now q|now q|now tm]; cbn [Scheduler.handle]; intros H.
  - by simplify_eq.
  - unfold Authenticate in H. destruct (arToken q); repeat case_match; by simplify_eq.
  - destruct (Route signJWT s now o q) as [r0 s0] eqn:E. simplify_eq.
    apply Route_state in E as [->|(id & w & _ & ->)]; done.
  - unfold RegisterWorker in H. repeat case_match; by simplify_eq.
  - unfold Heartbeat in H. repeat case_match; by simplify_eq.
  - unfold reapStaleWorkers in H. simplify_eq. by case_bool_decide.
Qed.

Section Mono.
  Context (s s' : Scheduler K) (tr more : list (Event * Reply)) (Hset : sameSetup s s').

Lemma verify_setup now t raw : verifyTenantJWT jwtParse s' now t raw = verifyTenantJWT jwtParse s now t raw.
Proof. destruct Hset as (_ & Ht & _). unfold verifyTenantJWT. by rewrite Ht. Qed.

Lemma granted_mono tok t : granted s tr tok t -> granted s' (tr ++ more) tok t.
Proof.
  intros (now & raw & Hin & Hv). exists now, raw. rewrite verify_setup. split; [|done].
  apply elem_of_app. by left.
Qed.

Lemma admitted_mono tok : admittedWorker s tr tok -> admittedWorker s' (tr ++ more) tok.
Proof.
  destruct Hset as (Hc & _ & Hp). intros (now & t & Hin). exists now, t. rewrite Hc, Hp.
  apply elem_of_app. by left.
Qed.

Lemma registered_mono req : registeredBy s tr req -> registeredBy s' (tr ++ more) req.
Proof.
  intros [[now Hin] Ha]. split; [|by apply admitted_mono].
  exists now. apply elem_of_app. by left.
Qed.

(** A step that adds no session and whose workers keep the identity of an
    old one keeps the invariant. *)
Lemma inv_shrink :
  SchedInv tr s -> userSessions s' ⊆ userSessions s -> workerSessions s' ⊆ workerSessions s ->
  (forall id w', workerStates s' !! id = Some w' -> exists w, workerStates s !! id = Some w /\
    WorkerID w' = WorkerID w /\ PublicAddr w' = PublicAddr w /\ CertFingerprint w' = CertFingerprint w) ->
  SchedInv (tr ++ more) s'.
Proof.
  intros I Hu Hs Hw. split.
  - intros tok t H. apply granted_mono, (inv_user _ _ I). by eapply lookup_weaken.
  - intros tok v H. eapply admitted_mono, (inv_session _ _ I). by eapply lookup_weaken.
  - intros tok id H. destruct (inv_bound _ _ I tok id) as (req & ? & ? & ?); [by eapply lookup_weaken|].
    exists req. split_and!; try done. by apply registered_mono.
  - intros id w' H. destruct (Hw id w' H) as (w & Hw0 & E1 & E2 & E3).
    destruct (inv_worker _ _ I id w Hw0) as (Hid & req & ? & ? & ? & ?).
    rewrite E1, E2, E3. split; [done|]. exists req. split_and!; try done. by apply registered_mono.
Qed.
End Mono.

Lemma inv_same (s : Scheduler K) tr more : SchedInv tr s -> SchedInv (tr ++ more) s.
Proof.
  intros I. apply (inv_shrink s s); [done|done|reflexivity|reflexivity|].
  intros id w H. by exists w.
Qed.

Lemma inv_auth (s : Scheduler K) tr now fresh req r s' :
  SchedInv tr s -> Authenticate jwtParse s now fresh req = (r, s') ->
  SchedInv (tr ++ [(EvAuthenticate now fresh req, ReAuth r)]) s'.
Proof.
  intros I H. assert (sameSetup s s') as Hset.
  { eapply (handle_setup s (EvAuthenticate now fresh req)). cbn. by rewrite H. }
  unfold Authenticate in H. destruct req as [tenant tk]. cbn [arToken arTenantId] in H.
  destruct tk as [raw|t|]; [| |simplify_eq; by apply inv_same].
  - destruct (verifyTenantJWT jwtParse s now tenant raw) eqn:Ev; cbn [negb] in H;
      simplify_eq; [|by apply inv_same].
    destruct I as [I1 I2 I3 I4]. split; cbn [userSessions workerSessions workerStates set_userSessions].
    + intros tok t' [[<- <-]|[Hne Hl]]%lookup_insert_Some.
      * exists now, raw. split; [set_solver|done].
      * by eapply granted_mono, I1.
    + intros tok v Hl. by eapply admitted_mono, I2.
    + intros tok id Hl. destruct (I3 tok id Hl) as (q & ? & ? & ?). exists q.
      split_and!; try done. by eapply registered_mono.
    + intros id w Hl. destruct (I4 id w Hl) as (? & q & ? & ? & ? & ?). split; [done|]. exists q.
      split_and!; try done. by eapply registered_mono.
  - destruct (String.eqb_spec t (cfgWorkerToken (config s))) as [->|]; cbn [negb] in H;
      simplify_eq; [|by apply inv_same].
    destruct I as [I1 I2 I3 I4]. split; cbn [userSessions workerSessions workerStates set_workers].
    + intros tok t' Hl. by eapply granted_mono, I1.
    + intros tok v [[<- <-]|[Hne Hl]]%lookup_insert_Some.
      * exists now, tenant. cbn. set_solver.
      * by eapply admitted_mono, I2.
    + intros tok id [[_ ?]|[Hne Hl]]%lookup_insert_Some; [done|].
      destruct (I3 tok id Hl) as (q & ? & ? & ?). exists q.
      split_and!; try done. by eapply registered_mono.
    + intros id w Hl. destruct (I4 id w Hl) as (? & q & ? & ? & ? & ?). split; [done|]. exists q.
      split_and!; try done. by eapply registered_mono.
Qed.
Lemma inv_register (s : Scheduler K) tr now req r s' :
  SchedInv tr s -> RegisterWorker s now req = (r, s') ->
  SchedInv (tr ++ [(EvRegister now req, ReRegister r)]) s'.
Proof.
  intros I H. unfold RegisterWorker in H.
  destruct (workerSessions s !! rwSessionToken req) as [v|] eqn:Es;
    [|simplify_eq; by apply inv_same].
  simplify_eq. set (s' := set_workers _ _ s). set (tr' := tr ++ _).
  assert (sameSetup s s') as Hset by done.
  assert (registeredBy s' tr' req) as Hreg.
  { split; [exists now; unfold tr'; set_solver|]. by eapply admitted_mono, (inv_session _ _ I). }
  destruct I as [I1 I2 I3 I4]. split; cbn [s' userSessions workerSessions workerStates set_workers].
  - intros tok t' Hl. by eapply granted_mono, I1.
  - intros tok v' [[<- <-]|[Hne Hl]]%lookup_insert_Some; [by apply Hreg|]. by eapply admitted_mono, I2.
  - intros tok id [[<- [= <-]]|[Hne Hl]]%lookup_insert_Some; [by exists req|].
    destruct (I3 tok id Hl) as (q & ? & ? & ?). exists q.
    split_and!; try done. by eapply registered_mono.
  - intros id w [[<- <-]|[Hne Hl]]%lookup_insert_Some; [by split; [|exists req]|].
    destruct (I4 id w Hl) as (? & q & ? & ? & ? & ?). split; [done|]. exists q.
    split_and!; try done. by eapply registered_mono.
Qed.

(** Replacing one worker by one of the same identity. *)
Lemma inv_update (s : Scheduler K) tr more id w w' :
  SchedInv tr s -> workerStates s !! id = Some w ->
  WorkerID w' = WorkerID w -> PublicAddr w' = PublicAddr w -> CertFingerprint w' = CertFingerprint w ->
  SchedInv (tr ++ more) (set_workers (workerSessions s) (<[id := w']> (workerStates s)) s).
Proof.
  intros I Hw E1 E2 E3. apply (inv_shrink s); [done|done|reflexivity|reflexivity|].
  cbn [workerStates set_workers]. intros id' w0 [[<- <-]|[Hne Hl]]%lookup_insert_Some; eauto.
Qed.

Lemma collectStale_spec (s : Scheduler K) now timeout id :
  id ∈ collectStale s now timeout <->
  exists w, workerStates s !! id = Some w /\ (LastHeartbeat w < now - timeout)%Z.
Proof.
  unfold collectStale. rewrite list_elem_of_fmap. split.
  - intros ([k w] & -> & Hin). apply list_elem_of_In, filter_In in Hin as [Hin Hst].
    apply list_elem_of_In, elem_of_map_to_list in Hin. exists w. split; [done|]. by apply Z.ltb_lt.
  - intros (w & Hl & Hlt). exists (id, w). split; [done|]. apply list_elem_of_In, filter_In.
    split; [by apply list_elem_of_In, elem_of_map_to_list|by apply Z.ltb_lt].
Qed.

(** The reaper, with or without stale workers, drops exactly these. *)
Lemma reap_dropStale (s : Scheduler K) now timeout :
  reapStaleWorkers s now timeout = dropStale (collectStale s now timeout) s.
Proof.
  unfold reapStaleWorkers. case_bool_decide as H; [|done].
  apply nil_length_inv in H as ->. unfold dropStale, set_workers. destruct s; cbn. f_equal.
  - symmetry. apply map_filter_id. intros k [|v] _; [done|]. cbn. rewrite bool_decide_eq_false_2 by apply not_elem_of_nil. done.
  - symmetry. apply map_filter_id. intros k v _. cbn. apply not_elem_of_nil.
Qed.

Lemma reach_inv pubKey c tr s :
  reach pubKey c tr s -> SchedInv tr s /\ config s = c /\ signingPubKey s = pubKey.
Proof.
  induction 1 as [s H|tr s e r s' Hr (I & Hc & Hp) Hok H].
  - unfold NewScheduler in H. inv_ok. split; [|done].
    split; cbn; intros *; by rewrite lookup_empty.
  - assert (Hset := handle_setup _ _ _ _ H). destruct Hset as (-> & _ & ->). split; [|done].
    destruct e as [t|now f q|now o q|now q|now q|now tm]; cbn [Scheduler.handle rangeOk] in H, Hok.
    + simplify_eq. by apply inv_same.
    + destruct (Authenticate _ _ _ _ _) eqn:E. simplify_eq. by eapply inv_auth.
    + destruct (Route _ _ _ _ _) as [r0 s0] eqn:E. simplify_eq.
      apply Route_state in E as [->|(id & w & Hb & ->)]; [by apply inv_same|].
      apply pickBest_mem in Hb. rewrite Hok in Hb. apply elem_of_map_to_list in Hb.
      by eapply inv_update.
    + destruct (RegisterWorker _ _ _) eqn:E. simplify_eq. by eapply inv_register.
    + unfold Heartbeat in H. repeat case_match; simplify_eq; try by apply inv_same.
      by eapply inv_update.
    + simplify_eq. rewrite reap_dropStale.
      apply (inv_shrink s); [done|done|reflexivity|apply map_filter_subseteq|].
      cbn. intros id w [Hl _]%map_lookup_filter_Some. by exists w.
Qed.
(** *** Replaying a run without routing *)

Definition isRoute (e : Event) : bool := match e with EvRoute _ _ _ => true | _ => false end.

Fixpoint replay (s : Scheduler K) (es : list Event) : list (Event * Reply) * Scheduler K :=
  match es with
  | [] => ([], s)
  | e :: es' => let '(r, s') := handle s e in
                let '(tr, s'') := replay s' es' in ((e, r) :: tr, s'')
  end.

Lemma reach_replay pubKey c es : forall tr s,
  reach pubKey c tr s -> forallb (fun e => negb (isRoute e)) es = true ->
  reach pubKey c (tr ++ (replay s es).1) (replay s es).2.
Proof.
  induction es as [|e es IH]; intros tr s Hr Hes; cbn [replay]; [by rewrite app_nil_r|].
  cbn [forallb] in Hes. apply andb_true_iff in Hes as [He Hes].
  destruct (handle s e) as [r s'] eqn:E.
  assert (reach pubKey c (tr ++ [(e, r)]) s') as Hr' by
    (econstructor; [exact Hr|by destruct e|exact E]).
  specialize (IH _ _ Hr' Hes). destruct (replay s' es) as [tr' s'']. cbn [fst snd] in *.
  by rewrite <- app_assoc in IH.
Qed.
End ServiceFacts.

(** What a successful [Route] says about its session and its worker. *)
Lemma Route_ok {K} signJWT (s : Scheduler K) now order req resp s' :
  Route signJWT s now order req = (Ok resp, s') ->
  userSessions s !! rrSessionToken req = Some (rrTenantId req) /\ rrTenantId req <> "" /\
  exists id w, (id, w) ∈ order /\ (0 < AvailableVCPUs w)%Z /\
    rWorkerAddress resp = PublicAddr w /\ rCertFingerprint resp = CertFingerprint w /\
    signJWT (mkTaskClaims (rrTenantId req) (rrImageDigest req) (WorkerID w) (unixSeconds now)
      (unixSeconds (now + taskTokenTTL))) = Ok (rToken resp).
Proof.
  intros H. unfold Route in H.
  destruct (userSessions s !! rrSessionToken req) as [t|] eqn:Eu; [|done].
  destruct (String.eqb_spec t ""); [done|]. cbn [orb] in H.
  destruct (String.eqb_spec t (rrTenantId req)) as [->|]; [|done]. cbn [negb] in H.
  split; [done|]. split; [done|].
  destruct (pickWorker_cases s order (rrTenantId req) (rrImageDigest req))
    as [[e Hp]|(id & w & Hb & Hp)]; rewrite Hp in H; [done|].
  destruct (signTaskToken _ _ _ _ _) as [tk|] eqn:Es; cbn [wrapErr] in H; [|done]. simplify_eq.
  destruct (consider_fold (StickyTenants (cfgRouting (config s))) (rrTenantId req) (rrImageDigest req)
    order None) as [_ Hbest]; [done|]. destruct (Hbest _ Hb) as ([?|Hin] & Hv & _); [done|].
  exists id, w. by split_and!.
Qed.

(** ** Claims *)

(** C11: Routing is authorised end to end.  In every run of the service, when
    [Route] answers a request, its session token was handed out for a JWT
    that verified against the key source, issuer and audience of the very
    tenant the request names, and that tenant is not empty; the address and
    certificate in the answer were registered by a session that presented
    the worker token; and the task token is signed for this tenant, this
    image and the id of that worker, for five minutes. *)
Theorem route_authorised {K} (newKeyfunc : string -> result K) jwtParse signJWT
    pubKey c tr s now order req resp s' :
  reach newKeyfunc jwtParse signJWT pubKey c tr s -> order ≡ₚ map_to_list (workerStates s) ->
  Route signJWT s now order req = (Ok resp, s') ->
  rrTenantId req <> "" /\ granted jwtParse s tr (rrSessionToken req) (rrTenantId req) /\
  exists id w rw, workerStates s !! id = Some w /\ (0 < AvailableVCPUs w)%Z /\
    rwWorkerId rw = id /\ registeredBy s tr rw /\
    rWorkerAddress resp = rwPublicAddr rw /\ rCertFingerprint resp = rwCertFingerprint rw /\
    signJWT (mkTaskClaims (rrTenantId req) (rrImageDigest req) id (unixSeconds now)
      (unixSeconds (now + taskTokenTTL))) = Ok (rToken resp).
Proof.
  intros Hr Ho H. destruct (reach_inv _ _ _ _ _ _ _ Hr) as [I _].
  destruct (Route_ok signJWT s now order req resp s' H) as (Hu & Ht & id & w & Hin & Hv & Ha & Hc & Hs).
  split; [done|]. split; [by apply (inv_user _ _ _ I)|].
  rewrite Ho in Hin. apply elem_of_map_to_list in Hin.
  destruct (inv_worker _ _ _ I id w Hin) as (Hid & rw & ? & ? & ? & ?).
  exists id, w, rw. rewrite Hid in Hs. split_and!; try done; congruence.
Qed.

(** A deployment with two tenants, key sources named by their URL, where the
    token [jwt-U] is good exactly for the key source [U]. *)
Definition exTenant (id : string) : Tenant :=
  mkTenant id ("iss-" +:+ id) ("url-" +:+ id) ("tok-" +:+ id) "hpcc" "" "".
Definition exConfig : Config :=
  mkConfig ":9091" "" (mkTLSConfig "c.pem" "k.pem" "" "") "0123456789abcdef"
    [exTenant "acme"; exTenant "beta"] (mkRouting true "30s") false.
Definition exKeyfunc (url : string) : result string := Ok url.
Definition exParse (url : string) (now : Z) (raw : string) : option (gmap string Claim) :=
  if String.eqb raw ("jwt-" +:+ url)
  then Some {[ "iss" := ClaimString ("iss-" +:+ trimPrefix url "url-");
               "aud" := ClaimAnys [None; Some "hpcc"] ]}
  else None.
Definition exSign (c : TaskClaims) : result string := Ok (tcTenantID c +:+ "/" +:+ tcWorkerID c).

Definition exStart : Scheduler string :=
  match NewScheduler exKeyfunc "pk" exConfig with
  | Ok s => s
  | Err _ => mkScheduler exConfig ∅ ∅ ∅ ∅ "pk"
  end.

Definition exReg (tok id addr : string) (load : Z) : RegisterWorkerRequest :=
  mkRegisterWorkerRequest tok id addr ["img"] 4 load 0 ("fp-" +:+ addr).

(** Two workers register and a user of acme logs in. *)
Definition exEvents : list Event :=
  [EvAuthenticate 1 "T1" (mkAuthRequest "" (StaticToken "0123456789abcdef"));
   EvRegister 2 (exReg "T1" "w1" "a1" 3);
   EvAuthenticate 3 "T2" (mkAuthRequest "" (StaticToken "0123456789abcdef"));
   EvRegister 4 (exReg "T2" "w2" "a2" 1);
   EvAuthenticate 5 "U1" (mkAuthRequest "acme" (JwtToken "jwt-url-acme"))].

Definition exRun : list (Event * Reply) * Scheduler string := replay exParse exSign exStart exEvents.

Lemma exRun_reach : reach exKeyfunc exParse exSign "pk" exConfig exRun.1 exRun.2.
Proof.
  apply (reach_replay exKeyfunc exParse exSign "pk" exConfig exEvents [] exStart); [|reflexivity].
  apply reach_start. vm_compute. reflexivity.
Qed.

Lemma route_authorised_witness :
  granted exParse exRun.2 exRun.1 "U1" "acme".
Proof.
  apply (route_authorised exKeyfunc exParse exSign "pk" exConfig exRun.1 exRun.2 6
    (map_to_list (workerStates exRun.2)) (mkRouteRequest "U1" "acme" "img")
    (mkRouteResponse "a2" "acme/w2" "fp-a2")
    (Route exSign exRun.2 6 (map_to_list (workerStates exRun.2)) (mkRouteRequest "U1" "acme" "img")).2);
    [exact exRun_reach|reflexivity|vm_compute; reflexivity].
Defined.

(** The worker picked is a best one.  Whatever the order in which the
    worker table is visited, [pickWorker] fails only when no registered
    worker has a free VCPU; otherwise it returns a registered worker with
    free VCPUs whose score (load, plus 100 without the image, minus 2 for a
    sticky tenant) is the least among such workers, and the only change to
    the state is that worker's load, one more in 32 bits. *)
Theorem pickWorker_best {K} (s : Scheduler K) order t i r s' :
  order ≡ₚ map_to_list (workerStates s) -> pickWorker s order t i = (r, s') ->
  match r with
  | Err _ => s' = s /\ map_Forall (fun _ w => (AvailableVCPUs w <= 0)%Z) (workerStates s)
  | Ok w' => exists id w, workerStates s !! id = Some w /\ (0 < AvailableVCPUs w)%Z /\
      (forall id2 w2, workerStates s !! id2 = Some w2 -> (0 < AvailableVCPUs w2)%Z ->
        (score (StickyTenants (cfgRouting (config s))) t i w
         <= score (StickyTenants (cfgRouting (config s))) t i w2)%Z) /\
      w' = bumpLoad w /\ CurrentLoad w' = int32 (CurrentLoad w + 1) /\
      s' = set_workers (workerSessions s) (<[id := w']> (workerStates s)) s
  end.
Proof.
  intros Ho H. set (sticky := StickyTenants (cfgRouting (config s))).
  destruct (consider_fold sticky t i order None) as [Hnone Hsome]; [done|].
  unfold pickWorker in H. fold sticky in H. fold (pickBest sticky t i order) in Hnone, Hsome.
  destruct (pickBest sticky t i order) as [[id w]|]; simplify_eq.
  - destruct (Hsome _ eq_refl) as ([?|Hin] & Hv & _ & Hall); [done|].
    rewrite Ho in Hin. apply elem_of_map_to_list in Hin. exists id, w. split_and!; try done.
    intros id2 w2 Hl. apply (Hall (id2, w2)). rewrite Ho. by apply elem_of_map_to_list.
  - split; [done|]. destruct (Hnone eq_refl) as [_ Hall]. intros id w Hl.
    rewrite Forall_forall in Hall. apply (Hall (id, w)). rewrite Ho. by apply elem_of_map_to_list.
Qed.

Lemma pickWorker_best_witness :
  exists id w, workerStates exRun.2 !! id = Some w /\ PublicAddr w = "a2" /\
    (forall id2 w2, workerStates exRun.2 !! id2 = Some w2 -> (0 < AvailableVCPUs w2)%Z ->
      (score true "acme" "img" w <= score true "acme" "img" w2)%Z).
Proof.
  destruct (pickWorker_best exRun.2 (map_to_list (workerStates exRun.2)) "acme" "img"
    (Ok (bumpLoad (workerStateFromRegistration 4 (exReg "T2" "w2" "a2" 1))))
    (pickWorker exRun.2 (map_to_list (workerStates exRun.2)) "acme" "img").2)
    as (id & w & Hl & _ & Hall & Hw & _); [reflexivity|vm_compute; reflexivity|].
  exists id, w. split; [exact Hl|]. split; [|exact Hall]. injection Hw. intros. congruence.
Defined.

(** A heartbeat reports for its own worker only.  In every run, when
    [Heartbeat] is accepted, its session presented the worker token and
    registered this worker id before; only that worker's entry changes, and
    the address and certificate clients are sent to stay those registered. *)
Theorem heartbeat_authorised {K} (newKeyfunc : string -> result K) jwtParse signJWT
    pubKey c tr s now req s' :
  reach newKeyfunc jwtParse signJWT pubKey c tr s -> Heartbeat s now req = (Ok tt, s') ->
  (exists rw, rwSessionToken rw = hbSessionToken req /\ rwWorkerId rw = hbWorkerId req /\
    registeredBy s tr rw) /\
  exists w w', workerStates s !! hbWorkerId req = Some w /\
    workerStates s' = <[hbWorkerId req := w']> (workerStates s) /\
    (WorkerID w', PublicAddr w', CertFingerprint w') = (WorkerID w, PublicAddr w, CertFingerprint w) /\
    LastHeartbeat w' = now /\ userSessions s' = userSessions s /\ workerSessions s' = workerSessions s.
Proof.
  intros Hr H. destruct (reach_inv _ _ _ _ _ _ _ Hr) as [I _]. unfold Heartbeat in H.
  destruct (workerSessions s !! hbSessionToken req) as [v|] eqn:Es; [|done].
  case_bool_decide as Hv; [|done]. cbn [negb] in H. subst v.
  destruct (workerStates s !! hbWorkerId req) as [w|] eqn:Ew; [|done]. simplify_eq.
  split; [by apply (inv_bound _ _ _ I)|]. by exists w, (applyHeartbeat now req w).
Qed.

Lemma heartbeat_authorised_witness :
  exists rw, rwSessionToken rw = "T1" /\ rwWorkerId rw = "w1" /\ registeredBy exRun.2 exRun.1 rw.
Proof.
  apply (heartbeat_authorised exKeyfunc exParse exSign "pk" exConfig exRun.1 exRun.2 9
    (mkWorkerHeartbeat "T1" "w1" 2 0 [])
    (Heartbeat exRun.2 9 (mkWorkerHeartbeat "T1" "w1" 2 0 [])).2);
    [exact exRun_reach|vm_compute; reflexivity].
Defined.

(** The reaper evicts exactly the workers that missed the timeout.  A
    worker is kept, unchanged, exactly when its last heartbeat is no older
    than the timeout; a session is dropped exactly when it is bound to an
    evicted worker; user sessions are not touched; and a worker whose session
    was dropped can neither heartbeat nor register with it again. *)
Theorem reap_exact {K} (s : Scheduler K) now timeout :
  let s' := reapStaleWorkers s now timeout in
  (forall id w, workerStates s' !! id = Some w <->
    workerStates s !! id = Some w /\ (now - timeout <= LastHeartbeat w)%Z) /\
  (forall tok v, workerSessions s' !! tok = Some v <->
    workerSessions s !! tok = Some v /\
    ~ exists id w, v = SessionOf id /\ workerStates s !! id = Some w /\
                   (LastHeartbeat w < now - timeout)%Z) /\
  userSessions s' = userSessions s /\
  (forall tok, workerSessions s' !! tok = None ->
    (forall t hb, hbSessionToken hb = tok -> Heartbeat s' t hb = (Err "unauthenticated", s')) /\
    (forall t rw, rwSessionToken rw = tok -> RegisterWorker s' t rw = (false, s'))).
Proof.
  intros s'. subst s'. rewrite reap_dropStale. set (st := collectStale s now timeout).
  assert (forall id, id ∈ st <-> exists w, workerStates s !! id = Some w /\
    (LastHeartbeat w < now - timeout)%Z) as Hst by (intros; apply collectStale_spec).
  split_and!; cbn [dropStale workerStates workerSessions userSessions set_workers].
  - intros id w. rewrite map_lookup_filter_Some. cbn. rewrite Hst. split.
    + intros [Hl Hn]. split; [done|]. apply Z.nlt_ge. intros ?. apply Hn. eauto.
    + intros [Hl Hge]. split; [done|]. intros (w' & Hl' & ?). simplify_eq. lia.
  - intros tok v. rewrite map_lookup_filter_Some. cbn. apply and_iff_compat_l.
    destruct v as [|id]; cbn [sessionSurvives]; [naive_solver|].
    rewrite negb_true_iff, bool_decide_eq_false, Hst. naive_solver.
  - done.
  - intros tok Hn. change (workerSessions (dropStale st s) !! tok = None) in Hn. split.
    + intros t hb <-. unfold Heartbeat. by rewrite Hn.
    + intros t rw <-. unfold RegisterWorker. by rewrite Hn.
Qed.

Lemma reap_exact_witness :
  workerStates (reapStaleWorkers exRun.2 33 30) !! "w1" = None /\
  (forall t rw, rwSessionToken rw = "T1" ->
    RegisterWorker (reapStaleWorkers exRun.2 33 30) t rw = (false, reapStaleWorkers exRun.2 33 30)).
Proof.
  destruct (reap_exact exRun.2 33 30) as (_ & _ & _ & H).
  split; [vm_compute; reflexivity|]. apply (H "T1"). vm_compute. reflexivity.
Defined.

(** A validated configuration serves each tenant its own identity
    provider: ids are unique and not empty, [GetTenantIdP] answers each with
    the data of its entry, its JWTs are checked against the key source of its
    JWKS URL, and any other id is unknown. *)
Theorem tenants_served {K} (newKeyfunc : string -> result K) pubKey c s :
  Validate c = Ok tt -> NewScheduler newKeyfunc pubKey c = Ok s ->
  (forall t, t ∈ cfgTenants c -> tID t <> "" /\
    GetTenantIdP s (tID t) = Ok (mkGetTenantIdPResponse (tIssuer t) (tTokenURL t) (tAudience t)
      (tClientID t) (tScope t)) /\
    exists kf, newKeyfunc (tJWKSURL t) = Ok kf /\ taKeyfunc <$> tenantAuths s !! tID t = Some kf) /\
  (forall id, id ∉ map tID (cfgTenants c) -> GetTenantIdP s id = Err "unknown tenant").
Proof.
  intros Hv Hs. assert (validateTenants [] (cfgTenants c) = Ok tt) as Ht.
  { unfold Validate in Hv. do 7 (case_match; [done|]). apply rbind_Ok in Hv as (? & _ & Hv). done. }
  destruct (validateTenants_ids _ _ Ht) as [Hnd Hall]. rewrite Forall_forall in Hall.
  unfold NewScheduler in Hs. apply rbind_Ok in Hs as (m & Hm & [= <-]).
  destruct (newTenants_lookup newKeyfunc _ _ _ Hm Hnd) as [Hin Hout]. unfold GetTenantIdP. cbn. split.
  - intros t Hi. destruct (Hin t Hi) as (kf & Hk & ->). split_and!; [by apply Hall|done|by exists kf].
  - intros id Hi. by rewrite Hout, lookup_empty.
Qed.

Lemma tenants_served_witness :
  GetTenantIdP exStart "beta" = Ok (mkGetTenantIdPResponse "iss-beta" "tok-beta" "hpcc" "" "") /\
  GetTenantIdP exStart "gamma" = Err "unknown tenant".
Proof.
  destruct (tenants_served exKeyfunc "pk" exConfig exStart) as [H1 H2];
    [vm_compute; reflexivity|vm_compute; reflexivity|].
  split; [|apply H2; cbn; set_solver].
  apply (H1 (exTenant "beta")). cbn. set_solver.
Defined.

(** User sessions never expire.  No RPC and no reaper tick removes or
    rebinds a user session (a fresh token equal to it apart), so a session
    obtained with a JWT outlives the JWT for as long as the process runs. *)
Theorem user_sessions_permanent {K} (jwtParse : K -> Z -> string -> option (gmap string Claim)) signJWT
    s e r s' tok tenant :
  handle jwtParse signJWT s e = (r, s') -> userSessions s !! tok = Some tenant ->
  (forall now req, e <> EvAuthenticate now tok req) ->
  userSessions s' !! tok = Some tenant.
Proof.
  intros H Hl Hne. destruct e as [t|now f q|now o q|now q|now q|now tm]; cbn [handle] in H.
  - by simplify_eq.
  - unfold Authenticate in H. destruct (arToken q); repeat case_match; simplify_eq; try done.
    cbn. rewrite lookup_insert_ne; [done|]. intros ->. by eapply Hne.
  - destruct (Route signJWT s now o q) as [r0 s0] eqn:E. simplify_eq.
    apply Route_state in E as [->|(id & w & _ & ->)]; done.
  - unfold RegisterWorker in H. repeat case_match; by simplify_eq.
  - unfold Heartbeat in H. repeat case_match; by simplify_eq.
  - simplify_eq. by rewrite reap_dropStale.
Qed.

Lemma user_sessions_permanent_witness :
  userSessions (reapStaleWorkers exRun.2 (1000 * hour) 30) !! "U1" = Some "acme".
Proof.
  apply (user_sessions_permanent exParse exSign exRun.2 (EvReap (1000 * hour) 30) ReReap);
    [reflexivity|vm_compute; reflexivity|discriminate].
Defined.

(** Any worker can take over the id of another.  [RegisterWorker] does
    not ask whether the id is held by another session: here the session of
    w2 registers as w1, and a user of acme routed afterwards is sent to the
    address and certificate of w2 with a task token for w1. *)
Theorem register_takeover :
  let s1 := (RegisterWorker exRun.2 6 (exReg "T2" "w1" "evil" 0)).2 in
  workerSessions s1 !! "T1" = Some (SessionOf "w1") /\
  (Route exSign s1 7 (map_to_list (workerStates s1)) (mkRouteRequest "U1" "acme" "img")).1
  = Ok (mkRouteResponse "evil" "acme/w1" "fp-evil").
Proof. vm_compute. split; reflexivity. Qed.

(** The reaper can evict a live worker.  Its two passes are not atomic
    with the RPCs: a heartbeat accepted between the collection of stale ids
    and their deletion does not save the worker, which is gone, session
    included, although it reported just now. *)
Theorem reap_races_heartbeat :
  let stale := collectStale exRun.2 33 30 in
  let hb := mkWorkerHeartbeat "T1" "w1" 4 0 [] in
  let '(r, s1) := Heartbeat exRun.2 33 hb in
  let s2 := dropStale stale s1 in
  r = Ok tt /\ LastHeartbeat <$> workerStates s1 !! "w1" = Some 33%Z /\
  collectStale s1 33 30 = [] /\
  workerStates s2 !! "w1" = None /\ (Heartbeat s2 34 hb).1 = Err "unauthenticated".
Proof. vm_compute. split_and!; reflexivity. Qed.
