(* ===== verification/Pool.v ===== *)
(** * Pool: the container pool of [internal/worker/runtime/pool.go].

    Entries are shared objects: the slices of the pool and the handles given
    to callers point at them, so they live in a heap by address.  Each
    critical section of the mutex is one function from the state to the
    state, and [pstep] interleaves them in any order: [Start] is two
    sections with the inner runtime's [Start] between them, [Close] is one
    that closes and one that drains when nothing is outstanding.  The
    calls [Stop] of the inner containers are recorded in [stopLog]; their
    order across keys, which follows Go's map iteration, has no meaning.
    One clock value is used per critical section. *)

From S2P Require Import Prelude GoStrings.

(** A container of the inner runtime, with the tenant, the image and the
    number of virtual CPUs it was started with. *)
Record Container := mkContainer {
  ctID : nat;
  ctTenant : string;
  ctImage : string;
  ctVCPUs : Z
}.

Record ContainerSpec := mkContainerSpec {
  specTenantID : string;
  specImageDigest : string;
  specVCPUs : Z
}.

Record pooledEntry := mkPooledEntry {
  container : Container;
  createdAt : Z;
  refs : Z;
  maxRefs : Z;
  lastFreeT : Z
}.

(** [pooledContainer]: the handle [Start] returns; [wStopped] is its
    [sync.Once]. *)
Record pooledContainer := mkPooledContainer {
  wEntry : nat;
  wKey : string;
  wStopped : bool
}.

Record PooledRuntime := mkPool {
  idleTTL : Z;
  maxLifetime : Z;
  maxEntries : Z;
  heap : gmap nat pooledEntry;
  entries : gmap string (list nat);
  total : Z;
  closed : bool;
  drained : bool;
  wrappers : gmap nat pooledContainer;
  stopLog : list Container
}.

Definition set_entries (es : gmap string (list nat)) (tot : Z) (p : PooledRuntime) : PooledRuntime :=
  mkPool (idleTTL p) (maxLifetime p) (maxEntries p) (heap p) es tot (closed p) (drained p)
    (wrappers p) (stopLog p).
Definition set_heap (h : gmap nat pooledEntry) (p : PooledRuntime) : PooledRuntime :=
  mkPool (idleTTL p) (maxLifetime p) (maxEntries p) h (entries p) (total p) (closed p) (drained p)
    (wrappers p) (stopLog p).
Definition set_wrappers (ws : gmap nat pooledContainer) (p : PooledRuntime) : PooledRuntime :=
  mkPool (idleTTL p) (maxLifetime p) (maxEntries p) (heap p) (entries p) (total p) (closed p)
    (drained p) ws (stopLog p).
Definition set_closed (c d : bool) (p : PooledRuntime) : PooledRuntime :=
  mkPool (idleTTL p) (maxLifetime p) (maxEntries p) (heap p) (entries p) (total p) c d
    (wrappers p) (stopLog p).

(** [stopAll(cs)]. *)
Definition stopAll (cs : list Container) (p : PooledRuntime) : PooledRuntime :=
  mkPool (idleTTL p) (maxLifetime p) (maxEntries p) (heap p) (entries p) (total p) (closed p)
    (drained p) (wrappers p) (stopLog p ++ cs).

Definition NewPooledRuntime (idle life maxE : Z) : PooledRuntime :=
  mkPool idle life maxE ∅ ∅ 0 false false ∅ [].

Definition reaperInterval (p : PooledRuntime) : Z :=
  let half (ttl : Z) := (ttl / 2)%Z in
  if ((0 <? idleTTL p) && (0 <? maxLifetime p))%Z
  then half (if (maxLifetime p <? idleTTL p)%Z then maxLifetime p else idleTTL p)
  else if (0 <? idleTTL p)%Z then half (idleTTL p)
  else if (0 <? maxLifetime p)%Z then half (maxLifetime p)
  else 0%Z.

Definition poolKey (tenant image : string) : string := tenant +:+ "|" +:+ image.
Definition containerKey (c : Container) : string := poolKey (ctTenant c) (ctImage c).

(** The slice under a key; a missing key reads as the empty slice. *)
Definition slot (p : PooledRuntime) (key : string) : list nat := default [] (entries p !! key).

(** [p.entries\[key\] = l], or [delete] when [l] is empty. *)
Definition setSlot (key : string) (l : list nat) (es : gmap string (list nat)) : gmap string (list nat) :=
  match l with [] => delete key es | _ => <[key := l]> es end.

Definition entryOld (p : PooledRuntime) (now : Z) (e : pooledEntry) : bool :=
  ((0 <? maxLifetime p) && (maxLifetime p <? now - createdAt e))%Z.

Definition entryUsableLocked (p : PooledRuntime) (now : Z) (e : pooledEntry) : bool :=
  if (maxRefs e <=? refs e)%Z then false else negb (entryOld p now e).

Definition canReapLocked (p : PooledRuntime) (now : Z) (e : pooledEntry) : bool :=
  if (0 <? refs e)%Z then false
  else ((0 <? idleTTL p) && (idleTTL p <? now - lastFreeT e))%Z || entryOld p now e.

(** Tests and projections at an address. *)
Definition atAddr (f : pooledEntry -> bool) (p : PooledRuntime) (a : nat) : bool :=
  match heap p !! a with Some e => f e | None => false end.
Definition containerAt (p : PooledRuntime) (a : nat) : option Container := container <$> heap p !! a.

(** The containers a list of entries points at. *)
Definition containersOf (p : PooledRuntime) (l : list nat) : list Container := omap (containerAt p) l.

Definition reapable (p : PooledRuntime) (now : Z) (a : nat) : bool := atAddr (canReapLocked p now) p a.

Definition pruneStaleLocked (p : PooledRuntime) (now : Z) (key : string) : list Container * PooledRuntime :=
  let l := slot p key in
  let stale := List.filter (reapable p now) l in
  let kept := List.filter (fun a => negb (reapable p now a)) l in
  (containersOf p stale,
   set_entries (setSlot key kept (entries p)) (total p - Z.of_nat (length stale)) p).

(** [append(list\[:i\], list\[i+1:\]...)] for the first [i] that holds [a]. *)
Fixpoint removeAddr (a : nat) (l : list nat) : list nat :=
  match l with
  | [] => []
  | b :: l' => if decide (b = a) then l' else b :: removeAddr a l'
  end.

Definition removeEntryLocked (p : PooledRuntime) (key : string) (a : nat) : PooledRuntime :=
  if bool_decide (a ∈ slot p key)
  then set_entries (setSlot key (removeAddr a (slot p key)) (entries p)) (total p - 1) p
  else p.

(** The entries of the pool as (key, address) pairs, keys in [order]. *)
Definition pairs (p : PooledRuntime) (order : list string) : list (string * nat) :=
  concat (map (fun k => map (pair k) (slot p k)) order).

(** The body of the scan of [evictOldestFreeLocked]: the oldest free entry
    so far, with its time. *)
Definition olderFree (p : PooledRuntime) (best : option (string * nat * Z)) (ka : string * nat)
    : option (string * nat * Z) :=
  match heap p !! ka.2 with
  | None => best
  | Some e =>
      if negb (refs e =? 0)%Z then best
      else match best with
      | None => Some (ka, lastFreeT e)
      | Some (_, t) => if (lastFreeT e <? t)%Z then Some (ka, lastFreeT e) else best
      end
  end.

(** [evictOldestFreeLocked], the map visited in [order]; an entry occurs
    once in its slice, so its address stands for its index. *)
Definition evictOldestFreeLocked (p : PooledRuntime) (order : list string)
    : option Container * PooledRuntime :=
  match foldl (olderFree p) None (pairs p order) with
  | None => (None, p)
  | Some (k, a, _) =>
      (containerAt p a,
       set_entries (setSlot k (removeAddr a (slot p k)) (entries p)) (total p - 1) p)
  end.

Definition updRefs (f : Z -> Z) (e : pooledEntry) : pooledEntry :=
  mkPooledEntry (container e) (createdAt e) (f (refs e)) (maxRefs e) (lastFreeT e).
Definition stampFree (now : Z) (e : pooledEntry) : pooledEntry :=
  mkPooledEntry (container e) (createdAt e) (refs e) (maxRefs e) now.

Inductive startOutcome := StartClosed | StartHit (a : nat) | StartMiss.

(** The first critical section of [Start] and the stops that follow it; [w]
    is the new handle of a hit. *)
Definition startLock (p : PooledRuntime) (now : Z) (order : list string) (spec : ContainerSpec) (w : nat)
    : startOutcome * PooledRuntime :=
  let key := poolKey (specTenantID spec) (specImageDigest spec) in
  if closed p then (StartClosed, p)
  else let '(stale, p1) := pruneStaleLocked p now key in
  match List.find (atAddr (entryUsableLocked p1 now) p1) (slot p1 key) with
  | Some a =>
      (StartHit a,
       stopAll stale
         (set_wrappers (<[w := mkPooledContainer a key false]> (wrappers p1))
            (set_heap (alter (updRefs (fun r => r + 1)%Z) a (heap p1)) p1)))
  | None =>
      let '(evicted, p2) :=
        if ((0 <? maxEntries p1) && (maxEntries p1 <=? total p1))%Z
        then evictOldestFreeLocked p1 order else (None, p1) in
      (StartMiss, stopAll (option_list evicted) (stopAll stale p2))
  end.

(** The second critical section: the fresh container [c] becomes an entry at
    the new address [a], unless the pool was closed meanwhile. *)
Definition startCommit (p : PooledRuntime) (now : Z) (spec : ContainerSpec) (c : Container) (a w : nat)
    : result unit * PooledRuntime :=
  let key := poolKey (specTenantID spec) (specImageDigest spec) in
  let maxR := if (specVCPUs spec <? 1)%Z then 1%Z else specVCPUs spec in
  if closed p then (Err "pool: closed", stopAll [c] p)
  else (Ok tt,
        set_wrappers (<[w := mkPooledContainer a key false]> (wrappers p))
          (set_heap (<[a := mkPooledEntry c now 1 maxR now]> (heap p))
             (set_entries (setSlot key (slot p key ++ [a]) (entries p)) (total p + 1) p))).

(** [Start] with nothing between its sections; [inner] is the answer of the
    inner runtime. *)
Definition Start (p : PooledRuntime) (now : Z) (order : list string) (spec : ContainerSpec)
    (inner : result Container) (now' : Z) (a w : nat) : result unit * PooledRuntime :=
  match startLock p now order spec w with
  | (StartClosed, p') => (Err "pool: closed", p')
  | (StartHit _, p') => (Ok tt, p')
  | (StartMiss, p') =>
      match inner with
      | Err e => (Err e, p')
      | Ok c => startCommit p' now' spec c a w
      end
  end.

Definition release (p : PooledRuntime) (now : Z) (key : string) (a : nat) : PooledRuntime :=
  let p1 := set_heap (alter (updRefs (fun r => r - 1)%Z) a (heap p)) p in
  match heap p1 !! a with
  | None => p1
  | Some e =>
      if negb (refs e =? 0)%Z then p1
      else let p2 := set_heap (<[a := stampFree now e]> (heap p1)) p1 in
           if entryOld p2 now e then stopAll [container e] (removeEntryLocked p2 key a) else p2
  end.

(** [Stop] of a handle: only the first call releases. *)
Definition stopWrapper (p : PooledRuntime) (now : Z) (w : nat) : PooledRuntime :=
  match wrappers p !! w with
  | None => p
  | Some h =>
      if wStopped h then p
      else release (set_wrappers (<[w := mkPooledContainer (wEntry h) (wKey h) true]> (wrappers p)) p)
             now (wKey h) (wEntry h)
  end.

(** A slice after [evictExpired]; an empty one is deleted. *)
Definition keptSlot (f : nat -> bool) (l : list nat) : option (list nat) :=
  match List.filter f l with [] => None | l' => Some l' end.

Definition listed (p : PooledRuntime) : list nat := concat (map snd (map_to_list (entries p))).

Definition evictExpired (p : PooledRuntime) (now : Z) : PooledRuntime :=
  let toClose := List.filter (reapable p now) (listed p) in
  stopAll (containersOf p toClose)
    (set_entries (omap (keptSlot (fun a => negb (reapable p now a))) (entries p))
       (total p - Z.of_nat (length toClose)) p).

Definition outstandingLocked (p : PooledRuntime) : bool :=
  existsb (atAddr (fun e => (0 <? refs e)%Z) p) (listed p).

(** [Close]: the section that closes, and the one that takes the entries
    once nothing is outstanding. *)
Definition closeLock (p : PooledRuntime) : PooledRuntime := set_closed true (drained p) p.

Definition closeDrain (p : PooledRuntime) : PooledRuntime :=
  stopAll (containersOf p (listed p)) (set_entries ∅ 0 (set_closed true true p)).

(** The tenant [EntriesByTenant] counts a key under. *)
Definition keyTenant (key : string) : string :=
  match indexBy (Ascii.eqb "|"%char) key with Some i => stake i key | None => key end.

Definition EntriesByTenant (p : PooledRuntime) (tenant : string) : nat :=
  length (concat (map (fun kl => if String.eqb (keyTenant kl.1) tenant then kl.2 else [])
    (map_to_list (entries p)))).

(** ** Interleavings *)

(** The inner runtime: a container has the tenant, the image and the virtual
    CPUs of its spec, and is not one handed out before. *)
Definition freshFor (p : PooledRuntime) (spec : ContainerSpec) (c : Container) : Prop :=
  ctTenant c = specTenantID spec /\ ctImage c = specImageDigest spec /\ ctVCPUs c = specVCPUs spec /\
  (forall a e, heap p !! a = Some e -> ctID (container e) <> ctID c) /\
  (forall c', c' ∈ stopLog p -> ctID c' <> ctID c).

Inductive pstep : PooledRuntime -> PooledRuntime -> Prop :=
  | pstep_start p now order spec w r p' :
      wrappers p !! w = None ->
      order ≡ₚ map fst (map_to_list (entries (pruneStaleLocked p now
        (poolKey (specTenantID spec) (specImageDigest spec))).2)) ->
      startLock p now order spec w = (r, p') -> pstep p p'
  | pstep_commit p now spec c a w r p' :
      wrappers p !! w = None -> heap p !! a = None -> freshFor p spec c ->
      startCommit p now spec c a w = (r, p') -> pstep p p'
  | pstep_stop p now w : pstep p (stopWrapper p now w)
  | pstep_reap p now : pstep p (evictExpired p now)
  | pstep_close p : pstep p (closeLock p)
  | pstep_drain p :
      closed p = true -> drained p = false -> outstandingLocked p = false -> pstep p (closeDrain p).

Definition reachable (idle life maxE : Z) (p : PooledRuntime) : Prop :=
  rtc pstep (NewPooledRuntime idle life maxE) p.

(** ** Slices *)

(** All addresses of a slice map. *)
Definition flat (es : gmap string (list nat)) : list nat := concat (map snd (map_to_list es)).

Definition notIn (R : list nat) (a : nat) : bool := negb (bool_decide (a ∈ R)).

(** Every slice without the addresses [R]. *)
Definition dropAll (R : list nat) (es : gmap string (list nat)) : gmap string (list nat) :=
  omap (keptSlot (notIn R)) es.

Definition noEmpty (es : gmap string (list nat)) : Prop := forall k l, es !! k = Some l -> l <> [].

Lemma elem_of_Lfilter {A} (f : A -> bool) l a : a ∈ List.filter f l <-> a ∈ l /\ f a = true.
Proof. rewrite !list_elem_of_In. apply filter_In. Qed.

Lemma Lfilter_perm {A} (f : A -> bool) l1 l2 : l1 ≡ₚ l2 -> List.filter f l1 ≡ₚ List.filter f l2.
Proof.
  induction 1 as [|x l1 l2 _ IH|x y l|]; cbn; [done| |destruct (f x), (f y); (done || apply perm_swap)|by etrans].
  by destruct (f x); [f_equiv|].
Qed.

Lemma NoDup_Lfilter {A} (f : A -> bool) l : NoDup l -> NoDup (List.filter f l).
Proof.
  induction 1 as [|x l Hx Hl IH]; cbn; [constructor|]. destruct (f x); [|done].
  constructor; [|done]. rewrite elem_of_Lfilter. tauto.
Qed.

Lemma notIn_true R a : notIn R a = true <-> a ∉ R.
Proof. unfold notIn. by rewrite negb_true_iff, bool_decide_eq_false. Qed.

Lemma flat_insert es k l : es !! k = None -> flat (<[k := l]> es) ≡ₚ l ++ flat es.
Proof. intros H. unfold flat. by rewrite map_to_list_insert. Qed.

Lemma elem_of_flat es a : a ∈ flat es <-> exists k l, es !! k = Some l /\ a ∈ l.
Proof.
  induction es as [|k l es Hk IH] using map_ind.
  { unfold flat. rewrite map_to_list_empty. cbn. split; [set_solver|].
    intros (k & l & H & _). by rewrite lookup_empty in H. }
  rewrite flat_insert, elem_of_app, IH by done. split.
  - intros [H|(k' & l' & H & Ha)].
    + exists k, l. by rewrite lookup_insert_eq.
    + exists k', l'. rewrite lookup_insert_ne by congruence. done.
  - intros (k' & l' & [[-> ->]|[Hne H]]%lookup_insert_Some & Ha); [by left|]. right. eauto.
Qed.

Lemma flat_dropAll R es : flat (dropAll R es) ≡ₚ List.filter (notIn R) (flat es).
Proof.
  induction es as [|k l es Hk IH] using map_ind.
  { unfold dropAll, flat. by rewrite omap_empty, map_to_list_empty. }
  rewrite (Lfilter_perm (notIn R) _ _ (flat_insert es k l Hk)), List.filter_app, <- IH.
  assert (dropAll R es !! k = None) as Hn by (unfold dropAll; by rewrite lookup_omap, Hk).
  unfold dropAll at 1. destruct (keptSlot (notIn R) l) as [l'|] eqn:E; unfold keptSlot in E;
    destruct (List.filter (notIn R) l) as [|b t] eqn:Ef; simplify_eq.
  - rewrite (omap_insert_Some _ es k l (b :: t)) by (unfold keptSlot; by rewrite Ef).
    by apply flat_insert.
  - rewrite omap_insert_None by (unfold keptSlot; by rewrite Ef).
    fold (dropAll R es). by rewrite delete_id.
Qed.

Lemma dropAll_noEmpty R es : noEmpty (dropAll R es).
Proof.
  intros k l. unfold dropAll. rewrite lookup_omap. destruct (es !! k) as [l0|]; [|done]. cbn.
  unfold keptSlot. destruct (List.filter _ _); [done|]. by intros [= <-].
Qed.

Lemma filter_all {A} (f : A -> bool) l : (forall a, a ∈ l -> f a = true) -> List.filter f l = l.
Proof.
  induction l as [|a l IH]; intros H; cbn; [done|]. rewrite H by set_solver. f_equal. apply IH. set_solver.
Qed.

(** Rewriting one slice is dropping addresses that only it holds. *)
Lemma setSlot_dropAll es k l R :
  noEmpty es -> es !! k = Some l ->
  (forall k2 l2 a, k2 <> k -> es !! k2 = Some l2 -> a ∈ l2 -> a ∉ R) ->
  setSlot k (List.filter (notIn R) l) es = dropAll R es.
Proof.
  intros Hne Hk Hd. apply map_eq. intros i. unfold dropAll. rewrite lookup_omap.
  destruct (decide (i = k)) as [->|Hi].
  - rewrite Hk. cbn. unfold keptSlot, setSlot. destruct (List.filter (notIn R) l).
    + apply lookup_delete_eq.
    + apply lookup_insert_eq.
  - assert (setSlot k (List.filter (notIn R) l) es !! i = es !! i) as ->.
    { unfold setSlot. destruct (List.filter (notIn R) l);
        [by apply lookup_delete_ne|by apply lookup_insert_ne]. }
    destruct (es !! i) as [l2|] eqn:E; [|done]. cbn. unfold keptSlot. rewrite filter_all.
    + destruct l2; [by apply Hne in E|done].
    + intros a Ha. apply notIn_true. by eapply Hd.
Qed.

Lemma removeAddr_filter a l : NoDup l -> removeAddr a l = List.filter (notIn [a]) l.
Proof.
  induction 1 as [|b l Hb Hl IH]; cbn; [done|].
  assert (notIn [a] b = negb (bool_decide (b = a))) as ->.
  { unfold notIn. f_equal. apply bool_decide_ext. set_solver. }
  destruct (decide (b = a)) as [->|Hn].
  - rewrite bool_decide_eq_true_2 by done. cbn. symmetry. apply filter_all.
    intros c Hc. apply notIn_true. set_solver.
  - rewrite bool_decide_eq_false_2 by done. cbn. by f_equal.
Qed.

(** ** The invariant *)

Definition holds (a : nat) (h : pooledContainer) : Prop := wEntry h = a /\ wStopped h = false.
#[global] Instance holds_dec a h : Decision (holds a h).
Proof. unfold holds. apply _. Defined.

(** How many live handles point at an entry. *)
Definition holders (p : PooledRuntime) (a : nat) : nat :=
  size (filter (fun wh => holds a wh.2) (wrappers p)).

Definition stoppedIDs (p : PooledRuntime) : list nat := map ctID (stopLog p).

(** An entry is shared by no more handles than its container has virtual CPUs,
    or by one. *)
Definition withinCap (e : pooledEntry) : Prop :=
  (refs e <= maxRefs e)%Z /\ maxRefs e = Z.max 1 (ctVCPUs (container e)).

Record PoolInv (p : PooledRuntime) : Prop := {
  inv_nodup : NoDup (listed p);
  inv_total : total p = Z.of_nat (length (listed p));
  inv_ne : noEmpty (entries p);
  inv_slot k a : a ∈ slot p k -> exists e, heap p !! a = Some e /\ containerKey (container e) = k;
  inv_refs a e : heap p !! a = Some e -> refs e = Z.of_nat (holders p a) /\ withinCap e;
  inv_live w h : wrappers p !! w = Some h -> wStopped h = false -> wEntry h ∈ slot p (wKey h);
  inv_ids a1 a2 e1 e2 : heap p !! a1 = Some e1 -> heap p !! a2 = Some e2 ->
    ctID (container e1) = ctID (container e2) -> a1 = a2;
  inv_stops : NoDup (stoppedIDs p);
  inv_split a e : heap p !! a = Some e ->
    (a ∈ listed p /\ ctID (container e) ∉ stoppedIDs p) \/
    (a ∉ listed p /\ ctID (container e) ∈ stoppedIDs p);
  inv_drained : drained p = true -> closed p = true /\ entries p = ∅
}.

Lemma elem_of_slot p k a : a ∈ slot p k <-> exists l, entries p !! k = Some l /\ a ∈ l.
Proof. unfold slot. destruct (entries p !! k) as [l|]; cbn; [naive_solver|set_solver]. Qed.

Lemma elem_of_listed p a : a ∈ listed p <-> exists k, a ∈ slot p k.
Proof. change (listed p) with (flat (entries p)). rewrite elem_of_flat. setoid_rewrite elem_of_slot. done. Qed.

Lemma slot_unique p k1 k2 a : PoolInv p -> a ∈ slot p k1 -> a ∈ slot p k2 -> k1 = k2.
Proof.
  intros I H1 H2. destruct (inv_slot _ I _ _ H1) as (e & He & <-).
  destruct (inv_slot _ I _ _ H2) as (e' & He' & <-). congruence.
Qed.

(** A live handle keeps its entry referenced. *)
Lemma live_refs p w h e :
  PoolInv p -> wrappers p !! w = Some h -> wStopped h = false -> heap p !! wEntry h = Some e ->
  (0 < refs e)%Z.
Proof.
  intros I Hw Hs He. destruct (inv_refs _ I _ _ He) as [-> _]. unfold holders.
  assert (filter (fun wh => holds (wEntry h) wh.2) (wrappers p) !! w = Some h) as Hin
    by (apply map_lookup_filter_Some_2; done).
  assert (size (filter (fun wh => holds (wEntry h) wh.2) (wrappers p)) <> 0) as Hsz.
  { intros E%map_size_empty_inv. by rewrite E, lookup_empty in Hin. }
  lia.
Qed.

Lemma elem_of_containersOf p l c : c ∈ containersOf p l <-> exists a e, a ∈ l /\ heap p !! a = Some e /\ container e = c.
Proof.
  unfold containersOf. rewrite list_elem_of_omap. unfold containerAt. split.
  - intros (a & Ha & H). apply fmap_Some in H as (e & He & ->). eauto.
  - intros (a & e & Ha & He & <-). exists a. by rewrite He.
Qed.

Lemma containersOf_ids p l :
  PoolInv p -> NoDup l -> NoDup (map ctID (containersOf p l)).
Proof.
  intros I. unfold containersOf. induction 1 as [|a l Ha Hl IH]; cbn; [constructor|].
  destruct (containerAt p a) as [c|] eqn:E; [|done]. cbn. constructor; [|done].
  unfold containerAt in E. apply fmap_Some in E as (e & He & ->).
  intros (c & Hc & Hin)%list_elem_of_fmap. apply elem_of_containersOf in Hin as (a' & e' & Ha' & He' & <-).
  by rewrite (inv_ids _ I a a' e e') in Ha.
Qed.

(** Taking free entries out of the pool and stopping their containers. *)
Lemma inv_shed p R cs n :
  PoolInv p -> NoDup R -> (forall a, a ∈ R -> a ∈ listed p /\ exists e, heap p !! a = Some e /\ refs e = 0%Z) ->
  cs ≡ₚ containersOf p R -> n = Z.of_nat (length R) ->
  PoolInv (stopAll cs (set_entries (dropAll R (entries p)) (total p - n) p)).
Proof.
  intros I HR Hfree Hcs ->. set (p' := stopAll _ _).
  assert (listed p' ≡ₚ List.filter (notIn R) (listed p)) as Hl by apply flat_dropAll.
  assert (forall a, a ∈ listed p' <-> a ∈ listed p /\ a ∉ R) as Hin
    by (intros a; by rewrite Hl, elem_of_Lfilter, notIn_true).
  assert (forall k a, a ∈ slot p' k <-> a ∈ slot p k /\ a ∉ R) as Hslot.
  { intros k a. rewrite !elem_of_slot. cbn [p' stopAll set_entries entries]. unfold dropAll.
    rewrite lookup_omap. destruct (entries p !! k) as [l|]; cbn; [|naive_solver].
    unfold keptSlot. rewrite <- notIn_true. split.
    - intros (l' & E & Ha). assert (a ∈ List.filter (notIn R) l) as Hf
        by (destruct (List.filter (notIn R) l); naive_solver).
      apply elem_of_Lfilter in Hf. naive_solver.
    - intros ((l' & [= <-] & Ha) & Hn). assert (a ∈ List.filter (notIn R) l) as Hf
        by (by apply elem_of_Lfilter).
      destruct (List.filter (notIn R) l) as [|b t]; [set_solver|]. eauto. }
  assert (stoppedIDs p' = stoppedIDs p ++ map ctID cs) as Hst by (unfold stoppedIDs; cbn; by rewrite map_app).
  assert (forall i, i ∈ map ctID cs <-> exists a e, a ∈ R /\ heap p !! a = Some e /\ ctID (container e) = i) as Hids.
  { intros i. rewrite list_elem_of_fmap. setoid_rewrite Hcs. setoid_rewrite elem_of_containersOf. naive_solver. }
  destruct I as [I1 I2 I3 I4 I5 I6 I7 I8 I9 I10]. assert (I : PoolInv p) by done. split.
  - rewrite Hl. by apply NoDup_Lfilter.
  - cbn [p' stopAll set_entries total]. rewrite Hl, I2.
    assert (List.filter (fun a => negb (notIn R a)) (listed p) ≡ₚ R) as HR'.
    { apply NoDup_Permutation; [by apply NoDup_Lfilter|done|]. intros a. rewrite elem_of_Lfilter.
      unfold notIn. rewrite negb_involutive, bool_decide_eq_true. split; [tauto|]. intros Ha.
      split; [by apply Hfree|done]. }
    rewrite <- (filter_length (notIn R) (listed p)), HR'. lia.
  - apply dropAll_noEmpty.
  - intros k a [Ha _]%Hslot. by apply I4.
  - exact I5.
  - intros w h Hw Hs. apply Hslot. split; [by apply (I6 w)|]. intros HinR.
    destruct (Hfree _ HinR) as (_ & e & He & H0). pose proof (live_refs p w h e I Hw Hs He). lia.
  - exact I7.
  - rewrite Hst. apply NoDup_app. split_and!; [done| |].
    + intros i Hi (a & e & Ha & He & <-)%Hids. destruct (I9 a e He) as [[_ ?]|[Hn _]]; [done|].
      destruct (Hfree a Ha). done.
    + rewrite Hcs. by apply containersOf_ids.
  - intros a e He. rewrite Hin, Hst, elem_of_app, Hids. cbn in He.
    destruct (I9 a e He) as [[Hli Hns]|[Hnl Hs]]; [|naive_solver].
    destruct (decide (a ∈ R)) as [Ha|Ha]; [right; naive_solver|]. left. split; [done|].
    intros [?|(a' & e' & Ha' & He' & E)]; [done|]. by rewrite (I7 a a' e e') in Ha.
  - intros Hd. destruct (I10 Hd) as [? He]. split; [done|]. cbn. rewrite He. apply omap_empty.
Qed.

Lemma slot_listed p k a : a ∈ slot p k -> a ∈ listed p.
Proof. intros H. apply elem_of_listed. eauto. Qed.

Lemma filter_notIn_self (f : nat -> bool) l0 l :
  (forall a, a ∈ l -> f a = true -> a ∈ l0) ->
  List.filter (fun a => negb (f a)) l = List.filter (notIn (List.filter f l0)) l.
Proof.
  intros H. apply filter_ext_in. intros a Ha%list_elem_of_In. unfold notIn. f_equal.
  destruct (f a) eqn:E.
  - symmetry. apply bool_decide_eq_true_2, elem_of_Lfilter. auto.
  - symmetry. apply bool_decide_eq_false_2. rewrite elem_of_Lfilter. intros [_ ?]. congruence.
Qed.

Lemma dropAll_nil es : noEmpty es -> dropAll [] es = es.
Proof.
  intros Hne. apply map_eq. intros k. unfold dropAll. rewrite lookup_omap.
  destruct (es !! k) as [l|] eqn:E; [|done]. cbn. unfold keptSlot. rewrite filter_all.
  - destruct l; [by apply Hne in E|done].
  - intros a _. apply notIn_true, not_elem_of_nil.
Qed.

(** Slices of one key rewritten by a test are addresses dropped everywhere. *)
Lemma slot_dropAll p k R :
  PoolInv p -> (forall a, a ∈ R -> a ∈ slot p k) ->
  setSlot k (List.filter (notIn R) (slot p k)) (entries p) = dropAll R (entries p).
Proof.
  intros I HR. destruct (entries p !! k) as [l|] eqn:E.
  - assert (slot p k = l) as Hs by (unfold slot; by rewrite E). rewrite Hs in *.
    apply setSlot_dropAll; [by apply I|done|]. intros k2 l2 a Hne H2 Ha HaR. apply Hne.
    apply (slot_unique p k2 k a I); [|rewrite Hs; by apply HR].
    apply elem_of_slot. eauto.
  - assert (slot p k = []) as Hs by (unfold slot; by rewrite E). rewrite Hs in *. cbn.
    assert (R = []) as -> by (destruct R as [|a R]; [done|]; exfalso; set_solver).
    rewrite dropAll_nil by apply I. by apply delete_id.
Qed.

Lemma NoDup_slot p k : PoolInv p -> NoDup (slot p k).
Proof.
  intros I. pose proof (inv_nodup _ I) as H. unfold slot. destruct (entries p !! k) as [l|] eqn:E; [|constructor].
  cbn. change (listed p) with (flat (entries p)) in H.
  rewrite <- (insert_id _ _ _ E), <- insert_delete_eq, flat_insert in H by apply lookup_delete_eq.
  by apply NoDup_app in H as [? _].
Qed.

Lemma reapable_free p now a :
  PoolInv p -> reapable p now a = true -> exists e, heap p !! a = Some e /\ refs e = 0%Z.
Proof.
  intros I. unfold reapable, atAddr. destruct (heap p !! a) as [e|] eqn:E; [|done].
  unfold canReapLocked. destruct (Z.ltb_spec 0 (refs e)); [done|]. intros _. exists e. split; [done|].
  destruct (inv_refs _ I _ _ E). lia.
Qed.

Lemma inv_prune p now key :
  PoolInv p -> PoolInv (stopAll (pruneStaleLocked p now key).1 (pruneStaleLocked p now key).2).
Proof.
  intros I. unfold pruneStaleLocked. cbn [fst snd].
  rewrite (filter_notIn_self (reapable p now) (slot p key)) by done.
  rewrite slot_dropAll; [|done|intros a [? _]%elem_of_Lfilter; done].
  apply inv_shed; [done|by apply NoDup_Lfilter, NoDup_slot| |done|done].
  intros a [Ha Hr]%elem_of_Lfilter. split; [by eapply slot_listed|by eapply reapable_free].
Qed.

Lemma inv_evictExpired p now : PoolInv p -> PoolInv (evictExpired p now).
Proof.
  intros I. unfold evictExpired.
  assert (omap (keptSlot (fun a => negb (reapable p now a))) (entries p)
    = dropAll (List.filter (reapable p now) (listed p)) (entries p)) as ->.
  { apply map_eq. intros k. unfold dropAll. rewrite !lookup_omap.
    destruct (entries p !! k) as [l|] eqn:E; [|done]. cbn. unfold keptSlot.
    rewrite (filter_notIn_self _ (listed p)); [done|].
    intros a Ha _. apply elem_of_listed. exists k. apply elem_of_slot. eauto. }
  apply inv_shed; [done|apply NoDup_Lfilter, I| |done|done].
  intros a [Ha Hr]%elem_of_Lfilter. split; [done|by eapply reapable_free].
Qed.

(** Removing one free entry. *)
Lemma inv_remove p k a e :
  PoolInv p -> a ∈ slot p k -> heap p !! a = Some e -> refs e = 0%Z ->
  PoolInv (stopAll [container e]
    (set_entries (setSlot k (removeAddr a (slot p k)) (entries p)) (total p - 1) p)).
Proof.
  intros I Ha He H0. rewrite removeAddr_filter by by apply NoDup_slot.
  rewrite slot_dropAll; [|done|set_solver].
  apply (inv_shed p [a]); [done|apply NoDup_singleton| |by cbn; unfold containerAt; rewrite He|done].
  intros a' ->%list_elem_of_singleton. split; [by eapply slot_listed|eauto].
Qed.

Definition freeAt (p : PooledRuntime) (a : nat) (t : Z) : Prop :=
  exists e, heap p !! a = Some e /\ refs e = 0%Z /\ lastFreeT e = t.

Lemma oldest_fold p l best :
  match foldl (olderFree p) best l with
  | None => best = None /\ forall ka t, ka ∈ l -> ~ freeAt p ka.2 t
  | Some (ka, t) =>
      (best = Some (ka, t) \/ (ka ∈ l /\ freeAt p ka.2 t)) /\
      (forall ka' t', ka' ∈ l -> freeAt p ka'.2 t' -> (t <= t')%Z) /\
      (forall ka0 t0, best = Some (ka0, t0) -> (t <= t0)%Z)
  end.
Proof.
  revert best. induction l as [|x l IH]; intros best; cbn [foldl].
  { destruct best as [[ka t]|]; [|split; [done|set_solver]].
    split_and!; [by left|set_solver|]. intros ? ? [= <- <-]. lia. }
  specialize (IH (olderFree p best x)).
  assert (forall t, freeAt p x.2 t -> exists ka0 t0, olderFree p best x = Some (ka0, t0) /\ (t0 <= t)%Z) as Hx.
  { intros t (e & He & H0 & <-). unfold olderFree. rewrite He, H0. cbn.
    destruct best as [[ka0 t0]|]; [|by eexists _, _].
    destruct (Z.ltb_spec (lastFreeT e) t0); eexists _, _; split; try done; lia. }
  assert (olderFree p best x = best \/ exists t, freeAt p x.2 t /\ olderFree p best x = Some (x, t) /\
    forall ka0 t0, best = Some (ka0, t0) -> (t < t0)%Z) as Hb.
  { unfold olderFree. destruct (heap p !! x.2) as [e|] eqn:He; [|by left].
    destruct (Z.eqb_spec (refs e) 0); [|by left]. cbn.
    destruct best as [[ka0 t0]|]; [|right; exists (lastFreeT e); split_and!; [by exists e|done|done]].
    destruct (Z.ltb_spec (lastFreeT e) t0); [|by left]. right. exists (lastFreeT e).
    split_and!; [by exists e|done|]. by intros ? ? [= <- <-]. }
  destruct (foldl (olderFree p) (olderFree p best x) l) as [[ka t]|].
  - destruct IH as (H1 & H2 & H3). split_and!.
    + destruct H1 as [H1|[? ?]]; [|right; set_solver].
      destruct Hb as [Hb|(t1 & Hf & Hb & _)]; [left; congruence|].
      rewrite Hb in H1. simplify_eq. right. set_solver.
    + intros ka' t' [->|Hin]%elem_of_cons Hf; [|by eapply H2].
      destruct (Hx _ Hf) as (ka0 & t0 & E & Hle). specialize (H3 _ _ E). lia.
    + intros ka0 t0 E. destruct Hb as [Hb|(t1 & _ & Hb & Hlt)].
      * rewrite Hb in H3. by eapply H3.
      * specialize (H3 _ _ Hb). specialize (Hlt _ _ E). lia.
  - destruct IH as [Hn Hall]. split.
    + destruct Hb as [Hb|(t1 & _ & Hb & _)]; congruence.
    + intros ka t [->|Hin]%elem_of_cons; [|by apply Hall].
      intros Hf. destruct (Hx _ Hf) as (? & ? & E & _). congruence.
Qed.

Lemma elem_of_pairs p order k a : (k, a) ∈ pairs p order <-> k ∈ order /\ a ∈ slot p k.
Proof.
  unfold pairs. induction order as [|k' order IH]; cbn; [set_solver|].
  rewrite elem_of_app, IH, list_elem_of_fmap. set_solver.
Qed.

Lemma inv_evictOldest p order :
  PoolInv p ->
  PoolInv (stopAll (option_list (evictOldestFreeLocked p order).1) (evictOldestFreeLocked p order).2).
Proof.
  intros I. unfold evictOldestFreeLocked. pose proof (oldest_fold p (pairs p order) None) as H.
  destruct (foldl (olderFree p) None (pairs p order)) as [[[k a] t]|]; cbn [fst snd].
  - destruct H as ([H|[Hin (e & He & H0 & _)]] & _); [done|]. apply elem_of_pairs in Hin as [_ Ha].
    cbn [snd] in He. unfold containerAt. rewrite He. by apply inv_remove.
  - unfold stopAll. cbn. rewrite app_nil_r. by destruct p.
Qed.

(** *** References *)

Lemma holders_new p w a k :
  wrappers p !! w = None ->
  forall a', holders (set_wrappers (<[w := mkPooledContainer a k false]> (wrappers p)) p) a'
             = (if decide (a' = a) then 1 else 0) + holders p a'.
Proof.
  intros Hw a'. unfold holders. cbn [wrappers set_wrappers].
  destruct (decide (a' = a)) as [->|Hne].
  - rewrite map_filter_insert_True by done. rewrite map_size_insert_None; [done|].
    apply map_lookup_filter_None_2. by left.
  - rewrite map_filter_insert_False by (intros [E _]; cbn in E; congruence).
    by rewrite delete_id by done.
Qed.

Lemma holders_stop p w h :
  wrappers p !! w = Some h -> wStopped h = false ->
  forall a', holders p a'
    = (if decide (a' = wEntry h) then 1 else 0)
      + holders (set_wrappers (<[w := mkPooledContainer (wEntry h) (wKey h) true]> (wrappers p)) p) a'.
Proof.
  intros Hw Hs a'. unfold holders. cbn [wrappers set_wrappers].
  rewrite map_filter_insert_False by (intros [_ E]; done).
  rewrite <- (insert_id _ _ _ Hw) at 1. rewrite <- insert_delete_eq.
  destruct (decide (a' = wEntry h)) as [->|Hne].
  - rewrite map_filter_insert_True by done. rewrite map_size_insert_None; [done|].
    apply map_lookup_filter_None_2. left. apply lookup_delete_eq.
  - rewrite map_filter_insert_False by (intros [E _]; cbn in E; congruence).
    by rewrite delete_delete_eq.
Qed.

(** Changing counts and handles, the entries and containers kept. *)
Lemma inv_rewire p h ws :
  PoolInv p -> (forall a, containerAt (set_heap h p) a = containerAt p a) ->
  (forall a e, h !! a = Some e ->
    refs e = Z.of_nat (holders (set_wrappers ws p) a) /\ withinCap e) ->
  (forall w hd, ws !! w = Some hd -> wStopped hd = false -> wEntry hd ∈ slot p (wKey hd)) ->
  PoolInv (set_wrappers ws (set_heap h p)).
Proof.
  intros I Hc Hr Hl.
  assert (forall a e, h !! a = Some e -> exists e0, heap p !! a = Some e0 /\ container e = container e0) as Hold.
  { intros a e He. specialize (Hc a). unfold containerAt in Hc. cbn in Hc. rewrite He in Hc.
    symmetry in Hc. apply fmap_Some in Hc as (e0 & ? & ?). eauto. }
  destruct I as [I1 I2 I3 I4 I5 I6 I7 I8 I9 I10]. split; try done; cbn [heap set_wrappers set_heap].
  - intros k a Ha. destruct (I4 k a Ha) as (e0 & He0 & Hk). specialize (Hc a). unfold containerAt in Hc.
    cbn in Hc. rewrite He0 in Hc. apply fmap_Some in Hc as (e & He & E). exists e. rewrite <- E. done.
  - intros a1 a2 e1 e2 H1 H2 E. destruct (Hold _ _ H1) as (f1 & F1 & E1).
    destruct (Hold _ _ H2) as (f2 & F2 & E2). apply (I7 a1 a2 f1 f2 F1 F2). congruence.
  - intros a e He. destruct (Hold _ _ He) as (e0 & He0 & ->). by apply I9.
Qed.

Lemma alter_container p f a a' :
  (forall e, container (f e) = container e) ->
  containerAt (set_heap (alter f a (heap p)) p) a' = containerAt p a'.
Proof.
  intros Hf. unfold containerAt. cbn. destruct (decide (a' = a)) as [->|Hne].
  - rewrite lookup_alter_eq. destruct (heap p !! a); cbn; [by rewrite Hf|done].
  - by rewrite lookup_alter_ne.
Qed.

Lemma inv_hit p now a k w :
  PoolInv p -> wrappers p !! w = None -> a ∈ slot p k -> atAddr (entryUsableLocked p now) p a = true ->
  PoolInv (set_wrappers (<[w := mkPooledContainer a k false]> (wrappers p))
    (set_heap (alter (updRefs (fun r => r + 1)%Z) a (heap p)) p)).
Proof.
  intros I Hw Ha Hu. apply inv_rewire; [done|intros; by apply alter_container| |].
  - intros a' e. rewrite holders_new by done. destruct (decide (a' = a)) as [->|Hne].
    + rewrite lookup_alter_eq. unfold atAddr in Hu. destruct (heap p !! a) as [e0|] eqn:E; [|done].
      intros [= <-]. unfold withinCap. cbn [updRefs refs maxRefs container].
      destruct (inv_refs _ I _ _ E) as [Hr [Hle Hcap]].
      unfold entryUsableLocked in Hu. destruct (Z.leb_spec (maxRefs e0) (refs e0)); [done|]. lia.
    + rewrite lookup_alter_ne by done. apply (inv_refs _ I).
  - intros w' hd [[<- <-]|[Hne H]]%lookup_insert_Some Hs; [done|]. by apply (inv_live _ I w').
Qed.

Lemma inv_unhold p w h :
  PoolInv p -> wrappers p !! w = Some h -> wStopped h = false ->
  PoolInv (set_wrappers (<[w := mkPooledContainer (wEntry h) (wKey h) true]> (wrappers p))
    (set_heap (alter (updRefs (fun r => r - 1)%Z) (wEntry h) (heap p)) p)).
Proof.
  intros I Hw Hs. apply inv_rewire; [done|intros; by apply alter_container| |].
  - intros a' e. pose proof (holders_stop p w h Hw Hs a') as Hh. destruct (decide (a' = wEntry h)) as [->|Hne].
    + rewrite lookup_alter_eq. destruct (heap p !! wEntry h) as [e0|] eqn:E; [|done].
      intros [= <-]. unfold withinCap. cbn [updRefs refs maxRefs container].
      destruct (inv_refs _ I _ _ E) as [Hr [Hle Hcap]]. lia.
    + rewrite lookup_alter_ne by done. cbn in Hh. rewrite <- Hh. apply (inv_refs _ I).
  - intros w' hd [[<- <-]|[Hne H]]%lookup_insert_Some Hs'; [done|]. by apply (inv_live _ I w').
Qed.

Lemma inv_stamp p a e now :
  PoolInv p -> heap p !! a = Some e -> PoolInv (set_heap (<[a := stampFree now e]> (heap p)) p).
Proof.
  intros I He.
  assert (set_heap (<[a := stampFree now e]> (heap p)) p
    = set_wrappers (wrappers p) (set_heap (<[a := stampFree now e]> (heap p)) p)) as -> by done.
  apply inv_rewire; [done| | |by apply I].
  - intros a'. unfold containerAt. cbn. destruct (decide (a' = a)) as [->|Hne].
    + by rewrite lookup_insert_eq, He.
    + by rewrite lookup_insert_ne.
  - assert (set_wrappers (wrappers p) p = p) as -> by (by destruct p).
    intros a' e' [[<- <-]|[Hne H]]%lookup_insert_Some; [|by apply (inv_refs _ I)].
    cbn. apply (inv_refs _ I _ _ He).
Qed.

Lemma inv_startLock p now order spec w r p' :
  PoolInv p -> wrappers p !! w = None -> startLock p now order spec w = (r, p') -> PoolInv p'.
Proof.
  intros I Hw H. unfold startLock in H. destruct (closed p); [by simplify_eq|].
  set (key := poolKey _ _) in H. pose proof (inv_prune p now key I) as I1.
  assert (wrappers (pruneStaleLocked p now key).2 !! w = None) as Hw1 by done.
  destruct (pruneStaleLocked p now key) as [stale p1]. cbn [fst snd] in I1, Hw1.
  destruct (List.find _ _) as [a|] eqn:Ef.
  - simplify_eq. apply find_some in Ef as [Hin Hu]. apply list_elem_of_In in Hin.
    exact (inv_hit (stopAll stale p1) now a key w I1 Hw1 Hin Hu).
  - destruct ((0 <? maxEntries p1) && (maxEntries p1 <=? total p1))%Z; simplify_eq.
    + pose proof (inv_evictOldest (stopAll stale p1) order I1) as I2.
      assert (evictOldestFreeLocked (stopAll stale p1) order
        = ((evictOldestFreeLocked p1 order).1, stopAll stale (evictOldestFreeLocked p1 order).2)) as E.
      { unfold evictOldestFreeLocked. change (pairs (stopAll stale p1) order) with (pairs p1 order).
        change (olderFree (stopAll stale p1)) with (olderFree p1).
        destruct (foldl (olderFree p1) None (pairs p1 order)) as [[[k a] t]|]; done. }
      rewrite E in I2. destruct (evictOldestFreeLocked p1 order). by simplify_eq.
    + unfold stopAll in *. cbn in *. by rewrite app_nil_r.
Qed.

Lemma setSlot_snoc es k l a : setSlot k (l ++ [a]) es = <[k := l ++ [a]]> es.
Proof. unfold setSlot. by destruct l. Qed.

Lemma flat_setSlot es k a :
  flat (<[k := default [] (es !! k) ++ [a]]> es) ≡ₚ a :: flat es.
Proof.
  rewrite <- insert_delete_eq, flat_insert by apply lookup_delete_eq.
  destruct (es !! k) as [l|] eqn:E; cbn.
  - assert (flat es ≡ₚ l ++ flat (delete k es)) as ->.
    { rewrite <- (flat_insert (delete k es) k l) by apply lookup_delete_eq.
      by rewrite insert_delete_eq, insert_id. }
    solve_Permutation.
  - by rewrite delete_id.
Qed.

Lemma inv_commit p now spec c a w r p' :
  PoolInv p -> wrappers p !! w = None -> heap p !! a = None -> freshFor p spec c ->
  startCommit p now spec c a w = (r, p') -> PoolInv p'.
Proof.
  intros I Hw Ha (Ht & Hi & Hv & Hfh & Hfs) H. unfold startCommit in H.
  set (key := poolKey _ _) in H. destruct (closed p) eqn:Ecl; simplify_eq.
  - destruct I as [I1 I2 I3 I4 I5 I6 I7 I8 I9 I10]. split; try done.
    + unfold stoppedIDs. cbn. rewrite map_app. apply NoDup_app. split_and!; [done| |apply NoDup_singleton].
      intros i (c' & -> & Hc')%list_elem_of_fmap. apply Hfs in Hc'. set_solver.
    + intros a' e He. specialize (Hfh _ _ He). unfold stoppedIDs. cbn. rewrite map_app, elem_of_app.
      destruct (I9 a' e He) as [[? ?]|[? ?]]; [left|right; by split; [|left]].
      split; [done|]. unfold stoppedIDs in *. cbn. set_solver.
  - set (e := mkPooledEntry _ _ _ _ _). rewrite setSlot_snoc. set (p' := set_wrappers _ _).
    assert (forall b, b ∈ listed p -> b <> a) as Hnl.
    { intros b Hb ->. apply elem_of_listed in Hb as [k Hb]. destruct (inv_slot _ I _ _ Hb) as (? & ? & _).
      congruence. }
    assert (listed p' ≡ₚ a :: listed p) as Hl by apply flat_setSlot.
    assert (forall k b, b ∈ slot p' k <-> b ∈ slot p k \/ (k = key /\ b = a)) as Hslot.
    { intros k b. unfold slot at 1. cbn [p' set_wrappers set_heap set_entries entries].
      destruct (decide (k = key)) as [->|Hne].
      - rewrite lookup_insert_eq. cbn. fold (slot p key). rewrite elem_of_app. set_solver.
      - rewrite lookup_insert_ne by done. fold (slot p k). naive_solver. }
    assert (forall b, b <> a -> holders p' b = holders p b) as Hho.
    { intros b Hb. unfold p'. pose proof (holders_new p w a key Hw b) as E.
      unfold holders in *. cbn in *. by rewrite decide_False in E. }
    assert (holders p a = 0) as Hh0.
    { unfold holders. apply map_size_empty_iff, map_empty. intros w'.
      apply map_lookup_filter_None_2. right. intros hd Hhd [<- Hs]. cbn in *.
      pose proof (inv_live _ I _ _ Hhd Hs) as Hin. by apply slot_listed, Hnl in Hin. }
    destruct I as [I1 I2 I3 I4 I5 I6 I7 I8 I9 I10]. split.
    + rewrite Hl. constructor; [|done]. intros Hb. by apply Hnl in Hb.
    + cbn [p' set_wrappers set_heap set_entries total]. rewrite Hl, I2. cbn. lia.
    + intros k l H. cbn in H. apply lookup_insert_Some in H as [[<- <-]|[Hne E]];
        [by destruct (slot p key)|by eapply I3].
    + intros k b [Hb|[-> ->]]%Hslot.
      * destruct (I4 k b Hb) as (e0 & He0 & Hk). exists e0. cbn. rewrite lookup_insert_ne; [done|].
        intros ->. by apply slot_listed, Hnl in Hb.
      * exists e. cbn. rewrite lookup_insert_eq. split; [done|].
        unfold containerKey. cbn. by rewrite Ht, Hi.
    + intros b e' H. cbn in H. apply lookup_insert_Some in H as [[<- <-]|[Hne He']].
      * pose proof (holders_new p w a key Hw a) as E. rewrite decide_True, Hh0 in E by done.
        assert (holders p' a = 1) as -> by (unfold p', holders in *; cbn in *; done).
        unfold withinCap. cbn. rewrite Hv. destruct (Z.ltb_spec (specVCPUs spec) 1); lia.
      * rewrite Hho by done. by apply I5.
    + intros w' hd H Hs. cbn in H. apply lookup_insert_Some in H as [[<- <-]|[Hne E]]; apply Hslot; [by right|left; by eapply I6].
    + intros a1 a2 e1 e2 H1 H2 E. cbn in H1, H2.
      apply lookup_insert_Some in H1 as [[<- <-]|[N1 H1]], H2 as [[<- <-]|[N2 H2]];
        [done| | |by eapply I7].
      * by apply Hfh in H2.
      * symmetry in E. by apply Hfh in H1.
    + done.
    + intros b e' H. cbn in H. rewrite Hl, elem_of_cons.
      apply lookup_insert_Some in H as [[<- <-]|[Hne He']].
      * left. split; [by left|]. intros (c' & E & Hc')%list_elem_of_fmap. by apply Hfs in Hc'.
      * destruct (I9 b e' He') as [[? ?]|[? ?]]; [left; by split; [right|]|right; split; [|done]].
        naive_solver.
    + intros Hd. destruct (I10 Hd). cbn in *. congruence.
Qed.

Lemma inv_stopWrapper p now w : PoolInv p -> PoolInv (stopWrapper p now w).
Proof.
  intros I. unfold stopWrapper. destruct (wrappers p !! w) as [h|] eqn:Hw; [|done].
  destruct (wStopped h) eqn:Hs; [done|]. unfold release.
  set (p0 := set_wrappers _ p). set (p1 := set_heap _ p0).
  assert (PoolInv p1) as I1 by exact (inv_unhold p w h I Hw Hs).
  destruct (heap p1 !! wEntry h) as [e|] eqn:He; [|done].
  destruct (Z.eqb_spec (refs e) 0) as [H0|]; [|done]. cbn [negb].
  set (p2 := set_heap _ p1). assert (PoolInv p2) as I2 by by apply inv_stamp.
  destruct (entryOld p2 now e); [|done]. unfold removeEntryLocked.
  assert (wEntry h ∈ slot p2 (wKey h)) as Hin by exact (inv_live _ I w h Hw Hs).
  rewrite bool_decide_eq_true_2 by done.
  apply (inv_remove p2 (wKey h) (wEntry h) (stampFree now e)); [done|done| |done].
  apply lookup_insert_eq.
Qed.

Lemma inv_closeLock p : PoolInv p -> PoolInv (closeLock p).
Proof.
  intros [I1 I2 I3 I4 I5 I6 I7 I8 I9 I10]. split; try done. intros Hd. split; [done|]. by apply I10.
Qed.

Lemma outstanding_none p a e :
  PoolInv p -> outstandingLocked p = false -> a ∈ listed p -> heap p !! a = Some e -> refs e = 0%Z.
Proof.
  intros I Ho Ha He. destruct (inv_refs _ I _ _ He) as [Hr _].
  destruct (decide (0 < refs e)%Z) as [Hp|]; [|lia].
  assert (outstandingLocked p = true) as H; [|congruence].
  apply existsb_exists. exists a. split; [by apply list_elem_of_In|].
  unfold atAddr. rewrite He. by apply Z.ltb_lt.
Qed.

Lemma dropAll_all es : dropAll (flat es) es = ∅.
Proof.
  apply map_empty. intros k. unfold dropAll. rewrite lookup_omap.
  destruct (es !! k) as [l|] eqn:E; [|done]. cbn. unfold keptSlot.
  destruct (List.filter (notIn (flat es)) l) as [|b t] eqn:Ef; [done|].
  assert (b ∈ List.filter (notIn (flat es)) l) as Hb by (rewrite Ef; left).
  apply elem_of_Lfilter in Hb as [Hb Hn]. apply notIn_true in Hn. exfalso. apply Hn.
  apply elem_of_flat. eauto.
Qed.

Lemma inv_closeDrain p :
  PoolInv p -> outstandingLocked p = false -> PoolInv (closeDrain p).
Proof.
  intros I Ho. pose proof (inv_shed p (listed p) (containersOf p (listed p)) (total p) I) as J.
  change (dropAll (listed p) (entries p)) with (dropAll (flat (entries p)) (entries p)) in J.
  rewrite dropAll_all, Z.sub_diag in J.
  destruct J as [I1 I2 I3 I4 I5 I6 I7 I8 I9 I10]; [by apply I| |done|by apply I|].
  - intros a Ha. split; [done|]. apply elem_of_listed in Ha as [k Ha].
    destruct (inv_slot _ I _ _ Ha) as (e & He & _). exists e. split; [done|].
    eapply outstanding_none; [done|done| |done]. by eapply slot_listed.
  - unfold closeDrain. split; done.
Qed.

Lemma pstep_inv p p' : pstep p p' -> PoolInv p -> PoolInv p'.
Proof.
  destruct 1; intros I.
  - by eapply inv_startLock.
  - by eapply inv_commit.
  - by apply inv_stopWrapper.
  - by apply inv_evictExpired.
  - by apply inv_closeLock.
  - by apply inv_closeDrain.
Qed.

Lemma inv_new idle life maxE : PoolInv (NewPooledRuntime idle life maxE).
Proof.
  split; unfold slot, noEmpty, listed, stoppedIDs; cbn; intros *;
    rewrite ?lookup_empty, ?map_to_list_empty; cbn; try done; try (by constructor).
  by intros ?%elem_of_nil.
Qed.

Lemma reachable_inv idle life maxE p : reachable idle life maxE p -> PoolInv p.
Proof.
  intros H. apply (rtc_ind_r PoolInv _ (inv_new idle life maxE)) in H; [done|].
  intros q q' _ Hs Hq. by eapply pstep_inv.
Qed.

(** *** [Start] and [Stop] as a client sees them *)

Lemma evictOldest_frame p order :
  let '(c, p') := evictOldestFreeLocked p order in
  heap p' = heap p /\ wrappers p' = wrappers p /\ stopLog p' = stopLog p /\ closed p' = closed p /\
  forall c0, c = Some c0 -> exists a e, heap p !! a = Some e /\ container e = c0.
Proof.
  unfold evictOldestFreeLocked. destruct (foldl _ _ _) as [[[k a] t]|]; cbn; [|done].
  split_and!; try done. unfold containerAt. intros c0 H. apply fmap_Some in H as (e & He & ->). eauto.
Qed.

(** A miss changes neither the heap nor the handles, and stops only
    containers of the heap. *)
Lemma startLock_miss p now order spec w p' :
  startLock p now order spec w = (StartMiss, p') ->
  heap p' = heap p /\ wrappers p' = wrappers p /\ closed p' = closed p /\
  forall c, c ∈ stopLog p' -> c ∈ stopLog p \/ exists a e, heap p !! a = Some e /\ container e = c.
Proof.
  unfold startLock. destruct (closed p) eqn:Ec; [done|].
  unfold pruneStaleLocked. set (key := poolKey _ _). set (stale := List.filter (reapable p now) (slot p key)).
  set (p1 := set_entries _ _ _). destruct (List.find _ _); [done|].
  assert (forall c, c ∈ containersOf p stale -> exists a e, heap p !! a = Some e /\ container e = c) as Hst.
  { intros c (a & e & _ & He & Hc)%elem_of_containersOf. eauto. }
  destruct ((0 <? maxEntries p1) && (maxEntries p1 <=? total p1))%Z.
  - pose proof (evictOldest_frame p1 order) as He. destruct (evictOldestFreeLocked p1 order) as [c p2].
    destruct He as (H1 & H2 & H3 & H4 & H5). intros [= <-]. cbn. rewrite H1, H2, H3, H4. cbn.
    split_and!; try done. intros c0 Hc. rewrite !elem_of_app in Hc. destruct Hc as [[?|Hc]|Hc]; [by left|right; by apply Hst|].
    right. destruct c as [c|]; cbn in Hc; [|by apply elem_of_nil in Hc].
    apply list_elem_of_singleton in Hc as ->. by apply H5.
  - intros [= <-]. cbn. split_and!; try done. intros c0 Hc. rewrite app_nil_r, elem_of_app in Hc.
    destruct Hc; [by left|right; by apply Hst].
Qed.

(** [Start] is one or two steps of the pool. *)
Lemma Start_steps p now order spec inner now' a w r p' :
  wrappers p !! w = None -> heap p !! a = None ->
  order ≡ₚ map fst (map_to_list (entries (pruneStaleLocked p now
    (poolKey (specTenantID spec) (specImageDigest spec))).2)) ->
  (forall c, inner = Ok c -> freshFor p spec c) ->
  Start p now order spec inner now' a w = (r, p') ->
  rtc pstep p p' /\ (is_ok r = false -> wrappers p' = wrappers p) /\ 
  (is_ok r = true -> exists h, wrappers p' !! w = Some h /\ wStopped h = false /\
    wKey h = poolKey (specTenantID spec) (specImageDigest spec)).
Proof.
  intros Hw Ha Ho Hf H. unfold Start in H. destruct (startLock p now order spec w) as [r1 p1] eqn:El.
  assert (pstep p p1) as Hs by (by eapply pstep_start).
  assert (rtc pstep p p1) as Hr by by apply rtc_once.
  destruct r1 as [|b|].
  - simplify_eq. split_and!; [done| |done]. intros _. unfold startLock in El. destruct (closed p); [by simplify_eq|].
    destruct (pruneStaleLocked p now _) as [stale p2]. destruct (List.find _ _); [done|].
    by destruct ((0 <? maxEntries p2) && (maxEntries p2 <=? total p2))%Z; [destruct (evictOldestFreeLocked p2 order)|].
  - simplify_eq. split_and!; [done|done|]. intros _. unfold startLock in El. destruct (closed p); [done|].
    destruct (pruneStaleLocked p now _) as [stale p2] eqn:Ep.
    destruct (List.find _ _);
      [|by destruct ((0 <? maxEntries p2) && (maxEntries p2 <=? total p2))%Z; [destruct (evictOldestFreeLocked p2 order)|]].
    simplify_eq. cbn. rewrite lookup_insert_eq. eauto.
  - destruct (startLock_miss _ _ _ _ _ _ El) as (H1 & H2 & H3 & H4). destruct inner as [c|e]; simplify_eq; [|done].
    specialize (Hf c eq_refl) as (F1 & F2 & F0 & F3 & F4).
    assert (pstep p1 p').
    { eapply pstep_commit; [by rewrite H2|by rewrite H1| |exact H]. split_and!; [done|done|done|by rewrite H1|].
      intros c' [Hc|(a' & e' & He & <-)]%H4; [by apply F4|by eapply F3]. }
    split; [by eapply rtc_r|]. unfold startCommit in H. destruct (closed p1); simplify_eq; cbn; [done|].
    split; [done|]. intros _. rewrite lookup_insert_eq. eauto.
Qed.

Lemma release_wrappers p now k a : wrappers (release p now k a) = wrappers p.
Proof. unfold release, removeEntryLocked. by repeat case_match. Qed.

Lemma stopWrapper_stopped p now w h : wrappers (stopWrapper p now w) !! w = Some h -> wStopped h = true.
Proof.
  unfold stopWrapper. destruct (wrappers p !! w) as [h0|] eqn:E; [|congruence].
  destruct (wStopped h0) eqn:Es; [congruence|]. rewrite release_wrappers. cbn. rewrite lookup_insert_eq.
  by intros [= <-].
Qed.

Lemma splitBar t1 t2 i1 i2 :
  containsByte t1 "|"%char = false -> containsByte t2 "|"%char = false ->
  poolKey t1 i1 = poolKey t2 i2 -> t1 = t2 /\ i1 = i2.
Proof.
  unfold poolKey. revert t2. induction t1 as [|c t1 IH]; intros [|d t2] H1 H2 E; cbn in *; simplify_eq; try done.
  - apply orb_false_iff in H1 as [H1 H1']. apply orb_false_iff in H2 as [H2 H2'].
    destruct (IH t2 H1' H2') as [-> ->]; done.
Qed.

(** ** Claims *)

(** C24: A container in use is alive and the right one.  In every
    interleaving of Starts, releases, reaper ticks and Close, the container
    behind a handle that was not stopped has not been stopped either, is
    shared by no more handles than it has virtual CPUs (by one when it was
    started with none), counted exactly, and was started under the pool key of
    the request: for the same tenant and image when tenant ids hold no bar. *)
Theorem pool_handle_safe idle life maxE p w h :
  reachable idle life maxE p -> wrappers p !! w = Some h -> wStopped h = false ->
  exists e, heap p !! wEntry h = Some e /\ ctID (container e) ∉ stoppedIDs p /\
    refs e = Z.of_nat (holders p (wEntry h)) /\ (0 < refs e <= Z.max 1 (ctVCPUs (container e)))%Z /\
    containerKey (container e) = wKey h /\
    forall t i, wKey h = poolKey t i -> containsByte t "|"%char = false ->
      containsByte (ctTenant (container e)) "|"%char = false ->
      ctTenant (container e) = t /\ ctImage (container e) = i.
Proof.
  intros Hr Hw Hs. apply reachable_inv in Hr as I. pose proof (inv_live _ I _ _ Hw Hs) as Hin.
  destruct (inv_slot _ I _ _ Hin) as (e & He & Hk). exists e.
  destruct (inv_refs _ I _ _ He) as [Hc [Hm Hcap]]. pose proof (live_refs p w h e I Hw Hs He).
  apply slot_listed in Hin. destruct (inv_split _ I _ _ He) as [[_ ?]|[? _]]; [|done].
  split_and!; try done; [lia|]. intros t i E H1 H2. rewrite <- Hk in E. by apply splitBar in E.
Qed.

(** A pool of at most one container; a Start for acme, one more that shares
    it, and the first handle stopped. *)
Definition exSpec : ContainerSpec := mkContainerSpec "acme" "img" 2.
Definition exC1 : Container := mkContainer 1 "acme" "img" 2.
Definition exPool0 : PooledRuntime := NewPooledRuntime 10 0 1.
Definition exPool1 : PooledRuntime := (startLock exPool0 1 [] exSpec 1).2.
Definition exPool2 : PooledRuntime := (startCommit exPool1 2 exSpec exC1 7 1).2.
Definition exPool3 : PooledRuntime := (startLock exPool2 3 ["acme|img"] exSpec 2).2.
Definition exPool4 : PooledRuntime := stopWrapper exPool3 4 1.

Lemma exPool_reachable : reachable 10 0 1 exPool4.
Proof.
  assert (pstep exPool0 exPool1) as S1.
  { apply (pstep_start exPool0 1 [] exSpec 1 StartMiss); vm_compute; reflexivity. }
  assert (pstep exPool1 exPool2) as S2.
  { apply (pstep_commit exPool1 2 exSpec exC1 7 1 (Ok tt)); try (vm_compute; reflexivity).
    split_and!; [done|done|done| |].
    - intros a e. change (heap exPool1) with (∅ : gmap nat pooledEntry). by rewrite lookup_empty.
    - intros c. change (stopLog exPool1) with (@nil Container). by intros ?%elem_of_nil. }
  assert (pstep exPool2 exPool3) as S3.
  { apply (pstep_start exPool2 3 ["acme|img"] exSpec 2 (StartHit 7)); vm_compute; reflexivity. }
  eapply rtc_l; [exact S1|]. eapply rtc_l; [exact S2|]. eapply rtc_l; [exact S3|].
  eapply rtc_l; [apply (pstep_stop exPool3 4 1)|]. apply rtc_refl.
Qed.

Lemma pool_handle_safe_witness :
  exists e, heap exPool4 !! 7 = Some e /\ refs e = 1%Z /\ ctID (container e) ∉ stoppedIDs exPool4.
Proof.
  destruct (pool_handle_safe 10 0 1 exPool4 2 (mkPooledContainer 7 "acme|img" false))
    as (e & He & Hs & Hr & _); [exact exPool_reachable|vm_compute; reflexivity|reflexivity|].
  exists e. split; [exact He|]. split; [|exact Hs]. rewrite Hr. vm_compute. reflexivity.
Defined.

(** C35: The pool neither leaks nor stops twice.  In every interleaving each
    container that entered the pool is listed and not stopped, or not listed
    and stopped, no container is stopped twice, [total] is the number of
    listed entries, and once [Close] has drained the pool every container is
    stopped and no handle is live. *)
Theorem pool_no_leak idle life maxE p :
  reachable idle life maxE p ->
  NoDup (stoppedIDs p) /\ NoDup (listed p) /\ total p = Z.of_nat (length (listed p)) /\
  (forall a e, heap p !! a = Some e -> (a ∈ listed p <-> ctID (container e) ∉ stoppedIDs p)) /\
  (drained p = true ->
    (forall a e, heap p !! a = Some e -> ctID (container e) ∈ stoppedIDs p) /\
    (forall w h, wrappers p !! w = Some h -> wStopped h = true)).
Proof.
  intros Hr. apply reachable_inv in Hr as I.
  split_and!; [apply I|apply I|apply I| |].
  - intros a e He. destruct (inv_split _ I _ _ He); tauto.
  - intros Hd. destruct (inv_drained _ I Hd) as [_ Hes].
    assert (forall k, slot p k = []) as Hempty by (intros k; unfold slot; by rewrite Hes, lookup_empty).
    split.
    + intros a e He. destruct (inv_split _ I _ _ He) as [[Hin _]|[_ ?]]; [|done].
      apply elem_of_listed in Hin as [k Hin]. rewrite Hempty in Hin. by apply elem_of_nil in Hin.
    + intros w h Hw. destruct (wStopped h) eqn:Hs; [done|].
      pose proof (inv_live _ I _ _ Hw Hs) as Hin. rewrite Hempty in Hin. by apply elem_of_nil in Hin.
Qed.

Lemma pool_no_leak_witness :
  let p := closeDrain (closeLock (stopWrapper exPool4 5 2)) in
  stoppedIDs p = [1] /\ (forall w h, wrappers p !! w = Some h -> wStopped h = true).
Proof.
  intros p. split; [vm_compute; reflexivity|].
  destruct (pool_no_leak 10 0 1 p) as (_ & _ & _ & _ & H); [|apply H; vm_compute; reflexivity].
  unfold reachable. eapply rtc_r; [|apply pstep_drain; vm_compute; reflexivity].
  eapply rtc_r; [|apply pstep_close]. eapply rtc_r; [|apply pstep_stop]. exact exPool_reachable.
Defined.

Lemma prune_slot p now key a :
  a ∈ slot (pruneStaleLocked p now key).2 key -> a ∈ slot p key.
Proof.
  unfold pruneStaleLocked, slot. cbn [snd set_entries entries]. unfold setSlot.
  destruct (List.filter _ _) as [|b t] eqn:E.
  - rewrite lookup_delete_eq. by intros ?%elem_of_nil.
  - rewrite lookup_insert_eq. cbn [default]. intros Ha. rewrite <- E in Ha.
    by apply elem_of_Lfilter in Ha as [? _].
Qed.

(** The scan of the eviction sees every entry. *)
Lemma pairs_all p order a :
  order ≡ₚ map fst (map_to_list (entries p)) -> a ∈ listed p -> exists k, (k, a) ∈ pairs p order.
Proof.
  intros Ho [k Ha]%elem_of_listed. exists k. apply elem_of_pairs. split; [|done].
  rewrite Ho. apply elem_of_slot in Ha as (l & Hl & _). apply list_elem_of_fmap.
  exists (k, l). split; [done|]. by apply elem_of_map_to_list.
Qed.

(** After the eviction the pool has shrunk, or nothing was free. *)
Lemma evictOldest_outcome p order :
  (forall a e, heap p !! a = Some e -> (0 <= refs e)%Z) -> order ≡ₚ map fst (map_to_list (entries p)) ->
  let p' := (evictOldestFreeLocked p order).2 in
  (total p' = total p - 1)%Z \/
  p' = p /\ forall a e, a ∈ listed p -> heap p !! a = Some e -> (0 < refs e)%Z.
Proof.
  intros Hpos Ho. unfold evictOldestFreeLocked. pose proof (oldest_fold p (pairs p order) None) as H.
  destruct (foldl (olderFree p) None (pairs p order)) as [[[k a] t]|]; cbn [snd]; [by left|].
  right. split; [done|]. intros a e Ha He. destruct H as [_ H].
  destruct (pairs_all p order a Ho Ha) as [k Hk]. specialize (Hpos _ _ He).
  destruct (decide (refs e = 0%Z)) as [H0|]; [|lia].
  exfalso. apply (H (k, a) (lastFreeT e) Hk). by exists e.
Qed.

Lemma evictOldest_slot p order k a :
  a ∈ slot (evictOldestFreeLocked p order).2 k -> a ∈ slot p k.
Proof.
  unfold evictOldestFreeLocked. destruct (foldl _ _ _) as [[[k0 a0] t]|]; [|done]. cbn [snd].
  assert (forall l, a ∈ removeAddr a0 l -> a ∈ l) as Hsub.
  { induction l as [|b l IH]; cbn; [done|]. case_decide; set_solver. }
  unfold slot at 1. cbn [set_entries entries]. unfold setSlot.
  destruct (decide (k = k0)) as [->|Hne]; destruct (removeAddr a0 (slot p k0)) as [|b t'] eqn:E.
  - rewrite lookup_delete_eq. by intros ?%elem_of_nil.
  - rewrite lookup_insert_eq. cbn [default]. rewrite <- E. apply Hsub.
  - by rewrite lookup_delete_ne.
  - by rewrite lookup_insert_ne.
Qed.

(** What [Start] decides under the lock.  A hit is an entry of the
    request's key with a free slot that is no older than the session limit,
    and takes exactly one reference.  A miss means that no entry of the key
    is usable; and with a limit on entries, the pool is then below it, or
    smaller than before, or every entry left is in use. *)
Theorem start_decision idle life maxE p now order spec w r p' :
  reachable idle life maxE p ->
  order ≡ₚ map fst (map_to_list (entries (pruneStaleLocked p now
    (poolKey (specTenantID spec) (specImageDigest spec))).2)) ->
  startLock p now order spec w = (r, p') ->
  let key := poolKey (specTenantID spec) (specImageDigest spec) in
  match r with
  | StartClosed => closed p = true /\ p' = p
  | StartHit a => a ∈ slot p key /\ exists e, heap p !! a = Some e /\ (refs e < maxRefs e)%Z /\
      (0 < maxLifetime p -> now - createdAt e <= maxLifetime p)%Z /\
      heap p' !! a = Some (updRefs (fun r => r + 1)%Z e)
  | StartMiss =>
      (forall a e, a ∈ slot p' key -> heap p !! a = Some e -> entryUsableLocked p now e = false) /\
      ((0 < maxEntries p)%Z -> (total p' < maxEntries p)%Z \/ (total p' < total p)%Z \/
        forall a e, a ∈ listed p' -> heap p' !! a = Some e -> (0 < refs e)%Z)
  end.
Proof.
  intros Hr Ho H key. apply reachable_inv in Hr as I. unfold startLock in H. fold key in H, Ho.
  destruct (closed p) eqn:Ecl; [by simplify_eq|].
  assert (forall a, a ∈ slot (pruneStaleLocked p now key).2 key -> a ∈ slot p key) as Hps
    by (intros; by eapply prune_slot).
  assert (heap (pruneStaleLocked p now key).2 = heap p) as Hheap by done.
  assert (total (pruneStaleLocked p now key).2 <= total p)%Z as Htot by (cbn; lia).
  assert (maxEntries (pruneStaleLocked p now key).2 = maxEntries p) as Hmax by done.
  assert (entryUsableLocked (pruneStaleLocked p now key).2 now = entryUsableLocked p now) as Hus by done.
  destruct (pruneStaleLocked p now key) as [stale p1]. cbn [fst snd] in *.
  destruct (List.find _ _) as [a|] eqn:Ef; simplify_eq.
  - apply find_some in Ef as [Hin Hu]. apply list_elem_of_In in Hin. unfold atAddr in Hu.
    rewrite Hus, Hheap in Hu. split; [by apply Hps|].
    destruct (heap p !! a) as [e|] eqn:He; [|done]. exists e. unfold entryUsableLocked, entryOld in Hu.
    destruct (Z.leb_spec (maxRefs e) (refs e)); [done|]. apply negb_true_iff, andb_false_iff in Hu.
    split_and!; [done|lia| |].
    + intros Hl. destruct Hu as [Hu|Hu]; [apply Z.ltb_ge in Hu|apply Z.ltb_ge in Hu]; lia.
    + cbn. by rewrite lookup_alter_eq, Hheap, He.
  - assert (forall a e, a ∈ slot p1 key -> heap p !! a = Some e -> entryUsableLocked p now e = false) as Hno.
    { intros a e Ha He. apply list_elem_of_In in Ha. pose proof (find_none _ _ Ef a Ha) as Hf.
      unfold atAddr in Hf. by rewrite Hus, Hheap, He in Hf. }
    rewrite Hmax in H. destruct (Z.ltb_spec 0 (maxEntries p)); cbn [andb] in H;
      [|simplify_eq; split; [exact Hno|lia]].
    destruct (Z.leb_spec (maxEntries p) (total p1)).
    + pose proof (evictOldest_outcome p1 order) as Hout.
      pose proof (fun k a => evictOldest_slot p1 order k a) as Hes.
      destruct (evictOldestFreeLocked p1 order) as [ev p2]. cbn [fst snd] in *. simplify_eq. split.
      * intros a e Ha. apply Hno. by apply Hes.
      * intros _. destruct Hout as [Ht|[-> Hall]]; [|done|cbn; lia|right; right; exact Hall].
        intros a e He. rewrite Hheap in He. destruct (inv_refs _ I _ _ He). lia.
    + simplify_eq. split; [exact Hno|]. intros _. left. cbn. lia.
Qed.

Lemma start_decision_witness :
  exists e, heap exPool4 !! 7 = Some e /\ (refs e < maxRefs e)%Z.
Proof.
  destruct (start_decision 10 0 1 exPool4 6 ["acme|img"] exSpec 3 (StartHit 7)
    (startLock exPool4 6 ["acme|img"] exSpec 3).2) as (_ & e & He & Hr & _);
    [exact exPool_reachable|vm_compute; reflexivity|vm_compute; reflexivity|].
  exists e. split; [exact He|exact Hr].
Defined.

(** A reaper tick enforces both clocks and nothing else: afterwards every
    free entry is within the idle and the session limit, every entry in use
    and every free entry within the limits is still in the pool, and exactly
    the containers of the others were stopped. *)
Theorem reap_deadlines idle life maxE p now :
  reachable idle life maxE p ->
  (forall a, a ∈ listed (evictExpired p now) <-> a ∈ listed p /\ reapable p now a = false) /\
  (forall a e, a ∈ listed (evictExpired p now) -> heap p !! a = Some e -> refs e = 0%Z ->
    (0 < idleTTL p -> now - lastFreeT e <= idleTTL p)%Z /\
    (0 < maxLifetime p -> now - createdAt e <= maxLifetime p)%Z) /\
  (forall a e, a ∈ listed p -> heap p !! a = Some e -> (0 < refs e)%Z -> a ∈ listed (evictExpired p now)) /\
  (forall c, c ∈ stopLog (evictExpired p now) <-> c ∈ stopLog p \/
    exists a e, a ∈ listed p /\ heap p !! a = Some e /\ container e = c /\ canReapLocked p now e = true).
Proof.
  intros Hr. apply reachable_inv in Hr as I. pose proof (inv_evictExpired p now I) as I'.
  assert (forall a, a ∈ listed (evictExpired p now) <-> a ∈ listed p /\ reapable p now a = false) as Hl.
  { intros a. change (listed (evictExpired p now)) with
      (flat (omap (keptSlot (fun a => negb (reapable p now a))) (entries p))).
    rewrite elem_of_flat. change (listed p) with (flat (entries p)). rewrite elem_of_flat.
    setoid_rewrite lookup_omap. split.
    - intros (k & l' & E & Ha). destruct (entries p !! k) as [l|] eqn:Ek; [|done]. cbn in E.
      unfold keptSlot in E. destruct (List.filter _ l) as [|b t] eqn:Ef; [done|]. simplify_eq.
      rewrite <- Ef in Ha. apply elem_of_Lfilter in Ha as [Ha Hn]. apply negb_true_iff in Hn. eauto.
    - intros [(k & l & Ek & Ha) Hn]. exists k, (List.filter (fun a => negb (reapable p now a)) l).
      assert (a ∈ List.filter (fun a => negb (reapable p now a)) l) as Hf
        by (apply elem_of_Lfilter; by rewrite Hn).
      rewrite Ek. cbn. unfold keptSlot. split; [|done]. destruct (List.filter _ l); [set_solver|done]. }
  split_and!; [done| | |].
  - intros a e Ha He H0. apply Hl in Ha as [_ Ha]. unfold reapable, atAddr in Ha. rewrite He in Ha.
    unfold canReapLocked, entryOld in Ha. rewrite H0 in Ha. cbn in Ha.
    apply orb_false_iff in Ha as [H1 H2]. apply andb_false_iff in H1, H2.
    rewrite !Z.ltb_ge in H1. rewrite !Z.ltb_ge in H2. lia.
  - intros a e Ha He Hp. apply Hl. split; [done|]. unfold reapable, atAddr. rewrite He.
    unfold canReapLocked. by rewrite (proj2 (Z.ltb_lt _ _) Hp).
  - intros c. unfold evictExpired. cbn [stopLog stopAll set_entries]. rewrite elem_of_app.
    apply or_iff_compat_l. rewrite elem_of_containersOf. unfold reapable, atAddr. split.
    + intros (a & e & [Ha Hra]%elem_of_Lfilter & He & Hc). rewrite He in Hra. eauto 6.
    + intros (a & e & Ha & He & Hc & Hra). exists a, e. rewrite elem_of_Lfilter, He. done.
Qed.

Lemma reap_deadlines_witness :
  let p := stopWrapper exPool4 5 2 in
  listed (evictExpired p 15) = [7] /\ (7 ∈ listed (evictExpired p 16) <-> 7 ∈ listed p /\ reapable p 16 7 = false) /\
  listed (evictExpired p 16) = [].
Proof.
  intros p. split; [vm_compute; reflexivity|]. split; [|vm_compute; reflexivity].
  apply (reap_deadlines 10 0 1 p 16). eapply rtc_r; [exact exPool_reachable|apply pstep_stop].
Defined.

(** The entry limit is not an upper bound.  Two Starts that miss at the
    same time both pass the check before either entry is added: the pool of
    at most one container then holds two. *)
Theorem pool_cap_overshoot :
  let spec2 := mkContainerSpec "beta" "img" 2 in
  let '(r1, p1) := startLock exPool0 1 [] exSpec 1 in
  let '(r2, p2) := startLock p1 1 [] spec2 2 in
  let p3 := (startCommit p2 2 exSpec exC1 7 1).2 in
  let p4 := (startCommit p3 2 spec2 (mkContainer 2 "beta" "img" 2) 8 2).2 in
  r1 = StartMiss /\ r2 = StartMiss /\ maxEntries p4 = 1%Z /\ total p4 = 2%Z.
Proof. vm_compute. split_and!; reflexivity. Qed.

(** The pool key joins tenant and image with a bar it does not escape:
    the container of tenant a with image b|c is handed to tenant a|b with
    image c, and it is counted under tenant a for both. *)
Theorem pool_key_ambiguous :
  let s1 := mkContainerSpec "a" "b|c" 2 in
  let s2 := mkContainerSpec "a|b" "c" 2 in
  let p1 := (Start exPool0 1 [] s1 (Ok (mkContainer 1 "a" "b|c" 2)) 2 7 1).2 in
  let '(r, p2) := startLock p1 3 ["a|b|c"] s2 2 in
  r = StartHit 7 /\ container <$> heap p2 !! 7 = Some (mkContainer 1 "a" "b|c" 2) /\
  EntriesByTenant p2 "a|b" = 0.
Proof. vm_compute. split_and!; reflexivity. Qed.
