(* ===== verification/Staging.v ===== *)
(** * Staging: the worker's file staging.

    [internal/worker/staging.go] writes the blobs of a manifest into the
    per-request source directory; the helpers of [worker.go] create the
    directories a command names; [runtime_executor.go] reads the artifact
    back; and the unisolated runtime ([runtime/dangerous.go]) translates the
    paths of a command to the host.  The file system is that of the [Store]
    file; directories of the host are absolute and clean. *)

From S2P Require Import Prelude GoStrings GoPath Store.

(** ** Blobs *)

(** A [BlobRef] message of a [CasDescriptor]. *)
Record WireBlob := mkWireBlob {
  wbPath : string;
  wbDigest : string;
  wbSize : Z
}.

Definition nul : ascii := "000"%char.
Definition backslash : ascii := "\"%char.

Definition validateBlobPath (p : string) : result unit :=
  if String.eqb p "" then Err "empty path"
  else if containsByte p nul then Err "path contains NUL"
  else if containsByte p backslash then Err "path contains backslash"
  else let c := toSlash (clean p) in
  if String.eqb c ".." || hasPrefix c "../" then Err "path escapes source root"
  else if hasPrefix c "/" then Err "absolute path not allowed"
  else Ok tt.

Section Materialize.
  Context (srcDir : string) (get : string -> result (option string)) (now : Z).

(** The host path of a blob. *)
Definition blobDst (p : string) : string := join [srcDir; fromSlash p].

(** The body of the loop of [materializeCASBlobs]; the file system keeps
    what was written before an error. *)
Definition materializeBlob (fs : FS) (b : WireBlob) : result unit * FS :=
  if isAbs (wbPath b) then (Ok tt, fs)
  else match validateBlobPath (wbPath b) with
  | Err e => (Err ("blob path " +:+ wbPath b +:+ ": " +:+ e), fs)
  | Ok _ =>
      match get (wbDigest b) with
      | Err e => (Err ("load blob: " +:+ e), fs)
      | Ok None => (Err "blob unavailable: client must re-upload", fs)
      | Ok (Some bytes) =>
          match mkdirAll (comps (dir (blobDst (wbPath b)))) fs with
          | Err e => (Err ("create parent for " +:+ wbPath b +:+ ": " +:+ e), fs)
          | Ok fs1 =>
              match writeFile (comps (blobDst (wbPath b))) bytes now fs1 with
              | Err e => (Err ("write " +:+ wbPath b +:+ ": " +:+ e), fs1)
              | Ok fs2 => (Ok tt, fs2)
              end
          end
      end
  end.

Fixpoint materializeCASBlobs (fs : FS) (blobs : list WireBlob) : result unit * FS :=
  match blobs with
  | [] => (Ok tt, fs)
  | b :: rest =>
      match materializeBlob fs b with
      | (Ok _, fs') => materializeCASBlobs fs' rest
      | (Err e, fs') => (Err e, fs')
      end
  end.
End Materialize.

(** ** Directories named by a command *)

Definition searchPathFlags : list string := ["-idirafter"; "-isystem"; "-iquote"; "-I"; "-L"].

(** [os.MkdirAll(full)] with the error message of both helpers. *)
Definition mkdirFull (full : string) (fs : FS) : result unit * FS :=
  match mkdirAll (comps full) fs with
  | Ok fs' => (Ok tt, fs')
  | Err e => (Err ("mkdir " +:+ full +:+ ": " +:+ e), fs)
  end.

Definition mkRel (srcHostPath rel : string) (fs : FS) : result unit * FS :=
  if String.eqb rel "" || String.eqb rel "." then (Ok tt, fs)
  else mkdirFull (join [srcHostPath; fromSlash rel]) fs.

Definition mkOne (srcHostPath p : string) (fs : FS) : result unit * FS :=
  if String.eqb p "" then (Ok tt, fs)
  else if hasPrefix p "/src/" then mkRel srcHostPath (sdrop 5 p) fs
  else if String.eqb p "/src" then (Ok tt, fs)
  else if isAbs p then (Ok tt, fs)
  else mkRel srcHostPath p fs.

(** What an argument names: its own joined value, the next argument, or
    nothing; flags are tried in order. *)
Inductive searchArg := JoinedDir (p : string) | NextDir | NoDir.

Fixpoint matchSearchFlag (flags : list string) (a : string) : searchArg :=
  match flags with
  | [] => NoDir
  | f :: rest =>
      if String.eqb a f then NextDir
      else if hasPrefix a f then JoinedDir (sdrop (slen f) a)
      else matchSearchFlag rest a
  end.

(** The directories [args] names, in order. *)
Fixpoint searchDirs (args : list string) : list string :=
  match args with
  | [] => []
  | a :: rest =>
      match matchSearchFlag searchPathFlags a, rest with
      | NoDir, _ => searchDirs rest
      | JoinedDir p, _ => p :: searchDirs rest
      | NextDir, v :: rest' => v :: searchDirs rest'
      | NextDir, [] => []
      end
  end.

(** A loop that stops at the first error; earlier effects stay. *)
Fixpoint eachR {A} (f : A -> FS -> result unit * FS) (l : list A) (fs : FS) : result unit * FS :=
  match l with
  | [] => (Ok tt, fs)
  | x :: l' =>
      match f x fs with
      | (Ok _, fs') => eachR f l' fs'
      | (Err e, fs') => (Err e, fs')
      end
  end.

Definition mkdirSearchPaths (args : list string) (srcHostPath : string) (fs : FS) : result unit * FS :=
  if String.eqb srcHostPath "" then (Ok tt, fs) else eachR (mkOne srcHostPath) (searchDirs args) fs.

Definition endsPath (c : ascii) : bool :=
  Ascii.eqb c ","%char || Ascii.eqb c " "%char || Ascii.eqb c "009"%char.

(** The paths after each [/out/] of one argument; a path ends at a comma or
    blank, and the search goes on behind it. *)
Fixpoint outPaths (fuel : nat) (rest : string) : list string :=
  match fuel, indexOf rest "/out/" with
  | S fuel', Some idx =>
      let tail := sdrop (idx + 5) rest in
      match indexBy endsPath tail with
      | None => [tail]
      | Some e => stake e tail :: outPaths fuel' (sdrop e tail)
      end
  | _, _ => []
  end.

Definition mkdirOutputParent (outHostPath rel : string) (fs : FS) : result unit * FS :=
  if String.eqb rel "" then (Ok tt, fs)
  else let parent := dir rel in
  if String.eqb parent "" || String.eqb parent "." then (Ok tt, fs)
  else mkdirFull (join [outHostPath; fromSlash parent]) fs.

Definition mkdirOutputParents (args : list string) (outHostPath : string) (fs : FS) : result unit * FS :=
  if String.eqb outHostPath "" then (Ok tt, fs)
  else eachR (mkdirOutputParent outHostPath) (concat (map (fun a => outPaths (slen a) a) args)) fs.

(** ** Reading the artifact ([runtimeExecutor.ReadOutput]) *)

Definition inContainerOut : string := "/out".

(** The host path that is read. *)
Definition ReadOutput_path (outHostPath path : string) : result string :=
  let c := toSlash (clean path) in
  let prefix := inContainerOut +:+ "/" in
  if negb (hasPrefix c prefix) && negb (String.eqb c inContainerOut)
  then Err "ReadOutput: path is outside the container output mount"
  else Ok (join [outHostPath; trimPrefix c prefix]).

(** ** The unisolated runtime *)

Definition isPathBoundary (c : ascii) : bool := Ascii.eqb c "/"%char || Ascii.eqb c "="%char.

(** The loop of [rewriteRoot]: after the first match at a boundary the rest
    is copied. *)
Fixpoint rewriteRootFrom (root replacement s : string) : string :=
  match s with
  | EmptyString => EmptyString
  | String c t =>
      let rest := sdrop (slen root) s in
      if hasPrefix s root && (match rest with EmptyString => true | String d _ => isPathBoundary d end)
      then replacement +:+ rest
      else String c (rewriteRootFrom root replacement t)
  end.

Definition rewriteRoot (s root replacement : string) : string :=
  if negb (contains s root) then s else rewriteRootFrom root replacement s.

Definition translateExecPath (s srcHost outHost : string) : string :=
  let s := if String.eqb srcHost "" then s else rewriteRoot s "/src" srcHost in
  if String.eqb outHost "" then s else rewriteRoot s "/out" outHost.

(** ** Facts *)

(** A valid relative blob path does not climb. *)
Lemma validate_no_climb p :
  isAbs p = false -> validateBlobPath p = Ok tt -> head (cleanComps false (splitOn slash p)) <> Some "..".
Proof.
  intros Hp Hv Hh. unfold validateBlobPath in Hv.
  do 3 (case_match; [done|]).
  match type of Hv with (if ?b then _ else _) = _ => destruct b eqn:E; [done|] end.
  apply orb_false_iff in E as [E1 E2]. unfold toSlash, clean in E1, E2. rewrite Hp in E1, E2.
  destruct (cleanComps false (splitOn slash p)) as [|c cs]; [done|]. cbn [head] in Hh.
  injection Hh as ->. destruct cs as [|d cs]; [done|].
  change (joinWith "/" (".." :: d :: cs)) with ("../" +:+ joinWith "/" (d :: cs)) in *.
  destruct (String.eqb_spec ("../" +:+ joinWith "/" (d :: cs)) "") as [E|_]; [done|].
  by rewrite hasPrefix_app in E2.
Qed.

Lemma join_inside rs p :
  Forall proper rs -> head (cleanComps false (splitOn slash p)) <> Some ".." ->
  exists tr, Forall proper tr /\ join [absOf rs; p] = absOf (rs ++ tr).
Proof.
  intros Hr Hp. pose proof (join_below (absOf rs) p (isAbs_absOf rs) Hp) as Hb.
  rewrite clean_absOf in Hb by done.
  assert (exists cs, Forall proper cs /\ join [absOf rs; p] = absOf cs) as (cs & Hcs & E).
  { cbn [join]. change (String.eqb (absOf rs) "") with false. cbn iota. by apply clean_abs_shape. }
  rewrite E in Hb. destruct (below_absOf _ _ Hr Hcs Hb) as [tr ->].
  exists tr. split; [|done]. by apply Forall_app in Hcs as [_ ?].
Qed.

Lemma comps_dir_absOf cs :
  Forall proper cs -> exists r, cs = comps (dir (absOf cs)) ++ r.
Proof.
  intros H. destruct cs as [|c cs _] using rev_ind; [by eexists|].
  apply Forall_app in H as [Hcs Hc]. apply Forall_cons in Hc as [Hc _].
  rewrite (dir_absOf_snoc cs c Hcs Hc), (comps_absOf cs Hcs). by exists [c].
Qed.

Definition inside (rs q : list string) : Prop := exists t, q = rs ++ t.

(** One blob: what it may touch, and what it leaves. *)
Lemma materializeBlob_effect rs get now fs b r fs' :
  Forall proper rs -> materializeBlob (absOf rs) get now fs b = (r, fs') ->
  (forall q, fsFiles fs' !! q = fsFiles fs !! q \/
    isAbs (wbPath b) = false /\ q = comps (blobDst (absOf rs) (wbPath b)) /\ inside rs q) /\
  (forall q, q ∈ fsDirs fs' -> q ∈ fsDirs fs \/ inside rs q \/ exists t, rs = q ++ t) /\
  (r = Ok tt -> isAbs (wbPath b) = false -> exists v, get (wbDigest b) = Ok (Some v) /\
    fsFiles fs' !! comps (blobDst (absOf rs) (wbPath b)) = Some (v, now)).
Proof.
  intros Hrs H. unfold materializeBlob in H.
  destruct (isAbs (wbPath b)) eqn:Ea; [simplify_eq; split_and!; [by left|by left|done]|].
  destruct (validateBlobPath (wbPath b)) as [[]|e] eqn:Ev; [|simplify_eq; split_and!; [by left|by left|done]].
  destruct (get (wbDigest b)) as [[v|]|e] eqn:Eg; [|simplify_eq; split_and!; [by left|by left|done]..].
  destruct (join_inside rs (wbPath b) Hrs (validate_no_climb _ Ea Ev)) as (tr & Htr & Ej).
  assert (blobDst (absOf rs) (wbPath b) = absOf (rs ++ tr)) as Ed by exact Ej.
  assert (Forall proper (rs ++ tr)) as Hp by by apply Forall_app.
  rewrite Ed, comps_absOf in H by done. rewrite Ed, comps_absOf by done.
  unfold mkdirAll in H. destruct (existsb _ _); [simplify_eq; split_and!; [by left|by left|done]|].
  assert (forall q, q ∈ pathPrefixes (comps (dir (absOf (rs ++ tr)))) ->
    inside rs q \/ exists t, rs = q ++ t) as Hpre.
  { intros q [r0 Hq]%pathPrefixes_spec. destruct (comps_dir_absOf (rs ++ tr) Hp) as [r1 Hr1].
    rewrite Hq, <- app_assoc in Hr1. symmetry in Hr1. apply app_eq_inv in Hr1 as [(k & -> & _)|(k & -> & _)].
    - left. by exists k.
    - right. by exists k. }
  assert (forall q, q ∈ list_to_set (pathPrefixes (comps (dir (absOf (rs ++ tr))))) ∪ fsDirs fs ->
    q ∈ fsDirs fs \/ inside rs q \/ exists t, rs = q ++ t) as Hd.
  { intros q [Hq|Hq]%elem_of_union; [|by left]. apply elem_of_list_to_set in Hq. right. by apply Hpre. }
  unfold writeFile in H. cbn [fsDirs fsFiles] in H.
  case_bool_decide; [simplify_eq; split_and!; [by left|exact Hd|done]|].
  case_bool_decide; cbn [negb] in H; simplify_eq; cbn [fsFiles fsDirs];
    [|split_and!; [by left|exact Hd|done]].
  split_and!; [|exact Hd|].
  - intros q. destruct (decide (q = rs ++ tr)) as [->|Hne]; [right; by split_and!; [| |exists tr]|].
    left. by rewrite lookup_insert_ne.
  - intros _ _. exists v. by rewrite lookup_insert_eq.
Qed.

Lemma materialize_effect rs get now blobs : forall fs r fs',
  Forall proper rs -> materializeCASBlobs (absOf rs) get now fs blobs = (r, fs') ->
  (forall q, fsFiles fs' !! q = fsFiles fs !! q \/ inside rs q /\
    exists b, b ∈ blobs /\ isAbs (wbPath b) = false /\ q = comps (blobDst (absOf rs) (wbPath b))) /\
  (forall q, q ∈ fsDirs fs' -> q ∈ fsDirs fs \/ inside rs q \/ exists t, rs = q ++ t).
Proof.
  induction blobs as [|b blobs IH]; intros fs r fs' Hrs H; cbn [materializeCASBlobs] in H.
  { simplify_eq. split; by left. }
  destruct (materializeBlob (absOf rs) get now fs b) as [r1 fs1] eqn:Eb.
  destruct (materializeBlob_effect rs get now fs b r1 fs1 Hrs Eb) as (Hf & Hd & _).
  destruct r1 as [[]|e].
  - destruct (IH fs1 r fs' Hrs H) as [Hf' Hd']. split.
    + intros q. destruct (Hf' q) as [->|(Hi & b' & Hb & ?)]; [|right; split; [done|]; exists b'; set_solver].
      destruct (Hf q) as [->|(Ha & -> & Hi)]; [by left|]. right. split; [done|]. exists b. set_solver.
    + intros q Hq. destruct (Hd' q Hq) as [Hq1|?]; [by apply Hd|by right].
  - simplify_eq. split; [|done]. intros q.
    destruct (Hf q) as [->|(Ha & -> & Hi)]; [by left|]. right. split; [done|]. exists b. set_solver.
Qed.

(** The files below [rs] are the relative blobs of the list: each is there,
    and no other file is. *)
Definition stagedTree (blake3 : string -> string) (rs : list string) (blobs : list WireBlob) (fs : FS) : Prop :=
  (forall b, b ∈ blobs -> isAbs (wbPath b) = false ->
    is_Some (fsFiles fs !! comps (blobDst (absOf rs) (wbPath b)))) /\
  (forall q v t, inside rs q -> fsFiles fs !! q = Some (v, t) ->
    exists b, b ∈ blobs /\ isAbs (wbPath b) = false /\ q = comps (blobDst (absOf rs) (wbPath b)) /\
      blake3 v = wbDigest b).

Lemma stagedTree_files blake3 rs blobs fs fs' :
  fsFiles fs' = fsFiles fs -> stagedTree blake3 rs blobs fs -> stagedTree blake3 rs blobs fs'.
Proof. unfold stagedTree. by intros ->. Qed.

(** Staging more blobs into a staged tree, from a store that is addressed by
    content. *)
Lemma materialize_staged blake3 rs get now blobs : forall done fs fs',
  (forall b v, b ∈ blobs -> get (wbDigest b) = Ok (Some v) -> blake3 v = wbDigest b) ->
  Forall proper rs -> stagedTree blake3 rs done fs ->
  materializeCASBlobs (absOf rs) get now fs blobs = (Ok tt, fs') -> stagedTree blake3 rs (done ++ blobs) fs'.
Proof.
  induction blobs as [|b blobs IH]; intros done fs fs' Hget Hrs Hd H; cbn [materializeCASBlobs] in H.
  { simplify_eq. by rewrite app_nil_r. }
  destruct (materializeBlob (absOf rs) get now fs b) as [[[]|e] fs1] eqn:Eb; [|done].
  destruct (materializeBlob_effect rs get now fs b _ fs1 Hrs Eb) as (Hf & _ & Hv).
  change (done ++ b :: blobs) with (done ++ [b] ++ blobs). rewrite app_assoc.
  eapply IH; [|done| |exact H]; [intros; apply Hget; set_solver|]. clear IH H. destruct Hd as [Hall Honly].
  destruct (isAbs (wbPath b)) eqn:Ea.
  - assert (forall q, fsFiles fs1 !! q = fsFiles fs !! q) as Hsame by (intros q; by destruct (Hf q) as [|(? & _)]).
    split; [intros b' [Hb|Hb]%elem_of_app Ha|intros q v t Hi Hq].
    + rewrite Hsame. auto.
    + apply list_elem_of_singleton in Hb. congruence.
    + rewrite Hsame in Hq. destruct (Honly q v t Hi Hq) as (b' & ? & ?). exists b'. set_solver.
  - destruct (Hv eq_refl eq_refl) as (v & Hg & Hv'). split; [intros b' Hb Ha|intros q v' t Hi Hq].
    + apply elem_of_app in Hb as [Hb|Hb]; [|apply list_elem_of_singleton in Hb as ->; by eexists].
      destruct (Hf (comps (blobDst (absOf rs) (wbPath b')))) as [->|(_ & -> & _)]; [auto|by eexists].
    + destruct (decide (q = comps (blobDst (absOf rs) (wbPath b)))) as [->|Hne].
      * exists b. rewrite Hv' in Hq. injection Hq as <- <-. split_and!; [set_solver|done|done|].
        apply Hget; [set_solver|done].
      * destruct (Hf q) as [E|(_ & ? & _)]; [|done]. rewrite E in Hq.
        destruct (Honly q v' t Hi Hq) as (b' & ? & ?). exists b'. set_solver.
Qed.

(** The directory helpers create no file. *)
Lemma mkdirFull_files p fs : fsFiles (mkdirFull p fs).2 = fsFiles fs.
Proof. unfold mkdirFull, mkdirAll. by destruct (existsb _ _). Qed.

Lemma eachR_files {A} (f : A -> FS -> result unit * FS) l : forall fs,
  (forall x fs, fsFiles (f x fs).2 = fsFiles fs) -> fsFiles (eachR f l fs).2 = fsFiles fs.
Proof.
  induction l as [|x l IH]; intros fs Hf; cbn [eachR]; [done|]. pose proof (Hf x fs) as Hx.
  destruct (f x fs) as [[[]|e] fs1]; [|done]. cbn [snd] in Hx. by rewrite <- Hx, IH.
Qed.

Lemma mkRel_files src rel fs : fsFiles (mkRel src rel fs).2 = fsFiles fs.
Proof. unfold mkRel. destruct (String.eqb rel "" || String.eqb rel "."); [done|apply mkdirFull_files]. Qed.

Lemma mkdirSearchPaths_files args src fs : fsFiles (mkdirSearchPaths args src fs).2 = fsFiles fs.
Proof.
  unfold mkdirSearchPaths. destruct (String.eqb src ""); [done|]. apply eachR_files. clear fs. intros p fs.
  unfold mkOne. by repeat (case_match; [done || apply mkRel_files|]); apply mkRel_files.
Qed.

Lemma mkdirOutputParents_files args out fs : fsFiles (mkdirOutputParents args out fs).2 = fsFiles fs.
Proof.
  unfold mkdirOutputParents. destruct (String.eqb out ""); [done|]. apply eachR_files. clear fs. intros p fs.
  unfold mkdirOutputParent. destruct (String.eqb p ""); [done|].
  destruct (String.eqb (dir p) "" || String.eqb (dir p) "."); [done|apply mkdirFull_files].
Qed.

(** A cleaned relative path is relative. *)
Lemma clean_rel p : isAbs p = false -> isAbs (clean p) = false.
Proof.
  intros Hp. unfold clean. rewrite Hp.
  assert (Forall (fun c => c <> "" /\ containsByte c slash = false) (cleanComps false (splitOn slash p))) as H.
  { unfold cleanComps. apply Forall_rev. pose proof (splitOn_no_sep slash p) as Hs. revert Hs.
    assert (Forall (fun c => c <> "" /\ containsByte c slash = false) (@nil string)) as H0 by constructor.
    revert H0. generalize (@nil string) as out. generalize (splitOn slash p) as cs.
    induction cs as [|c cs IH]; intros out Ho Hs; [done|]. apply Forall_cons in Hs as [Hc Hs].
    cbn [foldl]. apply IH; [|done]. unfold cleanStep.
    destruct (String.eqb_spec c ""); [done|]. destruct (String.eqb_spec c "."); [done|]. cbn [orb].
    destruct (String.eqb_spec c ".."); [|by constructor].
    destruct out as [|o out]; [by repeat constructor|]. destruct (String.eqb o ".."); [by constructor|].
    by apply Forall_cons in Ho as [_ ?]. }
  destruct (String.eqb_spec (joinWith "/" (cleanComps false (splitOn slash p))) "") as [_|_]; [done|].
  destruct (cleanComps false (splitOn slash p)) as [|c cs]; [done|].
  apply Forall_cons in H as [[Hne Hc] _]. destruct c as [|x c]; [done|].
  cbn [containsByte] in Hc. apply orb_false_iff in Hc as [Hc _].
  destruct cs; unfold isAbs; cbn [joinWith String.append hasPrefix];
    rewrite ?andb_true_r; by rewrite Ascii.eqb_sym.
Qed.

(** ** Claims *)

(** Staging is confined and exact.  Whatever the blob list of a client,
    and also when staging fails half-way, files change only inside the
    source directory and directories are created only inside it or above
    it.  When staging succeeds and no two blobs name one file, every
    relative blob is the file at its path with the bytes the source store
    holds under its digest. *)
Theorem materialize_correct rs get now fs blobs r fs' :
  Forall proper rs -> materializeCASBlobs (absOf rs) get now fs blobs = (r, fs') ->
  (forall q, ~ inside rs q -> fsFiles fs' !! q = fsFiles fs !! q) /\
  (forall q, q ∈ fsDirs fs' -> q ∈ fsDirs fs \/ inside rs q \/ exists t, rs = q ++ t) /\
  (r = Ok tt ->
   NoDup (map (fun b => comps (blobDst (absOf rs) (wbPath b)))
     (List.filter (fun b => negb (isAbs (wbPath b))) blobs)) ->
   forall b, b ∈ blobs -> isAbs (wbPath b) = false -> exists v, get (wbDigest b) = Ok (Some v) /\
     fsFiles fs' !! comps (blobDst (absOf rs) (wbPath b)) = Some (v, now)).
Proof.
  intros Hrs H. destruct (materialize_effect rs get now blobs fs r fs' Hrs H) as [Hf Hd].
  split_and!; [|exact Hd|].
  { intros q Hq. by destruct (Hf q) as [->|[? _]]. }
  clear Hf Hd. revert fs H. induction blobs as [|b0 blobs IH]; intros fs H -> Hnd b Hb Ha; [set_solver|].
  cbn [materializeCASBlobs] in H.
  destruct (materializeBlob (absOf rs) get now fs b0) as [[[]|e] fs1] eqn:Eb; [|done].
  destruct (materializeBlob_effect rs get now fs b0 _ fs1 Hrs Eb) as (_ & _ & Hval).
  cbn [List.filter] in Hnd. apply elem_of_cons in Hb as [->|Hb].
  - destruct (Hval eq_refl Ha) as (v & Hg & Hv). exists v. split; [done|].
    rewrite Ha in Hnd. cbn [negb map] in Hnd. apply NoDup_cons in Hnd as [Hn _].
    destruct (materialize_effect rs get now blobs fs1 _ fs' Hrs H) as [Hf _].
    destruct (Hf (comps (blobDst (absOf rs) (wbPath b0)))) as [->|(_ & b' & Hb' & Ha' & E)]; [done|].
    exfalso. apply Hn, list_elem_of_fmap. exists b'. split; [done|].
    apply list_elem_of_In, filter_In. rewrite Ha'. split; [by apply list_elem_of_In|done].
  - eapply IH; try done. destruct (isAbs (wbPath b0)); cbn [negb map] in Hnd; [done|].
    by apply NoDup_cons in Hnd as [_ ?].
Qed.

Definition exGet (d : string) : result (option string) :=
  if String.eqb d "D1" then Ok (Some "int x;") else Ok None.
Definition exFS : FS := mkFS {[ []; ["tmp"]; ["tmp"; "s"] ]} ∅.

Lemma materialize_correct_witness :
  fsFiles (materializeCASBlobs "/tmp/s" exGet 3 exFS
    [mkWireBlob "/usr/include/stdio.h" "D9" 0; mkWireBlob "lib/../inc/x.h" "D1" 6]).2
    !! ["tmp"; "s"; "inc"; "x.h"] = Some ("int x;", 3%Z).
Proof.
  destruct (materialize_correct ["tmp"; "s"] exGet 3 exFS
    [mkWireBlob "/usr/include/stdio.h" "D9" 0; mkWireBlob "lib/../inc/x.h" "D1" 6] (Ok tt)
    (materializeCASBlobs "/tmp/s" exGet 3 exFS
      [mkWireBlob "/usr/include/stdio.h" "D9" 0; mkWireBlob "lib/../inc/x.h" "D1" 6]).2) as (_ & _ & H).
  - repeat constructor; discriminate.
  - vm_compute. reflexivity.
  - destruct (H eq_refl) with (b := mkWireBlob "lib/../inc/x.h" "D1" 6) as (v & Hg & Hv);
      [vm_compute; apply NoDup_singleton|right; left|reflexivity|].
    injection Hg as <-. exact Hv.
Defined.

(** The artifact is read from the request's own output directory: every
    path [ReadOutput] opens, whatever the path asked for, lies below it. *)
Theorem readOutput_confined rs path q :
  Forall proper rs -> ReadOutput_path (absOf rs) path = Ok q -> below (absOf rs) q.
Proof.
  intros Hrs H. unfold ReadOutput_path, toSlash in H.
  change (inContainerOut +:+ "/") with "/out/" in H.
  rewrite <- (clean_absOf rs Hrs).
  destruct (hasPrefix (clean path) "/out/") eqn:Ep; cbn [negb andb] in H.
  - destruct (isAbs path) eqn:Ea.
    + destruct (clean_abs_shape path Ea) as (cs & Hcs & E). rewrite E in H, Ep.
      assert (join [absOf rs; trimPrefix (absOf cs) "/out/"] = q) as <- by congruence. clear H.
      apply hasPrefix_spec in Ep as [r Ep].
      assert (cs = "out" :: splitOn slash r) as Ecs.
      { rewrite <- (comps_absOf cs Hcs), Ep. unfold comps, trimPrefix. cbn. done. }
      unfold trimPrefix. rewrite Ep, hasPrefix_app, sdrop_app. apply join_below; [apply isAbs_absOf|].
      subst cs. apply Forall_cons in Hcs as [_ Hcs].
      assert (cleanComps false (splitOn slash r) = splitOn slash r) as ->.
      { unfold cleanComps. assert (forall out, foldl (cleanStep false) out (splitOn slash r)
          = foldl (cleanStep true) out (splitOn slash r)) as ->.
        { clear -Hcs. induction Hcs as [|c cs (_ & _ & Hc & _) _ IH]; intros out; [done|]. cbn [foldl].
          rewrite IH. unfold cleanStep. by rewrite (proj2 (String.eqb_neq _ _) Hc). }
        rewrite foldl_clean_proper by done. by rewrite app_nil_r, rev_involutive. }
      destruct (splitOn slash r) as [|c cs]; [done|]. apply Forall_cons in Hcs as [(_ & _ & ? & _) _].
      cbn. congruence.
    + apply clean_rel in Ea. unfold isAbs in Ea. by rewrite (hasPrefix_trans _ "/out/" "/") in Ea.
  - destruct (String.eqb_spec (clean path) inContainerOut) as [E|]; [|done].
    cbn [negb] in H.
    assert (join [absOf rs; trimPrefix (clean path) "/out/"] = q) as <- by congruence. rewrite E.
    apply join_below; [apply isAbs_absOf|]. vm_compute. discriminate.
Qed.

Lemma readOutput_confined_witness : below "/tmp/o" "/tmp/o/b/x.o".
Proof.
  apply (readOutput_confined ["tmp"; "o"] "/out/a/../../out/b/x.o");
    [repeat constructor; discriminate|vm_compute; reflexivity].
Defined.

(** Directories are created outside the staging area.  The helpers that
    prepare search and output directories join the path of an argument
    without the check blob paths get: a relative [-I] or an output path with
    [..] makes directories anywhere on the worker host. *)
Theorem mkdir_escapes :
  let dirsOf (r : result unit * FS) := elements (fsDirs r.2) in
  ["etc"; "evil"] ∈ dirsOf (mkdirSearchPaths ["-I../../etc/evil"] "/tmp/s" exFS) /\
  ["etc"; "evil"] ∈ dirsOf (mkdirOutputParents ["-o"; "/out/../../etc/evil/x.o"] "/tmp/s" exFS).
Proof. split; apply list_elem_of_In; in_list. Qed.

(** The unisolated runtime breaks projects with a directory named out.
    The two roots are replaced one after the other, so the [/out/] inside a
    translated source path is taken for the output mount. *)
Theorem translate_mangles_out :
  translateExecPath "/src/out/a.c" "/tmp/s" "/tmp/o" = "/tmp/s/tmp/o/a.c" /\
  translateExecPath "/src/lib/a.c" "/tmp/s" "/tmp/o" = "/tmp/s/lib/a.c".
Proof. split; vm_compute; reflexivity. Qed.
