(* ===== verification/WorkerCAS.v ===== *)
(** * WorkerCAS: the content-addressed side of the worker
      ([internal/worker/cas.go]) and its token checks ([worker.go]).

    The streaming RPCs are functions of the sequence of messages received
    and of how the stream ends ([None] is EOF, [Some e] an error of [Recv]).
    The source store is any store that meets [StoreLaws], in the namespace
    source/tenant.  [blake3] stands for the third-party hash and [parseJWT]
    for [jwt.Parse] with the scheduler's key and the EdDSA method.  Namespace
    panics on an invalid tenant id: [Panicked]. *)

From S2P Require Import Prelude GoStrings GoPath GoTime Enum Invocation Parser CacheKey Manifest.
From S2P Require Import Effects Store Scheduler Staging.

(** ** Scheduler tokens *)

Section Tokens.
  Context (parseJWT : string -> option (gmap string Claim)) (workerID : string).

Definition claimIs (claims : gmap string Claim) (k v : string) : bool :=
  match claims !! k with Some (ClaimString s) => String.eqb s v | _ => false end.

Definition parseSchedulerToken (rawToken tenantID : string) : result (gmap string Claim) :=
  match parseJWT rawToken with
  | None => Err "invalid scheduler token"
  | Some claims =>
      if negb (claimIs claims "tenant_id" tenantID)
      then Err "scheduler token tenant ID does not match request"
      else if negb (claimIs claims "worker_id" workerID)
      then Err "scheduler token worker ID does not match request"
      else Ok claims
  end.

Definition validateSchedulerToken (rawToken tenantID imageDigest : string) : result unit :=
  let! claims := parseSchedulerToken rawToken tenantID in
  if negb (claimIs claims "image_digest" imageDigest)
  then Err "scheduler token image digest does not match request" else Ok tt.

Definition validateSchedulerTokenForCAS (rawToken tenantID : string) : result unit :=
  let! _ := parseSchedulerToken rawToken tenantID in Ok tt.
End Tokens.

(** ** Manifest verification *)

Record CasDescriptor := mkCasDescriptor {
  casManifestDigest : string;
  casBlobs : list WireBlob
}.

(** A blob as the manifest digest sees it; digests must have 32 bytes. *)
Definition wireBlobRef (b : WireBlob) : result BlobRef :=
  if negb (slen (wbDigest b) =? 32) then Err ("blob digest for " +:+ wbPath b +:+ " is not 32 bytes")
  else Ok (mkBlobRef (wbPath b) (wbDigest b) (wbSize b)).

(** [verifyManifestDigest]; blobs with the same path keep their order. *)
Definition verifyManifestDigest (blake3 : string -> string) (cas : CasDescriptor) : result string :=
  if negb (slen (casManifestDigest cas) =? 32) then Err "manifest_digest must be 32 bytes"
  else let! blobs := mapR wireBlobRef (casBlobs cas) in
       let recomputed := AggregateManifestDigest blake3 (isort blobPathLe blobs) in
       if negb (String.eqb recomputed (casManifestDigest cas))
       then Err "manifest digest does not match (path, blob digest) list"
       else Ok recomputed.

(** ** Streams *)

Record BlobDigest := mkBlobDigest {
  bdDigest : string;
  bdTenantId : string;
  bdSchedulerToken : string
}.

Inductive BlobChunk :=
  | ChunkHeader (h : option BlobDigest)
  | ChunkData (data : string)
  | ChunkOther.

Definition blobData : string := "data".
Definition sourceNs (tenant : string) : list string := ["source"; tenant].
Definition maxSourceBlobBytes : Z := 256 * 2 ^ 20.

(** The tenant a stream is pinned to; the empty string is not pinned yet. *)
Definition pinTenant (streamTenant tenant : string) : option string :=
  if String.eqb streamTenant "" then Some tenant
  else if String.eqb tenant streamTenant then Some streamTenant else None.

Section Streams.
  Context {S : Type} `{!StoreOps S} (blake3 : string -> string)
    (validToken : string -> string -> result unit).

(** The loop of [FindMissingBlobs]: the digests sent back so far come out
    with the outcome. *)
Fixpoint FindMissingBlobs (s : S) (streamTenant : string) (reqs : list BlobDigest) (fin : option string)
    : list BlobDigest * outcome unit :=
  match reqs with
  | [] => ([], match fin with None => Done tt | Some e => Failed e end)
  | req :: rest =>
      if String.eqb (bdDigest req) "" then ([], Failed "blob digest must not be empty")
      else if String.eqb (bdTenantId req) "" then ([], Failed "tenant_id is required")
      else if negb (is_ok (validToken (bdSchedulerToken req) (bdTenantId req)))
      then ([], Failed "scheduler token")
      else match pinTenant streamTenant (bdTenantId req) with
      | None => ([], Failed "tenant_id changed mid-stream")
      | Some pinned =>
          if negb (is_ok (validateNamespace (bdTenantId req))) then ([], Panicked)
          else match sHas s (sourceNs (bdTenantId req)) (bdDigest req) with
          | Err e => ([], Failed ("source store has: " +:+ e))
          | Ok true => FindMissingBlobs s pinned rest fin
          | Ok false => let '(sent, o) := FindMissingBlobs s pinned rest fin in (req :: sent, o)
          end
      end
  end.

(** The blob being received; the hasher has seen [bpBuf]. *)
Record blobInProgress := mkBlobInProgress {
  bpHeader : BlobDigest;
  bpBuf : string;
  bpRejected : bool
}.

Record UploadResult := mkUploadResult {
  RejectedDigests : list string;
  BlobsReceived : nat;
  BytesReceived : nat
}.

Record UploadState := mkUploadState {
  uStore : S;
  uActive : option blobInProgress;
  uTenant : string;
  uResult : UploadResult
}.

Definition reject (d : string) (r : UploadResult) : UploadResult :=
  mkUploadResult (RejectedDigests r ++ [d]) (BlobsReceived r) (BytesReceived r).

(** [commit]: the blob in progress goes to the store or to the rejects. *)
Definition commit (now : Z) (st : UploadState) : outcome unit * UploadState :=
  match uActive st with
  | None => (Done tt, st)
  | Some b =>
      let st0 := mkUploadState (uStore st) None (uTenant st) (uResult st) in
      let rejected := mkUploadState (uStore st) None (uTenant st)
                        (reject (bdDigest (bpHeader b)) (uResult st)) in
      if bpRejected b then (Done tt, rejected)
      else let recomputed := blake3 (bpBuf b) in
      if negb (String.eqb recomputed (bdDigest (bpHeader b))) then (Done tt, rejected)
      else if negb (is_ok (validateNamespace (bdTenantId (bpHeader b)))) then (Panicked, st0)
      else let '(r, s') := sPut (uStore st) (sourceNs (bdTenantId (bpHeader b))) recomputed blobData
                             (bpBuf b) now in
      match r with
      | Err e => (Failed ("store source blob: " +:+ e), mkUploadState s' None (uTenant st) (uResult st))
      | Ok _ => (Done tt, mkUploadState s' None (uTenant st)
                   (mkUploadResult (RejectedDigests (uResult st)) (Datatypes.S (BlobsReceived (uResult st)))
                      (BytesReceived (uResult st) + slen (bpBuf b))))
      end
  end.

(** A header, after the previous blob was committed. *)
Definition openBlob (h : option BlobDigest) (st : UploadState) : outcome unit * UploadState :=
  match h with
  | None => (Failed "blob header missing 32-byte digest", st)
  | Some h =>
      if negb (slen (bdDigest h) =? 32) then (Failed "blob header missing 32-byte digest", st)
      else if String.eqb (bdTenantId h) "" then (Failed "blob header missing tenant_id", st)
      else if negb (is_ok (validToken (bdSchedulerToken h) (bdTenantId h))) then (Failed "scheduler token", st)
      else match pinTenant (uTenant st) (bdTenantId h) with
      | None => (Failed "tenant_id changed mid-stream", st)
      | Some t => (Done tt, mkUploadState (uStore st) (Some (mkBlobInProgress h "" false)) t (uResult st))
      end
  end.

(** A data chunk. *)
Definition addData (data : string) (st : UploadState) : outcome unit * UploadState :=
  match uActive st with
  | None => (Failed "data chunk before any blob header", st)
  | Some b =>
      if bpRejected b then (Done tt, st)
      else let b' := if (maxSourceBlobBytes <? Z.of_nat (slen (bpBuf b)) + Z.of_nat (slen data))%Z
                     then mkBlobInProgress (bpHeader b) "" true
                     else mkBlobInProgress (bpHeader b) (bpBuf b +:+ data) false in
           (Done tt, mkUploadState (uStore st) (Some b') (uTenant st) (uResult st))
  end.

Definition onMessage (now : Z) (m : BlobChunk) (st : UploadState) : outcome unit * UploadState :=
  match m with
  | ChunkHeader h =>
      let '(o, st') := commit now st in
      match o with Done _ => openBlob h st' | _ => (o, st') end
  | ChunkData data => addData data st
  | ChunkOther => (Failed "unknown BlobChunk body", st)
  end.

Fixpoint uploadLoop (now : Z) (msgs : list BlobChunk) (fin : option string) (st : UploadState)
    : outcome UploadResult * UploadState :=
  match msgs with
  | [] =>
      match fin with
      | Some e => (Failed e, st)
      | None => let '(o, st') := commit now st in
                (match o with Done _ => Done (uResult st') | Failed e => Failed e | Panicked => Panicked end, st')
      end
  | m :: rest =>
      let '(o, st') := onMessage now m st in
      match o with
      | Done _ => uploadLoop now rest fin st'
      | Failed e => (Failed e, st')
      | Panicked => (Panicked, st')
      end
  end.

Definition UploadBlobs (now : Z) (s : S) (msgs : list BlobChunk) (fin : option string)
    : outcome UploadResult * S :=
  let '(o, st) := uploadLoop now msgs fin (mkUploadState s None "" (mkUploadResult [] 0 0)) in
  (o, uStore st).
End Streams.
#[global] Arguments UploadState S : clear implicits.

(** ** Facts *)

Section StreamFacts.
  Context {S : Type} `{!StoreOps S, !StoreLaws S} (blake3 : string -> string)
    (validToken : string -> string -> result unit).
  Notation commit := (commit blake3).
  Notation onMessage := (onMessage blake3 validToken).
  Notation uploadLoop := (uploadLoop blake3 validToken).

(** Every source blob is stored under the hash of its bytes. *)
Definition sourceOk (s : S) : Prop :=
  forall t k v, k <> "" -> sGet s (sourceNs t) k blobData = Ok (Some v) -> blake3 v = k.

(** A blob of the tenant with this digest can be read. *)
Definition present (s : S) (t k : string) : Prop :=
  sHas s (sourceNs t) k = Ok true /\
  exists v, sGet s (sourceNs t) k blobData = Ok (Some v) /\ blake3 v = k.

Context (blake3_ne : forall x, blake3 x <> "").

Lemma data_apart t k t' k' :
  k <> "" -> k' <> "" -> (t, k) <> (t', k') -> apart (sourceNs t) k blobData (sourceNs t') k' blobData.
Proof.
  intros Hk Hk' Hne. unfold apart. split_and!; try done. unfold sourceNs.
  intros E. apply Hne. congruence.
Qed.

Lemma tenant_apart t k n t' k' n' :
  k <> "" -> k' <> "" -> t <> t' -> apart (sourceNs t) k n (sourceNs t') k' n'.
Proof. intros. unfold apart, sourceNs. split_and!; try done; congruence. Qed.

(** A verified put keeps the addressing, also when it fails. *)
Lemma put_sourceOk (s : S) t v now r s' :
  sourceOk s -> sPut s (sourceNs t) (blake3 v) blobData v now = (r, s') -> sourceOk s'.
Proof.
  intros Hok Hp t' k' v' Hk' Hg. destruct (decide ((t, blake3 v) = (t', k'))) as [E|Hne].
  - simplify_eq. destruct (get_put_any _ _ _ _ _ _ _ _ Hp Hk') as [Hs|Hs]; rewrite Hs in Hg;
      [by eapply Hok|congruence].
  - rewrite (get_put_apart _ _ _ _ _ _ _ _ _ _ _ Hp) in Hg; [by eapply Hok|]. by apply data_apart.
Qed.

Lemma put_present (s : S) t v now r s' t' k' :
  k' <> "" -> present s t' k' -> sPut s (sourceNs t) (blake3 v) blobData v now = (r, s') ->
  present s' t' k'.
Proof.
  intros Hk' [Hh (v' & Hg & Hv)] Hp. split; [by eapply has_put_mono|].
  destruct (decide ((t, blake3 v) = (t', k'))) as [E|Hne].
  - injection E as <- <-. destruct (get_put_any _ _ _ _ _ _ _ _ Hp Hk') as [Hs|Hs]; rewrite Hs; eauto.
  - exists v'. split; [|done]. rewrite (get_put_apart _ _ _ _ _ _ _ _ _ _ _ Hp); [done|]. by apply data_apart.
Qed.

(** What committing the blob in progress does to the store. *)
Lemma commit_store now (st : UploadState S) o st' :
  commit now st = (o, st') ->
  uTenant st' = uTenant st /\ uActive st' = None /\
  (uStore st' = uStore st \/
   exists b r, uActive st = Some b /\ bpRejected b = false /\ blake3 (bpBuf b) = bdDigest (bpHeader b) /\
     sPut (uStore st) (sourceNs (bdTenantId (bpHeader b))) (blake3 (bpBuf b)) blobData (bpBuf b) now
     = (r, uStore st') /\ (o = Done tt -> r = Ok tt)).
Proof.
  intros H. unfold WorkerCAS.commit in H. destruct (uActive st) as [b|] eqn:Ea;
    [|simplify_eq; by split_and!; [| |left]].
  destruct (bpRejected b) eqn:Er; [simplify_eq; by split_and!; [| |left]|].
  destruct (String.eqb_spec (blake3 (bpBuf b)) (bdDigest (bpHeader b))) as [Ed|];
    cbn [negb] in H; [|simplify_eq; by split_and!; [| |left]].
  destruct (is_ok _); cbn [negb] in H; [|simplify_eq; by split_and!; [| |left]].
  destruct (sPut _ _ _ _ _ _) as [[[]|e] s'] eqn:Ep; simplify_eq; cbn;
    (split_and!; [done|done|]); right; eexists b, _; by split_and!.
Qed.

(** The tenant of the blob in progress showed a valid token. *)
Definition authorised (msgs : list BlobChunk) (t : string) : Prop :=
  exists h, ChunkHeader (Some h) ∈ msgs /\ bdTenantId h = t /\
    is_ok (validToken (bdSchedulerToken h) t) = true.

Definition activeOk (msgs : list BlobChunk) (st : UploadState S) : Prop :=
  forall b, uActive st = Some b -> authorised msgs (bdTenantId (bpHeader b)).

(** The store of [s'] differs from that of [s] for authorised tenants only. *)
Definition changesOnly (msgs : list BlobChunk) (s s' : S) : Prop :=
  forall t k n, k <> "" -> sGet s' (sourceNs t) k n = sGet s (sourceNs t) k n \/ authorised msgs t.

Lemma commit_inv now msgs (st : UploadState S) o st' :
  commit now st = (o, st') -> activeOk msgs st ->
  (sourceOk (uStore st) -> sourceOk (uStore st')) /\ changesOnly msgs (uStore st) (uStore st') /\
  (forall t k, k <> "" -> present (uStore st) t k -> present (uStore st') t k).
Proof.
  intros H Ha. destruct (commit_store now st o st' H) as (_ & _ & [->|(b & r & Eb & _ & _ & Hp & _)]).
  { split_and!; [done|by left|done]. }
  split_and!.
  - intros Hok. by eapply put_sourceOk.
  - intros t k n Hk. destruct (decide (bdTenantId (bpHeader b) = t)) as [<-|Hne]; [right; by apply Ha|].
    left. eapply get_put_apart; [exact Hp|]. by apply tenant_apart.
  - intros t k Hk Hpr. by eapply put_present.
Qed.

Lemma onMessage_inv now msgs m (st : UploadState S) o st' :
  onMessage now m st = (o, st') -> m ∈ msgs -> activeOk msgs st ->
  activeOk msgs st' /\ (sourceOk (uStore st) -> sourceOk (uStore st')) /\
  changesOnly msgs (uStore st) (uStore st') /\
  (forall t k, k <> "" -> present (uStore st) t k -> present (uStore st') t k).
Proof.
  intros H Hm Ha. assert (changesOnly msgs (uStore st) (uStore st)) as Hrefl by by left.
  destruct m as [h|data|]; cbn [WorkerCAS.onMessage] in H.
  - destruct (commit now st) as [oc st1] eqn:Ec.
    destruct (commit_inv now msgs st oc st1 Ec Ha) as (H1 & H2 & H3).
    destruct (commit_store now st oc st1 Ec) as (_ & Hn & _).
    assert (activeOk msgs st1) as Ha1 by (intros b; by rewrite Hn).
    destruct oc as [[]|e|]; [|by simplify_eq..].
    unfold openBlob in H. destruct h as [h|]; [|by simplify_eq].
    destruct (negb _); [by simplify_eq|]. destruct (String.eqb (bdTenantId h) ""); [by simplify_eq|].
    destruct (is_ok (validToken (bdSchedulerToken h) (bdTenantId h))) eqn:Ev; cbn [negb] in H;
      [|by simplify_eq].
    destruct (pinTenant _ _); simplify_eq; [|done..]. cbn. split_and!; try done.
    intros b [= <-]. cbn. by exists h.
  - unfold addData in H. destruct (uActive st) as [b|] eqn:Eb; [|by simplify_eq].
    destruct (bpRejected b); simplify_eq; cbn; [done|]. split_and!; try done.
    intros b' Hb'. apply (inj Some) in Hb' as <-. specialize (Ha b Eb). by case_match.
  - by simplify_eq.
Qed.

Lemma uploadLoop_inv now all msgs : forall fin (st : UploadState S) o st',
  uploadLoop now msgs fin st = (o, st') -> (forall m, m ∈ msgs -> m ∈ all) -> activeOk all st ->
  (sourceOk (uStore st) -> sourceOk (uStore st')) /\ changesOnly all (uStore st) (uStore st') /\
  (forall t k, k <> "" -> present (uStore st) t k -> present (uStore st') t k).
Proof.
  induction msgs as [|m msgs IH]; intros fin st o st' H Hall Ha; cbn [WorkerCAS.uploadLoop] in H.
  - destruct fin as [e|]; [simplify_eq; split_and!; [done|by left|done]|].
    destruct (commit now st) as [oc st1] eqn:Ec. simplify_eq. by eapply commit_inv.
  - destruct (onMessage now m st) as [om st1] eqn:Em.
    destruct (onMessage_inv now all m st om st1 Em) as (Ha1 & H1 & H2 & H3); [set_solver|done|].
    destruct om as [[]|e|]; [|by simplify_eq..].
    destruct (IH fin st1 o st' H) as (J1 & J2 & J3); [set_solver|done|]. split_and!; [tauto| |].
    + intros t k n Hk. destruct (J2 t k n Hk) as [->|?]; [by apply H2|by right].
    + intros t k Hk Hp. by apply J3, H3.
Qed.

Lemma uploadLoop_app now pre : forall m (st : UploadState S) r st',
  uploadLoop now (pre ++ m) None st = (Done r, st') ->
  exists st1, uploadLoop now m None st1 = (Done r, st').
Proof.
  induction pre as [|x pre IH]; intros m st r st' H; cbn [app WorkerCAS.uploadLoop] in H; [eauto|].
  destruct (onMessage now x st) as [[[]|e|] st1]; [|done..]. by eapply IH.
Qed.

(** The end of a blob's chunks: the stream ends or the next header comes. *)
Definition atFrameEnd (rest : list BlobChunk) : Prop :=
  rest = [] \/ exists h rest', rest = ChunkHeader h :: rest'.

Lemma commit_present now (st : UploadState S) b st' :
  uActive st = Some b -> bpRejected b = false -> blake3 (bpBuf b) = bdDigest (bpHeader b) ->
  commit now st = (Done tt, st') ->
  is_ok (validateNamespace (bdTenantId (bpHeader b))) = true /\
  present (uStore st') (bdTenantId (bpHeader b)) (bdDigest (bpHeader b)).
Proof.
  intros Ha Hr Hd H. unfold WorkerCAS.commit in H. rewrite Ha, Hr, Hd, String.eqb_refl in H.
  cbn [negb] in H. destruct (is_ok _); cbn [negb] in H; [|done].
  destruct (sPut _ _ _ _ _ _) as [[[]|e] s'] eqn:Ep; simplify_eq. cbn. split; [done|].
  split; [by eapply has_put|]. exists (bpBuf b). split; [by eapply get_put_same|done].
Qed.

Definition joined (chunks : list string) : string := joinWith "" chunks.

Lemma joined_cons d chunks : joined (d :: chunks) = d +:+ joined chunks.
Proof. unfold joined. destruct chunks; cbn; [by rewrite sapp_nil_r|done]. Qed.

Lemma frame_present now chunks : forall rest (st : UploadState S) b r st',
  atFrameEnd rest -> uActive st = Some b -> bpRejected b = false ->
  (Z.of_nat (slen (bpBuf b +:+ joined chunks)) <= maxSourceBlobBytes)%Z ->
  blake3 (bpBuf b +:+ joined chunks) = bdDigest (bpHeader b) ->
  uploadLoop now (map ChunkData chunks ++ rest) None st = (Done r, st') ->
  is_ok (validateNamespace (bdTenantId (bpHeader b))) = true /\
  present (uStore st') (bdTenantId (bpHeader b)) (bdDigest (bpHeader b)).
Proof.
  induction chunks as [|d chunks IH]; intros rest st b r st' Hend Ha Hr Hsz Hd H.
  - change (joined []) with "" in *. rewrite sapp_nil_r in Hd. cbn [map app] in H.
    destruct Hend as [->|(h & rest' & ->)]; cbn [WorkerCAS.uploadLoop] in H.
    + destruct (commit now st) as [[[]|e|] st1] eqn:Ec; simplify_eq. by eapply commit_present.
    + destruct (onMessage now (ChunkHeader h) st) as [[[]|e|] st1] eqn:Em; [|done..].
      cbn [WorkerCAS.onMessage] in Em. destruct (commit now st) as [[[]|e|] st0] eqn:Ec; [|done..].
      destruct (commit_present now st b st0 Ha Hr Hd Ec) as [Hv Hp]. split; [done|].
      assert (uStore st1 = uStore st0) as Es.
      { unfold openBlob in Em. destruct h; [|done]. repeat case_match; by simplify_eq. }
      rewrite <- Es in Hp.
      destruct (uploadLoop_inv now (ChunkHeader h :: rest') rest' None st1 (Done r) st' H) as (_ & _ & Hpr);
        [set_solver| |by apply Hpr; [rewrite <- Hd|]].
      intros b' Hb'. unfold openBlob in Em. destruct h as [h|]; [|done].
      do 2 (case_match; [done|]).
      destruct (is_ok (validToken _ _)) eqn:Ev; [|done]. cbn [negb] in Em.
      destruct (pinTenant _ _); simplify_eq. cbn in Hb'. simplify_eq. exists h. cbn. split_and!; [left|done|done].
  - rewrite joined_cons in *. rewrite <- sapp_assoc in Hsz, Hd. cbn [map app WorkerCAS.uploadLoop] in H.
    cbn [WorkerCAS.onMessage] in H. unfold addData in H. rewrite Ha, Hr in H.
    rewrite (proj2 (Z.ltb_ge _ _)) in H by (rewrite !slen_app in Hsz; lia).
    refine (IH rest _ (mkBlobInProgress (bpHeader b) (bpBuf b +:+ d) false) r st' Hend _ _ _ _ H); done.
Qed.

(** *** Uploads without a rejected blob *)

Lemma commit_keeps_present now (st : UploadState S) o st' t k :
  k <> "" -> commit now st = (o, st') -> present (uStore st) t k -> present (uStore st') t k.
Proof.
  intros Hk H Hp. destruct (commit_store now st o st' H) as (_ & _ & [->|(b & r & _ & _ & _ & Hput & _)]); [done|].
  by eapply put_present.
Qed.

Lemma openBlob_Done h (st st' : UploadState S) :
  openBlob validToken h st = (Done tt, st') ->
  uStore st' = uStore st /\ uResult st' = uResult st /\
  exists h', h = Some h' /\ uActive st' = Some (mkBlobInProgress h' "" false) /\ slen (bdDigest h') = 32.
Proof.
  unfold openBlob. destruct h as [h|]; [|done]. destruct (Nat.eqb_spec (slen (bdDigest h)) 32) as [Hl|]; cbn [negb]; [|done].
  destruct (String.eqb _ _); [done|]. destruct (negb _); [done|].
  destruct (pinTenant _ _); [|done]. intros [= <-]. split_and!; [done|done|]. by exists h.
Qed.

(** Committing a blob in progress stores it or adds to the rejects. *)
Lemma commit_accounts now (st st' : UploadState S) :
  commit now st = (Done tt, st') -> RejectedDigests (uResult st') = [] ->
  RejectedDigests (uResult st) = [] /\
  forall b, uActive st = Some b -> present (uStore st') (bdTenantId (bpHeader b)) (bdDigest (bpHeader b)).
Proof.
  intros H Hr. destruct (uActive st) as [b|] eqn:Ea.
  - assert (forall r d, RejectedDigests (reject d r) <> []) as Hrej.
    { intros r d. unfold reject. cbn. by destruct (RejectedDigests r). }
    pose proof H as H0. unfold WorkerCAS.commit in H0. rewrite Ea in H0.
    destruct (bpRejected b) eqn:Eb; [injection H0 as <-; by apply Hrej in Hr|].
    destruct (String.eqb_spec (blake3 (bpBuf b)) (bdDigest (bpHeader b))) as [Ed|]; cbn [negb] in H0;
      [|injection H0 as <-; by apply Hrej in Hr].
    split.
    + destruct (is_ok _); cbn [negb] in H0; [|done]. destruct (sPut _ _ _ _ _ _) as [[[]|e] s']; [|done].
      by injection H0 as <-.
    + intros b' [= <-]. by eapply commit_present.
  - unfold WorkerCAS.commit in H. rewrite Ea in H. by injection H as <-.
Qed.

Lemma uploadLoop_present now msgs : forall fin (st : UploadState S) o st' t k,
  k <> "" -> uploadLoop now msgs fin st = (o, st') -> present (uStore st) t k -> present (uStore st') t k.
Proof.
  induction msgs as [|m msgs IH]; intros fin st o st' t k Hk H Hp; cbn [WorkerCAS.uploadLoop] in H.
  - destruct fin; [by injection H as _ <-|]. destruct (commit now st) as [oc st1] eqn:Ec.
    injection H as _ <-. by eapply commit_keeps_present.
  - destruct (onMessage now m st) as [om st1] eqn:Em.
    assert (present (uStore st1) t k) as Hp1.
    { destruct m as [h|data|]; cbn [WorkerCAS.onMessage] in Em.
      - destruct (commit now st) as [oc st2] eqn:Ec. pose proof (commit_keeps_present now st oc st2 t k Hk Ec Hp) as Hp2.
        destruct oc as [[]|e|]; [|by injection Em as _ <-..].
        unfold openBlob in Em. repeat case_match; by injection Em as _ <-.
      - unfold addData in Em. repeat case_match; by injection Em as _ <-.
      - by injection Em as _ <-. }
    destruct om as [[]|e|]; [by eapply IH|by injection H as _ <-..].
Qed.

Lemma uploadLoop_accounts now msgs : forall (st : UploadState S) r st',
  uploadLoop now msgs None st = (Done r, st') -> RejectedDigests r = [] ->
  RejectedDigests (uResult st) = [] /\
  (forall b, uActive st = Some b -> bdDigest (bpHeader b) <> "" ->
    present (uStore st') (bdTenantId (bpHeader b)) (bdDigest (bpHeader b))) /\
  forall h, ChunkHeader (Some h) ∈ msgs -> present (uStore st') (bdTenantId h) (bdDigest h).
Proof.
  induction msgs as [|m msgs IH]; intros st r st' H Hr; cbn [WorkerCAS.uploadLoop] in H.
  - destruct (commit now st) as [[[]|e|] st1] eqn:Ec; [|done..]. injection H as <- <-.
    destruct (commit_accounts now st st1 Ec Hr) as [H1 H2]. split_and!; [done|auto|]. intros h Hh. by apply elem_of_nil in Hh.
  - destruct (onMessage now m st) as [[[]|e|] st1] eqn:Em; [|done..].
    destruct (IH st1 r st' H Hr) as (H1 & H2 & H3). clear IH.
    destruct m as [h|data|]; cbn [WorkerCAS.onMessage] in Em; [| |done].
    + destruct (commit now st) as [[[]|e|] st2] eqn:Ec; [|done..].
      destruct (openBlob_Done h st2 st1 Em) as (Es & Er & h' & -> & Ea & Hl). rewrite Er in H1.
      destruct (commit_accounts now st st2 Ec H1) as [J1 J2]. split_and!; [done| |].
      * intros b Hb Hne. eapply uploadLoop_present; [done|exact H|]. rewrite Es. by apply J2.
      * intros h0 [E|Hin]%elem_of_cons; [|by apply H3]. assert (h0 = h') as -> by congruence.
        apply (H2 (mkBlobInProgress h' "" false) Ea). cbn. intros E0. by rewrite E0 in Hl.
    + unfold addData in Em. destruct (uActive st) as [b|] eqn:Eb; [|done]. split_and!.
      * destruct (bpRejected b); injection Em as <-; done.
      * intros b' [= <-] Hne. destruct (bpRejected b); injection Em as <-; [by apply H2|].
        specialize (H2 _ eq_refl). by destruct (maxSourceBlobBytes <? _)%Z; apply H2.
      * intros h [E|Hin]%elem_of_cons; [done|]. by apply H3.
Qed.
End StreamFacts.

(** *** Missing blobs *)

Definition missing {S} `{!StoreOps S} (s : S) (q : BlobDigest) : bool :=
  match sHas s (sourceNs (bdTenantId q)) (bdDigest q) with Ok b => negb b | Err _ => true end.

Lemma findMissing_head {S} `{!StoreOps S} validToken (s : S) pinned q reqs fin sent :
  FindMissingBlobs validToken s pinned (q :: reqs) fin = (sent, Done tt) ->
  exists sent', sent = (if missing s q then q :: sent' else sent') /\
    (pinned <> "" -> bdTenantId q = pinned) /\
    (bdTenantId q = bdTenantId q /\ is_ok (validToken (bdSchedulerToken q) (bdTenantId q)) = true) /\
    bdTenantId q <> "" /\ FindMissingBlobs validToken s (bdTenantId q) reqs fin = (sent', Done tt).
Proof.
  intros H. cbn [FindMissingBlobs] in H. unfold missing.
  destruct (String.eqb _ ""); [done|]. destruct (String.eqb_spec (bdTenantId q) "") as [|Ht]; [done|].
  destruct (is_ok (validToken _ _)) eqn:Ev; cbn [negb] in H; [|done].
  destruct (pinTenant pinned (bdTenantId q)) as [p|] eqn:Ep; [|done].
  assert (p = bdTenantId q /\ (pinned <> "" -> bdTenantId q = pinned)) as [-> Hpin].
  { unfold pinTenant in Ep. destruct (String.eqb_spec pinned ""); simplify_eq; [done|].
    destruct (String.eqb_spec (bdTenantId q) pinned); by simplify_eq. }
  destruct (negb (is_ok (validateNamespace _))); [done|].
  destruct (sHas s _ _) as [[]|e]; cbn [negb]; [by exists sent| |done].
  destruct (FindMissingBlobs _ _ _ _ _) as [sent' o'] eqn:Er. simplify_eq. by exists sent'.
Qed.

Lemma findMissing_pinned {S} `{!StoreOps S} validToken (s : S) reqs : forall t fin sent,
  t <> "" /\ FindMissingBlobs validToken s t reqs fin = (sent, Done tt) ->
  sent = List.filter (missing s) reqs /\
  Forall (fun q => bdTenantId q = t /\ is_ok (validToken (bdSchedulerToken q) t) = true) reqs.
Proof.
  induction reqs as [|q reqs IH]; intros t fin sent [Ht H].
  { cbn in H. destruct fin; by simplify_eq. }
  destruct (findMissing_head _ _ _ _ _ _ _ H) as (sent' & -> & Hp & Hv & Hne & H').
  specialize (Hp Ht). subst t. destruct (IH _ _ _ (conj Hne H')) as [-> Hf].
  split; [done|by constructor].
Qed.

(** A blob that is asked for is there or reported. *)
Lemma findMissing_reports {S} `{!StoreOps S} validToken (s : S) reqs fin sent :
  FindMissingBlobs validToken s "" reqs fin = (sent, Done tt) ->
  forall q, q ∈ reqs -> bdDigest q <> "" /\ (sHas s (sourceNs (bdTenantId q)) (bdDigest q) = Ok true \/ q ∈ sent).
Proof.
  enough (forall pinned sent, FindMissingBlobs validToken s pinned reqs fin = (sent, Done tt) -> forall q, q ∈ reqs ->
    bdDigest q <> "" /\ (sHas s (sourceNs (bdTenantId q)) (bdDigest q) = Ok true \/ q ∈ sent)) as E by (apply E).
  clear sent. induction reqs as [|q0 reqs IH]; intros pinned sent H q Hq; [by apply elem_of_nil in Hq|].
  cbn [FindMissingBlobs] in H. destruct (String.eqb_spec (bdDigest q0) ""); [done|].
  destruct (String.eqb _ _); [done|]. destruct (negb _); [done|]. destruct (pinTenant _ _); [|done].
  destruct (negb _); [done|]. destruct (sHas s _ _) as [[]|e] eqn:Eh; [| |done].
  - apply elem_of_cons in Hq as [->|Hq]; [by split; [|left]|by eapply IH].
  - destruct (FindMissingBlobs _ _ _ _ _) as [sent' o] eqn:Er. injection H as <- ->.
    apply elem_of_cons in Hq as [->|Hq]; [split; [done|right; by left]|].
    destruct (IH _ _ Er q Hq) as [? [?|?]]; (split; [done|]); [by left|right; by right].
Qed.

(** ** Claims *)

(** C20: The source store stays content-addressed, and one tenant's stream
    cannot touch another's blobs.  Whatever messages a client streams to
    [UploadBlobs] and however the stream ends, every source blob is stored
    under the BLAKE3 hash of its bytes if it was so before, and the blobs of a
    tenant change only if the stream carried a header for that tenant with a
    token the worker accepts for it. *)
Theorem upload_addressed {S} `{!StoreOps S, !StoreLaws S} blake3 validToken now (s s' : S) msgs fin o :
  (forall x, blake3 x <> "") -> UploadBlobs blake3 validToken now s msgs fin = (o, s') ->
  (sourceOk blake3 s -> sourceOk blake3 s') /\
  (forall t k n, k <> "" ->
    sGet s' (sourceNs t) k n = sGet s (sourceNs t) k n \/ authorised validToken msgs t).
Proof.
  intros Hne H. unfold UploadBlobs in H.
  destruct (uploadLoop _ _ _ _ _ _) as [o1 st] eqn:E. simplify_eq.
  by destruct (uploadLoop_inv blake3 validToken Hne now msgs msgs _ _ _ _ E) as (H1 & H2 & _).
Qed.

(** A 32-byte toy hash and two requests of the tenant acme. *)
Definition toyHash (x : string) : string := stake 32 (x +:+ zeros32).
Definition toyToken (raw tenant : string) : result unit :=
  if String.eqb raw ("tok-" +:+ tenant) then Ok tt else Err "bad".
Definition toyHead (data : string) : BlobDigest := mkBlobDigest (toyHash data) "acme" "tok-acme".
Definition toyMsgs : list BlobChunk :=
  [ChunkHeader (Some (toyHead "int y;")); ChunkData "int z;";
   ChunkHeader (Some (toyHead "int x;")); ChunkData "int"; ChunkData " x;"].
Definition toyStore : FS := (@UploadBlobs FS (disk_ops ["c"]) toyHash toyToken 5 emptyFS toyMsgs None).2.

Lemma toyHash_ne x : toyHash x <> "".
Proof. unfold toyHash. by destruct x. Qed.

Lemma upload_addressed_witness :
  sourceOk (StoreOps0 := disk_ops ["c"]) toyHash emptyFS /\ sourceOk (StoreOps0 := disk_ops ["c"]) toyHash toyStore.
Proof.
  assert (sourceOk (StoreOps0 := disk_ops ["c"]) toyHash emptyFS) as H0.
  { intros t k v _ Hg. cbn in Hg. unfold diskGet in Hg. cbn -[throughFile] in Hg. by destruct (throughFile _ _). }
  split; [exact H0|].
  apply (@upload_addressed FS (disk_ops ["c"]) (disk_laws ["c"]) toyHash toyToken 5 emptyFS toyStore
    toyMsgs None (UploadBlobs (StoreOps0 := disk_ops ["c"]) toyHash toyToken 5 emptyFS toyMsgs None).1);
    [exact toyHash_ne|apply surjective_pairing|exact H0].
Defined.

(** An upload that succeeds is complete.  When [UploadBlobs] answers, every
    blob the stream framed correctly (a header, then chunks that together have
    the announced hash and fit the size limit) can be read back from the
    source store of its tenant, whatever the rest of the stream carried, and
    [FindMissingBlobs] no longer asks for it. *)
Theorem upload_complete {S} `{!StoreOps S, !StoreLaws S} blake3 validToken now (s s' : S)
    pre h chunks rest r :
  (forall x, blake3 x <> "") -> atFrameEnd rest ->
  UploadBlobs blake3 validToken now s (pre ++ ChunkHeader (Some h) :: map ChunkData chunks ++ rest) None
  = (Done r, s') ->
  blake3 (joined chunks) = bdDigest h -> (Z.of_nat (slen (joined chunks)) <= maxSourceBlobBytes)%Z ->
  present blake3 s' (bdTenantId h) (bdDigest h) /\
  forall tok, is_ok (validToken tok (bdTenantId h)) = true ->
    FindMissingBlobs validToken s' "" [mkBlobDigest (bdDigest h) (bdTenantId h) tok] None = ([], Done tt).
Proof.
  intros Hne Hend H Hd Hsz. unfold UploadBlobs in H.
  destruct (uploadLoop _ _ _ _ _ _) as [o1 st] eqn:E. simplify_eq.
  destruct (uploadLoop_app blake3 validToken now pre _ _ _ _ E) as [st1 E1]. clear E.
  cbn [uploadLoop onMessage] in E1. destruct (commit blake3 now st1) as [[[]|e|] st2]; [|done..].
  unfold openBlob in E1. destruct (negb (slen _ =? 32)); [done|].
  destruct (String.eqb (bdTenantId h) ""); [done|]. destruct (negb _); [done|].
  destruct (pinTenant _ _) as [t|]; [|done].
  destruct (frame_present blake3 validToken Hne now chunks rest
    (mkUploadState (uStore st2) (Some (mkBlobInProgress h "" false)) t (uResult st2))
    (mkBlobInProgress h "" false) r st Hend eq_refl eq_refl Hsz Hd E1) as [Hv Hp]. cbn [bpHeader] in Hv, Hp. split; [done|].
  intros tok Htok. cbn [FindMissingBlobs bdDigest bdTenantId bdSchedulerToken]. rewrite Htok, Hv.
  destruct (String.eqb_spec (bdDigest h) "") as [E0|_]; [by destruct (Hne (joined chunks)); rewrite Hd|].
  destruct (String.eqb_spec (bdTenantId h) "") as [E0|_]; [by rewrite E0 in Hv|].
  destruct Hp as [Hh _]. cbn. by rewrite Hh.
Qed.

Lemma upload_complete_witness :
  present (StoreOps0 := disk_ops ["c"]) toyHash toyStore "acme" (toyHash "int x;").
Proof.
  refine (proj1 (@upload_complete FS (disk_ops ["c"]) (disk_laws ["c"]) toyHash toyToken 5 emptyFS toyStore
    [ChunkHeader (Some (toyHead "int y;")); ChunkData "int z;"] (toyHead "int x;") ["int"; " x;"] []
    (mkUploadResult [toyHash "int y;"] 1 6) toyHash_ne _ _ _ _)).
  - by left.
  - vm_compute. reflexivity.
  - vm_compute. reflexivity.
  - vm_compute. discriminate.
Defined.

(** [FindMissingBlobs] is exact.  When it ends without error the digests it
    sent back are, in order, exactly the requested ones the source store of the
    tenant does not have; all requests named one tenant, and each carried a
    token the worker accepts for it. *)
Theorem findMissing_exact {S} `{!StoreOps S} validToken (s : S) reqs fin sent :
  FindMissingBlobs validToken s "" reqs fin = (sent, Done tt) ->
  sent = List.filter (missing s) reqs /\
  exists t, Forall (fun q => bdTenantId q = t /\ is_ok (validToken (bdSchedulerToken q) t) = true) reqs.
Proof.
  destruct reqs as [|q reqs]; intros H.
  { cbn in H. destruct fin; simplify_eq. split; [done|by exists ""]. }
  destruct (findMissing_head _ _ _ _ _ _ _ H) as (sent' & -> & _ & Hv & H').
  destruct (findMissing_pinned _ _ _ _ _ _ H') as [-> Hf].
  split; [done|]. exists (bdTenantId q). by constructor.
Qed.

Lemma findMissing_exact_witness :
  [toyHead "int y;"] = List.filter (missing (StoreOps0 := disk_ops ["c"]) toyStore)
    [toyHead "int x;"; toyHead "int y;"].
Proof.
  refine (proj1 (@findMissing_exact FS (disk_ops ["c"]) toyToken toyStore
    [toyHead "int x;"; toyHead "int y;"] None [toyHead "int y;"] _)).
  vm_compute. reflexivity.
Defined.

(** C33: A task token opens exactly the job it was issued for.  Let [parseJWT]
    at a time (Unix seconds) return the claims that were signed, until the
    expiry date and not from then on.  Then the token in an answer of [Route]
    is accepted by [validateSchedulerToken] exactly during the five minutes
    after routing, at the worker whose address the answer carries, for the
    tenant and the image of the request. *)
Theorem task_token_binding {K} signJWT (parseJWT : Z -> string -> option (gmap string Claim))
    (s : Scheduler K) now order req resp s' :
  (forall c tok t, signJWT c = Ok tok ->
    if (t <? tcExp c)%Z
    then exists m, parseJWT t tok = Some m /\ m !! "tenant_id" = Some (ClaimString (tcTenantID c)) /\
           m !! "image_digest" = Some (ClaimString (tcImageDigest c)) /\
           m !! "worker_id" = Some (ClaimString (tcWorkerID c))
    else parseJWT t tok = None) ->
  Route signJWT s now order req = (Ok resp, s') ->
  exists id w, (id, w) ∈ order /\ rWorkerAddress resp = PublicAddr w /\
    forall t wid tenant image,
      validateSchedulerToken (parseJWT t) wid (rToken resp) tenant image = Ok tt <->
      (t < unixSeconds (now + taskTokenTTL))%Z /\ wid = WorkerID w /\
      tenant = rrTenantId req /\ image = rrImageDigest req.
Proof.
  intros Hjwt H. destruct (Route_ok signJWT s now order req resp s' H) as (_ & _ & id & w & Hin & _ & Ha & _ & Hs).
  exists id, w. split_and!; [done|done|]. intros t wid tenant image. specialize (Hjwt _ _ t Hs).
  cbn [tcExp tcTenantID tcImageDigest tcWorkerID] in Hjwt.
  unfold validateSchedulerToken, parseSchedulerToken.
  destruct (Z.ltb_spec t (unixSeconds (now + taskTokenTTL))) as [Hlt|Hge].
  - destruct Hjwt as (m & -> & Ht & Hi & Hw). unfold claimIs. rewrite Ht, Hw.
    destruct (String.eqb_spec (rrTenantId req) tenant); cbn [negb rbind]; [|by split; [|naive_solver]].
    destruct (String.eqb_spec (WorkerID w) wid); cbn [negb rbind]; [|by split; [|naive_solver]].
    rewrite Hi. destruct (String.eqb_spec (rrImageDigest req) image); cbn [negb]; naive_solver.
  - rewrite Hjwt. cbn. split; [done|lia].
Qed.

(** A signature that carries its claims; the tenant id says where it ends. *)
Definition toyClaims : TaskClaims := mkTaskClaims "acme" "img" "w2" 0 300.
Definition toySign (c : TaskClaims) : result string :=
  if bool_decide (tcTenantID c = "acme" /\ tcImageDigest c = "img" /\ tcWorkerID c = "w2" /\ tcExp c = 300%Z)
  then Ok "signed" else Err "unsupported".
Definition toyParse (t : Z) (raw : string) : option (gmap string Claim) :=
  if String.eqb raw "signed" && (t <? 300)%Z
  then Some {[ "tenant_id" := ClaimString "acme"; "image_digest" := ClaimString "img";
               "worker_id" := ClaimString "w2" ]}
  else None.

Lemma task_token_binding_witness :
  exists id w, (id, w) ∈ map_to_list (workerStates exRun.2) /\ "a2" = PublicAddr w /\
    forall t wid tenant image,
      validateSchedulerToken (toyParse t) wid "signed" tenant image = Ok tt <->
      (t < unixSeconds (6 + taskTokenTTL))%Z /\ wid = WorkerID w /\ tenant = "acme" /\ image = "img".
Proof.
  refine (task_token_binding toySign toyParse exRun.2 6 (map_to_list (workerStates exRun.2))
    (mkRouteRequest "U1" "acme" "img") (mkRouteResponse "a2" "signed" "fp-a2")
    (Route toySign exRun.2 6 (map_to_list (workerStates exRun.2)) (mkRouteRequest "U1" "acme" "img")).2 _ _).
  - intros c tok t H. unfold toySign in H. case_bool_decide as E; simplify_eq.
    destruct E as (-> & -> & -> & ->). unfold toyParse. cbn [String.eqb Ascii.eqb Bool.eqb andb].
    destruct (t <? 300)%Z; [|reflexivity]. eexists. split; [reflexivity|]. done.
  - vm_compute. reflexivity.
Defined.
