(* ===== verification/Config.v ===== *)
(** * Config: sizes ([internal/config/filesize.go]), cache blocks
      ([internal/config/config.go], [store.NewDiskCacheStore]) and the
      worker's configuration ([internal/worker/config.go]).

    Decoding the TOML file is the work of a library and is not modelled: the
    records hold the decoded values. *)

From S2P Require Import Prelude GoStrings GoPath GoTime Enum Store.

(** ** Sizes *)

Definition sizeSuffixes : list (string * Z) :=
  [("", 1); ("b", 1); ("k", 2 ^ 10); ("kb", 2 ^ 10); ("kib", 2 ^ 10); ("m", 2 ^ 20); ("mb", 2 ^ 20);
   ("mib", 2 ^ 20); ("g", 2 ^ 30); ("gb", 2 ^ 30); ("gib", 2 ^ 30); ("t", 2 ^ 40); ("tb", 2 ^ 40);
   ("tib", 2 ^ 40)]%Z.

Fixpoint assoc {A} (k : string) (l : list (string * A)) : option A :=
  match l with
  | [] => None
  | (k', a) :: l' => if String.eqb k k' then Some a else assoc k l'
  end.

(** The length of the digit prefix. *)
Fixpoint digitSpan (s : string) : nat :=
  match s with
  | EmptyString => 0
  | String c t => match digitVal c with Some _ => S (digitSpan t) | None => 0 end
  end.

Definition ParseSize (s : string) : result Z :=
  let s := trimSpace s in
  if String.eqb s "" then Ok 0%Z
  else let n := digitSpan s in
  if n =? 0 then Err ("parse size " +:+ s +:+ ": no leading digits")
  else
    let numStr := stake n s in
    let suffix := toLower (trimSpace (sdrop n s)) in
    match assoc suffix sizeSuffixes with
    | None => Err ("parse size " +:+ s +:+ ": unknown unit " +:+ sdrop n s)
    | Some multiplier =>
        match atoi numStr with
        | None => Err ("parse size " +:+ s +:+ ": value out of range")
        | Some val =>
            if ((1 <? multiplier) && (2 ^ 62 / multiplier <? val))%Z
            then Err ("parse size " +:+ s +:+ ": result would overflow int64")
            else Ok (int64 (val * multiplier))
        end
    end.

(** ** Cache blocks *)

Record CacheConfig := mkCacheConfig {
  ccType : Z;
  ccLocation : string;
  ccMaxSize : string
}.

(** [NewDiskCacheStore(dir, maxSize)], [dir] absolute and clean. *)
Definition NewDiskCacheStore (dir maxSize : string) (fs : FS) : result (DiskCacheStore * FS) :=
  let! sz := wrapErr "disk cache max_size" (ParseSize maxSize) in
  let! fs' := wrapErr ("create cache dir " +:+ dir) (mkdirAll (comps dir) fs) in
  Ok (mkDiskCacheStore (comps dir) sz, fs').

(** ** The worker's configuration *)

Record TLSConfig := mkTLSConfig {
  CertFile : string;
  KeyFile : string;
  CertRef : string;
  KeyRef : string
}.

Record SchedulerLink := mkSchedulerLink {
  slURL : string;
  slWorkerToken : string;
  slCAFile : string
}.

Record VMConfig := mkVMConfig {
  vmMemory : string;
  vmVCPUs : Z;
  vmIdleTimeout : string;
  vmSessionTimeout : string
}.

Record ImageConfig := mkImageConfig {
  AdvertisedDigests : list string;
  imIdleTimeout : string
}.

Record WorkerConfig := mkWorkerConfig {
  wcWorkerID : string;
  wcPublicAddr : string;
  wcParanoid : bool;
  wcTLS : TLSConfig;
  wcScheduler : SchedulerLink;
  wcHandler : string;
  wcVM : VMConfig;
  wcMaxActive : Z;
  wcImage : ImageConfig;
  wcCaches : list CacheConfig
}.

(** [VMConfig.MemoryBytes]; [None] is a panic. *)
Definition MemoryBytes (v : VMConfig) : option Z :=
  match ParseSize (vmMemory v) with
  | Err _ => None
  | Ok n => if (n <=? 0)%Z then None else Some n
  end.

Definition ImageIdleTimeoutDur (i : ImageConfig) : result Z :=
  if String.eqb (imIdleTimeout i) "" then Ok 0%Z else ParseDuration (imIdleTimeout i).

Definition DefaultWorkerConfig : WorkerConfig :=
  mkWorkerConfig "" "" false (mkTLSConfig "" "" "" "") (mkSchedulerLink "" "" "") "firecracker"
    (mkVMConfig "2GB" 4 "10m" "8h") 32 (mkImageConfig [] "24h") [].

(** [if cond \{ return fmt.Errorf(msg) \}]. *)
Definition rejectIf (cond : bool) (msg : string) : result unit := if cond then Err msg else Ok tt.

Definition isEmpty (s : string) : bool := String.eqb s "".

Definition ValidateWorker (c : WorkerConfig) : result unit :=
  let tls := wcTLS c in
  let! _ := rejectIf (isEmpty (wcPublicAddr c)) "public_addr is required" in
  let! _ := rejectIf (isEmpty (CertFile tls) && isEmpty (CertRef tls))
              "one of tls.cert_file or tls.cert_ref is required" in
  let! _ := rejectIf (negb (isEmpty (CertFile tls)) && negb (isEmpty (CertRef tls)))
              "tls.cert_file and tls.cert_ref are mutually exclusive" in
  let! _ := rejectIf (isEmpty (KeyFile tls) && isEmpty (KeyRef tls))
              "one of tls.key_file or tls.key_ref is required" in
  let! _ := rejectIf (negb (isEmpty (KeyFile tls)) && negb (isEmpty (KeyRef tls)))
              "tls.key_file and tls.key_ref are mutually exclusive" in
  let! _ := rejectIf (isEmpty (slURL (wcScheduler c))) "scheduler.url is required" in
  let! _ := rejectIf (isEmpty (slWorkerToken (wcScheduler c))) "scheduler.worker_token is required" in
  let! _ := rejectIf (slen (slWorkerToken (wcScheduler c)) <? 16)
              "scheduler.worker_token must be at least 16 characters" in
  let! _ := rejectIf (isEmpty (wcHandler c)) "runtime.handler is required" in
  let! _ := rejectIf (vmVCPUs (wcVM c) <=? 0)%Z "vm.vcpus must be > 0" in
  let! _ := wrapErr "vm.memory" (ParseSize (vmMemory (wcVM c))) in
  let! _ := wrapErr "vm.idle_timeout" (ParseDuration (vmIdleTimeout (wcVM c))) in
  let! _ := wrapErr "vm.session_timeout" (ParseDuration (vmSessionTimeout (wcVM c))) in
  let! _ := wrapErr "image.idle_timeout" (ImageIdleTimeoutDur (wcImage c)) in
  let! _ := rejectIf (wcMaxActive c <=? 0)%Z "pool.max_active must be > 0" in
  rejectIf (wcParanoid c && bool_decide (wcCaches c = []))
    "paranoid mode requires at least one [[cache]] block (clients can't reach a cache)".

(** ** Facts *)

Lemma digitVal_range c d : digitVal c = Some d -> (0 <= d <= 9)%Z.
Proof.
  unfold digitVal. destruct (N.leb_spec 48 (N_of_ascii c)), (N.leb_spec (N_of_ascii c) 57);
    cbn [andb]; intros [= <-]. lia.
Qed.

Lemma digitsVal_nonneg s : forall acc v, (0 <= acc)%Z -> digitsVal acc s = Some v -> (0 <= v)%Z.
Proof.
  induction s as [|c s IH]; intros acc v Ha H; cbn [digitsVal] in H; [by simplify_eq|].
  destruct (digitVal c) as [d|] eqn:Ed; [|done]. apply digitVal_range in Ed.
  eapply IH; [|exact H]. lia.
Qed.

(** [atoi] on a string of digits is their decimal value, if in range. *)
Lemma atoi_digits s :
  s <> "" -> digitSpan s = slen s ->
  exists v, digitsVal 0 s = Some v /\ (0 <= v)%Z /\ atoi s = (if (v <? 2 ^ 63)%Z then Some v else None).
Proof.
  intros Hne Hd. unfold atoi. destruct s as [|c s]; [done|].
  assert (digitVal c <> None) as Hc by (cbn [digitSpan] in Hd; by destruct (digitVal c)).
  destruct (Ascii.eqb_spec c "-"%char) as [->|_]; [done|].
  destruct (Ascii.eqb_spec c "+"%char) as [->|_]; [done|].
  assert (forall t acc, digitSpan t = slen t -> exists v, digitsVal acc t = Some v) as Htot.
  { clear. induction t as [|c t IH]; intros acc H; [by exists acc|]. cbn [digitsVal]. cbn [digitSpan] in H.
    destruct (digitVal c); [|done]. apply IH. by injection H. }
  destruct (Htot (String c s) 0%Z Hd) as [v Hv]. exists v. cbn [String.eqb]. rewrite Hv.
  assert (0 <= v)%Z as Hp by (by eapply digitsVal_nonneg; [|exact Hv]). split_and!; [done|done|].
  rewrite (proj2 (Z.leb_le _ _)) by lia. done.
Qed.

Lemma digitSpan_le s : digitSpan s <= slen s.
Proof. induction s as [|c s IH]; cbn; [done|]. destruct (digitVal c); lia. Qed.

Lemma digitSpan_stake s : digitSpan (stake (digitSpan s) s) = digitSpan s.
Proof. induction s as [|c s IH]; [done|]. cbn [digitSpan]. destruct (digitVal c) eqn:E; [|done]. cbn. rewrite E. by f_equal. Qed.

Lemma assoc_suffix k m : assoc k sizeSuffixes = Some m -> (1 <= m <= 2 ^ 40)%Z.
Proof. unfold sizeSuffixes. cbn [assoc]. intros H. repeat (case_match; [simplify_eq; lia|]). done. Qed.

(** ** Claims *)

(** What [ParseSize] does with a number and a unit. *)
Lemma ParseSize_split s num rest m v :
  trimSpace s = num +:+ rest -> num <> "" -> digitSpan num = slen num ->
  digitSpan (num +:+ rest) = slen num -> digitsVal 0 num = Some v ->
  assoc (toLower (trimSpace rest)) sizeSuffixes = Some m ->
  is_ok (ParseSize s) = negb ((2 ^ 63 <=? v) || (1 <? m) && (2 ^ 62 / m <? v))%Z /\
  (is_ok (ParseSize s) = true -> ParseSize s = Ok (v * m)%Z /\ (0 <= v * m < 2 ^ 63)%Z).
Proof.
  intros Hs Hne Hd Hsp Hv Hm. unfold ParseSize. rewrite Hs, Hsp.
  destruct (atoi_digits num Hne Hd) as (v' & Hv' & Hp & Ha). assert (v' = v) as -> by congruence.
  destruct (String.eqb_spec (num +:+ rest) "") as [E|_].
  { by destruct num. }
  destruct (Nat.eqb_spec (slen num) 0); [by destruct num|].
  rewrite sdrop_app, stake_app, Hm, Ha. apply assoc_suffix in Hm as Hr.
  rewrite (Z.leb_antisym v). destruct (Z.ltb_spec v (2 ^ 63)) as [Hlt|Hge]; cbn [negb orb]; [|done].
  destruct (Z.ltb_spec 1 m) as [H1|H1]; cbn [andb].
  - destruct (Z.ltb_spec (2 ^ 62 / m) v) as [Hov|Hok]; cbn; [done|]. split; [done|]. intros _.
    assert (v * m <= 2 ^ 62)%Z by (rewrite Z.mul_comm; etrans; [apply Z.mul_le_mono_nonneg_l; [lia|exact Hok]|];
      apply Z.mul_div_le; lia).
    rewrite int64_id by lia. split; [done|]. lia.
  - assert (m = 1%Z) as -> by lia. cbn. split; [done|]. intros _. rewrite int64_id by lia. split; [done|]. lia.
Qed.

(** A size is read exactly or refused.  A decimal number with a known unit
    (any case, blanks between them) gives number times multiplier, and is
    refused exactly when the number exceeds 63 bits or the product 2^62; the
    product never wraps around. *)
Theorem ParseSize_exact num blanks unit m :
  num <> "" -> digitSpan num = slen num -> trimSpace (num +:+ blanks +:+ unit) = num +:+ blanks +:+ unit ->
  digitSpan (num +:+ blanks +:+ unit) = slen num ->
  trimSpace (blanks +:+ unit) = unit -> assoc (toLower unit) sizeSuffixes = Some m ->
  exists v, digitsVal 0 num = Some v /\ (0 <= v)%Z /\
    if ((2 ^ 63 <=? v) || (1 <? m) && (2 ^ 62 / m <? v))%Z
    then is_ok (ParseSize (num +:+ blanks +:+ unit)) = false
    else ParseSize (num +:+ blanks +:+ unit) = Ok (v * m)%Z /\ (0 <= v * m < 2 ^ 63)%Z.
Proof.
  intros Hne Hd Hs Hsp Hu Hm. destruct (atoi_digits num Hne Hd) as (v & Hv & Hp & _). exists v.
  split_and!; [done|done|].
  destruct (ParseSize_split _ num (blanks +:+ unit) m v Hs Hne Hd Hsp Hv) as [H1 H2]; [by rewrite Hu|].
  destruct (_ || _)%Z eqn:E; cbn [negb] in H1; [done|auto].
Qed.

Lemma ParseSize_exact_witness : ParseSize "10 GiB" = Ok (10 * 2 ^ 30)%Z.
Proof.
  destruct (ParseSize_exact "10" " " "GiB" (2 ^ 30)) as (v & Hv & _ & H);
    [discriminate|reflexivity|reflexivity|reflexivity|reflexivity|reflexivity|].
  injection Hv as <-. exact (proj1 H).
Defined.

(** A worker configuration that passes every check but one. *)
Definition exWorkerConfig (memory idle : string) : WorkerConfig :=
  mkWorkerConfig "w1" "host:9092" false (mkTLSConfig "c.pem" "k.pem" "" "")
    (mkSchedulerLink "sched:9091" "0123456789abcdef" "") "firecracker" (mkVMConfig memory 4 idle "8h") 32
    (mkImageConfig [] "24h") [].

(** [ValidateWorker] and the code it protects disagree: a memory size of zero
    passes although [MemoryBytes] panics on it at the first compile, and the
    empty idle timeout, which [NewWorker] takes as no idle reaping, is
    refused. *)
Theorem worker_validate_gaps :
  ValidateWorker (exWorkerConfig "0" "10m") = Ok tt /\ MemoryBytes (wcVM (exWorkerConfig "0" "10m")) = None /\
  is_ok (ValidateWorker (exWorkerConfig "2GB" "")) = false /\
  ValidateWorker (exWorkerConfig "2GB" "10m") = Ok tt.
Proof. vm_compute. split_and!; reflexivity. Qed.
