(* ===== verification/Secret.v ===== *)
(** * Secret: references to secrets
    ([internal/secret/secret.go], [internal/secret/tls.go] and [ResolveSecrets]
    of the two configurations).

    A reference names a secret by a scheme.  The operating system and the AWS
    SDK are parameters ([world]): environment variables, files, the loading of
    a client and the lookup of a value.  [net/url.Parse] and the decoding of the
    query are written out for the one scheme that reaches them.  A resolver
    keeps one client per region.  Error texts leave out the quoted input. *)

From S2P Require Import Prelude GoStrings GoPath GoJson Config Scheduler.

(** ** [net/url] behind [aws-sm://] *)

Fixpoint allBytes (f : ascii -> bool) (s : string) : bool :=
  match s with EmptyString => true | String c t => f c && allBytes f t end.

Definition among (set : string) (c : ascii) : bool := containsByte set c.

Definition alnum (c : ascii) : bool := byteIn 48 57 c || byteIn 65 90 c || byteIn 97 122 c.

Definition ctlByte (c : ascii) : bool := (N_of_ascii c <? 32)%N || (N_of_ascii c =? 127)%N.

(** The modes of [unescape]: a host, a query component, and the path or the
    fragment, which are read alike. *)
Inductive encoding := encodeHost | encodeQueryComponent | encodePath.

(** [shouldEscape(c, encodeHost)] on ASCII. *)
Definition escapedInHost (c : ascii) : bool :=
  negb (alnum c || among "-_.~!$&'()*+,;=:[]<>" c || Ascii.eqb c dquote).

Definition hostOnly (mode : encoding) : bool := match mode with encodeHost => true | _ => false end.
Definition plusIsSpace (mode : encoding) : bool := match mode with encodeQueryComponent => true | _ => false end.

Fixpoint unescapeURL (mode : encoding) (s : string) : result string :=
  match s with
  | EmptyString => Ok ""
  | String c t =>
      if Ascii.eqb c "%"%char then
        match t with
        | String a (String b rest) =>
            match hexNibble a, hexNibble b with
            | Some x, Some y =>
                if hostOnly mode && (x <? 8)%N && negb ((x =? 2)%N && (y =? 5)%N) then Err "invalid URL escape"
                else let! rest := unescapeURL mode rest in Ok (String (ascii_of_N (16 * x + y)) rest)
            | _, _ => Err "invalid URL escape"
            end
        | _ => Err "invalid URL escape"
        end
      else if hostOnly mode && (N_of_ascii c <? 128)%N && escapedInHost c then Err "invalid character in host name"
      else let! rest := unescapeURL mode t in
           Ok (String (if plusIsSpace mode && Ascii.eqb c "+"%char then " "%char else c) rest)
  end.

(** [validOptionalPort] of a text that starts with the colon. *)
Definition validPort (colonPort : string) : bool := allBytes isDigit (sdrop 1 colonPort).

Definition validUserinfo (s : string) : bool :=
  allBytes (fun c => alnum c || among "-._:~!$&'()*+,;=%@" c) s.

Record URL := mkURL {
  Host : string;
  Path : string;
  RawQuery : string;
  Fragment : string
}.

Section Url.
  (** The reading of a host in brackets, as an IPv6 address. *)
  Variable ipLiteral : string -> result string.

Definition parseHost (host : string) : result string :=
  match lastIndexBy (Ascii.eqb "["%char) host with
  | Some 0 => ipLiteral host
  | Some (S _) => Err "invalid IP-literal"
  | None =>
      match indexBy (Ascii.eqb ":"%char) host with
      | Some i => if validPort (sdrop i host) then unescapeURL encodeHost host else Err "invalid port after host"
      | None => unescapeURL encodeHost host
      end
  end.

(** [parseAuthority]; the user is not part of the result here. *)
Definition parseAuthority (authority : string) : result string :=
  match lastIndexBy (Ascii.eqb "@"%char) authority with
  | None => parseHost authority
  | Some i =>
      let! host := parseHost (sdrop (S i) authority) in
      if validUserinfo (stake i authority)
      then let! _ := unescapeURL encodePath (stake i authority) in Ok host
      else Err "net/url: invalid userinfo"
  end.

(** [url.Parse("aws-sm://" + body)]. *)
Definition parseURL (body : string) : result URL :=
  let '(u, frag, _) := cut "#"%char body in
  if negb (allBytes (fun c => negb (ctlByte c)) u) then Err "net/url: invalid control character in URL"
  else
    let '(rest, query, _) := cut "?"%char u in
    let i := default (slen rest) (indexBy (Ascii.eqb "/"%char) rest) in
    let! host := parseAuthority (stake i rest) in
    let! path := unescapeURL encodePath (sdrop i rest) in
    let! fragment := unescapeURL encodePath frag in
    Ok (mkURL host path query fragment).

(** [url.ParseQuery]: a malformed pair is skipped, and too many pairs give
    none. *)
Definition queryPair (pair : string) : option (string * string) :=
  if containsByte pair ";"%char || String.eqb pair "" then None
  else
    let '(k, v, _) := cut "="%char pair in
    match unescapeURL encodeQueryComponent k, unescapeURL encodeQueryComponent v with
    | Ok k, Ok v => Some (k, v)
    | _, _ => None
    end.

Definition maxQueryParams : nat := 10 * 1000.

Definition parseQuery (query : string) : list (string * string) :=
  let pairs := splitOn "&"%char query in
  if maxQueryParams <? length pairs then [] else omap queryPair pairs.

(** [Values.Get]: the first value of the key. *)
Definition queryGet (query key : string) : string :=
  default "" (snd <$> List.find (fun kv => String.eqb kv.1 key) (parseQuery query)).

End Url.

(** ** [json.Unmarshal] into a [map[string]any] *)

Definition decDigit (c : ascii) : Z := Z.of_N (N_of_ascii c) - 48.

Fixpoint decimal (acc : Z) (s : string) : Z :=
  match s with EmptyString => acc | String c t => decimal (10 * acc + decDigit c) t end.

(** The exponent as [strconv.ParseFloat] accumulates it. *)
Fixpoint exponent (acc : Z) (s : string) : Z :=
  match s with
  | EmptyString => acc
  | String c t => exponent (if (acc <? 10000)%Z then 10 * acc + decDigit c else acc)%Z t
  end.

Definition signedExponent (e : string) : Z :=
  match sdrop 1 e with
  | String c t => if Ascii.eqb c "-"%char then - exponent 0 t
                  else if Ascii.eqb c "+"%char then exponent 0 t else exponent 0 (String c t)
  | EmptyString => 0
  end.

(** The least magnitude that rounds to infinity. *)
Definition floatLimit : Z := 2 ^ 1024 - 2 ^ 970.

(** A number literal is in the range of a [float64]. *)
Definition floatRange (literal : string) : bool :=
  let t := trimPrefix literal "-" in
  match scanInt t with
  | Some (i, t) =>
      match scanFrac t with
      | Some (f, t) =>
          let m := decimal 0 (i +:+ sdrop 1 f) in
          let k := (signedExponent t - Z.of_nat (slen (sdrop 1 f)))%Z in
          if (0 <=? k)%Z then (m * 10 ^ k <? floatLimit)%Z else (m <? floatLimit * 10 ^ (- k))%Z
      | None => false
      end
  | None => false
  end.

Fixpoint numbersFit (j : json) : bool :=
  match j with
  | JNum n => floatRange n
  | JArr l => (fix all l := match l with [] => true | x :: l => numbersFit x && all l end) l
  | JObj fs => (fix all fs := match fs with [] => true | kv :: fs => numbersFit kv.2 && all fs end) fs
  | _ => true
  end.

(** Arrays and objects inside each other. *)
Fixpoint nesting (j : json) : nat :=
  match j with
  | JArr l => S ((fix most l := match l with [] => 0 | x :: l => nesting x `max` most l end) l)
  | JObj fs => S ((fix most fs := match fs with [] => 0 | kv :: fs => nesting kv.2 `max` most fs end) fs)
  | _ => 0
  end.

Definition maxNestingDepth : nat := 10 * 1000.

Definition unmarshalObject (val : string) : result (list (string * json)) :=
  match parseJson val with
  | None => Err "invalid JSON"
  | Some j =>
      if maxNestingDepth <? nesting j then Err "exceeded max depth"
      else match j with
           | JNull => Ok []
           | JObj fs => if numbersFit j then Ok fs else Err "json: cannot unmarshal number"
           | _ => Err "json: cannot unmarshal into Go value of type map[string]interface"
           end
  end.

(** The last value of a key stays in the map. *)
Definition objectField (fs : list (string * json)) (key : string) : option json :=
  snd <$> List.find (fun kv => String.eqb kv.1 key) (rev fs).

Definition pickKey (jsonKey val : string) : result string :=
  if String.eqb jsonKey "" then Ok val
  else
    let! obj := wrapErr "decode JSON secret" (unmarshalObject val) in
    match objectField obj jsonKey with
    | None => Err "secret has no such key"
    | Some (JStr s) => Ok s
    | Some _ => Err "secret key is not a string"
    end.

(** ** The resolver *)

Record secretValue := mkSecretValue { SecretBinary : string; SecretString : option string }.

(** What a lookup finds around it; a [None] region is the SDK's default. *)
Record world (Client : Type) := mkWorld {
  LookupEnv : string -> option string;
  ReadFile : string -> result string;
  LoadDefaultConfig : option string -> result Client;
  GetSecretValue : Client -> string -> result secretValue;
  ipLiteralOf : string -> result string
}.
Arguments mkWorld {Client}. Arguments LookupEnv {Client}. Arguments ReadFile {Client}.
Arguments LoadDefaultConfig {Client}. Arguments GetSecretValue {Client}. Arguments ipLiteralOf {Client}.

Record Resolver (Client : Type) := mkResolver {
  smCache : gmap string Client;
  awsSM : option (string -> string -> result (string * string))
}.
Arguments mkResolver {Client}. Arguments smCache {Client}. Arguments awsSM {Client}.

Section Resolve.
  Context {Client : Type}.
  Implicit Types (w : world Client) (r : Resolver Client).

Definition IsRef (s : string) : bool := hasPrefix s "aws-sm:" || hasPrefix s "env:" || hasPrefix s "file:".

Definition trimFileScheme (ref : string) : string := trimPrefix (trimPrefix ref "file:") "//".

Definition optRegion (region : string) : option string := if String.eqb region "" then None else Some region.

Definition smClient w r (region : string) : result Client * Resolver Client :=
  match smCache r !! region with
  | Some c => (Ok c, r)
  | None => match wrapErr "load aws config" (LoadDefaultConfig w (optRegion region)) with
            | Ok c => (Ok c, mkResolver (<[region := c]> (smCache r)) (awsSM r))
            | Err e => (Err e, r)
            end
  end.

Definition emptyPayload : result string := Err "aws secrets manager returned empty payload".

Definition secretPayload (out : secretValue) : result string :=
  if negb (String.eqb (SecretBinary out) "") then Ok (SecretBinary out)
  else match SecretString out with Some s => Ok s | None => emptyPayload end.

(** The value of a secret: from the hook when one is set, or the service. *)
Definition fetchSecret w r (region secretID : string) : result string * Resolver Client :=
  match awsSM r with
  | Some f =>
      (let! (s, bin) := wrapErr "aws secrets manager get" (f region secretID) in
       if negb (String.eqb bin "") then Ok bin else if negb (String.eqb s "") then Ok s else emptyPayload, r)
  | None =>
      let '(client, r) := smClient w r region in
      (let! c := client in
       let! out := wrapErr "aws secrets manager get" (GetSecretValue w c secretID) in
       secretPayload out, r)
  end.

Definition resolveAWSSM w r (ref : string) : result string * Resolver Client :=
  let body := trimPrefix (trimPrefix ref "aws-sm:") "//" in
  match wrapErr "parse" (parseURL (ipLiteralOf w) body) with
  | Err e => (Err e, r)
  | Ok u =>
      let secretID := Host u +:+ Path u in
      if String.eqb secretID "" then (Err "aws-sm reference is missing a secret id", r)
      else let '(val, r) := fetchSecret w r (queryGet (RawQuery u) "region") secretID in
           (let! val := val in pickKey (Fragment u) val, r)
  end.

Definition lineEnd (c : ascii) : bool := (N_of_ascii c =? 13)%N || (N_of_ascii c =? 10)%N.

Definition ResolveString w r (ref : string) : result string * Resolver Client :=
  if String.eqb ref "" then (Ok "", r)
  else if hasPrefix ref "aws-sm:" then resolveAWSSM w r ref
  else if hasPrefix ref "env:" then
    (match LookupEnv w (trimPrefix ref "env:") with
     | None => Err "secret env var is not set"
     | Some v => if String.eqb v "" then Err "secret env var is empty" else Ok v
     end, r)
  else if hasPrefix ref "file:" then
    (let! b := wrapErr "read secret file" (ReadFile w (trimFileScheme ref)) in Ok (trimRightBy lineEnd b), r)
  else (Ok ref, r).

Definition ResolveBytes w r (ref : string) : result string * Resolver Client :=
  if String.eqb ref "" then (Ok "", r)
  else if hasPrefix ref "aws-sm:" then resolveAWSSM w r ref
  else if hasPrefix ref "env:" then
    (match LookupEnv w (trimPrefix ref "env:") with
     | None => Err "secret env var is not set"
     | Some v => Ok v
     end, r)
  else if hasPrefix ref "file:" then (wrapErr "read secret file" (ReadFile w (trimFileScheme ref)), r)
  else (Ok ref, r).

(** ** Key pairs and configurations *)

Definition loadOneTLS w r (kind path ref : string) : result string * Resolver Client :=
  if negb (String.eqb path "") && negb (String.eqb ref "")
  then (Err ("tls." +:+ kind +:+ "_file and tls." +:+ kind +:+ "_ref are mutually exclusive"), r)
  else if negb (String.eqb path "") then (wrapErr ("read tls." +:+ kind +:+ "_file") (ReadFile w path), r)
  else if negb (String.eqb ref "") then
    let '(b, r) := ResolveBytes w r ref in (wrapErr ("resolve tls." +:+ kind +:+ "_ref") b, r)
  else (Err ("one of tls." +:+ kind +:+ "_file or tls." +:+ kind +:+ "_ref is required"), r).

(** [X509KeyPair] of [crypto/tls] is an argument. *)
Definition LoadTLSCertificate {Cert} (X509KeyPair : string -> string -> result Cert) w r
    (certFile certRef keyFile keyRef : string) : result (Cert * string) * Resolver Client :=
  let '(certPEM, r) := loadOneTLS w r "cert" certFile certRef in
  match certPEM with
  | Err e => (Err e, r)
  | Ok certPEM =>
      let '(keyPEM, r) := loadOneTLS w r "key" keyFile keyRef in
      (let! keyPEM := keyPEM in
       let! cert := wrapErr "parse TLS keypair" (X509KeyPair certPEM keyPEM) in
       Ok (cert, certPEM), r)
  end.

Definition ResolveWorkerSecrets w r (c : WorkerConfig) : result WorkerConfig * Resolver Client :=
  let l := wcScheduler c in
  let '(tok, r) := ResolveString w r (slWorkerToken l) in
  (let! tok := wrapErr "resolve scheduler.worker_token" tok in
   Ok (mkWorkerConfig (wcWorkerID c) (wcPublicAddr c) (wcParanoid c) (wcTLS c)
         (mkSchedulerLink (slURL l) tok (slCAFile l)) (wcHandler c) (wcVM c) (wcMaxActive c)
         (wcImage c) (wcCaches c)), r).

Definition ResolveSchedulerSecrets w r (c : Scheduler.Config) : result Scheduler.Config * Resolver Client :=
  let '(tok, r) := ResolveString w r (cfgWorkerToken c) in
  (let! tok := wrapErr "resolve auth.worker_token" tok in
   Ok (mkConfig (cfgListen c) (cfgMetricsListen c) (cfgTLS c) tok (cfgTenants c) (cfgRouting c) (cfgParanoid c)), r).
End Resolve.

(** ** Facts: bytes *)

Lemma allBytes_weaken f g s : (forall c, f c = true -> g c = true) -> allBytes f s = true -> allBytes g s = true.
Proof. intros H. induction s as [|c s IH]; [done|]. cbn. intros [Hc Hs]%andb_true_iff. by rewrite (H c Hc), (IH Hs). Qed.

Lemma allBytes_app f a b : allBytes f (a +:+ b) = allBytes f a && allBytes f b.
Proof. induction a as [|c a IH]; [done|]. cbn. by rewrite IH, andb_assoc. Qed.

Lemma allBytes_sdrop f n s : allBytes f s = true -> allBytes f (sdrop n s) = true.
Proof. rewrite <- (stake_sdrop n s) at 1. rewrite allBytes_app. by intros [_ ?]%andb_true_iff. Qed.

Lemma allBytes_absent f s c : allBytes f s = true -> f c = false -> containsByte s c = false.
Proof.
  intros Hs Hc. induction s as [|d s IH]; [done|]. cbn in *. apply andb_true_iff in Hs as [Hd Hs].
  destruct (Ascii.eqb_spec d c) as [->|]; [congruence | by apply IH].
Qed.

Lemma lastIndexBy_absent f s : allBytes (fun c => negb (f c)) s = true -> lastIndexBy f s = None.
Proof. induction s as [|c s IH]; [done|]. cbn. intros [Hc%negb_true_iff Hs]%andb_true_iff. by rewrite (IH Hs), Hc. Qed.

Lemma indexBy_absent f s : allBytes (fun c => negb (f c)) s = true -> indexBy f s = None.
Proof. induction s as [|c s IH]; [done|]. cbn. intros [Hc%negb_true_iff Hs]%andb_true_iff. by rewrite Hc, (IH Hs). Qed.

(** Before the first match nothing matches. *)
Lemma before_index f s : allBytes (fun c => negb (f c)) (stake (default (slen s) (indexBy f s)) s) = true.
Proof.
  induction s as [|c s IH]; [done|]. cbn. destruct (f c) eqn:E; [done|].
  destruct (indexBy f s); cbn in *; by rewrite E.
Qed.

Lemma allBytes_stake f n s : allBytes f s = true -> allBytes f (stake n s) = true.
Proof. rewrite <- (stake_sdrop n s) at 1. rewrite allBytes_app. by intros [? _]%andb_true_iff. Qed.

Lemma allBytes_both f g s : allBytes f s = true -> allBytes g s = true -> allBytes (fun c => f c && g c) s = true.
Proof. induction s as [|c s IH]; [done|]. cbn. intros [-> ?]%andb_true_iff [-> ?]%andb_true_iff. by apply IH. Qed.

(** Weakens a byte class to another one, by cases on the byte. *)
Ltac byte_class H :=
  refine (allBytes_weaken _ _ _ _ H); intros [[] [] [] [] [] [] [] []]; vm_compute; intro; congruence.

(** ** Facts: references *)

(** The bytes of the name of a secret, but for the at sign; of a region. *)
Definition nameByte (c : ascii) : bool := alnum c || among "/_+=.-" c.
Definition regionByte (c : ascii) : bool := alnum c || Ascii.eqb c "-"%char.

Definition plainIn (mode : encoding) (c : ascii) : bool :=
  negb (Ascii.eqb c "%"%char) && negb (hostOnly mode && escapedInHost c) &&
  negb (plusIsSpace mode && Ascii.eqb c "+"%char).

Lemma unescapeURL_plain mode s : allBytes (plainIn mode) s = true -> unescapeURL mode s = Ok s.
Proof.
  induction s as [|c s IH]; [done|]. cbn [allBytes unescapeURL]. unfold plainIn at 1.
  intros [[[->%negb_true_iff Hh%negb_true_iff]%andb_true_iff Hp%negb_true_iff]%andb_true_iff Hs]%andb_true_iff.
  rewrite (IH Hs), Hp. cbn.
  destruct (hostOnly mode); cbn in *; [|done]. by rewrite Hh, andb_false_r.
Qed.

(** A name without an at sign, a colon or a bracket is the host it is. *)
Lemma parseAuthority_name ip s :
  allBytes (fun c => nameByte c && negb (Ascii.eqb "/" c)) s = true -> parseAuthority ip s = Ok s.
Proof.
  intros H. unfold parseAuthority, parseHost.
  rewrite lastIndexBy_absent by byte_class H. rewrite lastIndexBy_absent by byte_class H.
  rewrite indexBy_absent by byte_class H. apply unescapeURL_plain. byte_class H.
Qed.

Definition regionQuery (region : string) : string := if String.eqb region "" then "" else "?region=" +:+ region.
Definition keyFragment (key : string) : string := if String.eqb key "" then "" else "#" +:+ key.

(** Cutting off an optional last part. *)
Lemma cut_optional sep a t :
  containsByte a sep = false ->
  (cut sep (a +:+ (if String.eqb t "" then "" else String sep t))).1 = (a, t).
Proof.
  intros Ha. destruct (String.eqb_spec t "") as [->|].
  - by rewrite sapp_nil_r, cut_none.
  - by rewrite cut_at.
Qed.

Lemma regionQuery_tail region :
  regionQuery region = if String.eqb (sdrop 1 (regionQuery region)) "" then ""
                       else String "?" (sdrop 1 (regionQuery region)).
Proof. unfold regionQuery. by destruct (String.eqb region ""). Qed.

Lemma regionQuery_bytes region :
  allBytes regionByte region = true ->
  allBytes (fun c => regionByte c || Ascii.eqb c "?" || Ascii.eqb c "=") (regionQuery region) = true.
Proof. intros H. unfold regionQuery. destruct (String.eqb region ""); [done|]. rewrite allBytes_app. cbn. byte_class H. Qed.

(** The region is read back from the query. *)
Lemma queryGet_region region :
  allBytes regionByte region = true -> queryGet (sdrop 1 (regionQuery region)) "region" = region.
Proof.
  intros H. unfold regionQuery. destruct (String.eqb_spec region "") as [->|]; [done|].
  unfold queryGet, parseQuery. change (sdrop 1 _) with ("region" +:+ String "=" region).
  assert (containsByte ("region" +:+ String "=" region) "&" = false) as Ha
    by (apply (allBytes_absent (fun c => regionByte c || Ascii.eqb c "=")); [cbn; byte_class H | done]).
  assert (containsByte ("region" +:+ String "=" region) ";" = false) as Hs
    by (apply (allBytes_absent (fun c => regionByte c || Ascii.eqb c "=")); [cbn; byte_class H | done]).
  rewrite splitOn_word by done. change (maxQueryParams <? length [_]) with false. cbn [omap list_omap].
  unfold queryPair. rewrite Hs. change (String.eqb _ "") with false. cbn [orb]. rewrite cut_at by done.
  rewrite !unescapeURL_plain; [done | byte_class H | done].
Qed.

(** The URL of a reference has the name, the region and the key apart. *)
Lemma parseURL_reference ip id region key :
  allBytes nameByte id = true -> allBytes regionByte region = true -> containsByte key "%" = false ->
  exists u, parseURL ip (id +:+ regionQuery region +:+ keyFragment key) = Ok u /\
    Host u +:+ Path u = id /\ Fragment u = key /\ queryGet (RawQuery u) "region" = region.
Proof.
  intros Hid Hr Hk. pose proof (regionQuery_bytes region Hr) as Hq.
  set (i := default (slen id) (indexBy (Ascii.eqb "/") id)).
  exists (mkURL (stake i id) (sdrop i id) (sdrop 1 (regionQuery region)) key).
  split; [|cbn [Host Path Fragment RawQuery]; by rewrite stake_sdrop, queryGet_region]. unfold parseURL.
  assert (containsByte (id +:+ regionQuery region) "#" = false) as Hn
    by (by rewrite containsByte_app, (allBytes_absent nameByte), (allBytes_absent _ _ _ Hq)).
  pose proof (cut_optional "#" _ key Hn) as E. rewrite sapp_assoc in E.
  change (if String.eqb key "" then "" else String "#" key) with (keyFragment key) in E.
  destruct (cut "#" _) as [[u frag] ?]; cbn in E. injection E as -> ->.
  rewrite allBytes_app. assert (allBytes (fun c => negb (ctlByte c)) id = true) as -> by byte_class Hid.
  assert (allBytes (fun c => negb (ctlByte c)) (regionQuery region) = true) as -> by byte_class Hq. cbn [negb andb].
  assert (containsByte id "?" = false) as Hi by (by apply (allBytes_absent nameByte)).
  pose proof (cut_optional "?" id (sdrop 1 (regionQuery region)) Hi) as E. rewrite <- regionQuery_tail in E.
  destruct (cut "?" _) as [[rest query] ?]; cbn in E. injection E as -> ->.
  cbv zeta. fold i. rewrite parseAuthority_name.
  2: { apply allBytes_both; [by apply allBytes_stake | apply before_index]. }
  cbn [rbind]. rewrite unescapeURL_plain; [|apply allBytes_sdrop; byte_class Hid]. cbn [rbind].
  rewrite unescapeURL_plain; [done|]. clear -Hk.
  induction key as [|c key IH]; [done|]. cbn in *. apply orb_false_iff in Hk as [Hc Hk].
  unfold plainIn at 1. by rewrite Hc, (IH Hk).
Qed.

(** ** The resolver *)

Section Lookups.
  Context {Client : Type}.
  Implicit Types (w : world Client) (r : Resolver Client).

(** A reference asks for the secret it names, in the region it names, and gives
    the field it names. *)
Theorem reference_resolved w r id region key :
  id <> "" -> allBytes nameByte id = true -> allBytes regionByte region = true -> containsByte key "%" = false ->
  ResolveString w r ("aws-sm://" +:+ id +:+ regionQuery region +:+ keyFragment key)
  = (let! val := (fetchSecret w r region id).1 in pickKey key val, (fetchSecret w r region id).2).
Proof.
  intros Hne Hid Hr Hk. unfold ResolveString, resolveAWSSM.
  change (trimPrefix (trimPrefix ("aws-sm://" +:+ ?b) "aws-sm:") "//") with b.
  destruct (parseURL_reference (ipLiteralOf w) id region key Hid Hr Hk) as (u & E & Hi & <- & <-).
  cbn [String.eqb Ascii.eqb hasPrefix String.append eqb Bool.eqb]. rewrite E. cbn [wrapErr]. rewrite Hi.
  apply String.eqb_neq in Hne. rewrite Hne. by destruct (fetchSecret w r _ id).
Qed.

(** A bare value is itself, and asks for nothing. *)
Lemma bare_value w r s : IsRef s = false -> ResolveString w r s = (Ok s, r) /\ ResolveBytes w r s = (Ok s, r).
Proof.
  intros [[H1 H2]%orb_false_iff H3]%orb_false_iff. unfold ResolveString, ResolveBytes. rewrite H1, H2, H3.
  by destruct (String.eqb_spec s "") as [->|].
Qed.

(** *** One client per region

    [regionOf] is the region of a client.  Loading a configuration with a
    region gives a client of it, whatever the rest of the world is like at the
    time of the lookup. *)
Section Regions.
  Variable regionOf : Client -> string.

Definition regional w : Prop :=
  forall g c, LoadDefaultConfig w (Some g) = Ok c -> regionOf c = g.

Definition coherent r : Prop :=
  forall g c, smCache r !! g = Some c -> g <> "" -> regionOf c = g.

Lemma smClient_regional w r g :
  regional w -> coherent r ->
  coherent (smClient w r g).2 /\ awsSM (smClient w r g).2 = awsSM r /\
  (forall c, (smClient w r g).1 = Ok c -> g <> "" -> regionOf c = g) /\
  (forall g' c, smCache r !! g' = Some c -> smCache (smClient w r g).2 !! g' = Some c).
Proof.
  intros Hw Hr. unfold smClient. destruct (smCache r !! g) as [c|] eqn:E; [naive_solver|].
  destruct (LoadDefaultConfig w (optRegion g)) as [c|] eqn:L; cbn; [|naive_solver].
  assert (g <> "" -> regionOf c = g) as Hc.
  { intros Hg%String.eqb_neq. unfold optRegion in L. rewrite Hg in L. by apply Hw. }
  split_and!; [|done|naive_solver|].
  - intros g' c'. cbn. rewrite lookup_insert_Some. naive_solver.
  - intros g' c' H. cbn. rewrite lookup_insert_ne; [done | congruence].
Qed.

(** What a lookup leaves: clients of their regions, none of them replaced. *)
Definition grown r r' : Prop :=
  coherent r' /\ awsSM r' = awsSM r /\ forall g c, smCache r !! g = Some c -> smCache r' !! g = Some c.

Lemma fetchSecret_grown w r g id : regional w -> coherent r -> grown r (fetchSecret w r g id).2.
Proof.
  intros Hw Hr. unfold fetchSecret. destruct (awsSM r); [done|].
  destruct (smClient_regional w r g Hw Hr) as (H1 & H2 & _ & H4). by destruct (smClient w r g).
Qed.

Lemma resolveAWSSM_grown w r ref : regional w -> coherent r -> grown r (resolveAWSSM w r ref).2.
Proof.
  intros Hw Hr. unfold resolveAWSSM. destruct (wrapErr _ _) as [u|]; [|done].
  destruct (String.eqb _ ""); [done|].
  pose proof (fetchSecret_grown w r (queryGet (RawQuery u) "region") (Host u +:+ Path u) Hw Hr).
  by destruct (fetchSecret _ _ _ _).
Qed.

Lemma Resolve_grown w r ref :
  regional w -> coherent r -> grown r (ResolveString w r ref).2 /\ grown r (ResolveBytes w r ref).2.
Proof.
  intros Hw Hr. pose proof (resolveAWSSM_grown w r ref Hw Hr). unfold ResolveString, ResolveBytes.
  by repeat case_match.
Qed.

(** A process that resolves references one after the other. *)
Inductive lookups : Resolver Client -> Resolver Client -> Prop :=
| lookups_none r : lookups r r
| lookups_string r r' w ref : lookups r r' -> regional w -> lookups r (ResolveString w r' ref).2
| lookups_bytes r r' w ref : lookups r r' -> regional w -> lookups r (ResolveBytes w r' ref).2.

Lemma lookups_coherent r r' : lookups r r' -> coherent r -> coherent r' /\ awsSM r' = awsSM r.
Proof.
  induction 1 as [|r r' w ref _ IH Hw|r r' w ref _ IH Hw]; [done| |]; intros Hr;
    destruct (IH Hr) as [Hc <-]; destruct (Resolve_grown w r' ref Hw Hc) as [[]  []]; naive_solver.
Qed.

(** After any lookups of a process, a reference with a region is answered by a
    client of that region. *)
Theorem answered_by_region w r id region key v :
  lookups (mkResolver ∅ None) r -> regional w ->
  id <> "" -> allBytes nameByte id = true -> region <> "" -> allBytes regionByte region = true ->
  containsByte key "%" = false ->
  (ResolveString w r ("aws-sm://" +:+ id +:+ regionQuery region +:+ keyFragment key)).1 = Ok v ->
  exists c out val, regionOf c = region /\ GetSecretValue w c id = Ok out /\ secretPayload out = Ok val /\
    pickKey key val = Ok v.
Proof.
  intros Hl Hw Hne Hid Hg Hr Hk. rewrite reference_resolved by done. cbn [fst].
  destruct (lookups_coherent _ _ Hl) as [Hc Ha]; [done|]. unfold fetchSecret. rewrite Ha. cbn [awsSM].
  destruct (smClient_regional w r region Hw Hc) as (_ & _ & Hs & _).
  destruct (smClient w r region) as [client r'] eqn:E. cbn [fst] in *. intros H.
  apply rbind_Ok in H as (val & (c & -> & (out & Ho%wrapErr_Ok & Hp)%rbind_Ok)%rbind_Ok & Hv).
  exists c, out, val. by rewrite (Hs c eq_refl Hg).
Qed.
End Regions.
End Lookups.

(** ** Key pairs and configurations *)

Section Startup.
  Context {Client : Type}.
  Implicit Types (w : world Client) (r : Resolver Client).

(** One half of a key pair has exactly one source, and is what it holds. *)
Lemma loadOneTLS_Ok w r kind path ref b r' :
  loadOneTLS w r kind path ref = (Ok b, r') ->
  (path <> "" /\ ref = "" /\ ReadFile w path = Ok b /\ r' = r) \/
  (path = "" /\ ref <> "" /\ ResolveBytes w r ref = (Ok b, r')).
Proof.
  unfold loadOneTLS. destruct (String.eqb_spec path "") as [->|], (String.eqb_spec ref "") as [->|]; cbn; try done.
  - destruct (ResolveBytes w r ref) as [[]]; intros [= <- <-]. by right.
  - destruct (ReadFile w path) eqn:E; intros [= <- <-]. by left.
Qed.

(** A loaded certificate is the parsed pair of both sources. *)
Theorem LoadTLSCertificate_Ok {Cert} (X509KeyPair : string -> string -> result Cert) w r cf cr kf kr cert pem r' :
  LoadTLSCertificate X509KeyPair w r cf cr kf kr = (Ok (cert, pem), r') ->
  exists r1 key, loadOneTLS w r "cert" cf cr = (Ok pem, r1) /\ loadOneTLS w r1 "key" kf kr = (Ok key, r') /\
    X509KeyPair pem key = Ok cert.
Proof.
  unfold LoadTLSCertificate. destruct (loadOneTLS w r _ _ _) as [[c|] r1] eqn:E1; [|done].
  destruct (loadOneTLS w r1 _ _ _) as [[k|] r2] eqn:E2; cbn; [|done].
  destruct (X509KeyPair c k) eqn:E3; cbn; [|done]. intros [= <- <- <-]. naive_solver.
Qed.

(** A configuration that names its certificate as [Validate] demands does not
    fail for want of a source or for a second one. *)
Lemma loadOneTLS_validated w r kind path ref :
  isEmpty path && isEmpty ref = false -> negb (isEmpty path) && negb (isEmpty ref) = false ->
  (loadOneTLS w r kind path ref).1 = wrapErr (if isEmpty path then "resolve tls." +:+ kind +:+ "_ref" else "read tls." +:+ kind +:+ "_file")
    (if isEmpty path then (ResolveBytes w r ref).1 else ReadFile w path).
Proof.
  unfold loadOneTLS, isEmpty. destruct (String.eqb path ""), (String.eqb ref ""); cbn; try done.
  by destruct (ResolveBytes w r ref).
Qed.

(** The length that is checked is that of the secret, not of its reference. *)
Theorem resolved_token_checked w r c c' r' :
  ResolveWorkerSecrets w r c = (Ok c', r') -> ValidateWorker c' = Ok tt ->
  exists tok, ResolveString w r (slWorkerToken (wcScheduler c)) = (Ok tok, r') /\
    slWorkerToken (wcScheduler c') = tok /\ 16 <= slen tok.
Proof.
  unfold ResolveWorkerSecrets. destruct (ResolveString w r _) as [[tok|] r1]; cbn; [|done].
  intros [= <- <-] H. exists tok. split_and!; [done..|].
  unfold ValidateWorker in H. cbn [wcScheduler slWorkerToken] in H. apply Nat.ltb_ge.
  destruct (slen tok <? 16); [|done]. cbv zeta in H. inv_ok. unfold rejectIf in *. naive_solver.
Qed.
End Startup.

(** ** Examples *)

(** A process with one secret per name, whose value tells the name and the
    region it was asked for in. *)
Definition oracle : world string :=
  mkWorld (fun n => if String.eqb n "TOKEN" then Some "sesame" else None)
    (fun p => if String.eqb p "/run/token" then Ok ("sesame" +:+ byte 13 +:+ byte 10) else Err "no such file")
    (fun g => Ok (default "eu-west-1" g)) (fun c id => Ok (mkSecretValue "" (Some (c +:+ "/" +:+ id))))
    (fun _ => Err "no address").

Definition fresh : Resolver string := mkResolver ∅ None.

Example oracle_answers :
  (ResolveString oracle fresh "aws-sm://hpcc/scheduler/worker-token?region=us-east-1").1
    = Ok "us-east-1/hpcc/scheduler/worker-token" /\
  (ResolveString oracle fresh "aws-sm:hpcc/token").1 = Ok "eu-west-1/hpcc/token" /\
  (ResolveString oracle fresh "env:TOKEN").1 = Ok "sesame" /\
  (ResolveString oracle fresh "file:///run/token").1 = Ok "sesame" /\
  (ResolveBytes oracle fresh "file:///run/token").1 = Ok ("sesame" +:+ byte 13 +:+ byte 10).
Proof. vm_compute. done. Qed.

(** The field of a JSON secret, and the ways it can be missing. *)
Example fields :
  let q := String dquote "" in
  let doc := "{" +:+ q +:+ "user" +:+ q +:+ ": " +:+ q +:+ "hpcc" +:+ q +:+ ", " +:+ q +:+ "port" +:+ q +:+ ": 1e400}" in
  let doc' := "{" +:+ q +:+ "user" +:+ q +:+ ": " +:+ q +:+ "hpcc" +:+ q +:+ ", " +:+ q +:+ "port" +:+ q +:+ ": 1e300}" in
  pickKey "user" doc = Err "decode JSON secret: json: cannot unmarshal number" /\
  pickKey "user" doc' = Ok "hpcc" /\ pickKey "port" doc' = Err "secret key is not a string" /\
  pickKey "host" doc' = Err "secret has no such key" /\ pickKey "user" "null" = Err "secret has no such key".
Proof. vm_compute. done. Qed.

(** An at sign may be part of the name of a secret.  What stands before it in
    the first segment is read as a user and dropped: another secret is asked
    for. *)
Example at_sign_drops_the_head :
  (ResolveString oracle fresh "aws-sm://team@prod/token").1 = Ok "eu-west-1/prod/token".
Proof. vm_compute. done. Qed.

(** The full identifier of a secret has colons and is not read. *)
Example arn_rejected :
  (ResolveString oracle fresh "aws-sm://arn:aws:secretsmanager:us-east-1:1234:secret:token").1
    = Err "parse: invalid port after host".
Proof. vm_compute. done. Qed.

(** The instance of [answered_by_region] for two lookups of the same process. *)
Example answered_second :
  exists c out val, c = "us-east-1" /\ GetSecretValue oracle c "a" = Ok out /\ secretPayload out = Ok val /\
    pickKey "" val = Ok "us-east-1/a".
Proof.
  assert (regional (fun c => c) oracle) as Hw by (by intros g c [= <-]).
  apply (answered_by_region (fun c => c) oracle (ResolveString oracle fresh "aws-sm://b").2 "a" "us-east-1" "").
  all: try done. apply lookups_string; [apply lookups_none | done].
Qed.
