(* ===== verification/Worker.v ===== *)
(** * Worker: the compile service of the worker ([internal/worker/worker.go],
      [cas.go], [staging.go], [runtime_executor.go]).

    The state holds what a request can change: the container pool, the image
    catalogue with the time of last use, the cache stores and the host file
    system.  The source store is the store of the first disk cache, in the
    namespace source ([srcIdx] is its index); it shares its state with the
    compile cache, as in the code.  [Job] collects what comes from outside in
    one request: clocks, the random container id, the temporary directories,
    the answers of the inner runtime and of the image store, and [jExec], the
    effect of running a command in a container on the host file system.
    Requests are atomic here; the interleavings of the pool are the subject of
    [Pool].  Metrics, tracing and logging are left out. *)

From S2P Require Import Prelude GoStrings GoPath Enum Invocation Parser CacheKey Rewrite Preprocess.
From S2P Require Import Manifest Effects Store CompileCache Scheduler Pool Staging WorkerCAS Config.

(** ** Messages *)

Inductive SourceSettings :=
  | SettingsNone
  | SettingsPreprocessed (preprocessedSource : string)
  | SettingsCas (cas : CasDescriptor).

(** [gen.SourceMode]: 1 is CAS, 2 is PREPROCESSED. *)
Definition SourceMode_CAS : Z := 1.
Definition SourceMode_PREPROCESSED : Z := 2.

Record RemoteDescriptor := mkRemoteDescriptor {
  rdTenantId : string;
  rdImageDigest : string;
  rdSchedulerToken : string;
  rdSourceMode : Z;
  rdSettings : SourceSettings;
  rdImageRef : string
}.

Record CompileRequest := mkCompileRequest {
  crArgs : list string;
  crDescriptor : option RemoteDescriptor
}.

Definition GetCas (d : RemoteDescriptor) : option CasDescriptor :=
  match rdSettings d with SettingsCas c => Some c | _ => None end.
Definition GetPreprocessed (d : RemoteDescriptor) : option string :=
  match rdSettings d with SettingsPreprocessed s => Some s | _ => None end.

Record AuditRecord := mkAuditRecord {
  auTenantId : string;
  auSchedulerId : string;
  auWorkerId : string;
  auVmId : nat;
  auImageDigest : string;
  auSourceDigest : option string;
  auOutputDigest : option string;
  auCacheKey : string;
  auFlags : list string;
  auExitCode : Z;
  auDurationMs : Z;
  auTimestamp : Z
}.

Record CompileResponse := mkCompileResponse {
  rsExitCode : Z;
  rsStdout : string;
  rsStderr : string;
  rsOutputArtifact : option string;
  rsCacheKey : string;
  rsAudit : option AuditRecord;
  rsExtraOutputs : gmap string string
}.

Record CompileProbe := mkCompileProbe {
  cpManifestDigest : string;
  cpArgs : list string;
  cpTenantId : string;
  cpImageDigest : string;
  cpSchedulerToken : string
}.

Inductive ProbeResponse := ProbeHit (r : CompileResponse) | ProbeMiss.

(** ** State *)

Record Worker (S : Type) := mkWorker {
  wPool : PooledRuntime;
  wImages : gmap string Z;
  wStores : list S;
  wHost : FS
}.
#[global] Arguments mkWorker {S}.
#[global] Arguments wPool {S}.
#[global] Arguments wImages {S}.
#[global] Arguments wStores {S}.
#[global] Arguments wHost {S}.

Definition set_pool {S} (p : PooledRuntime) (w : Worker S) : Worker S :=
  mkWorker p (wImages w) (wStores w) (wHost w).
Definition set_images {S} (m : gmap string Z) (w : Worker S) : Worker S :=
  mkWorker (wPool w) m (wStores w) (wHost w).
Definition set_stores {S} (ss : list S) (w : Worker S) : Worker S :=
  mkWorker (wPool w) (wImages w) ss (wHost w).
Definition set_host {S} (fs : FS) (w : Worker S) : Worker S :=
  mkWorker (wPool w) (wImages w) (wStores w) fs.

Record Job := mkJob {
  jUUID : result string;
  jSrcDir : result (list string);
  jOutDir : result (list string);
  jPull : string -> string -> result unit;
  jOrder : list string;
  jInner : result Container;
  jEntry : nat;
  jHandle : nat;
  jExec : Container -> string -> string -> list string -> FS -> result (string * string * Z) * FS;
  jElapsed : Z;
  jNow : Z;
  jEnd : Z
}.

(** ** Host files *)

(** [os.ReadFile] in a process with working directory [cwd]. *)
Definition readHost (cwd : string) (fs : FS) (p : string) : result string :=
  match fsFiles fs !! comps (if isAbs p then clean p else join [cwd; p]) with
  | Some (data, _) => Ok data
  | None => Err ("open " +:+ p)
  end.

(** The read of [CompileCache.Store]: a missing file is no error. *)
Definition readHostOpt (cwd : string) (fs : FS) (p : string) : result (option string) :=
  let q := comps (if isAbs p then clean p else join [cwd; p]) in
  if bool_decide (q ∈ fsDirs fs) then Err ("read " +:+ p +:+ ": is a directory")
  else if existsb (fun r => bool_decide (is_Some (fsFiles fs !! r))) (pathPrefixes (take (length q - 1) q))
  then Err ("open " +:+ p +:+ ": not a directory")
  else Ok (fst <$> fsFiles fs !! q).

Definition mkdirTemp {S} (p : result (list string)) : act (Worker S) (list string) := fun w =>
  match p with
  | Err e => (Failed e, w)
  | Ok d => (Done d, set_host (mkFS ({[ d ]} ∪ fsDirs (wHost w)) (fsFiles (wHost w))) w)
  end.

(** The [cleanup] of [stageSource]. *)
Definition cleanupDirs {S} (src out : list string) (w : Worker S) : Worker S :=
  set_host (removeAll out (removeAll src (wHost w))) w.

(** [collectExtraOutputs(outHostPath, primaryInContainer)]: the regular files
    below the output directory by relative path, without the artifact. *)
Definition collectExtraOutputs (out : list string) (primaryInContainer : string) (fs : FS)
    : result (gmap string string) :=
  if negb (bool_decide (out ∈ fsDirs fs)) then Err "lstat: no such file or directory"
  else
    let primaryRel := trimPrefix (toSlash primaryInContainer) "/out/" in
    Ok (list_to_map (omap (fun kv =>
          if isBelow out kv.1 then
            let key := joinWith "/" (drop (length out) kv.1) in
            if String.eqb key primaryRel then None else Some (key, kv.2.1)
          else None) (map_to_list (fsFiles fs)))).

Section Service.
  Context {S : Type} `{!StoreOps S}.
  Context (blake3 : string -> string) (parseJWT : Z -> string -> option (gmap string Claim))
    (meta : Invocation -> InvocationResult -> string)
    (cfg : WorkerConfig) (workerID cwd : string) (hasImageStore : bool) (srcIdx : option nat).

(** [ValidateToken] of a request with a descriptor. *)
Definition ValidateToken (j : Job) (d : RemoteDescriptor) : result unit :=
  validateSchedulerToken (parseJWT (unixSeconds (jNow j))) workerID (rdSchedulerToken d)
    (rdTenantId d) (rdImageDigest d).

(** [ensureImage(ctx, digest, ref)]; the single-flight group only merges
    concurrent pulls. *)
Definition ensureImage (j : Job) (digest ref : string) : act (Worker S) unit := fun w =>
  let touched := set_images (<[digest := jNow j]> (wImages w)) w in
  match wImages w !! digest with
  | Some _ => (Done tt, touched)
  | None =>
      if hasImageStore then
        if String.eqb ref "" then (Failed ("image " +:+ digest +:+ " not present locally and no image_ref to pull from"), w)
        else match jPull j ref digest with
             | Err e => (Failed ("pull image " +:+ ref +:+ ": " +:+ e), w)
             | Ok _ => (Done tt, touched)
             end
      else (Done tt, touched)
  end.

Definition sourceStore (w : Worker S) : option S := srcIdx ≫= fun i => wStores w !! i.

(** The [switch] of [stageSource], in directories that exist. *)
Definition fillSource (j : Job) (d : RemoteDescriptor) (src : list string) : act (Worker S) unit := fun w =>
  let onHost (r : result unit * FS) :=
    (match r.1 with Ok _ => Done tt | Err e => Failed e end, set_host r.2 w) in
  if (rdSourceMode d =? SourceMode_PREPROCESSED)%Z then
    match GetPreprocessed d with
    | None => (Failed "source_mode=PREPROCESSED but preprocessed_settings is empty", w)
    | Some pp =>
        match writeFile (src ++ ["main.i"]) pp (jNow j) (wHost w) with
        | Err e => (Failed ("write preprocessed source: " +:+ e), w)
        | Ok fs => (Done tt, set_host fs w)
        end
    end
  else if (rdSourceMode d =? SourceMode_CAS)%Z then
    match GetCas d with
    | None => (Failed "source_mode=CAS but cas descriptor is empty", w)
    | Some cas =>
        match sourceStore w with
        | None => (Failed "source_mode=CAS but worker has no source store configured", w)
        | Some s =>
            if negb (is_ok (validateNamespace (rdTenantId d))) then (Panicked, w)
            else onHost (let '(r, fs) := materializeCASBlobs (absOf src)
                           (fun k => sGet s (sourceNs (rdTenantId d)) k blobData) (jNow j) (wHost w) (casBlobs cas) in
                         (wrapErr "materialize CAS blobs" r, fs))
        end
    end
  else (Failed "unknown source_mode", w).

(** [stageSource(req)]: the two host directories; on an error, but not on a
    panic, they are removed again. *)
Definition stageSource (j : Job) (d : RemoteDescriptor) : act (Worker S) (list string * list string) :=
  let* src := wrapping "alloc src tmpdir" (mkdirTemp (jSrcDir j)) in
  fun w =>
  match mkdirTemp (jOutDir j) w with
  | (Done out, w1) =>
      match fillSource j d src w1 with
      | (Done _, w2) => (Done (src, out), w2)
      | (Failed e, w2) => (Failed e, cleanupDirs src out w2)
      | (Panicked, w2) => (Panicked, w2)
      end
  | (Failed e, w1) => (Failed ("alloc out tmpdir: " +:+ e), set_host (removeAll src (wHost w1)) w1)
  | (Panicked, w1) => (Panicked, w1)
  end.

(** [w.runtime.Start(spec)]: the handle and the container behind it. *)
Definition startContainer (j : Job) (spec : ContainerSpec) : act (Worker S) Container := fun w =>
  let '(r, p) := Pool.Start (wPool w) (jNow j) (jOrder j) spec (jInner j) (jNow j) (jEntry j) (jHandle j) in
  match r with
  | Err e => (Failed e, set_pool p w)
  | Ok _ =>
      match wrappers p !! jHandle j ≫= fun h => containerAt p (wEntry h) with
      | Some c => (Done c, set_pool p w)
      | None => (Panicked, set_pool p w)
      end
  end.

Definition stopContainer (j : Job) (w : Worker S) : Worker S :=
  set_pool (stopWrapper (wPool w) (jEnd j) (jHandle j)) w.

(** [runtimeExecutor] after a command that answered [r] and left [fs]. *)
Definition runtimeExecutor (r : result (string * string * Z)) (out : list string) (fs : FS) : Executor := {|
  Run bin args extraEnv cwd' := wrapErr ("container exec " +:+ bin) r;
  ReadOutput p := let! q := ReadOutput_path (absOf out) p in readHost cwd fs q
|}.

(** The cache key in [compileContext(c, imageDigest)].  The mode is
    preprocessed, so the key never builds a manifest; every request that
    reaches it carries a digest, so no preprocessor runs either. *)
Definition compileContext (imageDigest : string) : KeyContext :=
  mkKeyContext SourceModePreprocessed (Some imageDigest) (Err "no local identity")
    (fun _ => Err "no preprocessor on the worker") (fun _ => Err "no dependency walk on the worker").

Definition workerKey (imageDigest : string) (inv : Invocation) : result string :=
  default (Err "no key") (CacheKey blake3 ∅ (fun _ => false) (Err "no cwd") inv (compileContext imageDigest)).

(** [inv.ComputeHash(ctx)] with its error dropped. *)
Definition ComputeHash (imageDigest : string) (inv : Invocation) : string :=
  match workerKey imageDigest inv with Ok k => hexEncode k | Err _ => "" end.

Definition buildAudit (j : Job) (args : list string) (d : RemoteDescriptor) (c : Container) (inv : Invocation)
    (r : InvocationResult) (key : string) : AuditRecord :=
  mkAuditRecord (rdTenantId d) (slURL (wcScheduler cfg)) workerID (ctID c) (rdImageDigest d)
    (PreprocessedDigest inv) (if String.eqb (resOutput r) "" then None else Some (blake3 (resOutput r)))
    key (List.tl args) (int32 (resExitCode r)) (resDuration r / 1000000)%Z (jEnd j / 1000000)%Z.

Definition respond (j : Job) (args : list string) (d : RemoteDescriptor) (c : Container) (inv : Invocation)
    (r : InvocationResult) : CompileResponse :=
  let key := ComputeHash (rdImageDigest d) inv in
  mkCompileResponse (int32 (resExitCode r)) (resStdout r) (resStderr r)
    (if String.eqb (resOutput r) "" then None else Some (resOutput r)) key
    (Some (buildAudit j args d c inv r key)) (resExtras r).

(** The digests [Compile] binds to the parsed invocation. *)
Definition bindDigests (d : RemoteDescriptor) (verified : option string) (inv : Invocation) : Invocation :=
  let inv := match GetPreprocessed d with
             | Some pp => set_PreprocessedDigest (Some (blake3 pp)) inv
             | None => inv
             end in
  match verified with Some m => set_ManifestDigest (Some m) inv | None => inv end.

Definition useCache (d : RemoteDescriptor) : bool :=
  wcParanoid cfg || (rdSourceMode d =? SourceMode_CAS)%Z.

(** [cctx.Cache.Lookup], an error being a miss. *)
Definition cacheLookup (d : RemoteDescriptor) (inv : Invocation) : act (Worker S) (option InvocationResult) :=
  fun w =>
  if negb (useCache d) then (Done None, w)
  else match CompileCache.Lookup (workerKey (rdImageDigest d)) (wStores w) inv (rdTenantId d) with
  | None => (Panicked, w)
  | Some (Ok hit) => (Done hit, w)
  | Some (Err _) => (Done None, w)
  end.

(** [cctx.Cache.Store], its error dropped; an output that is empty is read
    from the worker's own file system. *)
Definition cacheStore (j : Job) (d : RemoteDescriptor) (inv : Invocation) (r : InvocationResult)
    : act (Worker S) unit := fun w =>
  if negb (useCache d) then (Done tt, w)
  else match CompileCache.Store (workerKey (rdImageDigest d))
         (readHostOpt cwd (wHost w)) meta
         (wStores w) inv r (rdTenantId d) (jNow j) with
  | None => (Panicked, w)
  | Some (_, ss) => (Done tt, set_stores ss w)
  end.

(** [c.Invoke(inv)] with the runtime executor. *)
Definition invoke (j : Job) (c : Compiler) (ct : Container) (src out : list string) (inv : Invocation)
    : act (Worker S) InvocationResult := fun w =>
  let '(r, fs) := jExec j ct (absOf src) (absOf out) (compilerPath c :: RawArgs inv) (wHost w) in
  (match Invoke (exec := runtimeExecutor r out fs) (jElapsed j) c inv with
   | Ok res => Done res
   | Err e => Failed e
   end, set_host fs w).

Definition set_Extras (m : gmap string string) (r : InvocationResult) : InvocationResult :=
  mkInvocationResult (resOutput r) (resStdout r) (resStderr r) (resExitCode r) (resDuration r) m.

(** [Compile] from the running container on. *)
Definition compileIn (j : Job) (args : list string) (d : RemoteDescriptor) (verified : option string)
    (src out : list string) (ct : Container) : act (Worker S) CompileResponse :=
  match args with
  | [] => panic
  | argv0 :: rest =>
      let* c := check (fun _ => wrapErr ("detect compiler " +:+ argv0) (Detect argv0)) in
      let* inv0 := check (fun w => wrapErr "compiler parse args" (Parse (readHost cwd (wHost w)) c rest)) in
      let inv := bindDigests d verified inv0 in
      let* hit := cacheLookup d inv in
      match hit with
      | Some r => ret (respond j args d ct inv r)
      | None =>
          let* r0 := wrapping "invoke compiler" (invoke j c ct src out inv) in
          let* extras := wrapping "collect extra outputs"
                           (check (fun w => collectExtraOutputs out (Output inv) (wHost w))) in
          let r := set_Extras extras r0 in
          let* _ := cacheStore j d inv r in
          ret (respond j args d ct inv r)
      end
  end.

(** [Compile(ctx, req)]. *)
Definition Compile (j : Job) (req : CompileRequest) : act (Worker S) CompileResponse :=
  match crDescriptor req with
  | None => failure "missing CompileDescriptor"
  | Some d =>
      let* _ := check (fun _ => wrapErr "validate token" (ValidateToken j d)) in
      let* _ := check (fun _ => wrapErr "argv validation" (ValidateNoHostPaths (crArgs req))) in
      let* _ := check (fun _ => wrapErr "generate compile UUID" (jUUID j)) in
      let* verified := check (fun _ =>
        match GetCas d with
        | None => Ok None
        | Some cas => rmap Some (wrapErr "verify manifest digest" (verifyManifestDigest blake3 cas))
        end) in
      let* _ := wrapping "ensure image" (ensureImage j (rdImageDigest d) (rdImageRef d)) in
      let* dirs := wrapping "stage source" (stageSource j d) in
      let '(src, out) := dirs in
      defer (cleanupDirs src out) (
        let* _ := wrapping "prepare output dirs"
                    (on wHost set_host (mkdirOutputParents (crArgs req) (absOf out))) in
        let* _ := wrapping "prepare search-path dirs"
                    (on wHost set_host (mkdirSearchPaths (crArgs req) (absOf src))) in
        match MemoryBytes (wcVM cfg) with
        | None => panic
        | Some _ =>
            let spec := mkContainerSpec (rdTenantId d) (rdImageDigest d) (vmVCPUs (wcVM cfg)) in
            let* ct := wrapping "start container" (startContainer j spec) in
            defer (stopContainer j) (compileIn j (crArgs req) d verified src out ct)
        end)
  end.

(** [ProbeCompileCache(ctx, req)]. *)
Definition ProbeCompileCache (now : Z) (req : CompileProbe) : act (Worker S) ProbeResponse :=
  let* _ := check (fun _ => wrapErr "validate token" (validateSchedulerToken (parseJWT (unixSeconds now)) workerID
              (cpSchedulerToken req) (cpTenantId req) (cpImageDigest req))) in
  if negb (slen (cpManifestDigest req) =? 32) then failure "manifest_digest must be 32 bytes"
  else match cpArgs req with
  | [] => failure "args must not be empty"
  | argv0 :: rest =>
      let* c := check (fun _ => wrapErr ("detect compiler " +:+ argv0) (Detect argv0)) in
      let* inv0 := check (fun w => wrapErr "parse args" (Parse (readHost cwd (wHost w)) c rest)) in
      let inv := set_ManifestDigest (Some (cpManifestDigest req)) inv0 in
      fun w =>
      match CompileCache.Lookup (workerKey (cpImageDigest req)) (wStores w) inv (cpTenantId req) with
      | None => (Panicked, w)
      | Some (Ok (Some hit)) =>
          (Done (ProbeHit (mkCompileResponse (int32 (resExitCode hit)) (resStdout hit) (resStderr hit)
             (if String.eqb (resOutput hit) "" then None else Some (resOutput hit))
             (ComputeHash (cpImageDigest req) inv) None ∅)), w)
      | Some _ => (Done ProbeMiss, w)
      end
  end.
End Service.

(** ** Facts *)

Section Facts.
  Context {S : Type} `{!StoreOps S}.
  Context (blake3 : string -> string) (parseJWT : Z -> string -> option (gmap string Claim))
    (meta : Invocation -> InvocationResult -> string)
    (cfg : WorkerConfig) (workerID cwd : string) (hasImageStore : bool) (srcIdx : option nat).
  Notation Compile := (Compile blake3 parseJWT meta cfg workerID cwd hasImageStore srcIdx).
  Notation ValidateToken := (ValidateToken parseJWT workerID).
  Notation stageSource := (stageSource srcIdx).
  Notation compileIn := (compileIn blake3 meta cfg workerID cwd).

(** The manifest digest a request is keyed by, after verification. *)
Definition verifiedDigest (d : RemoteDescriptor) : result (option string) :=
  match GetCas d with
  | None => Ok None
  | Some cas => rmap Some (wrapErr "verify manifest digest" (verifyManifestDigest blake3 cas))
  end.

(** What a request must pass before anything happens. *)
Definition admitted (j : Job) (req : CompileRequest) (d : RemoteDescriptor) (verified : option string) : Prop :=
  crDescriptor req = Some d /\ ValidateToken j d = Ok tt /\ ValidateNoHostPaths (crArgs req) = Ok tt /\
  verifiedDigest d = Ok verified.

(** [Compile] behind the gate. *)
Definition compileAdmitted (j : Job) (args : list string) (d : RemoteDescriptor) (verified : option string)
    : act (Worker S) CompileResponse :=
  let* _ := wrapping "ensure image" (ensureImage hasImageStore j (rdImageDigest d) (rdImageRef d)) in
  let* dirs := wrapping "stage source" (stageSource j d) in
  let '(src, out) := dirs in
  defer (cleanupDirs src out) (
    let* _ := wrapping "prepare output dirs"
                (on wHost set_host (mkdirOutputParents args (absOf out))) in
    let* _ := wrapping "prepare search-path dirs"
                (on wHost set_host (mkdirSearchPaths args (absOf src))) in
    match MemoryBytes (wcVM cfg) with
    | None => panic
    | Some _ =>
        let spec := mkContainerSpec (rdTenantId d) (rdImageDigest d) (vmVCPUs (wcVM cfg)) in
        let* ct := wrapping "start container" (startContainer j spec) in
        defer (stopContainer j) (compileIn j args d verified src out ct)
    end).

Lemma Compile_gate j req w o w' :
  Compile j req w = (o, w') ->
  (exists e, o = Failed e /\ w' = w) \/
  exists d verified, admitted j req d verified /\ compileAdmitted j (crArgs req) d verified w = (o, w').
Proof.
  intros H. unfold Worker.Compile in H. destruct (crDescriptor req) as [d|] eqn:Ed; [|left; inversion H; eauto].
  rewrite bind_check in H. destruct (ValidateToken j d) as [[]|e] eqn:Et; cbn [wrapErr] in H; [|left; inversion H; eauto].
  rewrite bind_check in H.
  destruct (ValidateNoHostPaths (crArgs req)) as [[]|e] eqn:Ev; cbn [wrapErr] in H; [|left; inversion H; eauto].
  rewrite bind_check in H. destruct (jUUID j) as [u|e]; cbn [wrapErr] in H; [|left; inversion H; eauto].
  rewrite bind_check in H. fold (verifiedDigest d) in H.
  destruct (verifiedDigest d) as [v|e] eqn:Em; [|left; inversion H; eauto].
  right. exists d, v. split; [done|exact H].
Qed.

(** *** What each part leaves alone *)

Abbreviation keepsBy f m := (keeps (sameBy f) m).

Lemma ensureImage_keeps j dg ref : keepsBy (fun w : Worker S => (wPool w, wStores w, wHost w)) (ensureImage hasImageStore j dg ref).
Proof. intros w. unfold ensureImage. by repeat case_match. Qed.

Lemma mkdirTemp_keeps p : keepsBy (fun w : Worker S => (wPool w, wImages w, wStores w)) (mkdirTemp p).
Proof. intros w. unfold mkdirTemp. by repeat case_match. Qed.

Lemma fillSource_keeps j d src :
  keepsBy (fun w : Worker S => (wPool w, wImages w, wStores w)) (fillSource srcIdx j d src).
Proof. intros w. unfold fillSource. repeat case_match; done. Qed.

Lemma stageSource_keeps j d : keepsBy (fun w : Worker S => (wPool w, wImages w, wStores w)) (stageSource j d).
Proof.
  unfold Worker.stageSource. apply keeps_bind; [apply _|apply keeps_wrapping, mkdirTemp_keeps|].
  intros src w. pose proof (mkdirTemp_keeps (jOutDir j) w) as H1. unfold sameBy in *.
  destruct (mkdirTemp (jOutDir j) w) as [[out|e|] w1]; [|done..].
  pose proof (fillSource_keeps j d src w1) as H2. unfold sameBy in *. cbn [snd] in *.
  destruct (fillSource srcIdx j d src w1) as [[[]|e|] w2]; cbn in *; congruence.
Qed.

Lemma onHost_keeps {A} (m : FS -> result A * FS) :
  keepsBy (fun w : Worker S => (wPool w, wImages w, wStores w)) (on wHost set_host m).
Proof. apply keeps_on. done. Qed.

Lemma startContainer_keeps j spec :
  keepsBy (fun w : Worker S => (wImages w, wStores w, wHost w)) (startContainer j spec).
Proof. intros w. unfold startContainer. repeat case_match; done. Qed.

Lemma cacheLookup_keeps d inv : keeps eq (cacheLookup (S := S) blake3 cfg d inv).
Proof. intros w. unfold cacheLookup. by repeat case_match. Qed.

Lemma invoke_keeps j c ct src out inv :
  keepsBy (fun w : Worker S => (wPool w, wImages w, wStores w)) (invoke cwd j c ct src out inv).
Proof. intros w. unfold invoke. by case_match. Qed.

Lemma cacheStore_keeps j d inv r :
  keepsBy (fun w : Worker S => (wPool w, wImages w, wHost w)) (cacheStore blake3 meta cfg cwd j d inv r).
Proof. intros w. unfold cacheStore. by repeat case_match. Qed.

(** A relation that holds when only the host, only the stores or only the
    pool changed as the parts do is kept by the whole. *)
Lemma compileIn_keeps (R : Worker S -> Worker S -> Prop) `{!PreOrder R} j args d verified src out ct :
  (forall w w', sameBy (fun w => (wPool w, wImages w, wStores w)) w w' -> R w w') ->
  (forall inv r, keeps R (cacheStore blake3 meta cfg cwd j d inv r)) ->
  keeps R (compileIn j args d verified src out ct).
Proof.
  intros Hh Hs. unfold Worker.compileIn. destruct args as [|a args]; [auto with act|].
  apply keeps_bind; [done|auto with act|]. intros c. apply keeps_bind; [done|auto with act|]. intros inv.
  apply keeps_bind; [done| |].
  { eapply keeps_sub; [apply cacheLookup_keeps|]. by intros ? ? ->. }
  intros [hit|]; [auto with act|]. apply keeps_bind; [done| |].
  { apply keeps_wrapping. eapply keeps_sub; [apply invoke_keeps|]. exact Hh. }
  intros r. apply keeps_bind; [done|auto with act|]. intros ex. apply keeps_bind; [done|auto|].
  auto with act.
Qed.

(** Stores change in [cacheStore] only. *)
Lemma compileAdmitted_stores (Q : list S -> list S -> Prop) `{!PreOrder Q} j args d verified :
  (forall inv r, keeps (fun w w' => Q (wStores w) (wStores w')) (cacheStore blake3 meta cfg cwd j d inv r)) ->
  keeps (fun w w' => Q (wStores w) (wStores w')) (compileAdmitted j args d verified).
Proof.
  intros Hs. set (R := fun w w' : Worker S => Q (wStores w) (wStores w')) in *.
  assert (PreOrder R) as HR.
  { split; [intros w; unfold R; reflexivity|]. intros w1 w2 w3 H1 H2. unfold R in *. by etransitivity. }
  assert (forall w w' : Worker S, wStores w' = wStores w -> R w w') as Heq.
  { intros w w' E. unfold R. rewrite E. reflexivity. }
  unfold compileAdmitted. apply keeps_bind; [done| |].
  { apply keeps_wrapping. eapply keeps_sub; [apply ensureImage_keeps|]. intros w w' E. apply Heq. by injection E. }
  intros _. apply keeps_bind; [done| |].
  { apply keeps_wrapping. eapply keeps_sub; [apply stageSource_keeps|]. intros w w' E. apply Heq. by injection E. }
  intros [src out]. apply keeps_defer; [done| |by intros w; apply Heq].
  apply keeps_bind; [done|apply keeps_wrapping, keeps_on; intros w; by apply Heq|]. intros _.
  apply keeps_bind; [done|apply keeps_wrapping, keeps_on; intros w; by apply Heq|]. intros _.
  destruct (MemoryBytes (wcVM cfg)); [|auto with act]. apply keeps_bind; [done| |].
  { apply keeps_wrapping. eapply keeps_sub; [apply startContainer_keeps|]. intros w w' E. apply Heq. by injection E. }
  intros ct. apply keeps_defer; [done| |by intros w; apply Heq].
  apply compileIn_keeps; [done| |done]. intros w w' E. apply Heq. by injection E.
Qed.

(** The pool changes by one [Start] and the [Stop] of its handle. *)
Lemma compileAdmitted_pool j args d verified w o w' :
  compileAdmitted j args d verified w = (o, w') ->
  wPool w' = wPool w \/
  exists r p, Pool.Start (wPool w) (jNow j) (jOrder j)
      (mkContainerSpec (rdTenantId d) (rdImageDigest d) (vmVCPUs (wcVM cfg)))
      (jInner j) (jNow j) (jEntry j) (jHandle j) = (r, p) /\
    wPool w' = match r with
               | Err _ => p
               | Ok _ => if bool_decide (is_Some (wrappers p !! jHandle j ≫= fun h => containerAt p (wEntry h)))
                         then stopWrapper p (jEnd j) (jHandle j) else p
               end.
Proof.
  unfold compileAdmitted, bind, wrapping.
  pose proof (ensureImage_keeps j (rdImageDigest d) (rdImageRef d) w) as K1. unfold sameBy in K1.
  destruct (ensureImage _ j _ _ w) as [[[]|e|] w1]; cbn [snd] in K1;
    [|intros [= <- <-]; left; by injection K1..].
  pose proof (stageSource_keeps j d w1) as K2. unfold sameBy in K2.
  destruct (stageSource j d w1) as [[[src out]|e|] w2]; cbn [snd] in K2;
    [|intros [= <- <-]; left; injection K1; injection K2; congruence..].
  assert (wPool w2 = wPool w) as <- by (injection K1; injection K2; congruence). clear K1 K2 w w1.
  unfold defer, on. destruct (mkdirOutputParents args (absOf out) (wHost w2)) as [[[]|e] fs1];
    [|intros [= <- <-]; by left]. cbn [wHost set_host].
  destruct (mkdirSearchPaths args (absOf src) fs1) as [[[]|e] fs2]; [|intros [= <- <-]; by left].
  destruct (MemoryBytes (wcVM cfg)); [|intros [= <- <-]; by left].
  unfold startContainer. cbn [wPool set_host].
  destruct (Pool.Start _ _ _ _ _ _ _ _) as [[[]|e] p] eqn:Es;
    [|intros [= <- <-]; right; by exists (Err e), p].
  destruct (wrappers p !! jHandle j ≫= _) as [ct|] eqn:Ew;
    [|intros [= <- <-]; right; exists (Ok tt), p; cbn; rewrite Ew; by split].
  set (w3 := set_pool p _). pose proof (compileIn_keeps (sameBy wPool) j args d verified src out ct) as K.
  assert (wPool (compileIn j args d verified src out ct w3).2 = p) as Hp.
  { apply K.
    - intros u u' E. by injection E.
    - intros inv r. eapply keeps_sub; [apply cacheStore_keeps|]. intros u u' E. by injection E. }
  destruct (compileIn j args d verified src out ct w3) as [o1 w4]. cbn [snd] in Hp. intros [= <- <-].
  right. exists (Ok tt), p. split; [done|]. rewrite Ew. cbn. by rewrite Hp.
Qed.

(** *** The staging directories *)

(** Nothing at or below [p] exists. *)
Definition clearOf (p : list string) (fs : FS) : Prop :=
  (forall q, q ∈ fsDirs fs -> isBelow p q = false) /\
  (forall q v, fsFiles fs !! q = Some v -> isBelow p q = false).

Lemma clearOf_removeAll p q fs : clearOf p fs \/ p = q -> clearOf p (removeAll q fs).
Proof.
  unfold clearOf, removeAll. cbn. intros H. split.
  - intros x Hx. apply elem_of_filter in Hx as [Hx Hd]. destruct H as [[H _]| ->]; [by apply H|done].
  - intros x v Hx. apply map_lookup_filter_Some in Hx as [Hf Hx]. destruct H as [[_ H]| ->]; [by eapply H|done].
Qed.

Lemma cleanup_clears src out (w : Worker S) :
  clearOf src (wHost (cleanupDirs src out w)) /\ clearOf out (wHost (cleanupDirs src out w)).
Proof. unfold cleanupDirs. cbn. split; apply clearOf_removeAll; [left; apply clearOf_removeAll|]; by right. Qed.

Lemma compileAdmitted_host j args d verified src out w o w' :
  jSrcDir j = Ok src -> jOutDir j = Ok out -> clearOf src (wHost w) -> clearOf out (wHost w) ->
  compileAdmitted j args d verified w = (o, w') -> o <> Panicked ->
  clearOf src (wHost w') /\ clearOf out (wHost w').
Proof.
  intros Es Eo Hs Ho. unfold compileAdmitted, bind, wrapping.
  pose proof (ensureImage_keeps j (rdImageDigest d) (rdImageRef d) w) as K1. unfold sameBy in K1.
  destruct (ensureImage _ j _ _ w) as [[[]|e|] w1]; cbn [snd] in K1;
    [|intros [= <- <-] _; assert (wHost w1 = wHost w) as -> by congruence; done..].
  unfold Worker.stageSource, bind, wrapping, mkdirTemp at 1. rewrite Es. unfold mkdirTemp. rewrite Eo.
  destruct (fillSource srcIdx j d src _) as [[[]|e|] w2]; [|intros [= <- <-] _; apply cleanup_clears|by intros [= <- <-] ?].
  unfold defer. match goal with |- (let '(_, _) := ?x in _) = _ -> _ => destruct x as [o1 w3] end.
  intros [= <- <-] _. apply cleanup_clears.
Qed.

(** *** Successful requests *)

Lemma compileAdmitted_Done j args d verified w resp w' :
  compileAdmitted j args d verified w = (Done resp, w') ->
  exists src out ct w1 w2, wStores w1 = wStores w /\
    compileIn j args d verified src out ct w1 = (Done resp, w2) /\ wStores w' = wStores w2.
Proof.
  intros H. unfold compileAdmitted in H.
  apply bind_Done in H as (? & w1 & H1 & H). apply wrapping_Done in H1.
  pose proof (ensureImage_keeps j (rdImageDigest d) (rdImageRef d) w) as K1. rewrite H1 in K1. cbn in K1.
  apply bind_Done in H as ([src out] & w2 & H2 & H). apply wrapping_Done in H2.
  pose proof (stageSource_keeps j d w1) as K2. rewrite H2 in K2. cbn in K2.
  apply defer_spec in H as (w3 & H & ->).
  apply bind_Done in H as (? & w4 & H4 & H). apply wrapping_Done in H4.
  pose proof (onHost_keeps (mkdirOutputParents args (absOf out)) w2) as K4. rewrite H4 in K4. cbn in K4.
  apply bind_Done in H as (? & w5 & H5 & H). apply wrapping_Done in H5.
  pose proof (onHost_keeps (mkdirSearchPaths args (absOf src)) w4) as K5. rewrite H5 in K5. cbn in K5.
  destruct (MemoryBytes (wcVM cfg)); [|done].
  apply bind_Done in H as (ct & w6 & H6 & H). apply wrapping_Done in H6.
  pose proof (startContainer_keeps j (mkContainerSpec (rdTenantId d) (rdImageDigest d) (vmVCPUs (wcVM cfg))) w5) as K6.
  rewrite H6 in K6. cbn in K6. apply defer_spec in H as (w7 & H & ->).
  exists src, out, ct, w6, w7. unfold sameBy in *. split_and!; [congruence|done|done].
Qed.

(** A successful compile in a container: the invocation, and a hit or a run. *)
Lemma compileIn_Done j args d verified src out ct w resp w' :
  compileIn j args d verified src out ct w = (Done resp, w') ->
  exists argv0 rest c inv0, args = argv0 :: rest /\ Detect argv0 = Ok c /\
    Parse (readHost cwd (wHost w)) c rest = Ok inv0 /\
    let inv := bindDigests blake3 d verified inv0 in
    exists r, resp = respond blake3 cfg workerID j args d ct inv r /\
      ((cacheLookup blake3 cfg d inv w = (Done (Some r), w) /\ w' = w) \/
       (cacheLookup blake3 cfg d inv w = (Done None, w) /\
        exists r0 w1, invoke cwd j c ct src out inv w = (Done r0, w1) /\
          collectExtraOutputs out (Output inv) (wHost w1) = Ok (resExtras r) /\ r = set_Extras (resExtras r) r0 /\
          cacheStore blake3 meta cfg cwd j d inv r w1 = (Done tt, w'))).
Proof.
  intros H. unfold Worker.compileIn in H. destruct args as [|argv0 rest]; [done|].
  rewrite bind_check in H. destruct (Detect argv0) as [c|] eqn:Ec; cbn [wrapErr] in H; [|done].
  rewrite bind_check in H. destruct (Parse _ c rest) as [inv0|] eqn:Ep; cbn [wrapErr] in H; [|done].
  exists argv0, rest, c, inv0. split_and!; [done|done|done|]. cbn zeta. set (inv := bindDigests _ _ _ inv0) in *.
  apply bind_Done in H as (hit & w1 & Hl & H).
  pose proof (cacheLookup_keeps d inv w) as K. rewrite Hl in K. cbn in K. subst w1.
  destruct hit as [r|].
  - inversion H; subst. exists r. split; [done|]. left. done.
  - apply bind_Done in H as (r0 & w1 & Hi & H). apply wrapping_Done in Hi.
    apply bind_Done in H as (ex & w2 & He & H). apply wrapping_Done, check_Done in He as [He ->].
    apply bind_Done in H as ([] & w3 & Hs & H). inversion H; subst.
    exists (set_Extras ex r0). split; [done|]. right. split; [done|]. exists r0, w1. done.
Qed.

Lemma cacheLookup_stores d inv (w w' : Worker S) :
  wStores w' = wStores w -> (cacheLookup blake3 cfg d inv w').1 = (cacheLookup blake3 cfg d inv w).1.
Proof. intros E. unfold cacheLookup. rewrite E. by repeat case_match. Qed.

Lemma invoke_result j c ct src out inv (w w1 : Worker S) r0 :
  (forall x a b l fs so se ec fs', jExec j x a b l fs = (Ok (so, se, ec), fs') -> isInt32 ec) ->
  invoke cwd j c ct src out inv w = (Done r0, w1) ->
  isInt32 (resExitCode r0) /\ (resOutput r0 <> "" -> Output inv <> "").
Proof.
  intros Hx H. unfold invoke in H. destruct (jExec j ct _ _ _ _) as [r fs] eqn:Ex. unfold Invoke, Run, ReadOutput in H.
  cbn [runtimeExecutor] in H. destruct r as [[[so se] ec]|e]; cbn [wrapErr rbind] in H; [|done].
  apply Hx in Ex. destruct (String.eqb_spec (Output inv) ""); cbn [negb andb] in H; [by simplify_eq|].
  destruct (ec =? 0)%Z; [|by simplify_eq].
  destruct (ReadOutput_path (absOf out) (Output inv)); cbn [rbind wrapErr] in H; [|done].
  destruct (readHost cwd fs a); cbn [rbind wrapErr] in H; by simplify_eq.
Qed.

(** *** What the compiler gets to see *)

Definition with_exec x (j : Job) : Job :=
  mkJob (jUUID j) (jSrcDir j) (jOutDir j) (jPull j) (jOrder j) (jInner j) (jEntry j) (jHandle j) x
    (jElapsed j) (jNow j) (jEnd j).

(** The files of the source directory are those of the request: the relative
    blobs of its manifest, or the one preprocessed file. *)
Definition stagedFor (d : RemoteDescriptor) (src : list string) (fs : FS) : Prop :=
  match GetCas d with
  | Some cas => stagedTree blake3 src (casBlobs cas) fs
  | None => exists pp, GetPreprocessed d = Some pp /\ fst <$> fsFiles fs !! (src ++ ["main.i"]) = Some pp /\
      forall q, inside src q -> is_Some (fsFiles fs !! q) -> q = src ++ ["main.i"]
  end.

Lemma stagedFor_files d src fs fs' : fsFiles fs' = fsFiles fs -> stagedFor d src fs -> stagedFor d src fs'.
Proof.
  intros E. unfold stagedFor. destruct (GetCas d); [by apply stagedTree_files|]. by rewrite E.
Qed.

Lemma verified_blobs d v cas b : verifiedDigest d = Ok v -> GetCas d = Some cas -> b ∈ casBlobs cas -> wbDigest b <> "".
Proof.
  intros Hv Hc Hb E. unfold verifiedDigest in Hv. rewrite Hc in Hv. unfold verifyManifestDigest in Hv.
  destruct (negb _); [done|]. destruct (mapR wireBlobRef (casBlobs cas)) as [l|] eqn:Em; [|done]. clear Hv Hc.
  revert l Em. induction (casBlobs cas) as [|b' bs IH]; intros l Em; [by apply elem_of_nil in Hb|]. cbn [mapR] in Em.
  apply elem_of_cons in Hb as [<-|Hb].
  - unfold wireBlobRef in Em. by rewrite E in Em.
  - destruct (wireBlobRef b'); cbn [rbind] in Em; [|done]. destruct (mapR wireBlobRef bs); [by eapply IH|done].
Qed.

Lemma fillSource_staged j d src v (w w' : Worker S) :
  verifiedDigest d = Ok v -> Forall proper src -> (forall q, inside src q -> fsFiles (wHost w) !! q = None) ->
  (forall s, sourceStore srcIdx w = Some s -> sourceOk blake3 s) ->
  fillSource srcIdx j d src w = (Done tt, w') -> stagedFor d src (wHost w').
Proof.
  intros Hv Hsrc Hclear Hok. unfold fillSource, stagedFor, GetPreprocessed, GetCas.
  destruct (_ =? SourceMode_PREPROCESSED)%Z.
  - destruct (rdSettings d) as [|pp|cas]; [done| |done]. unfold writeFile.
    case_bool_decide; [done|]. case_bool_decide; cbn [negb]; [|done]. intros [= <-]. exists pp. cbn.
    split_and!; [done|by rewrite lookup_insert_eq|]. intros q Hq [x Hx].
    destruct (decide (q = src ++ ["main.i"])) as [|Hne]; [done|]. rewrite lookup_insert_ne in Hx by done.
    rewrite Hclear in Hx; done.
  - destruct (_ =? SourceMode_CAS)%Z; [|done]. destruct (rdSettings d) as [|pp|cas] eqn:Eset; [done..|].
    destruct (sourceStore srcIdx w) as [s|] eqn:Es; [|done]. destruct (negb _); [done|].
    destruct (materializeCASBlobs _ _ _ _ _) as [[[]|e] fs] eqn:Em; cbn [wrapErr fst snd]; [|done]. intros [= <-].
    cbn. change (casBlobs cas) with ([] ++ casBlobs cas). eapply materialize_staged; [|done| |exact Em].
    + intros b x Hb Hg. eapply Hok; [done| |exact Hg]. eapply verified_blobs; [done| |done]. unfold GetCas. by rewrite Eset.
    + split; [intros b Hb; by apply elem_of_nil in Hb|]. intros q x t Hi Hq. by rewrite Hclear in Hq.
Qed.

(** Another compiler makes no difference if it answers this one run alike. *)
Lemma compileIn_exec x j args d v src out ct (w : Worker S) :
  (forall argv0 rest c inv0, args = argv0 :: rest -> Detect argv0 = Ok c ->
    Parse (readHost cwd (wHost w)) c rest = Ok inv0 ->
    x ct (absOf src) (absOf out) (compilerPath c :: RawArgs inv0) (wHost w)
    = jExec j ct (absOf src) (absOf out) (compilerPath c :: RawArgs inv0) (wHost w)) ->
  compileIn (with_exec x j) args d v src out ct w = compileIn j args d v src out ct w.
Proof.
  intros Hx. unfold Worker.compileIn. destruct args as [|argv0 rest]; [done|].
  apply bind_ext; [done|]. intros c w1 Hc. apply check_Done in Hc as [Hc ->]. apply bind_ext; [done|].
  intros inv0 w1 Hp. apply check_Done in Hp as [Hp ->]. cbn zeta. apply bind_ext; [done|]. intros hit w1 Hl.
  pose proof (cacheLookup_keeps d (bindDigests blake3 d v inv0) w) as K. rewrite Hl in K. cbn in K. subst w1.
  destruct hit as [r|]; [done|]. apply bind_ext; [|done]. apply wrapping_ext. unfold invoke.
  assert (RawArgs (bindDigests blake3 d v inv0) = RawArgs inv0) as ->
    by (unfold bindDigests; by destruct (GetPreprocessed d), v).
  rewrite <- (Hx argv0 rest c inv0); [done|done| |].
  - destruct (Detect argv0); cbn [wrapErr] in Hc; congruence.
  - destruct (Parse _ c rest); cbn [wrapErr] in Hp; congruence.
Qed.

(** The container runs where the staged files are unchanged, in the container
    of a live handle of the request's own key. *)
Lemma compileAdmitted_exec x j args d v src out (w : Worker S) :
  verifiedDigest d = Ok v -> jSrcDir j = Ok src -> jOutDir j = Ok out -> Forall proper src ->
  (forall q, inside src q -> fsFiles (wHost w) !! q = None) ->
  (forall s, sourceStore srcIdx w = Some s -> sourceOk blake3 s) ->
  (forall ct fs p argv0 rest c inv0,
    Pool.Start (wPool w) (jNow j) (jOrder j) (mkContainerSpec (rdTenantId d) (rdImageDigest d) (vmVCPUs (wcVM cfg)))
      (jInner j) (jNow j) (jEntry j) (jHandle j) = (Ok tt, p) ->
    (wrappers p !! jHandle j ≫= fun h => containerAt p (wEntry h)) = Some ct -> stagedFor d src fs ->
    args = argv0 :: rest -> Detect argv0 = Ok c -> Parse (readHost cwd fs) c rest = Ok inv0 ->
    x ct (absOf src) (absOf out) (compilerPath c :: RawArgs inv0) fs
    = jExec j ct (absOf src) (absOf out) (compilerPath c :: RawArgs inv0) fs) ->
  compileAdmitted (with_exec x j) args d v w = compileAdmitted j args d v w.
Proof.
  intros Hv Es Eo Hsrc Hclear Hok Hx. unfold compileAdmitted. apply bind_ext; [done|]. intros [] w1 H1.
  apply wrapping_Done in H1. pose proof (ensureImage_keeps j (rdImageDigest d) (rdImageRef d) w) as K1.
  rewrite H1 in K1. cbn in K1. apply bind_ext; [done|]. intros [src' out'] w2 H2. apply wrapping_Done in H2.
  pose proof (stageSource_keeps j d w1) as K2. rewrite H2 in K2. cbn in K2.
  assert (src' = src /\ out' = out /\ stagedFor d src (wHost w2)) as (-> & -> & Hst).
  { unfold Worker.stageSource in H2. apply bind_Done in H2 as (src0 & w0 & H0 & H2). apply wrapping_Done in H0.
    unfold mkdirTemp in H0, H2. rewrite Es in H0. rewrite Eo in H2. injection H0 as <- <-.
    destruct (fillSource srcIdx j d src _) as [[[]|e|] w3] eqn:Ef; [|done..]. injection H2 as <- <- <-.
    split_and!; [done|done|]. eapply fillSource_staged; [done|done| | |exact Ef].
    - intros q Hq. cbn. injection K1 as _ _ ->. by apply Hclear.
    - unfold sourceStore in *. cbn. injection K1 as _ -> _. done. }
  apply defer_ext. apply bind_ext; [done|]. intros ? w3 H3. apply wrapping_Done in H3. apply bind_ext; [done|].
  intros ? w4 H4. apply wrapping_Done in H4.
  assert (wPool w4 = wPool w /\ fsFiles (wHost w4) = fsFiles (wHost w2)) as [Hp Hf].
  { unfold on in H3, H4. pose proof (mkdirOutputParents_files args (absOf out) (wHost w2)) as F3.
    destruct (mkdirOutputParents _ _ _) as [r3 fs3]. injection H3 as _ <-.
    pose proof (mkdirSearchPaths_files args (absOf src) fs3) as F4. cbn [wHost set_host] in H4.
    destruct (mkdirSearchPaths _ _ _) as [r4 fs4]. injection H4 as _ <-. cbn in *.
    unfold sameBy in *. split; congruence. }
  destruct (MemoryBytes (wcVM cfg)); [|done]. apply bind_ext; [done|]. intros ct w5 H5. apply wrapping_Done in H5.
  apply defer_ext, compileIn_exec. intros argv0 rest c inv0 Ha Hc Hpa. unfold startContainer in H5.
  rewrite Hp in H5. destruct (Pool.Start _ _ _ _ _ _ _ _) as [[[]|e] p] eqn:Ep; [|done].
  destruct (wrappers p !! jHandle j ≫= _) as [ct'|] eqn:Ew; [|done]. injection H5 as <- <-.
  eapply Hx; try done. eapply stagedFor_files; [|exact Hst]. exact Hf.
Qed.

Lemma Compile_exec x j req (w : Worker S) :
  (forall d v, admitted j req d v ->
    compileAdmitted (with_exec x j) (crArgs req) d v w = compileAdmitted j (crArgs req) d v w) ->
  Compile (with_exec x j) req w = Compile j req w.
Proof.
  intros Hx. unfold Worker.Compile. destruct (crDescriptor req) as [d|] eqn:Ed; [|done].
  apply bind_ext; [done|]. intros [] w1 Ht. apply check_Done in Ht as [Ht ->].
  apply bind_ext; [done|]. intros [] w1 Hh. apply check_Done in Hh as [Hh ->].
  apply bind_ext; [done|]. intros u w1 Hu. apply check_Done in Hu as [_ ->].
  apply bind_ext; [done|]. intros v w1 Hv. apply check_Done in Hv as [Hv ->].
  apply (Hx d v). split_and!; [done| | |done].
  - destruct (ValidateToken j d) as [[]|]; done.
  - destruct (ValidateNoHostPaths (crArgs req)) as [[]|]; done.
Qed.

Lemma Compile_stores (Q : list S -> list S -> Prop) `{!PreOrder Q} j req :
  (forall d inv r, crDescriptor req = Some d ->
    keeps (fun w w' => Q (wStores w) (wStores w')) (cacheStore blake3 meta cfg cwd j d inv r)) ->
  keeps (fun w w' => Q (wStores w) (wStores w')) (Compile j req).
Proof.
  intros Hs w. destruct (Compile j req w) as [o w'] eqn:E.
  apply Compile_gate in E as [(e & -> & ->)|(d & v & (Hd & _) & E)]; [reflexivity|].
  pose proof (compileAdmitted_stores Q j (crArgs req) d v (fun inv r => Hs d inv r Hd) w) as H. by rewrite E in H.
Qed.
End Facts.

(** ** Claims *)

Lemma verifyManifest_digest blake3 cas m : verifyManifestDigest blake3 cas = Ok m -> m = casManifestDigest cas.
Proof.
  unfold verifyManifestDigest. destruct (negb _); [done|].
  destruct (mapR wireBlobRef (casBlobs cas)) as [a|]; cbn [rbind]; [|done].
  destruct (String.eqb_spec (AggregateManifestDigest blake3 (isort blobPathLe a)) (casManifestDigest cas)) as [E|];
    cbn [negb]; [|done]. congruence.
Qed.

(** What the pool needs from the surroundings of a request: a new handle and
    entry address, the keys of the pool in some order, and a container from
    the inner runtime that was not used before. *)
Definition poolReady (j : Job) (spec : ContainerSpec) (p : PooledRuntime) : Prop :=
  wrappers p !! jHandle j = None /\ heap p !! jEntry j = None /\
  jOrder j ≡ₚ map fst (map_to_list (entries (pruneStaleLocked p (jNow j)
    (poolKey (specTenantID spec) (specImageDigest spec))).2)) /\
  forall c, jInner j = Ok c -> freshFor p spec c.

Definition specOf (cfg : WorkerConfig) (d : RemoteDescriptor) : ContainerSpec :=
  mkContainerSpec (rdTenantId d) (rdImageDigest d) (vmVCPUs (wcVM cfg)).

(** C10: Nothing happens before the gate.  A compile request either fails and
    leaves the whole worker as it was, or its token is valid for its tenant,
    its image and this worker, its arguments hold no host path, and its
    manifest digest, if it has one, is the digest of its blob list. *)
Theorem compile_gated {S} `{!StoreOps S} blake3 parseJWT meta cfg workerID cwd hasImg srcIdx
    j req (w w' : Worker S) o :
  Compile blake3 parseJWT meta cfg workerID cwd hasImg srcIdx j req w = (o, w') ->
  (exists e, o = Failed e /\ w' = w) \/
  exists d, crDescriptor req = Some d /\
    validateSchedulerToken (parseJWT (unixSeconds (jNow j))) workerID (rdSchedulerToken d)
      (rdTenantId d) (rdImageDigest d) = Ok tt /\
    ValidateNoHostPaths (crArgs req) = Ok tt /\
    forall cas, GetCas d = Some cas -> verifyManifestDigest blake3 cas = Ok (casManifestDigest cas).
Proof.
  intros H. apply Compile_gate in H as [?|(d & v & (Hd & Ht & Hh & Hv) & _)]; [by left|].
  right. exists d. split_and!; [done|done|done|]. intros cas Hc. unfold verifiedDigest in Hv. rewrite Hc in Hv.
  destruct (verifyManifestDigest blake3 cas) as [m|e] eqn:Em; [|done].
  by rewrite (verifyManifest_digest _ _ _ Em).
Qed.

(** A request gives back what it took.  Whatever its outcome, a panic of
    the handler included, the pool goes through steps of its own, so that its
    invariants hold afterwards, and the handle the request got is stopped;
    and unless the request panicked, nothing is left below its staging
    directories. *)
Theorem compile_releases {S} `{!StoreOps S} blake3 parseJWT meta cfg workerID cwd hasImg srcIdx
    j req (w w' : Worker S) o idle life maxE src out :
  reachable idle life maxE (wPool w) ->
  (forall d, crDescriptor req = Some d -> poolReady j (specOf cfg d) (wPool w)) ->
  jSrcDir j = Ok src -> jOutDir j = Ok out -> clearOf src (wHost w) -> clearOf out (wHost w) ->
  Compile blake3 parseJWT meta cfg workerID cwd hasImg srcIdx j req w = (o, w') ->
  reachable idle life maxE (wPool w') /\
  (forall h, wrappers (wPool w') !! jHandle j = Some h ->
    wStopped h = true \/ wrappers (wPool w) !! jHandle j = Some h) /\
  (o <> Panicked -> clearOf src (wHost w') /\ clearOf out (wHost w')).
Proof.
  intros Hr Hp Es Eo Cs Co H. apply Compile_gate in H as [(e & -> & ->)|(d & v & (Hd & _) & H)]; [naive_solver|].
  split; [|split]; [| |intros Hn; by eapply compileAdmitted_host].
  all: destruct (Hp d Hd) as (Hw & Ha & Ho & Hf);
    apply compileAdmitted_pool in H as [->|(r & p & E & ->)]; [by eauto|].
  all: destruct (Start_steps _ _ _ _ _ _ _ _ _ _ Hw Ha Ho Hf E) as (H1 & H2 & H3).
  - assert (reachable idle life maxE p) as Hr' by (unfold reachable in *; by etransitivity).
    repeat case_match; [|done..]. eapply rtc_r; [exact Hr'|apply pstep_stop].
  - destruct r as [[]|e]; [|rewrite H2 by done; auto].
    case_bool_decide as Hb; [intros h Hh; left; by eapply stopWrapper_stopped|].
    exfalso. apply Hb. destruct (H3 eq_refl) as (h & Hh & Hst & _). rewrite Hh. cbn.
    assert (reachable idle life maxE p) as I%reachable_inv by (unfold reachable in *; by etransitivity).
    destruct (inv_slot _ I _ _ (inv_live _ I _ _ Hh Hst)) as (e & He & _). unfold containerAt. by rewrite He.
Qed.

(** C7: The compiler only ever runs on what was verified.  Replace the
    compiler by any other that answers alike when it is run in the container
    of a live handle of the request's own pool key, with the command line of
    the request, over a source directory that holds exactly the relative
    files of the verified manifest, each with the bytes of its digest (or the
    one preprocessed file): no request, whatever it says, is answered
    differently or leaves a different worker. *)
Theorem compile_runs_verified {S} `{!StoreOps S} blake3 parseJWT meta cfg workerID cwd hasImg srcIdx
    x j req (w : Worker S) idle life maxE src out :
  reachable idle life maxE (wPool w) ->
  (forall d, crDescriptor req = Some d -> poolReady j (specOf cfg d) (wPool w)) ->
  jSrcDir j = Ok src -> jOutDir j = Ok out -> Forall proper src -> clearOf src (wHost w) ->
  (forall s, sourceStore srcIdx w = Some s -> sourceOk blake3 s) ->
  (forall d v p h ct fs argv0 rest c inv0, admitted blake3 parseJWT workerID j req d v ->
    reachable idle life maxE p -> wrappers p !! jHandle j = Some h -> wStopped h = false ->
    wKey h = poolKey (rdTenantId d) (rdImageDigest d) -> containerAt p (wEntry h) = Some ct ->
    stagedFor blake3 d src fs ->
    crArgs req = argv0 :: rest -> Detect argv0 = Ok c -> Parse (readHost cwd fs) c rest = Ok inv0 ->
    x ct (absOf src) (absOf out) (compilerPath c :: RawArgs inv0) fs
    = jExec j ct (absOf src) (absOf out) (compilerPath c :: RawArgs inv0) fs) ->
  Compile blake3 parseJWT meta cfg workerID cwd hasImg srcIdx (with_exec x j) req w
  = Compile blake3 parseJWT meta cfg workerID cwd hasImg srcIdx j req w.
Proof.
  intros Hr Hp Es Eo Hsrc [_ Hc] Hok Hx. apply Compile_exec. intros d v Had. pose proof Had as (Hd & _ & _ & Hv).
  eapply compileAdmitted_exec; try done.
  { intros q [t Ht]. destruct (fsFiles (wHost w) !! q) as [y|] eqn:E; [|done]. apply Hc in E.
    apply not_true_iff_false in E. exfalso. apply E, isBelow_spec. by exists t. }
  intros ct fs p argv0 rest c inv0 Hstart Hct Hst Ha Hdet Hpa. destruct (Hp d Hd) as (Hw & He & Ho & Hf).
  destruct (Start_steps _ _ _ _ _ _ _ _ _ _ Hw He Ho Hf Hstart) as (H1 & _ & H3).
  destruct (H3 eq_refl) as (h & Hh & Hlive & Hk). rewrite Hh in Hct. cbn in Hct.
  apply (Hx d v p h ct fs argv0 rest c inv0); try done. unfold reachable in *. by etransitivity.
Qed.

Abbreviation agreeOn ns := (Forall2 (agree ns)).

Lemma workerKey_ne blake3 img inv k : (forall x, blake3 x <> "") -> workerKey blake3 img inv = Ok k -> k <> "".
Proof.
  intros Hne. unfold workerKey, CacheKey, CacheKeyWithManifest, keySource. case_bool_decide; [done|].
  cbn [compileContext ctxIdentityOverride ctxPreprocess ctxSourceMode].
  destruct (ManifestDigest inv), (PreprocessedDigest inv); intros Hk; [injection Hk as <-; apply Hne..|done].
Qed.

(** C18: Tenants of one worker are isolated.  Whatever a compile request does,
    and however it ends, panics included, no lookup of another tenant is
    answered differently, for any image, and no source blob of any tenant
    changes, so none of its own later compiles is staged differently. *)
Theorem compile_isolated {S} `{!StoreOps S, !StoreLaws S} blake3 parseJWT meta cfg workerID cwd hasImg srcIdx
    j req (w w' : Worker S) o :
  (forall x, blake3 x <> "") ->
  Compile blake3 parseJWT meta cfg workerID cwd hasImg srcIdx j req w = (o, w') ->
  (forall t inv img, (forall d, crDescriptor req = Some d -> rdTenantId d <> t) ->
    CompileCache.Lookup (workerKey blake3 img) (wStores w') inv t
    = CompileCache.Lookup (workerKey blake3 img) (wStores w) inv t) /\
  (forall t, agreeOn (sourceNs t) (wStores w) (wStores w')).
Proof.
  intros Hne H.
  assert (forall ns, length ns = 2 -> (forall d, crDescriptor req = Some d -> ns <> tenantNs (rdTenantId d)) ->
    agreeOn ns (wStores w) (wStores w')) as Hag.
  { intros ns Hl Hns. pose proof (Compile_stores blake3 parseJWT meta cfg workerID cwd hasImg srcIdx
      (agreeOn ns) j req) as K. specialize (fun H => K H w). rewrite H in K. apply K. clear - Hl Hns Hne StoreLaws0.
    intros d inv r Hd w. unfold cacheStore. destruct (negb _); [reflexivity|].
    destruct (CompileCache.Store _ _ _ _ _ _ _ _) as [[rr ss]|] eqn:E; [|reflexivity]. cbn.
    eapply Store_agree; [|done|by apply Hns|exact E]. intros i k. by apply workerKey_ne. }
  split.
  - intros t inv img Ht. apply Lookup_agree; [intros i k; by apply workerKey_ne|]. apply Hag; [done|].
    intros d Hd. specialize (Ht d Hd). unfold tenantNs. congruence.
  - intros t. apply Hag; [done|]. done.
Qed.

(** The parts of an answer that a client sees of the compile itself. *)
Definition answer (r : CompileResponse) :=
  (rsExitCode r, rsStdout r, rsStderr r, rsOutputArtifact r, rsExtraOutputs r, rsCacheKey r).

(** *** A first request that was cached

    [resp] is the answer to a request of a cached kind: it succeeded with an
    artifact, writing its entry did not fail, and the first store held no extra
    outputs of an older compile under its key if it has none. *)

(** A result with this answer. *)
Definition resultOf (resp : CompileResponse) (r : InvocationResult) : Prop :=
  resOutput r = default "" (rsOutputArtifact resp) /\ resStdout r = rsStdout resp /\ resStderr r = rsStderr resp /\
  resExitCode r = rsExitCode resp /\ resExtras r = rsExtraOutputs resp.

Section Warm.
  Context {S : Type} `{!StoreOps S, !StoreLaws S}.
  Context (blake3 : string -> string) (parseJWT : Z -> string -> option (gmap string Claim))
    (meta : Invocation -> InvocationResult -> string)
    (cfg : WorkerConfig) (workerID cwd : string) (hasImg : bool) (srcIdx : option nat).
  Context (j : Job) (req : CompileRequest) (d : RemoteDescriptor) (w w1 : Worker S) (s : S) (rest : list S)
    (resp : CompileResponse).
  Context (writes : forall inv r key, workerKey blake3 (rdImageDigest d) inv = Ok key -> hexEncode key = rsCacheKey resp -> resultOf resp r ->
    entryWrites meta (wStores w) inv r (rdTenantId d) key (jNow j)).
  Context (has_desc : crDescriptor req = Some d) (has_tenant : rdTenantId d <> "") (cached : useCache cfg d = true)
    (plain : Forall (fun a => isResponse a = false) (List.tl (crArgs req)))
    (codes : forall x a b l fs so se ec fs', jExec j x a b l fs = (Ok (so, se, ec), fs') -> isInt32 ec)
    (stores : wStores w = s :: rest).
  Context (ran : Compile blake3 parseJWT meta cfg workerID cwd hasImg srcIdx j req w = (Done resp, w1))
    (exit_ok : rsExitCode resp = 0%Z) (has_output : rsOutputArtifact resp <> None)
    (has_key : rsCacheKey resp <> "") (fits : extrasFit (rsExtraOutputs resp))
    (no_stale : rsExtraOutputs resp = ∅ -> forall key, hexEncode key = rsCacheKey resp -> extrasOf s (tenantNs (rdTenantId d)) key = ∅).

(** A run stores its own answer. *)
Lemma stored_hit c inv ct src out u u' u1 r r0 :
  invoke cwd j c ct src out inv u = (Done r0, u1) -> r = set_Extras (resExtras r) r0 ->
  cacheStore blake3 meta cfg cwd j d inv r u1 = (Done tt, u') -> wStores u = wStores w ->
  resp = respond blake3 cfg workerID j (crArgs req) d ct inv r ->
  exists hit, CompileCache.Lookup (workerKey blake3 (rdImageDigest d)) (wStores u') inv (rdTenantId d)
      = Some (Ok (Some hit)) /\
    forall j' ct', answer (respond blake3 cfg workerID j' (crArgs req) d ct' inv hit) = answer resp.
Proof.
  intros Hi Hr Hst Hu Hresp. pose proof writes as Hw. pose proof no_stale as Hns. rewrite Hresp in exit_ok, has_output, has_key, Hw, Hns |- *.
  destruct (invoke_result cwd j c ct src out inv u u1 r0 codes Hi) as [Hec Hno].
  assert (resExitCode r = resExitCode r0 /\ resOutput r = resOutput r0) as [Ee Eo] by (rewrite Hr; done).
  assert (resExitCode r = 0%Z) as Hec0 by (cbn in exit_ok; rewrite Ee in *; by rewrite int32_id in exit_ok).
  assert (resOutput r <> "") as Hro by (cbn in has_output; by destruct (String.eqb_spec (resOutput r) "")).
  assert (exists key, workerKey blake3 (rdImageDigest d) inv = Ok key /\ key <> "" /\ ComputeHash blake3 (rdImageDigest d) inv = hexEncode key) as (key & Hk & Hk0 & Hck).
  { cbn in has_key. unfold ComputeHash in has_key |- *. destruct (workerKey _ _ _) as [k|] eqn:E; [|done].
    exists k. split_and!; [reflexivity| |reflexivity]. by intros ->. }
  cbn [respond rsCacheKey rsExtraOutputs] in Hw, Hns. rewrite Hck in Hw, Hns.
  assert (entryWrites meta (s :: rest) inv r (rdTenantId d) key (jNow j)) as Hwr.
  { rewrite <- stores. apply Hw; [done|done|]. unfold resultOf. cbn. rewrite Hec0. split_and!; try reflexivity. by destruct (String.eqb_spec (resOutput r) ""). }
  pose proof (invoke_keeps cwd j c ct src out inv u) as K. rewrite Hi in K. cbn in K.
  assert (wStores u1 = s :: rest) as Hs0 by (injection K; congruence).
  unfold cacheStore in Hst. rewrite cached in Hst. cbn [negb] in Hst.
  destruct (CompileCache.Store _ _ _ _ _ _ _ _) as [[rr ss]|] eqn:Est; [|done].
  rewrite Hs0 in Est. assert (rr = Ok tt) as -> by (by eapply Store_ok).
  assert (wStores u' = ss) as -> by (injection Hst as <-; done).
  eexists. split; [eapply Store_replays; try done; [by rewrite Hresp in fits|intros E; by apply Hns]|].
  intros j' ct'. assert (Output inv <> "") as Hoi by (apply Hno; congruence).
  unfold answer, respond. rewrite (proj2 (String.eqb_neq _ _) Hoi), Hec0. reflexivity.
Qed.

(** After the request the cache holds its answer. *)
Lemma leaves_hit :
  exists argv0 args c inv0 v hit, crArgs req = argv0 :: args /\ Detect argv0 = Ok c /\
    (forall rf, Parse rf c args = Ok inv0) /\ verifiedDigest blake3 d = Ok v /\
    CompileCache.Lookup (workerKey blake3 (rdImageDigest d)) (wStores w1) (bindDigests blake3 d v inv0)
      (rdTenantId d) = Some (Ok (Some hit)) /\
    forall j' ct', answer (respond blake3 cfg workerID j' (crArgs req) d ct' (bindDigests blake3 d v inv0) hit)
      = answer resp.
Proof.
  pose proof ran as H. apply Compile_gate in H as [(? & ? & _)|(d1 & v & (Hd1 & _ & _ & Hv) & H)]; [done|].
  assert (d1 = d) as -> by congruence.
  apply compileAdmitted_Done in H as (src & out & ct & u & u' & Hu & H & Hu').
  apply compileIn_Done in H as (argv0 & rs & c & inv0 & Ha & Hc & Hp & r & Hresp & H).
  pose proof plain as Hpl. rewrite Ha in Hpl. cbn [List.tl] in Hpl.
  assert (exists hit, CompileCache.Lookup (workerKey blake3 (rdImageDigest d)) (wStores w1)
      (bindDigests blake3 d v inv0) (rdTenantId d) = Some (Ok (Some hit)) /\
    forall j' ct', answer (respond blake3 cfg workerID j' (crArgs req) d ct' (bindDigests blake3 d v inv0) hit)
      = answer resp) as (hit & H1 & H2).
  { rewrite Hu'. destruct H as [[Hl ->]|(_ & r0 & u1 & Hi & _ & Hr & Hst)]; [|by eapply stored_hit].
    exists r. unfold cacheLookup in Hl. rewrite cached in Hl. cbn [negb] in Hl.
    destruct (CompileCache.Lookup _ _ _ _) as [[hit|]|]; [|done..]. rewrite Hresp. split; [congruence|done]. }
  exists argv0, rs, c, inv0, v, hit. split_and!; try done. intros rf.
  by rewrite (Parse_plain rf (readHost cwd (wHost u)) c rs Hpl).
Qed.

(** C17: A warm compile answers like the cold one.  When a cached request
    succeeds with an artifact, the same request at any later time, in any
    state of the pool, the images and the host, and whatever the compiler
    would do then, is answered with the same exit code, output streams,
    artifact, extra outputs and cache key, if it is answered; and it does
    not change the stores.  There is a store, a tenant and a key, no
    argument names a response file, which the worker would read from its own
    disk, exit codes are 32-bit numbers, and the extra outputs have lengths
    that fit the 32-bit fields of their encoding.  Writing the entry of this
    answer into the stores as they were is supposed to succeed, since the code
    only logs a failure; and when there are no extra outputs the first store
    must hold none under this key, since the code does not remove those of an
    older entry. *)
Theorem compile_replayed j2 w2 w3 resp2 :
  wStores w2 = wStores w1 ->
  Compile blake3 parseJWT meta cfg workerID cwd hasImg srcIdx j2 req w2 = (Done resp2, w3) ->
  answer resp2 = answer resp /\ wStores w3 = wStores w2.
Proof.
  intros Hs2 H2. destruct leaves_hit as (argv0 & args & c & inv0 & v & hit & Ha & Hc & Hp & Hv & Hl & Hans).
  apply Compile_gate in H2 as [(? & ? & _)|(d2 & v2 & (Hd2 & _ & _ & Hv2) & H2)]; [done|].
  assert (d2 = d /\ v2 = v) as (-> & ->) by naive_solver congruence.
  apply compileAdmitted_Done in H2 as (src2 & out2 & ct2 & u2 & u2' & Hu2 & H2 & Hu2').
  apply compileIn_Done in H2 as (argv02 & rs2 & c2 & inv02 & Ha2 & Hc2 & Hp2 & r2 & -> & H2).
  rewrite Ha in Ha2. injection Ha2 as <- <-. assert (c2 = c) as -> by congruence.
  rewrite Hp in Hp2. injection Hp2 as <-.
  assert (cacheLookup blake3 cfg d (bindDigests blake3 d v inv0) u2 = (Done (Some hit), u2)) as Hhit.
  { unfold cacheLookup. rewrite cached. cbn [negb]. by rewrite Hu2, Hs2, Hl. }
  destruct H2 as [[Hl2 ->]|(Hl2 & _)]; rewrite Hl2 in Hhit; [|done].
  assert (r2 = hit) as -> by congruence. split; [apply Hans|]. congruence.
Qed.

(** A probe finds the compile but loses its extra outputs.  After a cached
    compile of a manifest, the probe for the same digest, arguments, tenant
    and image is a hit with the same exit code, output streams, artifact and
    cache key; its extra outputs are empty whatever the compile produced,
    where the message definition says they come with fresh compiles and cache
    hits alike. *)
Theorem probe_drops_extras cas now token w2 :
  rdSettings d = SettingsCas cas -> slen (casManifestDigest cas) = 32 -> wStores w2 = wStores w1 ->
  validateSchedulerToken (parseJWT (unixSeconds now)) workerID token (rdTenantId d) (rdImageDigest d) = Ok tt ->
  exists r, ProbeCompileCache blake3 parseJWT workerID cwd now
      (mkCompileProbe (casManifestDigest cas) (crArgs req) (rdTenantId d) (rdImageDigest d) token) w2
    = (Done (ProbeHit r), w2) /\
    (rsExitCode r, rsStdout r, rsStderr r, rsOutputArtifact r, rsCacheKey r)
    = (rsExitCode resp, rsStdout resp, rsStderr resp, rsOutputArtifact resp, rsCacheKey resp) /\
    rsExtraOutputs r = ∅.
Proof.
  intros Hset Hlen Hs2 Htok.
  destruct leaves_hit as (argv0 & args & c & inv0 & v & hit & Ha & Hc & Hp & Hv & Hl & Hans).
  assert (bindDigests blake3 d v inv0 = set_ManifestDigest (Some (casManifestDigest cas)) inv0) as Einv.
  { unfold bindDigests, GetPreprocessed. rewrite Hset. unfold verifiedDigest, GetCas in Hv. rewrite Hset in Hv.
    destruct (verifyManifestDigest blake3 cas) as [m|] eqn:Em; [|done]. cbn in Hv. injection Hv as <-.
    by rewrite (verifyManifest_digest _ _ _ Em). }
  rewrite Einv in Hl, Hans. unfold ProbeCompileCache. rewrite bind_check. cbn [cpSchedulerToken cpTenantId cpImageDigest
    cpManifestDigest cpArgs]. rewrite Htok. cbn [wrapErr]. rewrite Hlen. cbn [negb Nat.eqb].
  rewrite Ha, bind_check, Hc. cbn [wrapErr]. rewrite bind_check, Hp. cbn [wrapErr]. rewrite Hs2, Hl.
  eexists. split; [reflexivity|]. specialize (Hans j (mkContainer 0 "" "" 1)). unfold answer, respond in Hans.
  cbn in Hans |- *. split; [congruence|done].
Qed.
End Warm.

(** A worker with one store in memory that holds the source file of acme, and
    a request to compile it; the compiler writes the object [o]. *)
Definition exClaims : gmap string Claim :=
  {[ "tenant_id" := ClaimString "acme"; "image_digest" := ClaimString "img"; "worker_id" := ClaimString "w1" ]}.
Definition exJWT (t : Z) (raw : string) : option (gmap string Claim) :=
  if String.eqb raw "tok" then Some exClaims else None.

Definition exBlobs : list WireBlob := [mkWireBlob "main.c" (toyHash "int x;") 6].
Definition exCas : CasDescriptor :=
  mkCasDescriptor (AggregateManifestDigest toyHash [mkBlobRef "main.c" (toyHash "int x;") 6]) exBlobs.
Definition exDesc : RemoteDescriptor :=
  mkRemoteDescriptor "acme" "img" "tok" SourceMode_CAS (SettingsCas exCas) "".
Definition exReq : CompileRequest :=
  mkCompileRequest ["gcc"; "-c"; "/src/main.c"; "-o"; "/out/main.o"; "-MF"; "/out/main.d"] (Some exDesc).

Definition exObj (o : string) (c : Container) (src out : string) (argv : list string) (fs : FS)
    : result (string * string * Z) * FS :=
  (Ok ("", "warning", 0%Z),
   mkFS (fsDirs fs) (<[comps out ++ ["main.d"] := ("main.o: main.c", 3%Z)]>
     (<[comps out ++ ["main.o"] := (o, 3%Z)]> (fsFiles fs)))).

Definition exJob (o : string) (handle : nat) : Job :=
  mkJob (Ok "id") (Ok ["tmp"; "s"]) (Ok ["tmp"; "o"]) (fun _ _ => Ok tt) [] (Ok (mkContainer handle "acme" "img" 4))
    handle handle (exObj o) 7 3 4.

Definition exMem : MemStore := {[ (sourceNs "acme", toyHash "int x;", blobData) := "int x;" ]}.
Definition exWorker0 : Worker MemStore :=
  mkWorker (NewPooledRuntime 0 0 0) ∅ [exMem] (mkFS {[ []; ["tmp"] ]} ∅).

Definition exCompile (j : Job) (req : CompileRequest) (w : Worker MemStore) :=
  @Compile MemStore mem_ops toyHash exJWT noMeta (exWorkerConfig "2GB" "10m") "w1" "/" false (Some 0) j req w.

Lemma compile_gated_witness :
  exists d, crDescriptor exReq = Some d /\
    validateSchedulerToken (exJWT 0) "w1" (rdSchedulerToken d) (rdTenantId d) (rdImageDigest d) = Ok tt /\
    ValidateNoHostPaths (crArgs exReq) = Ok tt /\
    forall cas, GetCas d = Some cas -> verifyManifestDigest toyHash cas = Ok (casManifestDigest cas).
Proof.
  destruct (@compile_gated MemStore mem_ops toyHash exJWT noMeta (exWorkerConfig "2GB" "10m") "w1" "/" false
    (Some 0) (exJob "obj" 1) exReq exWorker0 (exCompile (exJob "obj" 1) exReq exWorker0).2
    (exCompile (exJob "obj" 1) exReq exWorker0).1) as [(e & He & _)|H].
  - apply surjective_pairing.
  - vm_compute in He. discriminate He.
  - exact H.
Defined.

Lemma exWorker0_ready d : crDescriptor exReq = Some d ->
  poolReady (exJob "obj" 1) (specOf (exWorkerConfig "2GB" "10m") d) (wPool exWorker0).
Proof.
  intros [= <-]. split_and!; [done|done|done|]. intros c [= <-]. split_and!; [done|done|done| |].
  - intros a e He. cbn in He. by rewrite lookup_empty in He.
  - intros c' Hc. by apply elem_of_nil in Hc.
Qed.


Lemma clearOf_ex n : clearOf ["tmp"; n] (wHost exWorker0).
Proof.
  split.
  - intros q Hq. apply elem_of_union in Hq as [Hq|Hq]; apply elem_of_singleton in Hq as ->; reflexivity.
  - intros q v Hq. cbn in Hq. by rewrite lookup_empty in Hq.
Qed.

Lemma compile_releases_witness :
  reachable 0 0 0 (wPool (exCompile (exJob "obj" 1) exReq exWorker0).2).
Proof.
  refine (proj1 (@compile_releases MemStore mem_ops toyHash exJWT noMeta (exWorkerConfig "2GB" "10m") "w1" "/"
    false (Some 0) (exJob "obj" 1) exReq exWorker0 (exCompile (exJob "obj" 1) exReq exWorker0).2
    (exCompile (exJob "obj" 1) exReq exWorker0).1 0 0 0 ["tmp"; "s"] ["tmp"; "o"]
    _ exWorker0_ready eq_refl eq_refl (clearOf_ex "s") (clearOf_ex "o") _)).
  - apply rtc_refl.
  - apply surjective_pairing.
Defined.

(** The answers of a first and of a second request, the compiler having
    changed in between. *)
Definition exCold : outcome CompileResponse * Worker MemStore := exCompile (exJob "obj" 1) exReq exWorker0.
Definition exWarm : outcome CompileResponse * Worker MemStore := exCompile (exJob "obj2" 2) exReq exCold.2.

Definition responseOf (o : outcome CompileResponse) : CompileResponse :=
  match o with Done r => r | _ => mkCompileResponse 0 "" "" None "" None ∅ end.

Lemma exCold_done : exCold.1 = Done (responseOf exCold.1).
Proof. vm_compute. reflexivity. Qed.
Lemma exWarm_done : exWarm.1 = Done (responseOf exWarm.1).
Proof. vm_compute. reflexivity. Qed.
Lemma exCold_extras : rsExtraOutputs (responseOf exCold.1) = {[ "main.d" := "main.o: main.c" ]}.
Proof. vm_compute. reflexivity. Qed.

(** The store in memory takes every entry. *)
Lemma exWrites inv r key now ss : entryWrites (StoreOps0 := mem_ops) noMeta ss inv r "acme" key now.
Proof.
  unfold entryWrites. generalize (entryBlobs noMeta (Some (resOutput r)) inv r) as blobs. intros blobs.
  assert (forall l s, (putBlobs (StoreOps0 := mem_ops) s (tenantNs "acme") key l now).1 = Ok tt) as Hb by (induction l as [|[n v] l IH]; intros s; [done|apply IH]).
  induction ss as [|s rest IH]; cbn [storeAll]; [done|]. specialize (Hb blobs s). destruct (putBlobs _ _ _ _ _) as [o s']. cbn in Hb. rewrite Hb.
  destruct (storeAll _ _ _ _ _) as [o2 ss2]. exact IH.
Qed.
Lemma exCodes x a b l fs so se ec fs' :
  jExec (exJob "obj" 1) x a b l fs = (Ok (so, se, ec), fs') -> isInt32 ec.
Proof. intros H. injection H as _ _ <- _. by split. Qed.
Lemma exCold_run : exCompile (exJob "obj" 1) exReq exWorker0 = (Done (responseOf exCold.1), exCold.2).
Proof. rewrite <- exCold_done. apply surjective_pairing. Qed.
Lemma exCold_fits : extrasFit (rsExtraOutputs (responseOf exCold.1)).
Proof. rewrite exCold_extras. split; [vm_compute; reflexivity|]. apply map_Forall_singleton. vm_compute. done. Qed.
Lemma exCold_fresh : rsExtraOutputs (responseOf exCold.1) = ∅ ->
  forall key, hexEncode key = rsCacheKey (responseOf exCold.1) -> extrasOf (StoreOps0 := mem_ops) exMem (tenantNs "acme") key = ∅.
Proof. intros E. rewrite exCold_extras in E. exfalso. revert E. apply insert_non_empty. Qed.

Lemma compile_replayed_witness : answer (responseOf exWarm.1) = answer (responseOf exCold.1).
Proof.
  refine (proj1 (@compile_replayed MemStore mem_ops mem_laws toyHash exJWT noMeta (exWorkerConfig "2GB" "10m")
    "w1" "/" false (Some 0) (exJob "obj" 1) exReq exDesc exWorker0 exCold.2 exMem [] (responseOf exCold.1)
    (fun inv r key _ _ _ => exWrites inv r key _ _) eq_refl _ eq_refl _ exCodes eq_refl exCold_run _ _ _ exCold_fits exCold_fresh
    (exJob "obj2" 2) exCold.2 exWarm.2 (responseOf exWarm.1) eq_refl _)).
  - discriminate.
  - repeat constructor.
  - vm_compute. reflexivity.
  - vm_compute. discriminate.
  - vm_compute. discriminate.
  - rewrite <- exWarm_done. apply surjective_pairing.
Defined.

Lemma probe_drops_extras_witness :
  rsExtraOutputs (responseOf exCold.1) = {[ "main.d" := "main.o: main.c" ]} /\
  exists r, @ProbeCompileCache MemStore mem_ops toyHash exJWT "w1" "/" 0
      (mkCompileProbe (casManifestDigest exCas) (crArgs exReq) "acme" "img" "tok") exCold.2
      = (Done (ProbeHit r), exCold.2) /\ rsExtraOutputs r = ∅.
Proof.
  split; [exact exCold_extras|].
  assert (rdTenantId exDesc <> "") as Ht by discriminate.
  assert (Forall (fun a => isResponse a = false) (List.tl (crArgs exReq))) as Hp by repeat constructor.
  assert (rsExitCode (responseOf exCold.1) = 0%Z) as He by (vm_compute; reflexivity).
  assert (rsOutputArtifact (responseOf exCold.1) <> None) as Ho by (vm_compute; discriminate).
  assert (rsCacheKey (responseOf exCold.1) <> "") as Hk by (vm_compute; discriminate).
  assert (slen (casManifestDigest exCas) = 32) as Hl by (vm_compute; reflexivity).
  destruct (@probe_drops_extras MemStore mem_ops mem_laws toyHash exJWT noMeta (exWorkerConfig "2GB" "10m")
    "w1" "/" false (Some 0) (exJob "obj" 1) exReq exDesc exWorker0 exCold.2 exMem [] (responseOf exCold.1)
    (fun inv r key _ _ _ => exWrites inv r key _ _) eq_refl Ht eq_refl Hp exCodes eq_refl exCold_run He Ho Hk exCold_fits exCold_fresh
    exCas 0%Z "tok" exCold.2 eq_refl Hl eq_refl eq_refl) as (r & Hr & _ & Hx).
  exists r. split; [exact Hr|exact Hx].
Defined.

(** A compiler that refuses to run in a container of another key. *)
Definition exGuarded (ct : Container) (src out : string) (argv : list string) (fs : FS)
    : result (string * string * Z) * FS :=
  if String.eqb (containerKey ct) (poolKey "acme" "img") then exObj "obj" ct src out argv fs
  else (Err "wrong container", fs).

Lemma exMem_addressed t k v : k <> "" ->
  sGet (StoreOps := mem_ops) exMem (sourceNs t) k blobData = Ok (Some v) -> toyHash v = k.
Proof.
  intros _ H. change (Ok (exMem !! (sourceNs t, k, blobData)) = Ok (Some v)) in H.
  assert (exMem !! (sourceNs t, k, blobData) = Some v) as E by congruence. unfold exMem in E.
  apply lookup_singleton_Some in E as [E <-]. congruence.
Qed.

Lemma compile_runs_verified_witness :
  (exCompile (with_exec exGuarded (exJob "obj" 1)) exReq exWorker0).1 = exCold.1.
Proof.
  refine (f_equal fst (@compile_runs_verified MemStore mem_ops toyHash exJWT noMeta (exWorkerConfig "2GB" "10m") "w1"
    "/" false (Some 0) exGuarded (exJob "obj" 1) exReq exWorker0 0 0 0 ["tmp"; "s"] ["tmp"; "o"]
    (rtc_refl _ _) exWorker0_ready eq_refl eq_refl _ (clearOf_ex "s") _ _)).
  { by repeat constructor. }
  { intros s Hs. injection Hs as <-. exact exMem_addressed. }
  intros d v p h ct fs argv0 rest c inv0 (Hd & _) Hr Hh Hl Hk Hct _ _ _ _. injection Hd as <-.
  apply reachable_inv in Hr. destruct (inv_slot _ Hr _ _ (inv_live _ Hr _ _ Hh Hl)) as (e & He & Hkey).
  unfold containerAt in Hct. rewrite He in Hct. injection Hct as <-. unfold exGuarded. by rewrite Hkey, Hk.
Defined.

Lemma compile_isolated_witness :
  CompileCache.Lookup (StoreOps0 := mem_ops) (workerKey toyHash "img") (wStores exCold.2) sampleInv "beta"
  = CompileCache.Lookup (StoreOps0 := mem_ops) (workerKey toyHash "img") [exMem] sampleInv "beta".
Proof.
  refine (proj1 (@compile_isolated MemStore mem_ops mem_laws toyHash exJWT noMeta (exWorkerConfig "2GB" "10m") "w1" "/"
    false (Some 0) (exJob "obj" 1) exReq exWorker0 exCold.2 exCold.1 toyHash_ne _) "beta" sampleInv "img" _).
  - apply surjective_pairing.
  - intros d [= <-]. discriminate.
Defined.

(** ** Behaviours the code does not mean to have *)

(** A compiler that reports its command line, and a worker with a file of its own. *)
Definition exEcho (c : Container) (src out : string) (argv : list string) (fs : FS)
    : result (string * string * Z) * FS := (Ok ("", joinWith " " argv, 1%Z), fs).
Definition exLeakReq : CompileRequest := mkCompileRequest ["gcc"; "-c"; "/src/main.c"; "@/etc/secret"] (Some exDesc).
Definition exLeakWorker : Worker MemStore :=
  mkWorker (NewPooledRuntime 0 0 0) ∅ [exMem]
    (mkFS {[ []; ["tmp"]; ["etc"] ]} {[ ["etc"; "secret"] := ("token-of-the-worker", 1%Z) ]}).

(** A request can read files of the worker's host.  The arguments pass the
    check for host paths, but a response file among them is opened by the
    worker itself, outside the container, and its words become arguments of
    the compiler: a compiler that echoes its command line hands them back to
    the client. *)
Theorem response_file_leak :
  ValidateNoHostPaths (crArgs exLeakReq) = Ok tt /\
  rsStderr (responseOf (exCompile (with_exec exEcho (exJob "obj" 1)) exLeakReq exLeakWorker).1)
  = "gcc -c /src/main.c token-of-the-worker".
Proof. vm_compute. done. Qed.

(** An admitted request with no arguments panics the handler: the image is
    ensured, the sources are staged and the container is started before the
    first argument is read.  The probe handler checks for this. *)
Theorem compile_empty_args_panics :
  (exCompile (exJob "obj" 1) (mkCompileRequest [] (Some exDesc)) exWorker0).1 = Panicked.
Proof. vm_compute. done. Qed.

(** Two blobs for one file, in either order. *)
Definition exTwo (first : bool) : CasDescriptor :=
  let a := mkWireBlob "a.h" (toyHash "one") 3 in
  let b := mkWireBlob "./a.h" (toyHash "two") 3 in
  mkCasDescriptor (AggregateManifestDigest toyHash (isort blobPathLe
      [mkBlobRef "a.h" (toyHash "one") 3; mkBlobRef "./a.h" (toyHash "two") 3]))
    (if first then [a; b] else [b; a]).
Definition exTwoGet (k : string) : result (option string) :=
  Ok (if String.eqb k (toyHash "one") then Some "one" else if String.eqb k (toyHash "two") then Some "two" else None).

(** The manifest digest does not determine the staged sources.  Two
    descriptors that both verify, with the same digest and so the same cache
    key, stage different bytes at the same path: paths are hashed as they are
    written and not as they are cleaned, blobs are hashed in sorted order but
    written in the order of the request, and a later blob overwrites an
    earlier one. *)
Theorem manifest_digest_ambiguous :
  verifyManifestDigest toyHash (exTwo true) = verifyManifestDigest toyHash (exTwo false) /\
  is_ok (verifyManifestDigest toyHash (exTwo true)) = true /\
  (fun first => fsFiles (materializeCASBlobs "/s" exTwoGet 3 (mkFS {[ []; ["s"] ]} ∅) (casBlobs (exTwo first))).2
    !! ["s"; "a.h"]) <$> [true; false] = [Some ("two", 3%Z); Some ("one", 3%Z)].
Proof. vm_compute. done. Qed.
