(* ===== verification/Dispatch.v ===== *)
(** * Dispatch: the daemon's remote compile path.

    [internal/daemon/dispatch/dispatch.go] with the token cache of
    [internal/auth]: a dispatcher authenticates at the scheduler, asks it for
    a worker, and has the worker compile, from preprocessed text or from a
    manifest whose blobs it uploads first.  The scheduler and the workers are
    an interface, the class [Mesh]; [MeshLaws] is what the upload relies on.
    The [Cluster] file implements both with the scheduler and the worker of
    this development. *)

From S2P Require Import Prelude Effects GoStrings GoPath GoTime Enum Invocation Rewrite Preprocess Manifest.
From S2P Require Import Store Scheduler Staging WorkerCAS Worker.

(** ** Tokens ([internal/auth]) *)

(** [auth.Token]; the zero [ExpiresAt] is [None]. *)
Record Token := mkToken {
  tkUsername : string;
  tkAccessToken : string;
  tkRefreshToken : string;
  tkExpiresAt : option Z;
  tkClientSecret : string
}.

Definition ExpiredWithin (now skew : Z) (t : Token) : bool :=
  match tkExpiresAt t with
  | None => false
  | Some e => (e <? now + skew)%Z
  end.

Record IdP := mkIdP {
  TokenURL : string;
  ClientID : string;
  Scope : string
}.

Record TokenResponse := mkTokenResponse {
  trAccessToken : string;
  trRefreshToken : string;
  trExpiresIn : Z;
  trError : string;
  trErrorDesc : string
}.

(** What the HTTP client hands back: the status, its text, the body and the
    body decoded. *)
Record HTTPResponse := mkHTTPResponse {
  httpStatusCode : Z;
  httpStatus : string;
  httpBody : string;
  httpDecoded : option TokenResponse
}.

Definition truncate (b : string) (n : nat) : string :=
  if slen b <=? n then b else stake n b +:+ "...".

Definition setNonEmpty (k v : string) (form : gmap string string) : gmap string string :=
  if String.eqb v "" then form else <[k := v]> form.

Section Grants.
  Context (httpPost : string -> gmap string string -> result HTTPResponse).

Definition postForm (tokenURL : string) (form : gmap string string) : result TokenResponse :=
  if String.eqb tokenURL "" then Err "empty token_url"
  else let! resp := httpPost tokenURL form in
  let bad := Err ("token endpoint returned " +:+ httpStatus resp +:+ ": " +:+ truncate (httpBody resp) 256) in
  match httpDecoded resp with
  | None => bad
  | Some parsed =>
      if negb (httpStatusCode resp =? 200)%Z || String.eqb (trAccessToken parsed) "" then
        if String.eqb (trError parsed) "" then bad
        else Err ("oauth error " +:+ trError parsed +:+ ": " +:+ trErrorDesc parsed)
      else Ok parsed
  end.

Definition PasswordGrant (idp : IdP) (username password clientSecret : string) : result TokenResponse :=
  postForm (TokenURL idp)
    (setNonEmpty "scope" (Scope idp) (setNonEmpty "client_secret" clientSecret
      (setNonEmpty "client_id" (ClientID idp)
        (<["password" := password]> (<["username" := username]> {[ "grant_type" := "password" ]}))))).

Definition RefreshGrant (idp : IdP) (refreshToken clientSecret : string) : result TokenResponse :=
  postForm (TokenURL idp)
    (setNonEmpty "client_secret" clientSecret (setNonEmpty "client_id" (ClientID idp)
      (<["refresh_token" := refreshToken]> {[ "grant_type" := "refresh_token" ]}))).
End Grants.

(** ** The mesh *)

(** A connection to a worker: its address and the certificate fingerprint it
    is pinned to. *)
Record Conn := mkConn {
  connAddr : string;
  connPinned : string
}.

(** The calls of [SchedulerServiceClient] and [WorkerServiceClient] the
    dispatcher makes, each on the state of the whole mesh.  A stream is the
    list of its messages; [fin] is how the client ends it. *)
Class Mesh (M : Type) := {
  mGetTenantIdP : string -> M -> result GetTenantIdPResponse * M;
  mAuthenticate : AuthRequest -> M -> result AuthResponse * M;
  mRoute : RouteRequest -> M -> result RouteResponse * M;
  mProbeCompileCache : Conn -> CompileProbe -> M -> result ProbeResponse * M;
  mFindMissingBlobs : Conn -> list BlobDigest -> M -> result (list BlobDigest) * M;
  mUploadBlobs : Conn -> list BlobChunk -> option string -> M -> result UploadResult * M;
  mCompile : Conn -> CompileRequest -> M -> result CompileResponse * M
}.

(** What a client may rely on when it uploads: [stored] blobs stay, a blob
    that is not reported missing is stored, and so is every blob of an upload
    that rejects none.  [sound] is a condition on the mesh that this depends
    on and that the calls before the upload keep. *)
Class MeshLaws (M : Type) `{!Mesh M} := {
  stored : M -> Conn -> string -> string -> Prop;
  sound : M -> Prop;
  sound_idp t m : sound m -> sound (mGetTenantIdP t m).2;
  sound_auth req m : sound m -> sound (mAuthenticate req m).2;
  sound_route req m : sound m -> sound (mRoute req m).2;
  sound_probe conn req m : sound m -> sound (mProbeCompileCache conn req m).2;
  find_missing_law m conn reqs sent m' :
    sound m -> mFindMissingBlobs conn reqs m = (Ok sent, m') ->
    m' = m /\ forall q, q ∈ reqs -> stored m conn (bdTenantId q) (bdDigest q) \/ q ∈ sent;
  upload_law m conn msgs r m' :
    sound m -> mUploadBlobs conn msgs None m = (Ok r, m') -> RejectedDigests r = [] ->
    (forall t k, k <> "" -> stored m conn t k -> stored m' conn t k) /\
    forall h, ChunkHeader (Some h) ∈ msgs -> stored m' conn (bdTenantId h) (bdDigest h)
}.

(** ** The dispatcher *)

Record RemoteConfig := mkRemoteConfig {
  rcEnabled : bool;
  rcTenantID : string;
  rcImageRef : string;
  rcImageDigest : string;
  rcSchedulerURL : string;
  rcCAFile : string
}.

(** The mutable part of a [Dispatcher]: the session token, the pinned
    connections by address and whether the notice was given; and the token
    file, [Ok None] when there is none. *)
Record Dispatcher := mkDispatcher {
  dSession : string;
  dWorkers : gmap string string;
  dNoticeGiven : bool;
  dTokenFile : result (option Token)
}.

Record World (M : Type) := mkWorld {
  wDisp : Dispatcher;
  wMesh : M
}.
#[global] Arguments mkWorld {M}.
#[global] Arguments wDisp {M}.
#[global] Arguments wMesh {M}.

Definition set_mesh {M} (m : M) (w : World M) : World M := mkWorld (wDisp w) m.
Definition set_session {M} (s : string) (w : World M) : World M :=
  mkWorld (mkDispatcher s (dWorkers (wDisp w)) (dNoticeGiven (wDisp w)) (dTokenFile (wDisp w))) (wMesh w).
Definition set_conns {M} (c : gmap string string) (w : World M) : World M :=
  mkWorld (mkDispatcher (dSession (wDisp w)) c (dNoticeGiven (wDisp w)) (dTokenFile (wDisp w))) (wMesh w).
Definition set_notice {M} (w : World M) : World M :=
  mkWorld (mkDispatcher (dSession (wDisp w)) (dWorkers (wDisp w)) true (dTokenFile (wDisp w))) (wMesh w).
Definition set_tokenFile {M} (t : Token) (w : World M) : World M :=
  mkWorld (mkDispatcher (dSession (wDisp w)) (dWorkers (wDisp w)) (dNoticeGiven (wDisp w)) (Ok (Some t))) (wMesh w).

(** [New]: the CA file is read but the scheduler is not dialled. *)
Definition New (cfg : RemoteConfig) (loadCA : string -> result unit) (tokenFile : result (option Token))
    : result Dispatcher :=
  if String.eqb (rcSchedulerURL cfg) "" then Err "remote.scheduler.url is required when remote is enabled"
  else let! _ := (if String.eqb (rcCAFile cfg) "" then Ok tt else loadCA (rcCAFile cfg)) in
       Ok (mkDispatcher "" ∅ false tokenFile).

(** *** Pure helpers *)

Definition compileResponseToResult (resp : CompileResponse) : InvocationResult :=
  mkInvocationResult (default "" (rsOutputArtifact resp)) (rsStdout resp) (rsStderr resp) (rsExitCode resp) 0 ∅.

Definition hadWerror (args : list string) : bool :=
  existsb (fun a => String.eqb a "-Werror" || hasPrefix a "-Werror=") args.

Definition projectBlobs (blobs : list BlobRef) : list BlobRef :=
  List.filter (fun b => negb (isAbs (blobPath b))) blobs.

Definition manifestBlobsToProto (blobs : list BlobRef) : list WireBlob :=
  map (fun b => mkWireBlob (blobPath b) (blobDigest b) (blobSize b)) blobs.

Definition projectRelative (getwd : result string) (projectRoot p : string) : result string :=
  let! a := abs getwd p in
  let! r := rel projectRoot a in
  if String.eqb r ".." || hasPrefix r "../" then Err ("entry path " +:+ p +:+ " escapes project root " +:+ projectRoot)
  else Ok (toSlash r).

(** The loop that keeps the requested outputs of an answer. *)
Definition requestedExtras (paths : list string) (got : gmap string string) : gmap string string :=
  foldl (fun acc p => match got !! p with Some b => <[p := b]> acc | None => acc end) ∅ paths.

(** [f.Read] into a buffer of 64 KiB until the end of the file. *)
Definition chunkBytes : nat := 2 ^ 16.

Fixpoint fileChunks (fuel : nat) (data : string) : list string :=
  match fuel with
  | 0 => []
  | S n => if String.eqb data "" then [] else stake chunkBytes data :: fileChunks n (sdrop chunkBytes data)
  end.

(** [copy] into a [[32]byte]. *)
Fixpoint nulBytes (n : nat) : string := match n with 0 => "" | S k => String "000"%char (nulBytes k) end.
Definition to32 (d : string) : string := stake 32 (d +:+ nulBytes 32).

Definition esc : string := String "027"%char "".
Definition newline : string := String "010"%char "".

Definition werrorDemotionNotice : string :=
  esc +:+ "[33mhpcc: " +:+
  "-Werror[=…] flags are demoted to plain warnings in remote " +:+
  "(preprocessed-mode) compiles. gcc's macro-expansion warning " +:+
  "suppression only works in one-step compiles, so honoring -Werror " +:+
  "across the preprocess/compile split would fail builds on code that " +:+
  "local-mode gcc accepts. Warnings still emit; this notice appears " +:+
  "once per daemon lifetime." +:+ esc +:+ "[0m" +:+ newline.

(** *** Calls *)

Section Client.
  Context {M : Type} `{!Mesh M} {exec : Executor}.
  Context (blake3 : string -> string) (cfg : RemoteConfig) (sourceMode : Z)
    (httpPost : string -> gmap string string -> result HTTPResponse) (tokPath : result string) (saveOk : bool)
    (dialOk : string -> result unit).
  Context (fs : gmap string string) (exists_ : string -> bool) (getwd : result string)
    (readAfter : string -> result string) (now : Z).

Definition rpc {A} (call : M -> result A * M) : act (World M) A := on wMesh set_mesh call.

(** The refresh of an access token that is about to expire. *)
Definition refreshToken (idp : IdP) (path : string) (tok : Token) : act (World M) Token :=
  if negb (ExpiredWithin now (30 * second) tok) then ret tok
  else if String.eqb (tkRefreshToken tok) "" then
    failure ("cached token at " +:+ path +:+ " is expired and no refresh_token is available")
  else match RefreshGrant httpPost idp (tkRefreshToken tok) (tkClientSecret tok) with
  | Err e => failure ("oauth refresh failed: " +:+ e)
  | Ok resp =>
      let tok' := mkToken (tkUsername tok) (trAccessToken resp)
        (if String.eqb (trRefreshToken resp) "" then tkRefreshToken tok else trRefreshToken resp)
        (if (0 <? trExpiresIn resp)%Z then Some (now + trExpiresIn resp * second)%Z else None)
        (tkClientSecret tok) in
      let* _ := modify (fun w => if saveOk then set_tokenFile tok' w else w) in
      ret tok'
  end.

(** [ensureSession] on a cold session. *)
Definition login : act (World M) unit :=
  let* path := check (fun _ => tokPath) in
  let* tok := check (fun w : World M => match dTokenFile (wDisp w) with
                | Err e => Err ("load token " +:+ path +:+ ": " +:+ e)
                | Ok None => Err ("no cached token at " +:+ path)
                | Ok (Some t) => Ok t
                end) in
  let* idpResp := wrapping ("scheduler GetTenantIdP for tenant " +:+ rcTenantID cfg)
                    (rpc (mGetTenantIdP (rcTenantID cfg))) in
  let* tok := refreshToken (mkIdP (gTokenUrl idpResp) (gClientId idpResp) (gScope idpResp)) path tok in
  let* resp := wrapping "scheduler Authenticate RPC"
                 (rpc (mAuthenticate (mkAuthRequest (rcTenantID cfg) (JwtToken (tkAccessToken tok))))) in
  if negb (aSuccess resp) || String.eqb (aSessionToken resp) "" then failure "scheduler rejected JWT"
  else modify (set_session (aSessionToken resp)).

Definition ensureSession : act (World M) unit := fun w =>
  if negb (String.eqb (dSession (wDisp w)) "") then (Done tt, w) else login w.

Definition dropSession : World M -> World M := set_session "".

Definition route : act (World M) RouteResponse := fun w =>
  rpc (mRoute (mkRouteRequest (dSession (wDisp w)) (rcTenantID cfg) (rcImageDigest cfg))) w.

(** A session and a route, as both paths get them: an error of [route] drops
    the session. *)
Definition acquire : act (World M) RouteResponse :=
  let* _ := wrapping "authenticate" ensureSession in
  fun w => match route w with
  | (Failed e, w') => (Failed ("route: " +:+ e), dropSession w')
  | r => r
  end.

(** [workerClient]: the first connection to an address is kept. *)
Definition workerClient (addr fingerprint : string) : act (World M) Conn := fun w =>
  match dWorkers (wDisp w) !! addr with
  | Some pinned => (Done (mkConn addr pinned), w)
  | None =>
      match dialOk addr with
      | Err e => (Failed e, w)
      | Ok _ => (Done (mkConn addr fingerprint), set_conns (<[addr := fingerprint]> (dWorkers (wDisp w))) w)
      end
  end.

Definition connect (r : RouteResponse) : act (World M) Conn :=
  wrapping ("dial worker " +:+ rWorkerAddress r) (workerClient (rWorkerAddress r) (rCertFingerprint r)).

Definition descriptor (token : string) (mode : Z) (settings : SourceSettings) : RemoteDescriptor :=
  mkRemoteDescriptor (rcTenantID cfg) (rcImageDigest cfg) token mode settings (rcImageRef cfg).

(** *** Preprocessed source *)

Definition preparedOutput (inv : Invocation) : Invocation :=
  if String.eqb (Output inv) "" then inv else set_Output ("/out/" +:+ base (Output inv)) inv.

(** The notice is given with the first answer to a command with [-Werror]. *)
Definition withNotice (inv : Invocation) (r : InvocationResult) : act (World M) InvocationResult := fun w =>
  if hadWerror (RawArgs inv) && negb (dNoticeGiven (wDisp w)) then
    (Done (mkInvocationResult (resOutput r) (resStdout r) (werrorDemotionNotice +:+ resStderr r) (resExitCode r)
             (resDuration r) (resExtras r)), set_notice w)
  else (Done r, w).

Definition dispatchPreprocessed (c : Compiler) (inv : Invocation) : act (World M) InvocationResult :=
  match Preprocess blake3 c inv with
  | Err e => failure ("preprocess: " +:+ e)
  | Ok pp =>
      if negb (ppExitCode pp =? 0)%Z then ret (mkInvocationResult "" "" (ppStderr pp) (ppExitCode pp) 0 ∅)
      else
        let* rewritten := check (fun _ => wrapErr "rewrite for preprocessed"
                            (RewriteForPreprocessed c (preparedOutput inv) "/src/main.i")) in
        let* r := acquire in
        let* conn := connect r in
        let* resp := wrapping "worker Compile RPC" (rpc (mCompile conn (mkCompileRequest
                       (compilerName c :: RawArgs rewritten)
                       (Some (descriptor (rToken r) SourceMode_PREPROCESSED (SettingsPreprocessed (ppSource pp))))))) in
        let result := compileResponseToResult resp in
        withNotice inv (match CollectDepEmissionExtras readAfter inv with
                        | Some extras => set_Extras extras result
                        | None => result
                        end)
  end.

(** *** Manifests *)

Definition blobHeader (token : string) (b : BlobRef) : BlobDigest :=
  mkBlobDigest (blobDigest b) (rcTenantID cfg) token.

(** [streamUpload]: the messages of one blob, and the error that ends the
    stream early if the file is gone. *)
Definition streamUpload (token : string) (root : string) (b : BlobRef) : list BlobChunk * option string :=
  let full := join [root; fromSlash (blobPath b)] in
  let header := ChunkHeader (Some (blobHeader token b)) in
  match fs !! full with
  | None => ([header], Some ("open " +:+ full))
  | Some data => (header :: map ChunkData (fileChunks (slen data) data), None)
  end.

Fixpoint streamAll (token root : string) (bs : list BlobRef) : list BlobChunk * option string :=
  match bs with
  | [] => ([], None)
  | b :: rest =>
      match streamUpload token root b with
      | (msgs, Some e) => (msgs, Some e)
      | (msgs, None) => let '(more, e) := streamAll token root rest in (msgs ++ more, e)
      end
  end.

Definition casUpload (conn : Conn) (manifest : Manifest) (inv : Invocation) (token : string) : act (World M) unit :=
  let blobs := projectBlobs (manifestBlobs manifest) in
  if bool_decide (blobs = []) then ret tt
  else
    let* sent := wrapping "recv probe" (rpc (mFindMissingBlobs conn (map (blobHeader token) blobs))) in
    let missing := map (fun q => to32 (bdDigest q)) sent in
    if bool_decide (missing = []) then ret tt
    else
      let root := default "" (FindProjectRoot exists_ getwd (Cwd inv)) in
      let '(msgs, err) := streamAll token root (List.filter (fun b => bool_decide (blobDigest b ∈ missing)) blobs) in
      match err with
      | Some e =>
          let* _ := rpc (fun m => (Ok tt, (mUploadBlobs conn msgs (Some "canceled") m).2)) in failure e
      | None =>
          let* r := wrapping "close UploadBlobs" (rpc (mUploadBlobs conn msgs None)) in
          if bool_decide (RejectedDigests r = []) then ret tt
          else failure "worker rejected uploaded blob(s)"
      end.

(** The command sent to the worker and the outputs asked for. *)
Definition casArgs (c : Compiler) (inv : Invocation) (projectRoot : string) : list string * list string :=
  let '(args, paths) := RewriteDepEmissionForCAS (RawArgs (RewriteForCAS inv projectRoot "/src" "/out")) "/out" in
  (InjectReproducibilityFlags args (compilerFamily c) "/src", paths).

Definition casProbe (c : Compiler) (inv : Invocation) (manifest : Manifest) (token : string) : CompileProbe :=
  mkCompileProbe (manifestDigest manifest) (compilerName c :: RawArgs inv) (rcTenantID cfg) (rcImageDigest cfg) token.

Definition casRequest (c : Compiler) (inv : Invocation) (manifest : Manifest) (token projectRoot : string)
    : CompileRequest :=
  mkCompileRequest (compilerName c :: (casArgs c inv projectRoot).1)
    (Some (descriptor token SourceMode_CAS (SettingsCas
       (mkCasDescriptor (manifestDigest manifest) (manifestBlobsToProto (manifestBlobs manifest)))))).

(** The upload and the compile after a probe that missed. *)
Definition casCompile (c : Compiler) (inv : Invocation) (manifest : Manifest) (conn : Conn) (token : string)
    : act (World M) InvocationResult :=
  let* _ := wrapping "cas upload" (casUpload conn manifest inv token) in
  let projectRoot := if String.eqb (Cwd inv) "" then "" else default "" (FindProjectRoot exists_ getwd (Cwd inv)) in
  if String.eqb projectRoot "" then failure ("CAS dispatch requires a .hpcc project marker; none found above " +:+ Cwd inv)
  else match Inputs inv with
  | [] => panic
  | input :: _ =>
      let* _ := check (fun _ => wrapErr "compute entry_path" (projectRelative getwd projectRoot input)) in
      let* resp := wrapping "worker Compile RPC" (rpc (mCompile conn (casRequest c inv manifest token projectRoot))) in
      ret (set_Extras (requestedExtras (casArgs c inv projectRoot).2 (rsExtraOutputs resp))
             (compileResponseToResult resp))
  end.

Definition dispatchCAS (c : Compiler) (inv : Invocation) : act (World M) InvocationResult :=
  let* manifest := checkPanic (fun _ => wrapErr "build manifest" <$>
                     BuildManifest blake3 fs exists_ getwd (FindDependencies c) inv) in
  let* r := acquire in
  let* conn := connect r in
  let* pr := wrapping "worker ProbeCompileCache RPC"
               (rpc (mProbeCompileCache conn (casProbe c inv manifest (rToken r)))) in
  match pr with
  | ProbeHit hit => ret (compileResponseToResult hit)
  | ProbeMiss => casCompile c inv manifest conn (rToken r)
  end.

Definition Dispatch (c : Compiler) (inv : Invocation) : act (World M) InvocationResult :=
  if (sourceMode =? SourceModeCAS)%Z then dispatchCAS c inv else dispatchPreprocessed c inv.
End Client.

(** ** Facts *)

(** *** The manifest on the wire *)

Lemma buildBlob_spec blake3 fs getwd inv root p b :
  buildBlob blake3 fs getwd inv root p = Ok b ->
  exists data, fs !! inCwd inv p = Some data /\ blobDigest b = blake3 data /\
    normalizeManifestPath getwd (inCwd inv p) root = Ok (blobPath b).
Proof.
  unfold buildBlob, hashFileBlob. destruct (fs !! inCwd inv p) as [data|]; cbn [rbind]; [|done].
  destruct (normalizeManifestPath _ _ _) as [r|]; cbn [wrapErr rbind]; [|done]. intros [= <-]. eauto.
Qed.

(** A manifest path is relative for the files of the project, and only for
    them; it then leads from the root to the file. *)
Lemma normalize_relative getwd root p r :
  rootShape root -> isAbs p = true -> normalizeManifestPath getwd p root = Ok r ->
  (isAbs r = false -> join [root; r] = clean p) /\
  (root <> "" -> below root (clean p) -> isAbs r = false).
Proof.
  intros [->|(rs & Hrs & ->)] Hp Hn.
  - unfold normalizeManifestPath in Hn. rewrite (proj2 (isAbs_no_unc p Hp)) in Hn. cbn in Hn. split; congruence.
  - destruct (normalize_roundtrip getwd p rs Hrs Hp) as (r' & E & H). assert (r' = r) as -> by congruence.
    destruct (isAbs r); [|done]. split; [done|]. intros _ Hb. by destruct H.
Qed.

Section ManifestFacts.
  Context (blake3 : string -> string) (blake3_len : forall x, slen (blake3 x) = 32).

Lemma manifest_digests fs exists_ getwd findDeps inv m b :
  BuildManifest blake3 fs exists_ getwd findDeps inv = Some (Ok m) -> b ∈ manifestBlobs m ->
  slen (blobDigest b) = 32.
Proof.
  intros (root & paths & bs & _ & _ & Hb & -> & _)%BuildManifest_shape Hin. rewrite isort_Permutation in Hin.
  apply mapR_spec in Hb. destruct (Forall2_lookup_r_elem Hb b Hin) as (p & _ & Hp).
  apply buildBlob_spec in Hp as (data & _ & -> & _). apply blake3_len.
Qed.

Lemma wire_blobs bs : Forall (fun b => slen (blobDigest b) = 32) bs -> mapR wireBlobRef (manifestBlobsToProto bs) = Ok bs.
Proof.
  induction 1 as [|[p d z] bs Hb _ IH]; [done|]. cbn [manifestBlobsToProto map mapR]. unfold wireBlobRef at 1. cbn in Hb |- *.
  rewrite Hb. cbn. unfold manifestBlobsToProto in IH. by rewrite IH.
Qed.

(** The worker accepts every manifest a client builds. *)
Lemma manifest_verifies fs exists_ getwd findDeps inv m :
  BuildManifest blake3 fs exists_ getwd findDeps inv = Some (Ok m) ->
  verifyManifestDigest blake3 (mkCasDescriptor (manifestDigest m) (manifestBlobsToProto (manifestBlobs m)))
  = Ok (manifestDigest m).
Proof.
  intros H. pose proof H as (root & paths & bs & _ & _ & Hb & Hm & Hd)%BuildManifest_shape.
  unfold verifyManifestDigest. cbn [casManifestDigest casBlobs]. rewrite wire_blobs.
  - cbn [rbind]. rewrite Hm, isort_id, <- Hd by (apply isort_Sorted; apply _).
    rewrite Hd at 1. unfold AggregateManifestDigest. rewrite blake3_len. cbn [negb Nat.eqb]. by rewrite String.eqb_refl.
  - apply Forall_forall. intros b Hin. by eapply manifest_digests.
Qed.
End ManifestFacts.

Lemma to32_id d : slen d = 32 -> to32 d = d.
Proof.
  intros H. unfold to32. rewrite <- H at 1. by rewrite stake_app.
Qed.

(** *** Sessions and routes *)

(** What the session, the token file and the calls to the scheduler keep, a
    route keeps. *)
Section AcquireKeeps.
  Context {M : Type} `{!Mesh M} (R : World M -> World M -> Prop) `{!PreOrder R}.
  Context (cfg : RemoteConfig) (httpPost : string -> gmap string string -> result HTTPResponse)
    (tokPath : result string) (saveOk : bool) (now : Z).
  Context (R_session : forall s w, R w (set_session s w)) (R_token : forall t w, R w (set_tokenFile t w))
    (R_idp : forall t, keeps R (rpc (mGetTenantIdP t))) (R_auth : forall r, keeps R (rpc (mAuthenticate r)))
    (R_route : forall r, keeps R (rpc (mRoute r))).

Lemma login_keeps : keeps R (login cfg httpPost tokPath saveOk now).
Proof.
  unfold login. apply keeps_bind; [done|auto with act|]. intros path. apply keeps_bind; [done|auto with act|]. intros tok.
  apply keeps_bind; [done|auto with act|]. intros idp. apply keeps_bind; [done| |].
  - unfold refreshToken. destruct (negb _); [auto with act|]. destruct (String.eqb _ _); [auto with act|].
    destruct (RefreshGrant _ _ _ _); [|auto with act]. apply keeps_bind; [done| |auto with act].
    apply keeps_modify. intros w. destruct saveOk; [apply R_token|reflexivity].
  - intros tok'. apply keeps_bind; [done|auto with act|]. intros resp.
    destruct (_ || _); [auto with act|]. by apply keeps_modify.
Qed.

Lemma acquire_keeps : keeps R (acquire cfg httpPost tokPath saveOk now).
Proof.
  unfold acquire. apply keeps_bind; [done|apply keeps_wrapping|].
  - intros w. unfold ensureSession. destruct (negb _); [reflexivity|apply login_keeps].
  - intros _ w. unfold route. specialize (R_route (mkRouteRequest (dSession (wDisp w)) (rcTenantID cfg)
      (rcImageDigest cfg)) w). destruct (rpc _ w) as [[]]; [done|etransitivity; [exact R_route|apply R_session]|done].
Qed.
End AcquireKeeps.

(** *** The upload *)

Section UploadFacts.
  Context {M : Type} `{!Mesh M, !MeshLaws M}.
  Context (cfg : RemoteConfig) (fs : gmap string string) (exists_ : string -> bool) (getwd : result string).

Lemma streamAll_headers token root bs msgs b :
  streamAll cfg fs token root bs = (msgs, None) -> b ∈ bs -> ChunkHeader (Some (blobHeader cfg token b)) ∈ msgs.
Proof.
  revert msgs. induction bs as [|b0 bs IH]; intros msgs H Hb; [by apply elem_of_nil in Hb|]. cbn [streamAll] in H.
  destruct (streamUpload cfg fs token root b0) as [m0 [e|]] eqn:E0; [done|].
  destruct (streamAll cfg fs token root bs) as [more e] eqn:E1. injection H as <- ->.
  apply elem_of_app. apply elem_of_cons in Hb as [->|Hb]; [left|right; by apply IH].
  unfold streamUpload in E0. destruct (fs !! _); [|done]. injection E0 as <-. by left.
Qed.

Lemma casUpload_stored conn manifest inv token (w w' : World M) :
  sound (wMesh w) -> (forall b, b ∈ manifestBlobs manifest -> slen (blobDigest b) = 32) ->
  casUpload cfg fs exists_ getwd conn manifest inv token w = (Done tt, w') ->
  wDisp w' = wDisp w /\
  forall b, b ∈ projectBlobs (manifestBlobs manifest) -> stored (wMesh w') conn (rcTenantID cfg) (blobDigest b).
Proof.
  intros Hs Hd H. unfold casUpload in H. cbn zeta in H.
  set (blobs := projectBlobs (manifestBlobs manifest)) in *.
  assert (forall b, b ∈ blobs -> slen (blobDigest b) = 32) as Hlen.
  { intros b Hb. apply Hd. by apply list_elem_of_In, filter_In in Hb as [Hb%list_elem_of_In _]. }
  case_bool_decide as Hnil; [injection H as <-; split; [done|]; rewrite Hnil; intros b Hb; by apply elem_of_nil in Hb|].
  apply bind_Done in H as (sent & w1 & Hf & H). apply wrapping_Done in Hf. unfold rpc, on in Hf.
  destruct (mFindMissingBlobs conn _ (wMesh w)) as [[s|e] m1] eqn:Ef; [|done]. injection Hf as <- <-.
  destruct (find_missing_law _ _ _ _ _ Hs Ef) as [-> Hmiss].
  assert (forall b, b ∈ blobs -> stored (wMesh w) conn (rcTenantID cfg) (blobDigest b) \/ blobHeader cfg token b ∈ s) as Hb'.
  { intros b Hb. apply (Hmiss (blobHeader cfg token b)). apply list_elem_of_fmap. eauto. }
  case_bool_decide as Hm0.
  { injection H as <-. split; [done|]. intros b Hb. destruct (Hb' b Hb) as [|Hin]; [done|].
    destruct s; [by apply elem_of_nil in Hin|done]. }
  destruct (streamAll _ _ _ _ _) as [msgs [e|]] eqn:Est; [by apply bind_Done in H as (? & ? & _ & ?)|].
  apply bind_Done in H as (r & w2 & Hu & H). apply wrapping_Done in Hu. unfold rpc, on in Hu. cbn [wMesh set_mesh] in Hu.
  destruct (mUploadBlobs conn msgs None (wMesh w)) as [[r'|e] m2] eqn:Eu; [|done]. injection Hu as <- <-.
  case_bool_decide as Hr; [|done]. injection H as <-. split; [done|]. intros b Hb. cbn.
  destruct (upload_law _ _ _ _ _ Hs Eu Hr) as [Hmono Hnew].
  destruct (Hb' b Hb) as [Hst|Hin].
  - apply Hmono; [|done]. intros E. specialize (Hlen b Hb). by rewrite E in Hlen.
  - apply (Hnew (blobHeader cfg token b)). eapply streamAll_headers; [exact Est|].
    apply list_elem_of_In, filter_In. split; [by apply list_elem_of_In|]. apply bool_decide_eq_true.
    apply list_elem_of_fmap. exists (blobHeader cfg token b). split; [|done]. symmetry. by apply to32_id, Hlen.
Qed.

(** Calls before the upload keep the mesh sound. *)
Definition staysSound (w w' : World M) : Prop := sound (wMesh w) -> sound (wMesh w').

#[global] Instance staysSound_preorder : PreOrder staysSound.
Proof. split; [intros w H; exact H|intros w1 w2 w3 H1 H2 H; by apply H2, H1]. Qed.

Lemma rpc_sound {A} (call : M -> result A * M) :
  (forall m, sound m -> sound (call m).2) -> keeps staysSound (rpc call).
Proof. intros H. apply keeps_on. intros w Hw. by apply H. Qed.

Lemma acquire_sound httpPost tokPath saveOk now : keeps staysSound (acquire cfg httpPost tokPath saveOk now).
Proof.
  apply acquire_keeps; [apply _|intros s w Hw; exact Hw|intros t w Hw; exact Hw|..]; intros; apply rpc_sound;
    [apply sound_idp|apply sound_auth|apply sound_route].
Qed.

Lemma connect_mesh dialOk r (w : World M) : wMesh (connect dialOk r w).2 = wMesh w.
Proof.
  unfold connect, wrapping, workerClient. destruct (dWorkers (wDisp w) !! _); [done|]. by destruct (dialOk _).
Qed.
End UploadFacts.

(** Only what was asked for is kept. *)
Lemma requestedExtras_spec paths got p v :
  requestedExtras paths got !! p = Some v <-> p ∈ paths /\ got !! p = Some v.
Proof.
  unfold requestedExtras. assert (forall acc : gmap string string, foldl (fun acc p => match got !! p with Some b => <[p := b]> acc
    | None => acc end) acc paths !! p = Some v <->
    (p ∈ paths /\ got !! p = Some v) \/ (acc !! p = Some v /\ (p ∈ paths -> got !! p = None \/ got !! p = Some v))) as H.
  { induction paths as [|q paths IH]; intros acc; cbn [foldl]; [set_solver|]. rewrite IH. clear IH.
    destruct (decide (p = q)) as [->|Hne].
    - destruct (got !! q) as [b|] eqn:Eq; [rewrite lookup_insert_eq|]; set_solver.
    - destruct (got !! q) as [b|]; [rewrite lookup_insert_ne by done|]; set_solver. }
  rewrite H, lookup_empty. naive_solver.
Qed.

(** *** Pins *)

Section Pins.
  Context {M : Type} `{!Mesh M} {exec : Executor}.
  Context (blake3 : string -> string) (cfg : RemoteConfig) (sourceMode : Z)
    (httpPost : string -> gmap string string -> result HTTPResponse) (tokPath : result string) (saveOk : bool)
    (dialOk : string -> result unit).
  Context (fs : gmap string string) (exists_ : string -> bool) (getwd : result string)
    (readAfter : string -> result string) (now : Z).

(** A pinned address keeps its fingerprint. *)
Definition keepsPins (w w' : World M) : Prop := dWorkers (wDisp w) ⊆ dWorkers (wDisp w').

#[global] Instance keepsPins_preorder : PreOrder keepsPins.
Proof. split; [intros w; unfold keepsPins; reflexivity|]. intros w1 w2 w3 H1 H2. unfold keepsPins in *. by etransitivity. Qed.

Lemma rpc_pins {A} (call : M -> result A * M) : keeps keepsPins (rpc call).
Proof. apply keeps_on. intros w. unfold keepsPins. cbn. reflexivity. Qed.

Lemma connect_pins r : keeps keepsPins (connect dialOk r).
Proof.
  unfold connect. apply keeps_wrapping. intros w. unfold workerClient, keepsPins.
  destruct (dWorkers (wDisp w) !! _) eqn:E; [reflexivity|]. destruct (dialOk _); [|reflexivity]. cbn. by apply insert_subseteq.
Qed.

Lemma acquire_pins : keeps keepsPins (acquire cfg httpPost tokPath saveOk now).
Proof. apply acquire_keeps; [apply _|intros; unfold keepsPins; reflexivity..| | |]; intros; apply rpc_pins. Qed.

Lemma casUpload_pins conn manifest inv token : keeps keepsPins (casUpload cfg fs exists_ getwd conn manifest inv token).
Proof.
  unfold casUpload. case_bool_decide; [apply keeps_ret, _|].
  apply keeps_bind; [apply _|apply keeps_wrapping, rpc_pins|]. intros sent. case_bool_decide; [apply keeps_ret, _|].
  destruct (streamAll _ _ _ _ _) as [msgs [e|]]; (apply keeps_bind; [apply _| |]).
  - apply rpc_pins.
  - intros _. apply keeps_failure, _.
  - apply keeps_wrapping, rpc_pins.
  - intros r. case_bool_decide; [apply keeps_ret, _|apply keeps_failure, _].
Qed.

Lemma Dispatch_pins c inv :
  keeps keepsPins (Dispatch blake3 cfg sourceMode httpPost tokPath saveOk dialOk fs exists_ getwd readAfter now c inv).
Proof.
  unfold Dispatch. destruct (sourceMode =? SourceModeCAS)%Z.
  - unfold dispatchCAS. apply keeps_bind; [apply _|apply keeps_checkPanic, _|]. intros m.
    apply keeps_bind; [apply _|apply acquire_pins|]. intros r. apply keeps_bind; [apply _|apply connect_pins|].
    intros conn. apply keeps_bind; [apply _|apply keeps_wrapping, rpc_pins|]. intros [hit|]; [apply keeps_ret, _|].
    unfold casCompile. apply keeps_bind; [apply _|apply keeps_wrapping, casUpload_pins|]. intros _.
    destruct (String.eqb _ ""); [apply keeps_failure, _|]. destruct (Inputs inv); [apply keeps_panic, _|].
    apply keeps_bind; [apply _|apply keeps_check, _|]. intros _.
    apply keeps_bind; [apply _|apply keeps_wrapping, rpc_pins|]. intros resp. apply keeps_ret, _.
  - unfold dispatchPreprocessed. destruct (Preprocess _ _ _) as [pp|]; [|apply keeps_failure, _].
    destruct (negb _); [apply keeps_ret, _|]. apply keeps_bind; [apply _|apply keeps_check, _|]. intros rw.
    apply keeps_bind; [apply _|apply acquire_pins|]. intros r. apply keeps_bind; [apply _|apply connect_pins|].
    intros conn. apply keeps_bind; [apply _|apply keeps_wrapping, rpc_pins|]. intros resp w. unfold withNotice, keepsPins.
    destruct (_ && _); reflexivity.
Qed.
End Pins.

(** ** Claims *)

(** C1: A remote compile from a manifest gets what it asks for.  For every
    scheduler and every worker that keep the upload contract, an answered
    dispatch is either the answer of a probe for the manifest of the local
    sources, or that of a compile request sent when the worker holds every
    project file of that manifest; the worker's own check accepts the
    descriptor; and of the extra outputs only those the command line asks for
    are kept, whatever the worker adds. *)
Theorem dispatchCAS_sound {M} `{!Mesh M, !MeshLaws M} {exec : Executor} blake3 cfg httpPost tokPath saveOk dialOk
    fs exists_ getwd now c inv (w w' : World M) res :
  (forall x, slen (blake3 x) = 32) -> sound (wMesh w) ->
  dispatchCAS blake3 cfg httpPost tokPath saveOk dialOk fs exists_ getwd now c inv w = (Done res, w') ->
  exists m token conn, BuildManifest blake3 fs exists_ getwd (FindDependencies c) inv = Some (Ok m) /\
  ((exists hit m1 m2, mProbeCompileCache conn (casProbe cfg c inv m token) m1 = (Ok (ProbeHit hit), m2) /\
      res = compileResponseToResult hit) \/
   (exists root resp m1 m2, mCompile conn (casRequest cfg c inv m token root) m1 = (Ok resp, m2) /\
      FindProjectRoot exists_ getwd (Cwd inv) = Some root /\ root <> "" /\
      (forall b, b ∈ projectBlobs (manifestBlobs m) -> stored m1 conn (rcTenantID cfg) (blobDigest b)) /\
      verifyManifestDigest blake3 (mkCasDescriptor (manifestDigest m) (manifestBlobsToProto (manifestBlobs m)))
      = Ok (manifestDigest m) /\
      set_Extras ∅ res = compileResponseToResult resp /\
      forall p v, resExtras res !! p = Some v <-> p ∈ (casArgs c inv root).2 /\ rsExtraOutputs resp !! p = Some v)).
Proof.
  intros Hlen Hs H. unfold dispatchCAS in H. apply bind_Done in H as (m & w1 & Hb & H).
  unfold checkPanic in Hb. destruct (BuildManifest _ _ _ _ _ _) as [[m0|e]|] eqn:Em; [|done..].
  injection Hb as -> <-. apply bind_Done in H as (r & w2 & Ha & H).
  pose proof (acquire_sound cfg httpPost tokPath saveOk now w Hs) as Hs2. rewrite Ha in Hs2. cbn [snd] in Hs2.
  apply bind_Done in H as (conn & w3 & Hc & H). pose proof (connect_mesh dialOk r w2) as Hm3. rewrite Hc in Hm3. cbn in Hm3.
  apply bind_Done in H as (pr & w4 & Hp & H). apply wrapping_Done in Hp. unfold rpc, on in Hp.
  destruct (mProbeCompileCache conn _ (wMesh w3)) as [[pr'|e] m4] eqn:Epr; [|done]. injection Hp as -> <-.
  exists m, (rToken r), conn. split; [done|]. destruct pr as [hit|].
  { left. injection H as <- <-. eauto. }
  right. unfold casCompile in H. apply bind_Done in H as ([] & w5 & Hu & H). apply wrapping_Done in Hu.
  apply casUpload_stored in Hu as [_ Hst].
  2: { cbn. rewrite <- Hm3 in Hs2. pose proof (sound_probe conn (casProbe cfg c inv m (rToken r)) _ Hs2) as K.
       by rewrite Epr in K. }
  2: { intros b Hb. by eapply manifest_digests. }
  cbn zeta in H. destruct (String.eqb_spec (Cwd inv) ""); [by cbn in H|].
  destruct (FindProjectRoot exists_ getwd (Cwd inv)) as [root|] eqn:Er; [|by cbn in H]. change (default "" (Some root)) with root in H.
  destruct (String.eqb_spec root "") as [|Hroot]; [done|]. destruct (Inputs inv) as [|input rest]; [done|].
  apply bind_Done in H as (? & w6 & He & H). apply check_Done in He as [_ ->].
  apply bind_Done in H as (resp & w7 & Hx & H). apply wrapping_Done in Hx. unfold rpc, on in Hx.
  destruct (mCompile conn _ (wMesh w5)) as [[resp'|e] m7] eqn:Ex; [|done]. injection Hx as -> <-. injection H as <- <-.
  exists root, resp, (wMesh w5), m7. split_and!; try done.
  - by eapply manifest_verifies.
  - intros p v. cbn. apply requestedExtras_spec.
Qed.

(** C8: The worker compiles the client's own files.  Whatever tree is staged
    for the manifest of a command, every file in it has the bytes, up to a
    hash collision, of a file of the client whose path relative to the
    project root is its path in the tree; and every input of the command that
    lies in the project is in the tree. *)
Theorem staged_is_local blake3 fs exists_ getwd findDeps inv m root src tree :
  (forall wd, getwd = Ok wd -> isAbs wd = true) -> isAbs (Cwd inv) = true ->
  FindProjectRoot exists_ getwd (Cwd inv) = Some root ->
  BuildManifest blake3 fs exists_ getwd findDeps inv = Some (Ok m) ->
  stagedTree blake3 src (manifestBlobsToProto (manifestBlobs m)) tree ->
  (forall q v t, Staging.inside src q -> fsFiles tree !! q = Some (v, t) ->
    exists p data r, fs !! p = Some data /\ blake3 v = blake3 data /\
      join [root; r] = clean p /\ q = comps (join [absOf src; r])) /\
  (root <> "" -> forall i, i ∈ Inputs inv -> below root (clean (inCwd inv i)) ->
    exists r, join [root; r] = clean (inCwd inv i) /\ is_Some (fsFiles tree !! comps (join [absOf src; r]))).
Proof.
  intros Hwd Hcwd Hroot Hm [Hall Honly]. pose proof (FindProjectRoot_shape _ _ _ _ Hwd Hroot) as Hshape.
  apply BuildManifest_shape in Hm as (root' & paths & bs & Hr & Hins & Hb & Hbl & _).
  destruct (String.eqb_spec (Cwd inv) "") as [E|_]; [by rewrite E in Hcwd|].
  assert (root' = root) as -> by congruence. apply mapR_spec in Hb.
  assert (forall b, b ∈ manifestBlobs m <-> b ∈ bs) as Hmem by (intros b; by rewrite Hbl, isort_Permutation).
  split.
  - intros q v t Hi Hq. destruct (Honly q v t Hi Hq) as (wb & Hin & Ha & -> & Hv).
    apply list_elem_of_fmap in Hin as (b & -> & Hb'%Hmem). cbn in *.
    destruct (Forall2_lookup_r_elem Hb b Hb') as (p & _ & Hp). destruct (buildBlob_spec _ _ _ _ _ _ _ Hp) as (data & Hd & Hdig & Hn).
    exists (inCwd inv p), data, (blobPath b). split_and!; [done|congruence| |done].
    apply (normalize_relative getwd root); [done| |done|done]. by apply inCwd_abs.
  - intros Hne i Hi Hbelow. destruct (Forall2_lookup_l_elem Hb i (Hins i Hi)) as (b & Hb' & Hp).
    destruct (buildBlob_spec _ _ _ _ _ _ _ Hp) as (data & Hd & Hdig & Hn).
    destruct (normalize_relative getwd root _ _ Hshape (inCwd_abs inv i Hcwd) Hn) as [H1 H2].
    exists (blobPath b). split; [by apply H1, H2|].
    apply (Hall (mkWireBlob (blobPath b) (blobDigest b) (blobSize b))); [|by apply H2].
    apply list_elem_of_fmap. exists b. split; [done|by apply Hmem].
Qed.
