(* ===== verification/Cluster.v ===== *)
(** * Cluster: a scheduler and workers as the mesh of a dispatcher.

    The scheduler and the worker services of this development implement the
    interface [Mesh] of [Dispatch] and keep its laws, so that the theorems
    about the dispatcher hold for the system as a whole.  A worker is reached
    at its address if its certificate has the fingerprint the connection is
    pinned to ([VerifyPeerCertificate] in [workerClient]); a handler that
    panics takes its process with it. *)

From S2P Require Import Prelude Effects GoStrings GoPath GoTime Invocation Parser Preprocess Manifest Store CompileCache.
From S2P Require Import Scheduler Pool Staging WorkerCAS Config Worker Dispatch.

(** A worker process: its serving certificate, its identity and settings, and
    its state. *)
Record Node (S : Type) := mkNode {
  nodeCert : string;
  nodeID : string;
  nodeConfig : WorkerConfig;
  nodeCwd : string;
  nodeHasImages : bool;
  nodeSource : option nat;
  nodeWorker : Worker S
}.
#[global] Arguments mkNode {S}.
#[global] Arguments nodeCert {S}.
#[global] Arguments nodeID {S}.
#[global] Arguments nodeConfig {S}.
#[global] Arguments nodeCwd {S}.
#[global] Arguments nodeHasImages {S}.
#[global] Arguments nodeSource {S}.
#[global] Arguments nodeWorker {S}.

Definition set_worker {S} (w : Worker S) (n : Node S) : Node S :=
  mkNode (nodeCert n) (nodeID n) (nodeConfig n) (nodeCwd n) (nodeHasImages n) (nodeSource n) w.

Record Cluster (K S : Type) := mkCluster {
  clScheduler : Scheduler K;
  clNodes : gmap string (Node S)
}.
#[global] Arguments mkCluster {K S}.
#[global] Arguments clScheduler {K S}.
#[global] Arguments clNodes {K S}.

Definition set_scheduler {K S} (s : Scheduler K) (c : Cluster K S) : Cluster K S := mkCluster s (clNodes c).

(** ** The source store of a worker *)

Section Source.
  Context {S : Type} `{!StoreOps S} (blake3 : string -> string) (validToken : string -> string -> result unit)
    (srcIdx : option nat).

Definition noSourceStore : string := "worker has no disk cache configured; CAS mode unavailable".

(** The stream handlers of [cas.go] on the worker. *)
Definition workerFindMissing (reqs : list BlobDigest) : act (Worker S) (list BlobDigest) := fun w =>
  match sourceStore srcIdx w with
  | None => (Failed noSourceStore, w)
  | Some s =>
      let '(sent, o) := FindMissingBlobs validToken s "" reqs None in
      (match o with Done _ => Done sent | Failed e => Failed e | Panicked => Panicked end, w)
  end.

Definition workerUpload (now : Z) (msgs : list BlobChunk) (fin : option string) : act (Worker S) UploadResult := fun w =>
  match srcIdx, sourceStore srcIdx w with
  | Some i, Some s =>
      let '(o, s') := UploadBlobs blake3 validToken now s msgs fin in
      (o, set_stores (<[i := s']> (wStores w)) w)
  | _, _ => (Failed noSourceStore, w)
  end.
End Source.

(** ** The mesh *)

Section Cluster.
  Context {K S : Type} `{!StoreOps S}.
  Context (blake3 sha256 : string -> string) (jwtParse : K -> Z -> string -> option (gmap string Claim))
    (signJWT : TaskClaims -> result string) (parseTask : Z -> string -> option (gmap string Claim))
    (meta : Invocation -> InvocationResult -> string).
  Context (now : Z) (fresh : string) (order : list (string * WorkerState)) (job : Job).

(** A call to the worker behind a connection. *)
Definition onNode {A} (conn : Conn) (f : Node S -> act (Worker S) A) (c : Cluster K S) : result A * Cluster K S :=
  match clNodes c !! connAddr conn with
  | None => (Err "unavailable", c)
  | Some n =>
      if negb (String.eqb (sha256 (nodeCert n)) (connPinned conn)) then (Err "worker cert fingerprint mismatch", c)
      else let '(o, w') := f n (nodeWorker n) in
           let kept := mkCluster (clScheduler c) (<[connAddr conn := set_worker w' n]> (clNodes c)) in
           match o with
           | Done a => (Ok a, kept)
           | Failed e => (Err e, kept)
           | Panicked => (Err "unavailable", mkCluster (clScheduler c) (delete (connAddr conn) (clNodes c)))
           end
  end.

Definition casToken (n : Node S) : string -> string -> result unit :=
  validateSchedulerTokenForCAS (parseTask (unixSeconds now)) (nodeID n).

#[global] Instance cluster_mesh : Mesh (Cluster K S) := {|
  mGetTenantIdP t c := (GetTenantIdP (clScheduler c) t, c);
  mAuthenticate req c := let '(r, s) := Authenticate jwtParse (clScheduler c) now fresh req in (Ok r, set_scheduler s c);
  mRoute req c := let '(r, s) := Route signJWT (clScheduler c) now order req in (r, set_scheduler s c);
  mProbeCompileCache conn req :=
    onNode conn (fun n => ProbeCompileCache blake3 parseTask (nodeID n) (nodeCwd n) now req);
  mFindMissingBlobs conn reqs := onNode conn (fun n => workerFindMissing (casToken n) (nodeSource n) reqs);
  mUploadBlobs conn msgs fin := onNode conn (fun n => workerUpload blake3 (casToken n) (nodeSource n) now msgs fin);
  mCompile conn req :=
    onNode conn (fun n => Compile blake3 parseTask meta (nodeConfig n) (nodeID n) (nodeCwd n) (nodeHasImages n)
                            (nodeSource n) job req)
|}.

(** ** The laws *)

(** The source store of the worker at [conn], if the connection works. *)
Definition sourceAt (c : Cluster K S) (conn : Conn) : option S :=
  n ← clNodes c !! connAddr conn;
  if String.eqb (sha256 (nodeCert n)) (connPinned conn) then sourceStore (nodeSource n) (nodeWorker n) else None.

(** An entry of a source store that exists holds its blob. *)
Definition wholeSources (c : Cluster K S) : Prop :=
  forall addr n s t k, clNodes c !! addr = Some n -> sourceStore (nodeSource n) (nodeWorker n) = Some s ->
    k <> "" -> sHas s (sourceNs t) k = Ok true -> present blake3 s t k.

Lemma sourceAt_Some c conn s :
  sourceAt c conn = Some s <-> exists n, clNodes c !! connAddr conn = Some n /\
    sha256 (nodeCert n) = connPinned conn /\ sourceStore (nodeSource n) (nodeWorker n) = Some s.
Proof.
  unfold sourceAt. destruct (clNodes c !! connAddr conn) as [n|]; cbn; [|naive_solver].
  destruct (String.eqb_spec (sha256 (nodeCert n)) (connPinned conn)); naive_solver.
Qed.

Lemma onNode_Ok {A} conn (f : Node S -> act (Worker S) A) c a c' :
  onNode conn f c = (Ok a, c') -> exists n w', clNodes c !! connAddr conn = Some n /\
    sha256 (nodeCert n) = connPinned conn /\ f n (nodeWorker n) = (Done a, w') /\
    c' = mkCluster (clScheduler c) (<[connAddr conn := set_worker w' n]> (clNodes c)).
Proof.
  unfold onNode. destruct (clNodes c !! connAddr conn) as [n|] eqn:En; [|done].
  destruct (String.eqb_spec (sha256 (nodeCert n)) (connPinned conn)) as [Ep|]; cbn [negb]; [|done].
  destruct (f n (nodeWorker n)) as [[a'|e|] w'] eqn:Ef; [|done..]. intros [= -> <-]. eauto 6.
Qed.

Lemma set_worker_same (n : Node S) : set_worker (nodeWorker n) n = n.
Proof. by destruct n. Qed.

(** A handler that leaves its worker alone leaves the cluster alone, or loses
    the node. *)
Lemma onNode_reader {A} conn (f : Node S -> act (Worker S) A) c :
  (forall n, keeps eq (f n)) ->
  (onNode conn f c).2 = c \/ (onNode conn f c).2 = mkCluster (clScheduler c) (delete (connAddr conn) (clNodes c)).
Proof.
  intros Hf. unfold onNode. destruct (clNodes c !! connAddr conn) as [n|] eqn:En; [|by left].
  destruct (negb _); [by left|]. specialize (Hf n (nodeWorker n)). destruct (f n (nodeWorker n)) as [o w'].
  cbn [snd] in Hf. subst w'. rewrite set_worker_same, insert_id by done. destruct c, o; [by left|by left|by right].
Qed.

Lemma wholeSources_sub (c c' : Cluster K S) :
  clNodes c' ⊆ clNodes c -> wholeSources c -> wholeSources c'.
Proof. intros Hsub Hw addr n s t k Hn. eapply Hw. by eapply lookup_weaken. Qed.

Lemma onNode_reader_whole {A} conn (f : Node S -> act (Worker S) A) c :
  (forall n, keeps eq (f n)) -> wholeSources c -> wholeSources (onNode conn f c).2.
Proof.
  intros Hf Hw. destruct (onNode_reader conn f c Hf) as [->| ->]; [done|].
  eapply wholeSources_sub; [|exact Hw]. apply delete_subseteq.
Qed.

Lemma probe_keeps wid cwd req : keeps eq (ProbeCompileCache (S := S) blake3 parseTask wid cwd now req).
Proof.
  unfold ProbeCompileCache. apply keeps_bind; [apply _|auto with act typeclass_instances|]. intros _.
  destruct (negb _); [apply keeps_failure, _|]. destruct (cpArgs req) as [|argv0 rest]; [apply keeps_failure, _|].
  apply keeps_bind; [apply _|auto with act typeclass_instances|]. intros c.
  apply keeps_bind; [apply _|auto with act typeclass_instances|]. intros inv w. by repeat case_match.
Qed.

Lemma findMissing_keeps validToken srcIdx reqs : keeps eq (workerFindMissing (S := S) validToken srcIdx reqs).
Proof. intros w. unfold workerFindMissing. destruct (sourceStore srcIdx w); [|done]. by case_match. Qed.

Context `{!StoreLaws S} (blake3_ne : forall x, blake3 x <> "").

Lemma cluster_find_missing c conn reqs sent c' :
  wholeSources c -> mFindMissingBlobs conn reqs c = (Ok sent, c') ->
  c' = c /\ forall q, q ∈ reqs ->
    (exists s, sourceAt c conn = Some s /\ present blake3 s (bdTenantId q) (bdDigest q)) \/ q ∈ sent.
Proof.
  intros Hw H. cbn in H. pose proof (onNode_Ok _ _ _ _ _ H) as (n & w' & Hn & Hp & Hf & ->).
  pose proof (findMissing_keeps (casToken n) (nodeSource n) reqs (nodeWorker n)) as Hk. rewrite Hf in Hk. cbn in Hk. subst w'.
  split. { rewrite set_worker_same, insert_id by done. by destruct c. }
  intros q Hq. unfold workerFindMissing in Hf. destruct (sourceStore (nodeSource n) (nodeWorker n)) as [s|] eqn:Es; [|done].
  destruct (FindMissingBlobs _ s "" reqs None) as [sent' o] eqn:Efm. destruct o as [[]|e|]; [|done..].
  injection Hf as ->. destruct (findMissing_reports _ _ _ _ _ Efm q Hq) as [Hne [Hh|Hin]]; [left|by right].
  exists s. split; [apply sourceAt_Some; eauto|]. eapply Hw; eauto.
Qed.

Lemma cluster_upload c conn msgs r c' :
  mUploadBlobs conn msgs None c = (Ok r, c') -> RejectedDigests r = [] ->
  (forall t k, k <> "" -> (exists s, sourceAt c conn = Some s /\ present blake3 s t k) ->
    exists s, sourceAt c' conn = Some s /\ present blake3 s t k) /\
  forall h, ChunkHeader (Some h) ∈ msgs -> exists s, sourceAt c' conn = Some s /\ present blake3 s (bdTenantId h) (bdDigest h).
Proof.
  intros H Hr. cbn in H. apply onNode_Ok in H as (n & w' & Hn & Hp & Hf & ->).
  unfold workerUpload in Hf. destruct (nodeSource n) as [i|] eqn:Ei; [|done].
  destruct (sourceStore (Some i) (nodeWorker n)) as [s|] eqn:Es; [|done]. unfold UploadBlobs in Hf.
  destruct (uploadLoop _ _ now msgs None _) as [o st] eqn:Eu. injection Hf as -> <-.
  assert (forall t k, present blake3 (uStore st) t k ->
    exists s', sourceAt (mkCluster (clScheduler c) (<[connAddr conn := set_worker (set_stores (<[i := uStore st]>
      (wStores (nodeWorker n))) (nodeWorker n)) n]> (clNodes c))) conn = Some s' /\ present blake3 s' t k) as Hnew.
  { intros t k Hpr. exists (uStore st). split; [|done]. apply sourceAt_Some. eexists. cbn [clNodes].
    split; [apply lookup_insert_eq|]. split; [exact Hp|]. cbn. rewrite Ei. cbn. unfold sourceStore in Es. cbn in Es.
    apply list_lookup_insert_eq. by eapply lookup_lt_Some. }
  destruct (uploadLoop_accounts blake3 (casToken n) blake3_ne now msgs _ _ _ Eu Hr) as (_ & _ & Hh).
  split; [|intros h Hin; by apply Hnew, Hh].
  intros t k Hk (s0 & Hs0 & Hpr). apply Hnew. apply sourceAt_Some in Hs0 as (n0 & Hn0 & _ & Hs0).
  assert (s0 = s) as -> by congruence. by eapply (uploadLoop_present blake3 (casToken n) blake3_ne now msgs) in Eu.
Qed.

(** The scheduler and the workers keep the contract of the dispatcher. *)
#[global] Instance cluster_laws : MeshLaws (Cluster K S).
Proof.
  refine {| stored c conn t k := exists s, sourceAt c conn = Some s /\ present blake3 s t k;
            sound := wholeSources |}.
  - intros t c Hw. exact Hw.
  - intros req c Hw. cbn. by destruct (Authenticate _ _ _ _ _).
  - intros req c Hw. cbn. by destruct (Route _ _ _ _ _).
  - intros conn req c Hw. cbn. apply onNode_reader_whole; [|done]. intros n. apply probe_keeps.
  - intros c conn reqs sent c'. apply cluster_find_missing.
  - intros c conn msgs r c' _. apply cluster_upload.
Defined.
End Cluster.

(** ** Sessions *)

Section Sessions.
  Context {K S : Type} `{!StoreOps S}.
  Context (blake3 sha256 : string -> string) (jwtParse : K -> Z -> string -> option (gmap string Claim))
    (signJWT : TaskClaims -> result string) (parseTask : Z -> string -> option (gmap string Claim))
    (meta : Invocation -> InvocationResult -> string).
  Context (now : Z) (fresh : string) (order : list (string * WorkerState)) (job : Job).
  Context (cfg : RemoteConfig) (httpPost : string -> gmap string string -> result HTTPResponse)
    (path : string) (saveOk : bool) (tok : Token).
  Existing Instance cluster_mesh.
  Notation mesh := (cluster_mesh blake3 sha256 jwtParse signJWT parseTask meta now fresh order job).
  Notation acquire := (acquire (Mesh0 := mesh) cfg httpPost (Ok path) saveOk now).

(** The user is logged in, the scheduler knows the tenant and accepts the
    token, and some worker has capacity. *)
Definition loggedIn (w : World (Cluster K S)) : Prop :=
  dTokenFile (wDisp w) = Ok (Some tok) /\ ExpiredWithin now (30 * second) tok = false /\
  is_Some (tenantAuths (clScheduler (wMesh w)) !! rcTenantID cfg) /\
  verifyTenantJWT jwtParse (clScheduler (wMesh w)) now (rcTenantID cfg) (tkAccessToken tok) = true.

Definition sessionValid (w : World (Cluster K S)) : Prop :=
  userSessions (clScheduler (wMesh w)) !! dSession (wDisp w) = Some (rcTenantID cfg).

Context (fresh_ne : fresh <> "") (tenant_ne : rcTenantID cfg <> "").
Context (signs : forall c, is_ok (signJWT c) = true)
  (capacity : exists kw, kw ∈ order /\ (0 < AvailableVCPUs kw.2)%Z).

Lemma pickBest_Some sticky tenant image : is_Some (pickBest sticky tenant image order).
Proof.
  destruct capacity as (kw & Hin & Hc). unfold pickBest. generalize (@None (string * WorkerState)) as best.
  assert (forall l best, is_Some best -> is_Some (foldl (consider sticky tenant image) best l)) as Hkeep.
  { induction l as [|x l IH]; intros best Hb; [done|]. cbn [foldl]. apply IH. destruct Hb as [b ->].
    unfold consider. repeat case_match; eauto. }
  clear capacity. induction order as [|x l IH]; intros best; [by apply elem_of_nil in Hin|]. cbn [foldl].
  apply elem_of_cons in Hin as [->|Hin]; [|by apply IH].
  apply Hkeep. unfold consider. rewrite (proj2 (Z.leb_gt _ _)) by lia. repeat case_match; eauto.
Qed.

(** A valid session is routed. *)
Lemma route_valid (w : World (Cluster K S)) :
  sessionValid w -> exists r w', route (Mesh0 := mesh) cfg w = (Done r, w').
Proof.
  intros Hv. unfold route, rpc, on. cbn [mRoute mesh cluster_mesh].
  unfold Route. cbn [rrSessionToken rrTenantId rrImageDigest]. unfold sessionValid in Hv. rewrite Hv.
  rewrite (proj2 (String.eqb_neq _ _) tenant_ne), String.eqb_refl. cbn [negb orb]. unfold pickWorker.
  destruct (pickBest_Some (StickyTenants (cfgRouting (Scheduler.config (clScheduler (wMesh w))))) (rcTenantID cfg)
    (rcImageDigest cfg)) as [[id wk] ->].
  unfold signTaskToken. pose proof (signs (mkTaskClaims (rcTenantID cfg) (rcImageDigest cfg) (WorkerID (bumpLoad wk))
    (unixSeconds now) (unixSeconds (now + taskTokenTTL)))) as Ht.
  destruct (signJWT _); [|done]. cbn. eauto.
Qed.

(** An invalid one is refused, and nothing else changes. *)
Lemma route_invalid (w : World (Cluster K S)) :
  ~ sessionValid w -> exists e, route (Mesh0 := mesh) cfg w = (Failed e, w).
Proof.
  intros Hv. unfold route, rpc, on. cbn [mRoute mesh cluster_mesh].
  unfold Route. cbn [rrSessionToken rrTenantId rrImageDigest]. unfold sessionValid in Hv.
  destruct (userSessions _ !! _) as [t|].
  - destruct (String.eqb_spec t (rcTenantID cfg)) as [->|]; [done|]. rewrite orb_true_r. cbn. destruct w as [? []]. eauto.
  - cbn. destruct w as [? []]. eauto.
Qed.

Lemma login_valid (w : World (Cluster K S)) :
  loggedIn w -> exists w', login (Mesh0 := mesh) cfg httpPost (Ok path) saveOk now w = (Done tt, w') /\ sessionValid w'.
Proof.
  intros (Ht & He & [ta Hta] & Hv). unfold login. rewrite bind_check, bind_check, Ht.
  unfold bind, wrapping, rpc, on. cbn [mGetTenantIdP mAuthenticate mesh cluster_mesh]. unfold GetTenantIdP. rewrite Hta.
  unfold refreshToken. rewrite He. cbn [negb ret]. unfold Authenticate. cbn [arToken arTenantId wMesh set_mesh].
  rewrite Hv. cbn [negb aSuccess aSessionToken]. rewrite (proj2 (String.eqb_neq _ _) fresh_ne). cbn [negb orb modify].
  eexists. split; [reflexivity|]. unfold sessionValid. cbn. apply lookup_insert_eq.
Qed.

Lemma acquire_cold (w : World (Cluster K S)) :
  loggedIn w -> dSession (wDisp w) = "" -> exists r w', acquire w = (Done r, w').
Proof.
  intros Hl Hs. destruct (login_valid w Hl) as (w1 & E1 & Hv). destruct (route_valid w1 Hv) as (r & w2 & E2).
  exists r, w2. unfold Dispatch.acquire, bind, wrapping, ensureSession. rewrite Hs. cbn [String.eqb negb].
  change (String.eqb "" "") with true. cbn [negb]. by rewrite E1, E2.
Qed.

(** C25: A stale session costs one compile.  In whatever state the scheduler
    is, after a restart for example, and whatever session the dispatcher
    holds: if the user's token is accepted and a worker has capacity, the
    dispatcher gets a route at once or at its next attempt. *)
Theorem session_recovers (w : World (Cluster K S)) :
  loggedIn w ->
  (exists r w1, acquire w = (Done r, w1)) \/
  (exists e w1 r w2, acquire w = (Failed e, w1) /\ acquire w1 = (Done r, w2)).
Proof.
  intros Hl. destruct (decide (dSession (wDisp w) = "")) as [Hs|Hs]; [left; by apply acquire_cold|].
  assert (ensureSession (Mesh0 := mesh) cfg httpPost (Ok path) saveOk now w = (Done tt, w)) as He.
  { unfold ensureSession. by rewrite (proj2 (String.eqb_neq _ _) Hs). }
  destruct (decide (userSessions (clScheduler (wMesh w)) !! dSession (wDisp w) = Some (rcTenantID cfg))) as [Hv|Hv].
  - left. destruct (route_valid w Hv) as (r & w' & E). exists r, w'. unfold Dispatch.acquire, bind, wrapping. by rewrite He, E.
  - right. destruct (route_invalid w Hv) as (e & E). destruct (acquire_cold (dropSession w)) as (r & w2 & E2); [exact Hl|done|].
    exists ("route: " +:+ e), (dropSession w), r, w2. split; [|done]. unfold Dispatch.acquire, bind, wrapping. by rewrite He, E.
Qed.
End Sessions.

(** ** Pins *)

(** A worker that renews its certificate is lost to a running dispatcher.
    The address is pinned to the fingerprint of the first route; every later
    connection to it uses that pin although the route names the new
    fingerprint, every call over it fails, and no dispatch, however it ends,
    changes the pin. *)
Theorem pin_never_renewed {K S} `{!StoreOps S} blake3 sha256 jwtParse signJWT parseTask meta now fresh order job
    (w : World (Cluster K S)) n addr pin r dialOk :
  dWorkers (wDisp w) !! addr = Some pin -> clNodes (wMesh w) !! addr = Some n ->
  rWorkerAddress r = addr -> rCertFingerprint r = sha256 (nodeCert n) -> rCertFingerprint r <> pin ->
  let mesh := cluster_mesh blake3 sha256 jwtParse signJWT parseTask meta now fresh order job in
  (exists conn, connect (M := Cluster K S) dialOk r w = (Done conn, w) /\
    (forall req, mCompile conn req (wMesh w) = (Err "worker cert fingerprint mismatch", wMesh w)) /\
    (forall req, mProbeCompileCache conn req (wMesh w) = (Err "worker cert fingerprint mismatch", wMesh w))) /\
  forall exec cfg mode httpPost tokPath saveOk fs exists_ getwd readAfter c inv,
    dWorkers (wDisp (Dispatch (Mesh0 := mesh) (exec := exec) blake3 cfg mode httpPost tokPath saveOk dialOk fs exists_
      getwd readAfter now c inv w).2) !! addr = Some pin.
Proof.
  intros Hpin Hn Ha Hfp Hne mesh. split.
  - exists (mkConn addr pin). unfold connect, wrapping, workerClient. rewrite Ha, Hpin. split; [done|].
    split; intros req; cbn; unfold onNode; cbn [connAddr connPinned]; rewrite Hn;
      by rewrite (proj2 (String.eqb_neq _ _)) by congruence.
  - intros. eapply lookup_weaken; [exact Hpin|]. apply Dispatch_pins.
Qed.

(** ** Examples *)

(** A project with one source file and one header, and its compiler, which
    lists the header as a dependency. *)
Definition exSources : gmap string string := {[ "/p/main.c" := "int x;"; "/p/a.h" := "int y;" ]}.
Definition exMarker (p : string) : bool := String.eqb p "/p/.hpcc".
#[export] Instance exExec : Executor := {|
  Run bin args env cwd := Ok ("main.o: /p/main.c /p/a.h", "", 0%Z);
  ReadOutput p := Err "no output"
|}.
Definition exGcc : Compiler := clangCompiler "gcc" "gcc".
Definition exInvocation : Invocation :=
  set_Cwd "/p" (match ParseGNU (fun _ => Err "no file") ["-c"; "/p/main.c"; "-o"; "/p/main.o"; "-MF"; "main.d"] with
                | Ok i => i | Err _ => NewInvocation end).

(** A hash of 32 bytes that reads all of its input. *)
Fixpoint foldBytes (s : string) (acc : Z) : Z :=
  match s with
  | EmptyString => acc
  | String c r => foldBytes r ((acc * 257 + Z.of_nat (Ascii.nat_of_ascii c) + 1) mod 2 ^ 256)%Z
  end.
Definition sumHash (s : string) : string := be_bytes 32 (foldBytes s 7).

Lemma sumHash_len x : slen (sumHash x) = 32.
Proof. apply slen_be_bytes. Qed.
Lemma sumHash_ne x : sumHash x <> "".
Proof. intros E. pose proof (sumHash_len x) as H. by rewrite E in H. Qed.

Definition exRemote : RemoteConfig := mkRemoteConfig true "acme" "ref" "img" "sched:1" "".
Definition exToken : Token := mkToken "u" "jwt-url-acme" "" None "".
Definition exWS : WorkerState := mkWorkerState "w1" "w1:1" ["img"] 8 0 1 (sumHash "cert") [] 0.
Definition exSigner (c : TaskClaims) : result string := Ok "tok".

Definition exNode : Node MemStore :=
  mkNode "cert" "w1" (exWorkerConfig "2GB" "10m") "/" false (Some 0)
    (mkWorker (NewPooledRuntime 0 0 0) ∅ [∅] (mkFS {[ []; ["tmp"] ]} ∅)).
Definition exCluster : Cluster string MemStore :=
  mkCluster (set_workers ∅ {[ "w1" := exWS ]} exStart) {[ "w1:1" := exNode ]}.
Definition exWorld (session : string) : World (Cluster string MemStore) :=
  mkWorld (mkDispatcher session ∅ false (Ok (Some exToken))) exCluster.

#[local] Existing Instance mem_ops.
#[local] Instance exMesh : Mesh (Cluster string MemStore) :=
  cluster_mesh sumHash sumHash exParse exSigner exJWT noMeta 0 "T" [("w1", exWS)] (exJob "obj" 1).
Definition noPost (url : string) (form : gmap string string) : result HTTPResponse := Err "offline".
Definition exDispatch (w : World (Cluster string MemStore)) :=
  dispatchCAS sumHash exRemote noPost (Ok "/t") true (fun _ => Ok tt) exSources exMarker (Ok "/p") 0 exGcc exInvocation w.
Definition exDone := exDispatch (exWorld "").

Lemma exCluster_whole : wholeSources sumHash exCluster.
Proof.
  intros addr n s t k Hn Hs _ Hh. unfold exCluster in Hn. cbn [clNodes] in Hn.
  apply lookup_singleton_Some in Hn as [<- <-]. injection Hs as <-. discriminate Hh.
Qed.

#[local] Instance exLaws : MeshLaws (Cluster string MemStore) :=
  cluster_laws (StoreLaws0 := mem_laws) sumHash sumHash exParse exSigner exJWT noMeta 0 "T" [("w1", exWS)] (exJob "obj" 1) sumHash_ne.

Definition resultOf (o : outcome InvocationResult) : InvocationResult :=
  match o with Done r => r | _ => mkInvocationResult "" "" "" 0 0 ∅ end.

Lemma exDone_ok : exDispatch (exWorld "") = (Done (resultOf exDone.1), exDone.2).
Proof.
  assert (exDone.1 = Done (resultOf exDone.1)) as E by (vm_compute; reflexivity).
  rewrite <- E. apply surjective_pairing.
Qed.

Lemma dispatchCAS_sound_witness :
  resOutput (resultOf exDone.1) = "obj" /\
  exists m, BuildManifest sumHash exSources exMarker (Ok "/p") (FindDependencies exGcc) exInvocation = Some (Ok m).
Proof.
  split; [vm_compute; reflexivity|].
  destruct (@dispatchCAS_sound _ exMesh exLaws exExec sumHash exRemote noPost (Ok "/t") true (fun _ => Ok tt) exSources exMarker
    (Ok "/p") 0%Z exGcc exInvocation (exWorld "") exDone.2 (resultOf exDone.1) sumHash_len exCluster_whole exDone_ok)
    as (m & _ & _ & Hm & _).
  exists m. exact Hm.
Defined.

Lemma session_recovers_witness :
  loggedIn exParse 0 exRemote exToken (exWorld "stale") /\
  exists e w1 r w2,
    acquire exRemote noPost (Ok "/t") true 0 (exWorld "stale") = (Failed e, w1) /\
    acquire exRemote noPost (Ok "/t") true 0 w1 = (Done r, w2).
Proof.
  assert (loggedIn exParse 0 exRemote exToken (exWorld "stale")) as Hl.
  { split; [reflexivity|]. split; [reflexivity|]. split; [|reflexivity]. vm_compute. eexists. reflexivity. }
  split; [exact Hl|].
  assert (exists kw, kw ∈ [("w1", exWS)] /\ (0 < AvailableVCPUs kw.2)%Z) as Hcap
    by (exists ("w1", exWS); split; [apply list_elem_of_singleton; reflexivity|reflexivity]).
  assert (rcTenantID exRemote <> "") as Ht by discriminate. assert ("T" <> "") as Hf by discriminate.
  destruct (@session_recovers string MemStore mem_ops sumHash sumHash exParse exSigner exJWT noMeta 0 "T" [("w1", exWS)]
    (exJob "obj" 1) exRemote noPost "/t" true exToken Hf Ht (fun _ => eq_refl) Hcap (exWorld "stale") Hl)
    as [(r & w1 & E)|H]; [|exact H].
  exfalso. vm_compute in E. discriminate E.
Defined.

(** A dispatcher that pinned the worker before its certificate changed. *)
Definition exPinned : World (Cluster string MemStore) :=
  mkWorld (mkDispatcher "" {[ "w1:1" := "old" ]} false (Ok (Some exToken))) exCluster.

Lemma pin_never_renewed_witness :
  dWorkers (wDisp (exDispatch exPinned).2) !! "w1:1" = Some "old" /\
  exists conn, connect (fun _ => Ok tt) (mkRouteResponse "w1:1" "tok" (sumHash "cert")) exPinned = (Done conn, exPinned) /\
    forall req, mCompile conn req exCluster = (Err "worker cert fingerprint mismatch", exCluster).
Proof.
  assert (sumHash "cert" <> "old") as Hne by (vm_compute; discriminate).
  destruct (@pin_never_renewed string MemStore mem_ops sumHash sumHash exParse exSigner exJWT noMeta 0 "T" [("w1", exWS)]
    (exJob "obj" 1) exPinned exNode "w1:1" "old" (mkRouteResponse "w1:1" "tok" (sumHash "cert")) (fun _ => Ok tt)
    eq_refl eq_refl eq_refl eq_refl Hne) as [(conn & Hc & Hm & _) Hpin].
  split; [exact (Hpin exExec exRemote 2%Z noPost (Ok "/t") true exSources exMarker (Ok "/p") (fun _ => Err "") exGcc exInvocation)|].
  exists conn. split; [exact Hc|exact Hm].
Defined.

Definition exManifest : Manifest :=
  match BuildManifest sumHash exSources exMarker (Ok "/p") (FindDependencies exGcc) exInvocation with
  | Some (Ok m) => m
  | _ => mkManifest "" []
  end.
Definition exConn : Conn := mkConn "w1:1" (sumHash "cert").
Definition exHit (r : result ProbeResponse) : bool := match r with Ok (ProbeHit _) => true | _ => false end.

(** The probe does not find the dispatcher's own compiles.  The probe is
    sent with the command as it is, the compile with the command rewritten for
    the worker and with the flags for reproducible output; the worker keys
    both by the flags it is sent.  So a second dispatch of the same command on
    the same sources misses at the probe, where the answer of the first is in
    the worker's cache under the command that was compiled. *)
Theorem probe_misses_own_compile :
  is_ok (match exDone.1 with Done _ => Ok tt | _ => Err "" end) = true /\
  (mProbeCompileCache exConn (casProbe exRemote exGcc exInvocation exManifest "tok") (wMesh exDone.2)).1 = Ok ProbeMiss /\
  exHit (mProbeCompileCache exConn (mkCompileProbe (manifestDigest exManifest)
    (compilerName exGcc :: (casArgs exGcc exInvocation "/p").1) "acme" "img" "tok") (wMesh exDone.2)).1 = true.
Proof. vm_compute. done. Qed.

(** The tree the worker stages for the example. *)
Definition exTree : FS :=
  mkFS {[ []; ["s"] ]} {[ ["s"; "main.c"] := ("int x;", 1%Z); ["s"; "a.h"] := ("int y;", 1%Z) ]}.

Lemma exTree_staged : stagedTree sumHash ["s"] (manifestBlobsToProto (manifestBlobs exManifest)) exTree.
Proof.
  assert (manifestBlobsToProto (manifestBlobs exManifest)
    = [mkWireBlob "a.h" (sumHash "int y;") 6; mkWireBlob "main.c" (sumHash "int x;") 6]) as -> by (vm_compute; reflexivity).
  split.
  - intros b Hb _. apply elem_of_cons in Hb as [->|Hb]; [vm_compute; eauto|]. apply list_elem_of_singleton in Hb as ->. vm_compute. eauto.
  - intros q v t _ Hq. unfold exTree in Hq. cbn [fsFiles] in Hq. apply lookup_insert_Some in Hq as [[<- E]|[_ Hq]].
    + injection E as <- <-. eexists. split; [right; left|]. split; [reflexivity|]. split; reflexivity.
    + apply lookup_singleton_Some in Hq as [<- E]. injection E as <- <-. eexists. split; [left|]. split; [reflexivity|]. split; reflexivity.
Qed.

Lemma staged_is_local_witness :
  exists p data r, exSources !! p = Some data /\ sumHash "int x;" = sumHash data /\
    join ["/p"; r] = clean p /\ ["s"; "main.c"] = comps (join ["/s"; r]).
Proof.
  assert (forall wd, Ok "/p" = Ok wd -> isAbs wd = true) as Hwd by (intros wd E; injection E as <-; reflexivity).
  assert (BuildManifest sumHash exSources exMarker (Ok "/p") (FindDependencies exGcc) exInvocation = Some (Ok exManifest)) as Hm
    by (vm_compute; reflexivity).
  destruct (staged_is_local sumHash exSources exMarker (Ok "/p") (FindDependencies exGcc) exInvocation exManifest "/p" ["s"]
    exTree Hwd eq_refl eq_refl Hm exTree_staged) as [H _].
  apply (H ["s"; "main.c"] "int x;" 1%Z); [exists ["main.c"]; reflexivity|vm_compute; reflexivity].
Defined.

(** A blob can be neither uploaded nor read.  [FindMissingBlobs] asks
    whether the entry of a digest exists, staging reads its data: an entry
    whose directory was made but whose data was not written, by a full disk
    or a crash between the two, is never reported missing, so that the client
    does not upload it, and every compile that needs it fails. *)
Theorem half_written_blob_stuck :
  let fs : FS := mkFS {[ []; ["c"]; ["c"; "source"]; ["c"; "source"; "acme"] ]} ∅ in
  let k := sumHash "int x;" in
  let fs' := match mkdirAll (["c"; "source"; "acme"; stake 2 (hexEncode k); hexEncode k]) fs with Ok f => f | Err _ => fs end in
  FindMissingBlobs (StoreOps0 := disk_ops ["c"]) toyToken fs' "" [mkBlobDigest k "acme" "tok-acme"] None = ([], Done tt) /\
  sGet (StoreOps := disk_ops ["c"]) fs' (sourceNs "acme") k blobData = Ok None.
Proof. vm_compute. done. Qed.
