(* ===== verification/Liaison.v ===== *)
(** * Liaison: the worker's side of the scheduler, and its images.

    The second half of [internal/worker/worker.go]: [Run] authenticates and
    registers the worker and then heartbeats on a ticker, starting over when
    a heartbeat fails; [evictImagesLoop] drops images that were not used for
    a while.  The scheduler is that of the [Scheduler] file, so that the
    theorems are about both sides of the protocol. *)

From S2P Require Import Prelude Effects GoStrings GoTime Store Scheduler Config.

Definition heartbeatInterval : Z := 10 * second.

(** ** The worker *)

(** The fields of [Worker] the loop uses; the catalogue maps a digest to the
    time of its last use. *)
Record Loop := mkLoop {
  lWorkerID : string;
  lFingerprint : string;
  lSession : string;
  lPubKey : string;
  lImages : gmap string Z;
  lInflight : Z;
  lContainers : list VMInfo
}.

Definition set_identity (id fp : string) (l : Loop) : Loop :=
  mkLoop id fp (lSession l) (lPubKey l) (lImages l) (lInflight l) (lContainers l).
Definition set_lSession (session pub : string) (l : Loop) : Loop :=
  mkLoop (lWorkerID l) (lFingerprint l) session pub (lImages l) (lInflight l) (lContainers l).
Definition set_lImages (m : gmap string Z) (l : Loop) : Loop :=
  mkLoop (lWorkerID l) (lFingerprint l) (lSession l) (lPubKey l) m (lInflight l) (lContainers l).

(** [Images.LoadOrStore] with a new entry. *)
Definition seedImage (now : Z) (m : gmap string Z) (d : string) : gmap string Z :=
  match m !! d with Some _ => m | None => <[d := now]> m end.

(** [fingerprintPEM], [decode] being [pem.Decode]. *)
Definition fingerprintPEM (sha256 : string -> string) (decode : string -> option string) (data source : string)
    : result string :=
  match decode data with
  | None => Err ("no PEM block in " +:+ source)
  | Some block => Ok (sha256 block)
  end.

Definition loadCertFingerprint (sha256 : string -> string) (decode : string -> option string)
    (readFile : string -> result string) (certFile : string) : result string :=
  if String.eqb certFile "" then Ok ""
  else let! data := readFile certFile in fingerprintPEM sha256 decode data certFile.

Definition loadCertFingerprintFromConfig (sha256 : string -> string) (decode : string -> option string)
    (readFile : string -> result string) (pem certFile : string) : result string :=
  if String.eqb pem "" then loadCertFingerprint sha256 decode readFile certFile
  else fingerprintPEM sha256 decode pem "<config>".

(** [bootstrap]; [existing] is what the image store lists, empty without
    one, and its errors are only logged. *)
Definition bootstrap (cfg : WorkerConfig) (randomID fingerprint : result string) (existing : list string) (now : Z)
    (l : Loop) : result Loop :=
  let! id := (if negb (String.eqb (lWorkerID l) "") then Ok (lWorkerID l)
              else if negb (String.eqb (wcWorkerID cfg) "") then Ok (wcWorkerID cfg)
              else wrapErr "generate worker id" randomID) in
  let! fp := wrapErr "compute cert fingerprint" fingerprint in
  Ok (set_lImages (foldl (seedImage now) (lImages l) (AdvertisedDigests (wcImage cfg) ++ existing))
        (set_identity id fp l)).

Definition randomID (bytes : result string) : result string :=
  let! b := bytes in Ok ("worker-" +:+ hexEncode b).

(** [capacitySnapshot]: available slots and load, in [int32]. *)
Definition capacitySnapshot (cfg : WorkerConfig) (l : Loop) : Z * Z :=
  let load := lInflight l in
  let max := int32 (int32 (wcMaxActive cfg) * vmVCPUs (wcVM cfg)) in
  let avail := int32 (max - load) in
  (if (avail <? 0)%Z then 0%Z else avail, load).

Definition runtimeType (handler : string) : Z :=
  if String.eqb handler "firecracker" then 0
  else if String.eqb handler "runhcs-wcow-hypervisor" then 1
  else if String.eqb handler "really_really_dangerous" then 2
  else 0.

(** [knownImageDigests], [Range] in the order of the map. *)
Definition knownImageDigests (l : Loop) : list string := map fst (map_to_list (lImages l)).

Section Calls.
  Context {K : Type} (jwtParse : K -> Z -> string -> option (gmap string Claim)) (cfg : WorkerConfig).

(** What becomes of one call: it is answered, or it fails, before it reached
    the scheduler or after the scheduler served it. *)
Inductive fate := Answered | Lost (e : string) | Unanswered (e : string).

Definition call {A} (f : fate) (serve : Scheduler K -> result A * Scheduler K) : act (Loop * Scheduler K) A :=
  fun st =>
  match f with
  | Lost e => (Failed e, st)
  | Unanswered e => (Failed e, (st.1, (serve st.2).2))
  | Answered => let '(r, s') := serve st.2 in
                (match r with Ok a => Done a | Err e => Failed e end, (st.1, s'))
  end.

Definition registerRequest (session : string) (l : Loop) : RegisterWorkerRequest :=
  let '(avail, load) := capacitySnapshot cfg l in
  mkRegisterWorkerRequest session (lWorkerID l) (wcPublicAddr cfg) (knownImageDigests l) avail load
    (runtimeType (wcHandler cfg)) (lFingerprint l).

(** The two calls of [authenticateAndRegister]. *)
Definition authenticate (f : fate) (now : Z) (fresh : string) : act (Loop * Scheduler K) string :=
  let* auth := wrapping "Authenticate RPC" (call f (fun s =>
    let '(r, s') := Authenticate jwtParse s now fresh
                      (mkAuthRequest "" (StaticToken (slWorkerToken (wcScheduler cfg)))) in (Ok r, s'))) in
  if negb (aSuccess auth) || String.eqb (aSessionToken auth) "" then failure "scheduler rejected worker token"
  else
    let* _ := modify (fun st => (set_lSession (aSessionToken auth) (aSigningPublicKey auth) st.1, st.2)) in
    ret (aSessionToken auth).

Definition register (f : fate) (now : Z) (session : string) : act (Loop * Scheduler K) unit := fun st =>
  (let* ok := wrapping "RegisterWorker RPC" (call f (fun s =>
     let '(r, s') := RegisterWorker s now (registerRequest session st.1) in (Ok r, s'))) in
   if ok : bool then ret tt else failure "scheduler rejected RegisterWorker") st.

Definition authenticateAndRegister (fa fr : fate) (now now' : Z) (fresh : string) : act (Loop * Scheduler K) unit :=
  let* session := authenticate fa now fresh in register fr now' session.

Definition heartbeatRequest (l : Loop) : WorkerHeartbeat :=
  let '(avail, load) := capacitySnapshot cfg l in
  mkWorkerHeartbeat (lSession l) (lWorkerID l) avail load (lContainers l).

Definition heartbeat (f : fate) (now : Z) : act (Loop * Scheduler K) unit := fun st =>
  if String.eqb (lSession st.1) "" then (Failed "no session", st)
  else call f (fun s => Heartbeat s now (heartbeatRequest st.1)) st.

(** One tick of the loop of [Run], each of its calls with a fate and a time of
    its own; the outcome is what is logged. *)
Definition tick (fh fa fr : fate) (now now' now'' : Z) (fresh : string) : act (Loop * Scheduler K) unit := fun st =>
  match heartbeat fh now st with
  | (Done _, st') => (Done tt, st')
  | (_, st') => authenticateAndRegister fa fr now' now'' fresh st'
  end.
End Calls.

(** ** Images *)

Definition idle (pinned : list string) (cutoff : Z) (kv : string * Z) : bool :=
  negb (existsb (String.eqb kv.1) pinned) && (kv.2 <=? cutoff)%Z.

(** [evictImagesOnce]: the catalogue that is left and the digests that were
    untagged. *)
Definition evictImagesOnce (hasStore : bool) (pinned : list string) (ttl now : Z) (m : gmap string Z)
    : gmap string Z * list string :=
  let cutoff := (now - ttl)%Z in
  (filter (fun kv => idle pinned cutoff kv = false) m,
   if hasStore then map fst (List.filter (idle pinned cutoff) (map_to_list m)) else []).

(** [evictImagesLoop]: the catalogue after the ticks at the given times. *)
Definition evictTicks (hasStore : bool) (pinned : list string) (ttl : Z) (ticks : list Z) (m : gmap string Z) : gmap string Z :=
  foldl (fun m now => (evictImagesOnce hasStore pinned ttl now m).1) m ticks.

(** ** Facts *)

Section Facts.
  Context {K : Type} (jwtParse : K -> Z -> string -> option (gmap string Claim)) (signJWT : TaskClaims -> result string)
    (cfg : WorkerConfig).
  Implicit Types (l : Loop) (s : Scheduler K).
  Notation authenticate := (authenticate jwtParse cfg).
  Notation register := (register cfg).
  Notation heartbeat := (heartbeat cfg).
  Notation tick := (tick jwtParse cfg).

(** The worker is registered and was heard of at [last] or later. *)
Definition registered (last : Z) (l : Loop) (s : Scheduler K) : Prop :=
  exists w, workerStates s !! lWorkerID l = Some w /\ (last <= LastHeartbeat w)%Z.

(** Its session is its own. *)
Definition joined (l : Loop) (s : Scheduler K) : Prop :=
  workerSessions s !! lSession l = Some (SessionOf (lWorkerID l)).

(** What each call does to both sides. *)
Lemma heartbeat_Done f now l s l' s' :
  heartbeat f now (l, s) = (Done tt, (l', s')) -> l' = l /\ registered now l s' /\ joined l s'.
Proof.
  unfold Liaison.heartbeat, call, heartbeatRequest. destruct (String.eqb _ _); [done|]. destruct f; [|done..].
  cbn [fst snd]. destruct (capacitySnapshot cfg l) as [avail load]. unfold Heartbeat. cbn [hbSessionToken hbWorkerId].
  destruct (workerSessions s !! lSession l) as [ws|] eqn:Es; [|done].
  case_bool_decide as Hws; cbn [negb]; [|done]. destruct (workerStates s !! lWorkerID l) as [w|]; [|done].
  intros [= <- <-]. split_and!; [done| |unfold joined; cbn; congruence].
  eexists. split; [apply lookup_insert_eq|]. cbn. lia.
Qed.

Lemma Heartbeat_sessions now req s : workerSessions (Heartbeat s now req).2 = workerSessions s.
Proof. unfold Heartbeat. by repeat case_match. Qed.

Lemma Heartbeat_registered now last req l s :
  (last <= now)%Z -> registered last l s -> registered last l (Heartbeat s now req).2.
Proof.
  intros Hn (w & Hw & Hl). unfold Heartbeat. repeat case_match; try by exists w.
  unfold registered. cbn. destruct (decide (hbWorkerId req = lWorkerID l)) as [->|].
  - rewrite lookup_insert_eq. eexists. split; [done|]. cbn. lia.
  - rewrite lookup_insert_ne by done. eauto.
Qed.

Lemma heartbeat_Failed f now last l s e l' s' :
  (last <= now)%Z -> heartbeat f now (l, s) = (Failed e, (l', s')) -> registered last l s ->
  l' = l /\ registered last l s' /\ (joined l s -> joined l s').
Proof.
  intros Hn H Hr. unfold Liaison.heartbeat, call in H. destruct (String.eqb _ _); [by simplify_eq|].
  unfold joined. pose proof (Heartbeat_registered now last (heartbeatRequest cfg l) l s Hn Hr) as Hr'.
  pose proof (Heartbeat_sessions now (heartbeatRequest cfg l) s) as Hs. destruct f; cbn [fst snd] in H.
  - destruct (Heartbeat _ _ _) as [r s1]. injection H as _ <- <-. cbn in *. by rewrite Hs.
  - by simplify_eq.
  - injection H as _ <- <-. by rewrite Hs.
Qed.

(** [Authenticate] opens a session and touches nothing else. *)
Lemma authenticate_inv f now fresh l s o l' s' :
  authenticate f now fresh (l, s) = (o, (l', s')) ->
  workerStates s' = workerStates s /\ lWorkerID l' = lWorkerID l /\
  match o with
  | Done tok => tok = lSession l' /\ workerSessions s' !! tok = Some SessionOpen
  | _ => l' = l /\ forall t, t <> fresh -> workerSessions s' !! t = workerSessions s !! t
  end.
Proof.
  unfold Liaison.authenticate, bind, wrapping, call, Authenticate. cbn [arToken fst snd].
  destruct f; cbn [fst snd]; destruct (String.eqb (slWorkerToken (wcScheduler cfg)) (cfgWorkerToken (Scheduler.config s)));
    cbn [negb fst snd aSuccess aSessionToken rejected orb];
    try (intros H; unfold failure in H; simplify_eq; cbn; split_and!; try done; intros; by rewrite ?lookup_insert_ne by done).
  unfold failure, ret. destruct (String.eqb fresh ""); intros H; cbn in H; simplify_eq; cbn; split_and!; try done.
  - intros. by rewrite lookup_insert_ne.
  - apply lookup_insert_eq.
Qed.

Lemma register_inv f now last l s o l' s' :
  (last <= now)%Z -> register f now (lSession l) (l, s) = (o, (l', s')) ->
  l' = l /\ (registered last l s -> registered last l s') /\
  (o = Done tt -> registered now l s' /\ joined l s').
Proof.
  intros Hn. unfold Liaison.register, bind, wrapping, call, RegisterWorker, registerRequest.
  destruct (capacitySnapshot cfg _) as [avail load]. cbn [fst snd rwSessionToken rwWorkerId].
  assert (forall req ss t, rwWorkerId req = lWorkerID l -> (t <= now)%Z -> registered t l
    (set_workers ss (<[lWorkerID l := workerStateFromRegistration now req]> (workerStates s)) s)) as Hreg.
  { intros req ss t _ Ht. eexists. split; [apply lookup_insert_eq|]. cbn. lia. }
  destruct f, (workerSessions s !! lSession l); cbn; unfold ret, failure; intros H; simplify_eq; split_and!; try done;
    intros; try (by apply Hreg). split; [by apply Hreg|]. apply lookup_insert_eq.
Qed.

(** The events of the scheduler that are not about this worker. *)
Definition foreign (l : Loop) (e : Event) : Prop :=
  match e with
  | EvAuthenticate _ fresh _ => fresh <> lSession l
  | EvRegister _ req => rwWorkerId req <> lWorkerID l /\ rwSessionToken req <> lSession l
  | EvHeartbeat _ req => hbWorkerId req <> lWorkerID l
  | EvReap _ _ => False
  | _ => True
  end.

Lemma handle_foreign last l s e :
  rangeOk s e -> foreign l e -> registered last l s ->
  registered last l (handle jwtParse signJWT s e).2 /\
  (joined l s -> joined l (handle jwtParse signJWT s e).2).
Proof.
  intros Hr Hf (w & Hw & Hl). unfold registered, joined.
  destruct e as [t|now fresh req|now order req|now req|now req|]; cbn [handle] in *; [by split; eauto|..|done].
  - unfold Authenticate. destruct (arToken req) as [raw|t|]; [| |by split; eauto];
      (destruct (negb _); [by split; eauto|]); (split; [by eauto|]); [done|]. cbn in *. by rewrite lookup_insert_ne.
  - unfold Route. destruct (userSessions s !! _) as [t|]; [|by split; eauto]. destruct (_ || _); [by split; eauto|].
    unfold pickWorker. destruct (pickBest _ _ _ order) as [[id b]|] eqn:Eb; [|by split; eauto].
    apply pickBest_mem in Eb. cbn [rangeOk] in Hr. rewrite Hr in Eb. apply elem_of_map_to_list in Eb.
    assert (exists w', <[id := bumpLoad b]> (workerStates s) !! lWorkerID l = Some w' /\ (last <= LastHeartbeat w')%Z) as He.
    { destruct (decide (id = lWorkerID l)) as [->|Hne].
      - exists (bumpLoad b). rewrite lookup_insert_eq. split; [done|]. cbn. by assert (b = w) as -> by congruence.
      - exists w. by rewrite lookup_insert_ne. }
    by destruct (wrapErr _ _).
  - unfold RegisterWorker. destruct (workerSessions s !! rwSessionToken req); [|by split; eauto]. destruct Hf as [Hf1 Hf2].
    cbn. rewrite !lookup_insert_ne by done. eauto.
  - unfold Heartbeat. destruct (workerSessions s !! hbSessionToken req) eqn:Eh; [|by split; eauto]. destruct (negb _); [by split; eauto|].
    destruct (workerStates s !! hbWorkerId req); [|by split; eauto]. cbn. rewrite lookup_insert_ne by done. eauto.
Qed.

Lemma reap_attended last l s now timeout :
  (now - timeout <= last)%Z -> registered last l s ->
  registered last l (reapStaleWorkers s now timeout) /\ (joined l s -> joined l (reapStaleWorkers s now timeout)).
Proof.
  intros Hn (w & Hw & Hl). unfold registered, joined, reapStaleWorkers. case_bool_decide; [by split; eauto|].
  assert (lWorkerID l ∉ collectStale s now timeout) as Hstale.
  { unfold collectStale. intros ([id w'] & Eid & Hin)%list_elem_of_fmap. apply list_elem_of_In, filter_In in Hin as [Hin Hst].
    apply list_elem_of_In, elem_of_map_to_list in Hin. cbn in *. subst id. unfold isStale in Hst. apply Z.ltb_lt in Hst.
    assert (w' = w) as -> by congruence. lia. }
  split; cbn.
  - exists w. split; [|done]. by apply map_lookup_filter_Some.
  - intros Hs. apply map_lookup_filter_Some. split; [done|]. cbn. by rewrite bool_decide_eq_false_2.
Qed.

(** Where a worker is in its loop: before a heartbeat, before [Authenticate]
    after a heartbeat that failed, before [RegisterWorker]. *)
Inductive phase := Waiting | Rejoining | Registering.

(** The states of a worker and its scheduler since the worker last heard from
    it, which was at [last]: an accepted heartbeat, or a registration, from any
    state (the scheduler may just have started).  From then on the worker goes
    through its loop, and every call has a fate of its own; between any two
    calls the scheduler serves others, and its reaper runs, no later than the
    timeout after [last].  [own] is whether the session the worker holds was
    registered: a new one is not until [RegisterWorker] is answered. *)
Inductive attended (timeout : Z) : phase -> bool -> Z -> Loop -> Scheduler K -> Prop :=
  | attended_beat l s f now l' s' :
      heartbeat f now (l, s) = (Done tt, (l', s')) -> attended timeout Waiting true now l' s'
  | attended_register l s f now l' s' :
      register f now (lSession l) (l, s) = (Done tt, (l', s')) -> attended timeout Waiting true now l' s'
  | attended_beat_fails own last l s f now e l' s' :
      attended timeout Waiting own last l s -> (last <= now)%Z ->
      heartbeat f now (l, s) = (Failed e, (l', s')) -> attended timeout Rejoining own last l' s'
  | attended_auth own last l s f now fresh tok l' s' :
      attended timeout Rejoining own last l s ->
      authenticate f now fresh (l, s) = (Done tok, (l', s')) -> attended timeout Registering false last l' s'
  | attended_auth_fails own last l s f now fresh e l' s' :
      attended timeout Rejoining own last l s -> fresh <> lSession l ->
      authenticate f now fresh (l, s) = (Failed e, (l', s')) -> attended timeout Waiting own last l' s'
  | attended_register_fails own last l s f now e l' s' :
      attended timeout Registering own last l s -> (last <= now)%Z ->
      register f now (lSession l) (l, s) = (Failed e, (l', s')) -> attended timeout Waiting false last l' s'
  | attended_event ph own last l s e :
      attended timeout ph own last l s -> rangeOk s e -> foreign l e ->
      attended timeout ph own last l (handle jwtParse signJWT s e).2
  | attended_reap ph own last l s now :
      attended timeout ph own last l s -> (now - timeout <= last)%Z ->
      attended timeout ph own last l (reapStaleWorkers s now timeout).

Lemma attended_enrolled timeout ph own last l s :
  attended timeout ph own last l s -> registered last l s /\ (own = true -> joined l s).
Proof.
  induction 1 as [l s f now l' s' H|l s f now l' s' H|own last l s f now e l' s' _ [IH1 IH2] Hn H
    |own last l s f now fresh tok l' s' _ [IH1 IH2] H|own last l s f now fresh e l' s' _ [IH1 IH2] Hf H
    |own last l s f now e l' s' _ [IH1 IH2] Hn H|ph own last l s e _ [IH1 IH2] Hr Hf|ph own last l s now _ [IH1 IH2] Hn].
  - apply heartbeat_Done in H as (-> & ? & ?). done.
  - apply (register_inv f now now) in H as (-> & _ & H); [|lia]. destruct (H eq_refl). done.
  - apply (heartbeat_Failed f now last) in H as (-> & ? & ?); [|done..]. auto.
  - apply authenticate_inv in H as (Hw & Hid & _). split; [|done]. unfold registered. by rewrite Hw, Hid.
  - apply authenticate_inv in H as (Hw & _ & -> & Hs). split; [unfold registered; by rewrite Hw|].
    unfold joined. rewrite Hs by done. exact IH2.
  - apply (register_inv f now last) in H as (-> & Hr & _); [|done]. split; [auto|done].
  - destruct (handle_foreign last l s e Hr Hf IH1). auto.
  - destruct (reap_attended last l s now timeout Hn IH1). auto.
Qed.

(** From any state, when the last two calls of a tick are answered, the tick
    succeeds. *)
Lemma tick_enrolls timeout fh now now' now'' fresh l s :
  slWorkerToken (wcScheduler cfg) = cfgWorkerToken (Scheduler.config s) -> fresh <> "" ->
  exists l' s' t, tick fh Answered Answered now now' now'' fresh (l, s) = (Done tt, (l', s')) /\
    lWorkerID l' = lWorkerID l /\ t ∈ [now; now''] /\ attended timeout Waiting true t l' s'.
Proof.
  intros Htok Hf. unfold Liaison.tick. destruct (heartbeat fh now (l, s)) as [o [l1 s1]] eqn:Eh.
  assert (o = Done tt \/ (forall A (x y : A), match o with Done _ => x | _ => y end = y) /\ l1 = l /\
          Scheduler.config s1 = Scheduler.config s) as [->|(Ho & -> & Hc)].
  { unfold Liaison.heartbeat, call, Heartbeat in Eh. repeat case_match; cbn in Eh; simplify_eq; cbn; auto;
      try match goal with u : unit |- _ => destruct u end; auto; by repeat case_match. }
  - destruct (heartbeat_Done _ _ _ _ _ _ Eh) as (-> & _). exists l, s1, now.
    split_and!; [done|done|set_solver|by eapply attended_beat].
  - rewrite Ho, <- Hc in *. clear Eh. unfold authenticateAndRegister, bind at 1.
    destruct (authenticate Answered now' fresh (l, s1)) as [o2 [l2 s2]] eqn:Ea.
    pose proof (authenticate_inv _ _ _ _ _ _ _ _ Ea) as (_ & Hid & Ha).
    assert (exists tok, o2 = Done tok) as [tok ->].
    { unfold Liaison.authenticate, bind, wrapping, call, Authenticate in Ea. cbn [arToken fst snd] in Ea.
      rewrite Htok, String.eqb_refl in Ea. cbn in Ea. rewrite (proj2 (String.eqb_neq _ _) Hf) in Ea.
      injection Ea as <- _ _. eauto. }
    destruct Ha as [-> Hs]. destruct (register Answered now'' (lSession l2) (l2, s2)) as [o3 [l3 s3]] eqn:Er.
    assert (o3 = Done tt) as ->.
    { unfold Liaison.register, bind, wrapping, call, RegisterWorker, registerRequest in Er.
      destruct (capacitySnapshot cfg _). cbn in Er. rewrite Hs in Er. by injection Er as <- _ _. }
    apply (register_inv Answered now'' now'') in Er as E; [|lia]. destruct E as (-> & _).
    exists l2, s3, now''. split_and!; [done|done|set_solver|by eapply attended_register].
Qed.
End Facts.

(** ** Claims *)

(** C26: A worker is known to its scheduler as long as it is heard.  Whatever
    calls fail since a heartbeat or a registration got through, each on its own
    and before or after the scheduler served it, and whatever the scheduler
    does between any two calls for others (who have neither this worker's id
    nor its session), the worker stays registered, with that call or a later
    one as its last sign, until the reaper runs later than the timeout after
    it.  Its session stays bound to it unless a new one was granted and not
    registered; and then, whatever state the scheduler is in, one that has just
    started for example, one tick in which [Authenticate] and [RegisterWorker]
    are answered joins the worker again, when both have the same token. *)
Theorem ticking_worker_enrolled {K} (jwtParse : K -> Z -> string -> option (gmap string Claim)) signJWT cfg
    timeout ph own last l s :
  attended jwtParse signJWT cfg timeout ph own last l s ->
  registered last l s /\ (own = true -> joined l s) /\
  forall s0 fh now now' now'' fresh,
    slWorkerToken (wcScheduler cfg) = cfgWorkerToken (Scheduler.config s0) -> fresh <> "" ->
    exists l' s' t, tick jwtParse cfg fh Answered Answered now now' now'' fresh (l, s0) = (Done tt, (l', s')) /\
      lWorkerID l' = lWorkerID l /\ t ∈ [now; now''] /\ registered t l' s' /\ joined l' s' /\
      attended jwtParse signJWT cfg timeout Waiting true t l' s'.
Proof.
  intros H. destruct (attended_enrolled _ _ _ _ _ _ _ _ _ H) as [Hr Hj]. split_and!; [done|done|].
  intros s0 fh now now' now'' fresh Htok Hf.
  destruct (tick_enrolls jwtParse signJWT cfg timeout fh now now' now'' fresh l s0 Htok Hf) as (l' & s' & t & E & Hid & Ht & Ha).
  destruct (attended_enrolled _ _ _ _ _ _ _ _ _ Ha) as [Hr' Hj']. exists l', s', t. auto 10.
Qed.

(** A worker whose scheduler restarts joins at the next tick; later its
    heartbeat is lost, a new session is granted, and the registration of it is
    lost: it is still registered, and its session is open. *)
Definition exLoop : Loop := mkLoop "w1" "fp" "gone" "pk" ∅ 0 [].
Definition exWorker : WorkerConfig := exWorkerConfig "2GB" "10m".
Definition exTick : Loop * Scheduler string := (tick exParse exWorker Answered Answered Answered 7 7 7 "T9" (exLoop, exStart)).2.
Definition exBeat : Loop * Scheduler string := (heartbeat exWorker (Lost "unreachable") 8 exTick).2.
Definition exAuth : Loop * Scheduler string := (authenticate exParse exWorker Answered 8 "T10" exBeat).2.
Definition exHalf : Loop * Scheduler string := (register exWorker (Lost "unreachable") 9 "T10" exAuth).2.

Lemma exHalf_attended : attended exParse exSign exWorker (30 * second) Waiting false 7 exHalf.1 exHalf.2.
Proof.
  apply (attended_register_fails _ _ _ _ false 7 exAuth.1 exAuth.2 (Lost "unreachable") 9
    "RegisterWorker RPC: unreachable"); [|lia|vm_compute; reflexivity].
  apply (attended_auth _ _ _ _ true 7 exBeat.1 exBeat.2 Answered 8 "T10" "T10"); [|vm_compute; reflexivity].
  apply (attended_beat_fails _ _ _ _ true 7 exTick.1 exTick.2 (Lost "unreachable") 8 "unreachable");
    [|lia|vm_compute; reflexivity].
  destruct (tick_enrolls exParse exSign exWorker (30 * second) Answered 7 7 7 "T9" exLoop exStart)
    as (l' & s' & t & E & _ & Ht & Ha); [reflexivity|discriminate|].
  assert (t = 7%Z) as -> by set_solver. unfold exTick. by rewrite E.
Qed.

Lemma ticking_worker_enrolled_witness :
  registered 7 exHalf.1 exHalf.2 /\ ~ joined exHalf.1 exHalf.2 /\
  exists l' s', (tick exParse exWorker (Lost "unreachable") Answered Answered 10 10 10 "T11" exHalf) = (Done tt, (l', s')) /\
    joined l' s'.
Proof.
  destruct (ticking_worker_enrolled exParse exSign exWorker (30 * second) Waiting false 7 exHalf.1 exHalf.2)
    as (H1 & _ & H3); [exact exHalf_attended|].
  split; [exact H1|]. split; [unfold joined; vm_compute; discriminate|].
  destruct (H3 exHalf.2 (Lost "unreachable") 10 10 10 "T11")%Z as (l' & s' & t & E & _ & _ & _ & Hj & _);
    [reflexivity|discriminate|]. exists l', s'. split; [exact E|exact Hj].
Defined.

(** *** Images *)

Lemma evict_lookup hasStore pinned ttl now m d t :
  (evictImagesOnce hasStore pinned ttl now m).1 !! d = Some t <->
  m !! d = Some t /\ (d ∈ pinned \/ (now - ttl < t)%Z).
Proof.
  cbn. rewrite map_lookup_filter_Some. unfold idle. cbn. apply and_iff_compat_l.
  rewrite andb_false_iff, negb_false_iff, Z.leb_gt, existsb_exists. apply or_iff_compat_r. split.
  - intros (x & Hx & <-%String.eqb_eq). by apply list_elem_of_In.
  - intros Hd. exists d. rewrite String.eqb_refl. split; [by apply list_elem_of_In|done].
Qed.

Lemma evictTicks_lookup hasStore pinned ttl ticks d t : forall m,
  evictTicks hasStore pinned ttl ticks m !! d = Some t <->
  m !! d = Some t /\ (d ∈ pinned \/ forall now, now ∈ ticks -> (now - ttl < t)%Z).
Proof.
  induction ticks as [|now ticks IH]; intros m; cbn [evictTicks foldl].
  - split; [intros H; split; [done|]; right; intros now Hn; by apply elem_of_nil in Hn|naive_solver].
  - unfold evictTicks in IH. rewrite IH, evict_lookup. setoid_rewrite elem_of_cons. naive_solver.
Qed.

(** The times of the ticker of [evictImagesLoop] from [start] up to [T]. *)
Definition tickTimes (start ttl T : Z) : list Z :=
  map (fun k => start + Z.of_nat k * (ttl / 2))%Z (seq 1 (Z.to_nat ((T - start) / (ttl / 2)))).

(** An image is kept for the idle time and for at most half as long again.
    At any time [T], an image last used at [t] is still in the catalogue if
    [T] is less than the idle timeout after [t], and is gone if [T] is one and
    a half times the timeout after [t] or later; images the operator
    advertises always stay. *)
Theorem image_dwell hasStore pinned ttl start T m d t :
  (2 <= ttl)%Z -> (start <= t)%Z -> m !! d = Some t ->
  let m' := evictTicks hasStore pinned ttl (tickTimes start ttl T) m in
  (d ∈ pinned -> m' !! d = Some t) /\
  ((T < t + ttl)%Z -> m' !! d = Some t) /\
  (d ∉ pinned -> (t + ttl + ttl / 2 <= T)%Z -> m' !! d = None).
Proof.
  intros Httl Hst Hm m'. assert (1 <= ttl / 2)%Z as Hp by (apply Z.div_le_lower_bound; lia).
  pose proof (Z.mul_div_le (T - start) (ttl / 2) ltac:(lia)) as Hle.
  pose proof (Z.mul_succ_div_gt (T - start) (ttl / 2) ltac:(lia)) as Hgt. unfold m'.
  assert (forall now, now ∈ tickTimes start ttl T -> (now <= T)%Z) as Hub.
  { intros now (k & -> & Hk)%list_elem_of_fmap. apply elem_of_seq in Hk. nia. }
  split_and!.
  - intros Hd. apply evictTicks_lookup. auto.
  - intros HT. apply evictTicks_lookup. split; [done|]. right. intros now Hn. specialize (Hub now Hn). lia.
  - intros Hd HT. destruct (evictTicks _ _ _ _ m !! d) as [t'|] eqn:E; [|done].
    apply evictTicks_lookup in E as [E [?|Hn]]; [done|]. assert (t' = t) as -> by congruence.
    set (n := ((T - start) / (ttl / 2))%Z) in *.
    assert ((start + n * (ttl / 2)) ∈ tickTimes start ttl T)%Z as Hin.
    { apply list_elem_of_fmap. exists (Z.to_nat n). assert (1 <= n)%Z by nia. split; [rewrite Z2Nat.id; lia|].
      apply elem_of_seq. fold n. lia. }
    specialize (Hn _ Hin). nia.
Qed.

Lemma image_dwell_witness :
  evictTicks true ["base"] 10 (tickTimes 0 10 20) {[ "base" := 1%Z; "old" := 5%Z; "new" := 12%Z ]} !! "old" = None.
Proof.
  apply (image_dwell true ["base"] 10 0 20 {[ "base" := 1%Z; "old" := 5%Z; "new" := 12%Z ]} "old" 5);
    [lia|lia|reflexivity|apply not_elem_of_cons; split; [discriminate|apply not_elem_of_nil]|reflexivity || lia].
Defined.

(** *** Capacity *)

(** The reported capacity.  While the slots fit in 32 bits and no more
    compiles run than the load counter can hold, the worker reports the slots
    that are left, and none when it is over-committed; outside that range the
    product wraps around and a large worker can report no capacity. *)
Theorem capacity_exact cfg l :
  isInt32 (wcMaxActive cfg) -> isInt32 (wcMaxActive cfg * vmVCPUs (wcVM cfg)) -> (0 <= wcMaxActive cfg * vmVCPUs (wcVM cfg))%Z ->
  (0 <= lInflight l)%Z -> isInt32 (lInflight l) ->
  capacitySnapshot cfg l = (Z.max 0 (wcMaxActive cfg * vmVCPUs (wcVM cfg) - lInflight l), lInflight l).
Proof.
  intros H1 H2 H3 H4 H5. unfold capacitySnapshot. rewrite (int32_id (wcMaxActive cfg)), (int32_id (wcMaxActive cfg * vmVCPUs (wcVM cfg))) by done.
  rewrite int32_id by (unfold isInt32 in *; lia).
  destruct (Z.ltb_spec (wcMaxActive cfg * vmVCPUs (wcVM cfg) - lInflight l) 0); f_equal; lia.
Qed.

Lemma capacity_exact_witness : capacitySnapshot (exWorkerConfig "2GB" "10m") exLoop = (128, 0)%Z.
Proof. apply (capacity_exact (exWorkerConfig "2GB" "10m") exLoop); vm_compute; (split; congruence) || congruence. Defined.
