(* ===== verification/Daemon.v ===== *)
(** * Daemon: the per-user daemon, its client and the runner.

    [internal/daemon/daemon.go] accepts framed requests on a local socket,
    makes the paths of a command absolute, and serves it from the cache, a
    remote worker or the local compiler; [internal/daemon/client] is the other
    end of the socket and [internal/runner] what a build runs as its compiler.
    Requests with equal cache keys share one compile ([singleflight]). *)

From S2P Require Import Prelude Effects GoStrings GoPath GoTime Enum Invocation Parser CacheKey Rewrite Preprocess Manifest.
From S2P Require Import Store CompileCache Scheduler Pool Staging WorkerCAS Config Worker Dispatch Cluster.

(** ** Frames *)

(** [writeFrame] and [writeResponse]: the length in four bytes, then the
    payload. *)
Definition writeFrame (payload : string) : string := be_bytes 4 (Z.of_nat (slen payload)) +:+ payload.

(** [io.ReadFull] of [n] bytes. *)
Definition readFull (n : nat) (s : string) : option (string * string) :=
  if slen s <? n then None else Some (stake n s, sdrop n s).

(** [checkAuth]: what is left of the input, or the reason it was refused. *)
Definition checkAuth (authToken input : string) : result string :=
  if String.eqb authToken "" then Ok input
  else match readFull 4 input with
  | None => Err "read token length"
  | Some (header, rest) =>
      let length := be_value header in
      if (length =? 0)%Z || (1024 <? length)%Z then Err "invalid token length"
      else match readFull (Z.to_nat length) rest with
      | None => Err "read token"
      | Some (token, rest) => if String.eqb token authToken then Ok rest else Err "invalid token"
      end
  end.

Inductive ConnEnd := ClosedByClient | ReadFailed.

(** The loop of [handleConnection]: the messages that are handled, and how
    the connection ended.  A round takes at least four bytes of the input, so
    its length is fuel enough. *)
Fixpoint readMessages (fuel : nat) (input : string) : list string * ConnEnd :=
  match fuel with
  | 0 => ([], ReadFailed)
  | S n =>
      match readFull 4 input with
      | None => ([], ReadFailed)
      | Some (header, rest) =>
          let length := be_value header in
          if (length =? 0)%Z then ([], ClosedByClient)
          else match readFull (Z.to_nat length) rest with
          | None => ([], ReadFailed)
          | Some (message, rest) => let '(more, e) := readMessages n rest in (message :: more, e)
          end
      end
  end.

Definition handleConnection (authToken input : string) : result (list string * ConnEnd) :=
  let! rest := wrapErr "auth failed" (checkAuth authToken input) in
  Ok (readMessages (S (slen rest)) rest).

(** ** The answer on the wire *)

(** The fields of [CompileResponse] the daemon sets. *)
Record DaemonReply := mkDaemonReply {
  dyExitCode : Z;
  dyStdout : string;
  dyStderr : string
}.

Definition DaemonReply_empty : DaemonReply := mkDaemonReply 0 "" "".

(** How the client reads an answer: [client.Dispatch] after the request was
    sent. *)
Definition readReply (unmarshal : string -> result DaemonReply) (input : string) : result DaemonReply :=
  match readFull 4 input with
  | None => Err "read length"
  | Some (header, rest) =>
      let n := be_value header in
      if (n =? 0)%Z then Err "empty response from daemon"
      else match readFull (Z.to_nat n) rest with
      | None => Err "read payload"
      | Some (body, _) => wrapErr "unmarshal response" (unmarshal body)
      end
  end.

(** ** Commands *)

Definition pathFlags : list string :=
  ["-o"; "-I"; "-L"; "-isystem"; "-iquote"; "-isysroot"; "-include"; "-MF"; "-MQ"; "-MT"].
Definition nonPathValueFlags : list string := ["-x"; "-target"].

Inductive slot := Plain | ResolveNext | SkipNext.

Definition resolve (cwd p : string) : string := if isAbs p then p else join [cwd; p].

(** The loop of [resolveRelativePaths]; the two maps only ever hold the next
    index. *)
Fixpoint resolveFrom (cwd : string) (st : slot) (args : list string) : list string :=
  match args with
  | [] => []
  | a :: rest =>
      match st with
      | SkipNext => a :: resolveFrom cwd Plain rest
      | ResolveNext => resolve cwd a :: resolveFrom cwd Plain rest
      | Plain =>
          if existsb (String.eqb a) pathFlags then a :: resolveFrom cwd ResolveNext rest
          else if existsb (String.eqb a) nonPathValueFlags then a :: resolveFrom cwd SkipNext rest
          else if negb (hasPrefix a "-") then resolve cwd a :: resolveFrom cwd Plain rest
          else a :: resolveFrom cwd Plain rest
      end
  end.

Definition resolveRelativePaths (args : list string) (cwd : string) : list string := resolveFrom cwd Plain args.

(** The compiler a request names and its arguments; [None] is an index out of
    range. *)
Definition splitCommand (args : list string) : option (string * list string) :=
  match args with
  | [] => None
  | a0 :: rest =>
      let cmd := trimSuffix (base a0) ".exe" in
      if String.eqb cmd "hpcc" then
        match rest with
        | [] => None
        | a1 :: rest' => Some (trimSuffix (base a1) ".exe", rest')
        end
      else Some (cmd, rest)
  end.

Definition sideEffectBypassNotice : string :=
  esc +:+ "[33mhpcc: " +:+
  "this compile carries a flag (e.g. -save-temps, -gsplit-dwarf, " +:+
  "-fdump-*, --coverage) that writes output files alongside the .o " +:+
  "that hpcc can't currently round-trip through the cache/dispatch " +:+
  "path. Running locally so you get every file you asked for; this " +:+
  "TU and any like it won't hit the remote worker or the cache. " +:+
  "This notice appears once per daemon lifetime." +:+ esc +:+ "[0m" +:+ newline.

Definition redWarning (err : string) : string :=
  esc +:+ "[31m" +:+ "hpcc: remote dispatch failed (" +:+ err +:+ "); compiled locally" +:+ esc +:+ "[0m" +:+ newline.

(** ** The daemon *)

Record DaemonRequest := mkDaemonRequest {
  drArgs : list string;
  drCwd : string
}.

(** The dispatcher with the mesh it talks to, the cache stores, the compiler
    contexts made so far, the host's files and whether the notice was given. *)
Record DaemonState (M S : Type) := mkDaemonState {
  dmDispatcher : option (World M);
  dmStores : list S;
  dmContexts : gmap string Compiler;
  dmHost : FS;
  dmNotice : bool
}.
#[global] Arguments mkDaemonState {M S}.
#[global] Arguments dmDispatcher {M S}.
#[global] Arguments dmStores {M S}.
#[global] Arguments dmContexts {M S}.
#[global] Arguments dmHost {M S}.
#[global] Arguments dmNotice {M S}.

Definition set_dispatcher {M S} (w : World M) (d : DaemonState M S) : DaemonState M S :=
  mkDaemonState (Some w) (dmStores d) (dmContexts d) (dmHost d) (dmNotice d).
Definition set_dmStores {M S} (ss : list S) (d : DaemonState M S) : DaemonState M S :=
  mkDaemonState (dmDispatcher d) ss (dmContexts d) (dmHost d) (dmNotice d).
Definition set_contexts {M S} (cs : gmap string Compiler) (d : DaemonState M S) : DaemonState M S :=
  mkDaemonState (dmDispatcher d) (dmStores d) cs (dmHost d) (dmNotice d).
Definition set_dmHost {M S} (fs : FS) (d : DaemonState M S) : DaemonState M S :=
  mkDaemonState (dmDispatcher d) (dmStores d) (dmContexts d) fs (dmNotice d).
Definition set_dmNotice {M S} (d : DaemonState M S) : DaemonState M S :=
  mkDaemonState (dmDispatcher d) (dmStores d) (dmContexts d) (dmHost d) true.

(** The label of a request ([metrics.Result...]). *)
Inductive Served := ResultError | LocalHit | Remote | LocalInvoke | Bypass.

(** The files of the host by their absolute paths. *)
Definition filesOf (fs : FS) : gmap string string :=
  list_to_map (map (fun kv => (absOf kv.1, kv.2.1)) (map_to_list (fsFiles fs))).
Definition existsOn (fs : FS) (p : string) : bool :=
  bool_decide (comps p ∈ fsDirs fs) || bool_decide (is_Some (fsFiles fs !! comps p)).

Definition withStderr (prefix : string) (r : InvocationResult) : InvocationResult :=
  mkInvocationResult (resOutput r) (resStdout r) (prefix +:+ resStderr r) (resExitCode r) (resDuration r) (resExtras r).

(** The components of a path a process in [cwd] names. *)
Definition compsIn (cwd p : string) : list string := comps (if isAbs p then clean p else join [cwd; p]).

(** One extra output: its parents are made and it is written; errors are
    logged. *)
Definition writeExtra (procCwd cwd : string) (now : Z) (fs : FS) (kv : string * string) : FS :=
  let full := if negb (isAbs kv.1) && negb (String.eqb cwd "") then join [cwd; kv.1] else kv.1 in
  match mkdirAll (compsIn procCwd (dir full)) fs with
  | Err _ => fs
  | Ok fs1 => match writeFile (compsIn procCwd full) kv.2 now fs1 with Ok fs2 => fs2 | Err _ => fs1 end
  end.

(** The files [writeCompileResult] writes. *)
Definition writeOutputs (procCwd : string) (now : Z) (inv : Invocation) (r : InvocationResult) (fs : FS) : FS :=
  let fs1 := if negb (String.eqb (Output inv) "") && negb (String.eqb (resOutput r) "")
             then match writeFile (compsIn procCwd (Output inv)) (resOutput r) now fs with Ok f => f | Err _ => fs end
             else fs in
  foldl (writeExtra procCwd (Cwd inv) now) fs1 (map_to_list (resExtras r)).

Definition replyOf (r : InvocationResult) : DaemonReply :=
  mkDaemonReply (int32 (resExitCode r)) (resStdout r) (resStderr r).

(** What comes from outside in one request: the answers of the compiler when
    it only reads (preprocessing, dependency walks), the files a preprocessor
    leaves behind, the effect of a compile on the host, and the clocks. *)
Record DaemonJob := mkDaemonJob {
  djTool : FS -> Executor;
  djPrep : FS -> FS;
  djExec : list string -> string -> FS -> result (string * string * Z) * FS;
  djElapsed : Z;
  djNow : Z
}.

(** [LocalExecutor] after a command that answered [r] and left [fs]; the
    output is read from the daemon's own working directory. *)
Definition localExecutor (procCwd : string) (r : result (string * string * Z)) (fs : FS) : Executor := {|
  Run bin args extraEnv cwd := r;
  ReadOutput p := readHost procCwd fs p
|}.

(** [cache.TenantLocal]. *)
Definition TenantLocal : string := "local".

(** [NewDefaultDaemon]: the dispatcher, if there is to be one, and the tenant
    of the local cache. *)
Definition NewDefaultDaemon (config : result (bool * RemoteConfig)) (newDispatcher : RemoteConfig -> result Dispatcher)
    : option Dispatcher * string :=
  match config with
  | Err _ => (None, "")
  | Ok (enabled, cfg) =>
      let dp := if enabled then match newDispatcher cfg with Ok dp => Some dp | Err _ => None end else None in
      let tenantID := if enabled then rcTenantID cfg else "" in
      (dp, if String.eqb tenantID "" then TenantLocal else tenantID)
  end.

Section Server.
  Context {M S : Type} `{!Mesh M} `{!StoreOps S}.
  Context (blake3 : string -> string) (meta : Invocation -> InvocationResult -> string)
    (cfg : RemoteConfig) (sourceMode : Z)
    (httpPost : string -> gmap string string -> result HTTPResponse)
    (tokPath : result string) (saveOk : bool) (dialOk : string -> result unit)
    (newContext : string -> result Compiler) (identity : Compiler -> result string)
    (tenantID procCwd : string).

Definition getOrCreateContext (cmd : string) : act (DaemonState M S) Compiler := fun d =>
  match dmContexts d !! cmd with
  | Some c => (Done c, d)
  | None =>
      match newContext cmd with
      | Err e => (Failed e, d)
      | Ok c => (Done c, set_contexts (<[cmd := c]> (dmContexts d)) d)
      end
  end.

(** The cache key of an invocation in a local context. *)
Definition localContext (j : DaemonJob) (fs : FS) (c : Compiler) : KeyContext :=
  mkKeyContext sourceMode None (identity c) (Preprocess (exec := djTool j fs) blake3 c)
    (FindDependencies (exec := djTool j fs) c).
Definition localKey (j : DaemonJob) (fs : FS) (c : Compiler) (inv : Invocation) : result string :=
  default (Err "no key") (CacheKey blake3 (filesOf fs) (existsOn fs) (Ok procCwd) inv (localContext j fs c)).

Definition lookupLocal (j : DaemonJob) (c : Compiler) (inv : Invocation)
    : act (DaemonState M S) (option InvocationResult) := fun d =>
  if negb (Cacheable inv) then (Done None, d)
  else match CompileCache.Lookup (localKey j (dmHost d) c) (dmStores d) inv tenantID with
  | None => (Panicked, d)
  | Some (Ok hit) => (Done hit, d)
  | Some (Err _) => (Done None, d)
  end.

Definition storeLocal (j : DaemonJob) (c : Compiler) (inv : Invocation) (r : InvocationResult)
    : act (DaemonState M S) unit := fun d =>
  if negb (Cacheable inv) then (Done tt, d)
  else match CompileCache.Store (localKey j (dmHost d) c) (readHostOpt procCwd (dmHost d)) meta
               (dmStores d) inv r tenantID (djNow j) with
  | None => (Panicked, d)
  | Some (_, ss) => (Done tt, set_dmStores ss d)
  end.

(** The remote attempt: its result, or the warning for the fallback. *)
Definition tryRemote (j : DaemonJob) (c : Compiler) (inv : Invocation)
    : act (DaemonState M S) (InvocationResult + string) := fun d =>
  match dmDispatcher d with
  | None => (Done (inr ""), d)
  | Some w =>
      let after := if (sourceMode =? SourceModeCAS)%Z then dmHost d else djPrep j (dmHost d) in
      let '(o, w') := Dispatch (exec := djTool j (dmHost d)) blake3 cfg sourceMode httpPost tokPath saveOk dialOk
                        (filesOf (dmHost d)) (existsOn (dmHost d)) (Ok procCwd) (readHost procCwd after)
                        (djNow j) c inv w in
      let d' := set_dmHost after (set_dispatcher w' d) in
      match o with
      | Done r => (Done (inl r), d')
      | Failed e => (Done (inr (redWarning e)), d')
      | Panicked => (Panicked, d')
      end
  end.

Definition invokeLocal (j : DaemonJob) (c : Compiler) (inv : Invocation)
    : act (DaemonState M S) InvocationResult := fun d =>
  let '(r, fs) := djExec j (compilerPath c :: RawArgs inv) (Cwd inv) (dmHost d) in
  (match Invoke (exec := localExecutor procCwd r fs) (djElapsed j) c inv with
   | Ok res => Done res
   | Err e => Failed e
   end, set_dmHost fs d).

(** A result with the dependency files the compiler left. *)
Definition withDepFiles (fs : FS) (inv : Invocation) (r : InvocationResult) : InvocationResult :=
  match CollectDepEmissionExtras (readHost procCwd fs) inv with
  | None => r
  | Some extras => set_Extras (extras ∪ resExtras r) r
  end.

(** The closure [compile] of [handleRequest]. *)
Definition compile (j : DaemonJob) (c : Compiler) (inv : Invocation)
    : act (DaemonState M S) (Served * InvocationResult) :=
  let* hit := lookupLocal j c inv in
  match hit with
  | Some r => ret (LocalHit, r)
  | None =>
      let* remote := tryRemote j c inv in
      match remote with
      | inl r => let* _ := storeLocal j c inv r in ret (Remote, r)
      | inr warning =>
          let* r0 := invokeLocal j c inv in
          fun d =>
            let r := withDepFiles (dmHost d) inv (withStderr warning r0) in
            (let* _ := storeLocal j c inv r in ret (LocalInvoke, r)) d
      end
  end.

(** The key [handleRequest] shares a compile under; [None] when the key could
    not be computed. *)
Definition flightKey (j : DaemonJob) (fs : FS) (c : Compiler) (inv : Invocation) : option string :=
  if Cacheable inv then match localKey j fs c inv with Ok k => Some (hexEncode k) | Err _ => None end
  else Some "".

(** [d.compiles.Do(hash, compile)]: [joined] is the result of the call in
    flight under a key, if there is one; a request that joins it does not
    assign [outcome]. *)
Definition compileShared (j : DaemonJob) (joined : string -> option (result InvocationResult))
    (c : Compiler) (inv : Invocation) : act (DaemonState M S) (Served * InvocationResult) := fun d =>
  match flightKey j (dmHost d) c inv ≫= joined with
  | Some (Ok r) => (Done (ResultError, r), d)
  | Some (Err e) => (Failed e, d)
  | None => compile j c inv d
  end.

Definition errorReply (msg : string) : DaemonReply := mkDaemonReply 1 "" msg.

Definition casDispatchable (inv : Invocation) (d : DaemonState M S) : bool :=
  bool_decide (is_Some (dmDispatcher d)) && (sourceMode =? SourceModeCAS)%Z && DispatchableUnderCAS inv.

(** The compile that neither the cache nor a worker can serve. *)
Definition bypass (j : DaemonJob) (c : Compiler) (inv : Invocation)
    : act (DaemonState M S) (Served * InvocationResult) :=
  let* r := invokeLocal j c inv in
  fun d =>
    if HasUncapturedSideEffectFlag (RawArgs inv) && negb (dmNotice d)
    then (Done (Bypass, withStderr sideEffectBypassNotice r), set_dmNotice d)
    else (Done (Bypass, r), d).

(** [handleRequest] for a request that was decoded: the answer that is sent
    and the label that is counted. *)
Definition handleRequest (j : DaemonJob) (joined : string -> option (result InvocationResult))
    (req : DaemonRequest) : act (DaemonState M S) (DaemonReply * Served) := fun d =>
  match splitCommand (drArgs req) with
  | None => (Panicked, d)
  | Some (cmd, args) =>
      match getOrCreateContext cmd d with
      | (Panicked, d1) => (Panicked, d1)
      | (Failed e, d1) => (Done (errorReply ("new context: " +:+ e), ResultError), d1)
      | (Done c, d1) =>
          let args := if String.eqb (drCwd req) "" then args else resolveRelativePaths args (drCwd req) in
          match Parse (readHost procCwd (dmHost d1)) c args with
          | Err e => (Done (errorReply ("args_parse: " +:+ e), ResultError), d1)
          | Ok inv0 =>
              let inv := set_Cwd (drCwd req) inv0 in
              match (if negb (Cacheable inv) && negb (casDispatchable inv d1) then bypass j c inv
                     else compileShared j joined c inv) d1 with
              | (Panicked, d2) => (Panicked, d2)
              | (Failed e, d2) => (Done (errorReply ("compile: " +:+ e), ResultError), d2)
              | (Done (label, r), d2) =>
                  (Done (replyOf r, label), set_dmHost (writeOutputs procCwd (djNow j) inv r (dmHost d2)) d2)
              end
          end
      end
  end.
End Server.

(** ** The socket and the runner *)

(** The protobuf encoding of the two messages, by the library.  A request holds
    strings, and encoding it fails when one is not valid UTF-8; an answer holds
    a number and bytes. *)
Record Wire := mkWire {
  encodeRequest : DaemonRequest -> result string;
  decodeRequest : string -> result DaemonRequest;
  encodeReply : DaemonReply -> string;
  decodeReply : string -> result DaemonReply
}.

(** What the library documents: decoding is the inverse of encoding, for exit
    codes that are 32-bit numbers, and a field with its default value takes no
    bytes while any other takes some. *)
Class WireLaws (W : Wire) : Prop := {
  decode_request : forall r b, encodeRequest W r = Ok b -> decodeRequest W b = Ok r;
  decode_reply : forall r, isInt32 (dyExitCode r) -> decodeReply W (encodeReply W r) = Ok r;
  encode_request_set : forall r b, drArgs r <> [] -> encodeRequest W r = Ok b -> b <> "";
  encode_reply_default : encodeReply W DaemonReply_empty = ""
}.

(** Messages fit a 32-bit length. *)
Definition fits (s : string) : Prop := (Z.of_nat (slen s) < 2 ^ 32)%Z.

Section Runner.
  Context {M S : Type} `{!Mesh M} `{!StoreOps S}.
  Context (W : Wire) (blake3 : string -> string) (meta : Invocation -> InvocationResult -> string)
    (cfg : RemoteConfig) (sourceMode : Z)
    (httpPost : string -> gmap string string -> result HTTPResponse)
    (tokPath : result string) (saveOk : bool) (dialOk : string -> result unit)
    (newContext : string -> result Compiler) (identity : Compiler -> result string)
    (authToken tenantID procCwd : string).

(** [client.Dispatch] against a daemon: the token and the request are sent,
    the daemon answers, the answer is read.  A daemon that panics is gone and
    sends nothing. *)
Definition dispatchToDaemon (j : DaemonJob) (joined : string -> option (result InvocationResult)) (token : string)
    (req : DaemonRequest) : act (DaemonState M S) DaemonReply := fun d =>
  match encodeRequest W req with
  | Err e => (Failed ("marshal request: " +:+ e), d)
  | Ok payload =>
  let input := writeFrame token +:+ writeFrame payload in
  let closed := (Failed "read length", d) in
  match handleConnection authToken input with
  | Ok (message :: _, _) =>
      let answer := fun (r : DaemonReply) (d' : DaemonState M S) =>
        (match readReply (decodeReply W) (writeFrame (encodeReply W r)) with
         | Ok r => Done r
         | Err e => Failed e
         end, d') in
      match decodeRequest W message with
      | Err e => answer (errorReply ("unmarshal: " +:+ e)) d
      | Ok req =>
          match handleRequest blake3 meta cfg sourceMode httpPost tokPath saveOk dialOk newContext identity
                  tenantID procCwd j joined req d with
          | (Done (r, _), d') => answer r d'
          | (_, d') => (Failed "read length", d')
          end
      end
  | _ => closed
  end
  end.

(** What [Run] does without a daemon, in the directory [cwd]: stdout, stderr
    and the exit code of the process. *)
Definition runInProcess (j : DaemonJob) (cwd : string) (c : Compiler) (inv : Invocation)
    : act (DaemonState M S) DaemonReply :=
  let finish := fun (r : InvocationResult) (d : DaemonState M S) =>
    (Done (mkDaemonReply (resExitCode r) (resStdout r) (resStderr r)),
     set_dmHost (writeOutputs cwd (djNow j) inv r (dmHost d)) d) in
  let* hit := lookupLocal blake3 sourceMode identity TenantLocal cwd j c inv in
  match hit with
  | Some r => finish r
  | None =>
      let* r0 := invokeLocal cwd j c inv in
      if Cacheable inv then fun d =>
        let r := withDepFiles cwd (dmHost d) inv r0 in
        (let* _ := storeLocal blake3 meta sourceMode identity TenantLocal cwd j c inv r in finish r) d
      else finish r0
  end.

(** [Run(ctx, args)] in the directory [cwd]; [daemon] is the token of the
    running daemon, if [client.Load] finds one. *)
Definition runnerRun (jd j : DaemonJob) (joined : string -> option (result InvocationResult)) (daemon : option string)
    (cwd : string) (c : Compiler) (args : list string) : act (DaemonState M S) DaemonReply :=
  let* inv := check (fun d => Parse (readHost cwd (dmHost d)) c args) in
  match (if ReadsStdin inv then None else daemon) with
  | None => runInProcess j cwd c inv
  | Some token => fun d =>
      match dispatchToDaemon jd joined token (mkDaemonRequest (compilerName c :: args) cwd) d with
      | (Done r, d') => (Done r, d')
      | (_, d') => runInProcess j cwd c inv d'
      end
  end.
End Runner.

(** ** Frames: facts *)

Lemma readFull_app a b : readFull (slen a) (a +:+ b) = Some (a, b).
Proof.
  unfold readFull. rewrite slen_app. destruct (Nat.ltb_spec (slen a + slen b) (slen a)); [lia|].
  by rewrite stake_app, sdrop_app.
Qed.

Lemma readFull_frame s rest :
  fits s -> readFull 4 (writeFrame s +:+ rest) = Some (be_bytes 4 (Z.of_nat (slen s)), s +:+ rest).
Proof.
  intros. unfold writeFrame. rewrite sapp_assoc.
  rewrite <- (slen_be_bytes 4 (Z.of_nat (slen s))) at 1. apply readFull_app.
Qed.

(** The frames of a list of messages. *)
Definition frames (ms : list string) : string := foldr (fun m s => writeFrame m +:+ s) "" ms.

(** Why a connection ends in front of [rest]: a zero length, or a message that
    is cut off. *)
Definition endsAt (rest : string) (e : ConnEnd) : Prop :=
  match e with
  | ClosedByClient => exists r, rest = be_bytes 4 0 +:+ r
  | ReadFailed =>
      slen rest < 4 \/
      exists header body, rest = header +:+ body /\ slen header = 4 /\
        be_value header <> 0%Z /\ (Z.of_nat (slen body) < be_value header)%Z
  end.

Lemma readFull_Some n s a b : readFull n s = Some (a, b) <-> s = a +:+ b /\ slen a = n.
Proof.
  split.
  - unfold readFull. destruct (Nat.ltb_spec (slen s) n); [done|]. intros [= <- <-].
    by rewrite stake_sdrop, slen_stake by lia.
  - intros [-> <-]. apply readFull_app.
Qed.

Lemma readFull_None n s : readFull n s = None <-> slen s < n.
Proof. unfold readFull. destruct (Nat.ltb_spec (slen s) n); split; try done; lia. Qed.

(** A four-byte header and a body of its length are a frame. *)
Lemma header_frame header body :
  slen header = 4 -> slen body = Z.to_nat (be_value header) -> writeFrame body = header +:+ body /\ fits body.
Proof.
  intros Hh Hb. pose proof (be_value_range header) as Hr. rewrite Hh in Hr. unfold writeFrame, fits.
  assert (Z.of_nat (slen body) = be_value header) as -> by lia. rewrite <- Hh at 1.
  rewrite be_bytes_value. split; [done|lia].
Qed.

Lemma readMessages_spec n : forall input ms e,
  slen input < n -> readMessages n input = (ms, e) ->
  exists rest, input = frames ms +:+ rest /\ Forall (fun m => m <> "" /\ fits m) ms /\ endsAt rest e.
Proof.
  induction n as [|n IH]; intros input ms e Hn H; [lia|]. cbn [readMessages] in H.
  destruct (readFull 4 input) as [[header r1]|] eqn:E1.
  2:{ injection H as <- <-. exists input. apply readFull_None in E1. repeat split; [constructor|by left]. }
  apply readFull_Some in E1 as [-> Hh]. destruct (Z.eqb_spec (be_value header) 0) as [H0|H0].
  { injection H as <- <-. exists (header +:+ r1). repeat split; [constructor|]. exists r1.
    rewrite <- H0, <- Hh at 1. by rewrite be_bytes_value. }
  destruct (readFull (Z.to_nat (be_value header)) r1) as [[m r2]|] eqn:E2.
  - apply readFull_Some in E2 as [-> Hm]. destruct (readMessages n r2) as [more e'] eqn:Er.
    injection H as <- <-. destruct (header_frame _ _ Hh Hm) as [Hf Hfit].
    destruct (IH r2 more e') as (rest & -> & Hall & He); [rewrite !slen_app in Hn; lia|done|].
    exists rest. cbn [frames foldr]. rewrite Hf, !sapp_assoc. repeat split; [|done].
    constructor; [|done]. split; [|done]. pose proof (be_value_range header). intros ->. cbn in Hm. lia.
  - injection H as <- <-. exists (header +:+ r1). repeat split; [constructor|]. right.
    exists header, r1. apply readFull_None in E2. pose proof (be_value_range header). repeat split; [done..|lia].
Qed.

Lemma readFull_header s rest :
  fits s -> readFull 4 (writeFrame s +:+ rest) = Some (be_bytes 4 (Z.of_nat (slen s)), s +:+ rest) /\
  be_value (be_bytes 4 (Z.of_nat (slen s))) = Z.of_nat (slen s).
Proof. intros H. split; [by apply readFull_frame|by apply be4]. Qed.

Lemma readMessages_frames ms : forall n rest e,
  Forall (fun m => m <> "" /\ fits m) ms -> endsAt rest e -> slen (frames ms +:+ rest) < n ->
  readMessages n (frames ms +:+ rest) = (ms, e).
Proof.
  induction ms as [|m ms IH]; intros n rest e Hall He Hn; (destruct n as [|n]; [lia|]); cbn [readMessages].
  - cbn [frames foldr]. destruct e as [|]; cbn [endsAt] in He.
    + destruct He as [r ->]. change (String.append "" ?s) with s.
      rewrite <- (slen_be_bytes 4 0) at 1. by rewrite readFull_app.
    + destruct He as [H4|(header & body & -> & Hh & H0 & Hb)]; change (String.append "" ?s) with s.
      * by rewrite (proj2 (readFull_None _ _) H4).
      * rewrite <- Hh at 1. rewrite readFull_app. rewrite (proj2 (Z.eqb_neq _ _) H0).
        by rewrite (proj2 (readFull_None _ _)) by lia.
  - apply Forall_cons in Hall as [[Hm Hfit] Hall].
    change (frames (m :: ms)) with (writeFrame m +:+ frames ms) in *. rewrite sapp_assoc in Hn |- *.
    destruct (readFull_header m (frames ms +:+ rest) Hfit) as [-> ->].
    destruct (Z.eqb_spec (Z.of_nat (slen m)) 0) as [H0|_]; [destruct m; [done|cbn in H0; lia]|].
    rewrite Nat2Z.id, readFull_app, (IH n rest e Hall He); [done|].
    unfold writeFrame in Hn. rewrite !slen_app in Hn. rewrite slen_be_bytes, slen_app in *. lia.
Qed.

Lemma checkAuth_spec tok input rest :
  tok <> "" -> checkAuth tok input = Ok rest <-> slen tok <= 1024 /\ input = writeFrame tok +:+ rest.
Proof.
  intros Ht. unfold checkAuth. rewrite (proj2 (String.eqb_neq _ _) Ht). split.
  - destruct (readFull 4 input) as [[h r1]|] eqn:E1; [|done]. apply readFull_Some in E1 as [-> Hh].
    destruct (_ || _) eqn:El; [done|]. apply orb_false_iff in El as [H0 H1].
    destruct (readFull _ r1) as [[t r2]|] eqn:E2; [|done]. apply readFull_Some in E2 as [-> Hl].
    destruct (String.eqb_spec t tok) as [->|]; [|done]. intros [= <-].
    destruct (header_frame _ _ Hh Hl) as [Hf _]. rewrite Hf, sapp_assoc. split; [|done].
    apply Z.ltb_ge in H1. lia.
  - intros [Hl ->]. assert (fits tok) as Hfit by (unfold fits; lia).
    destruct (readFull_header tok rest Hfit) as [-> ->].
    destruct (Z.eqb_spec (Z.of_nat (slen tok)) 0) as [H0|_]; [destruct tok; [done|cbn in H0; lia]|].
    destruct (Z.ltb_spec 1024 (Z.of_nat (slen tok))); [lia|]. cbn [orb].
    by rewrite Nat2Z.id, readFull_app, String.eqb_refl.
Qed.

#[global] Instance DaemonReply_eq_dec : EqDecision DaemonReply.
Proof. solve_decision. Defined.

(** ** Sharing: facts *)

Section ServerFacts.
  Context {M S : Type} `{!Mesh M} `{!StoreOps S}.
  Context (blake3 : string -> string) (meta : Invocation -> InvocationResult -> string)
    (cfg : RemoteConfig) (sourceMode : Z)
    (httpPost : string -> gmap string string -> result HTTPResponse)
    (tokPath : result string) (saveOk : bool) (dialOk : string -> result unit)
    (newContext : string -> result Compiler) (identity : Compiler -> result string)
    (tenantID procCwd : string).
  #[local] Notation lookupL := (lookupLocal (M := M) (S := S) blake3 sourceMode identity tenantID procCwd).
  #[local] Notation storeL := (storeLocal (M := M) (S := S) blake3 meta sourceMode identity tenantID procCwd).
  #[local] Notation compileL := (compile (M := M) (S := S) blake3 meta cfg sourceMode httpPost tokPath saveOk dialOk identity
    tenantID procCwd).

Lemma tryRemote_stores j c inv (d d' : DaemonState M S) o :
  tryRemote blake3 cfg sourceMode httpPost tokPath saveOk dialOk procCwd j c inv d = (o, d') ->
  dmStores d' = dmStores d.
Proof.
  unfold tryRemote. destruct (dmDispatcher d); [|by intros [= _ <-]].
  destruct (Dispatch _ _ _ _ _ _ _ _ _ _ _ _ _ _ _) as [[] ?]; by intros [= _ <-].
Qed.

(** A compile that was not a hit ends with its own store. *)
Lemma compile_stores j c inv (d d' : DaemonState M S) label r :
  compileL j c inv d = (Done (label, r), d') -> label <> LocalHit ->
  exists d0, storeL j c inv r d0 = (Done tt, d') /\ dmStores d0 = dmStores d.
Proof.
  unfold compile. intros (hit & d1 & H1 & H)%bind_Done Hl.
  assert (d1 = d) as -> by (unfold lookupLocal in H1; repeat case_match; congruence).
  destruct hit; [apply (f_equal fst) in H; cbn in H; congruence|].
  apply bind_Done in H as (o & d2 & H2%tryRemote_stores & H). destruct o as [r1|wn].
  - apply bind_Done in H as ([] & d3 & H3 & [= _ <- <-]). by exists d2.
  - apply bind_Done in H as (r0 & d3 & H3 & H). cbn beta zeta in H.
    apply bind_Done in H as ([] & d4 & H4 & [= _ <- <-]). exists d3. split; [done|].
    unfold invokeLocal in H3. destruct (djExec _ _ _ _). by injection H3 as _ <-.
Qed.

(** What a store leaves is found again. *)
Lemma stored_found `{!StoreLaws S} j j2 c inv (d0 d' d2 : DaemonState M S) r s rest k :
  entryWrites meta (s :: rest) inv r tenantID k (djNow j) -> tenantID <> "" -> Cacheable inv = true -> Output inv <> "" ->
  storeL j c inv r d0 = (Done tt, d') -> dmStores d0 = s :: rest ->
  localKey blake3 sourceMode identity procCwd j (dmHost d') c inv = Ok k -> k <> "" ->
  resExitCode r = 0%Z -> resOutput r <> "" -> extrasFit (resExtras r) ->
  (resExtras r = ∅ -> extrasOf s (tenantNs tenantID) k = ∅) ->
  dmStores d2 = dmStores d' -> localKey blake3 sourceMode identity procCwd j2 (dmHost d2) c inv = Ok k ->
  lookupL j2 c inv d2
  = (Done (Some (mkInvocationResult (resOutput r) (resStdout r) (resStderr r) 0 0 (resExtras r))), d2).
Proof.
  intros Hp Ht Hc Ho Hs Hst Hk Hk0 He Hr Hf Hx H2 Hk2. unfold storeLocal in Hs. unfold lookupLocal.
  rewrite Hc in Hs |- *. cbn [negb] in Hs |- *.
  destruct (CompileCache.Store _ _ _ _ _ _ _ _) as [[rr ss]|] eqn:Est; [|done]. injection Hs as <-.
  cbn [dmHost dmStores set_dmStores] in Hk, H2. rewrite Hst in Est.
  assert (rr = Ok tt) as -> by (eapply Store_ok; [exact Hp|exact Ht|exact Hk|exact Hr|exact Est]).
  pose proof Est as E2. apply (Store_replays _ _ _ _ _ _ _ _ _ _ k) in E2; try done.
  rewrite (proj2 (String.eqb_neq _ _) Ho) in E2. rewrite H2.
  rewrite (Lookup_key _ (localKey blake3 sourceMode identity procCwd j (dmHost d0) c)), E2 by congruence. done.
Qed.
End ServerFacts.

(** A client that sends its token and one message. *)
Lemma handleConnection_one tok m :
  tok <> "" -> slen tok <= 1024 -> m <> "" -> fits m ->
  handleConnection tok (writeFrame tok +:+ writeFrame m) = Ok ([m], ReadFailed).
Proof.
  intros Ht Hl Hm Hf. unfold handleConnection. rewrite (proj2 (checkAuth_spec tok _ _ Ht)) by done.
  cbn [wrapErr rbind]. f_equal. assert (writeFrame m = frames [m] +:+ "") as E.
  { cbn [frames foldr]. by rewrite !sapp_nil_r. }
  rewrite E. apply readMessages_frames; [by repeat constructor|left; cbn; lia|lia].
Qed.

(** What a client reads of an answer the daemon sent. *)
Lemma readReply_frame W `{!WireLaws W} r :
  fits (encodeReply W r) -> isInt32 (dyExitCode r) ->
  readReply (decodeReply W) (writeFrame (encodeReply W r))
  = if bool_decide (r = DaemonReply_empty) then Err "empty response from daemon" else Ok r.
Proof.
  intros Hf Hi. unfold readReply. rewrite <- (sapp_nil_r (writeFrame _)).
  destruct (readFull_header _ "" Hf) as [-> ->]. case_bool_decide as Hr.
  { by rewrite Hr, encode_reply_default. }
  destruct (Z.eqb_spec (Z.of_nat (slen (encodeReply W r))) 0) as [H0|_].
  - destruct Hr. assert (encodeReply W r = "") as E by (destruct (encodeReply W r); [done|cbn in H0; lia]).
    pose proof (decode_reply r Hi) as D. rewrite E, <- encode_reply_default, decode_reply in D by done. congruence.
  - rewrite Nat2Z.id, readFull_app. by rewrite decode_reply.
Qed.

(** The exit code of an answer is a 32-bit number. *)
Lemma handleRequest_code {M S} `{!Mesh M, !StoreOps S} blake3 meta cfg sourceMode httpPost tokPath saveOk dialOk newContext identity
    tenantID procCwd j joined req (d d' : DaemonState M S) r label :
  handleRequest blake3 meta cfg sourceMode httpPost tokPath saveOk dialOk newContext identity tenantID procCwd j joined req d = (Done (r, label), d') ->
  isInt32 (dyExitCode r).
Proof.
  assert (isInt32 1) as H1 by by vm_compute. unfold handleRequest. destruct (splitCommand _) as [[cmd args]|]; [|done].
  destruct (getOrCreateContext _ _ _) as [[c|e|] d1]; [|by intros [= <- _ _]|done]. destruct (Parse _ _ _) as [inv0|e]; [|by intros [= <- _ _]].
  match goal with |- context [match ?a d1 with _ => _ end] => destruct (a d1) as [[[l r0]|e|] d2] end; [|by intros [= <- _ _]|done].
  intros H. apply (f_equal fst) in H. cbn [fst] in H. injection H as <- _. apply int32_range.
Qed.

(** ** Properties *)

(** A connection is exactly its frames.  A daemon with a token handles the
    messages [ms] of a connection if and only if the client sent a frame with
    that very token (of at most 1024 bytes), then one frame for each message,
    none of them empty, and then a zero length or a message that is cut off;
    so no byte is handled that does not follow the token, and messages are
    handled whole and in order. *)
Theorem connection_exact tok input ms e :
  tok <> "" ->
  handleConnection tok input = Ok (ms, e) <->
  slen tok <= 1024 /\ exists rest, input = writeFrame tok +:+ frames ms +:+ rest /\
    Forall (fun m => m <> "" /\ fits m) ms /\ endsAt rest e.
Proof.
  intros Ht. unfold handleConnection. split.
  - destruct (checkAuth tok input) as [rest|] eqn:E; [|done]. apply checkAuth_spec in E as [Hl ->]; [|done].
    cbn [wrapErr rbind]. intros H. assert (readMessages (S (slen rest)) rest = (ms, e)) as H1 by congruence. clear H.
    apply readMessages_spec in H1 as (r & -> & Hall & He); [|lia]. eauto 6.
  - intros (Hl & rest & -> & Hall & He). rewrite (proj2 (checkAuth_spec tok _ _ Ht)) by done.
    cbn [wrapErr rbind]. f_equal. apply readMessages_frames; [done..|lia].
Qed.

Lemma connection_exact_witness :
  handleConnection "tok" (writeFrame "tok" +:+ frames ["a"; "bc"] +:+ be_bytes 4 0) = Ok (["a"; "bc"], ClosedByClient).
Proof.
  apply (connection_exact "tok"); [discriminate|]. split; [cbn; lia|]. exists (be_bytes 4 0).
  split; [done|]. split; [|by exists ""]. repeat constructor; discriminate.
Defined.

(** C15: What a build gets through the daemon.  A request that cannot be encoded
    is not sent, and the run compiles in its own process.  When the daemon
    handles the request of a run, an answer with a non-zero exit code or some output is
    relayed as it is; but an answer with exit code 0 and nothing on stdout and
    stderr takes no bytes on the wire, the client takes its zero length for an
    error, and the run compiles again in its own process, after the daemon has
    done all its work. *)
Theorem run_with_daemon {M S} `{!Mesh M, !StoreOps S} W `{!WireLaws W} blake3 meta cfg sourceMode httpPost tokPath
    saveOk dialOk newContext identity authToken tenantID procCwd jd j joined cwd c args inv
    (d d' : DaemonState M S) r label :
  let req := mkDaemonRequest (compilerName c :: args) cwd in
  authToken <> "" -> slen authToken <= 1024 -> (forall b, encodeRequest W req = Ok b -> fits b) -> fits (encodeReply W r) ->
  Parse (readHost cwd (dmHost d)) c args = Ok inv -> ReadsStdin inv = false ->
  handleRequest blake3 meta cfg sourceMode httpPost tokPath saveOk dialOk newContext identity tenantID procCwd
    jd joined req d = (Done (r, label), d') ->
  runnerRun W blake3 meta cfg sourceMode httpPost tokPath saveOk dialOk newContext identity authToken tenantID procCwd
    jd j joined (Some authToken) cwd c args d
  = if is_ok (encodeRequest W req)
    then if bool_decide (r = DaemonReply_empty) then runInProcess blake3 meta sourceMode identity j cwd c inv d' else (Done r, d')
    else runInProcess blake3 meta sourceMode identity j cwd c inv d.
Proof.
  intros req Ht Hl Hreq Hrep Hp Hs Hh. unfold runnerRun, bind, check. rewrite Hp, Hs.
  unfold dispatchToDaemon. fold req. destruct (encodeRequest W req) as [payload|e] eqn:E; [|done]. cbn [is_ok].
  rewrite (handleConnection_one authToken payload) by (done || (by apply (encode_request_set req)) || by apply Hreq).
  rewrite (decode_request _ _ E), Hh, (readReply_frame W r Hrep) by by eapply handleRequest_code. by case_bool_decide.
Qed.

(** An encoding that meets the laws: a string is its bytes, each after a 1,
    and a final 0. *)
Fixpoint enc1 (s : string) : string :=
  match s with
  | EmptyString => "0"
  | String c t => String "1"%char (String c (enc1 t))
  end.
Fixpoint dec1 (s : string) : option (string * string) :=
  match s with
  | String f (String c t as u) =>
      if Ascii.eqb f "0"%char then Some ("", u)
      else match dec1 t with Some (x, rest) => Some (String c x, rest) | None => None end
  | String _ EmptyString => Some ("", "")
  | EmptyString => None
  end.
Lemma dec1_enc1 s rest : dec1 (enc1 s +:+ rest) = Some (s, rest).
Proof. induction s as [|c s IH]; [by destruct rest|]. cbn. by rewrite IH. Qed.

Fixpoint posString (p : positive) : string :=
  match p with
  | xH => ""
  | xO q => String "0"%char (posString q)
  | xI q => String "1"%char (posString q)
  end.
Fixpoint stringPos (s : string) : positive :=
  match s with
  | EmptyString => xH
  | String c t => if Ascii.eqb c "0"%char then xO (stringPos t) else xI (stringPos t)
  end.
Lemma stringPos_posString p : stringPos (posString p) = p.
Proof. induction p as [p IH|p IH|]; cbn; by rewrite ?IH. Qed.

Definition encZ (z : Z) : string :=
  match z with Z0 => "" | Zpos p => String "+"%char (posString p) | Zneg p => String "-"%char (posString p) end.
Definition decZ (s : string) : Z :=
  match s with
  | EmptyString => 0
  | String c t => if Ascii.eqb c "+"%char then Zpos (stringPos t) else Zneg (stringPos t)
  end.
Lemma decZ_encZ z : decZ (encZ z) = z.
Proof. destruct z; cbn; by rewrite ?stringPos_posString. Qed.

Fixpoint encList (ss : list string) : string :=
  match ss with [] => "" | x :: r => enc1 x +:+ encList r end.
Fixpoint decList (fuel : nat) (s : string) : list string :=
  match fuel, dec1 s with
  | S n, Some (x, rest) => x :: decList n rest
  | _, _ => []
  end.
Lemma decList_encList ss : forall n, slen (encList ss) <= n -> decList n (encList ss) = ss.
Proof.
  induction ss as [|x ss IH]; intros n Hn; [by destruct n|]. cbn [encList] in *. rewrite slen_app in Hn.
  assert (slen (enc1 x) <> 0) by by destruct x. destruct n as [|n]; [lia|]. cbn [decList].
  rewrite dec1_enc1, IH by lia. done.
Qed.

Definition exWire : Wire := {|
  encodeRequest r := Ok (encList (drCwd r :: drArgs r));
  decodeRequest s :=
    match decList (slen s) s with c :: a => Ok (mkDaemonRequest a c) | [] => Err "bad request" end;
  encodeReply r :=
    if bool_decide (r = DaemonReply_empty) then "" else encList [encZ (dyExitCode r); dyStdout r; dyStderr r];
  decodeReply s :=
    match decList (slen s) s with
    | [e; o; x] => Ok (mkDaemonReply (decZ e) o x)
    | _ => Ok DaemonReply_empty
    end
|}.

#[export] Instance exWire_laws : WireLaws exWire.
Proof.
  split.
  - intros [a c] b. unfold exWire, encodeRequest, decodeRequest. intros E. change (Ok (encList (c :: a)) = Ok b) in E. assert (b = encList (c :: a)) as -> by congruence. by rewrite decList_encList.
  - intros [e o x] _. unfold exWire, encodeReply, decodeReply. case_bool_decide as E; [by rewrite E|].
    rewrite decList_encList by done. by rewrite decZ_encZ.
  - intros [a c] b _. cbn. intros [= <-]. by destruct c.
  - done.
Qed.

(** A host with one source file whose compile is silent. *)
Definition exHost : FS := mkFS {[ []; ["p"] ]} {[ ["p"; "main.c"] := ("int x;", 1%Z) ]}.
Definition exPrep : Executor := {|
  Run bin args env cwd := Ok ("int x;", "", 0%Z);
  ReadOutput p := Err "no output"
|}.

(** The compiler writes main.o and says [msg]. *)
Definition exLocalJob (msg : string) : DaemonJob :=
  mkDaemonJob (fun _ => exPrep) (fun fs => fs)
    (fun argv cwd fs => match writeFile ["p"; "main.o"] "obj" 2 fs with
                        | Ok fs' => (Ok ("", msg, 0%Z), fs')
                        | Err e => (Err e, fs)
                        end) 3 2.
Definition exLocal : DaemonState (Cluster string MemStore) MemStore := mkDaemonState None [∅] ∅ exHost false.
Definition exArgs : list string := ["-c"; "main.c"; "-o"; "main.o"].

#[local] Existing Instances exMesh mem_ops.
Definition exIdentity (c : Compiler) : result string := Ok "gcc-13".
Definition exHandle (msg : string) (d : DaemonState (Cluster string MemStore) MemStore) :=
  handleRequest sumHash noMeta exRemote SourceModePreprocessed noPost (Ok "/t") true (fun _ => Ok tt) Detect
    exIdentity "acme" "/" (exLocalJob msg) (fun _ => None) (mkDaemonRequest ("gcc" :: exArgs) "/p") d.
Definition exAfter : DaemonState (Cluster string MemStore) MemStore := (exHandle "" exLocal).2.
Definition exParsed : Invocation :=
  match ParseGNU (fun _ => Err "no file") exArgs with Ok i => i | Err _ => NewInvocation end.

Lemma run_with_daemon_witness :
  exHandle "" exLocal = (Done (DaemonReply_empty, LocalInvoke), exAfter) /\
  runnerRun exWire sumHash noMeta exRemote SourceModePreprocessed noPost (Ok "/t") true (fun _ => Ok tt) Detect
    exIdentity "tok" "acme" "/" (exLocalJob "") (exLocalJob "") (fun _ => None) (Some "tok") "/p" exGcc exArgs exLocal
  = runInProcess sumHash noMeta SourceModePreprocessed exIdentity (exLocalJob "") "/p" exGcc exParsed exAfter.
Proof.
  assert (exHandle "" exLocal = (Done (DaemonReply_empty, LocalInvoke), exAfter)) as H.
  { assert ((exHandle "" exLocal).1 = Done (DaemonReply_empty, LocalInvoke)) as E by (vm_compute; reflexivity).
    unfold exAfter. by rewrite <- E, <- surjective_pairing. }
  split; [exact H|].
  assert (Parse (readHost "/p" (dmHost exLocal)) exGcc exArgs = Ok exParsed) as Hp by (vm_compute; reflexivity).
  assert (ReadsStdin exParsed = false) as Hs by (vm_compute; reflexivity).
  assert (forall b, encodeRequest exWire (mkDaemonRequest ("gcc" :: exArgs) "/p") = Ok b -> fits b) as Hf by (intros b [= <-]; vm_compute; reflexivity).
  assert (fits (encodeReply exWire DaemonReply_empty)) as Hf' by (vm_compute; reflexivity).
  pose proof (@run_with_daemon _ _ exMesh mem_ops exWire exWire_laws sumHash noMeta exRemote SourceModePreprocessed
    noPost (Ok "/t") true (fun _ => Ok tt) Detect exIdentity "tok" "acme" "/" (exLocalJob "") (exLocalJob "")
    (fun _ => None) "/p" exGcc exArgs exParsed exLocal exAfter DaemonReply_empty LocalInvoke) as T.
  rewrite bool_decide_eq_true_2 in T by reflexivity.
  apply T; [discriminate|apply Nat.leb_le; reflexivity|exact Hf|exact Hf'|exact Hp|exact Hs|exact H].
Defined.

(** C16: A warm daemon repeats the cold answer.  After a compile that was not a
    hit, remote or local, ended with exit code 0 and output bytes, and whose
    entry was written, a later request for the same invocation with the same
    key is a local hit with the same output, streams (the fallback warning
    included, if there was one) and extra files, and changes nothing: neither
    the compiler nor a worker is asked.  The invocation is cacheable and names
    an output, there is a tenant, a store and a non-empty key, and the extra
    files have lengths that fit the 32-bit fields of their encoding.  Writing
    this one entry into the stores as they were is supposed to succeed, since
    the code only logs a failure; and when the compile left no extra files the
    first store must hold none under this key, since the code does not remove
    those of an older entry. *)
Theorem daemon_replays {M S} `{!Mesh M, !StoreOps S, !StoreLaws S} blake3 meta cfg sourceMode httpPost tokPath saveOk
    dialOk identity tenantID procCwd j j2 c inv (d d' d2 : DaemonState M S) label r s rest k :
  tenantID <> "" -> Cacheable inv = true -> Output inv <> "" -> dmStores d = s :: rest ->
  compile blake3 meta cfg sourceMode httpPost tokPath saveOk dialOk identity tenantID procCwd j c inv d
    = (Done (label, r), d') ->
  label <> LocalHit -> resExitCode r = 0%Z -> resOutput r <> "" -> extrasFit (resExtras r) ->
  (resExtras r = ∅ -> extrasOf s (tenantNs tenantID) k = ∅) ->
  localKey blake3 sourceMode identity procCwd j (dmHost d') c inv = Ok k -> k <> "" ->
  entryWrites meta (dmStores d) inv r tenantID k (djNow j) ->
  dmStores d2 = dmStores d' -> localKey blake3 sourceMode identity procCwd j2 (dmHost d2) c inv = Ok k ->
  compile blake3 meta cfg sourceMode httpPost tokPath saveOk dialOk identity tenantID procCwd j2 c inv d2
  = (Done (LocalHit, mkInvocationResult (resOutput r) (resStdout r) (resStderr r) 0 0 (resExtras r)), d2).
Proof.
  intros Ht Hc Ho Hs Hrun Hl He Hr Hf Hx Hk Hk0 Hp H2 Hk2. rewrite Hs in Hp.
  destruct (compile_stores _ _ _ _ _ _ _ _ _ _ _ _ _ _ _ _ _ _ Hrun Hl) as (d0 & Hst & Hd0).
  assert (dmStores d0 = s :: rest) as Hd1 by congruence.
  unfold compile, bind. by rewrite (stored_found _ _ _ _ _ _ j j2 c inv d0 d' d2 r s rest k) by done.
Qed.

Definition exInv : Invocation := set_Cwd "/p" (set_Output "/p/main.o"
  (match ParseGNU (fun _ => Err "no file") (resolveRelativePaths exArgs "/p") with Ok i => i | Err _ => NewInvocation end)).
Definition exCompile (msg : string) (d : DaemonState (Cluster string MemStore) MemStore) :=
  compile sumHash noMeta exRemote SourceModePreprocessed noPost (Ok "/t") true (fun _ => Ok tt) exIdentity "acme" "/"
    (exLocalJob msg) exGcc exInv d.
Definition exKey : string :=
  match localKey sumHash SourceModePreprocessed exIdentity "/" (exLocalJob "") exHost exGcc exInv with Ok k => k | Err _ => "" end.

Lemma daemon_replays_witness :
  exCompile "later" (exCompile "first" exLocal).2
  = (Done (LocalHit, mkInvocationResult "obj" "" "first" 0 0 ∅), (exCompile "first" exLocal).2).
Proof.
  assert ((exCompile "first" exLocal).1 = Done (LocalInvoke, mkInvocationResult "obj" "" "first" 0 3 ∅)) as E
    by (vm_compute; reflexivity).
  refine (@daemon_replays _ _ exMesh mem_ops mem_laws sumHash noMeta exRemote SourceModePreprocessed noPost (Ok "/t")
    true (fun _ => Ok tt) exIdentity "acme" "/" (exLocalJob "first") (exLocalJob "later") exGcc exInv exLocal
    (exCompile "first" exLocal).2 (exCompile "first" exLocal).2 LocalInvoke (mkInvocationResult "obj" "" "first" 0 3 ∅)
    ∅ [] exKey _ _ _ eq_refl _ _ eq_refl _ _ _ _ _ _ eq_refl _).
  - discriminate.
  - vm_compute. reflexivity.
  - vm_compute. discriminate.
  - change (exCompile "first" exLocal = (Done (LocalInvoke, mkInvocationResult "obj" "" "first" 0 3 ∅), (exCompile "first" exLocal).2)).
    by rewrite <- E, <- surjective_pairing.
  - discriminate.
  - discriminate.
  - split; [reflexivity|]. intros p v H. discriminate H.
  - intros _. reflexivity.
  - vm_compute. reflexivity.
  - vm_compute. discriminate.
  - vm_compute. reflexivity.
  - vm_compute. reflexivity.
Defined.

(** ** Shared flights *)

Lemma writeOutputs_output procCwd now inv r fs :
  Output inv <> "" -> resOutput r <> "" -> resExtras r = ∅ ->
  is_ok (writeFile (compsIn procCwd (Output inv)) (resOutput r) now fs) = true ->
  readHost procCwd (writeOutputs procCwd now inv r fs) (Output inv) = Ok (resOutput r).
Proof.
  intros Ho Hr Hx Hw. unfold writeOutputs. rewrite (proj2 (String.eqb_neq _ _) Ho), (proj2 (String.eqb_neq _ _) Hr), Hx.
  cbn [negb andb]. rewrite map_to_list_empty. cbn [foldl].
  destruct (writeFile _ _ _ _) as [fs'|] eqn:E; [|done]. unfold writeFile in E. do 2 (case_match; [done|]).
  injection E as <-. unfold readHost, compsIn. cbn [fsFiles]. by rewrite lookup_insert_eq.
Qed.

(** Assembly requests share one flight.  Requests that only a worker can
    cache, such as assembly, are all shared under the empty key: one that
    arrives while another of them is in flight is answered with the other's
    result, and the object of the other source is written to its own output
    file; nothing is compiled for it, and it is counted as an error. *)
Theorem assembly_flights_shared {M S} `{!Mesh M, !StoreOps S} blake3 meta cfg sourceMode httpPost tokPath saveOk dialOk
    newContext identity tenantID procCwd j joined cmd args cwd c inv0 (d : DaemonState M S) r :
  let inv := set_Cwd cwd inv0 in
  splitCommand (cmd :: args) = Some (cmd, args) -> dmContexts d !! cmd = Some c -> cwd <> "" ->
  Parse (readHost procCwd (dmHost d)) c (resolveRelativePaths args cwd) = Ok inv0 ->
  Cacheable inv = false -> casDispatchable sourceMode inv d = true ->
  joined "" = Some (Ok r) ->
  Output inv <> "" -> resOutput r <> "" -> resExtras r = ∅ ->
  is_ok (writeFile (compsIn procCwd (Output inv)) (resOutput r) (djNow j) (dmHost d)) = true ->
  exists d', handleRequest blake3 meta cfg sourceMode httpPost tokPath saveOk dialOk newContext identity tenantID
      procCwd j joined (mkDaemonRequest (cmd :: args) cwd) d = (Done (replyOf r, ResultError), d') /\
    readHost procCwd (dmHost d') (Output inv) = Ok (resOutput r).
Proof.
  intros inv Hs Hc Hcwd Hp Hca Hd Hj Ho Hr Hx Hw. unfold handleRequest. cbn [drArgs drCwd]. rewrite Hs.
  unfold getOrCreateContext. rewrite Hc, (proj2 (String.eqb_neq _ _) Hcwd), Hp. fold inv. rewrite Hca, Hd. cbn [negb andb].
  unfold compileShared, flightKey. rewrite Hca. cbn [mbind option_bind]. rewrite Hj.
  eexists. split; [reflexivity|]. by apply writeOutputs_output.
Qed.

Definition exAsmHost : FS := mkFS {[ []; ["p"] ]} {[ ["p"; "a.S"] := ("nop", 1%Z); ["p"; "b.S"] := ("ret", 1%Z) ]}.
Definition exAsm : DaemonState (Cluster string MemStore) MemStore :=
  mkDaemonState (Some (exWorld "")) [∅] {[ "gcc" := exGcc ]} exAsmHost false.
Definition exAsmArgs : list string := ["-c"; "b.S"; "-o"; "b.o"].
Definition exAsmInv : Invocation :=
  match ParseGNU (fun _ => Err "no file") (resolveRelativePaths exAsmArgs "/p") with Ok i => i | Err _ => NewInvocation end.

Lemma assembly_flights_shared_witness :
  exists d', handleRequest sumHash noMeta exRemote SourceModeCAS noPost (Ok "/t") true (fun _ => Ok tt) Detect exIdentity
      "acme" "/" (exLocalJob "") (fun _ => Some (Ok (mkInvocationResult "object of a.S" "" "" 0 1 ∅)))
      (mkDaemonRequest ("gcc" :: exAsmArgs) "/p") exAsm = (Done (DaemonReply_empty, ResultError), d') /\
    readHost "/" (dmHost d') "/p/b.o" = Ok "object of a.S".
Proof.
  refine (@assembly_flights_shared _ _ exMesh mem_ops sumHash noMeta exRemote SourceModeCAS noPost (Ok "/t") true
    (fun _ => Ok tt) Detect exIdentity "acme" "/" (exLocalJob "") _ "gcc" exAsmArgs "/p" exGcc exAsmInv exAsm
    (mkInvocationResult "object of a.S" "" "" 0 1 ∅) eq_refl eq_refl _ _ _ _ eq_refl _ _ eq_refl _);
    (vm_compute; (reflexivity || discriminate)).
Defined.

(** ** Paths of a request: properties *)

(** The file names of a file system: not empty and without a slash in front. *)
Definition wellNamed (fs : FS) : Prop :=
  forall p x, is_Some (fsFiles fs !! p) -> x ∈ p -> x <> "" /\ hasPrefix x "/" = false.

(** What a worker collects is named by relative paths. *)
Lemma collected_relative out primary fs got p :
  wellNamed fs -> collectExtraOutputs out primary fs = Ok got -> is_Some (got !! p) -> isAbs p = false.
Proof.
  unfold collectExtraOutputs. case_match; [done|]. intros Hw [= <-] [v Hp].
  apply elem_of_list_to_map_2, list_elem_of_omap in Hp as ([q [data t]] & Hq & Hs).
  apply elem_of_map_to_list in Hq. cbn [fst snd] in Hs. repeat case_match; try done. simplify_eq.
  assert (forall x, x ∈ drop (length out) q -> x <> "" /\ hasPrefix x "/" = false) as Hx.
  { intros x Hin. apply (Hw q); [eauto|]. rewrite <- (take_drop (length out) q). apply elem_of_app. by right. }
  destruct (drop (length out) q) as [|x xs]; [done|]. destruct (Hx x) as [Hne Hpre]; [left|].
  destruct x as [|ch x']; [done|]. destruct xs; cbn in *; exact Hpre.
Qed.

Lemma absolute_lost out primary fs got paths :
  wellNamed fs -> collectExtraOutputs out primary fs = Ok got -> Forall (fun p => isAbs p = true) paths ->
  requestedExtras paths got = ∅.
Proof.
  intros Hw Hg Hall. apply map_empty. intros p. destruct (requestedExtras paths got !! p) eqn:E; [|done].
  apply requestedExtras_spec in E as [Hin Hp]. rewrite Forall_forall in Hall. specialize (Hall p Hin).
  rewrite (collected_relative out primary fs got p Hw Hg) in Hall; [done|eauto].
Qed.

Definition exRequest (args : list string) : Invocation :=
  match ParseGNU (fun _ => Err "no file") (resolveRelativePaths args "/p") with
  | Ok i => set_Cwd "/p" i
  | Err _ => NewInvocation
  end.
Definition exDepArgs : list string := ["-c"; "main.c"; "-o"; "main.o"; "-MMD"; "-MF"; "main.d"].

(** A dependency file is lost on its way back.  The daemon makes the value
    of [-MF] absolute before it parses the command, so the dispatcher asks the
    worker for an absolute path, while a worker names what it collects by
    relative paths: whatever the compile leaves in the output directory, the
    client keeps none of it. *)
Theorem dep_file_lost out primary fs got :
  wellNamed fs -> collectExtraOutputs out primary fs = Ok got ->
  (casArgs exGcc (exRequest exDepArgs) "/p").2 = ["/src/main.d"] /\
  requestedExtras (casArgs exGcc (exRequest exDepArgs) "/p").2 got = ∅.
Proof.
  intros Hw Hg. assert ((casArgs exGcc (exRequest exDepArgs) "/p").2 = ["/src/main.d"]) as -> by (vm_compute; reflexivity).
  split; [done|]. apply (absolute_lost out primary fs got); [done..|]. by repeat constructor.
Qed.

Definition exCollected : FS :=
  mkFS {[ []; ["out"]; ["out"; "src"] ]} {[ ["out"; "src"; "main.d"] := ("main.o: main.c", 1%Z) ]}.

Lemma dep_file_lost_witness :
  collectExtraOutputs ["out"] "/out/main.o" exCollected = Ok {[ "src/main.d" := "main.o: main.c" ]} /\
  requestedExtras (casArgs exGcc (exRequest exDepArgs) "/p").2 {[ "src/main.d" := "main.o: main.c" ]} = ∅.
Proof.
  assert (collectExtraOutputs ["out"] "/out/main.o" exCollected = Ok {[ "src/main.d" := "main.o: main.c" ]}) as E
    by (vm_compute; reflexivity).
  split; [exact E|]. apply (dep_file_lost ["out"] "/out/main.o" exCollected); [|exact E].
  intros p x [v Hv] Hx. unfold exCollected in Hv. cbn [fsFiles] in Hv.
  apply lookup_singleton_Some in Hv as [<- _]. revert x Hx. apply Forall_forall.
  repeat constructor; discriminate.
Defined.

(** The daemon changes macros.  The value of a separate [-D] is taken for an
    input path: the command defines the macro N in a terminal, but not through
    the daemon, where the name of the macro is a path. *)
Theorem define_value_mangled :
  rmap Defines (ParseGNU (fun _ => Err "no file") ["-c"; "-D"; "N=1"; "main.c"]) = Ok {[ "N" := "1" ]} /\
  Defines (exRequest ["-c"; "-D"; "N=1"; "main.c"]) = {[ "/p/N" := "1" ]}.
Proof. split; vm_compute; reflexivity. Qed.
