(* ===== verification/Sha256.v ===== *)
(** * Sha256: [crypto/sha256] of the Go standard library.

    The hash the daemon records and the worker fingerprints its certificate
    with, written out on 32-bit words, with two published test vectors. *)

From S2P Require Import Prelude GoStrings Store.

Definition w32 (z : Z) : Z := (z mod 2 ^ 32)%Z.
Definition rotr (n x : Z) : Z := Z.lor (Z.shiftr x n) (w32 (Z.shiftl x (32 - n))).
Definition not32 (x : Z) : Z := Z.lxor x 4294967295.

Definition sigma0 (x : Z) : Z := Z.lxor (Z.lxor (rotr 7 x) (rotr 18 x)) (Z.shiftr x 3).
Definition sigma1 (x : Z) : Z := Z.lxor (Z.lxor (rotr 17 x) (rotr 19 x)) (Z.shiftr x 10).
Definition Sigma0 (x : Z) : Z := Z.lxor (Z.lxor (rotr 2 x) (rotr 13 x)) (rotr 22 x).
Definition Sigma1 (x : Z) : Z := Z.lxor (Z.lxor (rotr 6 x) (rotr 11 x)) (rotr 25 x).

Definition shaK : list Z := [
  1116352408; 1899447441; 3049323471; 3921009573; 961987163; 1508970993; 2453635748; 2870763221;
  3624381080; 310598401; 607225278; 1426881987; 1925078388; 2162078206; 2614888103; 3248222580;
  3835390401; 4022224774; 264347078; 604807628; 770255983; 1249150122; 1555081692; 1996064986;
  2554220882; 2821834349; 2952996808; 3210313671; 3336571891; 3584528711; 113926993; 338241895;
  666307205; 773529912; 1294757372; 1396182291; 1695183700; 1986661051; 2177026350; 2456956037;
  2730485921; 2820302411; 3259730800; 3345764771; 3516065817; 3600352804; 4094571909; 275423344;
  430227734; 506948616; 659060556; 883997877; 958139571; 1322822218; 1537002063; 1747873779;
  1955562222; 2024104815; 2227730452; 2361852424; 2428436474; 2756734187; 3204031479; 3329325298]%Z.

Definition shaInit : list Z :=
  [1779033703; 3144134277; 1013904242; 2773480762; 1359893119; 2600822924; 528734635; 1541459225]%Z.

(** The sixteen words of a block, and the schedule of 64, newest first. *)
Fixpoint blockWords (n : nat) (s : string) : list Z :=
  match n with
  | 0 => []
  | S k => be_value (stake 4 s) :: blockWords k (sdrop 4 s)
  end.
Fixpoint expand (n : nat) (ws : list Z) : list Z :=
  match n with
  | 0 => ws
  | S k =>
      expand k (w32 (sigma1 (ws !!! 1%nat) + (ws !!! 6%nat) + sigma0 (ws !!! 14%nat) + (ws !!! 15%nat))%Z :: ws)
  end.

Definition shaRound (st : list Z) (kw : Z * Z) : list Z :=
  match st with
  | [a; b; c; d; e; f; g; h] =>
      let ch := Z.lxor (Z.land e f) (Z.land (not32 e) g) in
      let maj := Z.lxor (Z.lxor (Z.land a b) (Z.land a c)) (Z.land b c) in
      let t1 := w32 (h + Sigma1 e + ch + kw.1 + kw.2)%Z in
      [w32 (t1 + Sigma0 a + maj)%Z; a; b; c; w32 (d + t1)%Z; e; f; g]
  | _ => st
  end.

Definition shaBlock (st : list Z) (block : string) : list Z :=
  let w := rev (expand 48 (rev (blockWords 16 block))) in
  zip_with (fun a b => w32 (a + b)%Z) st (foldl shaRound st (zip shaK w)).

Fixpoint zeros (n : nat) : string := match n with 0 => "" | S k => String "000"%char (zeros k) end.

Definition shaPad (s : string) : string :=
  s +:+ String "128"%char (zeros ((119 - slen s mod 64) mod 64)) +:+ be_bytes 8 (8 * Z.of_nat (slen s))%Z.

Fixpoint shaBlocks (n : nat) (st : list Z) (s : string) : list Z :=
  match n with
  | 0 => st
  | S k => shaBlocks k (shaBlock st (stake 64 s)) (sdrop 64 s)
  end.

(** [sha256.Sum256]. *)
Definition sha256 (s : string) : string :=
  let p := shaPad s in
  foldr (fun w acc => be_bytes 4 w +:+ acc) "" (shaBlocks (slen p / 64) shaInit p).

(** ** Facts *)

Example sha256_empty :
  hexEncode (sha256 "") = "e3b0c44298fc1c149afbf4c8996fb92427ae41e4649b934ca495991b7852b855".
Proof. vm_compute. reflexivity. Qed.

Example sha256_abc :
  hexEncode (sha256 "abc") = "ba7816bf8f01cfea414140de5dae2223b00361a396177a9cb410ff61f20015ad".
Proof. vm_compute. reflexivity. Qed.

Lemma length_shaBlocks n : forall st s, length st = 8 -> length (shaBlocks n st s) = 8.
Proof.
  induction n as [|n IH]; intros st s H; [done|]. cbn [shaBlocks]. apply IH. unfold shaBlock.
  rewrite length_zip_with. enough (length (foldl shaRound st (zip shaK (rev (expand 48 (rev (blockWords 16 (stake 64 s)))))))
    = 8) as -> by lia.
  generalize (zip shaK (rev (expand 48 (rev (blockWords 16 (stake 64 s)))))) as l. clear IH.
  intros l. revert st H. induction l as [|kw l IHl]; intros st H; [done|]. cbn [foldl]. apply IHl.
  destruct st as [|a [|b [|c [|d [|e [|f [|g [|h [|]]]]]]]]]; done.
Qed.

Lemma slen_sha256 s : slen (sha256 s) = 32.
Proof.
  unfold sha256. set (l := shaBlocks _ _ _). assert (length l = 8) as H by by apply length_shaBlocks.
  clearbody l. destruct l as [|a [|b [|c [|d [|e [|f [|g [|h [|]]]]]]]]]; done.
Qed.
