(* ===== verification/Explain.v ===== *)
(** * Explain: why a compile missed the cache ([internal/explain],
      [internal/daemon/explain.go]).

    The daemon records the inputs of every compile, one file per source path,
    and on a miss names what changed since the record before.  Files are those
    of [Store]; the JSON of a record is a parameter of the store. *)

From S2P Require Import Prelude GoStrings GoPath Invocation CacheKey Manifest Store Sha256.

Inductive Outcome := OutcomeLocalHit | OutcomeRemote | OutcomeLocalInvoke | OutcomeBypass | OutcomeError.
Inductive DiffKind := DiffCompiler | DiffFlags | DiffSource | DiffHeader | DiffImage.

#[global] Instance Outcome_eq_dec : EqDecision Outcome.
Proof. solve_decision. Defined.
#[global] Instance DiffKind_eq_dec : EqDecision DiffKind.
Proof. solve_decision. Defined.

Record Diff := mkDiff {
  dfKind : DiffKind;
  dfPath : string;
  dfBefore : string;
  dfAfter : string
}.

(** [Record]; a zero timestamp is [None]. *)
Record ExplainRecord := mkExplainRecord {
  xrVersion : Z;
  xrTimestamp : option Z;
  xrSourcePath : string;
  xrOutputPath : string;
  xrOutcome : Outcome;
  xrCacheKey : string;
  xrCompilerIdentityHash : string;
  xrFlagsHash : string;
  xrSourceContentHash : string;
  xrHeaderHashes : gmap string string;
  xrHeaderHashAlgo : string;
  xrImageDigest : string;
  xrCompilerBinary : string;
  xrArgs : list string;
  xrDiffs : list Diff
}.

Definition recordVersion : Z := 1.

(** ** Comparing records *)

(** One of the three comparisons that need a hash on both sides. *)
Definition hashDiff (k : DiffKind) (now then_ : string) : list Diff :=
  if negb (String.eqb now "") && negb (String.eqb then_ "") && negb (String.eqb now then_)
  then [mkDiff k "" then_ now] else [].

(** The [switch] of the header loop for the path [p]. *)
Definition headerDiff (r prior : ExplainRecord) (p : string) : list Diff :=
  match xrHeaderHashes r !! p, xrHeaderHashes prior !! p with
  | Some now, Some then_ =>
      if String.eqb (xrHeaderHashAlgo r) (xrHeaderHashAlgo prior) && negb (String.eqb now then_)
      then [mkDiff DiffHeader p then_ now] else []
  | Some now, None => [mkDiff DiffHeader p "" now]
  | None, Some then_ => [mkDiff DiffHeader p then_ ""]
  | None, None => []
  end.

Definition headerPaths (r prior : ExplainRecord) : list string :=
  sortStrings (elements (dom (xrHeaderHashes r) ∪ dom (xrHeaderHashes prior))).

Definition CompareTo (r : ExplainRecord) (prior : option ExplainRecord) : list Diff :=
  match prior with
  | None => []
  | Some prior =>
      hashDiff DiffCompiler (xrCompilerIdentityHash r) (xrCompilerIdentityHash prior)
      ++ hashDiff DiffFlags (xrFlagsHash r) (xrFlagsHash prior)
      ++ hashDiff DiffSource (xrSourceContentHash r) (xrSourceContentHash prior)
      ++ concat (map (headerDiff r prior) (headerPaths r prior))
      ++ (if negb (String.eqb (xrImageDigest r) (xrImageDigest prior))
             && (negb (String.eqb (xrImageDigest r) "") || negb (String.eqb (xrImageDigest prior) ""))
          then [mkDiff DiffImage "" (xrImageDigest prior) (xrImageDigest r)] else [])
  end.

(** ** Hashes *)

Definition HashSourcePath (getwd : result string) (sourcePath : string) : string :=
  let a := match abs getwd sourcePath with Ok a => a | Err _ => sourcePath end in
  hexEncode (sha256 a) +:+ ".json".
Definition HashBytes (data : string) : string := hexEncode (sha256 data).

(** ** The store of records *)

Record DiskStore := mkDiskStore {
  exDir : list string;
  exMaxEntries : nat
}.

Definition DefaultMaxEntries : nat := 10 * 10 * 10 * 10.

Definition NewDiskStore (dir : list string) (maxEntries : Z) (fs : FS) : result (DiskStore * FS) :=
  let! fs' := wrapErr "explain: mkdir" (mkdirAll dir fs) in
  Ok (mkDiskStore dir (if (maxEntries <=? 0)%Z then DefaultMaxEntries else Z.to_nat maxEntries), fs').

(** The files a walk of the directory takes for records; [filepath.Ext] only
    looks at the last element. *)
Definition isRecordFile (dir : list string) (p : list string) : bool :=
  isBelow dir p && String.eqb (ext (List.last p "")) ".json".

Definition recordFiles (dir : list string) (fs : FS) : list (list string * Z) :=
  omap (fun kv => if isRecordFile dir kv.1 then Some (kv.1, kv.2.2) else None) (map_to_list (fsFiles fs)).

Definition olderFile (a b : list string * Z) : Prop := (a.2 <= b.2)%Z.
#[global] Instance olderFile_dec : RelDecision olderFile.
Proof. intros a b. unfold olderFile. apply _. Defined.

Definition evictIfOver (s : DiskStore) (fs : FS) : FS :=
  let entries := recordFiles (exDir s) fs in
  let excess := length entries - exMaxEntries s in
  foldl (fun fs e => removeFile e.1 fs) fs (take excess (isort olderFile entries)).

Definition stampRecord (now : Z) (r : ExplainRecord) : ExplainRecord :=
  mkExplainRecord (if (xrVersion r =? 0)%Z then recordVersion else xrVersion r)
    (Some (default now (xrTimestamp r)))
    (xrSourcePath r) (xrOutputPath r) (xrOutcome r) (xrCacheKey r) (xrCompilerIdentityHash r) (xrFlagsHash r)
    (xrSourceContentHash r) (xrHeaderHashes r) (xrHeaderHashAlgo r) (xrImageDigest r) (xrCompilerBinary r)
    (xrArgs r) (xrDiffs r).

Section RecordStore.
  Context (encodeRecord : ExplainRecord -> string) (decodeRecord : string -> result ExplainRecord)
    (getwd : result string).

Definition recordPath (s : DiskStore) (sourcePath : string) : list string :=
  exDir s ++ [HashSourcePath getwd sourcePath].

Definition Get (s : DiskStore) (sourcePath : string) (fs : FS) : result (option ExplainRecord) :=
  let p := recordPath s sourcePath in
  if bool_decide (p ∈ fsDirs fs) then Err "explain: read: is a directory"
  else match fsFiles fs !! p with
  | None => Ok None
  | Some (b, _) =>
      let! r := wrapErr "explain: parse" (decodeRecord b) in
      Ok (if (xrVersion r =? recordVersion)%Z then Some r else None)
  end.

(** [Put]; [tmp] is the random name of the temporary file. *)
Definition Put (s : DiskStore) (tmp : string) (r : ExplainRecord) (now : Z) (fs : FS) : result unit * FS :=
  if String.eqb (xrSourcePath r) "" then (Err "explain: Put: SourcePath is required", fs)
  else
    let r := stampRecord now r in
    let tmpPath := exDir s ++ [tmp] in
    match writeFile tmpPath (encodeRecord r) now fs with
    | Err e => (Err ("explain: tempfile: " +:+ e), fs)
    | Ok fs1 =>
        match renameFile tmpPath (recordPath s (xrSourcePath r)) fs1 with
        | Err e => (Err ("explain: rename: " +:+ e), removeFile tmpPath fs1)
        | Ok fs2 => (Ok tt, evictIfOver s fs2)
        end
    end.
End RecordStore.

(** ** Records of a compile *)

Definition absOrSelf (getwd : result string) (p cwd : string) : string :=
  if String.eqb p "" then p
  else if isAbs p then clean p
  else if String.eqb cwd "" then match abs getwd p with Ok a => a | Err _ => p end
  else clean (join [cwd; p]).

Definition headerHashesFromManifest (getwd : result string) (m : option Manifest) (srcAbs cwd : string)
    : gmap string string * string :=
  match m with
  | None => (∅, "")
  | Some m =>
      let out := foldl (fun (out : gmap string string) b =>
                   let a := absOrSelf getwd (blobPath b) cwd in
                   if String.eqb a srcAbs then out else <[a := hexEncode (blobDigest b)]> out) ∅ (manifestBlobs m) in
      if bool_decide (out = ∅) then (∅, "") else (out, "blake3")
  end.

Section Recording.
  Context (encodeRecord : ExplainRecord -> string) (decodeRecord : string -> result ExplainRecord)
    (getwd : result string) (readFile : string -> result string) (identity : Compiler -> result string).

(** The record before the comparison. *)
Definition newRecord (c : Compiler) (inv : Invocation) (input cacheKey : string) (outcome : Outcome)
    (manifest : option Manifest) (imageDigest : string) : ExplainRecord :=
  let srcAbs := absOrSelf getwd input (Cwd inv) in
  let '(headers, algo) := headerHashesFromManifest getwd manifest srcAbs (Cwd inv) in
  mkExplainRecord 0 None srcAbs (absOrSelf getwd (Output inv) (Cwd inv)) outcome cacheKey
    (match identity c with Ok id => HashBytes id | Err _ => "" end)
    (HashBytes (cacheKeyFlags inv))
    (match readFile srcAbs with Ok b => HashBytes b | Err _ => "" end)
    headers algo imageDigest (compilerName c) (RawArgs inv) [].

Definition withDiffs (r : ExplainRecord) (ds : list Diff) : ExplainRecord :=
  mkExplainRecord (xrVersion r) (xrTimestamp r) (xrSourcePath r) (xrOutputPath r) (xrOutcome r) (xrCacheKey r)
    (xrCompilerIdentityHash r) (xrFlagsHash r) (xrSourceContentHash r) (xrHeaderHashes r) (xrHeaderHashAlgo r)
    (xrImageDigest r) (xrCompilerBinary r) (xrArgs r) ds.

Definition recordExplain (s : option DiskStore) (tmp : string) (now : Z) (c : Compiler) (inv : Invocation)
    (cacheKey : string) (outcome : Outcome) (manifest : option Manifest) (imageDigest : string) (fs : FS) : FS :=
  match s, Inputs inv with
  | Some s, input :: _ =>
      let rec_ := newRecord c inv input cacheKey outcome manifest imageDigest in
      let rec_ := match Get decodeRecord getwd s (xrSourcePath rec_) fs with
                  | Ok (Some prior) =>
                      if bool_decide (outcome = OutcomeLocalHit) || bool_decide (outcome = OutcomeRemote) then rec_
                      else withDiffs rec_ (CompareTo rec_ (Some prior))
                  | _ => rec_
                  end in
      (Put encodeRecord getwd s tmp rec_ now fs).2
  | _, _ => fs
  end.
End Recording.

(** ** Facts *)

(** A reason the key of [r] differs from the one of [prior]. *)
Definition explains (r prior : ExplainRecord) (d : Diff) : Prop :=
  let changed now then_ := now <> "" /\ then_ <> "" /\ now <> then_ /\ dfPath d = "" /\ dfBefore d = then_ /\ dfAfter d = now in
  match dfKind d with
  | DiffCompiler => changed (xrCompilerIdentityHash r) (xrCompilerIdentityHash prior)
  | DiffFlags => changed (xrFlagsHash r) (xrFlagsHash prior)
  | DiffSource => changed (xrSourceContentHash r) (xrSourceContentHash prior)
  | DiffHeader =>
      match xrHeaderHashes r !! dfPath d, xrHeaderHashes prior !! dfPath d with
      | Some now, Some then_ =>
          xrHeaderHashAlgo r = xrHeaderHashAlgo prior /\ now <> then_ /\ dfBefore d = then_ /\ dfAfter d = now
      | Some now, None => dfBefore d = "" /\ dfAfter d = now
      | None, Some then_ => dfBefore d = then_ /\ dfAfter d = ""
      | None, None => False
      end
  | DiffImage =>
      xrImageDigest r <> xrImageDigest prior /\ dfPath d = "" /\ dfBefore d = xrImageDigest prior /\
      dfAfter d = xrImageDigest r
  end.

Definition kindRank (k : DiffKind) : nat :=
  match k with DiffCompiler => 0 | DiffFlags => 1 | DiffSource => 2 | DiffHeader => 3 | DiffImage => 4 end.

(** Kinds in order, headers by path, nothing twice. *)
Definition diffBefore (a b : Diff) : Prop :=
  kindRank (dfKind a) < kindRank (dfKind b) \/
  dfKind a = dfKind b /\ sle (dfPath a) (dfPath b) /\ dfPath a <> dfPath b.

Lemma hashDiff_spec k now then_ d :
  d ∈ hashDiff k now then_ <-> d = mkDiff k "" then_ now /\ now <> "" /\ then_ <> "" /\ now <> then_.
Proof.
  unfold hashDiff. destruct (String.eqb_spec now ""), (String.eqb_spec then_ ""), (String.eqb_spec now then_);
    cbn [negb andb]; rewrite ?list_elem_of_singleton; set_solver.
Qed.

Lemma headerDiff_spec r prior p d :
  d ∈ headerDiff r prior p <-> dfKind d = DiffHeader /\ dfPath d = p /\ explains r prior d.
Proof.
  unfold headerDiff, explains. destruct d as [k q b a]. cbn [dfKind dfPath dfBefore dfAfter].
  destruct (xrHeaderHashes r !! p) as [now|] eqn:En, (xrHeaderHashes prior !! p) as [th|] eqn:Et.
  1: destruct (String.eqb_spec (xrHeaderHashAlgo r) (xrHeaderHashAlgo prior)), (String.eqb_spec now th); cbn [negb andb].
  all: rewrite ?list_elem_of_singleton, ?elem_of_nil; split; [intros H|intros (-> & -> & H)]; rewrite ?En, ?Et in *;
    simplify_eq; rewrite ?En, ?Et; naive_solver.
Qed.

Lemma headerDiff_kind r prior p d : d ∈ headerDiff r prior p -> dfKind d = DiffHeader /\ dfPath d = p.
Proof. intros H%headerDiff_spec. naive_solver. Qed.

Lemma headerPaths_spec r prior p :
  p ∈ headerPaths r prior <-> is_Some (xrHeaderHashes r !! p) \/ is_Some (xrHeaderHashes prior !! p).
Proof.
  unfold headerPaths. rewrite sortStrings_Permutation, elem_of_elements, elem_of_union, !elem_of_dom. done.
Qed.

Lemma headerDiffs_spec r prior d :
  d ∈ concat (map (headerDiff r prior) (headerPaths r prior)) <-> dfKind d = DiffHeader /\ explains r prior d.
Proof.
  rewrite list_elem_of_In, in_concat. split.
  - intros (l & (p & <- & Hp)%in_map_iff & Hd). rewrite <- list_elem_of_In in Hd.
    apply headerDiff_spec in Hd. naive_solver.
  - intros [Hk He]. exists (headerDiff r prior (dfPath d)). split.
    + apply in_map. rewrite <- list_elem_of_In. apply headerPaths_spec.
      unfold explains in He. rewrite Hk in He. destruct (_ !! _); [left; eauto|]. destruct (_ !! _); [right; eauto|done].
    + rewrite <- list_elem_of_In. by apply headerDiff_spec.
Qed.

(** Pieces in order make an ordered list. *)
Lemma StronglySorted_app_intro {A} (R : A -> A -> Prop) l1 l2 :
  StronglySorted R l1 -> StronglySorted R l2 -> (forall a b, a ∈ l1 -> b ∈ l2 -> R a b) -> StronglySorted R (l1 ++ l2).
Proof.
  induction l1 as [|x l1 IH]; intros H1 H2 H; [done|]. apply StronglySorted_inv in H1 as [H1 Hx]. cbn. constructor.
  - apply IH; [done..|]. intros; apply H; [by right|done].
  - apply Forall_app. split; [done|]. apply Forall_forall. intros b Hb. apply H; [left|done].
Qed.

Lemma headerDiffs_sorted r prior ps :
  StronglySorted sle ps -> NoDup ps -> StronglySorted diffBefore (concat (map (headerDiff r prior) ps)).
Proof.
  induction ps as [|p ps IH]; intros Hs Hn; [constructor|]. apply StronglySorted_inv in Hs as [Hs Hp].
  apply NoDup_cons in Hn as [Hnp Hn]. cbn [map concat]. apply StronglySorted_app_intro; [|by apply IH|].
  - unfold headerDiff. repeat case_match; repeat constructor.
  - intros a b [Ha <-]%headerDiff_kind Hb. rewrite list_elem_of_In, in_concat in Hb.
    destruct Hb as (l & (q & <- & Hq)%in_map_iff & Hb). apply list_elem_of_In in Hb, Hq.
    apply headerDiff_kind in Hb as [Hb <-]. right. rewrite Forall_forall in Hp. split_and!; [congruence|by apply Hp|].
    intros E. apply Hnp. by rewrite E.
Qed.

Lemma hashDiff_sorted k now then_ : StronglySorted diffBefore (hashDiff k now then_).
Proof. unfold hashDiff. case_match; repeat constructor. Qed.

(** What an explanation says.  Against a prior record, the differences are
    exactly the changed hashes that both records have, the headers that were
    changed (under one hash algorithm), added or removed, and the image if it
    changed; they come in the documented order, headers by path, and none
    twice. *)
Theorem compare_exact r prior :
  (forall d, d ∈ CompareTo r (Some prior) <-> explains r prior d) /\
  StronglySorted diffBefore (CompareTo r (Some prior)) /\ CompareTo r None = [].
Proof.
  assert (forall d, d ∈ (if negb (String.eqb (xrImageDigest r) (xrImageDigest prior))
      && (negb (String.eqb (xrImageDigest r) "") || negb (String.eqb (xrImageDigest prior) ""))
      then [mkDiff DiffImage "" (xrImageDigest prior) (xrImageDigest r)] else [])
    <-> dfKind d = DiffImage /\ explains r prior d) as Himg.
  { intros [k q b a]. unfold explains. cbn [dfKind dfPath dfBefore dfAfter].
    destruct (String.eqb_spec (xrImageDigest r) (xrImageDigest prior)) as [E|E]; cbn [negb andb].
    - rewrite elem_of_nil. naive_solver.
    - assert (negb (String.eqb (xrImageDigest r) "") || negb (String.eqb (xrImageDigest prior) "") = true) as ->.
      { destruct (String.eqb_spec (xrImageDigest r) ""), (String.eqb_spec (xrImageDigest prior) ""); [congruence|done..]. }
      rewrite list_elem_of_singleton. naive_solver. }
  split_and!; [| |done].
  - intros d. unfold CompareTo. rewrite !elem_of_app, !hashDiff_spec, headerDiffs_spec, Himg.
    destruct d as [[] q b a]; unfold explains; cbn [dfKind dfPath dfBefore dfAfter]; naive_solver.
  - unfold CompareTo. repeat apply StronglySorted_app_intro.
    1-3: apply hashDiff_sorted.
    + apply headerDiffs_sorted; [apply isort_Sorted; apply _|]. unfold headerPaths.
      rewrite sortStrings_Permutation. apply NoDup_elements.
    + case_match; repeat constructor.
    + intros a b [Ha _]%headerDiffs_spec [Hb _]%Himg. left. rewrite Ha, Hb. cbn. lia.
    + intros a b [-> _]%hashDiff_spec Hb. rewrite elem_of_app, headerDiffs_spec, Himg in Hb.
      left. destruct Hb as [[-> _]|[-> _]]; cbn; lia.
    + intros a b [-> _]%hashDiff_spec Hb. rewrite !elem_of_app, hashDiff_spec, headerDiffs_spec, Himg in Hb.
      left. destruct Hb as [[-> _]|[[-> _]|[-> _]]]; cbn; lia.
    + intros a b [-> _]%hashDiff_spec Hb. rewrite !elem_of_app, !hashDiff_spec, headerDiffs_spec, Himg in Hb.
      left. destruct Hb as [[-> _]|[[-> _]|[[-> _]|[-> _]]]]; cbn; lia.
Qed.

(** ** The store of records: facts *)

#[local] Instance olderFile_trans : Transitive olderFile.
Proof. intros a b c. unfold olderFile. lia. Qed.
#[local] Instance olderFile_total : Total olderFile.
Proof. intros a b. unfold olderFile. lia. Qed.

Lemma recordFiles_spec dir fs p t :
  (p, t) ∈ recordFiles dir fs <-> exists b, fsFiles fs !! p = Some (b, t) /\ isRecordFile dir p = true.
Proof.
  unfold recordFiles. rewrite list_elem_of_omap. split.
  - intros ([q [b u]] & Hq%elem_of_map_to_list & H). cbn in H. destruct (isRecordFile dir q) eqn:E; naive_solver.
  - intros (b & Hb & E). exists (p, (b, t)). split; [by apply elem_of_map_to_list|]. cbn [fst snd]. by rewrite E.
Qed.

Lemma recordFiles_keys dir fs : NoDup (recordFiles dir fs).*1.
Proof.
  unfold recordFiles. pose proof (NoDup_fst_map_to_list (fsFiles fs)) as H.
  induction (map_to_list (fsFiles fs)) as [|[p [b t]] l IH]; [constructor|].
  rewrite fmap_cons in H. apply NoDup_cons in H as [Hp H]. cbn [omap list_omap fst snd].
  destruct (isRecordFile dir p); [|by apply IH]. rewrite fmap_cons. apply NoDup_cons. split; [|by apply IH].
  intros Hin. apply Hp. cbn [fst] in Hin |- *. apply list_elem_of_fmap in Hin as ([q u] & -> & Hq).
  apply list_elem_of_omap in Hq as ([q' [b' u']] & Hq & E). cbn in E. destruct (isRecordFile dir q'); [|done].
  injection E as <- <-. apply list_elem_of_fmap. by exists (q', (b', u')).
Qed.

(** The removals of an eviction. *)
Lemma removeFiles_lookup (es : list (list string * Z)) fs p :
  fsFiles (foldl (fun fs e => removeFile e.1 fs) fs es) !! p = if bool_decide (p ∈ es.*1) then None else fsFiles fs !! p.
Proof.
  revert fs. induction es as [|[q t] es IH]; intros fs; [done|]. cbn [foldl]. rewrite IH, fmap_cons. cbn [fst removeFile fsFiles].
  repeat case_bool_decide; set_unfold.
  - done.
  - naive_solver.
  - destruct (decide (p = q)) as [->|]; [by rewrite lookup_delete_eq|]. naive_solver.
  - rewrite lookup_delete_ne by naive_solver. done.
Qed.

Lemma removeFiles_dirs (es : list (list string * Z)) fs :
  fsDirs (foldl (fun fs e => removeFile e.1 fs) fs es) = fsDirs fs.
Proof. revert fs. induction es as [|e es IH]; intros fs; [done|]. cbn [foldl]. by rewrite IH. Qed.

(** The records that are left are those behind the removed prefix. *)
Lemma evict_keeps s fs :
  recordFiles (exDir s) (evictIfOver s fs)
  ≡ₚ drop (length (recordFiles (exDir s) fs) - exMaxEntries s) (isort olderFile (recordFiles (exDir s) fs)).
Proof.
  set (es := recordFiles (exDir s) fs). set (n := length es - exMaxEntries s).
  pose proof (recordFiles_keys (exDir s) fs) as Hk. fold es in Hk.
  pose proof (isort_Permutation olderFile es) as Hp. assert (NoDup (isort olderFile es).*1) as Hk' by by rewrite Hp.
  rewrite <- (take_drop n (isort olderFile es)) in Hk' at 1. rewrite fmap_app in Hk'.
  apply NoDup_app in Hk' as (_ & Hdisj & Hd).
  apply NoDup_Permutation.
  - eapply NoDup_fmap_1, recordFiles_keys.
  - eapply NoDup_fmap_1, Hd.
  - intros [p t]. rewrite recordFiles_spec. unfold evictIfOver. fold es n. rewrite removeFiles_lookup.
    assert ((p, t) ∈ isort olderFile es <-> exists b, fsFiles fs !! p = Some (b, t) /\ isRecordFile (exDir s) p = true) as Hin.
    { rewrite Hp. apply recordFiles_spec. }
    rewrite <- (take_drop n (isort olderFile es)) in Hin at 1. rewrite elem_of_app in Hin. case_bool_decide as Ht.
    + split; [naive_solver|]. intros Hpd. exfalso. apply (Hdisj p Ht). apply list_elem_of_fmap. by exists (p, t).
    + rewrite <- Hin. split; [|by right]. intros [H|H]; [|done]. destruct Ht. apply list_elem_of_fmap. by exists (p, t).
Qed.

Lemma evict_bounded s fs : length (recordFiles (exDir s) (evictIfOver s fs)) <= exMaxEntries s \/
  length (recordFiles (exDir s) fs) <= exMaxEntries s.
Proof.
  rewrite evict_keeps, length_drop, isort_Permutation. lia.
Qed.

(** The newest file of a directory with room for one is not evicted. *)
Lemma evict_newest s fs p b now :
  exMaxEntries s <> 0 -> isRecordFile (exDir s) p = true -> fsFiles fs !! p = Some (b, now) ->
  (forall q c t, q <> p -> isRecordFile (exDir s) q = true -> fsFiles fs !! q = Some (c, t) -> (t < now)%Z) ->
  fsFiles (evictIfOver s fs) !! p = Some (b, now).
Proof.
  intros Hm Hr Hp Hnew. unfold evictIfOver. rewrite removeFiles_lookup. set (es := recordFiles (exDir s) fs).
  set (n := length es - exMaxEntries s). case_bool_decide as Hin; [exfalso|done].
  pose proof (isort_Permutation olderFile es) as Hperm. pose proof (recordFiles_keys (exDir s) fs) as Hk. fold es in Hk.
  assert (NoDup (isort olderFile es).*1) as Hk' by by rewrite Hperm.
  pose proof (isort_Sorted olderFile es) as Hs. rewrite <- (take_drop n (isort olderFile es)) in Hk', Hs.
  rewrite fmap_app in Hk'. apply NoDup_app in Hk' as (_ & Hdisj & _).
  apply list_elem_of_fmap in Hin as ([p' t] & Heq & Ht). cbn in Heq. subst p'.
  destruct (drop n (isort olderFile es)) as [|[q u] rest] eqn:Ed.
  { apply (f_equal length) in Ed. rewrite length_drop, Hperm in Ed. cbn in Ed.
    assert ((p, now) ∈ es) as He by (apply recordFiles_spec; eauto).
    destruct es; [by apply elem_of_nil in He|]. cbn in *. lia. }
  assert (forall x, x ∈ isort olderFile es -> x ∈ es) as Hback by (intros x; by rewrite Hperm).
  assert ((p, t) ∈ es /\ (q, u) ∈ es) as [Hpe Hqe].
  { split; apply Hback; rewrite <- (take_drop n (isort olderFile es)), Ed; apply elem_of_app; [by left|right; left]. }
  apply recordFiles_spec in Hpe as (b' & Hpe & _). apply recordFiles_spec in Hqe as (c & Hqe & Hqr).
  assert (olderFile (p, t) (q, u)) as Hle.
  { clear -Hs Ht. induction (take n (isort olderFile es)) as [|x l IH]; [by apply elem_of_nil in Ht|].
    cbn in Hs. apply StronglySorted_inv in Hs as [Hs Hx]. apply elem_of_cons in Ht as [<-|Ht]; [|by apply IH].
    rewrite Forall_forall in Hx. apply Hx. apply elem_of_app. right. left. }
  destruct (decide (q = p)) as [->|Hne].
  - apply (Hdisj p); [apply list_elem_of_fmap; by exists (p, t)|]. left.
  - specialize (Hnew q c u Hne Hqr Hqe). unfold olderFile in Hle. cbn in Hle. rewrite Hp in Hpe. simplify_eq. lia.
Qed.

Lemma hexDigit_noslash n : (n < 16)%N -> Ascii.eqb slash (hexDigit n) = false.
Proof.
  intros Hn. assert (Forall (fun m => Ascii.eqb slash (hexDigit (N.of_nat m)) = false) (seq 0 16)) as H.
  { by repeat constructor. }
  rewrite Forall_forall in H. rewrite <- (N2Nat.id n). apply H. apply elem_of_seq. lia.
Qed.

Lemma hexEncode_noslash s r : lastIndexBy (Ascii.eqb slash) r = None -> lastIndexBy (Ascii.eqb slash) (hexEncode s +:+ r) = None.
Proof.
  intros Hr. induction s as [|c s IH]; [done|]. cbn [hexEncode String.append lastIndexBy]. rewrite IH.
  pose proof (N_ascii_bounded c).
  rewrite (hexDigit_noslash (_ / 16)) by (apply N.Div0.div_lt_upper_bound; lia).
  by rewrite hexDigit_noslash by (apply N.mod_lt; lia).
Qed.

Lemma ext_record getwd p : ext (HashSourcePath getwd p) = ".json".
Proof.
  unfold ext, HashSourcePath. rewrite hexEncode_noslash by done.
  rewrite (lastIndexBy_app _ _ "."%char "json") by done. apply sdrop_app.
Qed.

Lemma isRecordFile_path getwd s p : isRecordFile (exDir s) (recordPath getwd s p) = true.
Proof.
  unfold isRecordFile, recordPath, isBelow. rewrite take_app_length, bool_decide_eq_true_2 by done.
  by rewrite List.last_last, ext_record.
Qed.

(** What a [Put] leaves before the eviction. *)
Lemma Put_effect enc getwd s tmp r now fs fs' :
  Put enc getwd s tmp r now fs = (Ok tt, fs') ->
  let p := recordPath getwd s (xrSourcePath r) in
  exists fs2, fs' = evictIfOver s fs2 /\ fsDirs fs2 = fsDirs fs /\ p ∉ fsDirs fs /\
    fsFiles fs2 = <[p := (enc (stampRecord now r), now)]> (delete (exDir s ++ [tmp]) (fsFiles fs)).
Proof.
  intros H p. unfold Put in H. destruct (String.eqb _ _); [done|]. cbv zeta in H.
  unfold writeFile in H. case_bool_decide; [done|]. destruct (negb _); [done|].
  unfold renameFile in H. cbn [fsDirs fsFiles] in H. change (xrSourcePath (stampRecord now r)) with (xrSourcePath r) in H.
  fold p in H. case_bool_decide; [done|]. rewrite lookup_insert_eq in H. injection H as <-.
  eexists. split; [reflexivity|]. cbn [fsFiles fsDirs]. by rewrite delete_insert_eq.
Qed.

Lemma evict_dirs s fs : fsDirs (evictIfOver s fs) = fsDirs fs.
Proof. apply removeFiles_dirs. Qed.

(** The latest record is found again, and the store stays small.  After a
    successful [Put] of a record of the current version the store holds no more
    records than its limit; and if the files of the other sources are older,
    [Get] of the same source returns the record with its version and time
    filled in. *)
Theorem put_then_get enc dec getwd s tmp r now fs fs' :
  dec (enc (stampRecord now r)) = Ok (stampRecord now r) -> exMaxEntries s <> 0 ->
  xrVersion r = 0%Z \/ xrVersion r = recordVersion ->
  (forall q c t, q <> recordPath getwd s (xrSourcePath r) -> isRecordFile (exDir s) q = true ->
     fsFiles fs !! q = Some (c, t) -> (t < now)%Z) ->
  Put enc getwd s tmp r now fs = (Ok tt, fs') ->
  Get dec getwd s (xrSourcePath r) fs' = Ok (Some (stampRecord now r)) /\
  length (recordFiles (exDir s) fs') <= exMaxEntries s.
Proof.
  intros Hdec Hm Hv Hold H. destruct (Put_effect _ _ _ _ _ _ _ _ H) as (fs2 & -> & Hd & Hp & Hf).
  set (p := recordPath getwd s (xrSourcePath r)) in *. split.
  - unfold Get. fold p. rewrite evict_dirs, Hd, bool_decide_eq_false_2 by done.
    rewrite (evict_newest s fs2 p (enc (stampRecord now r)) now); [|done|apply isRecordFile_path| |].
    + rewrite Hdec. cbn [wrapErr rbind stampRecord xrVersion]. destruct Hv as [-> | ->]; done.
    + by rewrite Hf, lookup_insert_eq.
    + intros q c t Hq Hr Hl. rewrite Hf, lookup_insert_ne in Hl by done. apply lookup_delete_Some in Hl as [_ Hl]. eauto.
  - rewrite evict_keeps, length_drop, isort_Permutation. lia.
Qed.

Definition exRecord : ExplainRecord :=
  mkExplainRecord 0 None "/p/a.c" "/p/a.o" OutcomeLocalInvoke "k" "i" "f" "s" ∅ "" "" "gcc" [] [].
Definition exFull : FS := mkFS {[ []; ["x"] ]} {[ ["x"; "old.json"] := ("o", 1%Z) ]}.
Definition exOne : DiskStore := mkDiskStore ["x"] 1.
Definition exEnc (r : ExplainRecord) : string := "json".
Definition exDec (b : string) : result ExplainRecord := Ok (stampRecord 5 exRecord).
Definition exPut : FS := (Put exEnc (Ok "/") exOne "explain-1.tmp" exRecord 5 exFull).2.

Lemma put_then_get_witness :
  Get exDec (Ok "/") exOne "/p/a.c" exPut = Ok (Some (stampRecord 5 exRecord)) /\
  length (recordFiles ["x"] exPut) <= 1.
Proof.
  refine (put_then_get exEnc exDec (Ok "/") exOne "explain-1.tmp" exRecord 5 exFull exPut eq_refl _ (or_introl eq_refl) _ _).
  - discriminate.
  - intros q c t _ _ Hq. unfold exFull in Hq. cbn [fsFiles] in Hq. apply lookup_singleton_Some in Hq as [_ Hq].
    assert (t = 1%Z) as -> by congruence. reflexivity.
  - vm_compute. reflexivity.
Defined.

(** ** Headers *)

Definition exBlobs : Manifest :=
  mkManifest "" [mkBlobRef "src/a.c" "1" 1; mkBlobRef "src/a.h" "2" 1].

(** Headers of a build below the project root.  The paths of a manifest are
    relative to the project root, but they are resolved against the client's
    directory: for a build in a subdirectory every header gets a path that does
    not exist, and the source itself counts as a header. *)
Theorem headers_misplaced :
  headerHashesFromManifest (Ok "/") (Some exBlobs) "/p/src/a.c" "/p/src"
  = ({[ "/p/src/src/a.c" := "31"; "/p/src/src/a.h" := "32" ]}, "blake3") /\
  headerHashesFromManifest (Ok "/") (Some exBlobs) "/p/src/a.c" "/p"
  = ({[ "/p/src/a.h" := "32" ]}, "blake3").
Proof. split; vm_compute; reflexivity. Qed.
