(* ===== verification/SquashMeta.v ===== *)
(** * SquashMeta: little-endian fields, compressed blocks and metadata streams
      of the squashfs writer ([squashfs/metadata.go], [compressor.go]).

    The writer packs records into metadata blocks of 8 KiB, compressed one by
    one; a record is named by the block it starts in and the offset in that
    block.  The last part states how a kernel reads such a stream.  Writes to
    the output file succeed; its I/O errors are not modelled. *)

From S2P Require Import Prelude GoStrings.

(** ** Little-endian integers ([encoding/binary.LittleEndian]) *)

Fixpoint le_bytes (n : nat) (z : Z) : string :=
  match n with
  | O => ""
  | S k => String (byte_of_Z z) (le_bytes k (Z.shiftr z 8))
  end.

Fixpoint le_value (s : string) : Z :=
  match s with
  | EmptyString => 0
  | String c t => Z.lor (Z_of_byte c) (Z.shiftl (le_value t) 8)
  end.

Lemma slen_le_bytes n z : slen (le_bytes n z) = n.
Proof. revert z; induction n; intros; cbn; auto. Qed.

Lemma le_value_bytes n z : le_value (le_bytes n z) = (z mod 2 ^ (8 * Z.of_nat n))%Z.
Proof.
  revert z. induction n as [|n IH]; intros z; [cbn; by rewrite Z.mod_1_r|].
  cbn [le_bytes le_value]. rewrite IH, Z.lor_comm, lor_shiftl_8 by apply Z_of_byte_bound.
  rewrite Z_of_byte_of_Z, Z.shiftr_div_pow2 by lia.
  replace (8 * Z.of_nat (S n))%Z with (8 + 8 * Z.of_nat n)%Z by lia. rewrite Z.pow_add_r by lia.
  change (2 ^ 8)%Z with 256%Z. assert (0 < 2 ^ (8 * Z.of_nat n))%Z by (apply Z.pow_pos_nonneg; lia).
  rewrite Z.rem_mul_r by lia. lia.
Qed.

(** A number below [2^k] under one shifted by [k]. *)
Lemma lor_shiftl a b k : (0 <= k)%Z -> (0 <= b < 2 ^ k)%Z -> Z.lor (Z.shiftl a k) b = (a * 2 ^ k + b)%Z.
Proof.
  intros Hk Hb. rewrite Z.shiftl_mul_pow2 by done.
  assert (Z.land (a * 2 ^ k) b = 0)%Z as Hl.
  { apply Z.bits_inj'. intros n Hn. rewrite Z.land_spec, Z.bits_0. destruct (Z.ltb_spec n k).
    - by rewrite Z.mul_pow2_bits_low by lia.
    - rewrite <- (Z.mod_small b (2 ^ k)) by done. rewrite (Z.mod_pow2_bits_high b) by lia. by rewrite andb_false_r. }
  rewrite <- Z.lxor_lor by done. by rewrite <- Z.add_nocarry_lxor by done.
Qed.

(** The fields of such a number. *)
Lemma shifted_fields a b k : (0 <= k)%Z -> (0 <= b < 2 ^ k)%Z ->
  ((a * 2 ^ k + b) mod 2 ^ k = b)%Z /\ Z.shiftr (a * 2 ^ k + b) k = a /\
  Z.testbit (a * 2 ^ k + b) k = Z.odd a.
Proof.
  intros Hk Hb. assert (0 < 2 ^ k)%Z by (apply Z.pow_pos_nonneg; lia).
  assert ((a * 2 ^ k + b) / 2 ^ k = a)%Z as E by (rewrite Z.div_add_l, Z.div_small by lia; lia). split_and!.
  - rewrite Z.add_comm, Z.mod_add by lia. by apply Z.mod_small.
  - by rewrite Z.shiftr_div_pow2 by done.
  - by rewrite Z.testbit_odd, Z.shiftr_div_pow2, E by done.
Qed.

(** The value fits in [n] bytes. *)
Definition uint (n : nat) (z : Z) : Prop := (0 <= z < 2 ^ (8 * Z.of_nat n))%Z.

Lemma le_value_uint n z : uint n z -> le_value (le_bytes n z) = z.
Proof. intros H. rewrite le_value_bytes. by apply Z.mod_small. Qed.

(** ** Fields of a record *)

(** The next [n] bytes as a number, and the rest. *)
Definition field (n : nat) (s : string) : option (Z * string) :=
  if slen s <? n then None else Some (le_value (stake n s), sdrop n s).

Lemma field_le n z rest : uint n z -> field n (le_bytes n z +:+ rest) = Some (z, rest).
Proof.
  intros H. unfold field. rewrite slen_app, slen_le_bytes.
  destruct (Nat.ltb_spec (n + slen rest) n); [lia|].
  rewrite <- (slen_le_bytes n z) at 1 3. by rewrite stake_app, sdrop_app, le_value_uint.
Qed.

(** The next [n] bytes. *)
Definition bytesField (n : nat) (s : string) : option (string * string) :=
  if slen s <? n then None else Some (stake n s, sdrop n s).

Lemma bytesField_app a rest : bytesField (slen a) (a +:+ rest) = Some (a, rest).
Proof.
  unfold bytesField. rewrite slen_app. destruct (Nat.ltb_spec (slen a + slen rest) (slen a)); [lia|].
  by rewrite stake_app, sdrop_app.
Qed.

Lemma bytesField_all a : bytesField (slen a) a = Some (a, "").
Proof. pose proof (bytesField_app a "") as H. by rewrite sapp_nil_r in H. Qed.

(** ** Compressors *)

(** [Compressor]: [Ok None] is [ErrIncompressible]. *)
Record Compressor := mkCompressor {
  compID : Z;
  Compress : string -> result (option string);
  Decompress : string -> option string
}.

(** What a compressor promises: its ID is 16 bits wide, its output is
    decompressed to its input, and is not empty. *)
Class CompressorLaws (c : Compressor) : Prop := {
  compID_uint : uint 2 (compID c);
  decompress_compress src out : Compress c src = Ok (Some out) -> Decompress c out = Some src;
  compress_nonempty src out : Compress c src = Ok (Some out) -> out <> ""
}.

Definition CompressorGzip : Z := 1.

Definition StoredCompressor : Compressor :=
  mkCompressor CompressorGzip (fun _ => Ok None) (fun _ => None).

(** [GzipCompressor] over the zlib stream of the standard library. *)
Definition GzipCompressor (deflate : string -> result string) (inflate : string -> option string) : Compressor :=
  mkCompressor CompressorGzip
    (fun src => let! out := deflate src in
                Ok (if slen src <=? slen out then None else Some out)) inflate.

#[global] Instance stored_laws : CompressorLaws StoredCompressor.
Proof. by split. Qed.

Lemma gzip_laws deflate inflate :
  (forall s z, deflate s = Ok z -> inflate z = Some s /\ z <> "") -> CompressorLaws (GzipCompressor deflate inflate).
Proof.
  intros H. split; [done|..]; intros src out; cbn; destruct (deflate src) as [z|] eqn:E; cbn; try done;
    destruct (slen src <=? slen z); try done; intros [= <-]; by destruct (H _ _ E).
Qed.

(** A block as it is stored: raw when the compressor does not shrink it. *)
Definition storeBlock (c : Compressor) (src : string) : result (bool * string) :=
  let! r := Compress c src in
  Ok (match r with
      | None => (true, src)
      | Some out => if slen src <=? slen out then (true, src) else (false, out)
      end).

(** The reader's inverse. *)
Definition loadBlock (c : Compressor) (raw : bool) (data : string) : option string :=
  if raw then Some data else Decompress c data.

Lemma storeBlock_spec c `{!CompressorLaws c} src raw data :
  storeBlock c src = Ok (raw, data) ->
  loadBlock c raw data = Some src /\ slen data <= slen src /\ (src <> "" -> data <> "").
Proof.
  unfold storeBlock. destruct (Compress c src) as [[out|]|] eqn:E; cbn [rbind]; [|by intros [= <- <-]|done].
  destruct (Nat.leb_spec (slen src) (slen out)); intros [= <- <-]; [done|]. cbn.
  split_and!; [by eapply decompress_compress|lia|]. intros _. by eapply compress_nonempty.
Qed.

(** ** The metadata writer *)

Definition MetadataBlockSize : nat := 8 * 1024.
Definition MetadataUncompressedBit : Z := 2 ^ 15.

Record metaBlock := mkMetaBlock {
  mbData : string;
  mbUncompressed : bool
}.

Record metaWriter := mkMetaWriter {
  mwCur : string;
  mwBlocks : list metaBlock
}.

Record metaRef := mkMetaRef {
  refBlockIdx : nat;
  refOffset : Z
}.

Definition newMetaWriter : metaWriter := mkMetaWriter "" [].

Definition Ref (m : metaWriter) : metaRef := mkMetaRef (length (mwBlocks m)) (Z.of_nat (slen (mwCur m))).

Section Meta.
  Context (c : Compressor).

Definition sealCurrent (m : metaWriter) : result metaWriter :=
  if String.eqb (mwCur m) "" then Ok m
  else let! r := storeBlock c (mwCur m) in
       Ok (mkMetaWriter "" (mwBlocks m ++ [mkMetaBlock r.2 r.1])).

(** The loop of [Write]; a round writes at least one byte, so the length of
    the input is fuel enough. *)
Fixpoint metaWriteLoop (fuel : nat) (m : metaWriter) (p : string) : result metaWriter :=
  match p, fuel with
  | EmptyString, _ => Ok m
  | _, 0 => Err "out of fuel"
  | _, S k =>
      let n := Nat.min (slen p) (MetadataBlockSize - slen (mwCur m)) in
      let m1 := mkMetaWriter (mwCur m +:+ stake n p) (mwBlocks m) in
      let! m2 := (if slen (mwCur m1) =? MetadataBlockSize then sealCurrent m1 else Ok m1) in
      metaWriteLoop k m2 (sdrop n p)
  end.

Definition metaWrite (m : metaWriter) (p : string) : result metaWriter := metaWriteLoop (slen p) m p.

Definition metaFlush (m : metaWriter) : result metaWriter := sealCurrent m.
End Meta.

Definition blockBytes (b : metaBlock) : Z := (2 + Z.of_nat (slen (mbData b)))%Z.

Definition BlockByteOffset (m : metaWriter) (blockIdx : nat) : Z :=
  foldr (fun b n => (blockBytes b + n)%Z) 0%Z (take blockIdx (mwBlocks m)).

Definition blockHeader (b : metaBlock) : Z :=
  let size := Z.of_nat (slen (mbData b)) in
  if mbUncompressed b then Z.lor size MetadataUncompressedBit else size.

Definition emitBlock (b : metaBlock) : string := le_bytes 2 (blockHeader b) +:+ mbData b.
Fixpoint emitBlocks (bs : list metaBlock) : string :=
  match bs with [] => "" | b :: rest => emitBlock b +:+ emitBlocks rest end.

(** [EmitTo]: the bytes that are written. *)
Definition EmitTo (m : metaWriter) : result string :=
  if forallb (fun b => slen (mbData b) <=? MetadataBlockSize) (mwBlocks m) then Ok (emitBlocks (mwBlocks m))
  else Err "squashfs: metadata block exceeds 8KiB on-disk size".

(** [metaRef.encode]; the shift drops the bits above 64. *)
Definition encodeRef (r : metaRef) (blockByteOffset : Z) : Z :=
  Z.lor (Z.shiftl blockByteOffset 16 mod 2 ^ 64) (refOffset r).

(** ** The reader *)

Section Reader.
  Context (c : Compressor).

(** The block at the byte [pos] of a table: its contents and where the next
    one starts. *)
Definition readBlock (table : string) (pos : nat) : option (string * nat) :=
  match field 2 (sdrop pos table) with
  | None => None
  | Some (h, rest) =>
      let size := Z.to_nat (h mod 2 ^ 15) in
      match bytesField size rest with
      | None => None
      | Some (data, _) =>
          match loadBlock c (Z.testbit h 15) data with
          | None => None
          | Some content => Some (content, pos + 2 + size)
          end
      end
  end.

(** [n] bytes from the offset [off] of the block at [pos], over as many blocks
    as it takes. *)
Fixpoint readMeta (fuel : nat) (table : string) (pos off n : nat) : option string :=
  match fuel with
  | 0 => None
  | S k =>
      match readBlock table pos with
      | None => None
      | Some (content, next) =>
          let have := sdrop off content in
          if n <=? slen have then Some (stake n have)
          else match readMeta k table next (off - slen content) (n - slen have) with
               | None => None
               | Some more => Some (have +:+ more)
               end
      end
  end.
End Reader.

(** ** The stream: facts *)

Lemma MetadataBlockSize_pos : 0 < MetadataBlockSize.
Proof. apply Nat.ltb_lt. vm_compute. reflexivity. Qed.
Lemma MetadataBlockSize_Z : Z.of_nat MetadataBlockSize = 8192%Z.
Proof. reflexivity. Qed.
#[global] Opaque MetadataBlockSize.

Section StreamFacts.
  Context (c : Compressor) `{!CompressorLaws c}.

(** What a block holds. *)
Definition holds (b : metaBlock) (content : string) : Prop :=
  loadBlock c (mbUncompressed b) (mbData b) = Some content /\ slen (mbData b) <= MetadataBlockSize /\ content <> "".

(** A writer that has been given the bytes [s]: the sealed blocks hold the
    pieces [cs]. *)
Definition mstate (m : metaWriter) (cs : list string) (s : string) : Prop :=
  Forall2 holds (mwBlocks m) cs /\ slen (mwCur m) < MetadataBlockSize /\ s = sconcat cs +:+ mwCur m.

Lemma mstate_new : mstate newMetaWriter [] "".
Proof. split_and!; [constructor|apply MetadataBlockSize_pos|done]. Qed.

Definition full (content : string) : Prop := slen content = MetadataBlockSize.

(** [m'] is [m] with [p] appended; only full blocks are sealed. *)
Definition appends (m : metaWriter) (p : string) (m' : metaWriter) : Prop :=
  mwBlocks m `prefix_of` mwBlocks m' /\
  forall cs s, mstate m cs s -> exists cs', mstate m' (cs ++ cs') (s +:+ p) /\ Forall full cs'.

Lemma appends_trans m p m1 q m2 : appends m p m1 -> appends m1 q m2 -> appends m (p +:+ q) m2.
Proof.
  intros [P1 H1] [P2 H2]. split; [by etrans|]. intros cs s H. destruct (H1 cs s H) as (cs1 & H' & F1).
  destruct (H2 _ _ H') as (cs2 & H'' & F2). exists (cs1 ++ cs2). rewrite app_assoc, <- sapp_assoc.
  split; [done|]. by apply Forall_app.
Qed.

Lemma seal_holds m m' cs s :
  Forall2 holds (mwBlocks m) cs -> slen (mwCur m) <= MetadataBlockSize -> s = sconcat cs +:+ mwCur m ->
  sealCurrent c m = Ok m' -> exists cs', mstate m' (cs ++ cs') s /\ mwBlocks m `prefix_of` mwBlocks m' /\ mwCur m' = "" /\
    (slen (mwCur m) = MetadataBlockSize -> Forall full cs').
Proof.
  intros Hb Hl -> H. unfold sealCurrent in H. destruct (String.eqb_spec (mwCur m) "") as [E|E].
  - inv_ok. exists []. rewrite app_nil_r, E. split_and!; [|done..|by constructor].
    split_and!; [done|rewrite E; apply MetadataBlockSize_pos|by rewrite E].
  - inv_ok. destruct x as [raw data]. apply storeBlock_spec in H0 as (Hld & Hle & _); [|done].
    exists [mwCur m]. cbn. split_and!; [|by eexists|done|by repeat constructor]. split_and!; [|apply MetadataBlockSize_pos|].
    + apply Forall2_app; [done|]. constructor; [|constructor]. split_and!; [done|cbn; lia|done].
    + rewrite sconcat_app. cbn. by rewrite !sapp_nil_r.
Qed.

Lemma metaWriteLoop_appends fuel : forall m p m', slen p <= fuel -> slen (mwCur m) < MetadataBlockSize ->
  metaWriteLoop c fuel m p = Ok m' -> appends m p m'.
Proof.
  pose proof MetadataBlockSize_pos as Hpos.
  induction fuel as [|k IH]; intros m p m' Hf Hc H.
  { destruct p; [|cbn in Hf; lia]. cbn in H. inv_ok. split; [done|]. intros cs s Hs. exists [].
    rewrite app_nil_r, sapp_nil_r. by split; [|constructor]. }
  destruct p as [|x p].
  { cbn in H. inv_ok. split; [done|]. intros cs s Hs. exists []. rewrite app_nil_r, sapp_nil_r. by split; [|constructor]. }
  cbn [metaWriteLoop] in H. set (q := String x p) in *.
  set (n := Nat.min (slen q) (MetadataBlockSize - slen (mwCur m))) in *.
  assert (0 < n <= slen q) as Hn by (subst n q; cbn [String.length]; lia).
  apply rbind_Ok in H as (m2 & H2 & H). cbn [mwCur] in H2.
  assert (slen (mwCur m +:+ stake n q) <= MetadataBlockSize) as Hle by (rewrite slen_app, slen_stake; lia).
  assert (appends m (stake n q) m2 /\ slen (mwCur m2) < MetadataBlockSize) as [H1 Hc2].
  { destruct (Nat.eqb_spec (slen (mwCur m +:+ stake n q)) MetadataBlockSize) as [E|E].
    - assert (mwBlocks m `prefix_of` mwBlocks m2 /\ mwCur m2 = "") as [Hp He].
      { unfold sealCurrent in H2. case_match; inv_ok; cbn; [|by split; [eexists|]].
        split; [done|]. by apply String.eqb_eq. }
      split; [|rewrite He; done]. split; [done|]. intros cs s (Hb & Hcs & ->).
      eapply seal_holds in H2 as (cs' & Hs & _ & _ & Hfl); [exists cs'; split; [done|by apply Hfl]|done|done|].
      cbn. by rewrite sapp_assoc.
    - inv_ok. split; [|cbn [mwCur]; lia]. split; [done|]. intros cs s (Hb & Hcs & ->). exists [].
      rewrite app_nil_r. split; [|constructor]. split_and!; [done|cbn [mwCur]; lia|cbn; by rewrite sapp_assoc]. }
  rewrite <- (stake_sdrop n q). eapply appends_trans; [done|]. apply (IH m2); [|done|done].
  rewrite slen_sdrop. lia.
Qed.

Lemma metaWrite_appends m p m' :
  slen (mwCur m) < MetadataBlockSize -> metaWrite c m p = Ok m' -> appends m p m'.
Proof. apply metaWriteLoop_appends. lia. Qed.

Lemma metaFlush_seals m m' :
  slen (mwCur m) < MetadataBlockSize -> metaFlush c m = Ok m' ->
  mwBlocks m `prefix_of` mwBlocks m' /\ mwCur m' = "" /\
  forall cs s, mstate m cs s -> exists cs', mstate m' (cs ++ cs') s.
Proof.
  intros Hc H. unfold metaFlush in H. split_and!.
  - unfold sealCurrent in H. case_match; inv_ok; [done|by eexists].
  - unfold sealCurrent in H. case_match eqn:E; inv_ok; [|done]. by apply String.eqb_eq.
  - intros cs s (Hb & _ & ->). eapply seal_holds in H as (cs' & Hs & _); [eauto|done|lia|done].
Qed.
End StreamFacts.

Section ReaderFacts.
  Context (c : Compressor).
  #[local] Notation holds := (holds c).

Lemma emitBlocks_app b1 b2 : emitBlocks (b1 ++ b2) = emitBlocks b1 +:+ emitBlocks b2.
Proof. induction b1 as [|b b1 IH]; [done|]. cbn [emitBlocks app]. by rewrite IH, sapp_assoc. Qed.

(** The header of a block is read back. *)
Lemma blockHeader_spec b :
  slen (mbData b) <= MetadataBlockSize ->
  uint 2 (blockHeader b) /\ (blockHeader b mod 2 ^ 15 = Z.of_nat (slen (mbData b)))%Z /\
  Z.testbit (blockHeader b) 15 = mbUncompressed b.
Proof.
  intros Hl. pose proof MetadataBlockSize_Z. unfold blockHeader, uint, MetadataUncompressedBit.
  set (n := Z.of_nat (slen (mbData b))). assert (0 <= n < 2 ^ 15)%Z as Hs by lia. destruct (mbUncompressed b).
  - rewrite Z.lor_comm. change (2 ^ 15)%Z with (Z.shiftl 1 15) at 1 2 3 5. rewrite lor_shiftl by lia.
    destruct (shifted_fields 1 n 15) as (E1 & _ & E2); [lia..|]. split_and!; [lia..|done|by rewrite E2].
  - destruct (shifted_fields 0 n 15) as (E1 & _ & E2); [lia..|]. rewrite Z.mul_0_l, Z.add_0_l in *.
    split_and!; [lia..|done|by rewrite E2].
Qed.

Lemma readBlock_emit bs1 b bs2 post content :
  holds b content ->
  readBlock c (emitBlocks (bs1 ++ b :: bs2) +:+ post) (slen (emitBlocks bs1))
  = Some (content, slen (emitBlocks (bs1 ++ [b]))).
Proof.
  intros (Hl & Hs & _). destruct (blockHeader_spec b Hs) as (Hu & Hm & Ht).
  unfold readBlock. rewrite emitBlocks_app, sapp_assoc, sdrop_app. cbn [emitBlocks].
  unfold emitBlock at 1. rewrite !sapp_assoc, field_le by done. cbv zeta. rewrite Hm, Nat2Z.id, bytesField_app, Ht, Hl.
  rewrite emitBlocks_app, slen_app. cbn [emitBlocks]. unfold emitBlock. rewrite !slen_app, slen_le_bytes.
  do 2 f_equal. cbn. lia.
Qed.

(** Reading from the [i]-th block on is reading the contents of the blocks
    from there on. *)
Lemma readMeta_emit post bs2 : forall fuel bs1 cs2 off n,
  Forall2 holds bs2 cs2 -> length bs2 <= fuel -> off < slen (sconcat cs2) -> off + n <= slen (sconcat cs2) ->
  readMeta c fuel (emitBlocks (bs1 ++ bs2) +:+ post) (slen (emitBlocks bs1)) off n = Some (stake n (sdrop off (sconcat cs2))).
Proof.
  induction bs2 as [|b bs2 IH]; intros fuel bs1 cs2 off n Hf Hfuel Hn Hle.
  { apply Forall2_nil_inv_l in Hf as ->. cbn in Hn. lia. }
  apply Forall2_cons_inv_l in Hf as (x & cs & Hb & Hf & ->). cbn [length sconcat] in *.
  destruct fuel as [|k]; [lia|]. cbn [readMeta]. rewrite (readBlock_emit bs1 b bs2 post x Hb).
  rewrite slen_app in *. rewrite slen_sdrop. destruct (Nat.leb_spec n (slen x - off)) as [Hc|Hc].
  - f_equal. destruct n as [|n]; [done|]. rewrite sdrop_app_le by lia. rewrite stake_app_le; [done|]. rewrite slen_sdrop. lia.
  - replace (bs1 ++ b :: bs2) with ((bs1 ++ [b]) ++ bs2) by by rewrite <- app_assoc.
    rewrite (IH k (bs1 ++ [b]) cs); [|done|lia..]. f_equal.
    destruct (Nat.leb_spec off (slen x)) as [Ho|Ho].
    + replace (off - slen x) with 0 by lia. cbn [sdrop]. rewrite sdrop_app_le by lia.
      rewrite (stake_split (slen (sdrop off x)) n) by (rewrite slen_sdrop; lia).
      rewrite stake_app, sdrop_app, slen_sdrop. done.
    + rewrite (sdrop_all off x) by lia. replace (slen x - off) with 0 by lia. rewrite Nat.sub_0_r. cbn.
      replace off with (slen x + (off - slen x)) at 2 by lia. by rewrite sdrop_app_plus.
Qed.

Lemma BlockByteOffset_emit m i :
  BlockByteOffset m i = Z.of_nat (slen (emitBlocks (take i (mwBlocks m)))).
Proof.
  unfold BlockByteOffset. induction (take i (mwBlocks m)) as [|b bs IH]; [done|]. cbn [foldr emitBlocks].
  rewrite IH. unfold blockBytes, emitBlock. rewrite !slen_app, slen_le_bytes. lia.
Qed.

(** The byte of the stream a reference names; a writer only appends blocks, so
    it stays the same. *)
Definition names (cs : list string) (r : metaRef) (pos : nat) : Prop :=
  refBlockIdx r <= length cs /\ slen (sconcat (take (refBlockIdx r) cs)) + Z.to_nat (refOffset r) = pos.

Lemma names_Ref m cs s : mstate c m cs s -> names cs (Ref m) (slen s).
Proof.
  intros (Hb & _ & ->). apply Forall2_length in Hb. split; cbn; [lia|].
  rewrite Hb, firstn_all, slen_app. lia.
Qed.

Lemma names_app cs cs' r pos : names cs r pos -> names (cs ++ cs') r pos.
Proof. intros [Hl Hp]. split; [rewrite length_app; lia|]. by rewrite take_app_le. Qed.

Lemma readMeta_names m cs s r pos n fuel post :
  mstate c m cs s -> mwCur m = "" -> names cs r pos -> pos < slen s -> pos + n <= slen s -> length (mwBlocks m) <= fuel ->
  readMeta c fuel (emitBlocks (mwBlocks m) +:+ post)
    (Z.to_nat (BlockByteOffset m (refBlockIdx r))) (Z.to_nat (refOffset r)) n
  = Some (stake n (sdrop pos s)).
Proof.
  intros (Hb & _ & ->) Hcur [Hi <-] Hn Hle Hf. rewrite Hcur, sapp_nil_r in *. set (i := refBlockIdx r) in *.
  rewrite BlockByteOffset_emit, !Nat2Z.id.
  rewrite <- (take_drop i (mwBlocks m)) at 1. rewrite <- (take_drop i cs) at 2. rewrite sconcat_app, sdrop_app_plus.
  pose proof (f_equal (slen ∘ sconcat) (take_drop i cs)) as E. cbn in E. rewrite sconcat_app, slen_app in E.
  apply readMeta_emit; [by apply Forall2_drop|rewrite length_drop|..]; lia.
Qed.

(** Reading a table that stands inside a file. *)
Lemma readMeta_shift fuel pre table : forall pos off n,
  readMeta c fuel (pre +:+ table) (slen pre + pos) off n = readMeta c fuel table pos off n.
Proof.
  induction fuel as [|k IH]; intros pos off n; [done|]. cbn [readMeta]. unfold readBlock. rewrite sdrop_app_plus.
  destruct (field 2 _) as [[h rest]|]; [|done]. destruct (bytesField _ rest) as [[data r]|]; [|done].
  destruct (loadBlock c _ data); [|done]. rewrite <- !Nat.add_assoc. by rewrite IH.
Qed.

Lemma emitBlocks_length bs : length bs <= slen (emitBlocks bs).
Proof.
  induction bs as [|b bs IH]; [done|]. cbn [emitBlocks length]. unfold emitBlock.
  rewrite !slen_app, slen_le_bytes. lia.
Qed.
End ReaderFacts.

(** ** Properties of the stream *)

(** Writes in a row. *)
Fixpoint metaWriteAll (c : Compressor) (m : metaWriter) (ps : list string) : result metaWriter :=
  match ps with
  | [] => Ok m
  | p :: rest => let! m' := metaWrite c m p in metaWriteAll c m' rest
  end.

Section AllFacts.
  Context (c : Compressor) `{!CompressorLaws c}.

Lemma metaWriteAll_app m ps qs :
  metaWriteAll c m (ps ++ qs) = let! m' := metaWriteAll c m ps in metaWriteAll c m' qs.
Proof. revert m. induction ps as [|p ps IH]; intros m; [done|]. cbn. destruct (metaWrite c m p); [apply IH|done]. Qed.

Lemma metaWriteAll_state m ps m' cs s :
  mstate c m cs s -> metaWriteAll c m ps = Ok m' ->
  mwBlocks m `prefix_of` mwBlocks m' /\ exists cs', mstate c m' (cs ++ cs') (s +:+ sconcat ps) /\ Forall full cs'.
Proof.
  revert m cs s. induction ps as [|p ps IH]; intros m cs s Hs H; cbn in H.
  { inv_ok. split; [done|]. exists []. rewrite app_nil_r, sapp_nil_r. by split; [|constructor]. }
  inv_ok. pose proof Hs as (_ & Hc & _). apply metaWrite_appends in H0 as [Hp Ha]; [|done..].
  destruct (Ha _ _ Hs) as (cs1 & H1 & F1). destruct (IH x _ _ H1 H) as (Hp' & cs2 & H2 & F2).
  split; [by etrans|]. exists (cs1 ++ cs2). cbn. rewrite app_assoc, <- sapp_assoc. split; [done|]. by apply Forall_app.
Qed.

(** A compressor that never fails never makes the writer fail. *)
Definition total : Prop := forall src, exists r, Compress c src = Ok r.

Lemma sealCurrent_total m : total -> exists m', sealCurrent c m = Ok m'.
Proof.
  intros Ht. unfold sealCurrent, storeBlock. destruct (Ht (mwCur m)) as [r ->]. cbn.
  case_match; [eauto|]. destruct r as [out|]; cbn; [case_match|]; eauto.
Qed.

Lemma metaWriteLoop_total : total -> forall fuel m p,
  slen p <= fuel -> slen (mwCur m) < MetadataBlockSize ->
  exists m', metaWriteLoop c fuel m p = Ok m' /\ slen (mwCur m') < MetadataBlockSize.
Proof.
  intros Ht. pose proof MetadataBlockSize_pos. induction fuel as [|k IH]; intros m p Hf Hc.
  { destruct p; [|cbn in Hf; lia]. by exists m. }
  destruct p as [|x p]; [by exists m|]. cbn [metaWriteLoop]. set (q := String x p) in *.
  set (n := Nat.min (slen q) (MetadataBlockSize - slen (mwCur m))).
  assert (0 < n <= slen q) by (subst n q; cbn [String.length]; lia). cbn [mwCur].
  assert (slen (mwCur m +:+ stake n q) <= MetadataBlockSize) by (rewrite slen_app, slen_stake; lia).
  assert (slen (sdrop n q) <= k) by (rewrite slen_sdrop; lia).
  destruct (Nat.eqb_spec (slen (mwCur m +:+ stake n q)) MetadataBlockSize) as [E|E].
  - destruct (sealCurrent_total (mkMetaWriter (mwCur m +:+ stake n q) (mwBlocks m)) Ht) as [m2 E2]. rewrite E2. cbn [rbind].
    apply IH; [done|]. unfold sealCurrent in E2. case_match eqn:Ee; inv_ok; [|done]. apply String.eqb_eq in Ee as ->. done.
  - cbn [rbind]. apply IH; [done|]. cbn [mwCur]. lia.
Qed.

Lemma metaWriteAll_total m ps : total -> slen (mwCur m) < MetadataBlockSize ->
  exists m', metaWriteAll c m ps = Ok m' /\ slen (mwCur m') < MetadataBlockSize.
Proof.
  intros Ht. revert m. induction ps as [|p ps IH]; intros m Hc; [by exists m|]. cbn.
  destruct (metaWriteLoop_total Ht (slen p) m p) as (m' & E & Hc'); [lia|done|]. unfold metaWrite. rewrite E. by apply IH.
Qed.
End AllFacts.

Lemma EmitTo_holds c m cs : Forall2 (holds c) (mwBlocks m) cs -> EmitTo m = Ok (emitBlocks (mwBlocks m)).
Proof.
  intros H. unfold EmitTo. replace (forallb _ _) with true; [done|]. symmetry. apply forallb_forall. intros b Hb.
  apply list_elem_of_In, list_elem_of_lookup in Hb as [i Hi].
  destruct (Forall2_lookup_l _ _ _ _ _ H Hi) as (x & _ & (_ & Hl & _)). by apply Nat.leb_le.
Qed.

(** A record is found where its reference says.  Whatever is written to a
    metadata stream before and after it, the bytes of a record are read back
    from the emitted table by the block offset and the offset in the block that
    were taken before the record was written, across as many blocks as it
    spans; with a compressor that does not fail the writes succeed. *)
Theorem meta_roundtrip c `{!CompressorLaws c} before p after m1 :
  total c -> p <> "" -> metaWriteAll c newMetaWriter before = Ok m1 ->
  exists m table,
    (let! m' := metaWriteAll c m1 (p :: after) in metaFlush c m') = Ok m /\ EmitTo m = Ok table /\
    readMeta c (length (mwBlocks m)) table (Z.to_nat (BlockByteOffset m (refBlockIdx (Ref m1))))
      (Z.to_nat (refOffset (Ref m1))) (slen p) = Some p.
Proof.
  intros Ht Hp H1. destruct (metaWriteAll_state c _ _ _ _ _ (mstate_new c) H1) as (_ & cs1 & S1 & _). cbn in S1.
  pose proof S1 as (_ & Hc1 & _). destruct (metaWriteAll_total c m1 (p :: after) Ht Hc1) as (m2 & H2 & Hc2).
  destruct (metaWriteAll_state c _ _ _ _ _ S1 H2) as (P2 & cs2 & S2 & _). rewrite H2. cbn [rbind].
  destruct (sealCurrent_total c m2 Ht) as [m E]. change (metaFlush c m2 = Ok m) in E. rewrite E.
  destruct (metaFlush_seals c m2 m Hc2 E) as (P3 & Hcur & Hf). destruct (Hf _ _ S2) as [cs3 S3].
  rewrite <- app_assoc in S3. pose proof S3 as (Hb & _ & _).
  exists m, (emitBlocks (mwBlocks m)). split_and!; [done|by eapply EmitTo_holds|].
  rewrite <- (sapp_nil_r (emitBlocks _)).
  rewrite (readMeta_names c m (cs1 ++ cs2 ++ cs3) _ (Ref m1) (slen (sconcat before)) (slen p) _ "" S3 Hcur); [..|done].
  - rewrite sdrop_app. cbn [sconcat]. by rewrite stake_app.
  - by apply names_app, (names_Ref c).
  - rewrite !slen_app. cbn [sconcat]. rewrite slen_app. destruct p; [done|cbn; lia].
  - rewrite !slen_app. cbn [sconcat]. rewrite slen_app. lia.
Qed.

(** A compressor that halves a run of one byte. *)
Definition exCompressor : Compressor := mkCompressor 1
  (fun s => Ok (match s with
                | String x (String y "") => if Ascii.eqb x y then Some (String x "") else None
                | _ => None
                end))
  (fun s => match s with String x "" => Some (String x (String x "")) | _ => None end).

#[export] Instance exCompressor_laws : CompressorLaws exCompressor.
Proof.
  split; [done|..]; intros src out; cbn; destruct src as [|x [|y [|]]]; try done;
    destruct (Ascii.eqb_spec x y) as [->|]; try done; by intros [= <-].
Qed.

Lemma meta_roundtrip_witness :
  exists m table,
    (let! m' := metaWriteAll exCompressor (mkMetaWriter "ab" []) ["cd"; "e"] in metaFlush exCompressor m') = Ok m /\
    EmitTo m = Ok table /\
    readMeta exCompressor (length (mwBlocks m)) table (Z.to_nat (BlockByteOffset m 0)) 2 2 = Some "cd".
Proof.
  refine (meta_roundtrip exCompressor ["ab"] "cd" ["e"] (mkMetaWriter "ab" []) _ _ _).
  - intros src. eexists. reflexivity.
  - discriminate.
  - vm_compute. reflexivity.
Defined.
