(* ===== verification/SquashCodec.v ===== *)
(** * SquashCodec: the records of a squashfs image ([squashfs/format.go],
      [superblock.go], [inode.go], [directory.go], [idtable.go]).

    Each record the writer encodes comes with the decoder a reader applies to
    it, and both are shown to be inverse.  Fields keep the width they have on
    disk. *)

From S2P Require Import Prelude GoStrings GoPath SquashMeta.

(** ** Format constants *)

Definition Magic : Z := 1936814952.
Definition VersionMajor : Z := 4.
Definition VersionMinor : Z := 0.
Definition MinBlockSize : Z := 4 * 1024.
Definition MaxBlockSize : Z := 1024 * 1024.
Definition DefaultBlockSize : Z := 128 * 1024.
Definition FlagNoFragments : Z := Z.shiftl 1 4.
Definition FlagNoXattrs : Z := Z.shiftl 1 9.
Definition InodeBasicDir : Z := 1.
Definition InodeBasicFile : Z := 2.
Definition InodeBasicSymlink : Z := 3.
Definition InodeBasicBlock : Z := 4.
Definition InodeBasicChar : Z := 5.
Definition InodeBasicFIFO : Z := 6.
Definition InodeBasicSocket : Z := 7.
Definition DataBlockUncompressedBit : Z := Z.shiftl 1 24.
Definition InvalidFragment : Z := 4294967295.
Definition noTable : Z := 18446744073709551615.

(** ** The superblock *)

Definition superblockSize : nat := 96.

Record superblock := mkSuperblock {
  sbInodeCount : Z;
  sbModTime : Z;
  sbBlockSize : Z;
  sbFragCount : Z;
  sbCompressor : Z;
  sbBlockLog : Z;
  sbFlags : Z;
  sbIdCount : Z;
  sbRootInodeRef : Z;
  sbBytesUsed : Z;
  sbIdTableStart : Z;
  sbXattrTableStart : Z;
  sbInodeTableStart : Z;
  sbDirectoryTableStart : Z;
  sbFragmentTableStart : Z;
  sbExportTableStart : Z
}.

Definition encodeSuperblock (sb : superblock) : string :=
  le_bytes 4 Magic +:+ le_bytes 4 (sbInodeCount sb) +:+ le_bytes 4 (sbModTime sb) +:+ le_bytes 4 (sbBlockSize sb)
  +:+ le_bytes 4 (sbFragCount sb) +:+ le_bytes 2 (sbCompressor sb) +:+ le_bytes 2 (sbBlockLog sb)
  +:+ le_bytes 2 (sbFlags sb) +:+ le_bytes 2 (sbIdCount sb) +:+ le_bytes 2 VersionMajor +:+ le_bytes 2 VersionMinor
  +:+ le_bytes 8 (sbRootInodeRef sb) +:+ le_bytes 8 (sbBytesUsed sb) +:+ le_bytes 8 (sbIdTableStart sb)
  +:+ le_bytes 8 (sbXattrTableStart sb) +:+ le_bytes 8 (sbInodeTableStart sb)
  +:+ le_bytes 8 (sbDirectoryTableStart sb) +:+ le_bytes 8 (sbFragmentTableStart sb)
  +:+ le_bytes 8 (sbExportTableStart sb).

(** [bits.TrailingZeros32] of a block size. *)
Definition blockLogFor (blockSize : Z) : Z := Z.log2 (Z.land blockSize (- blockSize)).

(** ** Entries *)

Inductive entryKind :=
  | kindFile | kindDir | kindSymlink | kindHardlink | kindCharDev | kindBlockDev | kindFIFO | kindSocket.
#[global] Instance entryKind_eq_dec : EqDecision entryKind.
Proof. solve_decision. Defined.

(** [Attrs]; the zero time is [None], other times are Unix seconds. *)
Record Attrs := mkAttrs {
  aPath : string;
  aMode : Z;
  aUID : Z;
  aGID : Z;
  aMtime : option Z
}.

Record entry := mkEntry {
  ePath : string;
  eKind : entryKind;
  eAttrs : Attrs;
  eInodeNumber : Z;
  eInodeRef : metaRef;
  eNlinks : Z;
  eUidIdx : Z;
  eGidIdx : Z;
  eFileBlocksStart : Z;
  eFileBlockSizes : list Z;
  eFileSize : Z;
  eSymlinkTarget : string;
  eHardlinkTarget : option string;
  eDevMajor : Z;
  eDevMinor : Z;
  eDirBlockStart : Z;
  eDirBlockOffset : Z;
  eDirListingSize : Z;
  eParentInode : Z
}.

(** Assignments to the fields. *)
Definition set_inode (v0 : Z) (v1 : Z) (e : entry) : entry :=
  mkEntry (ePath e) (eKind e) (eAttrs e) v0 (eInodeRef e) (eNlinks e) (eUidIdx e) (eGidIdx e)
    (eFileBlocksStart e) (eFileBlockSizes e) (eFileSize e) (eSymlinkTarget e) (eHardlinkTarget e) (eDevMajor
    e) (eDevMinor e) (eDirBlockStart e) (eDirBlockOffset e) (eDirListingSize e) v1.
Definition set_ref (v0 : metaRef) (e : entry) : entry :=
  mkEntry (ePath e) (eKind e) (eAttrs e) (eInodeNumber e) v0 (eNlinks e) (eUidIdx e) (eGidIdx e)
    (eFileBlocksStart e) (eFileBlockSizes e) (eFileSize e) (eSymlinkTarget e) (eHardlinkTarget e) (eDevMajor
    e) (eDevMinor e) (eDirBlockStart e) (eDirBlockOffset e) (eDirListingSize e) (eParentInode e).
Definition set_number (v0 : Z) (e : entry) : entry :=
  mkEntry (ePath e) (eKind e) (eAttrs e) v0 (eInodeRef e) (eNlinks e) (eUidIdx e) (eGidIdx e)
    (eFileBlocksStart e) (eFileBlockSizes e) (eFileSize e) (eSymlinkTarget e) (eHardlinkTarget e) (eDevMajor
    e) (eDevMinor e) (eDirBlockStart e) (eDirBlockOffset e) (eDirListingSize e) (eParentInode e).
Definition set_nlinks (v0 : Z) (e : entry) : entry :=
  mkEntry (ePath e) (eKind e) (eAttrs e) (eInodeNumber e) (eInodeRef e) v0 (eUidIdx e) (eGidIdx e)
    (eFileBlocksStart e) (eFileBlockSizes e) (eFileSize e) (eSymlinkTarget e) (eHardlinkTarget e) (eDevMajor
    e) (eDevMinor e) (eDirBlockStart e) (eDirBlockOffset e) (eDirListingSize e) (eParentInode e).
Definition set_ids (v0 : Z) (v1 : Z) (e : entry) : entry :=
  mkEntry (ePath e) (eKind e) (eAttrs e) (eInodeNumber e) (eInodeRef e) (eNlinks e) v0 v1
    (eFileBlocksStart e) (eFileBlockSizes e) (eFileSize e) (eSymlinkTarget e) (eHardlinkTarget e) (eDevMajor
    e) (eDevMinor e) (eDirBlockStart e) (eDirBlockOffset e) (eDirListingSize e) (eParentInode e).
Definition set_blocks (v0 : list Z) (e : entry) : entry :=
  mkEntry (ePath e) (eKind e) (eAttrs e) (eInodeNumber e) (eInodeRef e) (eNlinks e) (eUidIdx e) (eGidIdx
    e) (eFileBlocksStart e) v0 (eFileSize e) (eSymlinkTarget e) (eHardlinkTarget e) (eDevMajor e) (eDevMinor
    e) (eDirBlockStart e) (eDirBlockOffset e) (eDirListingSize e) (eParentInode e).
Definition set_size (v0 : Z) (e : entry) : entry :=
  mkEntry (ePath e) (eKind e) (eAttrs e) (eInodeNumber e) (eInodeRef e) (eNlinks e) (eUidIdx e) (eGidIdx
    e) (eFileBlocksStart e) (eFileBlockSizes e) v0 (eSymlinkTarget e) (eHardlinkTarget e) (eDevMajor e)
    (eDevMinor e) (eDirBlockStart e) (eDirBlockOffset e) (eDirListingSize e) (eParentInode e).
Definition set_listing (v0 : Z) (v1 : Z) (v2 : Z) (e : entry) : entry :=
  mkEntry (ePath e) (eKind e) (eAttrs e) (eInodeNumber e) (eInodeRef e) (eNlinks e) (eUidIdx e) (eGidIdx
    e) (eFileBlocksStart e) (eFileBlockSizes e) (eFileSize e) (eSymlinkTarget e) (eHardlinkTarget e)
    (eDevMajor e) (eDevMinor e) v0 v1 v2 (eParentInode e).

(** An entry as the [Create] methods make it: the fields they set, and zero in
    the others. *)
Definition newEntry (path : string) (kind : entryKind) (attrs : Attrs) (fileBlocksStart : Z)
    (symlinkTarget : string) (hardlinkTarget : option string) (devMajor devMinor : Z) : entry :=
  mkEntry path kind attrs 0 (mkMetaRef 0 0) 0 0 0 fileBlocksStart [] 0 symlinkTarget hardlinkTarget
    devMajor devMinor 0 0 0 0.

Definition noAttrs : Attrs := mkAttrs "" 0 0 0 None.

(** ** Inodes *)

Definition encodePerm (e : entry) : Z :=
  Z.lor (Z.land (aMode (eAttrs e)) 511) (Z.land (aMode (eAttrs e)) 3584).

Definition encodeDevice (major minor : Z) : result Z :=
  if (4095 <? major)%Z then Err "squashfs: device major exceeds 12-bit limit"
  else if (255 <? minor)%Z then Err "squashfs: device minor exceeds 8-bit limit (squashfs format constraint)"
  else Ok (Z.lor (Z.shiftl major 8) minor).

Definition writeCommonHeader (typ : Z) (e : entry) (mtime : Z) : string :=
  le_bytes 2 typ +:+ le_bytes 2 (encodePerm e) +:+ le_bytes 2 (eUidIdx e) +:+ le_bytes 2 (eGidIdx e)
  +:+ le_bytes 4 mtime +:+ le_bytes 4 (eInodeNumber e).

Definition encodeBasicDir (e : entry) (mtime : Z) : result string :=
  if (4294967295 <? eDirBlockStart e)%Z
  then Err "squashfs: directory table exceeds 4 GiB (need extended dir support)"
  else let listingSize := ((eDirListingSize e + 3) mod 2 ^ 32)%Z in
  if (65535 <? listingSize)%Z then Err "squashfs: directory listing exceeds 64 KiB (need extended dir support)"
  else Ok (writeCommonHeader InodeBasicDir e mtime
           +:+ le_bytes 4 (eDirBlockStart e) +:+ le_bytes 4 (eNlinks e) +:+ le_bytes 2 listingSize
           +:+ le_bytes 2 (eDirBlockOffset e) +:+ le_bytes 4 (eParentInode e)).

(** The number of blocks of a file. *)
Definition blockCount (blockSize size : Z) : Z := ((size + blockSize - 1) / blockSize)%Z.

Definition encodeBasicFile (e : entry) (mtime blockSize : Z) : result string :=
  if (4294967295 <? eFileBlocksStart e)%Z
  then Err "squashfs: archive exceeds 4 GiB before file inode (need extended file support)"
  else if (4294967295 <? eFileSize e)%Z then Err "squashfs: file exceeds 4 GiB (need extended file support)"
  else if negb (Z.of_nat (length (eFileBlockSizes e)) =? blockCount blockSize (eFileSize e))%Z
  then Err "squashfs: block-size count does not match file size"
  else Ok (writeCommonHeader InodeBasicFile e mtime
           +:+ le_bytes 4 (eFileBlocksStart e) +:+ le_bytes 4 InvalidFragment +:+ le_bytes 4 0
           +:+ le_bytes 4 (eFileSize e) +:+ sconcat (map (le_bytes 4) (eFileBlockSizes e))).

Definition encodeBasicSymlink (e : entry) (mtime : Z) : result string :=
  if (65535 <? Z.of_nat (slen (eSymlinkTarget e)))%Z then Err "squashfs: symlink target exceeds 65535 bytes"
  else Ok (writeCommonHeader InodeBasicSymlink e mtime
           +:+ le_bytes 4 (eNlinks e) +:+ le_bytes 4 (Z.of_nat (slen (eSymlinkTarget e))) +:+ eSymlinkTarget e).

Definition encodeBasicDevice (e : entry) (mtime : Z) (block : bool) : result string :=
  let! dev := encodeDevice (eDevMajor e) (eDevMinor e) in
  Ok (writeCommonHeader (if block then InodeBasicBlock else InodeBasicChar) e mtime
      +:+ le_bytes 4 (eNlinks e) +:+ le_bytes 4 dev).

Definition encodeBasicIPC (e : entry) (mtime : Z) (socket : bool) : string :=
  writeCommonHeader (if socket then InodeBasicSocket else InodeBasicFIFO) e mtime +:+ le_bytes 4 (eNlinks e).

(** ** Directory listings *)

Definition maxDirEntriesPerHeader : nat := 256.

Record dirEntry := mkDirEntry {
  deName : string;
  deChildInode : Z;
  deInodeBlockByte : Z;
  deInodeBlockOff : Z;
  deBasicType : Z
}.

(** [sort.Slice] by name; names in a directory differ, so the order is the
    only one. *)
Definition byName (a b : dirEntry) : Prop := sle (deName a) (deName b).
#[global] Instance byName_dec : RelDecision byName.
Proof. intros a b. unfold byName. apply _. Defined.

#[global] Instance byName_trans : Transitive byName.
Proof. intros a b c. unfold byName. apply sle_trans. Qed.
#[global] Instance byName_total : Total byName.
Proof. intros a b. unfold byName. apply sle_total. Qed.

(** The entry can stand under the header of [base]. *)
Definition sameHeader (base e : dirEntry) : bool :=
  let delta := (deChildInode e - deChildInode base)%Z in
  (deInodeBlockByte e =? deInodeBlockByte base)%Z && negb ((32767 <? delta)%Z || (delta <? -32768)%Z).

(** The probing loop: at most [n] more entries that can stand under the header
    of [base], and what follows them. *)
Fixpoint takeRun (base : dirEntry) (n : nat) (es : list dirEntry) : list dirEntry * list dirEntry :=
  match n, es with
  | S k, e :: rest =>
      if sameHeader base e then let '(run, more) := takeRun base k rest in (e :: run, more) else ([], es)
  | _, _ => ([], es)
  end.

Definition encodeDirHeader (count : Z) (base : dirEntry) : string :=
  le_bytes 4 (count - 1) +:+ le_bytes 4 (deInodeBlockByte base) +:+ le_bytes 4 (deChildInode base).

Definition encodeDirEntry (base e : dirEntry) : string :=
  le_bytes 2 (deInodeBlockOff e) +:+ le_bytes 2 (deChildInode e - deChildInode base)
  +:+ le_bytes 2 (deBasicType e) +:+ le_bytes 2 (Z.of_nat (slen (deName e)) - 1) +:+ deName e.

Section Listing.
  Context (c : Compressor).

(** The entries under one header; [n] counts the bytes in 32 bits. *)
Fixpoint writeDirEntries (m : metaWriter) (base : dirEntry) (es : list dirEntry) (n : Z) : result (metaWriter * Z) :=
  match es with
  | [] => Ok (m, n)
  | e :: rest =>
      if (slen (deName e) =? 0) || (256 <? Z.of_nat (slen (deName e)))%Z
      then Err "squashfs: directory entry name must be 1..256 bytes"
      else let buf := encodeDirEntry base e in
           let! m' := metaWrite c m buf in
           writeDirEntries m' base rest ((n + Z.of_nat (slen buf)) mod 2 ^ 32)%Z
  end.

(** The loop over the headers; each takes at least one entry, so the number of
    entries is fuel enough. *)
Fixpoint writeDirGroups (fuel : nat) (m : metaWriter) (es : list dirEntry) (n : Z) : result (metaWriter * Z) :=
  match es, fuel with
  | [], _ => Ok (m, n)
  | _, 0 => Err "out of fuel"
  | base :: rest, S k =>
      let '(run, more) := takeRun base (maxDirEntriesPerHeader - 1) rest in
      let! m1 := metaWrite c m (encodeDirHeader (Z.of_nat (length (base :: run))) base) in
      let! r := writeDirEntries m1 base (base :: run) ((n + 12) mod 2 ^ 32)%Z in
      writeDirGroups k r.1 more r.2
  end.

Definition writeDirListing (m : metaWriter) (entries : list dirEntry) : result (metaRef * Z * metaWriter) :=
  let entries := isort byName entries in
  let! r := writeDirGroups (length entries) m entries 0 in
  Ok (Ref m, r.2, r.1).
End Listing.

(** [basicTypeFor]; [targetKind] is the kind of a hard link's target. *)
Definition basicTypeFor (kind : entryKind) (targetKind : option entryKind) : Z :=
  let k := match kind, targetKind with kindHardlink, Some k => k | k, _ => k end in
  match k with
  | kindFile => InodeBasicFile
  | kindDir => InodeBasicDir
  | kindSymlink => InodeBasicSymlink
  | kindBlockDev => InodeBasicBlock
  | kindCharDev => InodeBasicChar
  | kindFIFO => InodeBasicFIFO
  | kindSocket => InodeBasicSocket
  | kindHardlink => 0
  end.

(** ** The ID table *)

Definition idsPerMetaBlock : nat := 2048.
Definition maxIDs : Z := 65535.

Record idTable := mkIdTable {
  idIndex : gmap Z Z;
  idList : list Z
}.

Definition newIDTable : idTable := mkIdTable ∅ [].

Definition Intern (t : idTable) (id : Z) : result (Z * idTable) :=
  match idIndex t !! id with
  | Some idx => Ok (idx, t)
  | None =>
      if (maxIDs <=? Z.of_nat (length (idList t)))%Z
      then Err "squashfs: more than 65535 distinct UID/GID values"
      else let idx := Z.of_nat (length (idList t)) in
           Ok (idx, mkIdTable (<[id := idx]> (idIndex t)) (idList t ++ [id]))
  end.

Definition Count (t : idTable) : Z := (Z.of_nat (length (idList t)) mod 2 ^ 16)%Z.

Section Ids.
  Context (c : Compressor).

(** The loop of [WriteData] from the [i]-th id on. *)
Fixpoint writeIDs (i : nat) (ids : list Z) (m : metaWriter) (startBlocks : list nat)
    : result (metaWriter * list nat) :=
  match ids with
  | [] => Ok (m, startBlocks)
  | id :: rest =>
      let! r := (if i mod idsPerMetaBlock =? 0 then
                   let! m1 := (if i =? 0 then Ok m else metaFlush c m) in
                   Ok (m1, startBlocks ++ [length (mwBlocks m1)])
                 else Ok (m, startBlocks)) in
      let! m2 := metaWrite c r.1 (le_bytes 4 id) in
      writeIDs (S i) rest m2 r.2
  end.

(** [WriteData]: the file offsets of the blocks, and the bytes. *)
Definition WriteData (t : idTable) (fileOffsetBase : Z) : result (list Z * string) :=
  if bool_decide (idList t = []) then Ok ([], "")
  else
    let! r := writeIDs 0 (idList t) newMetaWriter [] in
    let! m := metaFlush c r.1 in
    let! bytes := EmitTo m in
    Ok (map (fun bi => (fileOffsetBase + BlockByteOffset m bi)%Z) r.2, bytes).
End Ids.

Definition WriteLookup (blockOffsets : list Z) : string := sconcat (map (le_bytes 8) blockOffsets).

(** The encoder of [writeOneInode] for the kind of an entry. *)
Definition encodeInode (e : entry) (mtime blockSize : Z) : result string :=
  match eKind e with
  | kindFile => encodeBasicFile e mtime blockSize
  | kindDir => encodeBasicDir e mtime
  | kindSymlink => encodeBasicSymlink e mtime
  | kindCharDev => encodeBasicDevice e mtime false
  | kindBlockDev => encodeBasicDevice e mtime true
  | kindFIFO => Ok (encodeBasicIPC e mtime false)
  | kindSocket => Ok (encodeBasicIPC e mtime true)
  | kindHardlink => Err ("squashfs: unsupported entry kind for " +:+ ePath e)
  end.

(** ** Reading the records *)

Inductive inodeBody :=
  | BodyDir (blockStart nlinks listing offset parent : Z)
  | BodyFile (blocksStart size : Z) (blockSizes : list Z)
  | BodySymlink (nlinks : Z) (target : string)
  | BodyDevice (nlinks dev : Z)
  | BodyIPC (nlinks : Z).

Record inode := mkInode {
  inType : Z;
  inPerm : Z;
  inUid : Z;
  inGid : Z;
  inMtime : Z;
  inNumber : Z;
  inBody : inodeBody
}.

Definition readSuperblock (s : string) : option superblock :=
  '(magic, s) ← field 4 s; '(inodes, s) ← field 4 s; '(mtime, s) ← field 4 s; '(bsize, s) ← field 4 s;
  '(frags, s) ← field 4 s; '(comp, s) ← field 2 s; '(blog, s) ← field 2 s; '(flags, s) ← field 2 s;
  '(ids, s) ← field 2 s; '(major, s) ← field 2 s; '(minor, s) ← field 2 s; '(root, s) ← field 8 s;
  '(used, s) ← field 8 s; '(idt, s) ← field 8 s; '(xt, s) ← field 8 s; '(it, s) ← field 8 s;
  '(dt, s) ← field 8 s; '(ft, s) ← field 8 s; '(et, s) ← field 8 s;
  if (magic =? Magic)%Z && (major =? VersionMajor)%Z && (minor =? VersionMinor)%Z
  then Some (mkSuperblock inodes mtime bsize frags comp blog flags ids root used idt xt it dt ft et)
  else None.

(** [n] numbers of [w] bytes. *)
Fixpoint fieldsOf (w n : nat) (s : string) : option (list Z) :=
  match n with
  | 0 => Some []
  | S k => '(z, rest) ← field w s; more ← fieldsOf w k rest; Some (z :: more)
  end.

(** The part of an inode that depends on its type, read by [rd] from the start
    of the inode. *)
Definition readBody (blockSize : Z) (rd : nat -> option string) (typ : Z) : option inodeBody :=
  if (typ =? InodeBasicDir)%Z then
    whole ← rd 32;
    '(start, s) ← field 4 (sdrop 16 whole); '(nlinks, s) ← field 4 s; '(size, s) ← field 2 s;
    '(off, s) ← field 2 s; '(parent, _) ← field 4 s;
    Some (BodyDir start nlinks size off parent)
  else if (typ =? InodeBasicFile)%Z then
    whole ← rd 32;
    '(start, s) ← field 4 (sdrop 16 whole); '(frag, s) ← field 4 s; '(_, s) ← field 4 s; '(size, _) ← field 4 s;
    let n := Z.to_nat (blockCount blockSize size) in
    whole ← rd (32 + 4 * n); sizes ← fieldsOf 4 n (sdrop 32 whole);
    Some (BodyFile start size sizes)
  else if (typ =? InodeBasicSymlink)%Z then
    whole ← rd 24;
    '(nlinks, s) ← field 4 (sdrop 16 whole); '(len, _) ← field 4 s;
    whole ← rd (24 + Z.to_nat len); '(target, _) ← bytesField (Z.to_nat len) (sdrop 24 whole);
    Some (BodySymlink nlinks target)
  else if (typ =? InodeBasicBlock)%Z || (typ =? InodeBasicChar)%Z then
    whole ← rd 24; '(nlinks, s) ← field 4 (sdrop 16 whole); '(dev, _) ← field 4 s;
    Some (BodyDevice nlinks dev)
  else if (typ =? InodeBasicFIFO)%Z || (typ =? InodeBasicSocket)%Z then
    whole ← rd 20; '(nlinks, _) ← field 4 (sdrop 16 whole);
    Some (BodyIPC nlinks)
  else None.

(** The inode at a place from which [rd] reads. *)
Definition readInode (blockSize : Z) (rd : nat -> option string) : option inode :=
  header ← rd 16;
  '(typ, s) ← field 2 header; '(perm, s) ← field 2 s; '(uid, s) ← field 2 s; '(gid, s) ← field 2 s;
  '(mtime, s) ← field 4 s; '(number, _) ← field 4 s;
  body ← readBody blockSize rd typ;
  Some (mkInode typ perm uid gid mtime number body).

(** A directory entry as a reader sees it: the name, the type, the inode
    number, and where the inode is. *)
Record dirItem := mkDirItem {
  diName : string;
  diType : Z;
  diNumber : Z;
  diBlock : Z;
  diOffset : Z
}.

Definition int16 (z : Z) : Z := if (z <? 32768)%Z then z else (z - 65536)%Z.

Fixpoint readDirEntries (n : nat) (block base : Z) (s : string) : option (list dirItem * string) :=
  match n with
  | 0 => Some ([], s)
  | S k =>
      '(off, s) ← field 2 s; '(delta, s) ← field 2 s; '(typ, s) ← field 2 s; '(len, s) ← field 2 s;
      '(name, s) ← bytesField (Z.to_nat (len + 1)) s;
      '(more, s) ← readDirEntries k block base s;
      Some (mkDirItem name typ (base + int16 delta) block off :: more, s)
  end.

(** A listing; every header takes bytes, so its length is fuel enough. *)
Fixpoint readListing (fuel : nat) (s : string) : option (list dirItem) :=
  match s, fuel with
  | EmptyString, _ => Some []
  | _, 0 => None
  | _, S k =>
      '(count, s) ← field 4 s; '(block, s) ← field 4 s; '(base, s) ← field 4 s;
      '(items, s) ← readDirEntries (Z.to_nat (count + 1)) block base s;
      more ← readListing k s;
      Some (items ++ more)
  end.

(** The [idx]-th id of the table whose lookup list starts at [lookupStart]. *)
Definition readID (c : Compressor) (img : string) (lookupStart : Z) (idx : Z) : option Z :=
  let i := Z.to_nat idx in
  '(off, _) ← field 8 (sdrop (Z.to_nat lookupStart + 8 * (i / idsPerMetaBlock)) img);
  bytes ← readMeta c (slen img) img (Z.to_nat off) (4 * (i mod idsPerMetaBlock)) 4;
  Some (le_value bytes).

(** ** Facts *)

(** Reads the fields at the front of the string, one by one. *)
Ltac next_field :=
  first [ rewrite field_le by first [assumption | done | unfold uint; cbn; lia] | rewrite bytesField_app ];
  cbn [mbind option_bind].
Ltac fields := rewrite ?sapp_assoc; repeat next_field.

Definition wfSuperblock (sb : superblock) : Prop :=
  uint 4 (sbInodeCount sb) /\ uint 4 (sbModTime sb) /\ uint 4 (sbBlockSize sb) /\ uint 4 (sbFragCount sb) /\
  uint 2 (sbCompressor sb) /\ uint 2 (sbBlockLog sb) /\ uint 2 (sbFlags sb) /\ uint 2 (sbIdCount sb) /\
  uint 8 (sbRootInodeRef sb) /\ uint 8 (sbBytesUsed sb) /\ uint 8 (sbIdTableStart sb) /\
  uint 8 (sbXattrTableStart sb) /\ uint 8 (sbInodeTableStart sb) /\ uint 8 (sbDirectoryTableStart sb) /\
  uint 8 (sbFragmentTableStart sb) /\ uint 8 (sbExportTableStart sb).

Lemma superblock_roundtrip sb rest :
  wfSuperblock sb -> readSuperblock (encodeSuperblock sb +:+ rest) = Some sb.
Proof.
  intros (? & ? & ? & ? & ? & ? & ? & ? & ? & ? & ? & ? & ? & ? & ? & ?).
  unfold readSuperblock, encodeSuperblock. fields. by destruct sb.
Qed.

Lemma slen_encodeSuperblock sb : slen (encodeSuperblock sb) = superblockSize.
Proof. unfold encodeSuperblock. by rewrite !slen_app, !slen_le_bytes. Qed.

(** The fields of an entry are in the ranges of their types; the encoders check
    that the 64-bit ones fit. *)
Definition wfEntry (e : entry) : Prop :=
  uint 4 (eInodeNumber e) /\ uint 4 (eParentInode e) /\ uint 4 (eNlinks e) /\ uint 2 (eUidIdx e) /\ uint 2 (eGidIdx e) /\
  (0 <= eFileBlocksStart e)%Z /\ Forall (uint 4) (eFileBlockSizes e) /\ (0 <= eFileSize e)%Z /\
  uint 4 (eDevMajor e) /\ uint 4 (eDevMinor e) /\ (0 <= eDirBlockStart e)%Z /\ uint 2 (eDirBlockOffset e) /\
  uint 4 (eDirListingSize e).


Lemma encodePerm_uint e : uint 2 (encodePerm e).
Proof.
  unfold encodePerm, uint. rewrite <- Z.land_lor_distr_r. change (Z.lor 511 3584) with (Z.ones 12).
  rewrite Z.land_ones by lia. pose proof (Z.mod_pos_bound (aMode (eAttrs e)) (2 ^ 12) ltac:(lia)). cbn in *. lia.
Qed.

Lemma encodePerm_eq e : encodePerm e = (aMode (eAttrs e) mod 2 ^ 12)%Z.
Proof.
  unfold encodePerm. rewrite <- Z.land_lor_distr_r. change (Z.lor 511 3584) with (Z.ones 12).
  by rewrite Z.land_ones by lia.
Qed.

(** *** Inodes *)

Definition bodyOf (e : entry) : inodeBody :=
  match eKind e with
  | kindFile => BodyFile (eFileBlocksStart e) (eFileSize e) (eFileBlockSizes e)
  | kindDir => BodyDir (eDirBlockStart e) (eNlinks e) ((eDirListingSize e + 3) mod 2 ^ 32) (eDirBlockOffset e) (eParentInode e)
  | kindSymlink => BodySymlink (eNlinks e) (eSymlinkTarget e)
  | kindCharDev | kindBlockDev => BodyDevice (eNlinks e) (eDevMajor e * 256 + eDevMinor e)
  | kindFIFO | kindSocket | kindHardlink => BodyIPC (eNlinks e)
  end.

(** The inode an entry is read as. *)
Definition inodeOf (e : entry) (mtime : Z) : inode :=
  mkInode (basicTypeFor (eKind e) None) (encodePerm e) (eUidIdx e) (eGidIdx e) mtime (eInodeNumber e) (bodyOf e).

Lemma slen_header typ e mtime : slen (writeCommonHeader typ e mtime) = 16.
Proof. unfold writeCommonHeader. by rewrite !slen_app, !slen_le_bytes. Qed.

Lemma fieldsOf_le w zs rest :
  Forall (uint w) zs -> fieldsOf w (length zs) (sconcat (map (le_bytes w) zs) +:+ rest) = Some zs.
Proof.
  induction zs as [|z zs IH]; intros H; [done|]. apply Forall_cons in H as [Hz H]. cbn [map sconcat length fieldsOf].
  rewrite sapp_assoc, field_le by done. cbn [mbind option_bind]. by rewrite IH.
Qed.

Lemma slen_fields w zs : slen (sconcat (map (le_bytes w) zs)) = w * length zs.
Proof. induction zs as [|z zs IH]; cbn [map sconcat length]; [cbn; lia|]. rewrite slen_app, slen_le_bytes, IH. lia. Qed.

Section InodeFacts.
  Context (rd : nat -> option string) (body rest : string).
  Context (reads : forall n, n <= slen body -> rd n = Some (stake n (body +:+ rest))).

Lemma rd_exact a b : body = a +:+ b -> rd (slen a) = Some a.
Proof.
  intros E. rewrite reads by (rewrite E, slen_app; lia). by rewrite E, sapp_assoc, stake_app.
Qed.

Lemma readInode_header blockSize typ e mtime tail b :
  body = writeCommonHeader typ e mtime +:+ tail -> wfEntry e -> uint 4 mtime -> uint 2 typ ->
  readBody blockSize rd typ = Some b ->
  readInode blockSize rd = Some (mkInode typ (encodePerm e) (eUidIdx e) (eGidIdx e) mtime (eInodeNumber e) b).
Proof.
  intros E (? & _ & _ & ? & ? & _) Hm Ht Hb. pose proof (encodePerm_uint e). pose proof (rd_exact _ _ E) as R.
  rewrite slen_header in R. unfold readInode. rewrite R. cbn [mbind option_bind]. unfold writeCommonHeader.
  rewrite <- (sapp_nil_r (le_bytes 4 (eInodeNumber e))). fields. by rewrite Hb.
Qed.

(** What follows the header. *)
Lemma rd_tail h a b n : body = h +:+ a +:+ b -> slen h = 16 -> slen a = n -> rd (16 + n) = Some (h +:+ a).
Proof.
  intros E Hh <-. rewrite <- Hh, <- slen_app. apply (rd_exact _ b). by rewrite sapp_assoc.
Qed.

Lemma readBody_file blockSize h start size sizes :
  body = h +:+ le_bytes 4 start +:+ le_bytes 4 InvalidFragment +:+ le_bytes 4 0 +:+ le_bytes 4 size
         +:+ sconcat (map (le_bytes 4) sizes) ->
  slen h = 16 -> uint 4 start -> uint 4 size -> Forall (uint 4) sizes ->
  Z.of_nat (length sizes) = blockCount blockSize size ->
  readBody blockSize rd InodeBasicFile = Some (BodyFile start size sizes).
Proof.
  intros E Hh Hst Hsz Hs Hn. unfold readBody. cbn [Z.eqb InodeBasicFile InodeBasicDir Pos.eqb].
  set (fixed := le_bytes 4 start +:+ le_bytes 4 InvalidFragment +:+ le_bytes 4 0 +:+ le_bytes 4 size).
  assert (slen fixed = 16) as Hfx by (unfold fixed; by rewrite !slen_app, !slen_le_bytes).
  assert (body = h +:+ fixed +:+ sconcat (map (le_bytes 4) sizes)) as E1 by (unfold fixed; by rewrite E, !sapp_assoc).
  assert (rd 32 = Some (h +:+ fixed)) as -> by exact (rd_tail _ _ _ 16 E1 Hh Hfx). cbn [mbind option_bind].
  rewrite <- Hh at 1. rewrite sdrop_app. unfold fixed at 1. rewrite <- (sapp_nil_r (le_bytes 4 size)). fields.
  rewrite <- Hn, Nat2Z.id. assert (rd (32 + 4 * length sizes) = Some body) as ->.
  { rewrite <- (slen_fields 4), <- Hfx at 1. assert (32 = 16 + 16) as E2 by done.
    replace (32 + _) with (slen body) by (rewrite E1, !slen_app; lia). apply (rd_exact _ ""). by rewrite sapp_nil_r. }
  cbn [mbind option_bind]. replace 32 with (slen (h +:+ fixed)) by (rewrite slen_app; lia).
  rewrite E1, <- sapp_assoc, sdrop_app, <- (sapp_nil_r (sconcat _)), fieldsOf_le by done. done.
Qed.

Lemma rd_whole n : slen body = n -> rd n = Some body.
Proof. intros <-. apply (rd_exact _ ""). by rewrite sapp_nil_r. Qed.

Lemma readBody_dir blockSize h start nlinks size off parent :
  body = h +:+ le_bytes 4 start +:+ le_bytes 4 nlinks +:+ le_bytes 2 size +:+ le_bytes 2 off +:+ le_bytes 4 parent ->
  slen h = 16 -> uint 4 start -> uint 4 nlinks -> uint 2 size -> uint 2 off -> uint 4 parent ->
  readBody blockSize rd InodeBasicDir = Some (BodyDir start nlinks size off parent).
Proof.
  intros E Hh ? ? ? ? ?. unfold readBody. cbn [Z.eqb InodeBasicDir Pos.eqb].
  rewrite (rd_whole 32) by by rewrite E, !slen_app, !slen_le_bytes, Hh.
  cbn [mbind option_bind]. rewrite E, <- Hh, sdrop_app, <- (sapp_nil_r (le_bytes 4 parent)). by fields.
Qed.

Lemma readBody_symlink blockSize h nlinks target :
  body = h +:+ le_bytes 4 nlinks +:+ le_bytes 4 (Z.of_nat (slen target)) +:+ target ->
  slen h = 16 -> uint 4 nlinks -> uint 4 (Z.of_nat (slen target)) ->
  readBody blockSize rd InodeBasicSymlink = Some (BodySymlink nlinks target).
Proof.
  intros E Hh ? ?. unfold readBody. cbn [Z.eqb InodeBasicDir InodeBasicFile InodeBasicSymlink Pos.eqb].
  rewrite <- (sapp_assoc (le_bytes 4 nlinks)) in E.
  assert (rd 24 = Some (h +:+ le_bytes 4 nlinks +:+ le_bytes 4 (Z.of_nat (slen target)))) as ->
    by (apply (rd_tail _ _ _ 8 E Hh); by rewrite slen_app, !slen_le_bytes).
  cbn [mbind option_bind]. rewrite <- Hh at 1. rewrite sdrop_app, <- (sapp_nil_r (le_bytes 4 (Z.of_nat (slen target)))).
  fields. rewrite Nat2Z.id, rd_whole by (rewrite E, !slen_app, !slen_le_bytes, Hh; lia). cbn [mbind option_bind].
  replace 24 with (slen (h +:+ le_bytes 4 nlinks +:+ le_bytes 4 (Z.of_nat (slen target))))
    by by rewrite !slen_app, !slen_le_bytes, Hh.
  rewrite <- sapp_assoc in E. by rewrite E, sdrop_app, bytesField_all.
Qed.

Lemma readBody_device blockSize typ h nlinks dev :
  typ = InodeBasicBlock \/ typ = InodeBasicChar ->
  body = h +:+ le_bytes 4 nlinks +:+ le_bytes 4 dev -> slen h = 16 -> uint 4 nlinks -> uint 4 dev ->
  readBody blockSize rd typ = Some (BodyDevice nlinks dev).
Proof.
  intros Ht E Hh ? ?. unfold readBody. rewrite (rd_whole 24) by by rewrite E, !slen_app, !slen_le_bytes, Hh.
  destruct Ht as [-> | ->]; cbn -[le_bytes sdrop field]; rewrite E, <- Hh, sdrop_app, <- (sapp_nil_r (le_bytes 4 dev));
    by fields.
Qed.

Lemma readBody_ipc blockSize typ h nlinks :
  typ = InodeBasicFIFO \/ typ = InodeBasicSocket ->
  body = h +:+ le_bytes 4 nlinks -> slen h = 16 -> uint 4 nlinks ->
  readBody blockSize rd typ = Some (BodyIPC nlinks).
Proof.
  intros Ht E Hh ?. unfold readBody. rewrite (rd_whole 20) by by rewrite E, !slen_app, !slen_le_bytes, Hh.
  destruct Ht as [-> | ->]; cbn -[le_bytes sdrop field]; rewrite E, <- Hh, sdrop_app, <- (sapp_nil_r (le_bytes 4 nlinks));
    by fields.
Qed.

End InodeFacts.

Lemma encodeDevice_spec major minor dev :
  uint 4 major -> uint 4 minor -> encodeDevice major minor = Ok dev -> dev = (major * 256 + minor)%Z /\ uint 4 dev.
Proof.
  unfold encodeDevice, uint. intros. repeat case_match; inv_ok. rewrite lor_shiftl_8 by lia. lia.
Qed.

Lemma Ok_inj {A} (a b : A) : Ok a = Ok b -> a = b.
Proof. congruence. Qed.

(** An inode is read back from the bytes its encoder gives. *)
Lemma readInode_encode rd body rest e mtime blockSize :
  (forall n, n <= slen body -> rd n = Some (stake n (body +:+ rest))) ->
  encodeInode e mtime blockSize = Ok body -> wfEntry e -> uint 4 mtime ->
  readInode blockSize rd = Some (inodeOf e mtime).
Proof.
  intros R H W Hm. pose proof W as (Hn & Hp & Hl & Hu & Hg & Hb & Hbs & Hs & Hma & Hmi & Hds & Hdo & Hls).
  unfold inodeOf, bodyOf. unfold encodeInode in H. destruct (eKind e).
  - unfold encodeBasicFile in H. repeat (case_match; [done|]). apply Ok_inj in H as <-.
    eapply readInode_header; [exact R|reflexivity|done..|]. eapply readBody_file; [exact R|reflexivity|apply slen_header|unfold uint in *; lia..|done|].
    by apply Z.eqb_eq, negb_false_iff.
  - unfold encodeBasicDir in H. repeat (case_match; [done|]). apply Ok_inj in H as <-.
    eapply readInode_header; [exact R|reflexivity|done..|]. eapply readBody_dir; [exact R|reflexivity|apply slen_header|unfold uint in *; lia|done| |done..].
    unfold uint in *. pose proof (Z.mod_pos_bound (eDirListingSize e + 3) (2 ^ 32)). lia.
  - unfold encodeBasicSymlink in H. case_match; [done|]. apply Ok_inj in H as <-.
    eapply readInode_header; [exact R|reflexivity|done..|]. eapply readBody_symlink; [exact R|reflexivity|apply slen_header|done|unfold uint; lia].
  - done.
  - unfold encodeBasicDevice in H. apply rbind_Ok in H as (dev & H0 & H). apply Ok_inj in H as <-.
    apply encodeDevice_spec in H0 as [<- Hd]; [|done..].
    eapply readInode_header; [exact R|reflexivity|done..|]. eapply readBody_device; [exact R|by right|reflexivity|apply slen_header|done..].
  - unfold encodeBasicDevice in H. apply rbind_Ok in H as (dev & H0 & H). apply Ok_inj in H as <-.
    apply encodeDevice_spec in H0 as [<- Hd]; [|done..].
    eapply readInode_header; [exact R|reflexivity|done..|]. eapply readBody_device; [exact R|by left|reflexivity|apply slen_header|done..].
  - apply Ok_inj in H as <-. eapply readInode_header; [exact R|reflexivity|done..|]. eapply readBody_ipc; [exact R|by left|reflexivity|apply slen_header|done..].
  - apply Ok_inj in H as <-. eapply readInode_header; [exact R|reflexivity|done..|]. eapply readBody_ipc; [exact R|by right|reflexivity|apply slen_header|done..].
Qed.

(** *** Listings *)

(** The item a directory entry is read as. *)
Definition itemOf (e : dirEntry) : dirItem :=
  mkDirItem (deName e) (deBasicType e) (deChildInode e) (deInodeBlockByte e) (deInodeBlockOff e).

Definition wfDirEntry (e : dirEntry) : Prop :=
  uint 4 (deChildInode e) /\ uint 4 (deInodeBlockByte e) /\ uint 2 (deInodeBlockOff e) /\ uint 2 (deBasicType e).

Definition okName (e : dirEntry) : Prop := 1 <= slen (deName e) /\ (Z.of_nat (slen (deName e)) <= 256)%Z.

Lemma field_le_mod n z rest : field n (le_bytes n z +:+ rest) = Some ((z mod 2 ^ (8 * Z.of_nat n))%Z, rest).
Proof.
  unfold field. rewrite slen_app, slen_le_bytes. destruct (Nat.ltb_spec (n + slen rest) n); [lia|].
  rewrite <- (slen_le_bytes n z) at 1 3. by rewrite stake_app, sdrop_app, le_value_bytes.
Qed.

Lemma int16_mod d : (-32768 <= d <= 32767)%Z -> int16 (d mod 2 ^ (8 * Z.of_nat 2)) = d.
Proof.
  intros Hd. change (2 ^ (8 * Z.of_nat 2))%Z with 65536%Z. unfold int16.
  destruct (Z.leb_spec 0 d).
  - rewrite Z.mod_small by lia. destruct (Z.ltb_spec d 32768); lia.
  - replace (d mod 65536)%Z with (d + 65536)%Z by (apply (Z.mod_unique _ _ (-1)); lia).
    destruct (Z.ltb_spec (d + 65536) 32768); lia.
Qed.

Lemma readDirEntries_encode base es rest :
  Forall (fun e => wfDirEntry e /\ okName e /\ sameHeader base e = true) es ->
  readDirEntries (length es) (deInodeBlockByte base) (deChildInode base) (sconcat (map (encodeDirEntry base) es) +:+ rest)
  = Some (map itemOf es, rest).
Proof.
  induction es as [|e es IH]; intros H; [done|]. apply Forall_cons in H as [((W1 & W2 & W3 & W4) & [Hn1 Hn2] & Hs) F].
  cbn [length readDirEntries map sconcat]. unfold encodeDirEntry at 1. rewrite !sapp_assoc.
  next_field. rewrite field_le_mod. cbn [mbind option_bind]. next_field.
  rewrite field_le by (unfold uint; cbn; lia). cbn [mbind option_bind].
  replace (Z.to_nat _) with (slen (deName e)) by lia. next_field. rewrite IH by done. cbn [mbind option_bind].
  unfold sameHeader in Hs. apply andb_true_iff in Hs as [Hb Hd]. apply negb_true_iff, orb_false_iff in Hd as [? ?].
  rewrite int16_mod by lia. do 3 f_equal. unfold itemOf. f_equal; lia.
Qed.

Lemma takeRun_spec base n es run more :
  takeRun base n es = (run, more) ->
  es = run ++ more /\ length run <= n /\ Forall (fun e => sameHeader base e = true) run.
Proof.
  revert es run more. induction n as [|n IH]; intros [|e es] run more H; cbn in H;
    try by (simplify_eq; split_and!; [done|cbn; lia|constructor]).
  destruct (sameHeader base e) eqn:E; [|by (simplify_eq; split_and!; [done|cbn; lia|constructor])]. destruct (takeRun base n es) as [r m'] eqn:Er. simplify_eq.
  destruct (IH _ _ _ Er) as (-> & Hl & F). split_and!; [done|cbn; lia|by constructor].
Qed.

Lemma sameHeader_refl e : sameHeader e e = true.
Proof. unfold sameHeader. rewrite Z.sub_diag. destruct (Z.eqb_spec (deInodeBlockByte e) (deInodeBlockByte e)); done. Qed.

(** The pieces of a listing. *)
Definition groupPieces (base : dirEntry) (run : list dirEntry) : list string :=
  encodeDirHeader (Z.of_nat (length run)) base :: map (encodeDirEntry base) run.

Lemma readListing_group fuel base run rest items :
  Forall (fun e => wfDirEntry e /\ okName e /\ sameHeader base e = true) run -> wfDirEntry base ->
  1 <= length run <= 256 -> readListing fuel rest = Some items ->
  readListing (S fuel) (sconcat (groupPieces base run) +:+ rest) = Some (map itemOf run ++ items).
Proof.
  intros F (? & ? & _) Hl Hr. unfold groupPieces. cbn [sconcat].
  destruct ((encodeDirHeader (Z.of_nat (length run)) base +:+ sconcat (map (encodeDirEntry base) run)) +:+ rest) eqn:E.
  { apply (f_equal slen) in E. rewrite !slen_app in E. unfold encodeDirHeader in E.
    rewrite !slen_app, !slen_le_bytes in E. cbn in E. lia. }
  cbn [readListing]. rewrite <- E. unfold encodeDirHeader. rewrite !sapp_assoc.
  rewrite field_le by (unfold uint; cbn; lia). cbn [mbind option_bind]. do 2 next_field.
  replace (Z.to_nat _) with (length run) by lia. rewrite readDirEntries_encode by done. cbn [mbind option_bind].
  by rewrite Hr.
Qed.

Section ListingFacts.
  Context (c : Compressor).

Lemma writeDirEntries_pieces base es : forall m n m' n',
  writeDirEntries c m base es n = Ok (m', n') -> uint 4 n ->
  metaWriteAll c m (map (encodeDirEntry base) es) = Ok m' /\
  n' = ((n + Z.of_nat (slen (sconcat (map (encodeDirEntry base) es)))) mod 2 ^ 32)%Z /\ Forall okName es.
Proof.
  induction es as [|e es IH]; intros m n m' n' H Hn; cbn [writeDirEntries] in H.
  { apply Ok_inj in H. simplify_eq. cbn. rewrite Z.add_0_r, Z.mod_small by done. by split_and!. }
  case_match eqn:E; [done|]. apply orb_false_iff in E as [E1 E2]. apply Nat.eqb_neq in E1.
  apply rbind_Ok in H as (m1 & H1 & H). cbn [map metaWriteAll sconcat]. rewrite H1. cbn [rbind].
  apply IH in H as (-> & -> & F); [|apply Z.mod_pos_bound; lia].
  split_and!; [done| |constructor; [split; lia|done]]. rewrite slen_app, Zplus_mod_idemp_l. f_equal. lia.
Qed.

Lemma slen_groupPieces base run :
  slen (sconcat (groupPieces base run)) = 12 + slen (sconcat (map (encodeDirEntry base) run)).
Proof. cbn [groupPieces sconcat]. unfold encodeDirHeader. by rewrite !slen_app, !slen_le_bytes. Qed.

Lemma slen_entries base run : length run <= slen (sconcat (map (encodeDirEntry base) run)).
Proof.
  induction run as [|e r IH]; [done|]. cbn [map sconcat length]. rewrite slen_app.
  unfold encodeDirEntry at 1. rewrite !slen_app, !slen_le_bytes. lia.
Qed.

Lemma slen_entries_max base run : Forall okName run ->
  (Z.of_nat (slen (sconcat (map (encodeDirEntry base) run))) <= 264 * Z.of_nat (length run))%Z.
Proof.
  induction 1 as [|e r [_ He] _ IH]; [done|]. cbn [map sconcat length]. rewrite slen_app.
  unfold encodeDirEntry at 1. rewrite !slen_app, !slen_le_bytes. lia.
Qed.

(** A listing is a sequence of writes whose bytes are read as its entries. *)
Lemma writeDirGroups_pieces fuel : forall m es n m' n',
  length es <= fuel -> writeDirGroups c fuel m es n = Ok (m', n') -> uint 4 n ->
  exists ps, metaWriteAll c m ps = Ok m' /\ n' = ((n + Z.of_nat (slen (sconcat ps))) mod 2 ^ 32)%Z /\
    length es <= slen (sconcat ps) /\ (Z.of_nat (slen (sconcat ps)) <= 276 * Z.of_nat (length es))%Z /\
    (Forall wfDirEntry es -> forall k, length es <= k -> readListing k (sconcat ps) = Some (map itemOf es)).
Proof.
  induction fuel as [|fuel IH]; intros m es n m' n' Hf H Hn.
  { destruct es; [|cbn in Hf; lia]. apply Ok_inj in H. simplify_eq. exists []. cbn.
    rewrite Z.add_0_r, Z.mod_small by done. split_and!; [done..|]. by intros _ [|k]. }
  destruct es as [|base es].
  { apply Ok_inj in H. simplify_eq. exists []. cbn. rewrite Z.add_0_r, Z.mod_small by done.
    split_and!; [done..|]. by intros _ [|k]. }
  cbn [writeDirGroups] in H. destruct (takeRun base (maxDirEntriesPerHeader - 1) es) as [run more] eqn:Er.
  apply takeRun_spec in Er as (-> & Hl & Fs). apply rbind_Ok in H as (m1 & H1 & H).
  apply rbind_Ok in H as ([m2 n2] & H2 & H). cbn [fst snd] in H.
  apply writeDirEntries_pieces in H2 as (H2 & -> & Fn); [|apply Z.mod_pos_bound; lia].
  cbn [length] in Hf. rewrite length_app in Hf.
  apply IH in H as (ps & Hp & -> & Hlp & Hub & Hr); [|lia|apply Z.mod_pos_bound; lia].
  exists (groupPieces base (base :: run) ++ ps). rewrite metaWriteAll_app, sconcat_app, slen_app, slen_groupPieces.
  split_and!.
  - unfold groupPieces. cbn [metaWriteAll]. rewrite H1. cbn [rbind]. by rewrite H2.
  - rewrite Zplus_mod_idemp_l, <- Z.add_assoc, Zplus_mod_idemp_l. f_equal. lia.
  - cbn [length]. rewrite length_app. pose proof (slen_entries base (base :: run)). cbn [length] in *. lia.
  - cbn [length]. rewrite length_app. pose proof (slen_entries_max base (base :: run) Fn). cbn [length] in *. lia.
  - intros W [|k] Hk; [cbn in Hk; lia|]. apply Forall_cons in W as [Wb W]. apply Forall_app in W as [Wr Wm].
    cbn [length] in Hk. rewrite length_app in Hk.
    rewrite (readListing_group k base (base :: run) _ (map itemOf more)); [by rewrite <- map_app| |done| |apply Hr; [done|lia]].
    + apply Forall_and; split; [by constructor|]. apply Forall_and; split; [done|]. constructor; [apply sameHeader_refl|done].
    + unfold maxDirEntriesPerHeader in Hl. cbn [length]. lia.
Qed.

Lemma writeDirListing_reads m es ref n m' :
  writeDirListing c m es = Ok (ref, n, m') ->
  exists ps, ref = Ref m /\ metaWriteAll c m ps = Ok m' /\ n = (Z.of_nat (slen (sconcat ps)) mod 2 ^ 32)%Z /\
    (Z.of_nat (slen (sconcat ps)) <= 276 * Z.of_nat (length es))%Z /\
    (Forall wfDirEntry es -> readListing (slen (sconcat ps)) (sconcat ps) = Some (map itemOf (isort byName es))).
Proof.
  intros H. unfold writeDirListing in H. apply rbind_Ok in H as ([m1 n1] & H & E). apply Ok_inj in E. cbn [fst snd] in E.
  simplify_eq. apply writeDirGroups_pieces in H as (ps & Hp & -> & Hl & Hub & Hr); [|done|done].
  exists ps. rewrite isort_Permutation in Hub. split_and!; [done..|]. intros W. apply Hr; [|done]. by rewrite isort_Permutation.
Qed.
End ListingFacts.

(** *** The ID table *)

Lemma idsPerMetaBlock_eq : 4 * idsPerMetaBlock = MetadataBlockSize.
Proof. apply Nat.eqb_eq. vm_compute. reflexivity. Qed.
Lemma idsPerMetaBlock_pos : 0 < idsPerMetaBlock.
Proof. apply Nat.ltb_lt. vm_compute. reflexivity. Qed.
#[global] Opaque idsPerMetaBlock.

(** The index is the position in the list, and positions fit in 16 bits. *)
Definition wfIdTable (t : idTable) : Prop :=
  (forall id idx, idIndex t !! id = Some idx <-> (0 <= idx)%Z /\ idList t !! Z.to_nat idx = Some id) /\
  (Z.of_nat (length (idList t)) <= maxIDs)%Z.

Lemma wf_newIDTable : wfIdTable newIDTable.
Proof. split; [|done]. intros. cbn. rewrite lookup_empty, lookup_nil. naive_solver. Qed.

Lemma Intern_spec t id idx t' :
  wfIdTable t -> Intern t id = Ok (idx, t') ->
  wfIdTable t' /\ (0 <= idx)%Z /\ idList t' !! Z.to_nat idx = Some id /\ idList t `prefix_of` idList t' /\
  idList t' ⊆ id :: idList t.
Proof.
  intros [Hw Hl] H. unfold Intern in H. destruct (idIndex t !! id) as [i|] eqn:E.
  { simplify_eq. apply Hw in E as E'. split_and!; [done|naive_solver..|done|set_solver]. }
  case_match eqn:Em; [done|]. simplify_eq. cbn. split_and!; [|lia| |by eexists|set_solver].
  - split; [|cbn; rewrite length_app; cbn; lia]. intros id' idx. cbn. rewrite lookup_insert.
    case_decide as Ed; [subst id'|].
    + split; [intros [= <-]; split; [lia|]; rewrite Nat2Z.id, lookup_app_r, Nat.sub_diag by lia; done|].
      intros [Hz Hi]. f_equal. rewrite lookup_app in Hi. destruct (idList t !! Z.to_nat idx) eqn:Ei.
      * simplify_eq. assert (idIndex t !! id = Some idx) by by apply Hw. congruence.
      * apply lookup_ge_None in Ei. destruct (Z.to_nat idx - length (idList t)) eqn:Es; [lia|done].
    + rewrite Hw. split; intros [Hz Hi]; (split; [done|]).
      * by apply lookup_app_l_Some.
      * rewrite lookup_app in Hi. destruct (idList t !! Z.to_nat idx) eqn:Ei; [done|].
        destruct (Z.to_nat idx - length (idList t)) as [|[|]]; cbn in Hi; congruence.
  - rewrite Nat2Z.id, lookup_app_r, Nat.sub_diag by lia. done.
Qed.

Section IdFacts.
  Context (c : Compressor) `{!CompressorLaws c}.

Lemma slen_full cs : Forall full cs -> slen (sconcat cs) = MetadataBlockSize * length cs.
Proof.
  induction 1 as [|x cs Hx _ IH]; cbn [sconcat length]; [cbn; lia|]. rewrite slen_app, IH. unfold full in Hx. lia.
Qed.

(** [k] blocks are begun when [i] ids have been written. *)
Definition begun (k i : nat) : Prop := i <= idsPerMetaBlock * k < i + idsPerMetaBlock.

(** Where a block begins the one before is full, and sealed. *)
Lemma block_boundary m cs s i :
  mstate c m cs s -> Forall full cs -> slen s = 4 * i -> i mod idsPerMetaBlock = 0 ->
  mwCur m = "" /\ idsPerMetaBlock * length (mwBlocks m) = i.
Proof.
  intros (Hb & Hc & ->) Hf Hl Hi. pose proof idsPerMetaBlock_eq as E. pose proof idsPerMetaBlock_pos.
  apply Nat.Div0.mod_divides in Hi as [q ->]. rewrite slen_app, slen_full in Hl by done. rewrite <- E in *.
  apply Forall2_length in Hb. assert (length cs = q) as Hq by nia.
  split; [|by rewrite Hb, Hq]. destruct (mwCur m); [done|]. cbn in Hl. nia.
Qed.

Lemma writeIDs_spec ids : forall i m k cs s m' sb,
  mstate c m cs s -> Forall full cs -> slen s = 4 * i -> begun k i ->
  writeIDs c i ids m (seq 0 k) = Ok (m', sb) ->
  exists cs' k', mstate c m' cs' (s +:+ sconcat (map (le_bytes 4) ids)) /\ Forall full cs' /\
    sb = seq 0 k' /\ begun k' (i + length ids).
Proof.
  pose proof idsPerMetaBlock_pos as Hpos.
  induction ids as [|id ids IH]; intros i m k cs s m' sb Hs Hf Hl Hk H.
  { apply Ok_inj in H. simplify_eq. exists cs, k. cbn. rewrite sapp_nil_r, Nat.add_0_r. by split_and!. }
  cbn [writeIDs] in H. apply rbind_Ok in H as ([m1 sb1] & H1 & H). cbn [fst snd] in H.
  apply rbind_Ok in H as (m2 & H2 & H).
  assert (m1 = m /\ exists k1, sb1 = seq 0 k1 /\ begun k1 (S i)) as [-> (k1 & -> & Hk1)].
  { destruct (Nat.eqb_spec (i mod idsPerMetaBlock) 0) as [Ei|Ei].
    - destruct (block_boundary m cs s i Hs Hf Hl Ei) as [Hc Hb].
      assert (metaFlush c m = Ok m) as Efl by (unfold metaFlush, sealCurrent; by rewrite Hc).
      rewrite Efl in H1. assert (Ok (m, seq 0 k ++ [length (mwBlocks m)]) = Ok (m1, sb1)) as H1' by (by destruct (i =? 0)).
      apply Ok_inj in H1'. simplify_eq. split; [done|]. exists (S k).
      assert (length (mwBlocks m1) = k) as -> by (unfold begun in Hk; nia). rewrite seq_S. split; [done|]. unfold begun in *; nia.
    - apply Ok_inj in H1. simplify_eq. split; [done|]. exists k. split; [done|]. unfold begun in *.
      assert (i <> idsPerMetaBlock * k); [|lia]. intros ->. apply Ei. rewrite Nat.mul_comm. apply Nat.Div0.mod_mul. }
  pose proof Hs as (_ & Hc & _). apply metaWrite_appends in H2 as [_ Ha]; [|done..]. destruct (Ha _ _ Hs) as (cs1 & S1 & F1).
  apply (IH _ _ _ _ _ _ _ S1) in H as (cs' & k' & S' & F' & -> & Hk'); [|by apply Forall_app|rewrite slen_app, slen_le_bytes; lia|done].
  exists cs', k'. rewrite sapp_assoc in S'. split_and!; [done..|]. cbn [length]. by rewrite Nat.add_succ_r.
Qed.

Lemma take_full cs rest k : Forall full cs -> k <= length cs -> slen (sconcat (take k (cs ++ rest))) = MetadataBlockSize * k.
Proof.
  intros F Hk. rewrite take_app_le by done. rewrite slen_full by by apply Forall_take. by rewrite length_take_le.
Qed.

(** The table after [WriteData]: the bytes of the blocks, and where they begin. *)
Lemma WriteData_spec t base offs bytes :
  WriteData c t base = Ok (offs, bytes) -> idList t <> [] ->
  exists m cs cs1 k, mstate c m (cs ++ cs1) (sconcat (map (le_bytes 4) (idList t))) /\ mwCur m = "" /\ Forall full cs /\
    bytes = emitBlocks (mwBlocks m) /\ begun k (length (idList t)) /\
    offs = map (fun bi => (base + BlockByteOffset m bi)%Z) (seq 0 k) /\
    forall i, i < length (idList t) -> i / idsPerMetaBlock <= length cs.
Proof.
  intros H Hne. pose proof idsPerMetaBlock_pos as Hpos. unfold WriteData in H. rewrite bool_decide_eq_false_2 in H by done.
  apply rbind_Ok in H as ([m1 sb] & H1 & H). apply rbind_Ok in H as (m & H2 & H). apply rbind_Ok in H as (bs & H3 & H).
  apply Ok_inj in H. cbn [fst snd] in *. simplify_eq.
  apply (writeIDs_spec (idList t) 0 newMetaWriter 0 [] "") in H1 as (cs & k & S1 & F & -> & Hk);
    [|apply mstate_new|constructor|done|unfold begun; lia].
  pose proof S1 as (Hb1 & Hc1 & Hs1). apply metaFlush_seals in H2 as (_ & Hcur & Hfl); [|done..].
  destruct (Hfl _ _ S1) as [cs1 S2]. pose proof S2 as (Hb & _). rewrite (EmitTo_holds c _ _ Hb) in H3.
  apply Ok_inj in H3. subst. exists m, cs, cs1, k. split_and!; try done.
  intros i Hi. apply (f_equal slen) in Hs1. cbn [String.append] in Hs1. rewrite slen_app, slen_fields, slen_full in Hs1 by done.
  rewrite <- idsPerMetaBlock_eq in *. pose proof (Nat.Div0.mul_div_le i idsPerMetaBlock). nia.
Qed.

Lemma nth_lookupList offs k off rest : Forall (uint 8) offs -> offs !! k = Some off ->
  field 8 (sdrop (8 * k) (WriteLookup offs +:+ rest)) = Some (off, WriteLookup (drop (S k) offs) +:+ rest).
Proof.
  intros F Hk. unfold WriteLookup. rewrite <- (take_drop_middle offs k off Hk) at 1.
  rewrite map_app, sconcat_app, sapp_assoc. replace (8 * k) with (slen (sconcat (map (le_bytes 8) (take k offs)))).
  - rewrite sdrop_app. cbn [map sconcat]. rewrite sapp_assoc, field_le; [done|]. by eapply Forall_lookup_1.
  - rewrite slen_fields, length_take_le; [lia|]. apply lookup_lt_Some in Hk. lia.
Qed.

(** Every id of the table is read back by its index. *)
Lemma readID_spec t offs bytes pre post i id :
  WriteData c t (Z.of_nat (slen pre)) = Ok (offs, bytes) -> Forall (uint 4) (idList t) ->
  uint 8 (Z.of_nat (slen pre + slen bytes)) -> idList t !! i = Some id ->
  readID c (pre +:+ bytes +:+ WriteLookup offs +:+ post) (Z.of_nat (slen pre + slen bytes)) (Z.of_nat i) = Some id.
Proof.
  intros H Hu Hsz Hi. pose proof idsPerMetaBlock_pos as Hpos. apply lookup_lt_Some in Hi as Hlt.
  apply WriteData_spec in H as (m & cs & cs1 & k & Hs & Hcur & Hf & -> & Hk & -> & Hblk); [|by intros E; rewrite E in Hi].
  set (b := i / idsPerMetaBlock). set (o := i mod idsPerMetaBlock).
  assert (i = idsPerMetaBlock * b + o) as Ei by apply Nat.div_mod_eq.
  assert (o < idsPerMetaBlock) as Ho by (apply Nat.mod_upper_bound; lia).
  assert (b < k) as Hbk by (unfold begun in Hk; nia). pose proof (Hblk i Hlt) as Hcs. fold b in Hcs.
  unfold readID. rewrite !Nat2Z.id. fold b o. rewrite <- sapp_assoc, <- slen_app, sdrop_app_plus.
  rewrite (nth_lookupList _ _ (Z.of_nat (slen pre) + BlockByteOffset m b)); cbn [mbind option_bind].
  - rewrite sapp_assoc, BlockByteOffset_emit, <- Nat2Z.inj_add, Nat2Z.id, readMeta_shift.
    pose proof (readMeta_names c m (cs ++ cs1) (sconcat (map (le_bytes 4) (idList t))) (mkMetaRef b (Z.of_nat (4 * o))) (4 * i) 4) as R.
    cbn [refBlockIdx refOffset] in R. rewrite BlockByteOffset_emit, !Nat2Z.id in R. rewrite R; [|done|done| | | |].
    + cbn [mbind option_bind]. rewrite <- (take_drop_middle _ _ _ Hi) at 1. rewrite map_app, sconcat_app.
      replace (4 * i) with (slen (sconcat (map (le_bytes 4) (take i (idList t)))))
        by (rewrite slen_fields, length_take_le; lia).
      rewrite sdrop_app. cbn [map sconcat]. rewrite <- (slen_le_bytes 4 id) at 1. rewrite stake_app, le_value_uint; [done|].
      by eapply Forall_lookup_1.
    + split; cbn [refBlockIdx refOffset]; [rewrite length_app; lia|]. rewrite take_full by done.
      rewrite <- idsPerMetaBlock_eq. lia.
    + rewrite slen_fields. lia.
    + rewrite slen_fields. lia.
    + rewrite !slen_app. pose proof (emitBlocks_length (mwBlocks m)). lia.
  - apply Forall_forall. intros x Hx. apply list_elem_of_fmap in Hx as (bi & -> & _). rewrite BlockByteOffset_emit.
    unfold uint in *. assert (slen (emitBlocks (take bi (mwBlocks m))) <= slen (emitBlocks (mwBlocks m))); [|lia].
    rewrite <- (take_drop bi (mwBlocks m)) at 2. rewrite emitBlocks_app, slen_app. lia.
  - apply list_lookup_fmap_Some. exists b. by rewrite lookup_seq.
Qed.
End IdFacts.
