(* ===== verification/SquashWriter.v ===== *)
(** * SquashWriter: the streaming image writer ([squashfs/writer.go]).

    A [Writer] takes entries one after the other, the contents of a file going
    to the output block by block, and lays out the tables when it is closed.
    Entries are shared by pointer in the source; here they live in the map
    [wEntries] under their paths, and a pointer is a path.  Writes to the
    output succeed: its I/O errors are not modelled. *)

From S2P Require Import Prelude Effects GoStrings GoPath SquashMeta SquashCodec.

(** ** Configuration *)

(** [writerConfig]; the compressor is optional until [NewWriter] has seen all
    the options. *)
Record writerConfig (C : Type) := mkWriterConfig {
  cfgBlockSize : Z;
  cfgCompressor : C;
  cfgMtime : option Z
}.
#[global] Arguments mkWriterConfig {C}.
#[global] Arguments cfgBlockSize {C}.
#[global] Arguments cfgCompressor {C}.
#[global] Arguments cfgMtime {C}.

Definition optionFunc : Type := writerConfig (option Compressor) -> result (writerConfig (option Compressor)).

Definition WithBlockSize (n : Z) : optionFunc := fun c =>
  if (n <? MinBlockSize)%Z || (MaxBlockSize <? n)%Z then Err "squashfs: block size out of range"
  else if negb (Z.land n (n - 1) =? 0)%Z then Err "squashfs: block size must be a power of two"
  else Ok (mkWriterConfig n (cfgCompressor c) (cfgMtime c)).

Definition WithCompressor (c : option Compressor) : optionFunc := fun cfg =>
  match c with
  | None => Err "squashfs: compressor is required"
  | Some _ => Ok (mkWriterConfig (cfgBlockSize cfg) c (cfgMtime cfg))
  end.

Definition WithFixedMtime (t : option Z) : optionFunc := fun c =>
  Ok (mkWriterConfig (cfgBlockSize c) (cfgCompressor c) t).

(** [Option]: the configuration is not exported, so these are all there are. *)
Inductive Option :=
  | BlockSize (n : Z)
  | WithComp (c : option Compressor)
  | FixedMtime (t : option Z).

Definition optionOf (o : Option) : optionFunc :=
  match o with
  | BlockSize n => WithBlockSize n
  | WithComp c => WithCompressor c
  | FixedMtime t => WithFixedMtime t
  end.

Fixpoint applyOptions (opts : list Option) (cfg : writerConfig (option Compressor))
    : result (writerConfig (option Compressor)) :=
  match opts with
  | [] => Ok cfg
  | opt :: rest => let! cfg' := optionOf opt cfg in applyOptions rest cfg'
  end.

(** ** State *)

Record Writer := mkWriter {
  wOut : string;
  wClosed : bool;
  wFinished : bool;
  wOutPos : Z;
  wEntries : gmap string entry;
  wOrder : list string;
  wCurFile : option (string * string);   (* the path and the buffer *)
  wIds : idTable
}.

Definition set_out (out : string) (pos : Z) (w : Writer) : Writer :=
  mkWriter out (wClosed w) (wFinished w) pos (wEntries w) (wOrder w) (wCurFile w) (wIds w).
Definition set_closed (w : Writer) : Writer :=
  mkWriter (wOut w) true (wFinished w) (wOutPos w) (wEntries w) (wOrder w) (wCurFile w) (wIds w).
Definition set_finished (w : Writer) : Writer :=
  mkWriter (wOut w) (wClosed w) true (wOutPos w) (wEntries w) (wOrder w) (wCurFile w) (wIds w).
Definition set_entries (es : gmap string entry) (w : Writer) : Writer :=
  mkWriter (wOut w) (wClosed w) (wFinished w) (wOutPos w) es (wOrder w) (wCurFile w) (wIds w).
Definition set_cur (cur : option (string * string)) (w : Writer) : Writer :=
  mkWriter (wOut w) (wClosed w) (wFinished w) (wOutPos w) (wEntries w) (wOrder w) cur (wIds w).
Definition set_tables (es : gmap string entry) (ids : idTable) (w : Writer) : Writer :=
  mkWriter (wOut w) (wClosed w) (wFinished w) (wOutPos w) es (wOrder w) (wCurFile w) ids.

(** A new entry, after the ones there are. *)
Definition add_entry (e : entry) (w : Writer) : Writer :=
  mkWriter (wOut w) (wClosed w) (wFinished w) (wOutPos w) (<[ePath e := e]> (wEntries w)) (wOrder w ++ [ePath e])
    (wCurFile w) (wIds w).

Definition zeros (n : nat) : string := Nat.iter n (String Ascii.zero) "".

Definition NewWriter (opts : list Option) : result (writerConfig Compressor * Writer) :=
  let! cfg := applyOptions opts (mkWriterConfig DefaultBlockSize None None) in
  match cfgCompressor cfg with
  | None => Err "squashfs: WithCompressor is required"
  | Some c => Ok (mkWriterConfig (cfgBlockSize cfg) c (cfgMtime cfg),
                  mkWriter (zeros superblockSize) false false (Z.of_nat superblockSize) ∅ [] None newIDTable)
  end.

Definition ErrClosed : string := "squashfs: writer is closed".
Definition ErrInvalidPath : string := "squashfs: entry path must be absolute and canonical".
Definition ErrHardlinkTarget : string := "squashfs: hardlink target must be a regular file created earlier".
Definition ErrStaleEntry : string := "squashfs: write to a CreateFile writer invalidated by a later call".

Definition validatePath (p : string) : result unit :=
  if String.eqb p "" || String.eqb p "/" then Err ErrInvalidPath
  else if negb (hasPrefix p "/") then Err ErrInvalidPath
  else if hasSuffix p "/" then Err ErrInvalidPath
  else if forallb (fun part => negb (String.eqb part "" || String.eqb part "." || String.eqb part ".."))
            (splitOn slash (sdrop 1 p))
  then Ok tt else Err ErrInvalidPath.

Section Writer.
  Context (cfg : writerConfig Compressor).
  #[local] Notation comp := (cfgCompressor cfg).
  #[local] Notation blockSize := (cfgBlockSize cfg).

(** ** The contents of a file *)

Definition sizeWord (raw : bool) (disk : string) : Z :=
  if raw then Z.lor (Z.of_nat (slen disk)) DataBlockUncompressedBit else Z.of_nat (slen disk).

Definition addBlock (word : Z) (e : entry) : entry := set_blocks (eFileBlockSizes e ++ [word]) e.

(** [fileWriter.emitBlock] of the current file. *)
Definition emitDataBlock : act Writer unit := fun w =>
  match wCurFile w with
  | None => (Done tt, w)
  | Some (p, buf) =>
      if String.eqb buf "" then (Done tt, w)
      else match storeBlock comp buf with
           | Err e => (Failed ("squashfs: compress data block: " +:+ e), w)
           | Ok (raw, disk) =>
               (Done tt, set_cur (Some (p, ""))
                  (set_entries (alter (addBlock (sizeWord raw disk)) p (wEntries w))
                     (set_out (wOut w +:+ disk) (wOutPos w + Z.of_nat (slen disk)) w)))
           end
  end.

Definition flushTail : act Writer unit := emitDataBlock.

(** The loop of [fileWriter.Write]; a round takes at least one byte. *)
Fixpoint fileWriteLoop (fuel : nat) (h p : string) (written : nat) : act Writer nat :=
  match p, fuel with
  | EmptyString, _ => ret written
  | _, 0 => failure "out of fuel"
  | _, S k => fun w =>
      let buf := match wCurFile w with Some (_, b) => b | None => "" end in
      let n := Nat.min (slen p) (Z.to_nat blockSize - slen buf) in
      let buf' := buf +:+ stake n p in
      (let* _ := modify (set_cur (Some (h, buf'))) in
       let* _ := (if (Z.of_nat (slen buf') =? blockSize)%Z then emitDataBlock else ret tt) in
       fileWriteLoop k h (sdrop n p) (written + n)) w
  end.

(** [fileWriter.Write] on the handle of the file at [h]: it is stale unless it
    is the current one. *)
Definition fileWrite (h p : string) : act Writer nat :=
  let* _ := check (fun w => match wCurFile w with
                            | Some (q, _) => if String.eqb q h then Ok tt else Err ErrStaleEntry
                            | None => Err ErrStaleEntry
                            end) in
  let* _ := check (fun w => if wClosed w then Err ErrClosed else Ok tt) in
  let* written := fileWriteLoop (slen p) h p 0 in
  let* _ := modify (fun w => set_entries (alter (fun e => set_size (eFileSize e + Z.of_nat written) e) h (wEntries w)) w) in
  ret written.

Definition flushCurFile : act Writer unit := fun w =>
  match wCurFile w with
  | None => (Done tt, w)
  | Some _ => (let* _ := flushTail in modify (set_cur None)) w
  end.

(** ** Creating entries *)

Definition dupErr (p : string) : string := "squashfs: duplicate entry " +:+ p.

Definition beginEntry (p : string) : act Writer unit :=
  let* _ := check (fun w => if wClosed w then Err ErrClosed else Ok tt) in
  let* _ := flushCurFile in
  let* _ := check (fun _ => validatePath p) in
  check (fun w => if bool_decide (is_Some (wEntries w !! p)) then Err (dupErr p) else Ok tt).

Definition CreateFile (attrs : Attrs) : act Writer string :=
  let p := aPath attrs in
  let* _ := check (fun w => if wClosed w then Err ErrClosed else Ok tt) in
  let* _ := flushCurFile in
  let* _ := check (fun _ => validatePath p) in
  let* _ := check (fun w => if bool_decide (is_Some (wEntries w !! p)) then Err (dupErr p) else Ok tt) in
  let* _ := modify (fun w => set_cur (Some (p, "")) (add_entry (newEntry p kindFile attrs (wOutPos w) "" None 0 0) w)) in
  ret p.

Definition CreateDir (attrs : Attrs) : act Writer unit :=
  let* _ := beginEntry (aPath attrs) in
  modify (add_entry (newEntry (aPath attrs) kindDir attrs 0 "" None 0 0)).

Definition CreateSymlink (attrs : Attrs) (target : string) : act Writer unit :=
  let* _ := beginEntry (aPath attrs) in
  let* _ := check (fun _ => if String.eqb target "" then Err "squashfs: symlink target must be non-empty" else Ok tt) in
  modify (add_entry (newEntry (aPath attrs) kindSymlink attrs 0 target None 0 0)).

Definition CreateHardlink (linkPath target : string) : act Writer unit :=
  let* _ := check (fun w => if wClosed w then Err ErrClosed else Ok tt) in
  let* _ := flushCurFile in
  let* _ := check (fun _ => validatePath linkPath) in
  let* _ := check (fun _ => validatePath target) in
  let* _ := check (fun w => if bool_decide (is_Some (wEntries w !! linkPath)) then Err (dupErr linkPath) else Ok tt) in
  let* _ := check (fun w => match wEntries w !! target with
                            | Some tgt => if bool_decide (eKind tgt = kindFile) then Ok tt else Err ErrHardlinkTarget
                            | None => Err ErrHardlinkTarget
                            end) in
  modify (add_entry (newEntry linkPath kindHardlink noAttrs 0 "" (Some target) 0 0)).

Definition CreateCharDevice (attrs : Attrs) (major minor : Z) : act Writer unit :=
  let* _ := beginEntry (aPath attrs) in
  modify (add_entry (newEntry (aPath attrs) kindCharDev attrs 0 "" None major minor)).

Definition CreateBlockDevice (attrs : Attrs) (major minor : Z) : act Writer unit :=
  let* _ := beginEntry (aPath attrs) in
  modify (add_entry (newEntry (aPath attrs) kindBlockDev attrs 0 "" None major minor)).

Definition CreateFIFO (attrs : Attrs) : act Writer unit :=
  let* _ := beginEntry (aPath attrs) in
  modify (add_entry (newEntry (aPath attrs) kindFIFO attrs 0 "" None 0 0)).

Definition CreateSocket (attrs : Attrs) : act Writer unit :=
  let* _ := beginEntry (aPath attrs) in
  modify (add_entry (newEntry (aPath attrs) kindSocket attrs 0 "" None 0 0)).

(** ** The tree *)

(** The synthetic root. *)
Definition rootEntry : entry :=
  newEntry "/" kindDir (mkAttrs "" 493 0 0 (cfgMtime cfg)) 0 "" None 0 0.

Definition withRoot (es : gmap string entry) : gmap string entry :=
  match es !! "/" with Some _ => es | None => <["/" := rootEntry]> es end.

(** The loop that appends every entry to the children of its parent. *)
Fixpoint addChildren (es : gmap string entry) (order : list string) (children : gmap string (list string))
    : result (gmap string (list string)) :=
  match order with
  | [] => Ok children
  | p :: rest =>
      if String.eqb p "/" then addChildren es rest children
      else match es !! dir p with
           | None => Err ("squashfs: entry " +:+ p +:+ " has no parent directory " +:+ dir p)
           | Some parent =>
               if bool_decide (eKind parent = kindDir)
               then addChildren es rest (<[dir p := default [] (children !! dir p) ++ [p]]> children)
               else Err ("squashfs: parent " +:+ dir p +:+ " of " +:+ p +:+ " is not a directory")
           end
  end.
End Writer.

#[local] Set Warnings "-register-all".

(** An entry and its children. *)
Inductive tree := Node (p : string) (kids : list tree).

Definition pathOf (t : tree) : string := match t with Node p _ => p end.
Definition kidsOf (t : tree) : list tree := match t with Node _ kids => kids end.

(** [sort.Slice] by the base names; those of siblings differ, so the order is
    the only one. *)
Definition byBase (a b : string) : Prop := sle (base a) (base b).
#[global] Instance byBase_dec : RelDecision byBase.
Proof. intros a b. unfold byBase. apply _. Defined.

(** The tree the children pointers span from [p] on, the children sorted by
    [sortRec].  A path is longer than the one of its parent, so the length of
    the longest path is fuel enough. *)
Fixpoint grow (fuel : nat) (children : gmap string (list string)) (p : string) : tree :=
  match fuel with
  | 0 => Node p []
  | S k => Node p (map (grow k children) (isort byBase (default [] (children !! p))))
  end.

Definition maxLen (ps : list string) : nat := foldr (fun p n => Nat.max (slen p) n) 0 ps.

Section Layout.
  Context (cfg : writerConfig Compressor).
  #[local] Notation comp := (cfgCompressor cfg).
  #[local] Notation blockSize := (cfgBlockSize cfg).

Definition buildTree (es : gmap string entry) (order : list string) : result (gmap string entry * tree) :=
  let es := withRoot cfg es in
  let! children := addChildren es order ∅ in
  Ok (es, grow (S (maxLen order)) children "/").

(** ** Numbers, link counts, ids *)

Definition kindIs (k : entryKind) (es : gmap string entry) (p : string) : bool :=
  match es !! p with Some e => bool_decide (eKind e = k) | None => false end.

(** The walk of [assignInodeNumbers]; [next] is 32 bits wide. *)
Fixpoint assignInodeNumbers (t : tree) (parentInode : Z) (st : gmap string entry * Z) : gmap string entry * Z :=
  match t with
  | Node p kids =>
      if kindIs kindHardlink st.1 p then st
      else
        let number := st.2 in
        let st' := (alter (set_inode number parentInode) p st.1, (number + 1) mod 2 ^ 32)%Z in
        if kindIs kindDir st.1 p then foldl (fun st k => assignInodeNumbers k number st) st' kids else st'
  end.

(** The first loop of [computeLinkCounts], over the entries in the order
    [visits] in which the map is ranged over. *)
Definition countLink (es : gmap string entry) (p : string) : gmap string entry :=
  match es !! p with
  | None => es
  | Some e =>
      match eKind e with
      | kindFile | kindSymlink | kindCharDev | kindBlockDev | kindFIFO | kindSocket => <[p := set_nlinks 1 e]> es
      | kindHardlink =>
          match eHardlinkTarget e with
          | Some t => alter (fun e => set_nlinks ((eNlinks e + 1) mod 2 ^ 32) e) t es
          | None => es
          end
      | kindDir => es
      end
  end.

(** Its second part: the directories. *)
Fixpoint countDirs (t : tree) (es : gmap string entry) : gmap string entry :=
  match t with
  | Node p kids =>
      let st := foldl (fun st k => if kindIs kindDir st.1 (pathOf k)
                                   then (countDirs k st.1, (st.2 + 1) mod 2 ^ 32)%Z else st) (es, 0%Z) kids in
      alter (set_nlinks ((2 + st.2) mod 2 ^ 32)) p st.1
  end.

Definition computeLinkCounts (visits : list string) (t : tree) (es : gmap string entry) : gmap string entry :=
  countDirs t (foldl countLink es visits).

(** The ids of one entry. *)
Definition internEntry (p : string) (es : gmap string entry) (ids : idTable) : result (gmap string entry * idTable) :=
  match es !! p with
  | None => Ok (es, ids)
  | Some e =>
      let! u := Intern ids (aUID (eAttrs e)) in
      let! g := Intern u.2 (aGID (eAttrs e)) in
      Ok (<[p := set_ids u.1 g.1 e]> es, g.2)
  end.

Fixpoint internOrder (order : list string) (es : gmap string entry) (ids : idTable)
    : result (gmap string entry * idTable) :=
  match order with
  | [] => Ok (es, ids)
  | p :: rest =>
      if kindIs kindHardlink es p then internOrder rest es ids
      else let! r := internEntry p es ids in internOrder rest r.1 r.2
  end.

Definition internIDs (order : list string) (es : gmap string entry) (ids : idTable)
    : result (gmap string entry * idTable) :=
  let! r := internOrder order es ids in
  match r.1 !! "/" with
  | Some root => if (eUidIdx root =? 0)%Z && (eGidIdx root =? 0)%Z then internEntry "/" r.1 r.2 else Ok r
  | None => Ok r
  end.

(** ** Inodes and listings *)

Definition entryMtime (e : entry) : result Z :=
  match (match cfgMtime cfg with Some t => Some t | None => aMtime (eAttrs e) end) with
  | None => Ok 0%Z
  | Some sec => if (sec <? 0)%Z || (4294967295 <? sec)%Z then Err "squashfs: mtime out of uint32 epoch range" else Ok sec
  end.

Definition writeOneInode (p : string) (es : gmap string entry) (inodeMeta : metaWriter)
    : result (gmap string entry * metaWriter) :=
  match es !! p with
  | None => Err "nil entry"
  | Some e =>
      let! mtime := wrapErr ("squashfs: " +:+ p) (entryMtime e) in
      let! body := wrapErr ("squashfs: encode inode for " +:+ p) (encodeInode e mtime blockSize) in
      let! m := metaWrite comp inodeMeta body in
      Ok (<[p := set_ref (Ref inodeMeta) e]> es, m)
  end.

Fixpoint writeLeafInodes (order : list string) (es : gmap string entry) (inodeMeta : metaWriter)
    : result (gmap string entry * metaWriter) :=
  match order with
  | [] => Ok (es, inodeMeta)
  | p :: rest =>
      if kindIs kindDir es p || kindIs kindHardlink es p then writeLeafInodes rest es inodeMeta
      else let! r := writeOneInode p es inodeMeta in writeLeafInodes rest r.1 r.2
  end.

(** A hard link takes the place and the number of its target. *)
Definition resolveHardlink (es : gmap string entry) (p : string) : gmap string entry :=
  match es !! p with
  | Some e =>
      match eKind e, eHardlinkTarget e with
      | kindHardlink, Some t =>
          match es !! t with
          | Some tgt => <[p := set_number (eInodeNumber tgt) (set_ref (eInodeRef tgt) e)]> es
          | None => es
          end
      | _, _ => es
      end
  | None => es
  end.

Definition inodeBlockByte (r : metaRef) (inodeMeta : metaWriter) : Z := BlockByteOffset inodeMeta (refBlockIdx r).

(** The entry of a child in the listing of its directory. *)
Definition childEntry (es : gmap string entry) (inodeMeta : metaWriter) (q : string) : result dirEntry :=
  match es !! q with
  | None => Err "nil entry"
  | Some c =>
      let target := t ← eHardlinkTarget c; es !! t in
      let blockByte := match eKind c, target with
                       | kindHardlink, Some t => inodeBlockByte (eInodeRef t) inodeMeta
                       | _, _ => inodeBlockByte (eInodeRef c) inodeMeta
                       end in
      if (4294967295 <? blockByte)%Z then Err "squashfs: inode table exceeds 4 GiB"
      else Ok (mkDirEntry (base (ePath c)) (eInodeNumber c) blockByte (refOffset (eInodeRef c))
                 (basicTypeFor (eKind c) (eKind <$> target)))
  end.

Fixpoint childEntries (es : gmap string entry) (inodeMeta : metaWriter) (kids : list tree) : result (list dirEntry) :=
  match kids with
  | [] => Ok []
  | k :: rest => let! d := childEntry es inodeMeta (pathOf k) in
                 let! ds := childEntries es inodeMeta rest in Ok (d :: ds)
  end.

Record tables := mkTables {
  tbEntries : gmap string entry;
  tbInodes : metaWriter;
  tbDirs : metaWriter
}.

(** The listing and the inode of one directory. *)
Definition writeDir (p : string) (kids : list tree) (s : tables) : result tables :=
  let! ds := childEntries (tbEntries s) (tbInodes s) kids in
  let! r := writeDirListing comp (tbDirs s) ds in
  let '(startRef, listingBytes, dirMeta) := r in
  let es := alter (set_listing (BlockByteOffset dirMeta (refBlockIdx startRef)) (refOffset startRef) listingBytes) p
              (tbEntries s) in
  let! r := writeOneInode p es (tbInodes s) in
  Ok (mkTables r.1 r.2 dirMeta).

(** The walk of [writeDirs]: the directories below first. *)
Fixpoint writeDirs (t : tree) (s : tables) : result tables :=
  match t with
  | Node p kids =>
      let! s' := foldl (fun r k => let! s := r in
                                   if kindIs kindDir (tbEntries s) (pathOf k) then writeDirs k s else Ok s) (Ok s) kids in
      writeDir p kids s'
  end.

(** ** Closing *)

Definition totalInodeCount (es : gmap string entry) : Z :=
  (Z.of_nat (length (filter (fun pe => eKind pe.2 <> kindHardlink) (map_to_list es))) mod 2 ^ 32)%Z.

Definition clampU32 (sec : Z) : Z := if (sec <? 0)%Z then 0 else if (4294967295 <? sec)%Z then 4294967295 else sec.

Definition imageMtime (es : gmap string entry) : Z :=
  match cfgMtime cfg with
  | Some sec => clampU32 sec
  | None => clampU32 (foldr (fun pe m => match aMtime (eAttrs pe.2) with Some s => Z.max s m | None => m end)
                        0%Z (map_to_list es))
  end.

(** What [Close] computes before it writes: the entries, the ids, the tables
    and the root. *)
Record layout := mkLayout {
  lTables : tables;
  lIds : idTable;
  lRoot : entry
}.

Definition layOut (visits : list string) (es : gmap string entry) (order : list string) (ids : idTable) : result layout :=
  let! r := buildTree es order in
  let '(es, root) := r in
  let es := (assignInodeNumbers root 1 (es, 1%Z)).1 in
  let es := computeLinkCounts visits root es in
  let! r := internIDs order es ids in
  let '(es, ids) := r in
  let! r := writeLeafInodes order es newMetaWriter in
  let '(es, inodeMeta) := r in
  let es := foldl resolveHardlink es order in
  let! t := writeDirs root (mkTables es inodeMeta newMetaWriter) in
  let! im := metaFlush comp (tbInodes t) in
  let! dm := metaFlush comp (tbDirs t) in
  match tbEntries t !! "/" with
  | None => Err "nil entry"
  | Some r => Ok (mkLayout (mkTables (tbEntries t) im dm) ids r)
  end.

Definition padAlignment : Z := 4096.

Definition emit (bytes : string) : act Writer unit :=
  modify (fun w => set_out (wOut w +:+ bytes) (wOutPos w + Z.of_nat (slen bytes)) w).

(** [Seek(0)] and [Write]: the first bytes are replaced. *)
Definition overwrite (bytes : string) : act Writer unit :=
  modify (fun w => set_out (bytes +:+ sdrop (slen bytes) (wOut w)) (wOutPos w) w).

Definition outPos : act Writer Z := fun w => (Done (wOutPos w), w).

(** The second half of [Close]: the tables, the padding and the superblock. *)
Definition emitTables (l : layout) : act Writer unit :=
  let es := tbEntries (lTables l) in
  let* inodeTableStart := outPos in
  let* bytes := wrapping "squashfs: emit inode table" (check (fun _ => EmitTo (tbInodes (lTables l)))) in
  let* _ := emit bytes in
  let* directoryTableStart := outPos in
  let* bytes := wrapping "squashfs: emit directory table" (check (fun _ => EmitTo (tbDirs (lTables l)))) in
  let* _ := emit bytes in
  let* idDataStart := outPos in
  let* r := wrapping "squashfs: emit ID table data" (check (fun _ => WriteData comp (lIds l) idDataStart)) in
  let* _ := emit r.2 in
  let* idTableStart := outPos in
  let* _ := emit (WriteLookup r.1) in
  let* bytesUsed := outPos in
  let rem := (bytesUsed mod padAlignment)%Z in
  let* _ := emit (if (rem =? 0)%Z then "" else zeros (Z.to_nat (padAlignment - rem))) in
  let rootRef := eInodeRef (lRoot l) in
  let sb := mkSuperblock (totalInodeCount es) (imageMtime es) blockSize 0 (compID comp) (blockLogFor blockSize)
              (Z.lor FlagNoFragments FlagNoXattrs) (Count (lIds l))
              (encodeRef rootRef (BlockByteOffset (tbInodes (lTables l)) (refBlockIdx rootRef)))
              bytesUsed idTableStart noTable inodeTableStart directoryTableStart noTable noTable in
  let* _ := overwrite (encodeSuperblock sb) in
  modify set_finished.

(** [Close]; an error leaves the writer closed, and the entries are not used
    again. *)
Definition Close (visits : list string) : act Writer unit :=
  let* _ := check (fun w => if wClosed w then Err ErrClosed else Ok tt) in
  let* _ := flushCurFile cfg in
  let* _ := modify set_closed in
  let* l := check (fun w => layOut visits (wEntries w) (wOrder w) (wIds w)) in
  let* _ := modify (set_tables (tbEntries (lTables l)) (lIds l)) in
  emitTables l.
End Layout.
