(* ===== verification/SquashReader.v ===== *)
(** * SquashReader: reading an image back.

    The reader follows the on-disk format the way a kernel does: superblock,
    root inode, directory listings, inode, contents and owners.  It is the
    specification the writer is held to. *)

From S2P Require Import Prelude GoStrings SquashMeta SquashCodec.

Section Image.
  Context (c : Compressor) (img : string) (sb : superblock).

Definition readInodeAt (block off : Z) : option inode :=
  readInode (sbBlockSize sb)
    (readMeta c (slen img) img (Z.to_nat (sbInodeTableStart sb + block)) (Z.to_nat off)).

(** The listing of a directory inode. *)
Definition readDir (i : inode) : option (list dirItem) :=
  match inBody i with
  | BodyDir start _ size off _ =>
      let n := Z.to_nat (size - 3) in
      if n =? 0 then Some []
      else bytes ← readMeta c (slen img) img (Z.to_nat (sbDirectoryTableStart sb + start)) (Z.to_nat off) n;
           readListing n bytes
  | _ => None
  end.

(** The inode the components lead to. *)
Fixpoint walkPath (i : inode) (cs : list string) : option inode :=
  match cs with
  | [] => Some i
  | name :: rest =>
      items ← readDir i;
      item ← list_find (fun it => diName it = name) items;
      child ← readInodeAt (diBlock item.2) (diOffset item.2);
      walkPath child rest
  end.

(** The blocks of a file, from the byte [pos] of the image on. *)
Fixpoint readData (pos : nat) (sizes : list Z) : option string :=
  match sizes with
  | [] => Some ""
  | word :: rest =>
      let size := Z.to_nat (word mod 2 ^ 24) in
      '(data, _) ← bytesField size (sdrop pos img);
      content ← loadBlock c (Z.testbit word 24) data;
      more ← readData (pos + size) rest;
      Some (content +:+ more)
  end.

(** What a path holds. *)
Inductive payload :=
  | PFile (content : string)
  | PDir (names : list string)
  | PSymlink (target : string)
  | PDevice (dev : Z)
  | PIPC.

Record stat := mkStat {
  stType : Z;
  stPerm : Z;
  stUid : Z;
  stGid : Z;
  stMtime : Z;
  stPayload : payload
}.

Definition readPayload (i : inode) : option payload :=
  match inBody i with
  | BodyFile start size sizes => data ← readData (Z.to_nat start) sizes; Some (PFile (stake (Z.to_nat size) data))
  | BodyDir _ _ _ _ _ => items ← readDir i; Some (PDir (map diName items))
  | BodySymlink _ target => Some (PSymlink target)
  | BodyDevice _ dev => Some (PDevice dev)
  | BodyIPC _ => Some PIPC
  end.

Definition readStat (i : inode) : option stat :=
  uid ← readID c img (sbIdTableStart sb) (inUid i);
  gid ← readID c img (sbIdTableStart sb) (inGid i);
  pay ← readPayload i;
  Some (mkStat (inType i) (inPerm i) uid gid (inMtime i) pay).
End Image.

(** The root inode's place: the block in the high 48 bits, the offset in the
    low 16. *)
Definition readRoot (c : Compressor) (img : string) (sb : superblock) : option inode :=
  readInodeAt c img sb (Z.shiftr (sbRootInodeRef sb) 16) (sbRootInodeRef sb mod 2 ^ 16).

(** What is at the path with the components [cs]. *)
Definition readPath (c : Compressor) (img : string) (cs : list string) : option stat :=
  sb ← readSuperblock img;
  root ← readRoot c img sb;
  i ← walkPath c img sb root cs;
  readStat c img sb i.
