(* ===== verification/SquashBuild.v ===== *)
(** * SquashBuild: the calls that fill an image, and the file system they
      describe.

    An abstract file system maps paths to nodes.  Each call of a [Writer] that
    succeeds changes it in one place; [represents] relates it to the writer's
    entries and to the bytes already written. *)

From S2P Require Import Prelude Effects GoStrings GoPath SquashMeta SquashCodec SquashWriter SquashReader.

(** ** The file system and the calls *)

Inductive node :=
  | NFile (a : Attrs) (content : string)
  | NDir (a : Attrs)
  | NSymlink (a : Attrs) (target : string)
  | NLink (target : string)
  | NChar (a : Attrs) (major minor : Z)
  | NBlock (a : Attrs) (major minor : Z)
  | NFIFO (a : Attrs)
  | NSocket (a : Attrs).

Notation fsys := (gmap string node).

Inductive call :=
  | CallFile (a : Attrs)
  | CallWrite (h p : string)
  | CallDir (a : Attrs)
  | CallSymlink (a : Attrs) (target : string)
  | CallHardlink (linkPath target : string)
  | CallChar (a : Attrs) (major minor : Z)
  | CallBlock (a : Attrs) (major minor : Z)
  | CallFIFO (a : Attrs)
  | CallSocket (a : Attrs).

Definition runCall (cfg : writerConfig Compressor) (k : call) : act Writer unit :=
  match k with
  | CallFile a => let* _ := CreateFile cfg a in ret tt
  | CallWrite h p => let* _ := fileWrite cfg h p in ret tt
  | CallDir a => CreateDir cfg a
  | CallSymlink a target => CreateSymlink cfg a target
  | CallHardlink linkPath target => CreateHardlink cfg linkPath target
  | CallChar a major minor => CreateCharDevice cfg a major minor
  | CallBlock a major minor => CreateBlockDevice cfg a major minor
  | CallFIFO a => CreateFIFO cfg a
  | CallSocket a => CreateSocket cfg a
  end.

(** What a call means. *)
Definition appendTo (p : string) (n : node) : node :=
  match n with NFile a content => NFile a (content +:+ p) | n => n end.

Definition applyCall (k : call) (fs : fsys) : fsys :=
  match k with
  | CallFile a => <[aPath a := NFile a ""]> fs
  | CallWrite h p => alter (appendTo p) h fs
  | CallDir a => <[aPath a := NDir a]> fs
  | CallSymlink a target => <[aPath a := NSymlink a target]> fs
  | CallHardlink linkPath target => <[linkPath := NLink target]> fs
  | CallChar a major minor => <[aPath a := NChar a major minor]> fs
  | CallBlock a major minor => <[aPath a := NBlock a major minor]> fs
  | CallFIFO a => <[aPath a := NFIFO a]> fs
  | CallSocket a => <[aPath a := NSocket a]> fs
  end.

(** The arguments are in the ranges of their types. *)
Definition wfAttrs (a : Attrs) : Prop := uint 4 (aUID a) /\ uint 4 (aGID a).

Definition wfCall (k : call) : Prop :=
  match k with
  | CallFile a | CallDir a | CallSymlink a _ | CallFIFO a | CallSocket a => wfAttrs a
  | CallChar a major minor | CallBlock a major minor => wfAttrs a /\ uint 4 major /\ uint 4 minor
  | CallWrite _ _ | CallHardlink _ _ => True
  end.

Definition validBlockSize (n : Z) : Prop := (MinBlockSize <= n <= MaxBlockSize)%Z /\ Z.land n (n - 1) = 0%Z.

Lemma applyOptions_blockSize opts : forall c0 c1,
  validBlockSize (cfgBlockSize c0) -> applyOptions opts c0 = Ok c1 -> validBlockSize (cfgBlockSize c1).
Proof.
  induction opts as [|o opts IH]; intros c0 c1 H0 H; cbn in H; [by simplify_eq|].
  apply rbind_Ok in H as (c & H1 & H). apply IH in H; [done|].
  destruct o as [n|[x|]|t]; cbn in H1; unfold WithBlockSize, WithFixedMtime in H1; repeat case_match; simplify_eq; try done.
  cbn. split; lia.
Qed.

Lemma NewWriter_spec opts cfg w :
  NewWriter opts = Ok (cfg, w) ->
  validBlockSize (cfgBlockSize cfg) /\ w = mkWriter (zeros superblockSize) false false 96 ∅ [] None newIDTable.
Proof.
  unfold NewWriter. intros H. apply rbind_Ok in H as (cfg' & H & E). case_match; [|done]. simplify_eq.
  split; [|done]. by eapply applyOptions_blockSize in H.
Qed.

(** ** Paths *)

(** A path the writer accepts. *)
Definition validPath (p : string) : Prop := exists cs, cs <> [] /\ Forall proper cs /\ p = absOf cs.

Lemma validatePath_spec p : validatePath p = Ok tt -> validPath p.
Proof.
  unfold validatePath. intros H. case_match; [done|]. case_match eqn:Hp; [done|]. case_match; [done|].
  case_match eqn:Hf; [|done]. apply negb_false_iff, hasPrefix_spec in Hp as [r ->]. cbn [sdrop String.append] in Hf.
  exists (splitOn slash r). split_and!; [apply splitOn_ne| |].
  - pose proof (splitOn_no_sep slash r) as Hs. rewrite Forall_forall in Hs |- *. intros x Hx.
    rewrite forallb_forall in Hf. specialize (Hf x). rewrite <- list_elem_of_In in Hf. specialize (Hf Hx).
    apply negb_true_iff, orb_false_iff in Hf as [Hf E3]. apply orb_false_iff in Hf as [E1 E2].
    apply String.eqb_neq in E1, E2, E3. split_and!; auto.
  - unfold absOf. change "/" with (String slash "") at 3. by rewrite joinWith_splitOn.
Qed.

Lemma validatePath_complete p : validPath p -> validatePath p = Ok tt.
Proof.
  intros (cs & Hne & Hp & ->). unfold validatePath.
  destruct (String.eqb_spec (absOf cs) "") as [E|_]; [done|].
  destruct (String.eqb_spec (absOf cs) "/") as [E|_].
  { change "/" with (absOf []) in E. apply absOf_inj in E; done. }
  cbn [orb]. change (hasPrefix (absOf cs) "/") with true. cbn [negb].
  assert (splitOn slash (sdrop 1 (absOf cs)) = cs) as Es.
  { unfold absOf. cbn [String.append sdrop]. by apply (splitOn_joinWith slash); [apply proper_noslash|]. }
  assert (hasSuffix (absOf cs) "/" = false) as ->.
  { destruct cs as [|c cs _] using rev_ind; [done|]. apply Forall_app in Hp as [_ Hc].
    apply Forall_cons in Hc as [(Hc & _ & _ & Hs) _]. rewrite absOf_snoc.
    induction c as [|c' x _] using string_snoc_ind; [done|]. rewrite containsByte_app in Hs. apply orb_false_iff in Hs as [_ Hs].
    cbn in Hs. rewrite orb_false_r in Hs. set (d := if decide (cs = []) then "" else absOf cs).
    change (String slash (c' +:+ String x "")) with (String slash c' +:+ String x ""). rewrite <- sapp_assoc.
    unfold hasSuffix. rewrite slen_app. cbn [slen String.length]. rewrite Nat.add_sub, sdrop_app.
    destruct (String.eqb_spec (String x "") "/") as [[= ->]|]; [done|]. by rewrite andb_false_r. }
  rewrite Es. replace (forallb _ cs) with true; [done|]. symmetry. apply forallb_forall. intros x Hx.
  rewrite Forall_forall in Hp. apply list_elem_of_In in Hx. destruct (Hp x Hx) as (H1 & H2 & H3 & _).
  apply String.eqb_neq in H1, H2, H3. by rewrite H1, H2, H3.
Qed.

(** ** Data blocks *)

Definition blocksLen (sizes : list Z) : nat := foldr (fun word n => Z.to_nat (word mod 2 ^ 24) + n) 0 sizes.

Lemma sizeWord_spec raw disk :
  (Z.of_nat (slen disk) < 2 ^ 24)%Z ->
  Z.to_nat (sizeWord raw disk mod 2 ^ 24) = slen disk /\ Z.testbit (sizeWord raw disk) 24 = raw /\ uint 4 (sizeWord raw disk).
Proof.
  intros H. unfold sizeWord, DataBlockUncompressedBit, uint. set (n := Z.of_nat (slen disk)) in *.
  assert (0 <= n < 2 ^ 24)%Z as Hn by lia. destruct raw.
  - rewrite Z.lor_comm, lor_shiftl by lia. destruct (shifted_fields 1 n 24) as (E1 & _ & E2); [lia..|].
    rewrite E1, E2. split_and!; [lia|done|cbn; lia..].
  - destruct (shifted_fields 0 n 24) as (E1 & _ & E2); [lia..|]. rewrite Z.mul_0_l, Z.add_0_l in *.
    rewrite E1, E2. split_and!; [lia|done|cbn; lia..].
Qed.

Section DataFacts.
  Context (c : Compressor).

Lemma readData_app img pos s1 s2 d1 :
  readData c img pos s1 = Some d1 ->
  readData c img pos (s1 ++ s2) = d2 ← readData c img (pos + blocksLen s1) s2; Some (d1 +:+ d2).
Proof.
  revert pos d1. induction s1 as [|word s1 IH]; intros pos d1 H; cbn [readData blocksLen foldr app] in *.
  { simplify_eq. rewrite Nat.add_0_r. by destruct (readData c img pos s2). }
  destruct (bytesField _ (sdrop pos img)) as [[data r]|]; [|done]. cbn [mbind option_bind] in *.
  destruct (loadBlock c _ data) as [x|]; [|done]. cbn [mbind option_bind] in *.
  destruct (readData c img _ s1) as [more|] eqn:E; [|done]. cbn [mbind option_bind] in *. simplify_eq.
  rewrite (IH _ _ E). rewrite <- Nat.add_assoc. fold (blocksLen s1).
  destruct (readData c img _ s2); [|done]. cbn [mbind option_bind]. by rewrite sapp_assoc.
Qed.

(** Only the bytes from the start of the blocks on count. *)
Lemma readData_from img img' pos sizes :
  sdrop pos img = sdrop pos img' -> readData c img pos sizes = readData c img' pos sizes.
Proof.
  revert pos. induction sizes as [|word sizes IH]; intros pos H; [done|]. cbn [readData]. rewrite H.
  destruct (bytesField _ (sdrop pos img')) as [[data r]|]; [|done]. cbn [mbind option_bind].
  destruct (loadBlock c _ data); [|done]. cbn [mbind option_bind]. rewrite (IH _); [done|].
  rewrite <- !sdrop_sdrop. by rewrite H.
Qed.

Lemma bytesField_ext n pos img t a r :
  bytesField n (sdrop pos img) = Some (a, r) -> exists r', bytesField n (sdrop pos (img +:+ t)) = Some (a, r').
Proof.
  unfold bytesField. destruct (Nat.ltb_spec (slen (sdrop pos img)) n) as [|Hn]; [done|]. intros [= <- <-].
  rewrite slen_sdrop in Hn. destruct (Nat.leb_spec pos (slen img)).
  - rewrite sdrop_app_le by done. rewrite slen_app, slen_sdrop.
    destruct (Nat.ltb_spec (slen img - pos + slen t) n); [lia|]. rewrite stake_app_le by (rewrite slen_sdrop; lia). eauto.
  - assert (n = 0) as -> by lia. cbn. eauto.
Qed.

Lemma readData_ext img t pos sizes d : readData c img pos sizes = Some d -> readData c (img +:+ t) pos sizes = Some d.
Proof.
  revert pos d. induction sizes as [|word sizes IH]; intros pos d H; [done|]. cbn [readData] in *.
  destruct (bytesField _ (sdrop pos img)) as [[data r]|] eqn:E; [|done]. cbn [mbind option_bind] in *.
  apply (bytesField_ext _ _ _ t) in E as [r' ->]. cbn [mbind option_bind].
  destruct (loadBlock c _ data); [|done]. cbn [mbind option_bind] in *.
  destruct (readData c img _ sizes) eqn:Er; [|done]. by rewrite (IH _ _ Er).
Qed.
End DataFacts.

(** ** The writer represents a file system *)

Section Represents.
  Context (cfg : writerConfig Compressor) `{!CompressorLaws (cfgCompressor cfg)}.
  Context (bsz : validBlockSize (cfgBlockSize cfg)).
  #[local] Notation comp := (cfgCompressor cfg).
  #[local] Notation bs := (cfgBlockSize cfg).

Definition fileEntry (p : string) (a : Attrs) (start size : Z) (sizes : list Z) : entry :=
  set_size size (set_blocks sizes (newEntry p kindFile a start "" None 0 0)).

(** The blocks from [start] on hold [data]. *)
Definition dataAt (out : string) (start : Z) (sizes : list Z) (data : string) : Prop :=
  (Z.of_nat superblockSize <= start)%Z /\ Forall (uint 4) sizes /\ readData comp out (Z.to_nat start) sizes = Some data.

(** The entry of a node whose contents are all written. *)
Definition sealed (out p : string) (e : entry) (n : node) : Prop :=
  match n with
  | NFile a content => exists start sizes, e = fileEntry p a start (Z.of_nat (slen content)) sizes /\
      dataAt out start sizes content /\ Z.of_nat (length sizes) = blockCount bs (Z.of_nat (slen content))
  | NDir a => e = newEntry p kindDir a 0 "" None 0 0
  | NSymlink a target => e = newEntry p kindSymlink a 0 target None 0 0
  | NLink t => e = newEntry p kindHardlink noAttrs 0 "" (Some t) 0 0
  | NChar a major minor => e = newEntry p kindCharDev a 0 "" None major minor
  | NBlock a major minor => e = newEntry p kindBlockDev a 0 "" None major minor
  | NFIFO a => e = newEntry p kindFIFO a 0 "" None 0 0
  | NSocket a => e = newEntry p kindSocket a 0 "" None 0 0
  end.

(** The entry of the current file: full blocks up to the end of the output. *)
Definition opened (out p : string) (e : entry) (a : Attrs) (size : Z) (data : string) : Prop :=
  exists start sizes, e = fileEntry p a start size sizes /\ dataAt out start sizes data /\
    (start + Z.of_nat (blocksLen sizes) = Z.of_nat (slen out))%Z /\
    Z.of_nat (slen data) = (bs * Z.of_nat (length sizes))%Z.

(** Node by node. *)
Definition wfNode (fs : fsys) (n : node) : Prop :=
  match n with
  | NFile a _ | NDir a | NSymlink a _ | NFIFO a | NSocket a => wfAttrs a
  | NChar a major minor | NBlock a major minor => wfAttrs a /\ uint 4 major /\ uint 4 minor
  | NLink t => exists a content, fs !! t = Some (NFile a content)
  end.

Record wfWriter (w : Writer) (fs : fsys) : Prop := {
  wf_pos : wOutPos w = Z.of_nat (slen (wOut w));
  wf_super : superblockSize <= slen (wOut w);
  wf_open : wClosed w = false;
  wf_ids : wIds w = newIDTable;
  wf_nodup : NoDup (wOrder w);
  wf_order p : p ∈ wOrder w <-> is_Some (fs !! p);
  wf_paths p : p ∈ wOrder w -> validPath p;
  wf_nodes p n : fs !! p = Some n -> wfNode fs n
}.

Definition sealedBut (h : option string) (w : Writer) (fs : fsys) : Prop :=
  forall p, Some p <> h -> option_Forall2 (sealed (wOut w) p) (wEntries w !! p) (fs !! p).

(** In the middle of a write to [h], whose recorded size is [size]. *)
Definition writing (w : Writer) (fs : fsys) (h : string) (size : Z) (data buf : string) : Prop :=
  wfWriter w fs /\ wCurFile w = Some (h, buf) /\ sealedBut (Some h) w fs /\
  exists e a content, wEntries w !! h = Some e /\ fs !! h = Some (NFile a content) /\ opened (wOut w) h e a size data.

Definition represents (w : Writer) (fs : fsys) : Prop :=
  match wCurFile w with
  | None => wfWriter w fs /\ sealedBut None w fs
  | Some (h, buf) => exists a data, fs !! h = Some (NFile a (data +:+ buf)) /\ (Z.of_nat (slen buf) < bs)%Z /\
      writing w fs h (Z.of_nat (slen (data +:+ buf))) data buf
  end.

Lemma dataAt_ext out t start sizes data : dataAt out start sizes data -> dataAt (out +:+ t) start sizes data.
Proof. intros (? & ? & ?). split_and!; [done..|]. by apply readData_ext. Qed.

Lemma sealed_ext out t p e n : sealed out p e n -> sealed (out +:+ t) p e n.
Proof.
  destruct n; cbn; try done. intros (start & sizes & -> & Hd & Hl). exists start, sizes.
  split_and!; [done|by apply dataAt_ext|done].
Qed.

(** A block more. *)
Lemma dataAt_snoc out start sizes data buf raw disk :
  dataAt out start sizes data -> (start + Z.of_nat (blocksLen sizes) = Z.of_nat (slen out))%Z ->
  storeBlock comp buf = Ok (raw, disk) -> (Z.of_nat (slen buf) <= bs)%Z ->
  dataAt (out +:+ disk) start (sizes ++ [sizeWord raw disk]) (data +:+ buf) /\
  (start + Z.of_nat (blocksLen (sizes ++ [sizeWord raw disk])) = Z.of_nat (slen (out +:+ disk)))%Z.
Proof.
  intros (Hs & Hu & Hr) He Hst Hb. destruct bsz as [[_ Hmax] _]. unfold MaxBlockSize in Hmax.
  apply storeBlock_spec in Hst as (Hl & Hle & _); [|done].
  destruct (sizeWord_spec raw disk) as (E1 & E2 & E3); [lia|]. split; [split_and!|].
  - done.
  - apply Forall_app. by split; [|constructor].
  - rewrite (readData_app _ _ _ _ _ data) by by apply readData_ext.
    replace (Z.to_nat start + blocksLen sizes) with (slen out) by lia. cbn [readData]. rewrite E1, sdrop_app.
    rewrite bytesField_all. cbn [mbind option_bind]. rewrite E2, Hl. cbn.
    by rewrite sapp_nil_r.
  - assert (forall s1 s2, blocksLen (s1 ++ s2) = blocksLen s1 + blocksLen s2) as ->.
    { intros s1 s2. induction s1 as [|x s1 IH]; [done|]. cbn. fold (blocksLen s1). fold (blocksLen (s1 ++ s2)). lia. }
    cbn [blocksLen foldr]. rewrite E1, slen_app. lia.
Qed.

(** The state after a block of the current file. *)
Lemma emitDataBlock_cases w h buf :
  wCurFile w = Some (h, buf) ->
  (buf = "" /\ emitDataBlock cfg w = (Done tt, w)) \/
  (exists e, buf <> "" /\ storeBlock comp buf = Err e /\
     emitDataBlock cfg w = (Failed ("squashfs: compress data block: " +:+ e), w)) \/
  (exists raw disk w', buf <> "" /\ storeBlock comp buf = Ok (raw, disk) /\ emitDataBlock cfg w = (Done tt, w') /\
     wOut w' = wOut w +:+ disk /\ wCurFile w' = Some (h, "") /\
     wEntries w' = alter (addBlock (sizeWord raw disk)) h (wEntries w) /\
     (forall fs, wfWriter w fs -> wfWriter w' fs)).
Proof.
  intros Hc. unfold emitDataBlock. rewrite Hc. destruct (String.eqb_spec buf "") as [|Hne]; [by left|].
  right. destruct (storeBlock comp buf) as [[raw disk]|e]; [right|left; eauto].
  eexists raw, disk, _. split_and!; [done..|]. intros fs []. split; cbn; try done.
  - rewrite slen_app. lia.
  - rewrite slen_app. lia.
Qed.

Lemma sealedBut_emit h w w' fs t f :
  wOut w' = wOut w +:+ t -> wEntries w' = alter f h (wEntries w) ->
  sealedBut (Some h) w fs -> sealedBut (Some h) w' fs.
Proof.
  intros Ho He H p Hp. rewrite Ho, He, lookup_alter_ne by congruence. specialize (H p Hp).
  inversion H; constructor. by apply sealed_ext.
Qed.

Lemma addBlock_fileEntry word p a start size sizes :
  addBlock word (fileEntry p a start size sizes) = fileEntry p a start size (sizes ++ [word]).
Proof. done. Qed.

Lemma emit_full w w' fs h size data buf :
  writing w fs h size data buf -> Z.of_nat (slen buf) = bs -> emitDataBlock cfg w = (Done tt, w') ->
  writing w' fs h size (data +:+ buf) "".
Proof.
  intros (Hwf & Hc & Hs & e & a & content & He & Hf & (start & sizes & -> & Hd & Hend & Hl)) Hb H.
  destruct bsz as [[Hmin _] _]. unfold MinBlockSize in Hmin.
  destruct (emitDataBlock_cases w h buf Hc) as [[-> _]|[(e & _ & _ & E)|(raw & disk & w1 & _ & Est & E & Eo & Ec & Ee & Ewf)]];
    [cbn in Hb; lia|congruence|]. rewrite H in E. simplify_eq.
  destruct (dataAt_snoc _ _ _ _ _ _ _ Hd Hend Est) as [Hd' Hend']; [lia|].
  split_and!; [by apply Ewf|done|by eapply sealedBut_emit|].
  exists (addBlock (sizeWord raw disk) (fileEntry h a start size sizes)), a, content.
  rewrite Ee, lookup_alter_eq, He. split_and!; [done..|]. rewrite Eo. exists start, (sizes ++ [sizeWord raw disk]).
  split_and!; [done..|]. rewrite slen_app, length_app. cbn. lia.
Qed.

Lemma fileWriteLoop_writing fuel : forall p w w' fs h size data buf written n,
  slen p <= fuel -> writing w fs h size data buf -> (Z.of_nat (slen buf) < bs)%Z ->
  fileWriteLoop cfg fuel h p written w = (Done n, w') ->
  exists data' buf', data' +:+ buf' = data +:+ buf +:+ p /\ n = written + slen p /\
    writing w' fs h size data' buf' /\ (Z.of_nat (slen buf') < bs)%Z.
Proof.
  destruct bsz as [[Hmin _] _]. unfold MinBlockSize in Hmin.
  induction fuel as [|k IH]; intros p w w' fs h size data buf written n Hf Hw Hb H.
  { destruct p; [|cbn in Hf; lia]. unfold fileWriteLoop, ret in H. simplify_eq. exists data, buf. rewrite !sapp_nil_r, Nat.add_0_r. done. }
  destruct p as [|x p].
  { unfold fileWriteLoop, ret in H. simplify_eq. exists data, buf. rewrite !sapp_nil_r, Nat.add_0_r. done. }
  cbn [fileWriteLoop] in H. set (q := String x p) in *. pose proof Hw as (Hwf & Hc & Hs & Hopen). rewrite Hc in H.
  set (m := Nat.min (slen q) (Z.to_nat bs - slen buf)) in *.
  assert (0 < m <= slen q) as Hm by (subst m q; cbn [String.length]; lia).
  set (buf' := buf +:+ stake m q) in *.
  assert ((Z.of_nat (slen buf') <= bs)%Z /\ slen buf' = slen buf + m) as [Hle Hlen]
    by (subst buf'; rewrite slen_app, slen_stake; lia).
  apply bind_Done in H as ([] & w0 & H1 & H). unfold modify in H1. simplify_eq. set (w1 := set_cur (Some (h, buf')) w) in *.
  assert (writing w1 fs h size data buf') as Hw1.
  { split_and!; [|done|exact Hs|exact Hopen]. by destruct Hwf; split. }
  apply bind_Done in H as ([] & w2 & H2 & H).
  assert (exists d2 b2, d2 +:+ b2 = data +:+ buf' /\ writing w2 fs h size d2 b2 /\ (Z.of_nat (slen b2) < bs)%Z)
    as (d2 & b2 & E2 & Hw2 & Hb2).
  { destruct (Z.eqb_spec (Z.of_nat (slen buf')) bs) as [Ef|Ef].
    - exists (data +:+ buf'), "". rewrite sapp_nil_r. split_and!; [done|by eapply emit_full|cbn; lia].
    - unfold ret in H2. simplify_eq. exists data, buf'. split_and!; [done..|lia]. }
  apply (IH _ _ _ fs h size d2 b2) in H as (d3 & b3 & E3 & -> & Hw3 & Hb3); [|rewrite slen_sdrop; lia|done..].
  exists d3, b3. split_and!; [|rewrite slen_sdrop; lia|done..].
  rewrite E3, <- sapp_assoc, E2. subst buf'. rewrite !sapp_assoc. by rewrite stake_sdrop.
Qed.

(** *** Writing *)

Lemma wfNode_alter fs h p n : wfNode fs n -> wfNode (alter (appendTo p) h fs) n.
Proof.
  destruct n; cbn; try done. intros (a & content & Ht). destruct (decide (h = target)) as [->|].
  - rewrite lookup_alter_eq, Ht. cbn. eauto.
  - rewrite lookup_alter_ne by done. eauto.
Qed.

Lemma wfNode_append fs p n : wfNode fs n -> wfNode fs (appendTo p n).
Proof. by destruct n. Qed.

Lemma wfWriter_alter w fs h p : wfWriter w fs -> wfWriter w (alter (appendTo p) h fs).
Proof.
  intros [H1 H2 H3 H4 H5 H6 H7 H8]. split; try done.
  - intros q. by rewrite lookup_alter_is_Some.
  - intros q n Hq. rewrite lookup_alter in Hq. case_decide; [subst q|by eapply wfNode_alter, H8].
    apply fmap_Some in Hq as (n' & Hn & ->). by eapply wfNode_append, wfNode_alter, H8.
Qed.

Lemma fileWrite_represents w w' fs h p n :
  represents w fs -> fileWrite cfg h p w = (Done n, w') -> represents w' (alter (appendTo p) h fs) /\ n = slen p.
Proof.
  intros Hr H. unfold fileWrite in H. apply bind_Done in H as ([] & w0 & H0 & H). apply check_Done in H0 as [Hcur ->].
  destruct (wCurFile w) as [[q buf]|] eqn:Hc; [|done]. destruct (String.eqb_spec q h) as [->|]; [|done].
  apply bind_Done in H as ([] & w0 & H0 & H). apply check_Done in H0 as [_ ->].
  apply bind_Done in H as (n1 & w1 & Hl & H). apply bind_Done in H as ([] & w2 & Hm & H). unfold modify in Hm. unfold ret in H.
  simplify_eq. unfold represents in Hr. rewrite Hc in Hr. destruct Hr as (a & data & Hfs & Hb & Hw).
  apply (fileWriteLoop_writing _ _ _ _ _ _ _ _ _ _ _ (le_n _) Hw Hb) in Hl as (data' & buf' & E & -> & Hw1 & Hb').
  split; [|done]. destruct Hw1 as (Hwf & Hc1 & Hs1 & e & a1 & content & He & Hf & (start & sizes & -> & Hd & Hend & Hlen)).
  rewrite Hfs in Hf. simplify_eq. unfold represents. cbn [wCurFile set_entries]. rewrite Hc1. exists a1, data'.
  rewrite lookup_alter_eq, Hfs. cbn [fmap option_fmap option_map appendTo]. rewrite sapp_assoc, <- E.
  split_and!; [done..|].
  split_and!; [apply wfWriter_alter; by destruct Hwf; split|done| |].
  - intros q Hq. cbn. rewrite !lookup_alter_ne by congruence. by apply Hs1.
  - exists (fileEntry h a1 start (Z.of_nat (slen (data' +:+ buf'))) sizes), a1, (data' +:+ buf'). cbn [wEntries set_entries wOut].
    rewrite !lookup_alter_eq, He, Hfs. cbn [fmap option_fmap option_map appendTo]. rewrite sapp_assoc, <- E. split_and!; [|done|].
    + f_equal. transitivity (fileEntry h a1 start (Z.of_nat (slen (data +:+ buf)) + Z.of_nat (slen p)) sizes); [done|].
      f_equal. rewrite E, !slen_app. lia.
    + exists start, sizes. by split_and!.
Qed.

(** *** Sealing *)

Lemma blockCount_tail k r : (0 <= k)%Z -> (0 < r <= bs)%Z -> blockCount bs (bs * k + r) = (k + 1)%Z.
Proof.
  intros Hk Hr. unfold blockCount. symmetry. apply (Z.div_unique _ _ _ (r - 1)); lia.
Qed.

Lemma blockCount_whole k : (0 <= k)%Z -> (0 < bs)%Z -> blockCount bs (bs * k) = k.
Proof. intros Hk Hr. unfold blockCount. symmetry. apply (Z.div_unique _ _ _ (bs - 1)); lia. Qed.

Lemma flushCurFile_represents w w' fs o :
  represents w fs -> flushCurFile cfg w = (o, w') -> represents w' fs /\ (o = Done tt -> wCurFile w' = None) /\ o <> Panicked.
Proof.
  intros Hr H. unfold flushCurFile in H. destruct (wCurFile w) as [[h buf]|] eqn:Hc; [|by simplify_eq].
  pose proof Hr as Hr'. unfold represents in Hr'. rewrite Hc in Hr'. destruct Hr' as (a & data & Hfs & Hb & Hw).
  destruct Hw as (Hwf & _ & Hs & e & a1 & content & He & Hf & (start & sizes & -> & Hd & Hend & Hl)).
  rewrite Hfs in Hf. simplify_eq. destruct bsz as [[Hmin _] _]. unfold MinBlockSize in Hmin. unfold flushTail, bind in H.
  destruct (emitDataBlock_cases w h buf Hc) as [[-> E]|[(er & _ & _ & E)|(raw & disk & w1 & Hne & Est & E & Eo & Ec & Ee & Ewf)]];
    rewrite E in H; unfold modify in H; simplify_eq.
  - split_and!; [|done..]. unfold represents. cbn. split; [by destruct Hwf; split|]. intros p _. cbn.
    destruct (decide (p = h)) as [->|]; [|by apply Hs; congruence]. rewrite He, Hfs. constructor.
    rewrite sapp_nil_r. exists start, sizes. split_and!; [done..|]. rewrite Hl, blockCount_whole; lia.
  - by split_and!.
  - split_and!; [|done..]. unfold represents. cbn. split; [destruct (Ewf _ Hwf); by split|]. intros p _. cbn.
    destruct (decide (p = h)) as [->|]; [|by eapply sealedBut_emit; [done..|congruence]].
    rewrite Ee, lookup_alter_eq, He, Hfs, Eo. constructor. rewrite addBlock_fileEntry.
    destruct (dataAt_snoc _ _ _ _ _ _ _ Hd Hend Est) as [Hd' _]; [lia|].
    exists start, (sizes ++ [sizeWord raw disk]). split_and!; [done..|].
    rewrite slen_app, Nat2Z.inj_add, Hl, blockCount_tail; [rewrite length_app; cbn; lia|lia|].
    destruct buf; [done|]. cbn [String.length] in *. lia.
Qed.

(** *** Creating *)

Lemma wfNode_insert fs p n m : fs !! p = None -> wfNode fs m -> wfNode (<[p := n]> fs) m.
Proof.
  intros Hp. destruct m; cbn; try done. intros (a & content & Ht). exists a, content.
  rewrite lookup_insert_ne; [done|]. intros ->. congruence.
Qed.

Lemma wfWriter_add w fs e n :
  wfWriter w fs -> validPath (ePath e) -> fs !! ePath e = None -> wfNode fs n ->
  wfWriter (add_entry e w) (<[ePath e := n]> fs).
Proof.
  intros [H1 H2 H3 H4 H5 H6 H7 H8] Hv Hn Hnode. split; cbn; try done.
  - apply NoDup_app. split_and!; [done| |apply NoDup_singleton]. intros q Hq ->%list_elem_of_singleton.
    apply H6 in Hq as [? ?]. congruence.
  - intros q. rewrite elem_of_app, list_elem_of_singleton, H6, lookup_insert_is_Some. destruct (decide (q = ePath e)); naive_solver.
  - intros q. rewrite elem_of_app, list_elem_of_singleton. intros [?| ->]; auto.
  - intros q m Hq. apply lookup_insert_Some in Hq as [[<- <-]|[_ Hq]]; apply wfNode_insert; eauto.
Qed.

Lemma add_represents w fs e n :
  represents w fs -> wCurFile w = None -> validPath (ePath e) -> fs !! ePath e = None ->
  sealed (wOut w) (ePath e) e n -> wfNode fs n -> represents (add_entry e w) (<[ePath e := n]> fs).
Proof.
  unfold represents. cbn. intros H Hc Hv Hn Hs Hnode. rewrite Hc in *. destruct H as [Hwf Hsl].
  split; [by apply wfWriter_add|]. intros q _. cbn. rewrite !lookup_insert. case_decide; [subst q; by constructor|by apply Hsl].
Qed.

Lemma addFile_represents w fs a :
  represents w fs -> wCurFile w = None -> validPath (aPath a) -> fs !! aPath a = None -> wfAttrs a ->
  represents (set_cur (Some (aPath a, "")) (add_entry (newEntry (aPath a) kindFile a (wOutPos w) "" None 0 0) w))
    (<[aPath a := NFile a ""]> fs).
Proof.
  unfold represents. cbn. intros H Hc Hv Hn Ha. rewrite Hc in *. destruct H as [Hwf Hsl].
  destruct bsz as [[Hmin _] _]. unfold MinBlockSize in Hmin. exists a, "". rewrite lookup_insert_eq. split_and!; [done|lia|].
  pose proof (wfWriter_add w fs (newEntry (aPath a) kindFile a (wOutPos w) "" None 0 0) (NFile a "") Hwf Hv Hn Ha) as Hwf'.
  split_and!; [by destruct Hwf'; split|done| |].
  - intros q Hq. cbn in *. rewrite !lookup_insert_ne by congruence. by apply Hsl.
  - cbn. rewrite !lookup_insert_eq. eexists _, a, "". split_and!; [done..|]. exists (wOutPos w), [].
    destruct Hwf. split_and!; [done| |cbn; lia|cbn; lia]. split_and!; [lia|done|done].
Qed.

(** What [beginEntry] leaves. *)
Definition ready (w : Writer) (fs : fsys) (p : string) : Prop := wCurFile w = None /\ validPath p /\ fs !! p = None.

Lemma represents_fresh w fs p : represents w fs -> wCurFile w = None -> wEntries w !! p = None -> fs !! p = None.
Proof.
  unfold represents. intros H Hc He. rewrite Hc in H. destruct H as [_ H]. specialize (H p ltac:(done)). rewrite He in H.
  by inversion H.
Qed.

Lemma beginEntry_spec w w' fs p o :
  represents w fs -> beginEntry cfg p w = (o, w') ->
  represents w' fs /\ (o = Done tt -> ready w' fs p) /\ o <> Panicked.
Proof.
  intros Hr H. unfold beginEntry in H. rewrite bind_check in H. case_match; simplify_eq; [|done].
  unfold bind at 1 in H. destruct (flushCurFile cfg w) as [o1 w1] eqn:Ef.
  destruct (flushCurFile_represents w w1 fs o1 Hr Ef) as (Hr1 & Hc1 & Hp1).
  destruct o1 as [[]|e|]; simplify_eq; [|done..]. specialize (Hc1 eq_refl).
  rewrite bind_check in H. destruct (validatePath p) as [[]|e] eqn:Ev; [|by simplify_eq]. apply validatePath_spec in Ev.
  unfold check in H. case_bool_decide as Eb; simplify_eq; [done|]. split_and!; [done| |done]. intros _.
  split_and!; [done..|]. apply (represents_fresh w'); [done..|]. by apply eq_None_not_Some.
Qed.

Lemma CreateFile_begin a w :
  CreateFile cfg a w =
  (let* _ := beginEntry cfg (aPath a) in
   let* _ := modify (fun w => set_cur (Some (aPath a, ""))
                      (add_entry (newEntry (aPath a) kindFile a (wOutPos w) "" None 0 0) w)) in
   ret (aPath a)) w.
Proof.
  unfold CreateFile, beginEntry, bind, check. destruct (wClosed w); [done|].
  destruct (flushCurFile cfg w) as [[[]|e|] w1]; try done. destruct (validatePath (aPath a)) as [[]|]; [|done].
  by case_bool_decide.
Qed.

(** A call that begins an entry and adds it. *)
Lemma create_represents w w' fs o e n (k : act Writer unit) :
  represents w fs -> (let* _ := beginEntry cfg (ePath e) in k) w = (o, w') ->
  (forall w1, k w1 = (Done tt, add_entry e w1) \/ exists er, k w1 = (Failed er, w1)) ->
  (forall out, sealed out (ePath e) e n) -> wfNode fs n ->
  o <> Panicked /\ (o = Done tt -> represents w' (<[ePath e := n]> fs)) /\ (o <> Done tt -> represents w' fs).
Proof.
  intros Hr H Hk Hs Hn. unfold bind in H. destruct (beginEntry cfg (ePath e) w) as [o1 w1] eqn:Eb.
  destruct (beginEntry_spec w w1 fs (ePath e) o1 Hr Eb) as (Hr1 & Hready & Hp).
  destruct o1 as [[]|er|]; [|simplify_eq..]; [|by split_and!]. destruct (Hready eq_refl) as (Hc & Hv & Hf).
  destruct (Hk w1) as [E|[er E]]; rewrite E in H; simplify_eq; split_and!; try done. intros _. by apply add_represents.
Qed.

Lemma CreateHardlink_represents w w' fs linkPath target o :
  represents w fs -> CreateHardlink cfg linkPath target w = (o, w') ->
  o <> Panicked /\ (o = Done tt -> represents w' (<[linkPath := NLink target]> fs)) /\ (o <> Done tt -> represents w' fs).
Proof.
  intros Hr H. unfold CreateHardlink in H. rewrite bind_check in H. case_match; [|by simplify_eq].
  unfold bind at 1 in H. destruct (flushCurFile cfg w) as [o1 w1] eqn:Ef.
  destruct (flushCurFile_represents w w1 fs o1 Hr Ef) as (Hr1 & Hc1 & Hp1).
  destruct o1 as [[]|e|]; simplify_eq; [|by split_and!]. specialize (Hc1 eq_refl).
  rewrite bind_check in H. destruct (validatePath linkPath) as [[]|e] eqn:Ev; [|by simplify_eq]. apply validatePath_spec in Ev.
  rewrite bind_check in H. destruct (validatePath target) as [[]|e]; [|by simplify_eq].
  rewrite bind_check in H. case_bool_decide as Ed; [by simplify_eq|]. rewrite <- eq_None_not_Some in Ed.
  rewrite bind_check in H. destruct (wEntries w1 !! target) as [tgt|] eqn:Et; [|by simplify_eq].
  case_bool_decide as Ek; [|by simplify_eq]. unfold modify in H. simplify_eq. split_and!; [done| |done]. intros _.
  apply (add_represents w1 fs (newEntry linkPath kindHardlink noAttrs 0 "" (Some target) 0 0)); [done..| |done|].
  - by apply (represents_fresh w1).
  - cbn. unfold represents in Hr1. rewrite Hc1 in Hr1. destruct Hr1 as [_ Hs]. specialize (Hs target ltac:(done)).
    rewrite Et in Hs. inversion Hs as [? n Hn|]; subst. destruct n; cbn in Hn; subst; try done. eauto.
Qed.

(** A call changes the file system as it says, or fails and leaves it alone. *)
Lemma runCall_represents k w w' fs o :
  wfCall k -> represents w fs -> runCall cfg k w = (o, w') ->
  (o = Done tt -> represents w' (applyCall k fs)) /\
  (o <> Done tt -> (forall h p, k <> CallWrite h p) -> o <> Panicked /\ represents w' fs).
Proof.
  intros Hk Hr H. destruct k as [a|h p|a|a target|linkPath target|a major minor|a major minor|a|a]; cbn [runCall applyCall] in *.
  - unfold bind in H at 1. rewrite CreateFile_begin in H. unfold bind in H at 1. destruct (beginEntry cfg (aPath a) w) as [o1 w1] eqn:Eb.
    destruct (beginEntry_spec w w1 fs _ o1 Hr Eb) as (Hr1 & Hready & Hp).
    destruct o1 as [[]|er|]; [|simplify_eq..]; [|by split]. destruct (Hready eq_refl) as (Hc & Hv & Hf).
    unfold bind, modify, ret in H. simplify_eq. split; [|done]. intros _. by apply addFile_represents.
  - unfold bind in H. destruct (fileWrite cfg h p w) as [[n|e|] w1] eqn:Ew; unfold ret in H; simplify_eq.
    + split; [|done]. intros _. by eapply fileWrite_represents in Ew as [? _].
    + split; [done|]. intros _ Hne. by destruct (Hne h p).
    + split; [done|]. intros _ Hne. by destruct (Hne h p).
  - apply (create_represents w w' fs o (newEntry (aPath a) kindDir a 0 "" None 0 0) (NDir a)) in H as (? & ? & ?); [auto|done|intros w1; by left|done..].
  - apply (create_represents w w' fs o (newEntry (aPath a) kindSymlink a 0 target None 0 0) (NSymlink a target)) in H as (? & ? & ?); [auto|done|intros w1; rewrite bind_check; case_match; eauto|done..].
  - destruct (CreateHardlink_represents _ _ _ _ _ _ Hr H) as (? & ? & ?). auto.
  - apply (create_represents w w' fs o (newEntry (aPath a) kindCharDev a 0 "" None major minor) (NChar a major minor)) in H as (? & ? & ?); [auto|done|intros w1; by left|done..].
  - apply (create_represents w w' fs o (newEntry (aPath a) kindBlockDev a 0 "" None major minor) (NBlock a major minor)) in H as (? & ? & ?); [auto|done|intros w1; by left|done..].
  - apply (create_represents w w' fs o (newEntry (aPath a) kindFIFO a 0 "" None 0 0) (NFIFO a)) in H as (? & ? & ?); [auto|done|intros w1; by left|done..].
  - apply (create_represents w w' fs o (newEntry (aPath a) kindSocket a 0 "" None 0 0) (NSocket a)) in H as (? & ? & ?); [auto|done|intros w1; by left|done..].
Qed.
End Represents.
