(* ===== verification/SquashLayout.v ===== *)
(** * SquashLayout: what [Close] lays out.

    The passes of [Close] over the tree number the entries, count links,
    intern the owners and write inodes and listings.  Each pass keeps what the
    calls recorded ([sameStatic]) and adds its part; at the end every inode and
    every listing is in the stream where its reference says. *)

From S2P Require Import Prelude Effects GoStrings GoPath SquashMeta SquashCodec SquashWriter SquashReader SquashBuild.

(** ** What the passes keep *)

(** The fields the calls have set. *)
Definition sameStatic (e e' : entry) : Prop :=
  ePath e' = ePath e /\ eKind e' = eKind e /\ eAttrs e' = eAttrs e /\ eFileBlocksStart e' = eFileBlocksStart e /\
  eFileBlockSizes e' = eFileBlockSizes e /\ eFileSize e' = eFileSize e /\ eSymlinkTarget e' = eSymlinkTarget e /\
  eHardlinkTarget e' = eHardlinkTarget e /\ eDevMajor e' = eDevMajor e /\ eDevMinor e' = eDevMinor e.

(** The fields the passes set, in the ranges of their types. *)
Definition wfDynamic (e : entry) : Prop :=
  uint 4 (eInodeNumber e) /\ uint 4 (eParentInode e) /\ uint 4 (eNlinks e) /\ uint 2 (eUidIdx e) /\ uint 2 (eGidIdx e) /\
  uint 2 (refOffset (eInodeRef e)) /\ (0 <= eDirBlockStart e)%Z /\ uint 2 (eDirBlockOffset e) /\ uint 4 (eDirListingSize e).

#[global] Instance sameStatic_preorder : PreOrder sameStatic.
Proof. split; [by intros ?; split_and!|]. intros x y z (?&?&?&?&?&?&?&?&?&?) (?&?&?&?&?&?&?&?&?&?). split_and!; congruence. Qed.

(** The same, and the owners. *)
Definition sameOwner (e e' : entry) : Prop := sameStatic e e' /\ eUidIdx e' = eUidIdx e /\ eGidIdx e' = eGidIdx e.

#[global] Instance sameOwner_preorder : PreOrder sameOwner.
Proof.
  split; [by intros ?|]. intros x y z (? & ? & ?) (? & ? & ?). split_and!; [by etrans|congruence..].
Qed.

(** A pass from the entries [es] to [es'] that relates the entries by [R]. *)
Definition passesBy (R : relation entry) (es es' : gmap string entry) : Prop :=
  (forall p, option_Forall2 R (es !! p) (es' !! p)) /\
  (map_Forall (fun _ e => wfDynamic e) es -> map_Forall (fun _ e => wfDynamic e) es').

Notation passes := (passesBy sameStatic).

Section Passes.
  Context (R : relation entry) `{!PreOrder R}.

#[global] Instance passesBy_preorder : PreOrder (passesBy R).
Proof.
  split.
  - intros es. split; [|done]. intros p. destruct (es !! p); by constructor.
  - intros x y z [H1 D1] [H2 D2]. split; [|auto]. intros p. specialize (H1 p). specialize (H2 p).
    inversion H1; subst; inversion H2; subst; try congruence; constructor. etrans; [done|]. congruence.
Qed.

Lemma passesBy_alter f p es :
  (forall e, es !! p = Some e -> R e (f e) /\ (wfDynamic e -> wfDynamic (f e))) -> passesBy R es (alter f p es).
Proof.
  intros H. split.
  - intros q. rewrite lookup_alter. case_decide; [subst q|by destruct (es !! q); constructor].
    destruct (es !! p) as [e|]; constructor. by apply (H e).
  - intros D q e' Hq. rewrite lookup_alter in Hq. case_decide; [subst q|by apply (D q)].
    apply fmap_Some in Hq as (e & He & ->). apply (H e He), (D _ _ He).
Qed.

Lemma passesBy_insert e' p e es :
  es !! p = Some e -> R e e' -> (wfDynamic e -> wfDynamic e') -> passesBy R es (<[p := e']> es).
Proof.
  intros He Hs Hd. replace (<[p := e']> es) with (alter (fun _ => e') p es).
  - apply passesBy_alter. intros e0 He0. rewrite He in He0. by simplify_eq.
  - apply map_eq. intros q. rewrite lookup_alter, lookup_insert. by case_decide; [subst q; rewrite He|].
Qed.

Lemma passesBy_lookup es es' p e : passesBy R es es' -> es !! p = Some e -> exists e', es' !! p = Some e' /\ R e e'.
Proof using. intros [H _] He. specialize (H p). rewrite He in H. inversion H; subst. eauto. Qed.

Lemma passesBy_lookup_r es es' p e' : passesBy R es es' -> es' !! p = Some e' -> exists e, es !! p = Some e /\ R e e'.
Proof using. intros [H _] He. specialize (H p). rewrite He in H. inversion H; subst. eauto. Qed.
End Passes.

Lemma passesBy_weaken (R R' : relation entry) es es' :
  (forall e e', R e e' -> R' e e') -> passesBy R es es' -> passesBy R' es es'.
Proof. intros HR [H D]. split; [|done]. intros p. destruct (H p); constructor. auto. Qed.

Lemma owner_passes es es' : passesBy sameOwner es es' -> passes es es'.
Proof. apply passesBy_weaken. by intros e e' []. Qed.

Lemma passes_kind es es' k p : passes es es' -> kindIs k es' p = kindIs k es p.
Proof.
  intros [H _]. unfold kindIs. specialize (H p). inversion H as [e e' (_ & E & _)|]; subst; [|done]. by rewrite E.
Qed.

(** ** Induction on trees *)

Fixpoint paths (t : tree) : list string := match t with Node p kids => p :: concat (map paths kids) end.

Lemma tree_induction (P : tree -> Prop) : (forall p kids, Forall P kids -> P (Node p kids)) -> forall t, P t.
Proof.
  intros H. fix IH 1. intros [p kids]. apply H. induction kids as [|k kids IHk]; constructor; [apply IH|apply IHk].
Qed.

Lemma uint_mod n z : uint n (z mod 2 ^ (8 * Z.of_nat n)).
Proof. apply Z.mod_pos_bound. apply Z.pow_pos_nonneg; lia. Qed.

(** ** Numbers and link counts *)

Lemma assignInodeNumbers_passes t : forall parent st,
  uint 4 parent -> uint 4 st.2 ->
  passesBy sameOwner st.1 (assignInodeNumbers t parent st).1 /\ uint 4 (assignInodeNumbers t parent st).2.
Proof.
  induction t as [p kids IH] using tree_induction. intros parent [es next] Hp Hn. cbn [assignInodeNumbers fst snd].
  destruct (kindIs kindHardlink es p); [done|].
  assert (passesBy sameOwner es (alter (set_inode next parent) p es)) as H1.
  { apply (passesBy_alter sameOwner). intros e _. split; [done|]. intros (?&?&?&?&?&?&?&?&?). by split_and!. }
  assert (uint 4 ((next + 1) mod 2 ^ 32)) as H2 by apply (uint_mod 4).
  destruct (kindIs kindDir es p); [|done].
  assert (forall st, passesBy sameOwner es st.1 -> uint 4 st.2 ->
    passesBy sameOwner es (foldl (fun st k => assignInodeNumbers k next st) st kids).1 /\
    uint 4 (foldl (fun st k => assignInodeNumbers k next st) st kids).2) as Hfold; [|by apply Hfold].
  clear H1 H2. induction IH as [|k kids Hk _ IHk]; intros st H1 H2; [done|]. cbn [foldl].
  destruct (Hk next st Hn H2). apply IHk; [by etrans|done].
Qed.

Lemma countLink_passes es p : passesBy sameOwner es (countLink es p).
Proof.
  unfold countLink. destruct (es !! p) as [e|] eqn:He; [|done].
  assert (forall n e, uint 4 n -> sameOwner e (set_nlinks n e) /\ (wfDynamic e -> wfDynamic (set_nlinks n e))) as Hset.
  { intros n e0 Hn. split; [done|]. intros (?&?&?&?&?&?&?&?&?). by split_and!. }
  destruct (eKind e); try done; try (eapply (passesBy_insert sameOwner); [done|by apply Hset..]).
  destruct (eHardlinkTarget e); [|done]. apply (passesBy_alter sameOwner). intros e0 _. apply Hset, (uint_mod 4).
Qed.

Lemma countDirs_passes t : forall es, passesBy sameOwner es (countDirs t es).
Proof.
  induction t as [p kids IH] using tree_induction. intros es. cbn [countDirs].
  assert (forall st, passesBy sameOwner es st.1 -> passesBy sameOwner es
    (foldl (fun st k => if kindIs kindDir st.1 (pathOf k) then (countDirs k st.1, ((st.2 + 1) mod 2 ^ 32)%Z) else st) st kids).1) as Hf.
  { induction IH as [|k kids Hk _ IHk]; intros st H; [done|]. cbn [foldl]. apply IHk. case_match; [|done]. by etrans. }
  etrans; [apply (Hf (es, 0%Z)); reflexivity|]. apply (passesBy_alter sameOwner). intros e _. split; [done|].
  intros (?&?&?&?&?&?&?&?&?). split_and!; try done. apply (uint_mod 4).
Qed.

Lemma computeLinkCounts_passes visits t es : passesBy sameOwner es (computeLinkCounts visits t es).
Proof.
  unfold computeLinkCounts. etrans; [|apply countDirs_passes]. revert es.
  induction visits as [|p visits IH]; intros es; [done|]. cbn [foldl]. etrans; [apply countLink_passes|apply IH].
Qed.

(** ** Owners *)

(** The indices of an entry name its owner. *)
Definition owned (ids : idTable) (e : entry) : Prop :=
  idList ids !! Z.to_nat (eUidIdx e) = Some (aUID (eAttrs e)) /\ idList ids !! Z.to_nat (eGidIdx e) = Some (aGID (eAttrs e)).

Lemma owned_prefix ids ids' e : idList ids `prefix_of` idList ids' -> owned ids e -> owned ids' e.
Proof. intros Hp [H1 H2]. split; by eapply prefix_lookup_Some. Qed.

Definition goodIds (ids : idTable) : Prop := wfIdTable ids /\ Forall (uint 4) (idList ids).

Lemma Intern_good ids id idx ids' :
  goodIds ids -> uint 4 id -> Intern ids id = Ok (idx, ids') ->
  goodIds ids' /\ uint 2 idx /\ idList ids' !! Z.to_nat idx = Some id /\ idList ids `prefix_of` idList ids'.
Proof.
  intros [Hw Hu] Hid H. destruct (Intern_spec _ _ _ _ Hw H) as (Hw' & H0 & Hl & Hp & Hsub). split_and!; try done.
  - split; [done|]. apply Forall_forall. intros x Hx. apply Hsub, elem_of_cons in Hx as [->|Hx]; [done|].
    rewrite Forall_forall in Hu. auto.
  - apply lookup_lt_Some in Hl. destruct Hw' as [_ Hlen]. unfold maxIDs, uint in *. cbn. lia.
Qed.

Lemma internEntry_spec p es ids es' ids' e :
  goodIds ids -> es !! p = Some e -> wfAttrs (eAttrs e) -> internEntry p es ids = Ok (es', ids') ->
  goodIds ids' /\ idList ids `prefix_of` idList ids' /\ passes es es' /\
  exists e', es' = <[p := e']> es /\ sameStatic e e' /\ owned ids' e'.
Proof.
  intros Hg He [Hu Hgid] H. unfold internEntry in H. rewrite He in H.
  apply rbind_Ok in H as ([u ids1] & H1 & H). apply rbind_Ok in H as ([g ids2] & H2 & H). cbn [fst snd] in *. simplify_eq.
  apply Intern_good in H1 as (Hg1 & Hu1 & Hl1 & Hp1); [|done..]. apply Intern_good in H2 as (Hg2 & Hu2 & Hl2 & Hp2); [|done..].
  split_and!; [done|by etrans| |].
  - eapply (passesBy_insert sameStatic); [done..|]. intros (?&?&?&?&?&?&?&?&?). by split_and!.
  - exists (set_ids u g e). split_and!; [done..|]. split; [|done]. by eapply prefix_lookup_Some.
Qed.

(** Entries that own an inode. *)
Definition ownsInode (e : entry) : Prop := eKind e <> kindHardlink.

Lemma kindIs_true k es p e : es !! p = Some e -> kindIs k es p = true <-> eKind e = k.
Proof. intros He. unfold kindIs. rewrite He. by rewrite bool_decide_eq_true. Qed.

Lemma internOrder_spec order : forall es ids es' ids',
  NoDup order -> (forall p, p ∈ order -> exists e, es !! p = Some e /\ (ownsInode e -> wfAttrs (eAttrs e))) -> goodIds ids ->
  internOrder order es ids = Ok (es', ids') ->
  goodIds ids' /\ idList ids `prefix_of` idList ids' /\ passes es es' /\
  (forall p, p ∉ order -> es' !! p = es !! p) /\
  (forall p e, p ∈ order -> es' !! p = Some e -> ownsInode e -> owned ids' e).
Proof.
  induction order as [|p order IH]; intros es ids es' ids' Hnd Hin Hg H; cbn [internOrder] in H.
  { simplify_eq. split_and!; try done. intros p e Hp. by apply elem_of_nil in Hp. }
  apply NoDup_cons in Hnd as [Hp Hnd]. destruct (Hin p) as (e & He & Ha); [left|].
  destruct (kindIs kindHardlink es p) eqn:Ek.
  - apply IH in H as (Hg' & Hpre & Hps & Hfr & Hown); [|done| |done].
    2: { intros q Hq. apply Hin. by right. }
    split_and!; try done.
    + intros q Hq. apply Hfr. by intros ?; apply Hq; right.
    + intros q e' Hq He' Hk. apply elem_of_cons in Hq as [->|Hq]; [|by eapply Hown]. exfalso. apply Hk.
      rewrite Hfr in He' by done. by rewrite kindIs_true in Ek by done.
  - assert (ownsInode e) as Hk by (intros E; apply (kindIs_true _ es p e He) in E; congruence).
    apply rbind_Ok in H as ([es1 ids1] & H1 & H). cbn [fst snd] in H.
    apply (internEntry_spec _ _ _ _ _ e) in H1 as (Hg1 & Hp1 & Hps1 & e1 & -> & Hs1 & Ho1); [|auto..].
    apply IH in H as (Hg' & Hpre & Hps & Hfr & Hown); [|done| |done].
    2: { intros q Hq. destruct (Hin q) as (eq & Heq & Hwf); [by right|]. exists eq. rewrite lookup_insert_ne; [done|].
         intros ->. done. }
    split_and!; [done|by etrans|by etrans| |].
    + intros q Hq. rewrite Hfr by by intros ?; apply Hq; right. apply lookup_insert_ne. intros ->. apply Hq. by left.
    + intros q e' Hq He' Hk'. apply elem_of_cons in Hq as [->|Hq]; [|by eapply Hown].
      rewrite Hfr, lookup_insert_eq in He' by done. simplify_eq. by eapply owned_prefix.
Qed.

Lemma internIDs_spec order es ids es' ids' root :
  NoDup order -> "/" ∉ order -> es !! "/" = Some root -> wfAttrs (eAttrs root) -> eKind root = kindDir ->
  eUidIdx root = 0%Z -> eGidIdx root = 0%Z ->
  (forall p, p ∈ order -> exists e, es !! p = Some e /\ (ownsInode e -> wfAttrs (eAttrs e))) -> goodIds ids ->
  internIDs order es ids = Ok (es', ids') ->
  goodIds ids' /\ passes es es' /\ (forall p, p ∉ order -> p <> "/" -> es' !! p = es !! p) /\
  (forall p e, p = "/" \/ p ∈ order -> es' !! p = Some e -> ownsInode e -> owned ids' e).
Proof.
  intros Hnd Hnr Hroot Hra Hrk Hu0 Hg0 Hin Hg H. unfold internIDs in H. apply rbind_Ok in H as ([es1 ids1] & H1 & H). cbn [fst snd] in H.
  apply internOrder_spec in H1 as (Hg1 & Hp1 & Hps1 & Hfr1 & Hown1); [|done..]. rewrite Hfr1, Hroot, Hu0, Hg0 in H by done. cbn in H.
  rewrite <- (Hfr1 "/") in Hroot by done.
  apply (internEntry_spec _ _ _ _ _ root) in H as (Hg2 & Hp2 & Hps2 & e' & -> & Hs' & Ho'); [|done..].
  split_and!; [done|by etrans| |].
  - intros p Hp Hne. rewrite lookup_insert_ne by done. by apply Hfr1.
  - intros p e Hp He Hk. destruct (decide (p = "/")) as [->|Hne]; [rewrite lookup_insert_eq in He; by simplify_eq|].
    rewrite lookup_insert_ne in He by done. destruct Hp as [|Hp]; [done|]. eapply owned_prefix; [done|]. by eapply Hown1.
Qed.

(** ** The streams *)

(** A metadata writer with the pieces its blocks hold and all it was given. *)
Record stream := mkStream {
  sWriter : metaWriter;
  sPieces : list string;
  sBytes : string
}.

Section Streams.
  Context (cfg : writerConfig Compressor) `{!CompressorLaws (cfgCompressor cfg)}.
  #[local] Notation comp := (cfgCompressor cfg).
  #[local] Notation bs := (cfgBlockSize cfg).

Definition valid (x : stream) : Prop := mstate comp (sWriter x) (sPieces x) (sBytes x).

(** [y] is [x] with more written to it. *)
Definition extends (x y : stream) : Prop :=
  mwBlocks (sWriter x) `prefix_of` mwBlocks (sWriter y) /\ sPieces x `prefix_of` sPieces y /\
  exists t, sBytes y = sBytes x +:+ t.

#[global] Instance extends_preorder : PreOrder extends.
Proof.
  split; [intros x; split_and!; [done..|exists ""; by rewrite sapp_nil_r]|].
  intros x y z (P1 & Q1 & t1 & E1) (P2 & Q2 & t2 & E2). split_and!; [by etrans..|].
  exists (t1 +:+ t2). by rewrite E2, E1, sapp_assoc.
Qed.

Lemma write_extends x ps m' :
  valid x -> metaWriteAll comp (sWriter x) ps = Ok m' ->
  exists y, sWriter y = m' /\ valid y /\ extends x y /\ sBytes y = sBytes x +:+ sconcat ps.
Proof.
  intros Hx H. destruct (metaWriteAll_state comp _ _ _ _ _ Hx H) as (Hp & cs & Hs & _).
  exists (mkStream m' (sPieces x ++ cs) (sBytes x +:+ sconcat ps)).
  split; [done|]. split; [exact Hs|]. split; [|done]. split_and!; [done|by eexists|by eexists].
Qed.

Lemma flush_extends x m' :
  valid x -> metaFlush comp (sWriter x) = Ok m' ->
  exists y, sWriter y = m' /\ valid y /\ extends x y /\ sBytes y = sBytes x /\ mwCur m' = "".
Proof.
  intros Hx H. pose proof Hx as (_ & Hc & _). destruct (metaFlush_seals comp _ _ Hc H) as (Hp & Hcur & Hs).
  destruct (Hs _ _ Hx) as [cs Hcs]. exists (mkStream m' (sPieces x ++ cs) (sBytes x)).
  split; [done|]. split; [exact Hcs|]. split; [|done]. split_and!; [done|by eexists|exists ""; by rewrite sapp_nil_r].
Qed.

(** The bytes [b] are in the stream where [r] says. *)
Definition stored (x : stream) (r : metaRef) (b : string) : Prop :=
  exists pre post, sBytes x = pre +:+ b +:+ post /\ names (sPieces x) r (slen pre).

Lemma stored_extends x y r b : extends x y -> stored x r b -> stored y r b.
Proof.
  intros (_ & [cs Hcs] & t & E) (pre & post & Hb & Hn). exists pre, (post +:+ t).
  rewrite E, Hb, !sapp_assoc, Hcs. split; [done|]. by apply names_app.
Qed.

Lemma stored_Ref x y b rest : valid x -> extends x y -> sBytes y = sBytes x +:+ b +:+ rest -> stored y (Ref (sWriter x)) b.
Proof.
  intros Hx (_ & [cs Hcs] & _) E. exists (sBytes x), rest. rewrite E, Hcs. split; [done|]. by eapply names_app, names_Ref.
Qed.

Lemma BlockByteOffset_extends x y r b :
  valid x -> extends x y -> stored x r b ->
  BlockByteOffset (sWriter y) (refBlockIdx r) = BlockByteOffset (sWriter x) (refBlockIdx r).
Proof.
  intros (Hb & _) ([bs' Hp] & _) (pre & post & _ & Hl & _). unfold BlockByteOffset. rewrite Hp, take_app_le; [done|].
  apply Forall2_length in Hb. lia.
Qed.

Lemma Ref_offset x : valid x -> uint 2 (refOffset (Ref (sWriter x))).
Proof. intros (_ & Hc & _). pose proof MetadataBlockSize_Z. unfold uint. cbn [Ref refOffset]. cbn. lia. Qed.

(** ** Inodes *)

(** The inode of an entry is in the stream. *)
Definition placed (x : stream) (e : entry) : Prop :=
  exists mtime body, entryMtime cfg e = Ok mtime /\ encodeInode e mtime bs = Ok body /\ stored x (eInodeRef e) body.

Lemma placed_extends x y e : extends x y -> placed x e -> placed y e.
Proof. intros Hxy (mtime & body & ? & ? & ?). exists mtime, body. split_and!; [done..|]. by eapply stored_extends. Qed.

Lemma writeOneInode_placed p es x es' m' :
  valid x -> writeOneInode cfg p es (sWriter x) = Ok (es', m') ->
  exists e y, es !! p = Some e /\ sWriter y = m' /\ valid y /\ extends x y /\
    es' = <[p := set_ref (Ref (sWriter x)) e]> es /\ placed y (set_ref (Ref (sWriter x)) e) /\ passesBy sameOwner es es'.
Proof.
  intros Hx H. unfold writeOneInode in H. destruct (es !! p) as [e|] eqn:He; [|done].
  apply rbind_Ok in H as (mtime & Hm & H). apply wrapErr_Ok in Hm. apply rbind_Ok in H as (body & Hb & H).
  apply wrapErr_Ok in Hb. apply rbind_Ok in H as (m & Hw & H). simplify_eq.
  destruct (write_extends x [body] m') as (y & Ey & Hy & Hxy & Eb); [done|cbn; by rewrite Hw|].
  exists e, y. split_and!; [done..| |].
  - exists mtime, body. split_and!; [done..|]. by eapply stored_Ref.
  - eapply (passesBy_insert sameOwner); [done..|]. intros (?&?&?&?&?&?&?&?&?). split_and!; try done. by apply Ref_offset.
Qed.

Definition isLeaf (e : entry) : Prop := eKind e <> kindDir /\ eKind e <> kindHardlink.

Lemma not_leaf es p e : es !! p = Some e -> kindIs kindDir es p || kindIs kindHardlink es p = false <-> isLeaf e.
Proof.
  intros He. rewrite orb_false_iff, <- !not_true_iff_false, !(kindIs_true _ _ _ _ He). done.
Qed.

Lemma writeLeafInodes_spec order : forall es x es' m',
  NoDup order -> (forall p, p ∈ order -> is_Some (es !! p)) -> valid x ->
  writeLeafInodes cfg order es (sWriter x) = Ok (es', m') ->
  exists y, sWriter y = m' /\ valid y /\ extends x y /\ passesBy sameOwner es es' /\
    (forall p, p ∉ order -> es' !! p = es !! p) /\
    (forall p e, es !! p = Some e -> ~ isLeaf e -> es' !! p = Some e) /\
    (forall p e, p ∈ order -> es !! p = Some e -> isLeaf e -> exists r, es' !! p = Some (set_ref r e) /\ placed y (set_ref r e)).
Proof.
  induction order as [|p order IH]; intros es x es' m' Hnd Hin Hx H; cbn [writeLeafInodes] in H.
  { simplify_eq. exists x. split_and!; try done. intros p e Hp. by apply elem_of_nil in Hp. }
  apply NoDup_cons in Hnd as [Hp Hnd]. destruct (Hin p) as [e He]; [left|].
  destruct (kindIs kindDir es p || kindIs kindHardlink es p) eqn:Ek.
  - apply IH in H as (y & Ey & Hy & Hxy & Hps & Hfr & Hnl & Hl); [|done| |done]; [|intros q Hq; apply Hin; by right].
    exists y. split_and!; try done.
    + intros q Hq. apply Hfr. by intros ?; apply Hq; right.
    + intros q e' Hq He' Hleaf. apply elem_of_cons in Hq as [->|Hq]; [|by apply Hl]. simplify_eq.
      apply (not_leaf es p) in Hleaf; [congruence|done].
  - apply (not_leaf es p e He) in Ek. apply rbind_Ok in H as ([es1 m1] & H1 & H). cbn [fst snd] in H.
    destruct (writeOneInode_placed p es x es1 m1 Hx H1) as (e0 & x1 & He0 & <- & Hx1 & Hxx1 & -> & Hpl & Hps1). simplify_eq.
    apply IH in H as (y & Ey & Hy & Hxy & Hps & Hfr & Hnl & Hl); [|done| |done].
    2: { intros q Hq. rewrite lookup_insert_ne; [apply Hin; by right|]. by intros ->. }
    exists y. split_and!; [done|done|by etrans|by etrans| | |].
    + intros q Hq. rewrite Hfr by by intros ?; apply Hq; right. apply lookup_insert_ne. intros ->. apply Hq. by left.
    + intros q e' Hq Hleaf. apply Hnl; [|done]. rewrite lookup_insert_ne; [done|]. intros ->. by simplify_eq.
    + intros q e' Hq He' Hleaf. apply elem_of_cons in Hq as [->|Hq].
      * simplify_eq. exists (Ref (sWriter x)). rewrite Hfr by done. rewrite lookup_insert_eq. split; [done|]. by eapply placed_extends.
      * apply Hl; [done| |done]. rewrite lookup_insert_ne; [done|]. by intros ->.
Qed.
End Streams.

(** ** Hard links *)

Definition linksOk (es : gmap string entry) : Prop :=
  forall p e, es !! p = Some e -> eKind e = kindHardlink ->
  exists t tgt, eHardlinkTarget e = Some t /\ es !! t = Some tgt /\ eKind tgt = kindFile.

(** A hard link to [tgt]. *)
Definition linkTo (tgt e : entry) : entry := set_number (eInodeNumber tgt) (set_ref (eInodeRef tgt) e).

Lemma linksOk_passes es es' : passes es es' -> linksOk es -> linksOk es'.
Proof.
  intros Hp Hl p e' He' Hk. destruct (passesBy_lookup_r _ _ _ _ _ Hp He') as (e & He & (_ & Ek & _ & _ & _ & _ & _ & El & _)).
  destruct (Hl p e He) as (t & tgt & Et & Htgt & Ekt); [congruence|].
  destruct (passesBy_lookup _ _ _ _ _ Hp Htgt) as (tgt' & Htgt' & (_ & Ek' & _)). exists t, tgt'. split_and!; congruence.
Qed.

Lemma resolveHardlink_cases es p :
  linksOk es ->
  (resolveHardlink es p = es /\ (forall e, es !! p = Some e -> eKind e <> kindHardlink)) \/
  (exists e t tgt, es !! p = Some e /\ eKind e = kindHardlink /\ eHardlinkTarget e = Some t /\ es !! t = Some tgt /\
     eKind tgt = kindFile /\ resolveHardlink es p = <[p := linkTo tgt e]> es).
Proof.
  intros Hl. unfold resolveHardlink. destruct (es !! p) as [e|] eqn:He; [|by left].
  destruct (decide (eKind e = kindHardlink)) as [Ek|Ek].
  - right. destruct (Hl p e He Ek) as (t & tgt & Et & Htgt & Ekt). exists e, t, tgt. rewrite Ek, Et, Htgt. done.
  - left. split; [|by intros ? [= <-]]. by destruct (eKind e).
Qed.

Lemma resolveHardlink_passes es p : linksOk es -> passesBy sameOwner es (resolveHardlink es p).
Proof.
  intros Hl. destruct (resolveHardlink_cases es p Hl) as [[-> _]|(e & t & tgt & He & _ & _ & Htgt & _ & ->)]; [done|]. split.
  - intros q. rewrite lookup_insert. case_decide; [subst q; rewrite He; by constructor|]. by destruct (es !! q); constructor.
  - intros D q e' Hq. apply lookup_insert_Some in Hq as [[<- <-]|[_ Hq]]; [|by apply (D q)].
    destruct (D _ _ Htgt) as (?&?&?&?&?&?&?&?&?). destruct (D _ _ He) as (?&?&?&?&?&?&?&?&?). by split_and!.
Qed.

Lemma resolveHardlinks_spec order : forall es,
  NoDup order -> linksOk es ->
  let es' := foldl resolveHardlink es order in
  passesBy sameOwner es es' /\ (forall p, p ∉ order -> es' !! p = es !! p) /\
  (forall p e, es !! p = Some e -> eKind e <> kindHardlink -> es' !! p = Some e) /\
  (forall p e t tgt, p ∈ order -> es !! p = Some e -> eKind e = kindHardlink -> eHardlinkTarget e = Some t ->
     es !! t = Some tgt -> es' !! p = Some (linkTo tgt e)).
Proof.
  induction order as [|p order IH]; intros es Hnd Hl; cbn [foldl].
  { split_and!; try done. intros p e t tgt Hp. by apply elem_of_nil in Hp. }
  apply NoDup_cons in Hnd as [Hp Hnd]. pose proof (resolveHardlink_passes es p Hl) as Hps.
  destruct (IH _ Hnd (linksOk_passes _ _ (owner_passes _ _ Hps) Hl)) as (Hps' & Hfr & Hk & Hln). cbn zeta.
  assert (forall q, q <> p -> resolveHardlink es p !! q = es !! q) as Hne.
  { intros q Hq. destruct (resolveHardlink_cases es p Hl) as [[-> _]|(e & t & tgt & _ & _ & _ & _ & _ & ->)]; [done|].
    by apply lookup_insert_ne. }
  assert (forall q e, es !! q = Some e -> eKind e <> kindHardlink -> resolveHardlink es p !! q = Some e) as Hkeep.
  { intros q e He Ek. destruct (resolveHardlink_cases es p Hl) as [[-> _]|(e' & t & tgt & He' & Ek' & _ & _ & _ & ->)]; [done|].
    rewrite lookup_insert_ne; [done|]. intros ->. congruence. }
  split_and!; [by etrans| | |].
  - intros q Hq. rewrite Hfr by by intros ?; apply Hq; right. apply Hne. intros ->. apply Hq. by left.
  - intros q e He Ek. apply Hk; [by apply Hkeep|done].
  - intros q e t tgt Hq He Ek Et Htgt. destruct (Hl q e He Ek) as (t0 & tgt0 & Et0 & Htgt0 & Ekt). simplify_eq.
    apply elem_of_cons in Hq as [->|Hq].
    + rewrite Hfr by done. destruct (resolveHardlink_cases es p Hl) as [[_ E]|(e' & t' & tgt' & He' & Ek' & Et' & Htgt' & _ & ->)].
      * by destruct (E e He).
      * rewrite lookup_insert_eq. simplify_eq. done.
    + apply (Hln q e t); [done| |done|done|]; [rewrite Hne; [done|]; by intros ->|]. apply Hkeep; [done|congruence].
Qed.

(** ** Directories *)

(** Hard links have taken the place of their targets. *)
Definition linked (es : gmap string entry) : Prop :=
  forall p e, es !! p = Some e -> eKind e = kindHardlink ->
  exists t tgt, eHardlinkTarget e = Some t /\ es !! t = Some tgt /\ eKind tgt = kindFile /\ eInodeRef e = eInodeRef tgt.

Definition typeOf (e : entry) : Z :=
  match eKind e with kindHardlink => InodeBasicFile | k => basicTypeFor k None end.

(** The entry of a child in its directory. *)
Definition dirEntryOf (m : metaWriter) (c : entry) : dirEntry :=
  mkDirEntry (base (ePath c)) (eInodeNumber c) (BlockByteOffset m (refBlockIdx (eInodeRef c)))
    (refOffset (eInodeRef c)) (typeOf c).

Lemma BlockByteOffset_nonneg m i : (0 <= BlockByteOffset m i)%Z.
Proof. rewrite BlockByteOffset_emit. lia. Qed.

Lemma childEntry_spec es m q d :
  linked es -> childEntry es m q = Ok d -> exists c, es !! q = Some c /\ d = dirEntryOf m c /\ (wfDynamic c -> wfDirEntry d).
Proof.
  intros Hl H. unfold childEntry in H. destruct (es !! q) as [c|] eqn:Hc; [|done]. exists c. split; [done|].
  assert (d = dirEntryOf m c /\ (deInodeBlockByte d <= 4294967295)%Z) as [-> Hb].
  { unfold dirEntryOf, typeOf, inodeBlockByte in *. destruct (eKind c) eqn:Ek; try by (case_match; [done|]; apply Ok_inj in H; subst d; cbn; split; [done|lia]).
    destruct (Hl q c Hc Ek) as (t & tgt & Et & Htgt & Ekt & Er). rewrite Et in H. cbn [mbind option_bind] in H.
    rewrite Htgt in H. cbn [fmap option_fmap option_map basicTypeFor] in H. rewrite Er, Ekt in *.
    case_match; simplify_eq. cbn. split; [done|lia]. }
  split; [done|]. intros (?&?&?&?&?&?&?&?&?). pose proof (BlockByteOffset_nonneg m (refBlockIdx (eInodeRef c))).
  split_and!; try done; cbn in *; [unfold uint; cbn; lia|]. unfold typeOf, uint. destruct (eKind c); by vm_compute.
Qed.

Definition children (es : gmap string entry) (kids : list tree) (cs : list entry) : Prop :=
  Forall2 (fun k c => es !! pathOf k = Some c) kids cs.

Lemma childEntries_spec es m kids : forall ds,
  linked es -> map_Forall (fun _ e => wfDynamic e) es -> childEntries es m kids = Ok ds ->
  exists cs, children es kids cs /\ ds = map (dirEntryOf m) cs /\ Forall wfDirEntry ds.
Proof.
  induction kids as [|k kids IH]; intros ds Hl D H; cbn [childEntries] in H.
  { simplify_eq. exists []. split_and!; [constructor|done|constructor]. }
  apply rbind_Ok in H as (d & Hd & H). apply rbind_Ok in H as (ds' & Hds & H). simplify_eq.
  apply childEntry_spec in Hd as (c & Hc & -> & Hw); [|done]. destruct (IH ds' Hl D Hds) as (cs & Hcs & -> & Hf).
  exists (c :: cs). split_and!; [by constructor|done|]. constructor; [|done]. apply Hw. by apply (D _ _ Hc).
Qed.

Section Dirs.
  Context (cfg : writerConfig Compressor) `{!CompressorLaws (cfgCompressor cfg)}.
  #[local] Notation comp := (cfgCompressor cfg).
  #[local] Notation valid := (valid cfg).
  #[local] Notation placed := (placed cfg).

(** The children are in the inode stream. *)
Definition present (I : stream) (cs : list entry) : Prop := Forall (fun c => exists b, stored I (eInodeRef c) b) cs.

(** The listing of the directory [e] is in the directory stream. *)
Definition listed (I D : stream) (e : entry) (cs : list entry) : Prop :=
  exists i bytes, stored D (mkMetaRef i (eDirBlockOffset e)) bytes /\ eDirBlockStart e = BlockByteOffset (sWriter D) i /\
    eDirListingSize e = (Z.of_nat (slen bytes) mod 2 ^ 32)%Z /\ (Z.of_nat (slen bytes) <= 276 * Z.of_nat (length cs))%Z /\
    readListing (slen bytes) bytes = Some (map itemOf (isort byName (map (dirEntryOf (sWriter I)) cs))).

Lemma present_extends I I' cs : extends I I' -> present I cs -> present I' cs.
Proof. intros H Hp. eapply Forall_impl; [exact Hp|]. intros c [b Hb]. exists b. by eapply stored_extends. Qed.

Lemma dirEntryOf_extends I I' cs :
  valid I -> extends I I' -> present I cs -> map (dirEntryOf (sWriter I')) cs = map (dirEntryOf (sWriter I)) cs.
Proof.
  intros V H. induction 1 as [|c cs [b Hb] _ IH]; [done|]. cbn [map]. rewrite IH. f_equal. unfold dirEntryOf. f_equal.
  by eapply (BlockByteOffset_extends cfg).
Qed.

Lemma listed_extends I D I' D' e cs :
  valid I -> valid D -> extends I I' -> extends D D' -> present I cs -> listed I D e cs -> listed I' D' e cs.
Proof.
  intros VI VD HI HD Hp (i & bytes & Hs & Hb & Hl & Hub & Hr). exists i, bytes. split_and!; [by eapply stored_extends| |done..|].
  - rewrite Hb. symmetry. by apply (BlockByteOffset_extends cfg D D' (mkMetaRef i (eDirBlockOffset e)) bytes).
  - by rewrite (dirEntryOf_extends I I').
Qed.

Lemma writeDir_spec p kids es I D s' :
  valid I -> valid D -> linked es -> map_Forall (fun _ e => wfDynamic e) es ->
  (forall k, k ∈ kids -> pathOf k <> p) -> (forall cs, children es kids cs -> present I cs) ->
  writeDir cfg p kids (mkTables es (sWriter I) (sWriter D)) = Ok s' ->
  exists I' D' e' cs, tbInodes s' = sWriter I' /\ tbDirs s' = sWriter D' /\ valid I' /\ valid D' /\ extends I I' /\ extends D D' /\
    tbEntries s' = <[p := e']> es /\ passesBy sameOwner es (tbEntries s') /\
    placed I' e' /\ listed I' D' e' cs /\ present I' cs /\ children (tbEntries s') kids cs.
Proof.
  intros VI VD Hl HD Hne Hpres H. unfold writeDir in H. cbn [tbEntries tbInodes tbDirs] in H.
  apply rbind_Ok in H as (ds & Hds & H). apply childEntries_spec in Hds as (cs & Hcs & -> & Hw); [|done..].
  apply rbind_Ok in H as ([[ref n] dm] & Hlist & H). apply writeDirListing_reads in Hlist as (ps & -> & Hps & -> & Hub & Hr).
  destruct (write_extends cfg D ps dm VD Hps) as (D' & ED & VD' & HDD & Ebytes).
  apply rbind_Ok in H as ([es1 m1] & Hone & H). cbn [fst snd] in H. apply Ok_inj in H. subst s'. cbn [tbEntries tbInodes tbDirs].
  apply writeOneInode_placed in Hone as (e1 & I' & He1 & EI & VI' & HII & -> & Hpl & Hps1); [|done..].
  rewrite lookup_alter_eq in He1. apply fmap_Some in He1 as (e & He & ->).
  assert (present I' cs) as Hpres' by (eapply present_extends; [done|by apply Hpres]).
  eexists I', D', _, cs. split_and!; [done..| | | | | |].
  - apply map_eq. intros q. rewrite !lookup_insert. case_decide; [done|]. by rewrite lookup_alter_ne.
  - etrans; [|exact Hps1]. apply (passesBy_alter sameOwner). intros e0 _. split; [done|].
    intros (?&?&?&?&?&?&?&?&?). split_and!; try done; cbn.
    + apply BlockByteOffset_nonneg.
    + by apply (Ref_offset cfg).
    + apply (uint_mod 4).
  - done.
  - exists (refBlockIdx (Ref (sWriter D))), (sconcat ps). split_and!.
    + cbn [eDirBlockOffset set_ref set_listing]. change (mkMetaRef _ _) with (Ref (sWriter D)).
      apply (stored_Ref cfg D D' _ ""); [done..|]. by rewrite sapp_nil_r.
    + cbn. by rewrite ED.
    + done.
    + by rewrite length_map in Hub.
    + rewrite (dirEntryOf_extends I I') by (try done; by apply Hpres). by apply Hr.
  - done.
  - apply Forall2_same_length_lookup_2; [by eapply Forall2_length|]. intros j k c Hk Hc.
    assert (pathOf k <> p) by by eapply Hne, list_elem_of_lookup_2.
    rewrite lookup_insert_ne, lookup_alter_ne by done. by eapply (Forall2_lookup_lr _ _ _ _ _ _ Hcs).
Qed.

#[local] Set Warnings "-register-all".

(** A directory and everything below it is laid out. *)
Inductive good (es : gmap string entry) (I D : stream) : tree -> Prop :=
  | good_node p kids e cs :
      es !! p = Some e -> eKind e = kindDir -> placed I e -> listed I D e cs -> children es kids cs -> present I cs ->
      Forall (fun k => kindIs kindDir es (pathOf k) = true -> good es I D k) kids -> good es I D (Node p kids).

Lemma pathOf_in t : pathOf t ∈ paths t.
Proof. destruct t. left. Qed.

Lemma paths_kid p kids k q : k ∈ kids -> q ∈ paths k -> q ∈ paths (Node p kids).
Proof.
  intros Hk Hq. right. apply list_elem_of_In, in_concat. exists (paths k).
  rewrite <- !list_elem_of_In. split; [|done]. by apply list_elem_of_fmap_2.
Qed.

Lemma good_extends t : forall es es' I I' D D',
  good es I D t -> (forall q, q ∈ paths t -> es' !! q = es !! q) ->
  valid I -> valid D -> extends I I' -> extends D D' -> good es' I' D' t.
Proof.
  induction t as [p kids IH] using tree_induction. intros es es' I I' D D' H Heq VI VD HI HD.
  inversion H as [? ? e cs He Hk Hpl Hli Hch Hpr Hkids]; subst.
  apply (good_node es' I' D' p kids e cs); [rewrite Heq; [done|left]|done|exact (placed_extends cfg _ _ _ HI Hpl)|
    exact (listed_extends _ _ _ _ _ _ VI VD HI HD Hpr Hli)| |exact (present_extends _ _ _ HI Hpr)|].
  - apply Forall2_same_length_lookup_2; [by eapply Forall2_length|]. intros j k c Hj Hc.
    rewrite Heq by (eapply paths_kid; [by eapply list_elem_of_lookup_2|apply pathOf_in]).
    by eapply (Forall2_lookup_lr _ _ _ _ _ _ Hch).
  - rewrite Forall_forall in *. intros k Hin Hd.
    assert (forall q, q ∈ paths k -> es' !! q = es !! q) as Heq' by (intros q Hq; apply Heq; by eapply paths_kid).
    apply (IH k Hin es es' I I' D D'); [|done..]. apply Hkids; [done|]. unfold kindIs in *. by rewrite Heq' in Hd by apply pathOf_in.
Qed.

(** What the walk needs of the entries. *)
Record walkable (es : gmap string entry) (I : stream) : Prop := {
  wk_linked : linked es;
  wk_dyn : map_Forall (fun _ e => wfDynamic e) es;
  wk_refs p e : es !! p = Some e -> eKind e <> kindDir -> exists b, stored I (eInodeRef e) b
}.

(** The entries that are not directories are as they were. *)
Definition keepsLeaves (es es' : gmap string entry) : Prop :=
  forall p e, es !! p = Some e -> eKind e <> kindDir -> es' !! p = Some e.

Lemma walkable_step es es' I I' :
  walkable es I -> passesBy sameOwner es es' -> keepsLeaves es es' -> extends I I' -> walkable es' I'.
Proof.
  intros [Hl Hd Hr] Hp Hk HI. split.
  - intros p e' He' Ek. destruct (passesBy_lookup_r _ _ _ _ _ Hp He') as (e & He & ((_ & Ek' & _) & _)).
    rewrite (Hk p e He) in He' by congruence. simplify_eq. destruct (Hl p _ He Ek) as (t & tgt & Et & Htgt & Ekt & Er).
    exists t, tgt. split_and!; try done. apply Hk; [done|congruence].
  - by apply Hp.
  - intros p e' He' Ek. destruct (passesBy_lookup_r _ _ _ _ _ Hp He') as (e & He & ((_ & Ek' & _) & _)).
    rewrite (Hk p e He) in He' by congruence. simplify_eq. destruct (Hr p _ He Ek) as [b Hb]. exists b. by eapply stored_extends.
Qed.

(** The outcome of a walk over the paths [ps]. *)
Record walked (es : gmap string entry) (I D : stream) (ps : list string) (s' : tables) (I' D' : stream) : Prop := {
  wd_inodes : tbInodes s' = sWriter I';
  wd_dirs : tbDirs s' = sWriter D';
  wd_validI : valid I';
  wd_validD : valid D';
  wd_extI : extends I I';
  wd_extD : extends D D';
  wd_passes : passesBy sameOwner es (tbEntries s');
  wd_leaves : keepsLeaves es (tbEntries s');
  wd_frame q : q ∉ ps -> tbEntries s' !! q = es !! q
}.

Definition writeKids (kids : list tree) (r : result tables) : result tables :=
  foldl (fun r k => let! s := r in
                    if kindIs kindDir (tbEntries s) (pathOf k) then writeDirs cfg k s else Ok s) r kids.

Lemma writeKids_err kids e : writeKids kids (Err e) = Err e.
Proof. induction kids; [done|]. done. Qed.

Definition walkSpec (t : tree) : Prop := forall es I D s',
  valid I -> valid D -> walkable es I -> NoDup (paths t) -> (forall q, q ∈ paths t -> is_Some (es !! q)) ->
  kindIs kindDir es (pathOf t) = true -> writeDirs cfg t (mkTables es (sWriter I) (sWriter D)) = Ok s' ->
  exists I' D', walked es I D (paths t) s' I' D' /\ good (tbEntries s') I' D' t.

Lemma writeKids_spec kids : forall es I D s',
  Forall walkSpec kids -> valid I -> valid D -> walkable es I -> NoDup (concat (map paths kids)) ->
  (forall q, q ∈ concat (map paths kids) -> is_Some (es !! q)) ->
  writeKids kids (Ok (mkTables es (sWriter I) (sWriter D))) = Ok s' ->
  exists I' D', walked es I D (concat (map paths kids)) s' I' D' /\
    Forall (fun k => kindIs kindDir (tbEntries s') (pathOf k) = true -> good (tbEntries s') I' D' k) kids.
Proof.
  induction kids as [|k kids IH]; intros es I D s' Hsp VI VD Hw Hnd Hin H.
  { apply Ok_inj in H. subst s'. exists I, D. split; [|constructor]. by split; try done; intros p e He. }
  apply Forall_cons in Hsp as [Hk Hsp]. cbn [map concat] in *. apply NoDup_app in Hnd as (Hnd1 & Hdisj & Hnd2).
  assert (forall q, q ∈ concat (map paths kids) -> is_Some (es !! q)) as Hin2 by (intros q Hq; apply Hin, elem_of_app; by right).
  change (writeKids kids (if kindIs kindDir es (pathOf k) then writeDirs cfg k (mkTables es (sWriter I) (sWriter D))
    else Ok (mkTables es (sWriter I) (sWriter D))) = Ok s') in H.
  destruct (kindIs kindDir es (pathOf k)) eqn:Ek.
  - destruct (writeDirs cfg k _) as [s1|er] eqn:E1 in H; [|by rewrite writeKids_err in H].
    destruct (Hk es I D s1) as (I1 & D1 & W1 & G1); [try done..|]; [intros q Hq; apply Hin, elem_of_app; by left|].
    pose proof W1 as [EI ED VI1 VD1 XI XD P1 L1 F1]. pose proof (walkable_step _ _ _ _ Hw P1 L1 XI) as Hw1.
    assert (s1 = mkTables (tbEntries s1) (sWriter I1) (sWriter D1)) as Es by (destruct s1; cbn in *; congruence).
    rewrite Es in H. apply IH in H as (I' & D' & W2 & G2); try done.
    2: { intros q Hq. destruct (Hin2 q Hq) as [e He]. destruct (passesBy_lookup _ _ _ _ _ P1 He) as (e' & He' & _). eauto. }
    exists I', D'. destruct W2 as [EI2 ED2 VI2 VD2 XI2 XD2 P2 L2 F2]. split.
    + split; try done; try by etrans.
      * intros q e He Hne. apply L2; [by apply L1|done].
      * intros q Hq. rewrite F2, F1; [done|..]; intros Hq'; apply Hq, elem_of_app; auto.
    + constructor; [|done]. intros _. eapply good_extends; [exact G1| |done..]. intros q Hq. apply F2. by apply Hdisj.
  - apply IH in H as (I' & D' & W2 & G2); try done. exists I', D'. destruct W2 as [EI2 ED2 VI2 VD2 XI2 XD2 P2 L2 F2]. split.
    + split; try done. intros q Hq. apply F2. intros Hq'. apply Hq, elem_of_app. by right.
    + constructor; [|done]. rewrite (passes_kind es) by by apply owner_passes. congruence.
Qed.

Lemma kids_present es I D kids cs :
  walkable es I -> Forall (fun k => kindIs kindDir es (pathOf k) = true -> good es I D k) kids ->
  children es kids cs -> present I cs.
Proof.
  intros [_ _ Hr] G. induction 1 as [|k c kids cs Hc _ IH]; [constructor|]. apply Forall_cons in G as [Gk G].
  constructor; [|by apply IH]. destruct (decide (eKind c = kindDir)) as [Ek|Ek]; [|by eapply Hr].
  apply (kindIs_true _ _ _ _ Hc) in Ek. destruct (Gk Ek) as [p ks e cs' He _ (mt & body & _ & _ & Hst) _ _ _ _].
  cbn in Hc. simplify_eq. eauto.
Qed.

Lemma writeDirs_spec t : walkSpec t.
Proof.
  induction t as [p kids IH] using tree_induction. intros es I D s' VI VD Hw Hnd Hin Hk H.
  change (writeDirs cfg (Node p kids) ?x) with (let! s' := writeKids kids (Ok x) in writeDir cfg p kids s') in H.
  apply rbind_Ok in H as (s1 & H1 & H). cbn [paths] in *. apply NoDup_cons in Hnd as [Hp Hnd].
  apply writeKids_spec in H1 as (I1 & D1 & W1 & G1); [|try done..]; [|intros q Hq; apply Hin; by right].
  pose proof W1 as [EI ED VI1 VD1 XI XD P1 L1 F1]. pose proof (walkable_step _ _ _ _ Hw P1 L1 XI) as Hw1.
  assert (s1 = mkTables (tbEntries s1) (sWriter I1) (sWriter D1)) as Es by (destruct s1; cbn in *; congruence).
  rewrite Es in H.
  assert (forall k, k ∈ kids -> pathOf k <> p) as Hne.
  { intros k Hin' E. apply Hp. rewrite <- E. apply list_elem_of_In, in_concat. exists (paths k). rewrite <- !list_elem_of_In.
    split; [by apply list_elem_of_fmap_2|apply pathOf_in]. }
  apply writeDir_spec in H as (I' & D' & e' & cs & EI2 & ED2 & VI2 & VD2 & XI2 & XD2 & Ees & P2 & Hpl & Hli & Hpr & Hch);
    [|done..|apply Hw1|apply Hw1|done|intros cs Hcs; by eapply kids_present].
  assert (kindIs kindDir (tbEntries s') p = true) as Hk' by (rewrite (passes_kind es); [done|apply owner_passes; by etrans]).
  exists I', D'. split.
  - split; try done; try by etrans.
    + intros q e He Hne'. rewrite Ees, lookup_insert_ne; [by apply L1|]. intros <-. apply (kindIs_true _ _ _ _ He) in Hk. done.
    + intros q Hq. rewrite Ees, lookup_insert_ne, F1; [done|intros ?; apply Hq; by right|intros ->; apply Hq; by left].
  - apply (good_node _ _ _ p kids e' cs); try done.
    + by rewrite Ees, lookup_insert_eq.
    + apply (kindIs_true _ (tbEntries s') p e'); [by rewrite Ees, lookup_insert_eq|done].
    + rewrite Forall_forall in *. intros k Hkin Hkd.
      assert (forall q, q ∈ paths k -> tbEntries s' !! q = tbEntries s1 !! q) as Heq.
      { intros q Hq. rewrite Ees, lookup_insert_ne; [done|]. intros ->. apply Hp. apply list_elem_of_In, in_concat.
        exists (paths k). rewrite <- !list_elem_of_In. split; [by apply list_elem_of_fmap_2|done]. }
      apply (good_extends k (tbEntries s1) _ I1 I' D1 D'); try done. apply G1; [done|]. unfold kindIs in *.
      by rewrite Heq in Hkd by apply pathOf_in.
Qed.
End Dirs.
