(* ===== verification/SquashTree.v ===== *)
(** * SquashTree: the tree [Close] builds, and the layout as a whole.

    The tree spans the entries: below the directory [p] stand, sorted, the
    entries whose parent is [p].  [layOut] puts all of it in the streams. *)

From S2P Require Import Prelude Effects GoStrings GoPath SquashMeta SquashCodec SquashWriter SquashReader SquashBuild SquashLayout.

(** ** The children of a directory *)

(** The entries whose parent is [d]. *)
Definition below1 (order : list string) (d : string) : list string := filter (fun p => dir p = d) order.

Lemma addChildren_spec es order : forall ch0 ch,
  "/" ∉ order -> addChildren es order ch0 = Ok ch ->
  (forall d, default [] (ch !! d) = default [] (ch0 !! d) ++ below1 order d) /\
  (forall p, p ∈ order -> exists parent, es !! dir p = Some parent /\ eKind parent = kindDir).
Proof.
  induction order as [|p order IH]; intros ch0 ch Hr H; cbn [addChildren] in H.
  { apply Ok_inj in H. subst ch. split; [intros d; by rewrite app_nil_r|]. intros p Hp. by apply elem_of_nil in Hp. }
  rewrite not_elem_of_cons in Hr. destruct Hr as [Hne Hr]. destruct (String.eqb_spec p "/"); [done|].
  destruct (es !! dir p) as [parent|] eqn:Ep; [|done]. case_bool_decide as Ek; [|done].
  destruct (IH _ _ Hr H) as [Hch Hpar]. split.
  - intros d. rewrite Hch. unfold below1. rewrite filter_cons. destruct (decide (dir p = d)) as [<-|Hd].
    + rewrite lookup_insert_eq. cbn. by rewrite <- app_assoc.
    + by rewrite lookup_insert_ne.
  - intros q Hq. apply elem_of_cons in Hq as [->|Hq]; eauto.
Qed.

Section Tree.
  Context (order : list string) (ch : gmap string (list string)).
  Context (nodup : NoDup order) (valid_order : forall p, p ∈ order -> validPath p).
  Context (ch_spec : forall d, default [] (ch !! d) = below1 order d).

(** The entries below [absOf cs] are one component longer. *)
Lemma below1_snoc cs q : Forall proper cs ->
  q ∈ below1 order (absOf cs) <-> exists n, proper n /\ q = absOf (cs ++ [n]) /\ q ∈ order.
Proof.
  intros Hcs. unfold below1. rewrite list_elem_of_filter. split.
  - intros [Hd Hq]. destruct (valid_order q Hq) as (cq & Hne & Hp & ->).
    destruct cq as [|n cq _] using rev_ind; [done|]. apply Forall_app in Hp as [Hp Hn]. apply Forall_cons in Hn as [Hn _].
    rewrite dir_absOf_snoc in Hd by done. apply absOf_inj in Hd as ->; [|done..]. eauto.
  - intros (n & Hn & -> & Hq). split; [by apply dir_absOf_snoc|done].
Qed.

Definition kidPaths (p : string) : list string := isort byBase (below1 order p).

Lemma kidPaths_elem cs q : Forall proper cs ->
  q ∈ kidPaths (absOf cs) <-> exists n, proper n /\ q = absOf (cs ++ [n]) /\ q ∈ order.
Proof. intros Hcs. unfold kidPaths. rewrite isort_Permutation. by apply below1_snoc. Qed.

Lemma kidPaths_NoDup p : NoDup (kidPaths p).
Proof. unfold kidPaths. rewrite isort_Permutation. by apply NoDup_filter. Qed.

Lemma grow_S k p : grow (S k) ch p = Node p (map (grow k ch) (kidPaths p)).
Proof. cbn [grow]. by rewrite ch_spec. Qed.

Lemma pathOf_grow k p : pathOf (grow k ch p) = p.
Proof. by destruct k. Qed.

Lemma grow_paths k : forall cs q, Forall proper cs -> q ∈ paths (grow k ch (absOf cs)) ->
  exists x, Forall proper (cs ++ x) /\ q = absOf (cs ++ x) /\ (x = [] \/ q ∈ order).
Proof.
  induction k as [|k IH]; intros cs q Hcs Hq.
  { cbn in Hq. apply list_elem_of_singleton in Hq as ->. exists []. rewrite app_nil_r. auto. }
  rewrite grow_S in Hq. cbn [paths] in Hq. apply elem_of_cons in Hq as [->|Hq].
  { exists []. rewrite app_nil_r. auto. }
  apply list_elem_of_In, in_concat in Hq as (l & Hl & Hq). rewrite <- !list_elem_of_In in *.
  apply list_elem_of_fmap in Hl as (t & -> & Ht). apply list_elem_of_fmap in Ht as (q1 & -> & Hq1).
  apply kidPaths_elem in Hq1 as (n & Hn & -> & Ho); [|done].
  assert (Forall proper (cs ++ [n])) as Hcn by (apply Forall_app; split; [done|by constructor]).
  destruct (IH _ _ Hcn Hq) as (x & Hx & -> & Hor). exists ([n] ++ x). rewrite app_assoc. split_and!; [done..|].
  right. destruct Hor as [->|]; [by rewrite app_nil_r|done].
Qed.

Lemma grow_NoDup k : forall cs, Forall proper cs -> NoDup (paths (grow k ch (absOf cs))).
Proof.
  induction k as [|k IH]; intros cs Hcs; [apply NoDup_singleton|]. rewrite grow_S. cbn [paths]. constructor.
  - intros Hq. apply list_elem_of_In, in_concat in Hq as (l & Hl & Hq). rewrite <- !list_elem_of_In in *.
    apply list_elem_of_fmap in Hl as (t & -> & Ht). apply list_elem_of_fmap in Ht as (q1 & -> & Hq1).
    apply kidPaths_elem in Hq1 as (n & Hn & -> & Ho); [|done].
    apply grow_paths in Hq as (x & Hx & E & _); [|apply Forall_app; split; [done|by constructor]].
    apply absOf_inj in E; [|done..]. apply (f_equal length) in E. rewrite !length_app in E. cbn in E. lia.
  - rewrite map_map. pose proof (kidPaths_NoDup (absOf cs)) as Hnd.
    assert (forall q, q ∈ kidPaths (absOf cs) -> exists n, proper n /\ q = absOf (cs ++ [n])) as Hk
      by (intros q Hq; apply kidPaths_elem in Hq; naive_solver).
    induction Hnd as [|q qs Hq Hnd IHq]; [constructor|]. cbn [map concat]. apply NoDup_app. split_and!.
    + destruct (Hk q) as (n & Hn & ->); [left|]. apply IH. apply Forall_app. split; [done|by constructor].
    + intros r Hr Hr'. apply list_elem_of_In, in_concat in Hr' as (l & Hl & Hr'). rewrite <- !list_elem_of_In in *.
      apply list_elem_of_fmap in Hl as (q' & -> & Hq'). destruct (Hk q) as (n & Hn & ->); [left|].
      destruct (Hk q') as (n' & Hn' & ->); [by right|].
      apply grow_paths in Hr as (x & Hx & E & _); [|apply Forall_app; split; [done|by constructor]].
      apply grow_paths in Hr' as (x' & Hx' & E' & _); [|apply Forall_app; split; [done|by constructor]].
      rewrite E in E'. apply absOf_inj in E'; [|done..]. rewrite <- !app_assoc in E'. apply app_inv_head in E'. cbn in E'.
      injection E' as -> ->. done.
    + apply IHq. intros q' Hq'. apply Hk. by right.
Qed.
End Tree.

(** ** The layout *)

(** What the calls leave for [Close]. *)
Record recorded (es : gmap string entry) (order : list string) : Prop := {
  rc_nodup : NoDup order;
  rc_order p : p ∈ order <-> is_Some (es !! p);
  rc_valid p : p ∈ order -> validPath p;
  rc_path p e : es !! p = Some e -> ePath e = p;
  rc_dyn p e : es !! p = Some e -> wfDynamic e;
  rc_attrs p e : es !! p = Some e -> ownsInode e -> wfAttrs (eAttrs e);
  rc_links : linksOk es
}.

Lemma validPath_not_root p : validPath p -> p <> "/".
Proof.
  intros (cs & Hne & Hp & ->) E. change "/" with (absOf []) in E. apply absOf_inj in E; done.
Qed.

Section LayOut.
  Context (cfg : writerConfig Compressor) `{!CompressorLaws (cfgCompressor cfg)}.
  #[local] Notation comp := (cfgCompressor cfg).

Lemma recorded_root es order : recorded es order -> "/" ∉ order /\ es !! "/" = None.
Proof.
  intros R. assert ("/" ∉ order) as H by (intros H; by destruct (validPath_not_root _ (rc_valid _ _ R _ H))).
  split; [done|]. apply eq_None_not_Some. by rewrite <- (rc_order _ _ R).
Qed.

(** The entries with the root. *)
Lemma withRoot_spec es order : recorded es order ->
  let es0 := withRoot cfg es in
  es0 !! "/" = Some (rootEntry cfg) /\ (forall p, p <> "/" -> es0 !! p = es !! p) /\
  map_Forall (fun _ e => wfDynamic e) es0 /\ linksOk es0.
Proof.
  intros R. destruct (recorded_root _ _ R) as [_ Hr]. unfold withRoot. rewrite Hr. cbn zeta. split_and!.
  - apply lookup_insert_eq.
  - intros p Hp. by apply lookup_insert_ne.
  - apply map_Forall_insert_2; [by split_and!|]. intros p e. apply (rc_dyn _ _ R).
  - intros p e He Ek. apply lookup_insert_Some in He as [[<- <-]|[Hne He]]; [done|].
    destruct (rc_links _ _ R p e He Ek) as (t & tgt & Et & Htgt & Ekt). exists t, tgt. split_and!; try done.
    rewrite lookup_insert_ne; [done|]. intros <-. congruence.
Qed.

(** What the layout holds. *)
Record laidOut (es0 : gmap string entry) (order : list string) (l : layout) (I D : stream) (ch : gmap string (list string))
    : Prop := {
  lo_inodes : tbInodes (lTables l) = sWriter I;
  lo_dirs : tbDirs (lTables l) = sWriter D;
  lo_validI : valid cfg I;
  lo_validD : valid cfg D;
  lo_sealedI : mwCur (sWriter I) = "";
  lo_sealedD : mwCur (sWriter D) = "";
  lo_ids : goodIds (lIds l);
  lo_passes : passes es0 (tbEntries (lTables l));
  lo_dyn : map_Forall (fun _ e => wfDynamic e) (tbEntries (lTables l));
  lo_owned p e : tbEntries (lTables l) !! p = Some e -> ownsInode e -> owned (lIds l) e;
  lo_linked : linked (tbEntries (lTables l));
  lo_leaf p e : tbEntries (lTables l) !! p = Some e -> isLeaf e -> placed cfg I e;
  lo_children d : default [] (ch !! d) = below1 order d;
  lo_parents p : p ∈ order -> exists parent, es0 !! dir p = Some parent /\ eKind parent = kindDir;
  lo_good : good cfg (tbEntries (lTables l)) I D (grow (S (maxLen order)) ch "/");
  lo_root : tbEntries (lTables l) !! "/" = Some (lRoot l)
}.

(** The passes up to the owners. *)
Lemma owners_spec visits es order t es3 ids3 :
  recorded es order ->
  internIDs order (computeLinkCounts visits t (assignInodeNumbers t 1 (withRoot cfg es, 1%Z)).1) newIDTable = Ok (es3, ids3) ->
  goodIds ids3 /\ passes (withRoot cfg es) es3 /\ (forall p e, es3 !! p = Some e -> ownsInode e -> owned ids3 e).
Proof.
  intros R H. destruct (recorded_root _ _ R) as [Hro _]. destruct (withRoot_spec _ _ R) as (Hroot & Hother & Hdyn & Hlk).
  set (es0 := withRoot cfg es) in *.
  destruct (assignInodeNumbers_passes t 1 (es0, 1%Z)) as [P1 _]; [done..|]. cbn [fst] in P1.
  pose proof (computeLinkCounts_passes visits t (assignInodeNumbers t 1 (es0, 1%Z)).1) as P2.
  set (es2 := computeLinkCounts visits t _) in *. assert (passesBy sameOwner es0 es2) as P by (by etrans).
  destruct (passesBy_lookup _ _ _ _ _ P Hroot) as (root & Hr2 & ((_ & Ek & Ea & _) & Eu & Eg)).
  apply (internIDs_spec _ _ _ _ _ root) in H as (Hg & P3 & _ & Hown); try done.
  - split_and!; [done|etrans; [by apply owner_passes|done]|]. intros p e He. apply (Hown p); [|done].
    destruct (passesBy_lookup_r _ _ _ _ _ P3 He) as (e2 & He2 & _).
    destruct (passesBy_lookup_r _ _ _ _ _ P He2) as (e0 & He0 & _).
    destruct (decide (p = "/")) as [->|Hne]; [by left|]. right. rewrite Hother in He0 by done. apply (rc_order _ _ R). eauto.
  - apply (rc_nodup _ _ R).
  - by rewrite Ea.
  - intros p Hp. apply (rc_order _ _ R) in Hp as Hs. destruct Hs as [e He].
    assert (p <> "/") as Hne by by apply validPath_not_root, (rc_valid _ _ R).
    pose proof He as He0. rewrite <- (Hother p Hne) in He0. destruct (passesBy_lookup _ _ _ _ _ P He0) as (e2 & He2 & ((_ & Ek2 & Ea2 & _) & _)). exists e2. split; [done|].
    intros Ho. rewrite Ea2. apply (rc_attrs _ _ R p e He). unfold ownsInode in *. congruence.
  - split; [apply wf_newIDTable|constructor].
Qed.

(** The inodes of the leaves, and the hard links. *)
Lemma leaves_spec es0 order es3 es4 m4 :
  NoDup order -> (forall p e, es0 !! p = Some e -> eKind e <> kindDir -> p ∈ order) -> (forall p, p ∈ order -> is_Some (es0 !! p)) ->
  passes es0 es3 -> linksOk es3 -> map_Forall (fun _ e => wfDynamic e) es3 ->
  writeLeafInodes cfg order es3 newMetaWriter = Ok (es4, m4) ->
  let es5 := foldl resolveHardlink es4 order in
  exists I, sWriter I = m4 /\ valid cfg I /\ passesBy sameOwner es3 es5 /\ walkable es5 I /\
    (forall p e, es5 !! p = Some e -> isLeaf e -> placed cfg I e).
Proof.
  intros Hnd Hord Hex P Hlk Hdyn H es5.
  assert (forall p e, es3 !! p = Some e -> eKind e <> kindDir -> p ∈ order) as Hord3.
  { intros p e He Ek. destruct (passesBy_lookup_r _ _ _ _ _ P He) as (e0 & He0 & (_ & Ek0 & _)). eapply Hord; [done|congruence]. }
  apply (writeLeafInodes_spec cfg order es3 (mkStream newMetaWriter [] "")) in H
    as (I & EI & VI & _ & P4 & _ & Hkeep & Hleaf); [|done| |apply mstate_new].
  2: { intros p Hp. destruct (Hex p Hp) as [e He]. destruct (passesBy_lookup _ _ _ _ _ P He) as (e' & He' & _). eauto. }
  destruct (resolveHardlinks_spec order es4 Hnd) as (P5 & _ & Hnl & Hln); [by eapply linksOk_passes; [apply owner_passes|]|].
  fold es5 in P5, Hnl, Hln.
  assert (forall p e, es4 !! p = Some e -> isLeaf e -> placed cfg I e) as Hpl.
  { intros p e He [Hl1 Hl2]. destruct (passesBy_lookup_r _ _ _ _ _ P4 He) as (e3 & He3 & ((_ & Ek & _) & _)).
    destruct (Hleaf p e3) as (r & Hr & Hpl); [eapply Hord3; [done|congruence]|done|split; congruence|]. congruence. }
  assert (forall p e, es5 !! p = Some e -> eKind e <> kindHardlink -> es4 !! p = Some e) as Hback.
  { intros p e5 He5 Ek. destruct (passesBy_lookup_r _ _ _ _ _ P5 He5) as (e4 & He4 & ((_ & Ek4 & _) & _)).
    rewrite (Hnl p e4 He4) in He5 by congruence. congruence. }
  assert (linked es5) as Hlinked.
  { intros p e5 He5 Ek. destruct (passesBy_lookup_r _ _ _ _ _ P5 He5) as (e4 & He4 & ((_ & Ek4 & _) & _)).
    assert (linksOk es4) as Hlk4 by (eapply linksOk_passes; [by apply owner_passes|done]).
    destruct (Hlk4 p e4 He4) as (t & tgt & Et & Htgt & Ekt); [congruence|].
    destruct (passesBy_lookup_r _ _ _ _ _ P4 He4) as (e3 & He3 & ((_ & Ek3 & _) & _)).
    rewrite (Hln p e4 t tgt) in He5; [|eapply Hord3; [done|congruence]|done|congruence|done|done]. simplify_eq.
    exists t, tgt. split_and!; [done| |done|done]. apply Hnl; [done|congruence]. }
  exists I. split_and!; [done|done|by etrans| |intros p e He [Hl1 Hl2]; by apply (Hpl p), conj; [apply Hback|..]].
  split; [done|by apply P5, P4|]. intros p e5 He5 Ek. destruct (decide (eKind e5 = kindHardlink)) as [Ekh|Ekh].
  - destruct (Hlinked p e5 He5 Ekh) as (t & tgt & _ & Htgt & Ekt & ->).
    destruct (Hpl t tgt) as (mt & body & _ & _ & Hst); [apply Hback; [done|congruence]|split; congruence|]. eauto.
  - destruct (Hpl p e5) as (mt & body & _ & _ & Hst); [by apply Hback|done|]. eauto.
Qed.

Lemma layOut_spec visits es order l :
  recorded es order -> layOut cfg visits es order newIDTable = Ok l ->
  exists I D ch, laidOut (withRoot cfg es) order l I D ch.
Proof.
  intros R H. destruct (recorded_root _ _ R) as [Hro _]. destruct (withRoot_spec _ _ R) as (Hroot & Hother & Hdyn & Hlk).
  unfold layOut, buildTree in H. set (es0 := withRoot cfg es) in *.
  apply rbind_Ok in H as ([es0' root] & H0 & H). apply rbind_Ok in H0 as (ch & Hch & H0).
  apply Ok_inj, pair_equal_spec in H0 as [<- <-].
  destruct (addChildren_spec _ _ _ _ Hro Hch) as [Hchs Hpar].
  assert (forall d, default [] (ch !! d) = below1 order d) as Hchild by (intros d; by rewrite Hchs, lookup_empty).
  set (t := grow (S (maxLen order)) ch "/") in *. apply rbind_Ok in H as ([es3 ids3] & H3 & H).
  destruct (owners_spec visits es order t es3 ids3 R H3) as (Hg & P3 & Hown). fold es0 in P3.
  apply rbind_Ok in H as ([es4 m4] & H4 & H).
  assert (forall p, p ∈ order -> p <> "/") as Hnr by (intros p Hp; by apply validPath_not_root, (rc_valid _ _ R)).
  assert (forall p, p ∈ order -> is_Some (es0 !! p)) as Hex
    by (intros p Hp; rewrite Hother by auto; by apply (rc_order _ _ R)).
  destruct (leaves_spec es0 order es3 es4 m4 (rc_nodup _ _ R)) as (I4 & EI4 & VI4 & P5 & W5 & Hleaf); try done.
  { intros p e He Ek. destruct (decide (p = "/")) as [->|Hne]; [rewrite Hroot in He; by simplify_eq|].
    apply (rc_order _ _ R). rewrite <- Hother by done. eauto. }
  { by eapply linksOk_passes. } { by apply P3. }
  set (es5 := foldl resolveHardlink es4 order) in *. rewrite <- EI4 in H. apply rbind_Ok in H as (tb & H5 & H).
  assert (passes es0 es5) as P05 by (etrans; [done|by apply owner_passes]).
  apply (writeDirs_spec cfg t es5 I4 (mkStream newMetaWriter [] "")) in H5 as (I5 & D5 & [E1 E2 V1 V2 X1 X2 P6 L6 _] & G); try done.
  2: { apply mstate_new. }
  2: { apply (grow_NoDup order ch (rc_nodup _ _ R) (rc_valid _ _ R) Hchild _ []). constructor. }
  2: { intros q Hq. apply (grow_paths order ch (rc_valid _ _ R) Hchild _ []) in Hq as (x & _ & -> & Hq); [|constructor].
       destruct Hq as [->|Hq]; [destruct (passesBy_lookup _ _ _ _ _ P05 Hroot) as (e & He & _); eauto|].
       destruct (Hex _ Hq) as [e He]. destruct (passesBy_lookup _ _ _ _ _ P05 He) as (e' & He' & _). eauto. }
  2: { change (pathOf t) with "/". rewrite (passes_kind es0) by done. unfold kindIs. by rewrite Hroot. }
  rewrite E1, E2 in H. apply rbind_Ok in H as (im & Him & H). apply rbind_Ok in H as (dm & Hdm & H).
  destruct (flush_extends cfg I5 im V1 Him) as (I & EI & VI & XI & _ & CI).
  destruct (flush_extends cfg D5 dm V2 Hdm) as (D & ED & VD & XD & _ & CD).
  destruct (tbEntries tb !! "/") as [r|] eqn:Er; [|done]. apply Ok_inj in H. subst l. exists I, D, ch.
  assert (walkable (tbEntries tb) I5) as W6 by (by eapply walkable_step).
  split; cbn [lTables lIds lRoot tbInodes tbDirs tbEntries]; try done; try congruence.
  - etrans; [done|by apply owner_passes].
  - apply W6.
  - intros p e He Ho. destruct (passesBy_lookup_r _ _ _ _ _ (transitivity P5 P6) He) as (e3 & He3 & ((_ & Ek & Ea & _) & Eu & Eg)).
    unfold owned. rewrite Eu, Eg, Ea. apply (Hown p e3 He3). unfold ownsInode in *. congruence.
  - apply W6.
  - intros p e He [Hl1 Hl2]. destruct (passesBy_lookup_r _ _ _ _ _ P6 He) as (e5 & He5 & ((_ & Ek & _) & _)).
    rewrite (L6 p e5 He5) in He by congruence. simplify_eq. eapply (placed_extends cfg); [|by apply (Hleaf p)]. by etrans.
  - by apply (good_extends cfg t (tbEntries tb) _ I5 I D5 D).
Qed.
End LayOut.
