(* ===== verification/SquashImage.v ===== *)
(** * SquashImage: an image is read back as the file system the calls describe.

    Reading a path of a closed image gives what the calls put there: type,
    permissions, owner, modification time and contents; a directory lists its
    entries in order, and nothing else is found. *)

From S2P Require Import Prelude Effects GoStrings GoPath SquashMeta SquashCodec SquashWriter SquashReader SquashBuild SquashLayout SquashTree.

(** ** What the calls describe *)

(** The names in the directory [d]. *)
Definition namesIn (fs : fsys) (d : string) : list string :=
  isort sle (map base (filter (fun q => dir q = d) (map fst (map_to_list fs)))).

Definition mtimeOf (cfg : writerConfig Compressor) (mtime : option Z) : Z :=
  default 0%Z (match cfgMtime cfg with Some t => Some t | None => mtime end).

Definition statOf (cfg : writerConfig Compressor) (a : Attrs) (type : Z) (p : payload) : stat :=
  mkStat type (aMode a mod 2 ^ 12) (aUID a) (aGID a) (mtimeOf cfg (aMtime a)) p.

(** What a node that is not a hard link looks like. *)
Definition nodeStat (cfg : writerConfig Compressor) (fs : fsys) (p : string) (n : node) : option stat :=
  match n with
  | NFile a content => Some (statOf cfg a InodeBasicFile (PFile content))
  | NDir a => Some (statOf cfg a InodeBasicDir (PDir (namesIn fs p)))
  | NSymlink a target => Some (statOf cfg a InodeBasicSymlink (PSymlink target))
  | NChar a major minor => Some (statOf cfg a InodeBasicChar (PDevice (major * 256 + minor)))
  | NBlock a major minor => Some (statOf cfg a InodeBasicBlock (PDevice (major * 256 + minor)))
  | NFIFO a => Some (statOf cfg a InodeBasicFIFO PIPC)
  | NSocket a => Some (statOf cfg a InodeBasicSocket PIPC)
  | NLink _ => None
  end.

Definition rootAttrs (cfg : writerConfig Compressor) : Attrs := mkAttrs "" 493 0 0 (cfgMtime cfg).

(** What is at a path. *)
Definition viewOf (cfg : writerConfig Compressor) (fs : fsys) (p : string) : option stat :=
  if String.eqb p "/" then nodeStat cfg fs "/" (NDir (rootAttrs cfg))
  else match fs !! p with
       | Some (NLink t) => n ← fs !! t; nodeStat cfg fs t n
       | Some n => nodeStat cfg fs p n
       | None => None
       end.

(** A writer after some calls, and the file system they describe: a call that
    succeeds changes it, one that fails does not.  A write can be through a
    handle that is stale; after a write to the current file that fails in the
    middle nothing is claimed. *)
Definition staleHandle (w : Writer) (h : string) : bool :=
  match wCurFile w with Some (q, _) => negb (String.eqb q h) | None => true end.

Inductive reach (cfg : writerConfig Compressor) : Writer -> fsys -> Prop :=
  | reach_new opts w : NewWriter opts = Ok (cfg, w) -> reach cfg w ∅
  | reach_done w fs k w' :
      reach cfg w fs -> wfCall k -> runCall cfg k w = (Done tt, w') -> reach cfg w' (applyCall k fs)
  | reach_failed w fs k e w' :
      reach cfg w fs -> wfCall k -> (forall h p, k = CallWrite h p -> staleHandle w h = true) ->
      runCall cfg k w = (Failed e, w') -> reach cfg w' fs.

(** ** From the calls to the layout *)

Section Image.
  Context (cfg : writerConfig Compressor) `{!CompressorLaws (cfgCompressor cfg)}.
  Context (bsz : validBlockSize (cfgBlockSize cfg)).
  #[local] Notation comp := (cfgCompressor cfg).
  #[local] Notation bs := (cfgBlockSize cfg).

Lemma represents_new : represents cfg (mkWriter (zeros superblockSize) false false 96 ∅ [] None newIDTable) ∅.
Proof.
  split; [|intros p _; cbn; rewrite !lookup_empty; constructor].
  split; cbn; try done; [by apply NoDup_nil|intros p|intros p Hp; by apply elem_of_nil in Hp].
  rewrite lookup_empty. split; [intros Hp; by apply elem_of_nil in Hp|by intros []].
Qed.

(** The static part of an entry, from its node. *)
Lemma sealed_static out p e n fs : sealed cfg out p e n -> wfNode fs n ->
  ePath e = p /\ wfDynamic e /\ (ownsInode e -> wfAttrs (eAttrs e)) /\
  (forall t, n = NLink t <-> eKind e = kindHardlink /\ eHardlinkTarget e = Some t).
Proof.
  intros H Hn.
  destruct n; cbn in H, Hn; [destruct H as (start & sizes & -> & _)|subst e..]; split_and!; try done; try naive_solver.
Qed.

Lemma represents_node w fs p e : represents cfg w fs -> wCurFile w = None -> wEntries w !! p = Some e ->
  exists n, fs !! p = Some n /\ sealed cfg (wOut w) p e n.
Proof.
  unfold represents. intros H Hc He. rewrite Hc in H. destruct H as [_ Hs]. specialize (Hs p ltac:(done)).
  rewrite He in Hs. inversion Hs; subst. eauto.
Qed.

Lemma represents_recorded w fs : represents cfg w fs -> wCurFile w = None -> recorded (wEntries w) (wOrder w).
Proof.
  intros H Hc. pose proof (fun p e => represents_node w fs p e H Hc) as Hn. unfold represents in H. rewrite Hc in H.
  destruct H as [[H1 H2 H3 H4 H5 H6 H7 H8] Hs].
  split; try done.
  - intros p. rewrite H6. specialize (Hs p ltac:(done)). split; intros [x Hx]; rewrite Hx in Hs; inversion Hs; eauto.
  - intros p e He. destruct (Hn p e He) as (n & Hf & Hse). by eapply sealed_static in Hse as (? & _); [|eauto].
  - intros p e He. destruct (Hn p e He) as (n & Hf & Hse). by eapply sealed_static in Hse as (_ & ? & _); [|eauto].
  - intros p e He. destruct (Hn p e He) as (n & Hf & Hse). by eapply sealed_static in Hse as (_ & _ & ? & _); [|eauto].
  - intros p e He Ek. destruct (Hn p e He) as (n & Hf & Hse). pose proof (H8 p n Hf) as Hwf.
    destruct n; cbn in Hse; try (by subst e); [by destruct Hse as (? & ? & -> & _)|]. subst e.
    destruct Hwf as (a & content & Ht). specialize (Hs target ltac:(done)). rewrite Ht in Hs.
    inversion Hs as [e' n Hse|]; subst. destruct Hse as (start & sizes & -> & _). eauto.
Qed.

(** ** The bytes of a closed image *)

Definition closedImage (out : string) (l : layout) (ids lookup pad : string) (sb : superblock) : string :=
  encodeSuperblock sb +:+ sdrop superblockSize out +:+ emitBlocks (mwBlocks (tbInodes (lTables l)))
  +:+ emitBlocks (mwBlocks (tbDirs (lTables l))) +:+ ids +:+ lookup +:+ pad.

(** The superblock [Close] writes. *)
Definition superblockOf (l : layout) (inodes dirs idTable used : Z) : superblock :=
  let es := tbEntries (lTables l) in
  let rootRef := eInodeRef (lRoot l) in
  mkSuperblock (totalInodeCount es) (imageMtime cfg es) bs 0 (compID comp) (blockLogFor bs)
    (Z.lor FlagNoFragments FlagNoXattrs) (Count (lIds l))
    (encodeRef rootRef (BlockByteOffset (tbInodes (lTables l)) (refBlockIdx rootRef)))
    used idTable noTable inodes dirs noTable noTable.

(** One step of a sequence of actions. *)
Ltac emits H :=
  let u := fresh "u" in let w' := fresh "w'" in let E := fresh "E" in
  apply bind_Done in H as (u & w' & E & H); unfold outPos, emit, overwrite, modify in E;
  apply pair_equal_spec in E as [E <-]; injection E as <-; cbn [wOut wOutPos set_out] in H.

Lemma emitTables_spec l I D w w2 :
  tbInodes (lTables l) = sWriter I -> tbDirs (lTables l) = sWriter D -> valid cfg I -> valid cfg D ->
  wOutPos w = Z.of_nat (slen (wOut w)) -> emitTables cfg l w = (Done tt, w2) ->
  exists offs ids pad,
    let posI := Z.of_nat (slen (wOut w)) in
    let posD := (posI + Z.of_nat (slen (emitBlocks (mwBlocks (sWriter I)))))%Z in
    let posIds := (posD + Z.of_nat (slen (emitBlocks (mwBlocks (sWriter D)))))%Z in
    let posLookup := (posIds + Z.of_nat (slen ids))%Z in
    let used := (posLookup + Z.of_nat (slen (WriteLookup offs)))%Z in
    WriteData comp (lIds l) posIds = Ok (offs, ids) /\
    (superblockSize <= slen (wOut w) ->
     wOut w2 = closedImage (wOut w) l ids (WriteLookup offs) pad (superblockOf l posI posD posLookup used)) /\
    slen (wOut w) + slen (emitBlocks (mwBlocks (sWriter I))) + slen (emitBlocks (mwBlocks (sWriter D))) + slen ids
      + slen (WriteLookup offs) <= slen (wOut w2).
Proof.
  intros EI ED (HbI & _ & _) (HbD & _ & _) Hpos H. unfold emitTables in H. emits H.
  apply bind_Done in H as (bytes & w1 & E & H). apply wrapping_Done, check_Done in E as [E ->].
  rewrite EI, (EmitTo_holds comp _ _ HbI) in E. apply Ok_inj in E. subst bytes. do 2 emits H.
  apply bind_Done in H as (bytes & w1 & E & H). apply wrapping_Done, check_Done in E as [E ->].
  rewrite ED, (EmitTo_holds comp _ _ HbD) in E. apply Ok_inj in E. subst bytes. do 2 emits H.
  apply bind_Done in H as ([offs ids] & w1 & E & H). apply wrapping_Done, check_Done in E as [Ew ->]. cbn [fst snd] in H.
  do 4 emits H. set (pad := if Z.eqb _ _ then _ else _) in H. do 2 emits H. unfold modify in H. apply pair_equal_spec in H as [_ <-].
  exists offs, ids, pad. rewrite Hpos in *. cbn zeta. cbn [wOut set_finished set_out]. rewrite slen_encodeSuperblock.
  split; [done|]. split.
  - intros Hs. unfold closedImage. rewrite EI, ED, !sapp_assoc, sdrop_app_le by done. unfold superblockOf. by rewrite EI.
  - rewrite slen_app, slen_sdrop, slen_encodeSuperblock, !slen_app. lia.
Qed.

Lemma emitTables_keeps l w w2 :
  emitTables cfg l w = (Done tt, w2) -> wEntries w2 = wEntries w /\ wIds w2 = wIds w.
Proof.
  intros H. unfold emitTables in H. emits H.
  apply bind_Done in H as (bytes & w1 & E & H). apply wrapping_Done, check_Done in E as [E ->]. do 2 emits H.
  apply bind_Done in H as (bytes' & w1 & E' & H). apply wrapping_Done, check_Done in E' as [E' ->]. do 2 emits H.
  apply bind_Done in H as ([offs ids] & w1 & Ew & H). apply wrapping_Done, check_Done in Ew as [Ew ->]. cbn [fst snd] in H.
  do 4 emits H. do 2 emits H. unfold modify in H. by apply pair_equal_spec in H as [_ <-].
Qed.

(** What [Close] records is the layout it wrote. *)
Lemma Close_layout visits w w2 fs :
  represents cfg w fs -> Close cfg visits w = (Done tt, w2) ->
  exists w1 l I D ch, represents cfg w1 fs /\ wCurFile w1 = None /\
    laidOut cfg (withRoot cfg (wEntries w1)) (wOrder w1) l I D ch /\ wEntries w2 = tbEntries (lTables l) /\ wIds w2 = lIds l.
Proof.
  intros Hr H. unfold Close in H. apply bind_Done in H as ([] & w0 & H0 & H). apply check_Done in H0 as [_ ->].
  apply bind_Done in H as ([] & w1 & H1 & H). destruct (flushCurFile_represents cfg bsz w w1 fs _ Hr H1) as (Hr1 & Hc1 & _).
  specialize (Hc1 eq_refl). pose proof Hr1 as Hwf. unfold represents in Hwf. rewrite Hc1 in Hwf. destruct Hwf as [Hwf _].
  emits H. apply bind_Done in H as (l & w1' & E & H). apply check_Done in E as [El ->]. cbn [wEntries wOrder wIds set_closed] in El.
  rewrite (wf_ids _ _ Hwf) in El. destruct (layOut_spec cfg visits _ _ l (represents_recorded w1 fs Hr1 Hc1) El) as (I & D & ch & L).
  emits H. apply emitTables_keeps in H as [-> ->]. by exists w1, l, I, D, ch.
Qed.

Lemma Close_spec visits w w2 fs :
  represents cfg w fs -> Close cfg visits w = (Done tt, w2) ->
  exists w1 l I D ch offs ids pad,
    represents cfg w1 fs /\ wCurFile w1 = None /\ laidOut cfg (withRoot cfg (wEntries w1)) (wOrder w1) l I D ch /\
    let posI := Z.of_nat (slen (wOut w1)) in
    let posD := (posI + Z.of_nat (slen (emitBlocks (mwBlocks (sWriter I)))))%Z in
    let posIds := (posD + Z.of_nat (slen (emitBlocks (mwBlocks (sWriter D)))))%Z in
    let posLookup := (posIds + Z.of_nat (slen ids))%Z in
    let used := (posLookup + Z.of_nat (slen (WriteLookup offs)))%Z in
    WriteData comp (lIds l) posIds = Ok (offs, ids) /\
    wOut w2 = closedImage (wOut w1) l ids (WriteLookup offs) pad (superblockOf l posI posD posLookup used) /\
    (used <= Z.of_nat (slen (wOut w2)))%Z.
Proof.
  intros Hr H. unfold Close in H. apply bind_Done in H as ([] & w0 & H0 & H). apply check_Done in H0 as [_ ->].
  apply bind_Done in H as ([] & w1 & H1 & H). destruct (flushCurFile_represents cfg bsz w w1 fs _ Hr H1) as (Hr1 & Hc1 & _).
  specialize (Hc1 eq_refl). pose proof Hr1 as Hwf. unfold represents in Hwf. rewrite Hc1 in Hwf. destruct Hwf as [Hwf _].
  emits H. apply bind_Done in H as (l & w1' & E & H). apply check_Done in E as [El ->]. cbn [wEntries wOrder wIds set_closed] in El.
  rewrite (wf_ids _ _ Hwf) in El. destruct (layOut_spec cfg visits _ _ l (represents_recorded w1 fs Hr1 Hc1) El) as (I & D & ch & L).
  emits H. apply (emitTables_spec l I D) in H as (offs & ids & pad & Hw & Hout & Hlen); try apply L; [|apply (wf_pos _ _ Hwf)].
  exists w1, l, I, D, ch, offs, ids, pad. cbn zeta in *. cbn [wOut set_tables set_closed] in *.
  split_and!; [done..|apply Hout, (wf_super _ _ Hwf)|lia].
Qed.
End Image.

(** ** Reading the streams *)

(** The fields the calls have set, in the ranges of their types. *)
Definition wfStatic (e : entry) : Prop :=
  (0 <= eFileBlocksStart e)%Z /\ Forall (uint 4) (eFileBlockSizes e) /\ (0 <= eFileSize e)%Z /\
  uint 4 (eDevMajor e) /\ uint 4 (eDevMinor e).

Lemma wfEntry_parts e : wfDynamic e -> wfStatic e -> wfEntry e.
Proof. intros (?&?&?&?&?&?&?&?&?) (?&?&?&?&?). by split_and!. Qed.

Lemma wfStatic_same e e' : sameStatic e e' -> wfStatic e -> wfStatic e'.
Proof. intros (_&_&_&E1&E2&E3&_&_&E4&E5) (?&?&?&?&?). unfold wfStatic. rewrite E1, E2, E3, E4, E5. by split_and!. Qed.

Lemma sealed_wfStatic cfg out fs p e n : sealed cfg out p e n -> wfNode fs n -> wfStatic e.
Proof.
  intros H Hn. destruct n; cbn in H, Hn; [destruct H as (start & sizes & -> & (H0 & Hu & _) & _)|subst e..];
    split_and!; try done; try naive_solver; cbn; lia.
Qed.

Lemma list_find_only {A} (P : A -> Prop) `{!forall x, Decision (P x)} (l : list A) x :
  x ∈ l -> P x -> (forall y, y ∈ l -> P y -> y = x) -> exists i, list_find P l = Some (i, x).
Proof.
  intros Hx Px Hu. destruct (list_find_elem_of P l x Hx Px) as [[i y] E]. exists i. rewrite E.
  apply list_find_Some in E as (Hy & Py & _). rewrite (Hu y); [done|by eapply list_elem_of_lookup_2|done].
Qed.

Section Reading.
  Context (cfg : writerConfig Compressor) `{!CompressorLaws (cfgCompressor cfg)}.
  #[local] Notation comp := (cfgCompressor cfg).
  #[local] Notation bs := (cfgBlockSize cfg).

(** What is stored in a stream is read from the image that holds its table. *)
Lemma read_stored X pre post r b :
  valid cfg X -> mwCur (sWriter X) = "" -> stored X r b -> b <> "" ->
  let img := pre +:+ emitBlocks (mwBlocks (sWriter X)) +:+ post in
  exists rest, forall n, n <= slen b ->
    readMeta comp (slen img) img (Z.to_nat (Z.of_nat (slen pre) + BlockByteOffset (sWriter X) (refBlockIdx r)))
      (Z.to_nat (refOffset r)) n = Some (stake n (b +:+ rest)).
Proof.
  intros VX Hc (p1 & p2 & E & Hn) Hb img. exists p2. intros n Hle.
  rewrite Z2Nat.inj_add by (try lia; apply BlockByteOffset_nonneg). rewrite Nat2Z.id. unfold img at 2. rewrite readMeta_shift.
  assert (0 < slen b) by (destruct b; [done|cbn; lia]).
  rewrite (readMeta_names comp (sWriter X) (sPieces X) (sBytes X) r (slen p1)); [|done..| | |].
  - by rewrite E, sdrop_app.
  - rewrite E, !slen_app. lia.
  - rewrite E, !slen_app. lia.
  - unfold img. rewrite !slen_app. pose proof (emitBlocks_length (mwBlocks (sWriter X))). lia.
Qed.

Lemma encodeInode_nonempty e mtime body : encodeInode e mtime bs = Ok body -> body <> "".
Proof.
  intros H E. assert (16 <= slen body) as Hl; [|rewrite E in Hl; cbn in Hl; lia].
  unfold encodeInode, encodeBasicFile, encodeBasicDir, encodeBasicSymlink, encodeBasicDevice, encodeBasicIPC in H.
  repeat (case_match; try done); try (apply rbind_Ok in H as (dev & _ & H)); apply Ok_inj in H; subst body;
    rewrite slen_app, slen_header; lia.
Qed.
End Reading.

(** ** Reading a closed image *)

Section Closed.
  Context (cfg : writerConfig Compressor) `{!CompressorLaws (cfgCompressor cfg)}.
  Context (bsz : validBlockSize (cfgBlockSize cfg)).
  #[local] Notation comp := (cfgCompressor cfg).
  #[local] Notation bs := (cfgBlockSize cfg).
  Context (w : Writer) (fs : fsys) (l : layout) (I D : stream) (ch : gmap string (list string)).
  Context (offs : list Z) (ids pad : string) (sb : superblock).
  Context (Hrep : represents cfg w fs) (Hcur : wCurFile w = None).
  Context (L : laidOut cfg (withRoot cfg (wEntries w)) (wOrder w) l I D ch).
  #[local] Notation out := (wOut w).
  #[local] Notation posI := (Z.of_nat (slen (wOut w))).
  #[local] Notation posD := (posI + Z.of_nat (slen (emitBlocks (mwBlocks (sWriter I)))))%Z.
  #[local] Notation posIds := (posD + Z.of_nat (slen (emitBlocks (mwBlocks (sWriter D)))))%Z.
  #[local] Notation posLookup := (posIds + Z.of_nat (slen ids))%Z.
  #[local] Notation used := (posLookup + Z.of_nat (slen (WriteLookup offs)))%Z.
  Context (Hids : WriteData comp (lIds l) posIds = Ok (offs, ids)).
  Context (Hsb : sb = superblockOf cfg l posI posD posLookup used).
  #[local] Notation img := (closedImage out l ids (WriteLookup offs) pad sb).
  Context (Hsize : (Z.of_nat (slen img) < 2 ^ 48)%Z) (Hused : (used <= Z.of_nat (slen img))%Z).
  Context (Hcount : (Z.of_nat (length (wOrder w)) < 2 ^ 23)%Z).
  #[local] Notation es := (tbEntries (lTables l)).

Lemma out_super : superblockSize <= slen out.
Proof. pose proof Hrep as H. unfold represents in H. rewrite Hcur in H. apply H. Qed.

Definition front : string := encodeSuperblock sb +:+ sdrop superblockSize out.

Lemma slen_front : slen front = slen out.
Proof. unfold front. rewrite slen_app, slen_encodeSuperblock, slen_sdrop. pose proof out_super. lia. Qed.

Lemma img_inodes : exists post, img = front +:+ emitBlocks (mwBlocks (sWriter I)) +:+ post.
Proof.
  unfold closedImage, front. rewrite (lo_inodes _ _ _ _ _ _ _ L). eexists. rewrite !sapp_assoc. reflexivity.
Qed.

Lemma img_dirs : exists pre post, img = pre +:+ emitBlocks (mwBlocks (sWriter D)) +:+ post /\ Z.of_nat (slen pre) = posD.
Proof.
  exists (front +:+ emitBlocks (mwBlocks (sWriter I))). unfold closedImage, front.
  rewrite (lo_inodes _ _ _ _ _ _ _ L), (lo_dirs _ _ _ _ _ _ _ L). eexists. rewrite !sapp_assoc. split; [reflexivity|].
  rewrite <- sapp_assoc, slen_app. fold front. rewrite slen_front. lia.
Qed.

Lemma img_ids : exists pre post, img = pre +:+ ids +:+ WriteLookup offs +:+ post /\ Z.of_nat (slen pre) = posIds.
Proof.
  exists (front +:+ emitBlocks (mwBlocks (sWriter I)) +:+ emitBlocks (mwBlocks (sWriter D))), pad. unfold closedImage, front.
  rewrite (lo_inodes _ _ _ _ _ _ _ L), (lo_dirs _ _ _ _ _ _ _ L). rewrite !sapp_assoc. split; [reflexivity|].
  rewrite <- sapp_assoc, !slen_app. rewrite <- slen_app. fold front. rewrite slen_front. lia.
Qed.

(** *** The superblock *)

Lemma clampU32_uint z : uint 4 (clampU32 z).
Proof. unfold clampU32, uint. repeat case_match; cbn; lia. Qed.

Lemma blockLog_uint : uint 2 (blockLogFor bs).
Proof.
  destruct bsz as [[H1 H2] _]. unfold MinBlockSize, MaxBlockSize in *. unfold blockLogFor, uint.
  assert (0 <= Z.land bs (- bs) <= bs)%Z as Hl.
  { split; [apply Z.land_nonneg; lia|]. assert (0 <= Z.ldiff bs (Z.land bs (- bs)))%Z as Hd by (apply Z.ldiff_nonneg; lia).
    rewrite <- Z.sub_nocarry_ldiff in Hd; [lia|]. apply Z.bits_inj'. intros n Hn.
    rewrite Z.ldiff_spec, Z.land_spec, Z.bits_0. by destruct (Z.testbit bs n), (Z.testbit (- bs) n). }
  pose proof (Z.log2_nonneg (Z.land bs (- bs))). pose proof (Z.log2_le_mono (Z.land bs (- bs)) (2 ^ 20)).
  change (Z.log2 (2 ^ 20)) with 20%Z in *. cbn. lia.
Qed.

Lemma root_place : (0 <= BlockByteOffset (sWriter I) (refBlockIdx (eInodeRef (lRoot l))) < 2 ^ 48)%Z /\
  (0 <= refOffset (eInodeRef (lRoot l)) < 2 ^ 16)%Z.
Proof.
  split.
  - split; [apply BlockByteOffset_nonneg|]. rewrite BlockByteOffset_emit.
    assert (slen (emitBlocks (take (refBlockIdx (eInodeRef (lRoot l))) (mwBlocks (sWriter I)))) <= slen (emitBlocks (mwBlocks (sWriter I)))).
    { rewrite <- (take_drop (refBlockIdx (eInodeRef (lRoot l))) (mwBlocks (sWriter I))) at 2. rewrite emitBlocks_app, slen_app. lia. }
    lia.
  - pose proof (lo_dyn _ _ _ _ _ _ _ L _ _ (lo_root _ _ _ _ _ _ _ L)) as (_&_&_&_&_&H&_). exact H.
Qed.

Lemma root_encode :
  sbRootInodeRef sb = (BlockByteOffset (sWriter I) (refBlockIdx (eInodeRef (lRoot l))) * 2 ^ 16 + refOffset (eInodeRef (lRoot l)))%Z.
Proof.
  rewrite Hsb. cbn [sbRootInodeRef superblockOf]. rewrite (lo_inodes _ _ _ _ _ _ _ L). destruct root_place as [H1 H2].
  unfold encodeRef. rewrite (Z.mod_small (Z.shiftl _ 16)) by (rewrite Z.shiftl_mul_pow2; lia). by apply lor_shiftl.
Qed.

Lemma read_superblock : readSuperblock img = Some sb.
Proof.
  unfold closedImage. apply superblock_roundtrip. pose proof root_encode as Hr. destruct root_place as [H1 H2].
  rewrite Hsb in *. destruct bsz as [[B1 B2] _]. unfold MinBlockSize, MaxBlockSize in *.
  unfold wfSuperblock. cbn [superblockOf sbInodeCount sbModTime sbBlockSize sbFragCount sbCompressor sbBlockLog sbFlags sbIdCount
    sbRootInodeRef sbBytesUsed sbIdTableStart sbXattrTableStart sbInodeTableStart sbDirectoryTableStart sbFragmentTableStart
    sbExportTableStart] in *.
  assert (forall z, (0 <= z < 2 ^ 48)%Z -> uint 8 z) as U by (intros z Hz; unfold uint; cbn; lia).
  split_and!; try done; try (apply U; lia); try (unfold uint; cbn; lia).
  - apply (uint_mod 4).
  - unfold imageMtime. case_match; apply clampU32_uint.
  - apply compID_uint.
  - apply blockLog_uint.
  - apply (uint_mod 2).
Qed.

(** *** Entries *)

(** The entries after the layout, and the nodes they stand for. *)
Lemma entry_node p e : es !! p = Some e ->
  wfEntry e /\ ePath e = (if String.eqb p "/" then "/" else p) /\
  ((p = "/" /\ sameStatic (rootEntry cfg) e) \/
   (p <> "/" /\ p ∈ wOrder w /\ exists e0 n, fs !! p = Some n /\ sealed cfg out p e0 n /\ sameStatic e0 e)).
Proof.
  clear Hsize Hused Hsb Hcount Hids.
  intros He. destruct (passesBy_lookup_r _ _ _ _ _ (lo_passes _ _ _ _ _ _ _ L) He) as (e0 & He0 & Hst).
  pose proof (represents_recorded cfg w fs Hrep Hcur) as R. destruct (withRoot_spec cfg _ _ R) as (Hroot & Hother & _ & _).
  pose proof (lo_dyn _ _ _ _ _ _ _ L _ _ He) as Hdyn.
  destruct (String.eqb_spec p "/") as [->|Hne].
  - rewrite Hroot in He0. simplify_eq. split_and!; [|by destruct Hst as (-> & _)|by left].
    apply wfEntry_parts; [done|]. apply (wfStatic_same _ _ Hst). by split_and!.
  - rewrite Hother in He0 by done. pose proof Hrep as H. unfold represents in H. rewrite Hcur in H. destruct H as [Hwf _].
    destruct (represents_node cfg w fs p e0 Hrep Hcur He0) as (n & Hn & Hse). split_and!; [|destruct Hst as (-> & _); by apply (rc_path _ _ R)|].
    + apply wfEntry_parts; [done|]. apply (wfStatic_same _ _ Hst). eapply sealed_wfStatic; [done|]. by eapply (wf_nodes _ _ Hwf).
    + right. split_and!; [done|apply (rc_order _ _ R); eauto|]. eauto.
Qed.

Lemma entry_path p e : es !! p = Some e -> ePath e = p.
Proof. intros He. destruct (entry_node p e He) as (_ & E & _). destruct (String.eqb_spec p "/"); by subst. Qed.

(** *** Inodes and listings *)

Lemma read_inode e p : es !! p = Some e -> placed cfg I e ->
  exists mtime, entryMtime cfg e = Ok mtime /\
    readInodeAt comp img sb (BlockByteOffset (sWriter I) (refBlockIdx (eInodeRef e))) (refOffset (eInodeRef e))
    = Some (inodeOf e mtime).
Proof.
  intros He (mtime & body & Hm & Hb & Hst). exists mtime. split; [done|]. destruct img_inodes as [post E].
  destruct (read_stored cfg I front post _ _ (lo_validI _ _ _ _ _ _ _ L) (lo_sealedI _ _ _ _ _ _ _ L) Hst
    (encodeInode_nonempty cfg _ _ _ Hb)) as [rest Hrd].
  unfold readInodeAt. rewrite E, Hsb. cbn [sbBlockSize sbInodeTableStart superblockOf]. rewrite <- slen_front.
  apply (readInode_encode _ body rest); [exact Hrd|done|apply (entry_node p e He)|].
  unfold entryMtime in Hm. repeat case_match; try done; apply Ok_inj in Hm; subst mtime; unfold uint; cbn; lia.
Qed.

Lemma read_dir e mtime cs : eKind e = kindDir -> listed I D e cs -> length cs <= length (wOrder w) ->
  readDir comp img sb (inodeOf e mtime) = Some (map itemOf (isort byName (map (dirEntryOf (sWriter I)) cs))).
Proof.
  intros Ek (i & bytes & Hst & Hb & Hl & Hub & Hr) Hlen. unfold readDir, inodeOf, bodyOf. rewrite Ek. cbn [inBody].
  assert (Z.to_nat ((eDirListingSize e + 3) mod 2 ^ 32 - 3) = slen bytes) as ->
    by (rewrite Hl, (Z.mod_small (Z.of_nat (slen bytes))), Z.mod_small by lia; lia).
  destruct (Nat.eqb_spec (slen bytes) 0) as [E0|E0].
  - destruct bytes; [|done]. cbn in Hr. done.
  - destruct img_dirs as (pre & post & E & Ep).
    destruct (read_stored cfg D pre post _ bytes (lo_validD _ _ _ _ _ _ _ L) (lo_sealedD _ _ _ _ _ _ _ L) Hst) as [rest Hrd];
      [by intros ->|]. cbn [refBlockIdx refOffset] in Hrd. rewrite E, Hb, Hsb. cbn [sbDirectoryTableStart superblockOf].
    rewrite <- Ep, Hrd by done. cbn [mbind option_bind]. by rewrite stake_app.
Qed.

(** *** Paths *)

(** The entry whose inode a path has: the target of a hard link. *)
Definition resolve (e : entry) : option entry :=
  if bool_decide (eKind e = kindHardlink) then t ← eHardlinkTarget e; es !! t else Some e.

Definition inodeAt (p : string) : option inode :=
  e ← es !! p; r ← resolve e;
  match entryMtime cfg r with Ok mtime => Some (inodeOf r mtime) | Err _ => None end.

Lemma inodeAt_own p e mtime :
  es !! p = Some e -> eKind e <> kindHardlink -> entryMtime cfg e = Ok mtime -> inodeAt p = Some (inodeOf e mtime).
Proof.
  intros He Ek Hm. unfold inodeAt, resolve. rewrite He. cbn [mbind option_bind]. rewrite bool_decide_eq_false_2 by done.
  cbn [mbind option_bind]. by rewrite Hm.
Qed.

(** An entry that is not the root was created by a call. *)
Lemma entry_order cs e : Forall proper cs -> cs <> [] -> es !! absOf cs = Some e -> absOf cs ∈ wOrder w.
Proof.
  clear Hsize Hused Hsb Hcount Hids.
  intros Hp Hne He. destruct (entry_node _ _ He) as (_ & _ & [[E _]|(_ & Ho & _)]); [|done].
  change "/" with (absOf []) in E. apply absOf_inj in E; [done|done|constructor].
Qed.

(** The parents of an entry are directories. *)
Lemma ancestors a b : Forall proper (a ++ b) -> b <> [] -> is_Some (es !! absOf (a ++ b)) ->
  exists d, es !! absOf a = Some d /\ eKind d = kindDir.
Proof.
  clear Hsize Hused Hsb Hcount Hids.
  induction b as [|x b IH] using rev_ind; [done|]. intros Hp _ [e He]. rewrite app_assoc in *.
  apply entry_order in He as Ho; [|done|by intros [_ ?]%app_eq_nil]. apply Forall_app in Hp as [Hp Hx]. apply Forall_cons in Hx as [Hx _].
  destruct (lo_parents _ _ _ _ _ _ _ L _ Ho) as (parent & Hpar & Ek). rewrite dir_absOf_snoc in Hpar by done.
  destruct (passesBy_lookup _ _ _ _ _ (lo_passes _ _ _ _ _ _ _ L) Hpar) as (d & Hd & (_ & Ek' & _)).
  destruct (decide (b = [])) as [->|Hb]; [rewrite app_nil_r in Hd; exists d; split; [done|congruence]|].
  apply IH; [done|done|eauto].
Qed.

(** A child of a directory, and its entry in the listing. *)
Lemma kid_item k ccs cs n :
  Forall proper ccs -> proper n -> children es (map (grow k ch) (kidPaths (wOrder w) (absOf ccs))) cs ->
  let items := map itemOf (isort byName (map (dirEntryOf (sWriter I)) cs)) in
  match es !! absOf (ccs ++ [n]) with
  | Some c => exists i, list_find (fun it => diName it = n) items = Some (i, itemOf (dirEntryOf (sWriter I) c))
  | None => list_find (fun it => diName it = n) items = None
  end.
Proof.
  intros Hcs Hn Hch items. pose proof (represents_recorded cfg w fs Hrep Hcur) as R.
  assert (forall it, it ∈ items <-> exists n' c, proper n' /\ absOf (ccs ++ [n']) ∈ wOrder w /\ es !! absOf (ccs ++ [n']) = Some c /\
    it = itemOf (dirEntryOf (sWriter I) c)) as Hitems.
  { intros it. unfold items. rewrite list_elem_of_fmap. setoid_rewrite isort_Permutation.
    assert (forall c, c ∈ cs <-> exists q, q ∈ kidPaths (wOrder w) (absOf ccs) /\ es !! q = Some c) as Hc.
    { unfold children in Hch. rewrite Forall2_fmap_l in Hch. intros c. rewrite list_elem_of_lookup. split.
      - intros [j Hj]. destruct (Forall2_lookup_r _ _ _ _ _ Hch Hj) as (q & Hq & He). unfold compose in He. rewrite pathOf_grow in He.
        exists q. split; [by eapply list_elem_of_lookup_2|done].
      - intros (q & Hq & He). apply list_elem_of_lookup in Hq as [j Hj].
        destruct (Forall2_lookup_l _ _ _ _ _ Hch Hj) as (c' & Hc' & He'). unfold compose in He'. rewrite pathOf_grow in He'. exists j. congruence. }
    split.
    - intros (d & -> & Hd). apply list_elem_of_fmap in Hd as (c & -> & Hc'). apply Hc in Hc' as (q & Hq & He).
      apply (kidPaths_elem (wOrder w) (rc_valid _ _ R)) in Hq as (n' & Hn' & -> & Ho); [|done]. eauto 7.
    - intros (n' & c & Hn' & Ho & He & ->). eexists. split; [reflexivity|]. apply list_elem_of_fmap_2, Hc.
      exists (absOf (ccs ++ [n'])). split; [|done]. apply (kidPaths_elem (wOrder w) (rc_valid _ _ R)); eauto. }
  assert (forall n' c, proper n' -> es !! absOf (ccs ++ [n']) = Some c -> diName (itemOf (dirEntryOf (sWriter I) c)) = n') as Hname.
  { intros n' c Hn' He. cbn. rewrite (entry_path _ _ He). by apply base_absOf_snoc. }
  destruct (es !! absOf (ccs ++ [n])) as [c|] eqn:Ec.
  - apply list_find_only; [|by apply Hname|].
    + apply Hitems. exists n, c. split_and!; try done. apply (entry_order _ c); [|by intros [_ ?]%app_eq_nil|done].
      apply Forall_app. by split; [|constructor].
    + intros it Hit Hd. apply Hitems in Hit as (n' & c' & Hn' & _ & He' & ->). rewrite (Hname n' c') in Hd by done. congruence.
  - apply list_find_None, Forall_forall. intros it Hit Hd. apply Hitems in Hit as (n' & c' & Hn' & _ & He' & ->).
    rewrite (Hname n' c') in Hd by done. congruence.
Qed.

Lemma child_inode q c :
  es !! q = Some c -> (eKind c = kindDir -> placed cfg I c) ->
  exists r mtime, inodeAt q = Some (inodeOf r mtime) /\ (eKind c = kindDir -> r = c /\ entryMtime cfg c = Ok mtime) /\
    (eKind c <> kindDir -> eKind r <> kindDir) /\
    readInodeAt comp img sb (BlockByteOffset (sWriter I) (refBlockIdx (eInodeRef c))) (refOffset (eInodeRef c))
    = Some (inodeOf r mtime).
Proof.
  intros Hc Hd. unfold inodeAt, resolve. rewrite Hc. cbn [mbind option_bind]. case_bool_decide as Ek.
  - destruct (lo_linked _ _ _ _ _ _ _ L q c Hc Ek) as (t & tgt & Et & Htgt & Ekt & ->). rewrite Et. cbn [mbind option_bind].
    rewrite Htgt. cbn [mbind option_bind]. destruct (read_inode tgt t Htgt) as (mtime & Hm & Hr).
    { apply (lo_leaf _ _ _ _ _ _ _ L t tgt Htgt). split; congruence. }
    exists tgt, mtime. rewrite Hm. split_and!; [done|congruence|congruence|done].
  - cbn [mbind option_bind]. destruct (read_inode c q Hc) as (mtime & Hm & Hr).
    { destruct (decide (eKind c = kindDir)); [by apply Hd|]. by apply (lo_leaf _ _ _ _ _ _ _ L q c Hc). }
    exists c, mtime. rewrite Hm. by split_and!.
Qed.

Lemma readDir_not e mtime : eKind e <> kindDir -> readDir comp img sb (inodeOf e mtime) = None.
Proof. intros Ek. unfold readDir, inodeOf, bodyOf. cbn [inBody]. by destruct (eKind e). Qed.

Lemma children_length k ccs cs :
  children es (map (grow k ch) (kidPaths (wOrder w) (absOf ccs))) cs -> length cs <= length (wOrder w).
Proof.
  intros H. apply Forall2_length in H. rewrite length_map in H. rewrite <- H. unfold kidPaths. rewrite isort_Permutation.
  apply length_filter.
Qed.

(** The entries below a directory are no deeper than the tree. *)
Definition deepEnough (k : nat) (ccs : list string) : Prop :=
  forall cp, Forall proper cp -> absOf cp ∈ wOrder w -> length cp <= length ccs + k.

Lemma grow_kids k ccs : Forall proper ccs -> deepEnough k ccs ->
  kidsOf (grow k ch (absOf ccs)) = map (grow (pred k) ch) (kidPaths (wOrder w) (absOf ccs)).
Proof.
  clear Hsize Hused Hsb Hcount Hids.
  intros Hcs Hd. destruct k as [|k]; [|by rewrite (grow_S (wOrder w) ch (lo_children _ _ _ _ _ _ _ L))].
  destruct (kidPaths (wOrder w) (absOf ccs)) as [|q qs] eqn:E; [done|]. exfalso.
  pose proof (represents_recorded cfg w fs Hrep Hcur) as R.
  destruct (proj1 (kidPaths_elem (wOrder w) (rc_valid _ _ R) ccs q Hcs)) as (n & Hn & -> & Ho); [rewrite E; left|].
  assert (length (ccs ++ [n]) <= length ccs + 0) as Hl; [|rewrite length_app in Hl; cbn in Hl; lia].
  apply Hd; [apply Forall_app; by split; [|constructor]|done].
Qed.

Lemma good_inv t : good cfg es I D t ->
  exists e cs, es !! pathOf t = Some e /\ eKind e = kindDir /\ placed cfg I e /\ listed I D e cs /\
    children es (kidsOf t) cs /\ Forall (fun k => kindIs kindDir es (pathOf k) = true -> good cfg es I D k) (kidsOf t).
Proof. intros []. cbn. eauto 10. Qed.

Lemma walk_spec rest : forall k ccs e mtime,
  Forall proper (ccs ++ rest) -> deepEnough k ccs -> good cfg es I D (grow k ch (absOf ccs)) ->
  es !! absOf ccs = Some e -> entryMtime cfg e = Ok mtime ->
  walkPath comp img sb (inodeOf e mtime) rest = inodeAt (absOf (ccs ++ rest)).
Proof.
  induction rest as [|n rest IH]; intros k ccs e mtime Hp Hdeep Hg He Hm;
    destruct (good_inv _ Hg) as (e' & cs & He' & Ek & _ & Hli & Hch & Hkids); rewrite pathOf_grow in He'; assert (e' = e) as -> by congruence.
  { rewrite app_nil_r. symmetry. apply inodeAt_own; [done|congruence|done]. }
  pose proof Hp as Hp'. apply Forall_app in Hp' as [Hcs Hrest]. apply Forall_cons in Hrest as [Hn _].
  rewrite grow_kids in Hch, Hkids by done. cbn [walkPath]. rewrite (read_dir _ _ cs); [|done..|by eapply children_length].
  cbn [mbind option_bind]. pose proof (kid_item (pred k) ccs cs n Hcs Hn Hch) as Hfind. cbn zeta in Hfind.
  replace (ccs ++ n :: rest) with ((ccs ++ [n]) ++ rest) in * by by rewrite <- app_assoc.
  destruct (es !! absOf (ccs ++ [n])) as [c|] eqn:Ec.
  - destruct Hfind as [i ->]. cbn [mbind option_bind snd diBlock diOffset itemOf dirEntryOf deInodeBlockByte deInodeBlockOff].
    assert (eKind c = kindDir -> good cfg es I D (grow (pred k) ch (absOf (ccs ++ [n])))) as Hgk.
    { intros Ekc. rewrite Forall_forall in Hkids. pose proof (represents_recorded cfg w fs Hrep Hcur) as R.
      apply Hkids; [|rewrite pathOf_grow; by apply (kindIs_true _ _ _ _ Ec)].
      apply list_elem_of_fmap_2, (kidPaths_elem (wOrder w) (rc_valid _ _ R)); [done|]. exists n. split_and!; try done.
      apply (entry_order _ c); [by apply Forall_app in Hp as [? _]|by intros [_ ?]%app_eq_nil|done]. }
    destruct (child_inode _ _ Ec) as (r & mt & Hat & Hdir & Hnd & ->).
    { intros Ekc. destruct (good_inv _ (Hgk Ekc)) as (e'' & _ & He'' & _ & Hpl & _). rewrite pathOf_grow in He''. congruence. }
    cbn [mbind option_bind]. destruct (decide (eKind c = kindDir)) as [Ekc|Ekc].
    + destruct (Hdir Ekc) as [-> Hmc]. apply (IH (pred k)); [done| |by apply Hgk|done|done].
      intros cp Hcp Ho. specialize (Hdeep cp Hcp Ho). rewrite length_app. cbn. lia.
    + destruct rest as [|m rest]; [by rewrite app_nil_r|]. cbn [walkPath]. rewrite readDir_not by auto. cbn [mbind option_bind].
      unfold inodeAt. destruct (es !! absOf ((ccs ++ [n]) ++ m :: rest)) as [x|] eqn:Ex; [|done].
      destruct (ancestors (ccs ++ [n]) (m :: rest)) as (d & Hd & Ekd); [done..|eauto|]. congruence.
  - rewrite Hfind. cbn [mbind option_bind]. unfold inodeAt. destruct (es !! absOf ((ccs ++ [n]) ++ rest)) as [x|] eqn:Ex; [|done].
    destruct rest as [|m rest]; [rewrite app_nil_r in Ex; congruence|].
    destruct (ancestors (ccs ++ [n]) (m :: rest)) as (d & Hd & Ekd); [done..|eauto|]. congruence.
Qed.

(** *** Owners, contents and names *)

Lemma read_owner e p : es !! p = Some e -> ownsInode e ->
  readID comp img (sbIdTableStart sb) (eUidIdx e) = Some (aUID (eAttrs e)) /\
  readID comp img (sbIdTableStart sb) (eGidIdx e) = Some (aGID (eAttrs e)).
Proof.
  intros He Ho. destruct (lo_owned _ _ _ _ _ _ _ L p e He Ho) as [Hu Hg]. destruct img_ids as (pre & post & E & Ep).
  pose proof (lo_dyn _ _ _ _ _ _ _ L p e He) as (_&_&_&[Hu0 _]&[Hg0 _]&_).
  assert (sbIdTableStart sb = Z.of_nat (slen pre + slen ids)) as -> by (rewrite Hsb; cbn [sbIdTableStart superblockOf]; lia).
  assert (WriteData comp (lIds l) (Z.of_nat (slen pre)) = Ok (offs, ids)) as Hw by by rewrite Ep.
  assert (uint 8 (Z.of_nat (slen pre + slen ids))) as Hsz.
  { unfold uint. change (2 ^ (8 * Z.of_nat 8))%Z with (2 ^ 48 * 2 ^ 16)%Z. lia. }
  pose proof (lo_ids _ _ _ _ _ _ _ L) as [_ Hui]. rewrite E.
  rewrite <- (Z2Nat.id (eUidIdx e)), <- (Z2Nat.id (eGidIdx e)) by done.
  split; by apply (readID_spec comp (lIds l)).
Qed.

Lemma read_content start sizes data : dataAt cfg out start sizes data -> readData comp img (Z.to_nat start) sizes = Some data.
Proof.
  intros (Hs & _ & Hr). pose proof out_super. destruct img_inodes as [post ->]. apply readData_ext.
  rewrite <- Hr. apply readData_from. replace (Z.to_nat start) with (superblockSize + (Z.to_nat start - superblockSize)) by lia.
  assert (sdrop superblockSize front = sdrop superblockSize out) as E
    by (unfold front; rewrite <- (slen_encodeSuperblock sb) at 1; apply sdrop_app).
  by rewrite <- !sdrop_sdrop, E.
Qed.

Lemma order_permutation : wOrder w ≡ₚ map fst (map_to_list fs).
Proof.
  pose proof Hrep as H. unfold represents in H. rewrite Hcur in H. destruct H as [Hwf _].
  apply NoDup_Permutation; [apply Hwf|apply NoDup_fst_map_to_list|]. intros p. rewrite (wf_order _ _ Hwf). split.
  - intros [n Hn]. apply list_elem_of_fmap. exists (p, n). split; [done|]. by apply elem_of_map_to_list.
  - intros Hp. apply list_elem_of_fmap in Hp as ([q n] & -> & Hq). apply elem_of_map_to_list in Hq. eauto.
Qed.

Lemma read_names k ccs cs :
  Forall proper ccs -> children es (map (grow k ch) (kidPaths (wOrder w) (absOf ccs))) cs ->
  map diName (map itemOf (isort byName (map (dirEntryOf (sWriter I)) cs))) = namesIn fs (absOf ccs).
Proof.
  intros Hcs Hch. rewrite map_map. change (fun x => diName (itemOf x)) with deName. unfold namesIn.
  assert (map deName (map (dirEntryOf (sWriter I)) cs) = map base (kidPaths (wOrder w) (absOf ccs))) as Eb.
  { rewrite map_map. cbn [deName dirEntryOf]. revert cs Hch.
    induction (kidPaths (wOrder w) (absOf ccs)) as [|q qs IH]; intros cs Hch; [by apply Forall2_nil_inv_l in Hch as ->|].
    cbn [map] in Hch. apply Forall2_cons_inv_l in Hch as (c & cs' & He & Hch & ->). rewrite pathOf_grow in He. cbn [map].
    rewrite (IH _ Hch). by rewrite (entry_path _ _ He). }
  apply (sorted_unique sle).
  - intros x y _ _. apply sle_antisym.
  - pose proof (isort_Sorted byName (map (dirEntryOf (sWriter I)) cs)) as Hs.
    induction Hs as [|d ds _ IH Hd]; [constructor|]. cbn [map]. constructor; [done|]. by apply Forall_fmap.
  - apply isort_Sorted; apply _.
  - rewrite (isort_Permutation byName), Eb, (isort_Permutation sle). unfold kidPaths, below1.
    by rewrite isort_Permutation, order_permutation.
Qed.

(** *** What is at a path *)

Lemma root_deep : deepEnough (S (maxLen (wOrder w))) [].
Proof.
  clear Hsize Hused Hsb Hcount Hids.
  intros cp Hp Ho. pose proof (absOf_slen cp Hp). assert (slen (absOf cp) <= maxLen (wOrder w)); [|cbn; lia].
  clear -Ho. induction (wOrder w) as [|q qs IH]; [by apply elem_of_nil in Ho|]. cbn [maxLen foldr].
  apply elem_of_cons in Ho as [->|Ho]; [lia|]. specialize (IH Ho). unfold maxLen in IH. lia.
Qed.

(** Every directory is laid out. *)
Lemma dir_good ccs e : Forall proper ccs -> es !! absOf ccs = Some e -> eKind e = kindDir ->
  exists k, deepEnough k ccs /\ good cfg es I D (grow k ch (absOf ccs)).
Proof.
  clear Hsize Hused Hsb Hcount Hids.
  revert e. induction ccs as [|n ccs IH] using rev_ind; intros e Hp He Ek.
  { exists (S (maxLen (wOrder w))). split; [apply root_deep|]. apply (lo_good _ _ _ _ _ _ _ L). }
  destruct (ancestors ccs [n]) as (d & Hd & Ekd); [done|done|eauto|].
  assert (absOf (ccs ++ [n]) ∈ wOrder w) as Ho by (apply (entry_order _ e); [done|by intros [_ ?]%app_eq_nil|done]).
  apply Forall_app in Hp as [Hp Hn]. apply Forall_cons in Hn as [Hn _].
  destruct (IH d Hp Hd Ekd) as (k & Hdeep & Hg). destruct (good_inv _ Hg) as (_ & _ & _ & _ & _ & _ & _ & Hkids).
  rewrite grow_kids in Hkids by done. exists (pred k). split.
  - intros cp Hcp Hop. specialize (Hdeep cp Hcp Hop). rewrite length_app. cbn. lia.
  - rewrite Forall_forall in Hkids. apply Hkids; [|rewrite pathOf_grow; by apply (kindIs_true _ _ _ _ He)].
    pose proof (represents_recorded cfg w fs Hrep Hcur) as R.
    apply list_elem_of_fmap_2, (kidPaths_elem (wOrder w) (rc_valid _ _ R)); eauto.
Qed.

Lemma read_payload_dir ccs e mtime :
  Forall proper ccs -> es !! absOf ccs = Some e -> eKind e = kindDir ->
  readPayload comp img sb (inodeOf e mtime) = Some (PDir (namesIn fs (absOf ccs))).
Proof.
  intros Hp He Ek. destruct (dir_good ccs e Hp He Ek) as (k & Hdeep & Hg).
  destruct (good_inv _ Hg) as (e' & cs & He' & _ & _ & Hli & Hch & _). rewrite pathOf_grow in He'.
  assert (e' = e) as -> by congruence. rewrite grow_kids in Hch by done.
  pose proof (read_dir e mtime cs Ek Hli (children_length _ _ _ Hch)) as Hr. unfold readPayload.
  assert (exists a b c d f, inBody (inodeOf e mtime) = BodyDir a b c d f) as (a & b & c & d & f & ->)
    by (unfold inodeOf, bodyOf; rewrite Ek; cbn; eauto 10).
  rewrite Hr. cbn [mbind option_bind]. by rewrite (read_names (pred k) ccs).
Qed.

Lemma entryMtime_view e mtime : entryMtime cfg e = Ok mtime -> mtime = mtimeOf cfg (aMtime (eAttrs e)).
Proof.
  unfold entryMtime, mtimeOf. intros H. destruct (match cfgMtime cfg with Some t => Some t | None => _ end); cbn; [|congruence].
  case_match; congruence.
Qed.

(** The stat of an inode, from its payload. *)
Lemma readStat_payload ccs e mtime pay :
  es !! absOf ccs = Some e -> ownsInode e -> entryMtime cfg e = Ok mtime ->
  readPayload comp img sb (inodeOf e mtime) = Some pay ->
  readStat comp img sb (inodeOf e mtime) = Some (statOf cfg (eAttrs e) (basicTypeFor (eKind e) None) pay).
Proof.
  intros He Ho Hm Hpay. destruct (read_owner e _ He Ho) as [Hu Hg]. unfold readStat.
  change (inUid (inodeOf e mtime)) with (eUidIdx e). change (inGid (inodeOf e mtime)) with (eGidIdx e).
  rewrite Hu, Hg. cbn [mbind option_bind]. rewrite Hpay. cbn [mbind option_bind inodeOf inType inPerm inMtime].
  unfold statOf. by rewrite encodePerm_eq, (entryMtime_view _ _ Hm).
Qed.

Lemma read_stat ccs e mtime :
  Forall proper ccs -> es !! absOf ccs = Some e -> ownsInode e -> entryMtime cfg e = Ok mtime ->
  readStat comp img sb (inodeOf e mtime) = viewOf cfg fs (absOf ccs).
Proof.
  intros Hp He Ho Hm. unfold viewOf.
  destruct (entry_node _ _ He) as (_ & _ & [[E (_ & Ek & Ea & _)]|(Hne & _ & e0 & n & Hn & Hse & Hst)]).
  { rewrite (readStat_payload ccs e mtime (PDir (namesIn fs (absOf ccs)))); [|done..|by apply read_payload_dir].
    rewrite E, Ek, Ea. done. }
  destruct (String.eqb_spec (absOf ccs) "/"); [done|]. rewrite Hn.
  destruct Hst as (_ & Ek & Ea & Es & Eb & Esz & Et & _ & Emaj & Emin).
  destruct n as [a content|a|a target|t|a major minor|a major minor|a|a]; cbn [sealed] in Hse;
    [destruct Hse as (start & sizes & -> & Hd & _)|subst e0..]; cbn [eKind eAttrs newEntry] in Ek, Ea.
  - rewrite (readStat_payload ccs e mtime (PFile content)); [by rewrite Ek, Ea|done..|].
    unfold readPayload, inodeOf, bodyOf. rewrite Ek. cbn [inBody eKind fileEntry set_size set_blocks newEntry]. rewrite Es, Eb, Esz.
    cbn [eFileBlocksStart eFileBlockSizes eFileSize fileEntry set_size set_blocks newEntry].
    rewrite (read_content _ _ _ Hd). cbn [mbind option_bind]. by rewrite Nat2Z.id, stake_all.
  - rewrite (readStat_payload ccs e mtime (PDir (namesIn fs (absOf ccs)))); [by rewrite Ek, Ea|done..|by apply read_payload_dir].
  - rewrite (readStat_payload ccs e mtime (PSymlink target)); [by rewrite Ek, Ea|done..|].
    unfold readPayload, inodeOf, bodyOf. rewrite Ek, Et. done.
  - done.
  - rewrite (readStat_payload ccs e mtime (PDevice (major * 256 + minor))); [by rewrite Ek, Ea|done..|].
    unfold readPayload, inodeOf, bodyOf. rewrite Ek, Emaj, Emin. done.
  - rewrite (readStat_payload ccs e mtime (PDevice (major * 256 + minor))); [by rewrite Ek, Ea|done..|].
    unfold readPayload, inodeOf, bodyOf. rewrite Ek, Emaj, Emin. done.
  - rewrite (readStat_payload ccs e mtime PIPC); [by rewrite Ek, Ea|done..|]. unfold readPayload, inodeOf, bodyOf. by rewrite Ek.
  - rewrite (readStat_payload ccs e mtime PIPC); [by rewrite Ek, Ea|done..|]. unfold readPayload, inodeOf, bodyOf. by rewrite Ek.
Qed.

(** Every inode is in the table. *)
Lemma entry_placed p e : es !! p = Some e -> ownsInode e -> placed cfg I e.
Proof.
  clear Hsize Hused Hsb Hcount Hids.
  intros He Ho. destruct (decide (eKind e = kindDir)) as [Ek|Ek]; [|by apply (lo_leaf _ _ _ _ _ _ _ L _ _ He)].
  assert (exists cs, Forall proper cs /\ p = absOf cs) as (cs & Hcs & ->).
  { destruct (entry_node _ _ He) as (_ & _ & [[-> _]|(_ & Hp & _)]); [by exists []|].
    pose proof (represents_recorded cfg w fs Hrep Hcur) as R. destruct (rc_valid _ _ R _ Hp) as (cs & _ & Hcs & ->). eauto. }
  destruct (dir_good cs e Hcs He Ek) as (k & _ & Hg). destruct (good_inv _ Hg) as (e' & _ & He' & _ & Hpl & _).
  rewrite pathOf_grow in He'. by assert (e' = e) as -> by congruence.
Qed.

Lemma own_mtime cs e : Forall proper cs -> es !! absOf cs = Some e -> ownsInode e -> exists mtime, entryMtime cfg e = Ok mtime.
Proof.
  intros Hp He Ho. destruct (decide (eKind e = kindDir)) as [Ek|Ek].
  - destruct (dir_good cs e Hp He Ek) as (k & _ & Hg). destruct (good_inv _ Hg) as (e' & _ & He' & _ & (mt & _ & Hm & _) & _).
    rewrite pathOf_grow in He'. exists mt. congruence.
  - destruct (lo_leaf _ _ _ _ _ _ _ L _ _ He) as (mt & _ & Hm & _); [done|]. eauto.
Qed.

Lemma read_own cs e : Forall proper cs -> es !! absOf cs = Some e -> ownsInode e ->
  (i ← (match entryMtime cfg e with Ok mtime => Some (inodeOf e mtime) | Err _ => None end); readStat comp img sb i)
  = viewOf cfg fs (absOf cs).
Proof. intros Hp He Ho. destruct (own_mtime cs e Hp He Ho) as [mt Hm]. rewrite Hm. by apply read_stat. Qed.

(** A hard link is what its target is. *)
Lemma view_link p e : es !! p = Some e -> eKind e = kindHardlink ->
  exists t tgt ct, eHardlinkTarget e = Some t /\ es !! t = Some tgt /\ eKind tgt = kindFile /\
    t = absOf ct /\ Forall proper ct /\ viewOf cfg fs p = viewOf cfg fs t.
Proof.
  intros He Ek. destruct (lo_linked _ _ _ _ _ _ _ L _ _ He Ek) as (t & tgt & Et & Htgt & Ekt & _). exists t, tgt.
  destruct (entry_node _ _ He) as (_ & _ & [[_ (_ & Ek0 & _)]|(Hne & _ & e0 & n & Hn & Hse & (_ & Ek0 & _ & _ & _ & _ & _ & El & _))]);
    [rewrite Ek0 in Ek; done|].
  destruct (entry_node _ _ Htgt) as (_ & _ & [[_ (_ & Ek1 & _)]|(Hnet & Hot & e1 & n1 & Hn1 & Hse1 & (_ & Ek1 & _))]);
    [rewrite Ek1 in Ekt; done|].
  pose proof (represents_recorded cfg w fs Hrep Hcur) as R. destruct (rc_valid _ _ R _ Hot) as (ct & _ & Hct & ->). exists ct.
  split_and!; try done. unfold viewOf. destruct (String.eqb_spec p "/"); [done|]. destruct (String.eqb_spec (absOf ct) "/"); [done|].
  rewrite Hn, Hn1. rewrite Ek in Ek0. rewrite Et in El. rewrite Ekt in Ek1.
  destruct n as [a content| | |t| | | |]; cbn [sealed] in Hse; [destruct Hse as (? & ? & -> & _)|subst e0..]; try done.
  cbn [eHardlinkTarget newEntry] in El. assert (t = absOf ct) as -> by congruence. rewrite Hn1. cbn [mbind option_bind].
  by destruct n1; cbn [sealed] in Hse1; [destruct Hse1 as (? & ? & -> & _)|subst e1..].
Qed.

(** Every path of the image. *)
Lemma read_path cs : Forall proper cs -> readPath comp img cs = viewOf cfg fs (absOf cs).
Proof.
  intros Hp. unfold readPath. rewrite read_superblock. cbn [mbind option_bind].
  pose proof (lo_root _ _ _ _ _ _ _ L) as Hroot. change "/" with (absOf []) in Hroot.
  destruct (good_inv _ (lo_good _ _ _ _ _ _ _ L)) as (r & _ & Hr & _ & Hpl & _).
  assert (r = lRoot l) as -> by (cbn [pathOf grow] in Hr; change "/" with (absOf []) in Hr; congruence).
  destruct (read_inode _ _ Hroot Hpl) as (mtime & Hm & Hrd). unfold readRoot. rewrite root_encode.
  destruct root_place as [_ Ho]. destruct (shifted_fields (BlockByteOffset (sWriter I) (refBlockIdx (eInodeRef (lRoot l))))
    (refOffset (eInodeRef (lRoot l))) 16) as (-> & -> & _); [done..|]. rewrite Hrd. cbn [mbind option_bind].
  rewrite (walk_spec cs (S (maxLen (wOrder w))) [] (lRoot l)); [|done|apply root_deep|apply (lo_good _ _ _ _ _ _ _ L)|done|done].
  cbn [app]. unfold inodeAt. destruct (es !! absOf cs) as [e|] eqn:He; cbn [mbind option_bind].
  - unfold resolve. case_bool_decide as Ek; [|by apply read_own].
    destruct (view_link _ _ He Ek) as (t & tgt & ct & -> & Htgt & Ekt & -> & Hct & ->). cbn [mbind option_bind]. rewrite Htgt.
    apply read_own; [done..|]. unfold ownsInode. congruence.
  - unfold viewOf. destruct (String.eqb_spec (absOf cs) "/") as [E|Hne]; [rewrite E in He; change "/" with (absOf []) in He; congruence|].
    destruct (fs !! absOf cs) as [n|] eqn:Hn; [|done]. exfalso. pose proof (represents_recorded cfg w fs Hrep Hcur) as R.
    destruct (withRoot_spec cfg _ _ R) as (_ & Hother & _ & _).
    pose proof Hrep as H. unfold represents in H. rewrite Hcur in H. destruct H as [Hwf _].
    assert (is_Some (wEntries w !! absOf cs)) as [e He0] by (apply (rc_order _ _ R), (wf_order _ _ Hwf); eauto).
    rewrite <- (Hother _ Hne) in He0. destruct (passesBy_lookup _ _ _ _ _ (lo_passes _ _ _ _ _ _ _ L) He0) as (e' & He' & _). congruence.
Qed.
End Closed.

(** ** Theorems *)

Lemma reach_blockSize cfg w fs : reach cfg w fs -> validBlockSize (cfgBlockSize cfg).
Proof. induction 1 as [opts w H| |]; [|done..]. by apply NewWriter_spec in H as [? _]. Qed.

Lemma stale_write cfg h p w o w' :
  staleHandle w h = true -> runCall cfg (CallWrite h p) w = (o, w') -> w' = w.
Proof.
  unfold staleHandle. cbn [runCall]. intros Hs H. unfold fileWrite, bind, check in H. 
  destruct (wCurFile w) as [[q buf]|]; [apply negb_true_iff in Hs; rewrite Hs in H|]; by simplify_eq.
Qed.

Lemma reach_represents cfg w fs : CompressorLaws (cfgCompressor cfg) -> reach cfg w fs -> represents cfg w fs.
Proof.
  intros HC H. pose proof (reach_blockSize _ _ _ H) as bsz. induction H as [opts w H|w fs k w' _ IH Hk H|w fs k e w' _ IH Hk Hne H].
  - apply NewWriter_spec in H as [_ ->]. by apply represents_new.
  - by apply (runCall_represents cfg bsz k w w' fs _ Hk IH H).
  - assert ((exists h p, k = CallWrite h p) \/ forall h p, k <> CallWrite h p) as [(h & p & ->)|Hk']
      by (destruct k; eauto; right; congruence).
    + apply stale_write in H as ->; [done|]. by eapply Hne.
    + by apply (runCall_represents cfg bsz k w w' fs _ Hk IH H).
Qed.

(** The fields of an inode have the widths they are written with; [ids] is the
    table of owners. *)
Definition fitsDisk (ids : idTable) (blockSize : Z) (e : entry) : Prop :=
  uint 4 (eInodeNumber e) /\ uint 2 (eUidIdx e) /\ uint 2 (eGidIdx e) /\
  owned ids e /\ uint 4 (aUID (eAttrs e)) /\ uint 4 (aGID (eAttrs e)) /\
  match eKind e with
  | kindFile => uint 4 (eFileBlocksStart e) /\ uint 4 (eFileSize e) /\ Forall (uint 4) (eFileBlockSizes e) /\
                Z.of_nat (length (eFileBlockSizes e)) = blockCount blockSize (eFileSize e)
  | kindDir => uint 4 (eDirBlockStart e) /\ uint 2 ((eDirListingSize e + 3) mod 2 ^ 32) /\ uint 2 (eDirBlockOffset e) /\
               uint 4 (eNlinks e) /\ uint 4 (eParentInode e)
  | kindSymlink => uint 4 (eNlinks e) /\ (Z.of_nat (slen (eSymlinkTarget e)) <= 65535)%Z
  | kindCharDev | kindBlockDev => uint 4 (eNlinks e) /\ (0 <= eDevMajor e < 2 ^ 12)%Z /\ (0 <= eDevMinor e < 2 ^ 8)%Z
  | kindFIFO | kindSocket => uint 4 (eNlinks e)
  | kindHardlink => True
  end.

(** An encoder that succeeds cuts nothing off. *)
Lemma encodeInode_fits e mtime blockSize body ids :
  encodeInode e mtime blockSize = Ok body -> wfEntry e -> owned ids e -> wfAttrs (eAttrs e) -> fitsDisk ids blockSize e.
Proof.
  intros H (Hn & Hp & Hl & Hu & Hg & Hb & Hbs & Hs & Hma & Hmi & Hds & Hdo & Hls) Ho [Ha1 Ha2].
  unfold fitsDisk. do 6 (split; [done|]). unfold encodeInode in H. destruct (eKind e); try done.
  - unfold encodeBasicFile in H. repeat (case_match; [done|]). unfold uint in *. split_and!; try lia; done.
  - unfold encodeBasicDir in H. repeat (case_match; [done|]). unfold uint in *.
    pose proof (Z.mod_pos_bound (eDirListingSize e + 3) (2 ^ 32)). split_and!; lia.
  - unfold encodeBasicSymlink in H. case_match; [done|]. split; [done|lia].
  - unfold encodeBasicDevice, encodeDevice in H. apply rbind_Ok in H as (dev & H0 & _). repeat case_match; try done. unfold uint in *. lia.
  - unfold encodeBasicDevice, encodeDevice in H. apply rbind_Ok in H as (dev & H0 & _). repeat case_match; try done. unfold uint in *. lia.
Qed.

Lemma wfAttrs_root cfg : wfAttrs (eAttrs (rootEntry cfg)).
Proof. split; unfold uint; cbn; lia. Qed.

Lemma closed_fits cfg visits w w2 fs p e :
  CompressorLaws (cfgCompressor cfg) -> validBlockSize (cfgBlockSize cfg) -> represents cfg w fs ->
  Close cfg visits w = (Done tt, w2) -> wEntries w2 !! p = Some e -> ownsInode e -> fitsDisk (wIds w2) (cfgBlockSize cfg) e.
Proof.
  intros HC bsz Hr Hclose He Ho.
  destruct (Close_layout cfg bsz visits w w2 fs Hr Hclose) as (w1 & l & I & D & ch & Hr1 & Hc1 & L & E1 & E2).
  rewrite E1 in He. rewrite E2. destruct (entry_placed cfg w1 fs l I D ch Hr1 Hc1 L p e He Ho) as (mtime & body & _ & Hb & _).
  destruct (entry_node cfg w1 fs l I D ch Hr1 Hc1 L p e He) as (Hwf & _ & Hn).
  eapply encodeInode_fits; [exact Hb|done|by apply (lo_owned _ _ _ _ _ _ _ L p e)|].
  destruct Hn as [[_ (_ & _ & -> & _)]|(_ & _ & e0 & n & Hn & Hse & (_ & Ek & -> & _))]; [apply wfAttrs_root|].
  pose proof Hr1 as H. unfold represents in H. rewrite Hc1 in H. destruct H as [Hw _].
  destruct (sealed_static cfg _ _ _ _ fs Hse (wf_nodes _ _ Hw _ _ Hn)) as (_ & _ & Ha & _). apply Ha.
  unfold ownsInode in *. congruence.
Qed.

(** A writer whose fields are in the ranges of their types and consistent with
    each other. *)
Record wellTyped (w : Writer) : Prop := {
  wt_pos : wOutPos w = Z.of_nat (slen (wOut w));
  wt_nodup : NoDup (wOrder w);
  wt_order p : p ∈ wOrder w <-> is_Some (wEntries w !! p);
  wt_path p e : wEntries w !! p = Some e -> ePath e = p /\ validatePath p = Ok tt;
  wt_entry p e : wEntries w !! p = Some e -> wfEntry e;
  wt_owner p e : wEntries w !! p = Some e -> uint 4 (aUID (eAttrs e)) /\ uint 4 (aGID (eAttrs e));
  wt_link p e : wEntries w !! p = Some e -> eKind e = kindHardlink ->
    exists t tgt, eHardlinkTarget e = Some t /\ wEntries w !! t = Some tgt /\ eKind tgt = kindFile;
  wt_cur p buf : wCurFile w = Some (p, buf) -> exists e, wEntries w !! p = Some e /\ eKind e = kindFile
}.

(** An entry while calls are made, and its node. *)
Lemma represents_entry cfg w fs p e :
  represents cfg w fs -> wEntries w !! p = Some e ->
  exists n, fs !! p = Some n /\ ePath e = p /\ wfEntry e /\ wfAttrs (eAttrs e) /\
    (eKind e = kindFile <-> exists a content, n = NFile a content) /\
    (eKind e = kindHardlink -> exists t, n = NLink t /\ eHardlinkTarget e = Some t).
Proof.
  intros Hr He. assert (wfWriter w fs /\ exists n, fs !! p = Some n /\
    (sealed cfg (wOut w) p e n \/ exists a content size data, n = NFile a content /\ (0 <= size)%Z /\ opened cfg (wOut w) p e a size data))
    as (Hwf & n & Hn & Hcase).
  { unfold represents in Hr. destruct (wCurFile w) as [[h buf]|] eqn:Hc.
    - destruct Hr as (a & data & Hf & _ & (Hwf & _ & Hs & e' & a' & content & He' & Hf' & Ho)). split; [done|].
      destruct (decide (p = h)) as [->|Hne].
      + exists (NFile a (data +:+ buf)). split; [done|]. right. rewrite Hf in Hf'. simplify_eq. eexists _, _, _, _. split_and!; [done| |done]. lia.
      + specialize (Hs p ltac:(congruence)). rewrite He in Hs. inversion Hs; subst. eauto.
    - destruct Hr as [Hwf Hs]. split; [done|]. specialize (Hs p ltac:(done)). rewrite He in Hs. inversion Hs; subst. eauto. }
  exists n. split; [done|]. destruct Hcase as [Hse|(a & content & size & data & -> & H0 & (start & sizes & -> & (Hst & Hu & _) & _))].
  - pose proof (wf_nodes _ _ Hwf p n Hn) as Hnode. destruct (sealed_static cfg _ _ _ _ fs Hse Hnode) as (? & ? & Ha & Hl).
    pose proof (sealed_wfStatic cfg _ fs _ _ _ Hse Hnode). split_and!; [done|by apply wfEntry_parts| | |].
    + destruct (decide (eKind e = kindHardlink)) as [Ek|]; [|by apply Ha].
      destruct n; cbn in Hse; [destruct Hse as (? & ? & -> & _)|subst e..]; done.
    + destruct n; cbn in Hse; [destruct Hse as (? & ? & -> & _)|subst e..]; cbn; naive_solver.
    + intros Ek. destruct n; cbn in Hse; [destruct Hse as (? & ? & -> & _)|subst e..]; try done. eauto.
  - split_and!; [done| |by apply (wf_nodes _ _ Hwf _ _ Hn)|cbn; naive_solver|done]. apply wfEntry_parts; [by split_and!|]. split_and!; cbn; try done; lia.
Qed.

Lemma represents_dom cfg w fs p : represents cfg w fs -> is_Some (wEntries w !! p) <-> is_Some (fs !! p).
Proof.
  intros Hr. unfold represents in Hr. destruct (wCurFile w) as [[h buf]|] eqn:Hc.
  - destruct Hr as (a & data & Hf & _ & (_ & _ & Hs & e' & a' & content & He' & _)).
    destruct (decide (p = h)) as [->|Hne]; [rewrite Hf, He'; by split; eauto|].
    specialize (Hs p ltac:(congruence)). inversion Hs as [? ? ? E1 E2|E1 E2]; by split; intros []; eauto.
  - destruct Hr as [_ Hs]. specialize (Hs p ltac:(done)). inversion Hs as [? ? ? E1 E2|E1 E2]; by split; intros []; eauto.
Qed.

Lemma represents_wf cfg w fs : represents cfg w fs -> wfWriter w fs.
Proof. unfold represents. destruct (wCurFile w) as [[h buf]|]; [intros (? & ? & _ & _ & H & _)|intros [H _]]; done. Qed.

Lemma represents_wellTyped cfg w fs : represents cfg w fs -> wellTyped w.
Proof.
  intros Hr. pose proof (represents_wf cfg w fs Hr) as Hwf.
  assert (forall p, p ∈ wOrder w <-> is_Some (wEntries w !! p)) as Hord
    by (intros p; by rewrite (wf_order _ _ Hwf), (represents_dom cfg w fs)).
  split; try apply Hwf; try done.
  - intros p e He. destruct (represents_entry cfg w fs p e Hr He) as (n & Hn & Hp & _). split; [done|].
    apply validatePath_complete, (wf_paths _ _ Hwf), Hord. eauto.
  - intros p e He. by destruct (represents_entry cfg w fs p e Hr He) as (n & Hn & _ & ? & _).
  - intros p e He. by destruct (represents_entry cfg w fs p e Hr He) as (n & Hn & _ & _ & ? & _).
  - intros p e He Ek. destruct (represents_entry cfg w fs p e Hr He) as (n & Hn & _ & _ & _ & _ & Hl).
    destruct (Hl Ek) as (t & -> & Et). destruct (wf_nodes _ _ Hwf p _ Hn) as (a & content & Ht).
    destruct (proj2 (represents_dom cfg w fs t Hr)) as [tgt Htgt]; [eauto|]. exists t, tgt. split_and!; [done..|].
    destruct (represents_entry cfg w fs t tgt Hr Htgt) as (n & Hn' & _ & _ & _ & Hf & _). apply Hf. rewrite Ht in Hn'. simplify_eq. eauto.
  - intros p buf Hc. unfold represents in Hr. rewrite Hc in Hr. destruct Hr as (a & data & _ & _ & (_ & _ & _ & e & a' & content & He & _ & Ho)).
    exists e. split; [done|]. by destruct Ho as (? & ? & -> & _).
Qed.


(** *** An image *)

Definition exCfg : writerConfig Compressor := mkWriterConfig 4096 exCompressor None.
Definition exWriter : Writer := mkWriter (zeros superblockSize) false false 96 ∅ [] None newIDTable.

Definition exCalls : list call :=
  [ CallDir (mkAttrs "/bin" 493 0 7 (Some 12%Z));
    CallFile (mkAttrs "/bin/sh" 2541 1000 7 (Some 99%Z));
    CallWrite "/bin/sh" "xx";
    CallSymlink (mkAttrs "/lib" 511 0 0 None) "usr/lib";
    CallHardlink "/bin/bash" "/bin/sh";
    CallChar (mkAttrs "/null" 438 0 0 None) 1 3 ].

Fixpoint runCalls (cfg : writerConfig Compressor) (calls : list call) : act Writer unit :=
  match calls with
  | [] => ret tt
  | k :: rest => let* _ := runCall cfg k in runCalls cfg rest
  end.

Lemma runCalls_reach cfg calls : forall w fs w',
  reach cfg w fs -> Forall wfCall calls -> runCalls cfg calls w = (Done tt, w') ->
  reach cfg w' (foldl (fun fs k => applyCall k fs) fs calls).
Proof.
  induction calls as [|k calls IH]; intros w fs w' Hr Hwf H; cbn [runCalls foldl] in *.
  { unfold ret in H. by simplify_eq. }
  apply Forall_cons in Hwf as [Hk Hwf]. apply bind_Done in H as ([] & w1 & H1 & H).
  apply (IH w1); [|done..]. by eapply reach_done.
Qed.

Definition exFilled : Writer := (runCalls exCfg exCalls exWriter).2.
Definition exFs : fsys := foldl (fun fs k => applyCall k fs) ∅ exCalls.

Lemma exReach : reach exCfg exFilled exFs.
Proof.
  apply (runCalls_reach exCfg exCalls exWriter ∅).
  - apply (reach_new exCfg [WithComp (Some exCompressor); BlockSize 4096]). reflexivity.
  - repeat constructor; cbn; lia.
  - unfold exFilled. assert ((runCalls exCfg exCalls exWriter).1 = Done tt) as <- by (vm_compute; reflexivity).
    apply surjective_pairing.
Defined.


(** Reading a closed image, in terms of the representation. *)
Lemma closed_reads_back cfg w fs visits w2 cs :
  CompressorLaws (cfgCompressor cfg) -> validBlockSize (cfgBlockSize cfg) -> represents cfg w fs ->
  Close cfg visits w = (Done tt, w2) ->
  (Z.of_nat (slen (wOut w2)) < 2 ^ 48)%Z -> (Z.of_nat (size fs) < 2 ^ 23)%Z -> Forall proper cs ->
  readPath (cfgCompressor cfg) (wOut w2) cs = viewOf cfg fs (absOf cs).
Proof.
  intros HC bsz Hr Hclose Hsize Hcount Hp.
  destruct (Close_spec cfg bsz visits w w2 fs Hr Hclose) as (w1 & l & I & D & ch & offs & ids & pad & Hr1 & Hc1 & L & Hw & Hout & Hused).
  rewrite Hout in *. eapply (read_path cfg bsz w1 fs l I D ch offs ids pad _ Hr1 Hc1 L Hw eq_refl Hsize Hused); [|done].
  rewrite (order_permutation cfg w1 fs Hr1 Hc1), length_map. by rewrite length_map_to_list.
Qed.

(** C2: An image is read back as the file system the calls describe.  After any
    sequence of calls and a [Close] that succeeds, a reader of the format finds
    at every path exactly what was put there: the type, the twelve permission
    bits, the owner, the modification time (or the fixed one), the contents of
    a file, the target of a link, the device number, the sorted names of a
    directory; a hard link has all of its target; paths that were not created
    are not found.  The order in which the writer's map is visited does not
    matter, nor does the compressor as long as it is undone by its inverse.
    The image is taken to be below 2^48 bytes, the width of the references in
    it, and to hold fewer than 2^23 entries. *)
Theorem image_reads_back cfg w fs visits w2 cs :
  CompressorLaws (cfgCompressor cfg) -> reach cfg w fs -> Close cfg visits w = (Done tt, w2) ->
  (Z.of_nat (slen (wOut w2)) < 2 ^ 48)%Z -> (Z.of_nat (size fs) < 2 ^ 23)%Z -> Forall proper cs ->
  readPath (cfgCompressor cfg) (wOut w2) cs = viewOf cfg fs (absOf cs).
Proof.
  intros HC H. apply (closed_reads_back cfg w fs visits w2 cs HC); [by eapply reach_blockSize|by apply reach_represents].
Qed.

Definition exVisits : list string := ["/lib"; "/bin/bash"; "/"; "/bin"; "/bin/sh"; "/null"].
Definition exClosed : Writer := (Close exCfg exVisits exFilled).2.


Lemma image_reads_back_witness :
  readPath exCompressor (wOut exClosed) ["bin"; "bash"] = viewOf exCfg exFs "/bin/bash" /\
  viewOf exCfg exFs "/bin/bash" = Some (mkStat InodeBasicFile 2541 1000 7 99 (PFile "xx")).
Proof.
  split; [|vm_compute; reflexivity].
  refine (image_reads_back exCfg exFilled exFs exVisits exClosed ["bin"; "bash"] exCompressor_laws exReach _ _ _ _).
  - unfold exClosed. assert ((Close exCfg exVisits exFilled).1 = Done tt) as <- by (vm_compute; reflexivity).
    apply surjective_pairing.
  - apply Z.ltb_lt. vm_compute. reflexivity.
  - apply Z.ltb_lt. vm_compute. reflexivity.
  - repeat constructor; discriminate.
Defined.
