(* ===== verification/Rootfs.v ===== *)
(** * Rootfs: prepared root file systems ([internal/worker/image/rootfs]).

    A user image's flattened tar stream is written as a squashfs image with
    the worker's agent at [/.hpcc/agent], and kept in a cache directory under a
    name made from the image's digest.  [archive/tar] hands the code one header
    at a time and the contents in reads of any length: a stream is a list of
    members, each with the chunks its contents are read in.  Pulling and
    flattening an image (go-containerregistry) and zlib are parameters. *)

From S2P Require Import Prelude Effects GoStrings GoPath Store SquashMeta SquashCodec SquashWriter SquashReader SquashBuild SquashImage.

(** ** Names *)

Definition rootfsSuffix : string := ".sqsh".

Definition splitDigest (s : string) : option (string * string) :=
  if String.eqb s "" then None
  else match indexBy (Ascii.eqb ":"%char) s with
       | Some i => if (i =? 0) || (i =? slen s - 1) then None else Some (stake i s, sdrop (S i) s)
       | None => Some ("sha256", s)
       end.

Definition encodeRootfsName (userDigest : string) : result string :=
  match splitDigest userDigest with
  | Some (algo, hex) => Ok (algo +:+ "-" +:+ hex +:+ rootfsSuffix)
  | None => Err ("invalid user digest " +:+ userDigest)
  end.

Definition decodeRootfsName (name : string) : option string :=
  if negb (hasSuffix name rootfsSuffix) then None
  else
    let stem := trimSuffix name rootfsSuffix in
    match indexBy (Ascii.eqb "-"%char) stem with
    | None => None
    | Some dash => if (dash =? 0) || (dash =? slen stem - 1) then None
                   else Some (stake dash stem +:+ ":" +:+ sdrop (S dash) stem)
    end.

(** ** Tar streams *)

Record tarHeader := mkTarHeader {
  thName : string;
  thTypeflag : ascii;
  thLinkname : string;
  thMode : Z;
  thUid : Z;
  thGid : Z;
  thModTime : option Z;
  thDevmajor : Z;
  thDevminor : Z;
  thSize : Z
}.

(** A member: its header, the reads of its contents, and how they end ([None]
    is the end of the member). *)
Record tarMember := mkTarMember {
  tmHeader : tarHeader;
  tmChunks : list string;
  tmErr : option string
}.

(** A stream, and how it ends ([None] is [io.EOF]). *)
Record tarStream := mkTarStream {
  tsMembers : list tarMember;
  tsErr : option string
}.

Definition NUL : ascii := Ascii.zero.

(** [normalizeTarPath]: [None] is [ok = false]. *)
Definition normalizeTarPath (name : string) : option string :=
  if String.eqb name "" || containsByte name NUL then None
  else if String.eqb name "." || String.eqb name "/" || String.eqb name "./" then Some ""
  else
    let name := trimPrefix name "./" in
    if hasPrefix name "/" then None
    else
      let name := trimSuffix name "/" in
      if String.eqb name "" then None
      else if forallb (fun seg => negb (String.eqb seg "" || String.eqb seg "." || String.eqb seg "..")) (splitOn slash name)
      then Some ("/" +:+ name) else None.

Definition agentInstallDir : string := "/.hpcc".
Definition agentInstallPath : string := "/.hpcc/agent".
Definition standardMountpoints : list string := ["/proc"; "/sys"; "/dev"; "/tmp"; "/run"].

(** ** Building an image *)

(** The squashfs writer and the set of created paths. *)
Record buildState := mkBuildState {
  bsWriter : Writer;
  bsCreated : gset string
}.

Definition onWriter {A} (m : act Writer A) : act buildState A := fun s =>
  let '(o, w) := m (bsWriter s) in (o, mkBuildState w (bsCreated s)).

Definition markCreated (p : string) : act buildState unit :=
  modify (fun s => mkBuildState (bsWriter s) ({[p]} ∪ bsCreated s)).

(** [if !created[p] \{ ...; created[p] = true \}]. *)
Definition unlessCreated (p : string) (m : act buildState unit) : act buildState unit := fun s =>
  if bool_decide (p ∈ bsCreated s) then (Done tt, s) else (let* _ := m in markCreated p) s.

Section Build.
  Context (cfg : writerConfig Compressor).
  (* The caps are variables that only tests change. *)
  Context (maxTarTotalBytes maxTarEntryCount : Z).

Definition plainAttrs (p : string) (mode : Z) : Attrs := mkAttrs p mode 0 0 None.

(** The ancestors of a path from the shallowest on; a parent is shorter, so
    the length of the path is fuel enough. *)
Fixpoint ancestorsFrom (fuel : nat) (cur : string) (acc : list string) : list string :=
  match fuel with
  | 0 => acc
  | S k => if String.eqb cur "/" || String.eqb cur "." then acc else ancestorsFrom k (dir cur) (cur :: acc)
  end.

Definition ancestorsOf (p : string) : list string := ancestorsFrom (slen p) (dir p) [].

Fixpoint createDirs (ctx : string -> string) (mode : string -> Z) (ps : list string) : act buildState unit :=
  match ps with
  | [] => ret tt
  | p :: rest =>
      let* _ := unlessCreated p (wrapping (ctx p) (onWriter (CreateDir cfg (plainAttrs p (mode p))))) in
      createDirs ctx mode rest
  end.

Definition ensureAncestors (p : string) : act buildState unit :=
  createDirs (fun a => "create implicit ancestor " +:+ a +:+ " for " +:+ p) (fun _ => 493%Z) (ancestorsOf p).

Definition ensureStandardMountpoints : act buildState unit :=
  createDirs (fun p => "create " +:+ p) (fun p => if String.eqb p "/tmp" then 1023%Z else 493%Z) standardMountpoints.

(** [io.Copy(fw, io.LimitReader(tr, limit))]. *)
Fixpoint copyLimited (h : string) (limit : Z) (chunks : list string) (err : option string) (written : Z) : act Writer Z :=
  if (limit <=? 0)%Z then ret written
  else match chunks with
       | [] => match err with None => ret written | Some e => failure e end
       | c :: rest =>
           let c' := if (Z.of_nat (slen c) <=? limit)%Z then c else stake (Z.to_nat limit) c in
           let* _ := fileWrite cfg h c' in
           copyLimited h (limit - Z.of_nat (slen c')) rest err (written + Z.of_nat (slen c'))
       end.

Definition ErrTarTotalBytesExceeded : string := "rootfs: tar total bytes exceeded cap".
Definition ErrTarEntryCountExceeded : string := "rootfs: tar entry count exceeded cap".

Definition tarAttrs (p : string) (h : tarHeader) : Attrs :=
  mkAttrs p (Z.land (thMode h mod 2 ^ 32) 511) (thUid h mod 2 ^ 32) (thGid h mod 2 ^ 32) (thModTime h).

(** The types of members that become entries. *)
Inductive memberKind := MReg | MDir | MSymlink | MLink | MChar | MBlock | MFifo | MSkip.

Definition kindOf (flag : ascii) : memberKind :=
  if Ascii.eqb flag "0"%char || Ascii.eqb flag NUL then MReg
  else if Ascii.eqb flag "5"%char then MDir
  else if Ascii.eqb flag "2"%char then MSymlink
  else if Ascii.eqb flag "1"%char then MLink
  else if Ascii.eqb flag "3"%char then MChar
  else if Ascii.eqb flag "4"%char then MBlock
  else if Ascii.eqb flag "6"%char then MFifo
  else MSkip.

(** The switch of [streamTarToSquashfs]: the bytes copied, or [None] for a
    member that is skipped. *)
Definition createMember (p : string) (m : tarMember) (totalBytes : Z) : act Writer (option Z) :=
  let h := tmHeader m in
  let attrs := tarAttrs p h in
  match kindOf (thTypeflag h) with
  | MReg =>
      let* fw := wrapping ("create file " +:+ p) (CreateFile cfg attrs) in
      let remaining := (maxTarTotalBytes - totalBytes)%Z in
      let* n := wrapping ("write file " +:+ p) (copyLimited fw (remaining + 1) (tmChunks m) (tmErr m) 0) in
      if (remaining <? n)%Z then failure (ErrTarTotalBytesExceeded +:+ ": entry " +:+ p +:+ " exceeded remaining budget")
      else ret (Some n)
  | MDir => let* _ := wrapping ("create dir " +:+ p) (CreateDir cfg attrs) in ret (Some 0%Z)
  | MSymlink =>
      if String.eqb (thLinkname h) "" then failure ("symlink " +:+ p +:+ " has empty target")
      else let* _ := wrapping ("create symlink " +:+ p) (CreateSymlink cfg attrs (thLinkname h)) in ret (Some 0%Z)
  | MLink =>
      match normalizeTarPath (thLinkname h) with
      | None | Some "" => failure ("hardlink " +:+ p +:+ " has invalid target " +:+ thLinkname h)
      | Some target => let* _ := wrapping ("create hardlink " +:+ p +:+ " -> " +:+ target) (CreateHardlink cfg p target) in
                       ret (Some 0%Z)
      end
  | MChar => let* _ := wrapping ("create char device " +:+ p)
                         (CreateCharDevice cfg attrs (thDevmajor h mod 2 ^ 32) (thDevminor h mod 2 ^ 32)) in ret (Some 0%Z)
  | MBlock => let* _ := wrapping ("create block device " +:+ p)
                          (CreateBlockDevice cfg attrs (thDevmajor h mod 2 ^ 32) (thDevminor h mod 2 ^ 32)) in ret (Some 0%Z)
  | MFifo => let* _ := wrapping ("create fifo " +:+ p) (CreateFIFO cfg attrs) in ret (Some 0%Z)
  | MSkip => ret None
  end.

Definition underAgentDir (p : string) : bool := String.eqb p agentInstallDir || hasPrefix p (agentInstallDir +:+ "/").

(** One round of the loop: the new total. *)
Definition streamMember (m : tarMember) (entryCount totalBytes : Z) : act buildState Z := fun s =>
  let h := tmHeader m in
  if (maxTarEntryCount <? entryCount)%Z then failure ErrTarEntryCountExceeded s
  else if (0 <? thSize h)%Z && (maxTarTotalBytes - totalBytes <? thSize h)%Z then failure ErrTarTotalBytesExceeded s
  else match normalizeTarPath (thName h) with
       | None => failure ("rejected tar entry name " +:+ thName h) s
       | Some p =>
           if String.eqb p "" then ret totalBytes s
           else if underAgentDir p then ret totalBytes s
           else if bool_decide (p ∈ bsCreated s) then ret totalBytes s
           else (let* _ := ensureAncestors p in
                 let* r := onWriter (createMember p m totalBytes) in
                 match r with
                 | None => ret totalBytes
                 | Some n => let* _ := markCreated p in ret (totalBytes + n)%Z
                 end) s
       end.

Fixpoint streamMembers (ms : list tarMember) (err : option string) (entryCount totalBytes : Z) : act buildState unit :=
  match ms with
  | [] => match err with None => ret tt | Some e => failure ("read tar header: " +:+ e) end
  | m :: rest =>
      let* total := streamMember m (entryCount + 1) totalBytes in
      streamMembers rest err (entryCount + 1) total
  end.

Definition streamTarToSquashfs (t : tarStream) : act buildState unit := streamMembers (tsMembers t) (tsErr t) 0 0.

Definition injectAgentBinary (agentBin : string) : act buildState unit :=
  let* _ := unlessCreated agentInstallDir
              (wrapping ("create " +:+ agentInstallDir) (onWriter (CreateDir cfg (plainAttrs agentInstallDir 493)))) in
  let* fw := wrapping ("create " +:+ agentInstallPath) (onWriter (CreateFile cfg (plainAttrs agentInstallPath 493))) in
  let* _ := wrapping ("write " +:+ agentInstallPath) (onWriter (fileWrite cfg fw agentBin)) in
  markCreated agentInstallPath.

(** [buildSquashfs] after the output file is created. *)
Definition buildImage (visits : list string) (t : tarStream) (agentBin : string) : act buildState unit :=
  let* _ := wrapping "stream layer tar" (streamTarToSquashfs t) in
  let* _ := wrapping "inject agent" (injectAgentBinary agentBin) in
  let* _ := wrapping "create mountpoints" ensureStandardMountpoints in
  wrapping "seal squashfs" (onWriter (Close cfg visits)).
End Build.

(** ** The store *)

Record rootfsStore := mkRootfsStore {
  rfCacheDir : list string;
  rfLinuxAmd64 : string;
  rfLinuxArm64 : string
}.

(** [filepath.Join(s.CacheDir, name)]. *)
Definition cachePath (s : rootfsStore) (name : string) : path := comps (join [absOf (rfCacheDir s); name]).

(** [os.ReadDir] gives the files in the order of their names; it fails with
    another error than [os.ErrNotExist] when the path leads through a file. *)
Definition GetExistingImages (s : rootfsStore) (fs : FS) : result (list string) :=
  if existsb (fun q => bool_decide (is_Some (fsFiles fs !! q))) (pathPrefixes (rfCacheDir s)) then Err ("read cache dir " +:+ absOf (rfCacheDir s))
  else Ok (omap decodeRootfsName (sortStrings (map fst (dirFiles (rfCacheDir s) fs)))).

Definition PathFor (s : rootfsStore) (userDigest : string) : result string :=
  let! name := encodeRootfsName userDigest in Ok (join [absOf (rfCacheDir s); name]).

Definition UntagImage (s : rootfsStore) (userDigest : string) (fs : FS) : result unit * FS :=
  match encodeRootfsName userDigest with
  | Err e => (Err e, fs)
  | Ok name => (Ok tt, removeFile (cachePath s name) fs)
  end.

Section Pull.
  Context (maxTarTotalBytes maxTarEntryCount : Z).
  Context (deflate : string -> result string) (inflate : string -> option string).
  Context {Image : Type} (cranePull : string -> result Image) (digestOf : Image -> result string).
  Context (configOf : Image -> result (string * string)) (extract : Image -> tarStream).
  Context (readHost : string -> result string).

Definition loadAgentBinary (s : rootfsStore) (arch : string) : result string :=
  let! path := (if String.eqb arch "amd64" then Ok (rfLinuxAmd64 s)
                else if String.eqb arch "arm64" then Ok (rfLinuxArm64 s)
                else Err ("no hpcc-agent configured for linux/" +:+ arch)) in
  if String.eqb path "" then Err ("hpcc-agent path for linux/" +:+ arch +:+ " is not set")
  else wrapErr ("read hpcc-agent " +:+ path) (readHost path).

(** [buildSquashfs]: the image is left in the file whatever the outcome. *)
Definition buildSquashfs (visits : list string) (t : tarStream) (agentBin : string) (outPath : path) (now : Z) (fs : FS)
    : result unit * FS :=
  match writeFile outPath "" now fs with
  | Err e => (Err ("create rootfs image " +:+ absOf outPath +:+ ": " +:+ e), fs)
  | Ok fs1 =>
      match NewWriter [WithComp (Some (GzipCompressor deflate inflate))] with
      | Err e => (Err ("init squashfs writer: " +:+ e), fs1)
      | Ok (cfg, w) =>
          let '(o, s) := buildImage cfg maxTarTotalBytes maxTarEntryCount visits t agentBin (mkBuildState w ∅) in
          let fs2 := mkFS (fsDirs fs1) (<[outPath := (wOut (bsWriter s), now)]> (fsFiles fs1)) in
          (match o with Done _ => Ok tt | Failed e => Err e | Panicked => Err "panic" end, fs2)
      end
  end.

Definition PullImage (visits : list string) (s : rootfsStore) (imagePath expectedDigest : string) (now : Z) (fs : FS)
    : result unit * FS :=
  match encodeRootfsName expectedDigest with
  | Err e => (Err e, fs)
  | Ok finalName =>
      match mkdirAll (rfCacheDir s) fs with
      | Err e => (Err ("create cache dir " +:+ absOf (rfCacheDir s) +:+ ": " +:+ e), fs)
      | Ok fs1 =>
          let finalPath := cachePath s finalName in
          let tmpPath := cachePath s (finalName +:+ ".tmp") in
          let fs2 := removeFile tmpPath fs1 in
          match (let! img := wrapErr ("pull " +:+ imagePath) (cranePull imagePath) in
                 let! dgst := wrapErr "read pulled digest" (digestOf img) in
                 if negb (String.eqb dgst expectedDigest) then Err ("image digest mismatch: expected " +:+ expectedDigest +:+ ", got " +:+ dgst)
                 else let! c := wrapErr "read image config" (configOf img) in
                 if negb (String.eqb c.1 "linux") then Err ("rootfs store: image OS " +:+ c.1 +:+ " is not linux")
                 else let! agentBin := loadAgentBinary s c.2 in
                 Ok (img, agentBin)) with
          | Err e => (Err e, fs2)
          | Ok (img, agentBin) =>
              match buildSquashfs visits (extract img) agentBin tmpPath now fs2 with
              | (Err e, fs3) => (Err e, removeFile tmpPath fs3)
              | (Ok _, fs3) =>
                  match renameFile tmpPath finalPath fs3 with
                  | Err e => (Err ("publish rootfs " +:+ absOf finalPath +:+ ": " +:+ e), removeFile tmpPath fs3)
                  | Ok fs4 => (Ok tt, fs4)
                  end
              end
          end
      end
  end.
End Pull.

(** ** What an image holds *)

(** The file system a stream describes: the first member of a path counts,
    missing ancestors are added, nothing is taken below [/.hpcc]. *)
Definition addDir (mode : string -> Z) (fs : fsys) (p : string) : fsys :=
  if bool_decide (is_Some (fs !! p)) then fs else <[p := NDir (plainAttrs p (mode p))]> fs.

Definition memberNode (p : string) (m : tarMember) : option node :=
  let h := tmHeader m in
  match kindOf (thTypeflag h) with
  | MReg => Some (NFile (tarAttrs p h) (sconcat (tmChunks m)))
  | MDir => Some (NDir (tarAttrs p h))
  | MSymlink => Some (NSymlink (tarAttrs p h) (thLinkname h))
  | MLink => NLink <$> normalizeTarPath (thLinkname h)
  | MChar => Some (NChar (tarAttrs p h) (thDevmajor h mod 2 ^ 32) (thDevminor h mod 2 ^ 32))
  | MBlock => Some (NBlock (tarAttrs p h) (thDevmajor h mod 2 ^ 32) (thDevminor h mod 2 ^ 32))
  | MFifo => Some (NFIFO (tarAttrs p h))
  | MSkip => None
  end.

Definition addMember (fs : fsys) (m : tarMember) : fsys :=
  match normalizeTarPath (thName (tmHeader m)) with
  | None => fs
  | Some p =>
      if String.eqb p "" || underAgentDir p || bool_decide (is_Some (fs !! p)) then fs
      else let fs' := foldl (addDir (fun _ => 493%Z)) fs (ancestorsOf p) in
           match memberNode p m with Some n => <[p := n]> fs' | None => fs' end
  end.

Definition mountMode (p : string) : Z := if String.eqb p "/tmp" then 1023%Z else 493%Z.

Definition imageFs (t : tarStream) (agentBin : string) : fsys :=
  let fs := addDir (fun _ => 493%Z) (foldl addMember ∅ (tsMembers t)) agentInstallDir in
  foldl (addDir mountMode) (<[agentInstallPath := NFile (plainAttrs agentInstallPath 493) agentBin]> fs) standardMountpoints.

(** ** Paths *)

Lemma normalizeTarPath_spec name p : normalizeTarPath name = Some p -> p = "" \/ validPath p.
Proof.
  unfold normalizeTarPath. set (n := trimSuffix (trimPrefix name "./") "/"). intros H.
  destruct (_ || _); [done|]. destruct (_ || _); [left; by simplify_eq|]. destruct (hasPrefix _ "/"); [done|].
  destruct (String.eqb n ""); [done|]. destruct (forallb _ _) eqn:Eseg; [|done]. injection H as <-. right.
  exists (splitOn slash n). split; [apply splitOn_ne|]. split.
  - apply Forall_forall. intros seg Hseg. rewrite forallb_forall in Eseg. specialize (Eseg seg (proj1 (list_elem_of_In _ _) Hseg)).
    pose proof (splitOn_no_sep slash n) as Hno. rewrite Forall_forall in Hno. specialize (Hno seg Hseg).
    unfold proper. destruct (String.eqb_spec seg ""), (String.eqb_spec seg "."), (String.eqb_spec seg ".."); try done.
  - unfold absOf. by rewrite (joinWith_splitOn slash).
Qed.

(** The paths of the proper prefixes. *)
Definition prefixPaths (cs : list string) : list string := map (fun k => absOf (take k cs)) (seq 1 (length cs)).

Lemma prefixPaths_snoc cs c : prefixPaths (cs ++ [c]) = prefixPaths cs ++ [absOf (cs ++ [c])].
Proof.
  unfold prefixPaths. rewrite length_app, Nat.add_1_r, seq_S, map_app. f_equal.
  - apply map_ext_in. intros k Hk%in_seq. by rewrite take_app_le by lia.
  - cbn [map Nat.add]. by rewrite take_ge by (rewrite length_app; cbn; lia).
Qed.

Lemma ancestorsFrom_absOf cs : forall fuel acc,
  Forall proper cs -> length cs <= fuel -> ancestorsFrom fuel (absOf cs) acc = prefixPaths cs ++ acc.
Proof.
  induction cs as [|c cs IH] using rev_ind; intros fuel acc Hp Hf; [by destruct fuel|].
  rewrite length_app in Hf. cbn in Hf. destruct fuel as [|fuel]; [lia|]. cbn [ancestorsFrom].
  apply Forall_app in Hp as [Hcs Hc]. apply Forall_cons in Hc as [Hc _].
  assert (absOf (cs ++ [c]) <> "/") as Hne.
  { intros E. apply (absOf_inj _ []) in E; [by destruct cs|apply Forall_app; auto|constructor]. }
  apply String.eqb_neq in Hne as ->. cbn [orb]. rewrite (proj2 (String.eqb_neq _ "."));
    [|by intros E; apply (f_equal isAbs) in E; rewrite isAbs_absOf in E].
  rewrite dir_absOf_snoc, IH by (done || lia). by rewrite prefixPaths_snoc, <- app_assoc.
Qed.

Lemma ancestorsOf_absOf cs c : Forall proper (cs ++ [c]) -> ancestorsOf (absOf (cs ++ [c])) = prefixPaths cs.
Proof.
  intros Hp. pose proof (absOf_slen _ Hp) as Hl. rewrite length_app in Hl. apply Forall_app in Hp as [Hcs Hc].
  apply Forall_cons in Hc as [Hc _]. unfold ancestorsOf. rewrite dir_absOf_snoc, ancestorsFrom_absOf by (done || lia).
  apply app_nil_r.
Qed.

Lemma underAgentDir_absOf cs : Forall proper cs -> underAgentDir (absOf cs) = true <-> exists tr, cs = ".hpcc" :: tr.
Proof.
  intros Hp. unfold underAgentDir. rewrite orb_true_iff, String.eqb_eq. split.
  - intros H. apply (below_absOf [".hpcc"] cs); [by repeat constructor|done|]. exact H.
  - intros [[|c tr] ->]; [by left|]. right. apply (hasPrefix_app "/.hpcc/").
Qed.

(** The bytes of a regular file. *)
Definition contentLen (n : node) : nat := match n with NFile _ c => slen c | _ => 0 end.

Definition bytesOf (fs : fsys) : nat := map_fold (fun _ n acc => contentLen n + acc) 0 fs.

Lemma bytesOf_insert p n fs : fs !! p = None -> bytesOf (<[p := n]> fs) = contentLen n + bytesOf fs.
Proof. intros H. unfold bytesOf. rewrite map_fold_insert_L; [done|intros; lia|done]. Qed.

Lemma bytesOf_addDir mode fs p : bytesOf (addDir mode fs p) = bytesOf fs.
Proof.
  unfold addDir. case_bool_decide as E; [done|]. rewrite bytesOf_insert; [done|]. by apply eq_None_not_Some.
Qed.

Lemma addDir_lookup_ne mode fs p q : p <> q -> addDir mode fs p !! q = fs !! q.
Proof. intros H. unfold addDir. case_bool_decide; [done|]. by rewrite lookup_insert_ne. Qed.

Lemma addDir_mono mode fs p q n : fs !! q = Some n -> addDir mode fs p !! q = Some n.
Proof.
  intros H. unfold addDir. case_bool_decide as E; [done|]. rewrite lookup_insert_ne; [done|]. intros ->. by apply E.
Qed.

Lemma addDirs_bytes mode ps fs : bytesOf (foldl (addDir mode) fs ps) = bytesOf fs.
Proof. revert fs. induction ps as [|p ps IH]; intros fs; cbn; [done|]. by rewrite IH, bytesOf_addDir. Qed.

Lemma addDirs_lookup_ne mode ps fs q : q ∉ ps -> foldl (addDir mode) fs ps !! q = fs !! q.
Proof.
  revert fs. induction ps as [|p ps IH]; intros fs Hq; cbn; [done|]. apply not_elem_of_cons in Hq as [? ?].
  by rewrite IH, addDir_lookup_ne.
Qed.

Lemma addDirs_mono mode ps fs q n : fs !! q = Some n -> foldl (addDir mode) fs ps !! q = Some n.
Proof. revert fs. induction ps as [|p ps IH]; intros fs Hq; cbn; [done|]. by apply IH, addDir_mono. Qed.

Lemma addDirs_made mode ps fs q : q ∈ ps -> is_Some (foldl (addDir mode) fs ps !! q).
Proof.
  revert fs. induction ps as [|p ps IH]; intros fs Hq; cbn; [by apply elem_of_nil in Hq|].
  apply elem_of_cons in Hq as [->|Hq]; [|by apply IH]. assert (is_Some (addDir mode fs p !! p)) as [n Hn]; [|by eexists; apply addDirs_mono].
  unfold addDir. case_bool_decide; [done|]. by rewrite lookup_insert_eq.
Qed.

(** An ancestor is another path, and outside the agent's directory with it. *)
Lemma ancestor_spec p a : validPath p -> a ∈ ancestorsOf p -> a <> p /\ validPath a /\ (underAgentDir p = false -> underAgentDir a = false).
Proof.
  intros (cs & Hne & Hp & ->) Ha. destruct cs as [|c cs _] using rev_ind; [done|]. rewrite ancestorsOf_absOf in Ha by done.
  unfold prefixPaths in Ha. apply list_elem_of_In, in_map_iff in Ha as (k & <- & Hk%in_seq).
  assert (Forall proper (take k cs)) as Hk' by (apply Forall_app in Hp as [Hp _]; by apply Forall_take).
  split_and!.
  - intros E. apply absOf_inj in E; [|done..]. apply (f_equal length) in E. rewrite length_app, length_take in E. cbn in E. lia.
  - exists (take k cs). split_and!; [|done..]. destruct cs; [cbn in Hk; lia|]. by destruct k; [lia|].
  - intros Hu. destruct (underAgentDir (absOf (take k cs))) eqn:E; [|done]. apply underAgentDir_absOf in E as [tr E]; [|done].
    rewrite <- Hu. symmetry. apply underAgentDir_absOf; [done|]. exists (tr ++ drop k cs ++ [c]).
    by rewrite <- (take_drop k cs) at 1; rewrite E, <- app_assoc.
Qed.

Section BuildFacts.
  Context (cfg : writerConfig Compressor) `{!CompressorLaws (cfgCompressor cfg)}.
  Context (bsz : validBlockSize (cfgBlockSize cfg)).

(** The writer represents the file system, whose paths are the created ones. *)
Definition built (s : buildState) (fs : fsys) : Prop :=
  represents cfg (bsWriter s) fs /\ forall p, p ∈ bsCreated s <-> is_Some (fs !! p).

Lemma onWriter_Done {A} (m : act Writer A) s a s' :
  onWriter m s = (Done a, s') -> m (bsWriter s) = (Done a, bsWriter s') /\ bsCreated s' = bsCreated s.
Proof. unfold onWriter. destruct (m (bsWriter s)) as [o w]. intros H. by simplify_eq. Qed.

Lemma call_represents k w w' fs :
  wfCall k -> represents cfg w fs -> runCall cfg k w = (Done tt, w') -> represents cfg w' (applyCall k fs).
Proof. intros Hk Hr H. by apply (runCall_represents cfg bsz k w w' fs _ Hk Hr H). Qed.

Lemma plain_wf p mode : wfAttrs (plainAttrs p mode).
Proof. done. Qed.

Lemma addDir_built ctx mode p s s' fs :
  built s fs -> unlessCreated p (wrapping ctx (onWriter (CreateDir cfg (plainAttrs p (mode p))))) s = (Done tt, s') ->
  built s' (addDir mode fs p).
Proof.
  intros [Hr Hc] H. unfold unlessCreated in H. unfold addDir. rewrite (bool_decide_ext _ _ (Hc p)) in H.
  case_bool_decide as Ep; [by simplify_eq|]. apply bind_Done in H as ([] & s1 & H1 & H).
  apply wrapping_Done, onWriter_Done in H1 as [H1 Ec]. unfold markCreated, modify in H. simplify_eq. split; cbn.
  - by apply (call_represents (CallDir (plainAttrs p (mode p))) _ _ fs) in H1.
  - intros q. rewrite Ec, elem_of_union, elem_of_singleton, Hc, lookup_insert_is_Some. destruct (decide (q = p)); naive_solver.
Qed.

Lemma createDirs_built ctx mode ps : forall s s' fs,
  built s fs -> createDirs cfg ctx mode ps s = (Done tt, s') -> built s' (foldl (addDir mode) fs ps).
Proof.
  induction ps as [|p ps IH]; intros s s' fs Hb H; cbn [createDirs foldl] in *; [unfold ret in H; by simplify_eq|].
  apply bind_Done in H as ([] & s1 & H1 & H). apply (IH s1); [|done]. by eapply addDir_built.
Qed.

(** Copying through the limit. *)
Lemma alter_appendTo_app h a b (fs : fsys) : alter (appendTo b) h (alter (appendTo a) h fs) = alter (appendTo (a +:+ b)) h fs.
Proof.
  apply map_eq. intros q. rewrite !lookup_alter. case_decide; [|done]. subst q. rewrite decide_True by done.
  destruct (fs !! h) as [[]|]; cbn [fmap option_fmap option_map appendTo]; try done. by rewrite sapp_assoc.
Qed.

Lemma alter_appendTo_nil h (fs : fsys) : alter (appendTo "") h fs = fs.
Proof. apply alter_id. intros [] _; cbn; by rewrite ?sapp_nil_r. Qed.

Lemma copyLimited_represents h chunks err : forall limit written w w' fs n,
  represents cfg w fs -> copyLimited cfg h limit chunks err written w = (Done n, w') ->
  exists taken, represents cfg w' (alter (appendTo taken) h fs) /\ n = (written + Z.of_nat (slen taken))%Z /\
    ((n < written + limit)%Z -> taken = sconcat chunks /\ err = None).
Proof.
  induction chunks as [|c chunks IH]; intros limit written w w' fs n Hr H; cbn [copyLimited] in H;
    (destruct (Z.leb_spec limit 0);
      [unfold ret in H; simplify_eq; exists ""; rewrite alter_appendTo_nil; cbn; split_and!; [done|lia|lia]|]).
  { destruct err; [done|]. unfold ret in H. simplify_eq. exists "". rewrite alter_appendTo_nil. cbn. split_and!; [done|lia|done]. }
  apply bind_Done in H as (k & w1 & H1 & H). apply (fileWrite_represents cfg bsz) with (fs := fs) in H1 as [H1 _]; [|done].
  apply (IH _ _ _ _ _ _ H1) in H as (taken & Hr' & -> & Hall). rewrite alter_appendTo_app in Hr'.
  eexists. split; [exact Hr'|]. rewrite slen_app. split; [lia|]. intros Hlt. destruct Hall as [-> ->]; [lia|]. split; [|done].
  cbn [sconcat]. destruct (Z.leb_spec (Z.of_nat (slen c)) limit); [done|]. rewrite slen_stake in Hlt by lia. lia.
Qed.

Lemma uint4_mod z : uint 4 (z mod 2 ^ 32).
Proof. unfold uint. apply Z.mod_pos_bound. lia. Qed.

Lemma tar_wf p h : wfAttrs (tarAttrs p h).
Proof. split; apply uint4_mod. Qed.

(** A call that makes the entry of a member without contents. *)
Lemma member_call k ctx w w' fs p nd r :
  (let* _ := wrapping ctx (runCall cfg k) in ret (Some 0%Z)) w = (Done r, w') ->
  represents cfg w fs -> applyCall k fs = <[p := nd]> fs -> wfCall k ->
  r = Some 0%Z /\ represents cfg w' (<[p := nd]> fs).
Proof.
  intros H Hr Ek Hk. apply bind_Done in H as ([] & w1 & H1 & H). apply wrapping_Done in H1. unfold ret in H. simplify_eq.
  split; [done|]. rewrite <- Ek. by apply (call_represents k w).
Qed.

(** A regular file is copied whole, or not at all within the budget. *)
Lemma member_file p a m remaining w w' fs n :
  aPath a = p -> wfAttrs a -> represents cfg w fs ->
  (let* fw := wrapping ("create file " +:+ p) (CreateFile cfg a) in
   wrapping ("write file " +:+ p) (copyLimited cfg fw (remaining + 1) (tmChunks m) (tmErr m) 0)) w = (Done n, w') ->
  (n <= remaining)%Z ->
  represents cfg w' (<[p := NFile a (sconcat (tmChunks m))]> fs) /\ n = Z.of_nat (slen (sconcat (tmChunks m))).
Proof.
  intros Ea Ha Hr H Hn. apply bind_Done in H as (fw & w1 & H1 & H2). apply wrapping_Done in H1, H2.
  assert (fw = p) as ->.
  { rewrite CreateFile_begin in H1. apply bind_Done in H1 as ([] & w3 & _ & H1).
    apply bind_Done in H1 as ([] & w4 & _ & H1). unfold ret in H1. congruence. }
  assert (represents cfg w1 (<[p := NFile a ""]> fs)) as Hr1.
  { rewrite <- Ea. apply (call_represents (CallFile a) w); [done|done|]. cbn [runCall]. unfold bind at 1. by rewrite H1. }
  apply (copyLimited_represents p _ _ _ _ _ _ _ _ Hr1) in H2 as (taken & Hr2 & -> & Hall).
  destruct Hall as [-> _]; [lia|]. rewrite alter_insert_eq in Hr2. split; [exact Hr2|lia].
Qed.

(** The switch: a member that is not skipped is an entry, and the bytes
    counted are those of its contents. *)
Lemma createMember_built maxBytes p m total w w' fs r :
  represents cfg w fs -> createMember cfg maxBytes p m total w = (Done r, w') ->
  match r with
  | None => memberNode p m = None /\ w' = w
  | Some n => exists nd, memberNode p m = Some nd /\ represents cfg w' (<[p := nd]> fs) /\
      n = Z.of_nat (contentLen nd) /\ (n = 0 \/ total + n <= maxBytes)%Z
  end.
Proof.
  intros Hr H. unfold createMember in H. unfold memberNode. pose proof (tar_wf p (tmHeader m)) as Hwf.
  assert (forall k ctx nd, (let* _ := wrapping ctx (runCall cfg k) in ret (Some 0%Z)) w = (Done r, w') ->
    applyCall k fs = <[p := nd]> fs -> wfCall k -> contentLen nd = 0 ->
    match r with
    | None => Some nd = None /\ w' = w
    | Some n => exists nd', Some nd = Some nd' /\ represents cfg w' (<[p := nd']> fs) /\
        n = Z.of_nat (contentLen nd') /\ (n = 0 \/ total + n <= maxBytes)%Z
    end) as entry.
  { intros k ctx nd Hk Ek Hk' E0. apply (member_call k ctx w w' fs p nd) in Hk as [-> Hr']; [|done..].
    exists nd. rewrite E0. split_and!; auto. }
  destruct (kindOf (thTypeflag (tmHeader m))) eqn:Ek.
  - rewrite <- bind_assoc in H.
    apply bind_Done in H as (n & w1 & H1 & H). destruct (Z.ltb_spec (maxBytes - total) n); [done|].
    apply (member_file p _ _ _ _ _ fs) in H1 as [Hr1 ->]; [|done..]. unfold ret in H. simplify_eq.
    eexists. split; [done|]. split; [done|]. split; [done|]. lia.
  - by apply (entry (CallDir _) _ _ H).
  - destruct (String.eqb_spec (thLinkname (tmHeader m)) ""); [done|]. by apply (entry (CallSymlink _ _) _ _ H).
  - destruct (normalizeTarPath (thLinkname (tmHeader m))) as [[|c t]|]; [done| |done]. by apply (entry (CallHardlink _ _) _ _ H).
  - apply (entry (CallChar _ _ _) _ _ H); [done| |done]. split_and!; by try apply uint4_mod.
  - apply (entry (CallBlock _ _ _) _ _ H); [done| |done]. split_and!; by try apply uint4_mod.
  - by apply (entry (CallFIFO _) _ _ H).
  - unfold ret in H. by simplify_eq.
Qed.

(** A round of the loop. *)
Lemma streamMember_built maxBytes maxCount m count total s s' fs total' :
  built s fs -> bytesOf fs = Z.to_nat total -> (0 <= total <= maxBytes)%Z ->
  streamMember cfg maxBytes maxCount m count total s = (Done total', s') ->
  built s' (addMember fs m) /\ bytesOf (addMember fs m) = Z.to_nat total' /\ (0 <= total' <= maxBytes)%Z /\ (count <= maxCount)%Z.
Proof.
  intros Hb Ht Hm H. unfold streamMember in H. unfold addMember. destruct (Z.ltb_spec maxCount count); [done|].
  destruct ((_ && _)%bool); [done|]. destruct (normalizeTarPath (thName (tmHeader m))) as [p|] eqn:Ep; [|done].
  destruct (String.eqb_spec p "") as [|Hne]; [unfold ret in H; by simplify_eq|]. cbn [orb].
  destruct (underAgentDir p) eqn:Eu; [unfold ret in H; by simplify_eq|]. cbn [orb].
  rewrite (bool_decide_ext _ _ (proj2 Hb p)) in H. case_bool_decide as Ex; [unfold ret in H; by simplify_eq|].
  apply normalizeTarPath_spec in Ep as [|Hv]; [done|].
  apply bind_Done in H as ([] & s1 & H1 & H). apply (createDirs_built _ _ _ _ _ fs) in H1 as Hb1; [|done].
  set (fs' := foldl _ fs _) in *. assert (fs' !! p = None) as Hp.
  { unfold fs'. rewrite addDirs_lookup_ne; [by apply eq_None_not_Some|]. intros Ha. by apply ancestor_spec in Ha as [? _]. }
  assert (bytesOf fs' = bytesOf fs) as Hbytes by apply addDirs_bytes.
  apply bind_Done in H as (r & s2 & H2 & H). apply onWriter_Done in H2 as [H2 Ec].
  apply (createMember_built _ _ _ _ _ _ fs' _ (proj1 Hb1)) in H2. destruct r as [n|].
  - destruct H2 as (nd & -> & Hr & -> & Hle). apply bind_Done in H as ([] & s3 & H3 & H). unfold markCreated, modify in H3.
    unfold ret in H. simplify_eq. rewrite bytesOf_insert by done. split_and!; [|lia..]. split; [done|]. cbn. intros q.
    rewrite Ec, elem_of_union, elem_of_singleton, (proj2 Hb1), lookup_insert_is_Some. destruct (decide (q = p)); naive_solver.
  - destruct H2 as [-> E]. unfold ret in H. simplify_eq. split_and!; [|lia..].
    split; [rewrite E; apply Hb1|]. rewrite Ec. apply Hb1.
Qed.

Lemma streamMembers_built maxBytes maxCount ms err : forall count total s s' fs,
  built s fs -> bytesOf fs = Z.to_nat total -> (0 <= total <= maxBytes)%Z ->
  streamMembers cfg maxBytes maxCount ms err count total s = (Done tt, s') ->
  built s' (foldl addMember fs ms) /\ (Z.of_nat (bytesOf (foldl addMember fs ms)) <= maxBytes)%Z /\
  (ms <> [] -> (count + Z.of_nat (length ms) <= maxCount)%Z) /\ err = None.
Proof.
  induction ms as [|m ms IH]; intros count total s s' fs Hb Ht Hm H; cbn [streamMembers foldl] in *.
  { destruct err; [done|]. unfold ret in H. simplify_eq. split_and!; [done|lia|done|done]. }
  apply bind_Done in H as (total' & s1 & H1 & H).
  apply (streamMember_built _ _ _ _ _ _ _ fs) in H1 as (Hb1 & Ht1 & Hm1 & Hc); [|done..].
  apply (IH _ _ _ _ _ Hb1 Ht1 Hm1) in H as (Hb' & Hbytes & Hlen & ->). split_and!; [done..| |done].
  intros _. cbn [length]. destruct ms; [cbn; lia|]. specialize (Hlen ltac:(done)). cbn in Hlen |- *. lia.
Qed.
End BuildFacts.

(** Nothing is taken below the agent's directory. *)
Lemma addMember_agent fs m q : underAgentDir q = true -> addMember fs m !! q = fs !! q.
Proof.
  intros Hq. unfold addMember. destruct (normalizeTarPath _) as [p|] eqn:Ep; [|done].
  destruct (String.eqb_spec p "") as [|Hne]; [done|]. destruct (underAgentDir p) eqn:Eu; [done|]. cbn [orb].
  case_bool_decide; [done|]. apply normalizeTarPath_spec in Ep as [|Hv]; [done|].
  assert (q ∉ ancestorsOf p) as Ha by (intros Ha; apply ancestor_spec in Ha as (_ & _ & Ha); [|done]; by rewrite Ha in Hq).
  assert (p <> q) as Hpq by (intros ->; congruence).
  destruct (memberNode p m); [rewrite lookup_insert_ne by done|]; by apply addDirs_lookup_ne.
Qed.

Lemma addMembers_agent ms q : underAgentDir q = true -> forall fs, foldl addMember fs ms !! q = fs !! q.
Proof. intros Hq. induction ms as [|m ms IH]; intros fs; cbn; [done|]. by rewrite IH, addMember_agent. Qed.

Lemma mountpoints_agent q : underAgentDir q = true -> q ∉ standardMountpoints.
Proof.
  intros Hq H. unfold standardMountpoints in H.
  repeat (apply elem_of_cons in H as [->|H]; [done|]). by apply elem_of_nil in H.
Qed.

(** The agent's part of an image. *)
Lemma imageFs_agent t agentBin q : underAgentDir q = true ->
  imageFs t agentBin !! q =
  if String.eqb q agentInstallPath then Some (NFile (plainAttrs q 493) agentBin)
  else if String.eqb q agentInstallDir then Some (NDir (plainAttrs q 493)) else None.
Proof.
  intros Hq. unfold imageFs. rewrite addDirs_lookup_ne by by apply mountpoints_agent.
  destruct (String.eqb_spec q agentInstallPath) as [->|H1]; [by rewrite lookup_insert_eq|]. rewrite lookup_insert_ne by done.
  assert (foldl addMember ∅ (tsMembers t) !! q = None) as Hn by by rewrite addMembers_agent.
  destruct (String.eqb_spec q agentInstallDir) as [->|H2]; [|by rewrite addDir_lookup_ne].
  unfold addDir. rewrite Hn, bool_decide_eq_false_2 by by intros []. by rewrite lookup_insert_eq.
Qed.

Lemma imageFs_mountpoint t agentBin p : p ∈ standardMountpoints -> is_Some (imageFs t agentBin !! p).
Proof. apply addDirs_made. Qed.

Lemma imageFs_bytes t agentBin :
  bytesOf (imageFs t agentBin) = slen agentBin + bytesOf (foldl addMember ∅ (tsMembers t)).
Proof.
  unfold imageFs. rewrite addDirs_bytes, bytesOf_insert; [by rewrite bytesOf_addDir|].
  rewrite addDir_lookup_ne by done. by rewrite addMembers_agent.
Qed.

Section BuildImage.
  Context (cfg : writerConfig Compressor) `{!CompressorLaws (cfgCompressor cfg)}.
  Context (bsz : validBlockSize (cfgBlockSize cfg)).

Lemma injectAgentBinary_built agentBin s s' fs :
  built cfg s fs -> injectAgentBinary cfg agentBin s = (Done tt, s') ->
  built cfg s' (<[agentInstallPath := NFile (plainAttrs agentInstallPath 493) agentBin]> (addDir (fun _ => 493%Z) fs agentInstallDir)).
Proof.
  intros Hb H. unfold injectAgentBinary in H. apply bind_Done in H as ([] & s1 & H1 & H).
  apply (addDir_built cfg bsz _ (fun _ => 493%Z) _ _ _ _ Hb) in H1 as [Hr1 Hc1].
  apply bind_Done in H as (fw & s2 & H2 & H). apply wrapping_Done, onWriter_Done in H2 as [H2 E2].
  apply bind_Done in H as (n & s3 & H3 & H). apply wrapping_Done, onWriter_Done in H3 as [H3 E3].
  unfold markCreated, modify in H. simplify_eq.
  destruct (member_file cfg bsz agentInstallPath (plainAttrs agentInstallPath 493)
    (mkTarMember (mkTarHeader "" NUL "" 0 0 0 None 0 0 0) [agentBin] None) (Z.of_nat (slen agentBin))
    (bsWriter s1) (bsWriter s3) (addDir (fun _ => 493%Z) fs agentInstallDir) (Z.of_nat (slen agentBin))) as [Hr _]; try done.
  - unfold bind, wrapping. rewrite H2. cbn [copyLimited tmChunks tmErr].
    rewrite (proj2 (Z.leb_gt _ 0)) by lia. rewrite (proj2 (Z.leb_le _ _)) by lia. unfold bind. rewrite H3.
    rewrite (proj2 (Z.leb_gt _ 0)) by lia. done.
  - cbn [tmChunks sconcat] in Hr. rewrite sapp_nil_r in Hr. split; [exact Hr|]. cbn. intros q.
    rewrite E3, E2, elem_of_union, elem_of_singleton, Hc1, lookup_insert_is_Some. destruct (decide (q = agentInstallPath)); naive_solver.
Qed.

(** A build that succeeds seals the file system of the stream. *)
Lemma buildImage_built maxBytes maxCount visits t agentBin w0 s' :
  (0 <= maxBytes)%Z -> represents cfg w0 ∅ ->
  buildImage cfg maxBytes maxCount visits t agentBin (mkBuildState w0 ∅) = (Done tt, s') ->
  exists w, represents cfg w (imageFs t agentBin) /\ Close cfg visits w = (Done tt, bsWriter s') /\
    (Z.of_nat (bytesOf (imageFs t agentBin)) <= maxBytes + Z.of_nat (slen agentBin))%Z /\
    (Z.of_nat (length (tsMembers t)) <= Z.max 0 maxCount)%Z /\ tsErr t = None.
Proof.
  intros Hm Hw0 H. unfold buildImage in H. apply bind_Done in H as ([] & s1 & H1 & H). apply wrapping_Done in H1.
  apply (streamMembers_built cfg bsz maxBytes maxCount _ _ _ _ _ _ ∅) in H1 as (Hb1 & Hbytes & Hlen & Herr); [|split; [done|]|done|lia].
  2: { intros p. rewrite lookup_empty. cbn. split; [set_solver|by intros []]. }
  apply bind_Done in H as ([] & s2 & H2 & H). apply wrapping_Done, (injectAgentBinary_built _ _ _ _ Hb1) in H2.
  apply bind_Done in H as ([] & s3 & H3 & H). apply wrapping_Done, (createDirs_built cfg bsz _ mountMode _ _ _ _ H2) in H3.
  apply wrapping_Done, onWriter_Done in H as [H _]. exists (bsWriter s3). split_and!; [apply H3|done| |destruct (tsMembers t); [cbn; lia|]|done].
  - rewrite imageFs_bytes. lia.
  - specialize (Hlen ltac:(done)). lia.
Qed.
End BuildImage.

(** ** Names: facts *)

Lemma indexBy_mid c a b : containsByte a c = false -> indexBy (Ascii.eqb c) (a +:+ String c b) = Some (slen a).
Proof.
  induction a as [|x a IH]; cbn; [by rewrite Ascii.eqb_refl|]. intros [E H]%orb_false_iff.
  rewrite Ascii.eqb_sym, E. change (String.append a) with (fun t => a +:+ t). cbn beta. by rewrite (IH H).
Qed.

Lemma indexBy_split c s i : indexBy (Ascii.eqb c) s = Some i ->
  s = stake i s +:+ String c (sdrop (S i) s) /\ containsByte (stake i s) c = false /\ slen (stake i s) = i.
Proof.
  revert i. induction s as [|x s IH]; intros i; cbn [indexBy]; [done|].
  destruct (Ascii.eqb_spec c x) as [->|Hne]; [intros [= <-]; by split_and!; [destruct s| |]|].
  destruct (indexBy _ s) as [j|]; [|done]. intros [= <-]. destruct (IH j eq_refl) as (E & Hc & Hl).
  cbn [stake]. split_and!; [|cbn [containsByte]; rewrite Hc, orb_false_r; by apply Ascii.eqb_neq|cbn; by rewrite Hl].
  change (String x (stake j s) +:+ String c (sdrop (S (S j)) (String x s)))
    with (String x (stake j s +:+ String c (sdrop (S j) s))). by rewrite <- E.
Qed.

(** A digest as registries write it: an algorithm and its value. *)
Definition wfDigest (algo hex : string) : Prop :=
  algo <> "" /\ hex <> "" /\ containsByte algo "-" = false /\ containsByte algo ":" = false /\ containsByte algo slash = false /\
  containsByte hex ":" = false /\ containsByte hex slash = false.

Definition digestString (algo hex : string) : string := algo +:+ ":" +:+ hex.
Definition rootfsName (algo hex : string) : string := algo +:+ "-" +:+ hex +:+ rootfsSuffix.

(** The shape of the names that are listed. *)
Lemma decodeRootfsName_spec name d :
  decodeRootfsName name = Some d <->
  exists a b, name = rootfsName a b /\ a <> "" /\ b <> "" /\ containsByte a "-" = false /\ d = digestString a b.
Proof.
  unfold decodeRootfsName, trimSuffix. split.
  - destruct (hasSuffix name rootfsSuffix) eqn:Hs; [|done]. cbn [negb]. unfold hasSuffix in Hs.
    apply andb_true_iff in Hs as [Hl%Nat.leb_le Hs%String.eqb_eq]. set (stem := stake _ name) in *.
    destruct (indexBy _ stem) as [i|] eqn:Ei; [|done]. apply indexBy_split in Ei as (E & Hc & Hi).
    destruct (Nat.eqb_spec i 0); [done|]. destruct (Nat.eqb_spec i (slen stem - 1)) as [|Hn]; [done|]. cbn [orb]. intros [= <-].
    exists (stake i stem), (sdrop (S i) stem). split_and!; try done.
    + rewrite <- (stake_sdrop (slen name - slen rootfsSuffix) name), Hs. fold stem. rewrite E at 1. unfold rootfsName. by rewrite sapp_assoc.
    + intros E0. rewrite E0 in Hi. by cbn in Hi.
    + intros E0. rewrite E0 in E. apply (f_equal slen) in E. rewrite slen_app in E. cbn in E. lia.
  - intros (a & b & -> & Ha & Hb & Hc & ->). unfold rootfsName.
    rewrite <- (sapp_assoc "-" b), <- sapp_assoc. set (stem := a +:+ "-" +:+ b).
    assert (hasSuffix (stem +:+ rootfsSuffix) rootfsSuffix = true) as ->.
    { unfold hasSuffix. rewrite slen_app. apply andb_true_iff. split; [apply Nat.leb_le; lia|]. rewrite Nat.add_sub, sdrop_app. done. }
    cbn [negb]. rewrite slen_app, Nat.add_sub, stake_app. unfold stem. change ("-" +:+ b) with (String "-" b). rewrite indexBy_mid by done.
    destruct (Nat.eqb_spec (slen a) 0) as [E|_]; [by apply slen_0 in E|].
    destruct (Nat.eqb_spec (slen a) (slen (a +:+ String "-" b) - 1)) as [E|_].
    { rewrite slen_app in E. cbn in E. destruct b; [done|]. cbn in E. lia. }
    cbn [orb]. rewrite stake_app. replace (S (slen a)) with (slen (a +:+ "-")) by (rewrite slen_app; cbn; lia).
    change (String "-" b) with ("-" +:+ b). by rewrite <- (sapp_assoc a "-" b), sdrop_app.
Qed.

Lemma encodeRootfsName_digest algo hex : wfDigest algo hex -> encodeRootfsName (digestString algo hex) = Ok (rootfsName algo hex).
Proof.
  intros (Ha & Hh & _ & Hc & _). unfold encodeRootfsName, splitDigest, digestString.
  destruct (String.eqb_spec (algo +:+ ":" +:+ hex) "") as [E|_]; [by destruct algo|].
  change (":" +:+ hex) with (String ":" hex). rewrite indexBy_mid by done.
  destruct (Nat.eqb_spec (slen algo) 0) as [E|_]; [by apply slen_0 in E|].
  destruct (Nat.eqb_spec (slen algo) (slen (algo +:+ String ":" hex) - 1)) as [E|_].
  { rewrite slen_app in E. cbn in E. destruct hex; [done|]. cbn in E. lia. }
  cbn [orb]. rewrite stake_app. replace (S (slen algo)) with (slen (algo +:+ ":")) by (rewrite slen_app; cbn; lia).
  change (String ":" hex) with (":" +:+ hex). by rewrite <- (sapp_assoc algo ":" hex), sdrop_app.
Qed.

(** Only one name stands for a digest. *)
Lemma decodeRootfsName_digest algo hex name : wfDigest algo hex ->
  decodeRootfsName name = Some (digestString algo hex) <-> name = rootfsName algo hex.
Proof.
  intros (Ha & Hh & Hd & Hc & _ & Hhc & _). rewrite decodeRootfsName_spec. split.
  - intros (a & b & -> & _ & _ & _ & E). unfold digestString in E.
    change (":" +:+ hex) with (String ":" hex) in E. change (":" +:+ b) with (String ":" b) in E.
    apply (f_equal (splitOn ":"%char)) in E. rewrite !splitOn_cons_app, (splitOn_word _ algo), (splitOn_word _ hex) in E by done.
    pose proof (splitOn_ne ":"%char a) as Na. pose proof (splitOn_ne ":"%char b) as Nb.
    pose proof (joinWith_splitOn ":"%char a) as Ja. pose proof (joinWith_splitOn ":"%char b) as Jb.
    destruct (splitOn ":"%char a) as [|x [|y l]], (splitOn ":"%char b) as [|x' l']; try done; cbn in E; [|by destruct l].
    cbn in Ja, Jb. by simplify_eq.
  - intros ->. exists algo, hex. split_and!; done.
Qed.

(** ** The store: facts *)

Lemma containsByte_rootfsName a b c : containsByte (rootfsName a b) c = containsByte a c || containsByte ("-" +:+ b +:+ rootfsSuffix) c.
Proof. apply containsByte_app. Qed.

Lemma proper_rootfsName algo hex t : wfDigest algo hex -> containsByte t slash = false -> proper (rootfsName algo hex +:+ t).
Proof.
  intros (Ha & _ & _ & _ & Hs & _ & Hh) Ht. unfold proper, rootfsName.
  assert (forall q, slen q < 4 -> (algo +:+ "-" +:+ hex +:+ rootfsSuffix) +:+ t <> q) as H.
  { intros q Hq E. apply (f_equal slen) in E. rewrite !slen_app in E. cbn in E. lia. }
  split_and!; [apply H; cbn; lia..|]. by rewrite !containsByte_app, Hs, Hh, Ht.
Qed.

Lemma cachePath_name s name : Forall proper (rfCacheDir s) -> proper name -> cachePath s name = rfCacheDir s ++ [name].
Proof.
  intros Hd Hn. unfold cachePath. pose proof (proper_rel_join (rfCacheDir s) [name]) as E. cbn [joinWith] in E.
  rewrite E by (try apply Forall_cons; done). apply comps_absOf, Forall_app. auto.
Qed.

Lemma rootfsName_path s algo hex t : Forall proper (rfCacheDir s) -> wfDigest algo hex -> containsByte t slash = false ->
  cachePath s (rootfsName algo hex +:+ t) = rfCacheDir s ++ [rootfsName algo hex +:+ t].
Proof. intros Hd Hw Ht. by apply cachePath_name, proper_rootfsName. Qed.

Lemma decode_tmp a b : decodeRootfsName (rootfsName a b +:+ ".tmp") = None.
Proof.
  unfold decodeRootfsName, hasSuffix, rootfsName. rewrite <- !sapp_assoc. set (x := (a +:+ "-") +:+ b).
  rewrite sapp_assoc, slen_app. change (slen (rootfsSuffix +:+ ".tmp")) with 9. change (slen rootfsSuffix) with 5.
  replace (slen x + 9 - 5) with (slen x + 4) by lia. rewrite sdrop_app_plus, andb_false_r. done.
Qed.

(** What is listed. *)
Lemma GetExistingImages_spec s fs l x : GetExistingImages s fs = Ok l ->
  x ∈ l <-> exists n v, fsFiles fs !! (rfCacheDir s ++ [n]) = Some v /\ decodeRootfsName n = Some x.
Proof.
  unfold GetExistingImages. case_match; [done|]. intros [= <-]. rewrite list_elem_of_omap. split.
  - intros (n & Hn & Hd). rewrite sortStrings_Permutation in Hn. apply list_elem_of_fmap in Hn as ([n' v] & -> & Hn).
    apply (proj2 (dirFiles_spec _ fs)) in Hn. by exists n', v.
  - intros (n & v & Hv & Hd). exists n. split; [|done]. rewrite sortStrings_Permutation.
    apply list_elem_of_fmap. exists (n, v). split; [done|]. by apply dirFiles_spec.
Qed.

(** The directory can still be listed after changes to its files. *)
Lemma GetExistingImages_keeps s fs fs' l :
  (forall p, (forall n, p <> rfCacheDir s ++ [n]) -> fsFiles fs' !! p = fsFiles fs !! p) ->
  GetExistingImages s fs = Ok l -> exists l', GetExistingImages s fs' = Ok l'.
Proof.
  intros Hout H. unfold GetExistingImages in *. destruct (existsb _ _) eqn:E in H; [done|].
  destruct (existsb _ _) eqn:E' in |- *; [|by eexists]. apply existsb_exists in E' as (q & Hq & E').
  rewrite <- not_true_iff_false in E. destruct E. apply existsb_exists. exists q. split; [done|]. rewrite <- Hout; [done|].
  intros n ->. apply list_elem_of_In, pathPrefixes_spec in Hq as [r Hq]. apply (f_equal length) in Hq.
  rewrite !length_app in Hq. cbn in Hq. lia.
Qed.

(** The listing after changes to the file of one digest. *)
Lemma listed_digest s fs l name digest : (forall n, decodeRootfsName n = Some digest <-> n = name) ->
  GetExistingImages s fs = Ok l -> digest ∈ l <-> is_Some (fsFiles fs !! (rfCacheDir s ++ [name])).
Proof.
  intros Hn Hl. rewrite (GetExistingImages_spec _ _ _ _ Hl). split.
  - intros (n & v & Hv & Hd%Hn). subst n. by eexists.
  - intros [v Hv]. exists name, v. split; [done|by apply Hn].
Qed.

Lemma listing_change s fs fs' l name digest : (forall n, decodeRootfsName n = Some digest <-> n = name) ->
  GetExistingImages s fs = Ok l ->
  (forall p, (forall n, p <> rfCacheDir s ++ [n]) -> fsFiles fs' !! p = fsFiles fs !! p) ->
  (forall n x, decodeRootfsName n = Some x -> n <> name ->
     fsFiles fs' !! (rfCacheDir s ++ [n]) = fsFiles fs !! (rfCacheDir s ++ [n])) ->
  exists l', GetExistingImages s fs' = Ok l' /\
    forall x, x ∈ l' <-> if decide (x = digest) then is_Some (fsFiles fs' !! (rfCacheDir s ++ [name])) else x ∈ l.
Proof.
  intros Hn Hl Hout Hin. destruct (GetExistingImages_keeps s fs fs' l Hout Hl) as [l' Hl']. exists l'. split; [done|]. intros x.
  case_decide as Ex; [subst x; by apply listed_digest|].
  rewrite (GetExistingImages_spec _ _ _ _ Hl'), (GetExistingImages_spec _ _ _ _ Hl).
  assert (forall n, decodeRootfsName n = Some x -> n <> name) as Hne by (intros n Hx ->; rewrite (proj2 (Hn name) eq_refl) in Hx; congruence).
  split; intros (n & v & Hv & Hx); exists n, v; (split; [|done]).
  - by rewrite <- (Hin n x) by eauto.
  - by rewrite (Hin n x) by eauto.
Qed.

Section PullFacts.
  Context (maxTarTotalBytes maxTarEntryCount : Z).
  Context (deflate : string -> result string) (inflate : string -> option string).
  Context {Image : Type} (cranePull : string -> result Image) (digestOf : Image -> result string).
  Context (configOf : Image -> result (string * string)) (extract : Image -> tarStream).
  Context (readHost : string -> result string).
  #[local] Notation Pull := (PullImage maxTarTotalBytes maxTarEntryCount deflate inflate cranePull digestOf configOf extract readHost).
  #[local] Notation build := (buildSquashfs maxTarTotalBytes maxTarEntryCount deflate inflate).

Definition rootfsConfig : writerConfig Compressor := mkWriterConfig DefaultBlockSize (GzipCompressor deflate inflate) None.

Lemma rootfs_writer :
  NewWriter [WithComp (Some (GzipCompressor deflate inflate))] =
  Ok (rootfsConfig, mkWriter (zeros superblockSize) false false 96 ∅ [] None newIDTable).
Proof. reflexivity. Qed.

Lemma buildSquashfs_files visits t agentBin out now fs r fs' p :
  build visits t agentBin out now fs = (r, fs') -> p <> out -> fsFiles fs' !! p = fsFiles fs !! p.
Proof.
  unfold buildSquashfs. intros H Hp. destruct (writeFile out "" now fs) as [fs1|e] eqn:Ew; [|by simplify_eq].
  unfold writeFile in Ew. repeat case_match; simplify_eq; cbn; by rewrite ?lookup_insert_ne.
Qed.

(** A build that succeeds leaves the sealed image in the file. *)
Lemma buildSquashfs_Ok visits t agentBin out now fs fs' :
  build visits t agentBin out now fs = (Ok tt, fs') ->
  exists w0 s', NewWriter [WithComp (Some (GzipCompressor deflate inflate))] = Ok (rootfsConfig, w0) /\
    buildImage rootfsConfig maxTarTotalBytes maxTarEntryCount visits t agentBin (mkBuildState w0 ∅) = (Done tt, s') /\
    fsFiles fs' !! out = Some (wOut (bsWriter s'), now).
Proof.
  unfold buildSquashfs. intros H. destruct (writeFile out "" now fs) as [fs1|e]; [|done].
  rewrite rootfs_writer in H |- *. eexists _. destruct (buildImage _ _ _ _ _ _ _) as [[[]|e|] s'] eqn:Eb; simplify_eq. exists s'. split_and!; [done..|].
  cbn. by rewrite lookup_insert_eq.
Qed.

(** The files a pull changes. *)
Lemma PullImage_files visits s imagePath d now fs r fs' name :
  encodeRootfsName d = Ok name -> Pull visits s imagePath d now fs = (r, fs') ->
  cachePath s name <> cachePath s (name +:+ ".tmp") ->
  (forall p, p <> cachePath s (name +:+ ".tmp") -> p <> cachePath s name -> fsFiles fs' !! p = fsFiles fs !! p) /\
  (r = Ok tt -> is_Some (fsFiles fs' !! cachePath s name)) /\
  (r <> Ok tt -> fsFiles fs' !! cachePath s name = fsFiles fs !! cachePath s name).
Proof.
  intros En H Hne. unfold PullImage in H. rewrite En in H.
  destruct (mkdirAll (rfCacheDir s) fs) as [fs1|e] eqn:Em; [|by simplify_eq; split_and!].
  assert (fsFiles fs1 = fsFiles fs) as E1 by (unfold mkdirAll in Em; destruct (existsb _ _); [done|]; by injection Em as <-). rewrite <- E1. clear Em E1.
  destruct (rbind _ _) as [[img agentBin]|e] in H.
  2: { simplify_eq. cbn. split_and!; [intros; by rewrite lookup_delete_ne|done|intros; by rewrite lookup_delete_ne]. }
  destruct (build visits _ _ _ _ _) as [rb fs3] eqn:Eb.
  assert (forall p, p <> cachePath s (name +:+ ".tmp") -> fsFiles fs3 !! p = fsFiles fs1 !! p) as H3.
  { intros p Hp. rewrite (buildSquashfs_files _ _ _ _ _ _ _ _ _ Eb Hp). cbn. by rewrite lookup_delete_ne. }
  destruct rb as [[]|e].
  - unfold renameFile in H. repeat case_match; simplify_eq; cbn; (split_and!; [intros|try done|try done]);
      rewrite ?lookup_insert_ne, ?lookup_insert_eq, ?lookup_delete_ne by done; auto; done.
  - simplify_eq. cbn. split_and!; [intros; rewrite lookup_delete_ne by done; auto|done|intros; rewrite lookup_delete_ne by done; auto].
Qed.

(** A pull that succeeds publishes the image it was asked for: the file in the
    cache reads as the image's flattened stream describes it, with the agent of
    the image's architecture and the mountpoints added. *)
Lemma PullImage_publishes visits s imagePath d now fs fs' :
  (forall x z, deflate x = Ok z -> inflate z = Some x /\ z <> "") -> (0 <= maxTarTotalBytes)%Z ->
  Pull visits s imagePath d now fs = (Ok tt, fs') ->
  exists img arch agentBin name content,
    cranePull imagePath = Ok img /\ digestOf img = Ok d /\ configOf img = Ok ("linux", arch) /\
    loadAgentBinary readHost s arch = Ok agentBin /\
    encodeRootfsName d = Ok name /\ fsFiles fs' !! cachePath s name = Some (content, now) /\
    ((Z.of_nat (slen content) < 2 ^ 48)%Z -> (Z.of_nat (size (imageFs (extract img) agentBin)) < 2 ^ 23)%Z ->
     forall cs, Forall proper cs ->
     readPath (GzipCompressor deflate inflate) content cs = viewOf rootfsConfig (imageFs (extract img) agentBin) (absOf cs)).
Proof.
  intros Hz Hmax H. unfold PullImage in H. destruct (encodeRootfsName d) as [name|] eqn:En; [|done].
  destruct (mkdirAll (rfCacheDir s) fs) as [fs1|]; [|done]. destruct (rbind _ _) as [[img agentBin]|e] eqn:Er in H; [|done].
  apply rbind_Ok in Er as (img' & Ep%wrapErr_Ok & Er). apply rbind_Ok in Er as (dg & Ed%wrapErr_Ok & Er).
  destruct (String.eqb_spec dg d) as [->|]; [|done]. cbn [negb] in Er. apply rbind_Ok in Er as ([os arch] & Ec%wrapErr_Ok & Er).
  cbn [fst snd] in Er. destruct (String.eqb_spec os "linux") as [->|]; [|done]. cbn [negb] in Er.
  apply rbind_Ok in Er as (bin & Ea & Er). injection Er as -> ->.
  destruct (build visits _ _ _ _ _) as [[[]|e] fs3] eqn:Eb; [|done].
  apply buildSquashfs_Ok in Eb as (w0 & s' & Hw & Hb & Hf).
  destruct (renameFile _ _ fs3) as [fs4|e] eqn:Ern; [|done]. injection H as <-. unfold renameFile in Ern.
  case_bool_decide; [done|]. rewrite Hf in Ern. injection Ern as <-.
  exists img, arch, agentBin, name, (wOut (bsWriter s')). split_and!; try done; [cbn; by rewrite lookup_insert_eq|].
  intros Hlen Hsize cs Hcs. pose proof (gzip_laws _ _ Hz) as HC. apply NewWriter_spec in Hw as [bsz ->].
  apply (buildImage_built rootfsConfig bsz) in Hb as (w & Hr & Hcl & _); [|done|by apply represents_new].
  by apply (closed_reads_back rootfsConfig w _ visits).
Qed.

(** The catalogue follows the pulls and the evictions.  A pull adds the
    digest it was asked for when it succeeds, and leaves the listing as it was
    when it fails, whatever was left of the build; removing a digest takes it,
    and it alone, out of the listing. *)
Theorem catalogue visits s imagePath algo hex now fs l r fs' ru fu :
  Forall proper (rfCacheDir s) -> wfDigest algo hex -> GetExistingImages s fs = Ok l ->
  Pull visits s imagePath (digestString algo hex) now fs = (r, fs') ->
  UntagImage s (digestString algo hex) fs = (ru, fu) ->
  (exists l', GetExistingImages s fs' = Ok l' /\ forall x, x ∈ l' <-> x ∈ l \/ r = Ok tt /\ x = digestString algo hex) /\
  ru = Ok tt /\ exists l', GetExistingImages s fu = Ok l' /\ forall x, x ∈ l' <-> x ∈ l /\ x <> digestString algo hex.
Proof.
  intros Hd Hw Hl Hp Hu. pose proof (encodeRootfsName_digest _ _ Hw) as En.
  pose proof (fun n => decodeRootfsName_digest algo hex n Hw) as Hdec.
  pose proof (rootfsName_path s algo hex "" Hd Hw eq_refl) as Hfinal. rewrite sapp_nil_r in Hfinal.
  pose proof (rootfsName_path s algo hex ".tmp" Hd Hw eq_refl) as Htmp.
  pose proof (listed_digest _ _ _ _ _ Hdec Hl) as Hlisted. split.
  - apply (PullImage_files _ _ _ _ _ _ _ _ _ En) in Hp as (Hsame & Hok & Hbad).
    2: { rewrite Hfinal, Htmp. intros [_ E]%app_inj_tail. apply (f_equal slen) in E. rewrite slen_app in E. cbn in E. lia. }
    destruct (listing_change s fs fs' l _ _ Hdec Hl) as (l' & Hl' & Hx).
    + intros p Hn. apply Hsame; [rewrite Htmp|rewrite Hfinal]; apply Hn.
    + intros n x Hx Hn. apply Hsame; [rewrite Htmp|rewrite Hfinal]; intros [_ E]%app_inj_tail; [|done].
      subst n. by rewrite decode_tmp in Hx.
    + exists l'. split; [done|]. intros x. rewrite Hx. rewrite Hfinal in Hok, Hbad. case_decide as E; [|naive_solver].
      subst x. rewrite Hlisted. destruct r as [[]|e]; [naive_solver|]. rewrite Hbad by done. naive_solver.
  - unfold UntagImage in Hu. rewrite En in Hu. injection Hu as <- <-. split; [done|].
    destruct (listing_change s fs (removeFile (cachePath s (rootfsName algo hex)) fs) l _ _ Hdec Hl) as (l' & Hl' & Hx); cbn.
    + intros p Hn. rewrite Hfinal, lookup_delete_ne; [done|]. intros E. by apply (Hn (rootfsName algo hex)).
    + intros n x Hx Hn. rewrite Hfinal, lookup_delete_ne; [done|]. by intros [_ E]%app_inj_tail.
    + exists l'. split; [done|]. intros x. rewrite Hx. cbn. rewrite Hfinal, lookup_delete_eq. case_decide; [|naive_solver].
      split; [by intros []|naive_solver].
Qed.
End PullFacts.

(** ** The agent and the caps *)

Lemma viewOf_some cfg w fs p : represents cfg w fs -> is_Some (fs !! p) -> is_Some (viewOf cfg fs p).
Proof.
  intros Hr [n Hn]. unfold viewOf. case_match; [by eexists|]. rewrite Hn. destruct n as [| |? |t| | | |]; try by eexists.
  apply represents_wf in Hr. destruct (wf_nodes _ _ Hr p _ Hn) as (a & content & ->). by eexists.
Qed.

(** The agent's directory holds the agent alone. *)
Lemma namesIn_agent cfg w t agentBin :
  represents cfg w (imageFs t agentBin) -> namesIn (imageFs t agentBin) agentInstallDir = ["agent"].
Proof.
  intros Hr. apply represents_wf in Hr. set (fs := imageFs t agentBin) in *.
  assert (filter (fun q => dir q = agentInstallDir) (map fst (map_to_list fs)) = [agentInstallPath]) as E;
    [|by unfold namesIn; rewrite E].
  apply Permutation_singleton_r, NoDup_Permutation;
    [apply NoDup_filter, NoDup_fst_map_to_list|by apply NoDup_singleton|].
  intros q. rewrite list_elem_of_filter, list_elem_of_singleton. split.
  - intros [Hd Hq]. apply list_elem_of_fmap in Hq as ([q' n] & -> & Hq). cbn [fst] in *. apply elem_of_map_to_list in Hq.
    destruct (wf_paths _ _ Hr q') as (cs & Hne & Hp & ->); [by apply (wf_order _ _ Hr); eexists|].
    destruct cs as [|c cs _] using rev_ind; [done|]. pose proof Hp as Hp'. apply Forall_app in Hp as [Hcs Hc].
    apply Forall_cons in Hc as [Hc _]. rewrite dir_absOf_snoc in Hd by done. change agentInstallDir with (absOf [".hpcc"]) in Hd.
    apply absOf_inj in Hd as ->; [|done|by repeat constructor]. unfold fs in Hq. rewrite imageFs_agent in Hq
      by (apply underAgentDir_absOf; [done|by eexists]).
    destruct (String.eqb_spec (absOf ([".hpcc"] ++ [c])) agentInstallPath) as [->|_]; [done|].
    destruct (String.eqb_spec (absOf ([".hpcc"] ++ [c])) agentInstallDir) as [E|]; [|done].
    change agentInstallDir with (absOf [".hpcc"]) in E. apply absOf_inj in E; [done|done|by repeat constructor].
  - intros ->. split; [done|]. apply list_elem_of_fmap. eexists (_, _). split; [done|]. apply elem_of_map_to_list.
    unfold fs. by rewrite imageFs_agent.
Qed.

(** C3: The agent of the host is the agent of every image.  Whatever the
    user's layers contain, the image that is built holds at [/.hpcc/agent] the
    host's binary, executable and owned by root; [/.hpcc] holds nothing else;
    and the mountpoints the agent needs exist. *)
Theorem agent_intact cfg opts w0 maxBytes maxCount visits t agentBin s' :
  CompressorLaws (cfgCompressor cfg) -> NewWriter opts = Ok (cfg, w0) -> (0 <= maxBytes)%Z ->
  buildImage cfg maxBytes maxCount visits t agentBin (mkBuildState w0 ∅) = (Done tt, s') ->
  (Z.of_nat (slen (wOut (bsWriter s'))) < 2 ^ 48)%Z -> (Z.of_nat (size (imageFs t agentBin)) < 2 ^ 23)%Z ->
  let img := readPath (cfgCompressor cfg) (wOut (bsWriter s')) in
  img [".hpcc"; "agent"] = Some (mkStat InodeBasicFile 493 0 0 (mtimeOf cfg None) (PFile agentBin)) /\
  img [".hpcc"] = Some (mkStat InodeBasicDir 493 0 0 (mtimeOf cfg None) (PDir ["agent"])) /\
  forall n, proper n -> "/" +:+ n ∈ standardMountpoints -> is_Some (img [n]).
Proof.
  intros HC Hw Hmax H Hlen Hsize img. apply NewWriter_spec in Hw as [bsz ->].
  apply (buildImage_built cfg bsz) in H as (w & Hr & Hcl & _); [|done|by apply represents_new].
  assert (forall cs, Forall proper cs -> img cs = viewOf cfg (imageFs t agentBin) (absOf cs)) as Hi
    by (intros cs Hcs; by apply (closed_reads_back cfg w _ visits)).
  split_and!.
  - rewrite Hi by by repeat constructor. unfold viewOf. change (absOf [".hpcc"; "agent"]) with agentInstallPath.
    cbn [String.eqb]. by rewrite imageFs_agent.
  - rewrite Hi by by repeat constructor. unfold viewOf. change (absOf [".hpcc"]) with agentInstallDir.
    change (String.eqb agentInstallDir "/") with false. cbn iota. rewrite imageFs_agent by done. cbn [String.eqb].
    change (String.eqb agentInstallDir agentInstallPath) with false. cbn iota. change (String.eqb agentInstallDir agentInstallDir) with true.
    cbn iota. unfold nodeStat. by rewrite (namesIn_agent cfg w).
  - intros n Hn Hm. rewrite Hi by (by apply Forall_cons). by apply (viewOf_some cfg w), imageFs_mountpoint.
Qed.

(** C27: The tar-bomb caps hold.  A build that succeeds has read a stream of at
    most [maxTarEntryCount] members to its end, and the files of its image hold
    at most [maxTarTotalBytes] bytes besides the agent. *)
Theorem build_bounded cfg opts w0 maxBytes maxCount visits t agentBin s' :
  CompressorLaws (cfgCompressor cfg) -> NewWriter opts = Ok (cfg, w0) -> (0 <= maxBytes)%Z ->
  buildImage cfg maxBytes maxCount visits t agentBin (mkBuildState w0 ∅) = (Done tt, s') ->
  (Z.of_nat (bytesOf (imageFs t agentBin)) <= maxBytes + Z.of_nat (slen agentBin))%Z /\
  (Z.of_nat (length (tsMembers t)) <= Z.max 0 maxCount)%Z /\ tsErr t = None.
Proof.
  intros HC Hw Hmax H. apply NewWriter_spec in Hw as [bsz ->].
  apply (buildImage_built cfg bsz) in H as (w & _ & _ & H); [done|done|by apply represents_new].
Qed.

(** An image that tries to bring its own agent, pulled with a toy zlib. *)
Definition exMember (name : string) (flag : ascii) (link : string) (mode : Z) (data : list string) : tarMember :=
  mkTarMember (mkTarHeader name flag link mode 1000 7 (Some 5%Z) 1 3 0) data None.

Definition exTar : tarStream :=
  mkTarStream [exMember "./" "5"%char "" 493 []; exMember "./.hpcc/agent" "0"%char "" 511 ["evil"];
               exMember "usr/bin/cc" "0"%char "" 493 ["ab"; "c"]; exMember "usr/bin/gcc" "1"%char "usr/bin/cc" 0 [];
               exMember "usr/bin/cc" "0"%char "" 420 ["later"]; exMember "tmp/" "5"%char "" 511 [];
               exMember "usr/cc" "2"%char "bin/cc" 511 []; exMember "x" "x"%char "" 0 []] None.

Definition exDeflate (s : string) : result string := Ok ("z" +:+ s).
Definition exInflate (z : string) : option string := match z with String _ t => Some t | "" => None end.

Lemma exZlib x z : exDeflate x = Ok z -> exInflate z = Some x /\ z <> "".
Proof. by intros [= <-]. Qed.

Definition exRootfsCfg : writerConfig Compressor := rootfsConfig exDeflate exInflate.
Definition exRootfsWriter : Writer := mkWriter (zeros superblockSize) false false 96 ∅ [] None newIDTable.
Definition exRootfsVisits : list string := ["/usr/bin"; "/"; "/.hpcc/agent"].
Definition exBuilt : buildState := (buildImage exRootfsCfg 10 8 exRootfsVisits exTar "AGENT" (mkBuildState exRootfsWriter ∅)).2.

Lemma exBuild : buildImage exRootfsCfg 10 8 exRootfsVisits exTar "AGENT" (mkBuildState exRootfsWriter ∅) = (Done tt, exBuilt).
Proof.
  unfold exBuilt. set (b := buildImage _ _ _ _ _ _ _). assert (b.1 = Done tt) as <- by (vm_compute; reflexivity).
  apply surjective_pairing.
Qed.

Lemma agent_intact_witness :
  readPath (GzipCompressor exDeflate exInflate) (wOut (bsWriter exBuilt)) [".hpcc"; "agent"]
  = Some (mkStat InodeBasicFile 493 0 0 0 (PFile "AGENT")).
Proof.
  refine (proj1 (agent_intact exRootfsCfg [WithComp (Some (GzipCompressor exDeflate exInflate))] exRootfsWriter 10 8
    exRootfsVisits exTar "AGENT" exBuilt (gzip_laws _ _ exZlib) eq_refl _ exBuild _ _)); [lia|apply Z.ltb_lt; vm_compute; reflexivity..].
Defined.

Lemma build_bounded_witness : bytesOf (imageFs exTar "AGENT") = 8 /\ (Z.of_nat (bytesOf (imageFs exTar "AGENT")) <= 10 + 5)%Z.
Proof.
  split; [vm_compute; reflexivity|].
  refine (proj1 (build_bounded exRootfsCfg [WithComp (Some (GzipCompressor exDeflate exInflate))] exRootfsWriter 10 8
    exRootfsVisits exTar "AGENT" exBuilt (gzip_laws _ _ exZlib) eq_refl _ exBuild)); lia.
Defined.

Definition exStore : rootfsStore := mkRootfsStore ["cache"] "/agents/amd64" "".
Definition exFs0 : FS := mkFS {[ [] ]} (<[["vmlinux"] := ("kernel", 1%Z)]> (<[["cache"; "sha256-01.sqsh"] := ("old", 1%Z)]> ∅)).
Definition exPull (digest : string) : result unit * FS :=
  PullImage 10 8 exDeflate exInflate (fun p => if String.eqb p "reg/img" then Ok exTar else Err "not found")
    (fun _ => Ok "sha256:ab") (fun _ => Ok ("linux", "amd64")) (fun t => t) (fun _ => Ok "AGENT")
    exRootfsVisits exStore "reg/img" digest 9 exFs0.
Definition exPulled : FS := (exPull "sha256:ab").2.

Lemma exPulled_eq : exPull "sha256:ab" = (Ok tt, exPulled).
Proof.
  unfold exPulled. assert ((exPull "sha256:ab").1 = Ok tt) as <- by (vm_compute; reflexivity). apply surjective_pairing.
Qed.

Lemma catalogue_witness : exists l', GetExistingImages exStore exPulled = Ok l' /\
  forall x, x ∈ l' <-> x ∈ ["sha256:01"] \/ @Ok unit tt = Ok tt /\ x = digestString "sha256" "ab".
Proof.
  refine (proj1 (catalogue 10 8 exDeflate exInflate _ _ _ _ _ _ _ _ "sha256" "ab" _ exFs0 ["sha256:01"] (Ok tt) exPulled _ _ _ _ _ exPulled_eq eq_refl)).
  - repeat constructor; discriminate.
  - repeat split; discriminate.
  - vm_compute. reflexivity.
Defined.

(** The directories that a deep path implies are not counted as entries: one
    member makes ten of them under a cap of one entry. *)
Example implicit_ancestors_uncounted :
  let t := mkTarStream [exMember "a/b/c/d/e/f/g/h/i/j/k" "5"%char "" 493 []] None in
  (streamTarToSquashfs exRootfsCfg 10 1 t (mkBuildState exRootfsWriter ∅)).1 = Done tt /\
  size (bsCreated (streamTarToSquashfs exRootfsCfg 10 1 t (mkBuildState exRootfsWriter ∅)).2) = 11.
Proof. vm_compute. split; reflexivity. Qed.

(** A member below a symbolic link passes the stream, and the image cannot be
    sealed. *)
Example below_symlink_rejected :
  let t := mkTarStream [exMember "lib" "2"%char "usr/lib" 511 []; exMember "lib/x" "0"%char "" 420 ["x"]] None in
  (streamTarToSquashfs exRootfsCfg 10 8 t (mkBuildState exRootfsWriter ∅)).1 = Done tt /\
  exists e, (buildImage exRootfsCfg 10 8 [] t "AGENT" (mkBuildState exRootfsWriter ∅)).1 = Failed e.
Proof. split; [vm_compute; reflexivity|]. eexists. vm_compute. reflexivity. Qed.

(** The set-user-id bit of a member is dropped. *)
Example setuid_dropped : aMode (tarAttrs "/bin/su" (mkTarHeader "bin/su" "0" "" 2541 0 0 None 0 0 0)) = 493%Z.
Proof. reflexivity. Qed.
