(* ===== verification/Agent.v ===== *)
(** * Agent: running a command inside a microVM.

    [agent/server.go] is the guest's side of one [Exec] stream: it stages the
    inputs it receives, runs the compiler and streams the outputs back.
    [internal/worker/runtime/firecracker.go] is the host's side, and
    [internal/worker/runtime/agent.go] its twin for Hyper-V guests.  A gRPC
    stream delivers the frames of the other side in order and then ends, with
    [io.EOF] or an error: a stream is a list of frames and its end.  Guest and
    host have a file system each, that of the [Store] file; the compiler is a
    parameter. *)

From S2P Require Import Prelude Effects GoStrings GoPath Store Staging.

(** ** Frames *)

Record ExecHeader := mkExecHeader {
  ehExecId : string;
  ehArgv : list string;
  ehEnv : list string;
  ehCwd : string;
  ehTraceparent : string;
  ehTracestate : string
}.

Inductive ExecClientFrame :=
  | FHeader (h : ExecHeader)
  | FInput (path chunk : string) (eof : bool).

Inductive ExecServerFrame :=
  | FStdio (toStderr : bool) (bytes : string)
  | FResult (exitCode : Z)
  | FOutput (path chunk : string) (eof : bool).

(** How a stream ends: [None] is [io.EOF]. *)
Abbreviation streamEnd := (option string) (only parsing).

(** ** Files received in chunks *)

(** The open files, each with its path and offset, and the file system. *)
Record receiver := mkReceiver {
  rxOpen : gmap string (list string * nat);
  rxFs : FS
}.

Definition set_rxFs (fs : FS) (s : receiver) : receiver := mkReceiver (rxOpen s) fs.

(** [fh.Write] at the offset of the file. *)
Definition overwriteAt (off : nat) (data s : string) : string :=
  stake off s +:+ Nat.iter (off - slen s) (String Ascii.zero) "" +:+ data +:+ sdrop (off + slen data) s.

Definition writeAt (p : path) (off : nat) (data : string) (now : Z) (fs : FS) : FS :=
  mkFS (fsDirs fs) (alter (fun f => (overwriteAt off data f.1, now)) p (fsFiles fs)).

Definition toR (r : FS -> result FS) (fs : FS) : result unit * FS :=
  match r fs with Ok fs' => (Ok tt, fs') | Err e => (Err e, fs) end.

Section Receive.
  Context (now : Z).

(** The file of [key], opened at [full] when it is not open yet. *)
Definition openFor (what key full name : string) : act receiver unit := fun s =>
  match rxOpen s !! key with
  | Some _ => (Done tt, s)
  | None =>
      (let* _ := wrapping ("mkdir parent of " +:+ name) (on rxFs set_rxFs (toR (mkdirAll (comps (dir full))))) in
       let* _ := wrapping (what +:+ " " +:+ name) (on rxFs set_rxFs (toR (writeFile (comps full) "" now))) in
       modify (fun s => mkReceiver (<[key := (comps full, 0)]> (rxOpen s)) (rxFs s))) s
  end.

(** A chunk for an open file. *)
Definition writeOpen (key chunk : string) (s : receiver) : receiver :=
  match rxOpen s !! key with
  | Some (p, off) => mkReceiver (<[key := (p, off + slen chunk)]> (rxOpen s)) (writeAt p off chunk now (rxFs s))
  | None => s
  end.

Definition receive (what key full name chunk : string) (eof : bool) : act receiver unit :=
  let* _ := openFor what key full name in
  let* _ := modify (fun s => if String.eqb chunk "" then s else writeOpen key chunk s) in
  modify (fun s => if eof then mkReceiver (delete key (rxOpen s)) (rxFs s) else s).
End Receive.

(** ** Trees sent in chunks *)

(** The order in which [filepath.WalkDir] meets the files: by name in each
    directory. *)
Fixpoint walkBefore (a b : list string) : bool :=
  match a, b with
  | [], _ => true
  | _ :: _, [] => false
  | x :: a', y :: b' => if String.eqb x y then walkBefore a' b' else bool_decide (sle x y)
  end.

Definition inWalkOrder (a b : list string * string) : Prop := walkBefore a.1 b.1 = true.
#[global] Instance inWalkOrder_dec : RelDecision inWalkOrder := fun a b => bool_eq_dec _ _.

(** The part of [q] below [root]. *)
Definition relBelow (root q : path) : option (list string) :=
  if isBelow root q then match drop (length root) q with [] => None | r => Some r end else None.

(** The regular files [filepath.WalkDir(root)] meets, by their path below it. *)
Definition filesBelow (root : path) (fs : FS) : list (list string * string) :=
  omap (fun kv => (fun r => (r, kv.2.1)) <$> relBelow root kv.1) (map_to_list (fsFiles fs)).

Definition walkDir (root : path) (fs : FS) : result (list (list string * string)) :=
  if bool_decide (root ∈ fsDirs fs) then Ok (isort inWalkOrder (filesBelow root fs))
  else match fsFiles fs !! root with
       | Some f => Ok [([], f.1)]
       | None => Err ("lstat " +:+ absOf root +:+ ": no such file or directory")
       end.

(** The reads of a file through a buffer of [n] bytes. *)
Fixpoint chunksFrom (fuel n : nat) (s : string) : list string :=
  match fuel with
  | 0 => []
  | S k => if String.eqb s "" then [] else stake n s :: chunksFrom k n (sdrop n s)
  end.

Definition chunks (n : nat) (s : string) : list string := chunksFrom (slen s) n s.

Section Send.
  Context {F : Type} (mk : string -> string -> bool -> F) (bufSize : nat).

(** One file: its chunks, and the frame that ends it. *)
Definition fileFrames (name content : string) : list F :=
  map (fun c => mk name c false) (chunks bufSize content) ++ [mk name "" true].

(** The files of a walk, under their path relative to the root. *)
Fixpoint walkFrames (root : path) (files : list (list string * string)) : result (list F) :=
  match files with
  | [] => Ok []
  | (r, content) :: rest =>
      let! name := rel (absOf root) (absOf (root ++ r)) in
      let! more := walkFrames root rest in
      Ok (fileFrames name content ++ more)
  end.

Definition treeFrames (root : path) (fs : FS) : result (list F) :=
  let! files := walkDir root fs in walkFrames root files.
End Send.

(** ** The guest *)

Definition stagingRoot : string := "/run/hpcc".
Definition outputChunkSize : nat := 256 * 1024.
Definition defaultPath : string := "/usr/local/sbin:/usr/local/bin:/usr/sbin:/usr/bin:/sbin:/bin".

Definition envKey (kv : string) : string :=
  match indexBy (Ascii.eqb "="%char) kv with
  | Some (S i) => stake (S i) kv
  | _ => ""
  end.

(** The variables of the agent that the request does not set. *)
Fixpoint inherited (environ : list string) (keys : gset string) : list string * gset string :=
  match environ with
  | [] => ([], keys)
  | kv :: rest =>
      let k := envKey kv in
      if String.eqb k "" || bool_decide (k ∈ keys) then inherited rest keys
      else let '(out, keys') := inherited rest ({[k]} ∪ keys) in (kv :: out, keys')
  end.

Definition resolveEnv (environ reqEnv : list string) : list string :=
  let keys := list_to_set (List.filter (fun k => negb (String.eqb k "")) (map envKey reqEnv)) in
  let '(own, keys) := inherited environ keys in
  reqEnv ++ own ++ (if bool_decide ("PATH" ∈ keys) then [] else ["PATH=" +:+ defaultPath]).

Definition safeRel (p : string) : result unit :=
  if String.eqb p "" then Err "path is empty"
  else if isAbs p then Err "path must be relative"
  else let c := clean p in
  if String.eqb c ".." || hasPrefix c "../" then Err "path escapes staging dir" else Ok tt.

(** The guest's file system, and the frames it has sent. *)
Record guest := mkGuest {
  guFs : FS;
  guSent : list ExecServerFrame
}.

Definition set_guFs (fs : FS) (g : guest) : guest := mkGuest fs (guSent g).
Definition send (f : ExecServerFrame) : act guest unit := modify (fun g => mkGuest (guFs g) (guSent g ++ [f])).

(** What running a command can come to: the writes to its standard streams
    and the exit code, or that it could not be run. *)
Inductive execOutcome :=
  | Ran (writes : list (bool * string)) (code : Z)
  | NotRun (e : string).

Section Guest.
  Context (now : Z) (environ : list string).
  (* [exec.Cmd.Run] of a command with its arguments, environment and directory. *)
  Context (execve : list string -> list string -> string -> FS -> execOutcome * FS).

Fixpoint stageInputs (srcDir : string) (frames : list ExecClientFrame) (end_ : streamEnd) : act receiver unit :=
  match frames with
  | [] => match end_ with None => ret tt | Some e => failure e end
  | FHeader _ :: _ => failure "expected InputFile frame after header"
  | FInput p chunk eof :: rest =>
      let* _ := check (fun _ => wrapErr ("input path " +:+ p) (safeRel p)) in
      let* _ := receive now "open" p (join [srcDir; fromSlash p]) p chunk eof in
      stageInputs srcDir rest end_
  end.

(** The paths behind each occurrence of the output directory. *)
Fixpoint outPathsIn (fuel : nat) (prefix rest : string) : list string :=
  match fuel, indexOf rest prefix with
  | S fuel', Some idx =>
      let tail := sdrop (idx + slen prefix) rest in
      match indexBy endsPath tail with
      | None => [tail]
      | Some e => stake e tail :: outPathsIn fuel' prefix (sdrop e tail)
      end
  | _, _ => []
  end.

Definition mkdirOutputParent (outDir rel : string) (fs : FS) : result unit * FS :=
  if String.eqb rel "" then (Ok tt, fs)
  else let parent := dir rel in
  if String.eqb parent "" || String.eqb parent "." then (Ok tt, fs)
  else mkdirFull (join [outDir; parent]) fs.

Definition mkdirOutputParents (args : list string) (outDir : string) (fs : FS) : result unit * FS :=
  let prefix := if hasSuffix outDir "/" then outDir else outDir +:+ "/" in
  eachR (mkdirOutputParent outDir) (concat (map (fun a => outPathsIn (slen a) prefix a) args)) fs.

Definition mkOne (srcAbs p : string) (fs : FS) : result unit * FS :=
  if String.eqb p "" then (Ok tt, fs)
  else if String.eqb p srcAbs then (Ok tt, fs)
  else if hasPrefix p (srcAbs +:+ "/") then mkRel srcAbs (sdrop (S (slen srcAbs)) p) fs
  else if isAbs p then (Ok tt, fs)
  else mkRel srcAbs p fs.

Definition mkdirSearchPaths (args : list string) (srcDir : string) (fs : FS) : result unit * FS :=
  if String.eqb srcDir "" then (Ok tt, fs) else eachR (mkOne (clean srcDir)) (searchDirs args) fs.

(** A write of the command becomes a frame, unless it is empty. *)
Definition stdioFrames (writes : list (bool * string)) : list ExecServerFrame :=
  omap (fun w => if String.eqb w.2 "" then None else Some (FStdio w.1 w.2)) writes.

Definition toInt32 (z : Z) : Z := ((z + 2 ^ 31) mod 2 ^ 32 - 2 ^ 31)%Z.

Definition runCompiler (h : ExecHeader) (srcDir : string) : act guest Z := fun g =>
  let cwd := if String.eqb (ehCwd h) "" then srcDir else ehCwd h in
  match execve (ehArgv h) (resolveEnv environ (ehEnv h)) cwd (guFs g) with
  | (Ran writes code, fs) => (Done (toInt32 code), mkGuest fs (guSent g ++ stdioFrames writes))
  | (NotRun e, fs) => (Failed ("exec " +:+ hd "" (ehArgv h) +:+ ": " +:+ e), mkGuest fs (guSent g))
  end.

Definition streamOutputs (outDir : string) : act guest unit := fun g =>
  match treeFrames FOutput outputChunkSize (comps outDir) (guFs g) with
  | Ok frames => (Done tt, mkGuest (guFs g) (guSent g ++ frames))
  | Err e => (Failed e, g)
  end.

(** Staging on the guest's file system. *)
Definition stage (srcDir : string) (frames : list ExecClientFrame) (end_ : streamEnd) : act guest unit := fun g =>
  let '(o, s) := stageInputs srcDir frames end_ (mkReceiver ∅ (guFs g)) in (o, set_guFs (rxFs s) g).

(** [Exec] behind the checks of the header. *)
Definition execBody (h : ExecHeader) (srcDir outDir : string) (frames : list ExecClientFrame) (end_ : streamEnd)
    : act guest unit :=
  let* _ := wrapping "mkdir output parents" (on guFs set_guFs (mkdirOutputParents (ehArgv h) outDir)) in
  let* _ := wrapping "stage inputs" (stage srcDir frames end_) in
  let* _ := wrapping "mkdir search-path dirs" (on guFs set_guFs (mkdirSearchPaths (ehArgv h) srcDir)) in
  let* exitCode := runCompiler h srcDir in
  let* _ := send (FResult exitCode) in
  wrapping "stream outputs" (streamOutputs outDir).

Definition agentExec (frames : list ExecClientFrame) (end_ : streamEnd) : act guest unit :=
  match frames with
  | [] => failure ("recv header: " +:+ default "EOF" end_)
  | FInput _ _ _ :: _ => failure "first frame must carry ExecHeader"
  | FHeader h :: rest =>
      if String.eqb (ehExecId h) "" then failure "ExecHeader.exec_id is required"
      else match ehArgv h with
      | [] => failure "ExecHeader.argv must not be empty"
      | _ =>
          let srcDir := join [stagingRoot; "src"; ehExecId h] in
          let outDir := join [stagingRoot; "out"; ehExecId h] in
          let* _ := wrapping "mkdir src staging" (on guFs set_guFs (toR (mkdirAll (comps srcDir)))) in
          let* _ := wrapping "mkdir out staging" (on guFs set_guFs (toR (mkdirAll (comps outDir)))) in
          defer (fun g => set_guFs (removeAll (comps outDir) (removeAll (comps srcDir) (guFs g))) g)
            (execBody h srcDir outDir rest end_)
      end
  end.
End Guest.

(** ** The host: Firecracker *)

Record ExecRequest := mkExecRequest {
  erExecID : string;
  erArgv : list string;
  erEnv : list string;
  erCwd : string;
  erSrcHostPath : string;
  erOutHostPath : string
}.

Definition agentSrcDir (execID : string) : string := "/run/hpcc/src/" +:+ execID.
Definition agentOutDir (execID : string) : string := "/run/hpcc/out/" +:+ execID.
Definition inputChunkSize : nat := 256 * 1024.
Definition agentInputChunkSize : nat := 256 * 1024.

(** What the host has received: files, the standard streams, the exit code. *)
Record drained := mkDrained {
  drRx : receiver;
  drStdout : string;
  drStderr : string;
  drCode : Z;
  drGot : bool
}.

Definition onRx (m : act receiver unit) : act drained unit := fun s =>
  let '(o, rx) := m (drRx s) in (o, mkDrained rx (drStdout s) (drStderr s) (drCode s) (drGot s)).

Section Host.
  Context (now : Z).

Definition writeOutputChunk (outHost p chunk : string) (eof : bool) : act receiver unit :=
  if String.eqb p "" || isAbs p then failure ("output path " +:+ p +:+ " invalid")
  else let c := clean p in
  if String.eqb c ".." || hasPrefix c "../" then failure ("output path " +:+ p +:+ " escapes /out")
  else receive now "open output" c (join [outHost; c]) p chunk eof.

(** One frame of the guest. *)
Definition drainFrame (outHost : string) (f : ExecServerFrame) : act drained unit :=
  match f with
  | FStdio true bytes => modify (fun s => mkDrained (drRx s) (drStdout s) (drStderr s +:+ bytes) (drCode s) (drGot s))
  | FStdio false bytes => modify (fun s => mkDrained (drRx s) (drStdout s +:+ bytes) (drStderr s) (drCode s) (drGot s))
  | FResult code => modify (fun s => mkDrained (drRx s) (drStdout s) (drStderr s) code true)
  | FOutput p chunk eof => if String.eqb outHost "" then ret tt else onRx (writeOutputChunk outHost p chunk eof)
  end.

(** [drainExecStream]: the exit code. *)
Fixpoint drainExecStream (outHost : string) (frames : list ExecServerFrame) (end_ : streamEnd) : act drained Z :=
  match frames with
  | [] => match end_ with
          | Some e => failure ("recv: " +:+ e)
          | None => fun s => if drGot s then (Done (drCode s), s)
                             else (Failed "agent stream closed without ExecResult", s)
          end
  | f :: rest => let* _ := drainFrame outHost f in drainExecStream outHost rest end_
  end.

Definition drainStart (fs : FS) : drained := mkDrained (mkReceiver ∅ fs) "" "" (-1) false.

Definition execHeader (traceparent tracestate : string) (req : ExecRequest) : ExecHeader :=
  let inSrc := agentSrcDir (erExecID req) in
  let inOut := agentOutDir (erExecID req) in
  let cwd := if negb (String.eqb (erCwd req) "") then translateExecPath (erCwd req) inSrc inOut
             else if negb (String.eqb (erSrcHostPath req) "") then inSrc else "" in
  mkExecHeader (erExecID req) (map (fun a => translateExecPath a inSrc inOut) (erArgv req)) (erEnv req) cwd traceparent tracestate.
End Host.

(** ** The host: Hyper-V *)

Section Twin.
  Context (now : Z).

Definition writeOutput (outRoot p chunk : string) (eof : bool) : act receiver unit :=
  if String.eqb outRoot "" then ret tt
  else if String.eqb p "" then failure "agent output frame missing path"
  else receive now "create output" p (join [outRoot; fromSlash p]) p chunk eof.

(** A frame, with a nil writer for the streams the request does not want. *)
Definition drainAgentFrame (wantOut wantErr : bool) (outRoot : string) (f : ExecServerFrame) : act drained unit :=
  match f with
  | FStdio true bytes =>
      modify (fun s => if wantErr then mkDrained (drRx s) (drStdout s) (drStderr s +:+ bytes) (drCode s) (drGot s) else s)
  | FStdio false bytes =>
      modify (fun s => if wantOut then mkDrained (drRx s) (drStdout s +:+ bytes) (drStderr s) (drCode s) (drGot s) else s)
  | FResult code => modify (fun s => mkDrained (drRx s) (drStdout s) (drStderr s) code true)
  | FOutput p chunk eof => onRx (writeOutput outRoot p chunk eof)
  end.

(** [drainAgentResponses]: the result frame, when there was one. *)
Fixpoint drainAgentResponses (wantOut wantErr : bool) (outRoot : string) (frames : list ExecServerFrame) (end_ : streamEnd)
    : act drained (option Z) :=
  match frames with
  | [] => match end_ with
          | Some e => failure e
          | None => fun s => (Done (if drGot s then Some (drCode s) else None), s)
          end
  | f :: rest => let* _ := drainAgentFrame wantOut wantErr outRoot f in drainAgentResponses wantOut wantErr outRoot rest end_
  end.
End Twin.

(** ** One command through the VM *)

Record vm := mkVm {
  vmHost : FS;
  vmGuest : FS
}.

Section Run.
  Context (nowHost nowGuest : Z) (environ : list string) (traceparent tracestate : string).
  Context (execve : list string -> list string -> string -> FS -> execOutcome * FS).

(** How the stream of the guest ends for the host. *)
Definition endOf (o : outcome unit) : streamEnd :=
  match o with Done _ => None | Failed e => Some e | Panicked => Some "panic" end.

(** [firecrackerContainer.Exec] against the agent: the exit code, what was
    received, and the file system of the guest. *)
Definition vmExec (req : ExecRequest) (v : vm) : outcome Z * drained * FS :=
  let hdr := execHeader traceparent tracestate req in
  match (if String.eqb (erSrcHostPath req) "" then Ok []
         else treeFrames FInput inputChunkSize (comps (erSrcHostPath req)) (vmHost v)) with
  | Err e =>
      let '(_, g) := agentExec nowGuest environ execve [FHeader hdr] (Some "context canceled") (mkGuest (vmGuest v) []) in
      (Failed ("stream inputs: " +:+ e), drainStart (vmHost v), guFs g)
  | Ok inputs =>
      let '(o, g) := agentExec nowGuest environ execve (FHeader hdr :: inputs) None (mkGuest (vmGuest v) []) in
      let '(r, d) := drainExecStream nowHost (erOutHostPath req) (guSent g) (endOf o) (drainStart (vmHost v)) in
      (r, d, guFs g)
  end.

(** [execViaAgent] against the agent, for Hyper-V guests; the caller has
    already put the guest's paths into the request. *)
Definition execViaAgent (wantOut wantErr : bool) (req : ExecRequest) (v : vm) : outcome (option Z) * drained * FS :=
  if String.eqb (erExecID req) "" then (Failed "agentExec: ExecID is required", drainStart (vmHost v), vmGuest v)
  else if bool_decide (erArgv req = []) then (Failed "agentExec: Argv must be non-empty", drainStart (vmHost v), vmGuest v)
  else
    let hdr := mkExecHeader (erExecID req) (erArgv req) (erEnv req) (erCwd req) traceparent tracestate in
    match (if String.eqb (erSrcHostPath req) "" then Ok []
           else treeFrames FInput agentInputChunkSize (comps (erSrcHostPath req)) (vmHost v)) with
    | Err e =>
        let '(_, g) := agentExec nowGuest environ execve [FHeader hdr] (Some "context canceled") (mkGuest (vmGuest v) []) in
        (Failed ("stream inputs: " +:+ e), drainStart (vmHost v), guFs g)
    | Ok inputs =>
        let '(o, g) := agentExec nowGuest environ execve (FHeader hdr :: inputs) None (mkGuest (vmGuest v) []) in
        let '(r, d) := drainAgentResponses nowHost wantOut wantErr (erOutHostPath req) (guSent g) (endOf o) (drainStart (vmHost v)) in
        (r, d, guFs g)
    end.
End Run.

(** ** Facts: chunks *)

Lemma chunksFrom_concat n s : forall fuel, 0 < n -> slen s <= fuel -> sconcat (chunksFrom fuel n s) = s.
Proof.
  intros fuel Hn. revert s. induction fuel as [|fuel IH]; intros s Hf; cbn.
  { assert (slen s = 0) as E by lia. by apply slen_0 in E as ->. }
  destruct (String.eqb_spec s "") as [->|Hs]; [done|]. cbn [sconcat]. rewrite IH; [apply stake_sdrop|].
  rewrite slen_sdrop. destruct s; [done|]. cbn in *. lia.
Qed.

Lemma chunks_concat n s : 0 < n -> sconcat (chunks n s) = s.
Proof. intros Hn. by apply chunksFrom_concat. Qed.

(** ** Facts: receiving a file *)

Fixpoint seqA {St} (ms : list (act St unit)) : act St unit :=
  match ms with [] => ret tt | m :: rest => let* _ := m in seqA rest end.

Lemma seqA_app {St} (ms ns : list (act St unit)) s : seqA (ms ++ ns) s = (let* _ := seqA ms in seqA ns) s.
Proof.
  revert s. induction ms as [|m ms IH]; intros s; cbn [seqA app]; [done|]. rewrite bind_assoc. unfold bind at 1. symmetry. unfold bind at 1.
  destruct (m s) as [[]]; [by rewrite IH|done|done].
Qed.

Lemma seqA_ext {St A} (f g : A -> act St unit) l : (forall x s, x ∈ l -> f x s = g x s) ->
  forall s, seqA (map f l) s = seqA (map g l) s.
Proof.
  induction l as [|x l IH]; intros H s; cbn [map seqA]; [done|]. unfold bind. rewrite H by by left.
  destruct (g x s) as [[]]; [|done|done]. apply IH. intros. apply H. by right.
Qed.

(** A file of [content] at [p], its directory made. *)
Definition putFile (now : Z) (p : path) (content : string) (fs : FS) : FS :=
  mkFS (list_to_set (pathPrefixes (removelast p)) ∪ fsDirs fs) (<[p := (content, now)]> (fsFiles fs)).

(** A path at which a file can be made. *)
Definition placeable (p : path) (fs : FS) : Prop :=
  p ∉ fsDirs fs /\ forall q t, p = q ++ t -> t <> [] -> fsFiles fs !! q = None.

Section ReceiveFacts.
  Context (now : Z) (what key name : string) (cs : list string) (c : string).
  Context (proper_cs : Forall proper cs) (proper_c : proper c).
  #[local] Notation p := (cs ++ [c]).
  #[local] Notation step := (fun ce : string * bool => receive now what key (absOf p) name ce.1 ce.2).

Lemma openFor_new s : rxOpen s !! key = None -> placeable p (rxFs s) ->
  openFor now what key (absOf p) name s =
  (Done tt, mkReceiver (<[key := (p, 0)]> (rxOpen s)) (putFile now p "" (rxFs s))).
Proof.
  intros Hk [Hd Hf]. unfold openFor. rewrite Hk, dir_absOf_snoc, !comps_absOf by (done || by apply Forall_app; auto).
  unfold bind, wrapping, on, toR, mkdirAll. cbn [rxFs].
  destruct (existsb _ _) eqn:E.
  { apply existsb_exists in E as (q & Hq & E%bool_decide_eq_true). apply list_elem_of_In, pathPrefixes_spec in Hq as [r ->].
    rewrite (Hf q (r ++ [c])) in E; [by destruct E|by rewrite app_assoc|by destruct r]. }
  cbn [set_rxFs rxOpen rxFs]. unfold writeFile. cbn [fsDirs fsFiles].
  rewrite bool_decide_eq_false_2.
  2: { rewrite elem_of_union, elem_of_list_to_set. intros [Hq|]; [|done]. apply pathPrefixes_spec in Hq as [r Hq].
       apply (f_equal length) in Hq. rewrite !length_app in Hq. cbn in Hq. lia. }
  rewrite length_app. cbn [length]. rewrite Nat.add_sub, take_app_length.
  rewrite bool_decide_eq_true_2 by (apply elem_of_union; left; apply elem_of_list_to_set, pathPrefixes_spec; exists []; by rewrite app_nil_r).
  cbn. unfold putFile. by rewrite removelast_last.
Qed.

Lemma receive_open s h chunk eof : rxOpen s !! key = Some h ->
  receive now what key (absOf p) name chunk eof s =
  (Done tt, let s1 := if String.eqb chunk "" then s else writeOpen now key chunk s in
            if eof then mkReceiver (delete key (rxOpen s1)) (rxFs s1) else s1).
Proof. intros Hk. unfold receive, bind, openFor, modify. by rewrite Hk. Qed.

(** More chunks of an open file, and its end. *)
Lemma receive_rest chunks : forall s fs done,
  rxOpen s !! key = Some (p, slen done) -> rxFs s = putFile now p done fs ->
  seqA (map step (map (fun x => (x, false)) chunks ++ [("", true)])) s =
  (Done tt, mkReceiver (delete key (rxOpen s)) (putFile now p (done +:+ sconcat chunks) fs)).
Proof.
  induction chunks as [|x chunks IH]; intros s fs done Hk Hfs; cbn [map app seqA sconcat fst snd].
  - unfold bind. rewrite (receive_open s (p, slen done)) by done. cbn. by rewrite sapp_nil_r, Hfs.
  - unfold bind at 1. rewrite (receive_open s (p, slen done)) by done. cbn zeta iota.
    destruct (String.eqb_spec x "") as [->|Hx]; [by rewrite (IH s fs done)|].
    unfold writeOpen. rewrite Hk. rewrite (IH _ fs (done +:+ x)); cbn [rxOpen rxFs].
    + by rewrite delete_insert_eq, sapp_assoc.
    + by rewrite lookup_insert_eq, slen_app.
    + rewrite Hfs. unfold writeAt, putFile. cbn [fsDirs fsFiles]. f_equal. rewrite alter_insert_eq. cbn [fst]. do 2 f_equal.
      unfold overwriteAt. rewrite Nat.sub_diag, sdrop_all by lia. cbn [Nat.iter nat_rect].
      rewrite stake_all by lia. by rewrite sapp_nil_r.
Qed.

(** A file in chunks. *)
Lemma receive_file n s content : 0 < n -> rxOpen s !! key = None -> placeable p (rxFs s) ->
  seqA (map step (map (fun x => (x, false)) (chunks n content) ++ [("", true)])) s =
  (Done tt, mkReceiver (rxOpen s) (putFile now p content (rxFs s))).
Proof.
  intros Hn Hk Hp.
  assert (seqA (map step (map (fun x => (x, false)) (chunks n content) ++ [("", true)])) s =
    (let* _ := openFor now what key (absOf p) name in
     seqA (map step (map (fun x => (x, false)) (chunks n content) ++ [("", true)]))) s) as ->.
  { unfold bind at 1. pose proof (openFor_new s Hk Hp) as Ho. rewrite Ho.
    destruct (map _ (chunks n content) ++ _) as [|ce l] eqn:E; [by destruct (map _ (chunks n content))|].
    cbn [map seqA]. unfold bind at 1. symmetry. unfold bind at 1. f_equal.
    unfold receive, bind. rewrite Ho. unfold openFor. cbn [rxOpen]. by rewrite lookup_insert_eq. }
  unfold bind. rewrite (openFor_new s Hk Hp). rewrite (receive_rest _ _ (rxFs s) "");
    [|cbn; by rewrite lookup_insert_eq|done]. cbn [rxOpen]. rewrite chunks_concat by done.
  by rewrite delete_insert_id.
Qed.
End ReceiveFacts.

(** ** Facts: receiving a tree *)

Definition relName (r : list string) : string := joinWith "/" r.

Definition copyTree (now : Z) (dst : path) (files : list (list string * string)) (fs : FS) : FS :=
  foldl (fun fs f => putFile now (dst ++ f.1) f.2 fs) fs files.

(** Files with proper names, none below another, that can be made in [dst]. *)
Record fits (dst : path) (files : list (list string * string)) (fs : FS) : Prop := {
  ft_names f : f ∈ files -> f.1 <> [] /\ Forall proper f.1;
  ft_nodup : NoDup (map fst files);
  ft_apart f g t : f ∈ files -> g ∈ files -> f.1 = g.1 ++ t -> t = [];
  ft_place f : f ∈ files -> placeable (dst ++ f.1) fs
}.

Lemma putFile_placeable now p content fs q :
  placeable q fs -> (forall t, p <> q ++ t) -> (forall t, q <> p ++ t) -> placeable q (putFile now p content fs).
Proof.
  intros [Hd Hf] Hqp Hpq. split; cbn.
  - rewrite elem_of_union, elem_of_list_to_set, pathPrefixes_spec. intros [[r E]|?]; [|done].
    destruct p as [|c p _] using rev_ind; [|rewrite removelast_last in E; apply (Hqp (r ++ [c])); by rewrite app_assoc, <- E].
    cbn in E. destruct q; [|done]. by apply (Hqp []).
  - intros x t E Ht. rewrite lookup_insert_ne; [by eapply Hf|]. intros ->. by apply (Hpq t).
Qed.

Lemma fits_cons now dst f files fs : fits dst (f :: files) fs -> fits dst files (putFile now (dst ++ f.1) f.2 fs).
Proof.
  intros [Hn Hnd Ha Hp]. cbn in Hnd. apply NoDup_cons in Hnd as [Hf Hnd]. split.
  - intros g Hg. apply Hn. by right.
  - done.
  - intros g h t Hg Hh. apply Ha; by right.
  - intros g Hg. apply putFile_placeable; [apply Hp; by right|..]; intros t E; rewrite <- app_assoc in E; apply app_inv_head in E.
    + pose proof (Ha f g t ltac:(by left) ltac:(by right) E) as ->. rewrite app_nil_r in E. apply Hf. rewrite E. by apply list_elem_of_fmap_2.
    + pose proof (Ha g f t ltac:(by right) ltac:(by left) E) as ->. rewrite app_nil_r in E. apply Hf. rewrite <- E. by apply list_elem_of_fmap_2.
Qed.

(** The frames of a tree, without their constructor. *)
Definition treeParts (n : nat) (files : list (list string * string)) : list (string * (string * bool)) :=
  concat (map (fun f => map (fun ce => (relName f.1, ce)) (map (fun x => (x, false)) (chunks n f.2) ++ [("", true)])) files).

Lemma receive_tree now what n dst (step : string * (string * bool) -> act receiver unit) files : forall s,
  0 < n -> Forall proper dst ->
  (forall r c e s, Forall proper r -> r <> [] ->
     step (relName r, (c, e)) s = receive now what (relName r) (absOf (dst ++ r)) (relName r) c e s) ->
  rxOpen s = ∅ -> fits dst files (rxFs s) ->
  seqA (map step (treeParts n files)) s = (Done tt, mkReceiver ∅ (copyTree now dst files (rxFs s))).
Proof.
  intros s Hn Hd Hstep. revert s. induction files as [|[r content] files IH]; intros s Ho Hfits; cbn [treeParts map concat].
  { cbn. destruct s. cbn in *. by subst. }
  rewrite map_app, seqA_app. unfold bind. rewrite map_map.
  destruct (ft_names _ _ _ Hfits (r, content) ltac:(by left)) as [Hne Hp]. cbn in Hne, Hp.
  destruct r as [|c r _] using rev_ind; [done|].
  apply Forall_app in Hp as [Hr Hc]. apply Forall_cons in Hc as [Hc _].
  rewrite (seqA_ext _ (fun ce => receive now what (relName (r ++ [c])) (absOf ((dst ++ r) ++ [c])) (relName (r ++ [c])) ce.1 ce.2)).
  2: { intros [x e] s' _. rewrite <- app_assoc. apply Hstep; [apply Forall_app; auto|by destruct r]. }
  pose proof (ft_place _ _ _ Hfits (r ++ [c], content) ltac:(by left)) as Hpl. cbn [fst] in Hpl. rewrite app_assoc in Hpl.
  cbn [fst snd]. rewrite receive_file; [|by apply Forall_app|done|done|by rewrite Ho, lookup_empty|done].
  apply (fits_cons now) in Hfits. cbn [fst snd] in Hfits. rewrite app_assoc in Hfits.
  rewrite IH; [|done|done]. cbn [rxFs]. unfold copyTree. cbn [foldl fst snd]. by rewrite app_assoc.
Qed.

Lemma walkFrames_parts {F} (mk : string -> string -> bool -> F) n root files :
  Forall proper root -> (forall f, f ∈ files -> f.1 <> [] /\ Forall proper f.1) ->
  walkFrames mk n root files = Ok (map (fun x => mk x.1 x.2.1 x.2.2) (treeParts n files)).
Proof.
  intros Hroot. induction files as [|[r content] files IH]; intros Hf; [done|]. cbn [walkFrames].
  destruct (Hf (r, content) ltac:(by left)) as [Hne Hr]. cbn in Hne, Hr.
  rewrite rel_absOf by (done || by apply Forall_app).
  rewrite decide_False by (intros E; apply Hne; rewrite <- (app_nil_r root) in E at 2; by apply app_inv_head in E).
  rewrite stripCommon_app. cbn [rbind length repeat app]. rewrite IH by (intros; apply Hf; by right). cbn [rbind]. f_equal.
  unfold treeParts. cbn [map concat]. rewrite map_app. f_equal. unfold fileFrames. rewrite !map_app, !map_map. done.
Qed.

(** ** Facts: the guest stages a tree *)

Lemma relName_clean r : Forall proper r -> r <> [] -> clean (relName r) = relName r /\ isAbs (relName r) = false /\ safeRel (relName r) = Ok tt.
Proof.
  intros Hr Hne. destruct r as [|x r]; [done|]. pose proof Hr as [(Hx & Hdot & Hdd & Hs) _]%Forall_cons.
  assert (isAbs (relName (x :: r)) = false) as Ha.
  { unfold relName. destruct x as [|a x]; [done|]. cbn [containsByte] in Hs. apply orb_false_iff in Hs as [Hs _].
    destruct (isAbs _) eqn:E; [|done]. apply hasPrefix_spec in E as [t E]. apply Ascii.eqb_neq in Hs.
    exfalso. apply Hs. by destruct r; cbn in E; injection E. }
  assert (splitOn slash (relName (x :: r)) = x :: r) as Es by (by apply (splitOn_joinWith slash); [apply proper_noslash|]).
  assert (clean (relName (x :: r)) = relName (x :: r)) as Hc.
  { unfold clean. rewrite Ha, Es, cleanComps_id by done. fold (relName (x :: r)). cbn zeta. destruct (String.eqb_spec (relName (x :: r)) "") as [E|]; [|done].
    unfold relName in E. destruct x; [done|]. by destruct r. }
  split_and!; [done|done|]. unfold safeRel. rewrite Hc, Ha.
  destruct (String.eqb_spec (relName (x :: r)) "") as [E|_]; [unfold relName in E; destruct x; [done|]; by destruct r|].
  destruct (String.eqb_spec (relName (x :: r)) "..") as [E|_].
  { rewrite E in Es. cbn in Es. congruence. }
  destruct (hasPrefix (relName (x :: r)) "../") eqn:E; [|done]. apply hasPrefix_spec in E as [t E].
  rewrite E in Es. change ("../" +:+ t) with (".." +:+ String slash t) in Es. rewrite splitOn_cons_app in Es. cbn in Es. congruence.
Qed.

Lemma relName_join dst r : Forall proper dst -> Forall proper r -> r <> [] -> join [absOf dst; relName r] = absOf (dst ++ r).
Proof. intros Hd Hr Hne. by apply proper_rel_join. Qed.

Lemma stageInputs_parts now srcDir parts s :
  stageInputs now srcDir (map (fun x => FInput x.1 x.2.1 x.2.2) parts) None s =
  seqA (map (fun x => let* _ := check (fun _ => wrapErr ("input path " +:+ x.1) (safeRel x.1)) in
                      receive now "open" x.1 (join [srcDir; fromSlash x.1]) x.1 x.2.1 x.2.2) parts) s.
Proof.
  revert s. induction parts as [|x parts IH]; intros s; cbn [map stageInputs seqA]; [done|].
  rewrite bind_assoc. unfold bind at 1. symmetry. unfold bind at 1. destruct (check _ s) as [[]]; [|done|done].
  unfold bind. destruct (receive _ _ _ _ _ _ _ _) as [[]]; [|done|done]. by rewrite IH.
Qed.

Lemma stageInputs_tree now n dst files s :
  0 < n -> Forall proper dst -> rxOpen s = ∅ -> fits dst files (rxFs s) ->
  stageInputs now (absOf dst) (map (fun x => FInput x.1 x.2.1 x.2.2) (treeParts n files)) None s =
  (Done tt, mkReceiver ∅ (copyTree now dst files (rxFs s))).
Proof.
  intros Hn Hd Ho Hf. rewrite stageInputs_parts. apply (receive_tree now "open"); [done|done| |done|done].
  intros r c e s' Hr Hne. cbn [fst snd]. destruct (relName_clean r Hr Hne) as (_ & _ & Hs).
  rewrite bind_check, Hs. cbn [wrapErr]. unfold fromSlash. by rewrite relName_join.
Qed.

(** ** Facts: the host receives a tree *)

Lemma drain_outputs now outHost parts : forall rest end_ d,
  drainExecStream now outHost (map (fun x => FOutput x.1 x.2.1 x.2.2) parts ++ rest) end_ d =
  (let* _ := seqA (map (fun x => drainFrame now outHost (FOutput x.1 x.2.1 x.2.2)) parts) in drainExecStream now outHost rest end_) d.
Proof.
  induction parts as [|x parts IH]; intros rest end_ d; cbn [map app drainExecStream seqA]; [done|].
  rewrite bind_assoc. unfold bind at 1. symmetry. unfold bind at 1. destruct (drainFrame _ _ _ d) as [[]]; [|done|done]. by rewrite IH.
Qed.

Lemma seqA_onRx ms : forall d,
  seqA (map onRx ms) d = onRx (seqA ms) d.
Proof.
  induction ms as [|m ms IH]; intros d; cbn [map seqA]; [by destruct d|]. unfold bind, onRx.
  destruct (m (drRx d)) as [[] rx] eqn:E; [|done|done]. fold (onRx (seqA ms)).
  rewrite IH. unfold onRx. cbn. done.
Qed.

Lemma writeOutputChunk_receive now out r c e s : Forall proper out -> Forall proper r -> r <> [] ->
  writeOutputChunk now (absOf out) (relName r) c e s =
  receive now "open output" (relName r) (absOf (out ++ r)) (relName r) c e s.
Proof.
  intros Ho Hr Hne. destruct (relName_clean r Hr Hne) as (Hc & Ha & Hs). unfold writeOutputChunk. unfold safeRel in Hs.
  rewrite Ha, Hc in Hs |- *. destruct (String.eqb (relName r) ""); [done|]. cbn [orb].
  destruct (_ || _); [done|]. by rewrite relName_join.
Qed.

Lemma drain_tree now n out files d : 0 < n -> Forall proper out -> rxOpen (drRx d) = ∅ -> fits out files (rxFs (drRx d)) ->
  drGot d = true ->
  drainExecStream now (absOf out) (map (fun x => FOutput x.1 x.2.1 x.2.2) (treeParts n files)) None d =
  (Done (drCode d), mkDrained (mkReceiver ∅ (copyTree now out files (rxFs (drRx d)))) (drStdout d) (drStderr d) (drCode d) true).
Proof.
  intros Hn Ho Hop Hf Hg. rewrite <- (app_nil_r (map _ _)), drain_outputs. unfold bind.
  rewrite (map_ext _ (fun x => onRx (writeOutputChunk now (absOf out) x.1 x.2.1 x.2.2))) by done.
  rewrite <- (map_map (fun x => writeOutputChunk now (absOf out) x.1 x.2.1 x.2.2) onRx), seqA_onRx. unfold onRx.
  rewrite (receive_tree now "open output" n out); [|done|done| |done|done].
  - cbn. by rewrite Hg.
  - intros r c e s Hr Hne. by apply writeOutputChunk_receive.
Qed.

(** What a command wrote to one of its streams. *)
Definition written (toStderr : bool) (writes : list (bool * string)) : string :=
  sconcat (map snd (List.filter (fun w => Bool.eqb w.1 toStderr) writes)).

Lemma drain_stdio now out writes rest end_ : forall d,
  drainExecStream now out (stdioFrames writes ++ rest) end_ d =
  drainExecStream now out rest end_
    (mkDrained (drRx d) (drStdout d +:+ written false writes) (drStderr d +:+ written true writes) (drCode d) (drGot d)).
Proof.
  induction writes as [|[b x] writes IH]; intros d.
  { cbn. rewrite !sapp_nil_r. by destruct d. }
  unfold stdioFrames, written in *. cbn [omap list_omap fst snd]. destruct (String.eqb_spec x "") as [->|Hx].
  - rewrite IH. f_equal. by destruct b.
  - cbn [app drainExecStream]. unfold bind. destruct b; cbn [drainFrame]; unfold modify; rewrite IH; cbn; by rewrite sapp_assoc.
Qed.

(** ** Facts: trees *)

(** Only files with proper names, none below another. *)
Definition treeLike (fs : FS) : Prop :=
  forall p v, fsFiles fs !! p = Some v -> Forall proper p /\ forall q t, p = q ++ t -> t <> [] -> fsFiles fs !! q = None.

(** Nothing in the directory. *)
Definition vacant (d : path) (fs : FS) : Prop :=
  (forall t, t <> [] -> d ++ t ∉ fsDirs fs /\ fsFiles fs !! (d ++ t) = None) /\
  forall q t, d = q ++ t -> fsFiles fs !! q = None.

Lemma relBelow_spec root q r : relBelow root q = Some r <-> q = root ++ r /\ r <> [].
Proof.
  unfold relBelow. split.
  - destruct (isBelow root q) eqn:E; [|done]. apply isBelow_spec in E as [t ->]. rewrite drop_app_length.
    destruct t; [done|]. by intros [= <-].
  - intros [-> Hne]. rewrite (proj2 (isBelow_spec root (root ++ r))) by eauto. rewrite drop_app_length. by destruct r.
Qed.

Lemma filesBelow_spec root fs r c : (r, c) ∈ filesBelow root fs <-> r <> [] /\ exists t, fsFiles fs !! (root ++ r) = Some (c, t).
Proof.
  unfold filesBelow. rewrite list_elem_of_omap. split.
  - intros ([q [c' t]] & Hq%elem_of_map_to_list & H). cbn in H. destruct (relBelow root q) as [r'|] eqn:E; [|done].
    cbn in H. apply relBelow_spec in E as [-> Hne]. simplify_eq. eauto.
  - intros (Hne & t & Ht). exists (root ++ r, (c, t)). rewrite elem_of_map_to_list. split; [done|]. cbn.
    by rewrite (proj2 (relBelow_spec root (root ++ r) r)).
Qed.

Lemma filesBelow_nodup root fs : NoDup (map fst (filesBelow root fs)).
Proof.
  unfold filesBelow. assert (forall l : list (list string * (string * Z)), NoDup (map fst l) ->
    NoDup (map fst (omap (fun kv => (fun r => (r, kv.2.1)) <$> relBelow root kv.1) l)) /\
    forall r, r ∈ map fst (omap (fun kv => (fun r => (r, kv.2.1)) <$> relBelow root kv.1) l) -> root ++ r ∈ map fst l) as H.
  { induction l as [|[q [c t]] l IH]; intros Hnd; [split; [by apply NoDup_nil|intros r Hr; by apply elem_of_nil in Hr]|].
    cbn [map fst] in Hnd. apply NoDup_cons in Hnd as [Hq Hnd]. destruct (IH Hnd) as [IH1 IH2]. cbn [omap list_omap fst snd].
    destruct (relBelow root q) as [r'|] eqn:E; cbn [fmap option_fmap option_map].
    - apply relBelow_spec in E as [-> _]. split.
      + cbn [map fst]. apply NoDup_cons. split; [|done]. intros Hr. by apply Hq, IH2.
      + cbn [map fst]. intros r [->|Hr]%elem_of_cons; [by left|right; by apply IH2].
    - split; [done|]. intros r Hr. right. by apply IH2. }
  apply H, NoDup_fst_map_to_list.
Qed.

Definition walkOf (root : path) (fs : FS) : list (list string * string) := isort inWalkOrder (filesBelow root fs).

Lemma walkOf_spec root fs r c : (r, c) ∈ walkOf root fs <-> r <> [] /\ exists t, fsFiles fs !! (root ++ r) = Some (c, t).
Proof. unfold walkOf. rewrite isort_Permutation. apply filesBelow_spec. Qed.

Lemma walkOf_nodup root fs : NoDup (map fst (walkOf root fs)).
Proof. unfold walkOf. rewrite isort_Permutation. apply filesBelow_nodup. Qed.

Lemma walkOf_names root fs f : treeLike fs -> f ∈ walkOf root fs -> f.1 <> [] /\ Forall proper f.1.
Proof.
  intros Ht Hf. destruct f as [r c]. apply walkOf_spec in Hf as (Hne & t & Hf). split; [done|].
  apply Ht in Hf as [Hf _]. by apply Forall_app in Hf as [_ ?].
Qed.

(** A tree fits where each of its files can be made; an empty directory is
    such a place. *)
Lemma fits_walk root src d fs : treeLike src -> (forall f, f ∈ walkOf root src -> placeable (d ++ f.1) fs) ->
  fits d (walkOf root src) fs.
Proof.
  intros Ht Hp. split; [..|done].
  - intros f. by apply walkOf_names.
  - apply walkOf_nodup.
  - intros [r c] [r' c'] t Hf Hg E. cbn in E. apply walkOf_spec in Hf as (_ & z & Hf), Hg as (_ & z' & Hg).
    destruct t as [|x t]; [done|]. destruct (Ht _ _ Hf) as [_ Hb]. rewrite (Hb (root ++ r') (x :: t)) in Hg; [done| |done].
    by rewrite E, app_assoc.
Qed.

Lemma vacant_placeable d fs r : vacant d fs -> r <> [] -> placeable (d ++ r) fs.
Proof.
  intros [Hv1 Hv2] Hne. split; [by apply Hv1|].
  intros q t E Hnt. apply app_eq_inv in E as [(k & -> & ->)|(k & -> & ->)]; [by eapply Hv2|].
  destruct k as [|x k]; [rewrite app_nil_r; apply (Hv2 d []); by rewrite app_nil_r|by apply Hv1].
Qed.

Lemma copyTree_out now dst files p : forall fs, (forall f, f ∈ files -> p <> dst ++ f.1) ->
  fsFiles (copyTree now dst files fs) !! p = fsFiles fs !! p.
Proof.
  induction files as [|f files IH]; intros fs H; cbn; [done|]. unfold copyTree in IH. rewrite IH by (intros; apply H; by right).
  cbn. rewrite lookup_insert_ne; [done|]. intros E. by apply (H f ltac:(by left)).
Qed.

Lemma copyTree_in now dst files r c : forall fs, NoDup (map fst files) -> (r, c) ∈ files ->
  fsFiles (copyTree now dst files fs) !! (dst ++ r) = Some (c, now).
Proof.
  induction files as [|f files IH]; intros fs Hnd Hr; [by apply elem_of_nil in Hr|]. cbn [map] in Hnd.
  apply NoDup_cons in Hnd as [Hf Hnd]. apply elem_of_cons in Hr as [<-|Hr]; [|by apply IH].
  cbn [copyTree foldl fst snd]. fold (copyTree now dst files). unfold copyTree. fold (copyTree now dst files (putFile now (dst ++ r) c fs)).
  rewrite copyTree_out; [cbn; by rewrite lookup_insert_eq|]. intros g Hg E. apply app_inv_head in E. apply Hf. cbn. rewrite E.
  by apply list_elem_of_fmap_2.
Qed.

(** A copied tree has the files of the original. *)
Lemma copyTree_walk now dst root src fs r :
  r <> [] -> fsFiles (copyTree now dst (walkOf root src) fs) !! (dst ++ r) =
  match fsFiles src !! (root ++ r) with Some (c, _) => Some (c, now) | None => fsFiles fs !! (dst ++ r) end.
Proof.
  intros Hne. destruct (fsFiles src !! (root ++ r)) as [[c t]|] eqn:E.
  - apply copyTree_in; [apply walkOf_nodup|]. apply walkOf_spec. eauto.
  - apply copyTree_out. intros [r' c] Hf E'. apply app_inv_head in E'. cbn in E'. subst r'. apply walkOf_spec in Hf as (_ & t & Hf). cbn in Hf. congruence.
Qed.

Lemma treeFrames_walk {F} (mk : string -> string -> bool -> F) n root fs :
  Forall proper root -> root ∈ fsDirs fs -> (forall f, f ∈ walkOf root fs -> f.1 <> [] /\ Forall proper f.1) ->
  treeFrames mk n root fs = Ok (map (fun x => mk x.1 x.2.1 x.2.2) (treeParts n (walkOf root fs))).
Proof.
  intros Hp Hd Hf. unfold treeFrames, walkDir. rewrite bool_decide_eq_true_2 by done. cbn [rbind]. by apply walkFrames_parts.
Qed.

(** ** One command through the VM: facts *)

Definition guestSrc (id : string) : path := ["run"; "hpcc"; "src"; id].
Definition guestOut (id : string) : path := ["run"; "hpcc"; "out"; id].

Lemma guestDirs_spec id : proper id ->
  (join [stagingRoot; "src"; id] = absOf (guestSrc id) /\ Forall proper (guestSrc id) /\ agentSrcDir id = absOf (guestSrc id)) /\
  (join [stagingRoot; "out"; id] = absOf (guestOut id) /\ Forall proper (guestOut id) /\ agentOutDir id = absOf (guestOut id)).
Proof.
  intros Hid. assert (forall m, proper m -> Forall proper ["run"; "hpcc"; m; id]) as Hp
    by (intros m Hm; repeat (apply Forall_cons; split; [done|]); by apply Forall_nil).
  split; split_and!; try done; try (by apply Hp).
  - by apply (clean_absOf (guestSrc id)), Hp.
  - by apply (clean_absOf (guestOut id)), Hp.
Qed.

Section RunFacts.
  Context (nowHost nowGuest : Z) (environ : list string) (traceparent tracestate : string).
  Context (execve : list string -> list string -> string -> FS -> execOutcome * FS).

Lemma guest_step ctx m (k : unit -> act guest unit) g fs : m (guFs g) = (Ok tt, fs) ->
  bind (wrapping ctx (on guFs set_guFs m)) k g = k tt (set_guFs fs g).
Proof. intros H. unfold bind, wrapping, on. by rewrite H. Qed.

(** The guest's part, on a tree that fits. *)
Lemma agentExec_tree h files guest0 g0 g1 g2 g4 writes code g5 :
  proper (ehExecId h) -> ehArgv h <> [] ->
  let src := guestSrc (ehExecId h) in
  let out := guestOut (ehExecId h) in
  mkdirAll src guest0 = Ok g0 -> mkdirAll out g0 = Ok g1 ->
  mkdirOutputParents (ehArgv h) (absOf out) g1 = (Ok tt, g2) -> fits src files g2 ->
  mkdirSearchPaths (ehArgv h) (absOf src) (copyTree nowGuest src files g2) = (Ok tt, g4) ->
  execve (ehArgv h) (resolveEnv environ (ehEnv h)) (if String.eqb (ehCwd h) "" then absOf src else ehCwd h) g4 = (Ran writes code, g5) ->
  out ∈ fsDirs g5 -> (forall f, f ∈ walkOf out g5 -> f.1 <> [] /\ Forall proper f.1) ->
  agentExec nowGuest environ execve
    (FHeader h :: map (fun x => FInput x.1 x.2.1 x.2.2) (treeParts inputChunkSize files)) None (mkGuest guest0 []) =
  (Done tt, mkGuest (removeAll out (removeAll src g5))
     (stdioFrames writes ++ FResult (toInt32 code) ::
      map (fun x => FOutput x.1 x.2.1 x.2.2) (treeParts outputChunkSize (walkOf out g5)))).
Proof.
  intros Hid Hargv src out H0 H1 H2 Hfits H4 Hx Hout Hnames.
  destruct (guestDirs_spec _ Hid) as [(Es & Ps & _) (Eo & Po & _)]. unfold agentExec.
  destruct (String.eqb_spec (ehExecId h) "") as [E|_]; [rewrite E in Hid; by destruct Hid|].
  destruct (ehArgv h) as [|a argv] eqn:Ea; [done|]. rewrite <- Ea in *. rewrite Es, Eo. fold src out. rewrite !comps_absOf by done.
  rewrite (guest_step _ _ _ _ g0) by (unfold toR; cbn [guFs]; by rewrite H0).
  rewrite (guest_step _ _ _ _ g1) by (unfold toR; cbn [guFs set_guFs]; by rewrite H1).
  unfold defer, execBody. rewrite (guest_step _ _ _ _ g2) by done.
  unfold bind at 1, wrapping at 1, stage. cbn [guFs set_guFs].
  rewrite (stageInputs_tree nowGuest inputChunkSize src files); [|apply Nat.ltb_lt; reflexivity|done|done|done].
  cbn [set_guFs guFs guSent rxFs]. rewrite (guest_step _ _ _ _ g4) by done. cbn [set_guFs guFs guSent].
  unfold bind at 1, runCompiler. cbn zeta. cbn [set_guFs guFs guSent]. rewrite Hx. cbn [guFs guSent app].
  unfold bind, send, modify. cbn [guFs guSent]. unfold wrapping, streamOutputs. cbn [guFs guSent].
  rewrite comps_absOf by done. rewrite treeFrames_walk by done. cbn [set_guFs guFs guSent]. by rewrite <- app_assoc.
Qed.

Lemma searchPaths_files args srcDir fs r fs' : mkdirSearchPaths args srcDir fs = (r, fs') -> fsFiles fs' = fsFiles fs.
Proof.
  intros H. apply (f_equal snd) in H. cbn [snd] in H. subst fs'. unfold mkdirSearchPaths. destruct (String.eqb srcDir ""); [done|].
  apply eachR_files. clear fs. intros p fs. unfold mkOne. by repeat (case_match; [done || apply mkRel_files|]); apply mkRel_files.
Qed.

(** C5: A command in the microVM behaves like one on a copy of the source
    tree.  The compiler runs on exactly the files of the request's source
    directory, whatever their number and size; the host gets its exit code and
    what it wrote to its streams, and in the output directory exactly the files
    it left in the guest's, and the guest's copy is removed. *)
Theorem vm_exec_faithful req src out host guest0 g0 g1 g2 g4 writes code g5 :
  proper (erExecID req) -> erArgv req <> [] ->
  erSrcHostPath req = absOf src -> Forall proper src -> src ∈ fsDirs host -> treeLike host ->
  erOutHostPath req = absOf out -> Forall proper out ->
  let h := execHeader traceparent tracestate req in
  let gs := guestSrc (erExecID req) in
  let go := guestOut (erExecID req) in
  mkdirAll gs guest0 = Ok g0 -> mkdirAll go g0 = Ok g1 -> mkdirOutputParents (ehArgv h) (absOf go) g1 = (Ok tt, g2) -> vacant gs g2 ->
  mkdirSearchPaths (ehArgv h) (absOf gs) (copyTree nowGuest gs (walkOf src host) g2) = (Ok tt, g4) ->
  execve (ehArgv h) (resolveEnv environ (erEnv req)) (if String.eqb (ehCwd h) "" then absOf gs else ehCwd h) g4 = (Ran writes code, g5) ->
  go ∈ fsDirs g5 -> treeLike g5 -> (forall f, f ∈ walkOf go g5 -> placeable (out ++ f.1) host) ->
  (forall r, r <> [] -> fsFiles g4 !! (gs ++ r) = (fun f => (f.1, nowGuest)) <$> fsFiles host !! (src ++ r)) /\
  exists host',
    vmExec nowHost nowGuest environ traceparent tracestate execve req (mkVm host guest0) =
      (Done (toInt32 code), mkDrained (mkReceiver ∅ host') (written false writes) (written true writes) (toInt32 code) true,
       removeAll go (removeAll gs g5)) /\
    (forall r c t, r <> [] -> fsFiles g5 !! (go ++ r) = Some (c, t) -> fsFiles host' !! (out ++ r) = Some (c, nowHost)) /\
    (forall p, (forall r, p = out ++ r -> fsFiles g5 !! (go ++ r) = None) -> fsFiles host' !! p = fsFiles host !! p).
Proof.
  intros Hid Hargv Esrc Psrc Dsrc Thost Eout Pout h gs go H0 H1 H2 Hv H4 Hx Hout T5 Hplace.
  destruct (guestDirs_spec _ Hid) as [(_ & _ & Es) _].
  split.
  { intros r Hne. rewrite (searchPaths_files _ _ _ _ _ H4), copyTree_walk by done. rewrite (proj2 (proj1 Hv r Hne)).
    by destruct (fsFiles host !! (src ++ r)) as [[]|]. }
  exists (copyTree nowHost out (walkOf go g5) host). split_and!.
  - unfold vmExec. cbn zeta. cbn [vmHost vmGuest]. fold h. rewrite Esrc, comps_absOf by done. change (String.eqb (absOf src) "") with false. cbn iota.
    rewrite treeFrames_walk; [|done|done|intros f Hf; by apply (walkOf_names src host)].
    rewrite (agentExec_tree h (walkOf src host) guest0 g0 g1 g2 g4 writes code g5); try done.
    + rewrite Eout. cbn [guFs guSent endOf]. rewrite drain_stdio. cbn [drainStart drRx drStdout drStderr drCode drGot].
      cbn [drainExecStream]. unfold bind at 1. cbn [drainFrame]. unfold modify.
      rewrite drain_tree; [done|apply Nat.ltb_lt; reflexivity|done|done| |done]. by apply fits_walk.
    + unfold h. cbn. by destruct (erArgv req).
    + apply fits_walk; [done|]. intros f Hf. apply vacant_placeable; [done|]. by apply (walkOf_names src host f).
    + intros f Hf. by apply (walkOf_names go g5).
  - intros r c t Hne Hr. rewrite copyTree_walk by done. by rewrite Hr.
  - intros p Hp. apply copyTree_out. intros [r c] Hf E. apply walkOf_spec in Hf as (Hne & t & Hf). cbn in *. rewrite (Hp r E) in Hf. done.
Qed.
End RunFacts.

(** ** Facts: confinement *)

(** A relative path climbs first and descends then. *)
Lemma cleanComps_shape cs : Forall (fun c => containsByte c slash = false) cs ->
  exists k ps, cleanComps false cs = repeat ".." k ++ ps /\ Forall proper ps.
Proof.
  intros Hs. unfold cleanComps.
  assert (forall out, (exists k ps, rev out = repeat ".." k ++ ps /\ Forall proper ps) ->
    exists k ps, rev (foldl (cleanStep false) out cs) = repeat ".." k ++ ps /\ Forall proper ps) as H;
    [|apply H; by exists 0, []].
  induction Hs as [|c cs Hc _ IH]; intros out Ho; [done|]. cbn [foldl]. apply IH. destruct Ho as (k & ps & E & Hp). unfold cleanStep.
  destruct (String.eqb_spec c "") as [|H1]; [eauto|]. destruct (String.eqb_spec c ".") as [|H2]; [eauto|]. cbn [orb].
  destruct (String.eqb_spec c "..") as [->|H3]; [|exists k, (ps ++ [c]); cbn; rewrite E, app_assoc; split; [done|apply Forall_app; split; [done|by repeat constructor]]].
  apply (f_equal (@rev string)) in E. rewrite rev_involutive, rev_app_distr in E.
  destruct ps as [|p ps _] using rev_ind.
  - cbn in E. rewrite rev_repeat in E. subst out. destruct k as [|k]; [exists 1, []; by split; [|constructor]|].
    cbn [repeat]. rewrite String.eqb_refl. exists (S (S k)), []. split; [|constructor]. rewrite app_nil_r. apply (rev_repeat (S (S k))).
  - rewrite rev_app_distr in E. cbn in E. subst out. apply Forall_app in Hp as [Hps Hp]. apply Forall_cons in Hp as [(_ & _ & Hd & _) _].
    apply String.eqb_neq in Hd as ->. exists k, ps. by rewrite rev_app_distr, !rev_involutive.
Qed.

(** A path that passes the guards stays in the directory it is joined to. *)
Lemma guarded_join rs p : Forall proper rs -> isAbs p = false -> String.eqb (clean p) ".." || hasPrefix (clean p) "../" = false ->
  exists tr, Forall proper tr /\ join [absOf rs; p] = absOf (rs ++ tr) /\ join [absOf rs; clean p] = absOf (rs ++ tr).
Proof.
  intros Hr Ha Hg. destruct (cleanComps_shape (splitOn slash p) (splitOn_no_sep slash p)) as (k & ps & E & Hp).
  assert (k = 0) as ->.
  { destruct k as [|k]; [done|]. unfold clean in Hg. rewrite Ha, E in Hg. cbn [repeat app] in Hg.
    destruct (repeat ".." k ++ ps) as [|y ys]; [done|]. rewrite joinWith_cons in Hg by done.
    destruct (String.eqb_spec (".." +:+ "/" +:+ joinWith "/" (y :: ys)) "") as [|_]; [done|].
    change (".." +:+ "/" +:+ ?x) with ("../" +:+ x) in Hg. by rewrite hasPrefix_app, orb_true_r in Hg. }
  cbn [repeat app] in E. exists ps. split; [done|].
  assert (forall q, cleanComps false (splitOn slash q) = ps -> join [absOf rs; q] = absOf (rs ++ ps)) as Hj.
  { intros q Eq. cbn [join]. change (String.eqb (absOf rs) "") with false. cbn iota. cbn [joinWith]. unfold clean.
    assert (isAbs (absOf rs +:+ "/" +:+ q) = true) as -> by (unfold absOf; rewrite sapp_assoc; apply hasPrefix_app).
    rewrite cleanComps_join, Eq.
    2: { rewrite Eq. intros Hh. destruct ps as [|x ps']; [done|]. injection Hh as ->. by apply Forall_cons in Hp as [(_ & _ & ? & _) _]. }
    unfold absOf at 2. do 3 f_equal. destruct (decide (rs = [])) as [->|Hne]; [done|]. rewrite splitOn_absOf by done.
    unfold cleanComps. cbn [foldl]. change (cleanStep true [] "") with (@nil string). by apply cleanComps_id. }
  split; [by apply Hj|]. apply Hj. unfold clean. rewrite Ha, E. cbn zeta. destruct (decide (ps = [])) as [->|Hne]; [done|].
  destruct (String.eqb_spec (joinWith "/" ps) "") as [E0|_].
  { destruct ps as [|x ps']; [done|]. apply Forall_cons in Hp as [(Hx & _) _]. destruct x; [done|]. by destruct ps'. }
  rewrite (splitOn_joinWith slash) by (done || by apply proper_noslash). by apply cleanComps_id.
Qed.

(** Nothing outside [rs] changes, except that the directories above it may be
    made. *)
Definition confined (rs : path) (fs fs' : FS) : Prop :=
  (forall p, ~ inside rs p -> fsFiles fs' !! p = fsFiles fs !! p) /\
  (forall q, q ∈ fsDirs fs' -> q ∈ fsDirs fs \/ inside rs q \/ exists t, rs = q ++ t).

#[global] Instance confined_preorder rs : PreOrder (confined rs).
Proof.
  split; [split; auto|]. intros a b c [F1 D1] [F2 D2]. split.
  - intros p Hp. by rewrite F2, F1.
  - intros q Hq. destruct (D2 q Hq) as [Hq'|?]; [by apply D1|by right].
Qed.

Definition held (rs : path) (s : receiver) : Prop := forall key p off, rxOpen s !! key = Some (p, off) -> inside rs p.

Lemma mkdir_confined rs tr fs fs' : Forall proper (rs ++ tr) -> mkdirAll (comps (dir (absOf (rs ++ tr)))) fs = Ok fs' -> confined rs fs fs'.
Proof.
  intros Hp H. unfold mkdirAll in H. destruct (existsb _ _); [done|]. injection H as <-. split; [done|]. cbn [fsDirs].
  intros q [Hq|Hq]%elem_of_union; [|by left]. right. apply elem_of_list_to_set, pathPrefixes_spec in Hq as [r0 Hq].
  destruct (comps_dir_absOf (rs ++ tr) Hp) as [r1 Hr1]. rewrite Hq, <- app_assoc in Hr1. symmetry in Hr1.
  apply app_eq_inv in Hr1 as [(k & -> & _)|(k & -> & _)]; [left|right]; by exists k.
Qed.

Lemma write_confined rs p data now fs fs' : inside rs p -> writeFile p data now fs = Ok fs' -> confined rs fs fs'.
Proof.
  intros Hp H. unfold writeFile in H. repeat case_bool_decide; cbn in H; try done. injection H as <-. split; [|auto]. cbn.
  intros q Hq. rewrite lookup_insert_ne; [done|]. by intros ->.
Qed.

Lemma openFor_confined now rs tr what key name s o s' : Forall proper (rs ++ tr) -> held rs s ->
  openFor now what key (absOf (rs ++ tr)) name s = (o, s') -> held rs s' /\ confined rs (rxFs s) (rxFs s').
Proof.
  intros Hp Hh H. unfold openFor in H. destruct (rxOpen s !! key); [by simplify_eq|].
  rewrite comps_absOf in H by done. unfold bind, wrapping, on, toR in H.
  destruct (mkdirAll _ (rxFs s)) as [fs1|e] eqn:Em; [|injection H as <- <-; done].
  apply mkdir_confined in Em; [|done]. cbn [rxFs set_rxFs] in H.
  destruct (writeFile _ _ _ fs1) as [fs2|e] eqn:Ew; cbn in H; injection H as <- <-; [|done].
  apply write_confined with (rs := rs) in Ew; [|by exists tr]. split; [|cbn; by etrans].
  intros k p off. cbn. destruct (decide (k = key)) as [->|]; [rewrite lookup_insert_eq; intros [= <- <-]; by exists tr|].
  rewrite lookup_insert_ne by done. apply Hh.
Qed.

Lemma receive_confined now rs tr what key name chunk eof s o s' : Forall proper (rs ++ tr) -> held rs s ->
  receive now what key (absOf (rs ++ tr)) name chunk eof s = (o, s') -> held rs s' /\ confined rs (rxFs s) (rxFs s').
Proof.
  intros Hp Hh H. unfold receive, bind at 1 in H. destruct (openFor _ _ _ _ _ s) as [o1 s1] eqn:Eo.
  destruct (openFor_confined _ _ _ _ _ _ _ _ _ Hp Hh Eo) as [Hh1 Hc1].
  destruct o1 as [[]|e|]; [|by simplify_eq..]. unfold bind, modify in H. injection H as <- <-.
  set (s2 := if String.eqb chunk "" then s1 else writeOpen now key chunk s1).
  assert (held rs s2 /\ confined rs (rxFs s1) (rxFs s2)) as [Hh2 Hc2].
  { unfold s2. destruct (String.eqb chunk ""); [done|]. unfold writeOpen. destruct (rxOpen s1 !! key) as [[p off]|] eqn:Ek; [|done].
    pose proof (Hh1 _ _ _ Ek) as Hi. split; cbn.
    - intros k q off'. cbn. destruct (decide (k = key)) as [->|]; [rewrite lookup_insert_eq; by intros [= <- <-]|].
      rewrite lookup_insert_ne by done. apply Hh1.
    - split; [|auto]. intros q Hq. cbn. rewrite lookup_alter_ne; [done|]. by intros ->. }
  destruct eof; [|split; [done|by etrans]]. split; [|cbn; by etrans].
  intros k q off. cbn. intros [_ Hk]%lookup_delete_Some. by eapply Hh2.
Qed.

Lemma drainFrame_confined now out f d o d' : Forall proper out -> held out (drRx d) ->
  drainFrame now (absOf out) f d = (o, d') -> held out (drRx d') /\ confined out (rxFs (drRx d)) (rxFs (drRx d')).
Proof.
  intros Hout Hh H. destruct f as [[] bytes|code|p chunk eof]; cbn [drainFrame] in H; [unfold modify in H; by simplify_eq..|].
  change (String.eqb (absOf out) "") with false in H. cbn iota in H. unfold onRx in H.
  destruct (writeOutputChunk _ _ _ _ _ _) as [o1 rx] eqn:E. injection H as <- <-. cbn [drRx].
  unfold writeOutputChunk, failure in E. destruct (String.eqb p ""); cbn [orb] in E; [by simplify_eq|]. destruct (isAbs p) eqn:Ha; [by simplify_eq|].
  destruct (String.eqb (clean p) ".." || hasPrefix (clean p) "../") eqn:Eg; [by simplify_eq|].
  destruct (guarded_join out p Hout Ha Eg) as (tr & Htr & _ & Ej). rewrite Ej in E.
  apply receive_confined in E; [done|by apply Forall_app|done].
Qed.

(** C12: The guest cannot reach beyond its output directory.  Whatever frames
    come from the virtual machine, in whatever order, and however the stream
    ends, the host's files change below the output directory of the request
    only. *)
Theorem host_confined now out frames end_ host o d :
  Forall proper out -> drainExecStream now (absOf out) frames end_ (drainStart host) = (o, d) ->
  confined out host (rxFs (drRx d)).
Proof.
  intros Hout H. assert (held out (drRx (drainStart host))) as Hh by (intros k p off Hk; cbn in Hk; by rewrite lookup_empty in Hk).
  change host with (rxFs (drRx (drainStart host))). revert Hh H. generalize (drainStart host) as d0.
  induction frames as [|f frames IH]; intros d0 Hh H; cbn [drainExecStream] in H.
  { destruct end_; [unfold failure in H; by simplify_eq|]. case_match; by simplify_eq. }
  unfold bind in H. destruct (drainFrame _ _ f d0) as [o1 d1] eqn:Ef.
  destruct (drainFrame_confined _ _ _ _ _ _ Hout Hh Ef) as [Hh1 Hc1].
  destruct o1 as [[]|e|]; [|by simplify_eq..]. etrans; [done|]. by apply IH.
Qed.

(** Staging is confined to the source directory of the command in the same
    way. *)
Lemma guest_confined now src frames end_ : forall s o s',
  Forall proper src -> held src s -> stageInputs now (absOf src) frames end_ s = (o, s') -> confined src (rxFs s) (rxFs s').
Proof.
  induction frames as [|f frames IH]; intros s o s' Hsrc Hh H; cbn [stageInputs] in H.
  { destruct end_; unfold failure, ret in H; by simplify_eq. }
  destruct f as [h|p chunk eof]; [unfold failure in H; by simplify_eq|]. rewrite bind_check in H.
  destruct (safeRel p) as [[]|e] eqn:Es; cbn [wrapErr] in H; [|by simplify_eq]. unfold safeRel in Es.
  destruct (String.eqb p ""); [done|]. destruct (isAbs p) eqn:Ha; [done|]. cbn zeta in Es.
  destruct (String.eqb (clean p) ".." || hasPrefix (clean p) "../") eqn:Eg; [done|].
  destruct (guarded_join src p Hsrc Ha Eg) as (tr & Htr & Ej & _). unfold fromSlash, bind in H. rewrite Ej in H.
  destruct (receive _ _ _ _ _ _ _ s) as [o1 s1] eqn:Er. apply receive_confined in Er as [Hh1 Hc1]; [|by apply Forall_app|done].
  destruct o1 as [[]|e|]; [|by simplify_eq..]. etrans; [done|]. by eapply IH.
Qed.

(** A compiler that copies its source to its output, in a guest whose staging
    directories exist. *)
Definition exHost : FS :=
  mkFS {[ []; ["src"]; ["src"; "inc"]; ["out"] ]} (<[["src"; "a.c"] := ("int", 1%Z)]> (<[["src"; "inc"; "b.h"] := ("", 1%Z)]> ∅)).
Definition exGuest : FS := mkFS {[ []; ["run"]; ["run"; "hpcc"] ]} ∅.
Definition exExecve (argv env : list string) (cwd : string) (fs : FS) : execOutcome * FS :=
  match fsFiles fs !! ["run"; "hpcc"; "src"; "e1"; "a.c"] with
  | Some (c, _) => (Ran [(false, "ok"); (true, ""); (true, "warn")] 300,
                    mkFS (fsDirs fs) (<[["run"; "hpcc"; "out"; "e1"; "a.o"] := ("obj:" +:+ c, 2%Z)]> (fsFiles fs)))
  | None => (NotRun "no input", fs)
  end.
Definition exReq : ExecRequest := mkExecRequest "e1" ["cc"; "-I/src/inc"; "-c"; "/src/a.c"; "-o"; "/out/a.o"] [] "" "/src" "/out".
Definition exHdr : ExecHeader := execHeader "" "" exReq.
Definition forceOk {A} (d : A) (r : result A) : A := match r with Ok a => a | Err _ => d end.
Definition exG0 : FS := forceOk exGuest (mkdirAll (guestSrc "e1") exGuest).
Definition exG1 : FS := forceOk exGuest (mkdirAll (guestOut "e1") exG0).
Definition exG2 : FS := (mkdirOutputParents (ehArgv exHdr) (absOf (guestOut "e1")) exG1).2.
Definition exG4 : FS := (mkdirSearchPaths (ehArgv exHdr) (absOf (guestSrc "e1")) (copyTree 7 (guestSrc "e1") (walkOf ["src"] exHost) exG2)).2.
Definition exG5 : FS := (exExecve [] [] "" exG4).2.

(** The conditions on trees are decidable. *)

#[global] Instance proper_dec c : Decision (proper c).
Proof. unfold proper. apply _. Defined.

Lemma placeable_check p fs :
  p ∉ fsDirs fs -> Forall (fun q => q = p \/ fsFiles fs !! q = None) (pathPrefixes p) -> placeable p fs.
Proof.
  intros Hd Hf. split; [done|]. intros q t E Ht. rewrite Forall_forall in Hf.
  destruct (Hf q) as [->|]; [by apply pathPrefixes_spec; exists t| |done].
  rewrite <- (app_nil_r p) in E at 1. apply app_inv_head in E. congruence.
Qed.

Lemma treeLike_check fs :
  map_Forall (fun p _ => Forall proper p /\ Forall (fun q => q = p \/ fsFiles fs !! q = None) (pathPrefixes p)) (fsFiles fs) -> treeLike fs.
Proof.
  intros H p v Hp. destruct (H p v Hp) as [H1 H2]. split; [done|]. intros q t E Ht. rewrite Forall_forall in H2.
  destruct (H2 q) as [->|]; [by apply pathPrefixes_spec; exists t| |done].
  rewrite <- (app_nil_r p) in E at 1. apply app_inv_head in E. congruence.
Qed.

Lemma vacant_check d fs :
  Forall (fun q => relBelow d q = None) (elements (fsDirs fs)) -> map_Forall (fun q _ => relBelow d q = None) (fsFiles fs) ->
  Forall (fun q => fsFiles fs !! q = None) (pathPrefixes d) -> vacant d fs.
Proof.
  intros H1 H2 H3. rewrite Forall_forall in H1, H3. split.
  - intros t Ht. assert (relBelow d (d ++ t) = Some t) as E by by apply relBelow_spec. split.
    + intros Hd. rewrite H1 in E; [done|]. by apply elem_of_elements.
    + destruct (fsFiles fs !! (d ++ t)) eqn:Ef; [|done]. apply H2 in Ef. congruence.
  - intros q t E. apply H3, pathPrefixes_spec. by exists t.
Qed.

Lemma vm_exec_faithful_witness : exists host',
  vmExec 9 7 [] "" "" exExecve exReq (mkVm exHost exGuest) =
    (Done 300%Z, mkDrained (mkReceiver ∅ host') "ok" "warn" 300 true, removeAll (guestOut "e1") (removeAll (guestSrc "e1") exG5)) /\
  fsFiles host' !! ["out"; "a.o"] = Some ("obj:int", 9%Z).
Proof.
  destruct (vm_exec_faithful 9 7 [] "" "" exExecve exReq ["src"] ["out"] exHost exGuest exG0 exG1 exG2 exG4
    [(false, "ok"); (true, ""); (true, "warn")] 300 exG5) as (_ & host' & E & Hin & _).
  - repeat split; discriminate.
  - discriminate.
  - reflexivity.
  - repeat constructor; discriminate.
  - decided.
  - apply treeLike_check. decided.
  - reflexivity.
  - repeat constructor; discriminate.
  - vm_compute. reflexivity.
  - vm_compute. reflexivity.
  - vm_compute. reflexivity.
  - apply vacant_check; decided.
  - vm_compute. reflexivity.
  - vm_compute. reflexivity.
  - decided.
  - apply treeLike_check. decided.
  - apply Forall_forall. apply (Forall_impl (fun f => placeable (["out"] ++ f.1) exHost)); [|done].
    replace (walkOf (guestOut (erExecID exReq)) exG5) with [(["a.o"], "obj:int")] by (vm_compute; reflexivity).
    apply Forall_cons. split; [|constructor]. apply placeable_check; decided.
  - exists host'. split; [exact E|]. apply (Hin ["a.o"] "obj:int" 2%Z); [discriminate|vm_compute; reflexivity].
Defined.

Lemma host_confined_witness :
  confined ["out"] exHost (rxFs (drRx (drainExecStream 9 "/out" [FOutput "../src/a.c" "evil" true; FOutput "x" "1" false] None (drainStart exHost)).2)).
Proof.
  refine (host_confined 9 ["out"] [FOutput "../src/a.c" "evil" true; FOutput "x" "1" false] None exHost _ _ _ (surjective_pairing _)).
  repeat constructor; discriminate.
Defined.

(** The Hyper-V driver has no such guard: a guest that names an output
    [../src/a.c] overwrites a file beside the output directory. *)
Theorem hyperv_output_escapes : exists frames d,
  drainAgentResponses 9 true true "/out" frames None (drainStart exHost) = (Done (Some 0%Z), d) /\
  ~ confined ["out"] exHost (rxFs (drRx d)).
Proof.
  exists [FOutput "../src/a.c" "evil" true; FResult 0].
  eexists. split; [vm_compute; reflexivity|]. intros [H _]. specialize (H ["src"; "a.c"]). vm_compute in H.
  assert (~ inside ["out"] ["src"; "a.c"]) as Hi by by intros [t [=]]. specialize (H Hi). discriminate.
Qed.

(** A Hyper-V guest whose stream ends early yields no result and no error. *)
Example closed_without_result :
  (drainAgentResponses 0 true true "/out" [FStdio false "partial"] None (drainStart exHost)).1 = Done None /\
  (drainExecStream 0 "/out" [FStdio false "partial"] None (drainStart exHost)).1 = Failed "agent stream closed without ExecResult".
Proof. split; vm_compute; reflexivity. Qed.

(** An execution id is not checked: it can name the staging root itself, which
    the agent removes when it is done. *)
Example exec_id_escapes :
  let r := agentExec 0 [] exExecve [FHeader (mkExecHeader "../out" ["cc"] [] "" "" "")] None
             (mkGuest (mkFS (fsDirs exGuest) {[ ["run"; "hpcc"; "out"; "e2"; "b.o"] := ("other", 1%Z) ]}) []) in
  fsFiles (guFs r.2) !! ["run"; "hpcc"; "out"; "e2"; "b.o"] = None.
Proof. vm_compute. reflexivity. Qed.
