(* ===== verification/Firecracker.v ===== *)
(** * Firecracker: the life of a microVM
    ([internal/worker/runtime/firecracker.go]).

    [Start] stages the kernel and the prepared root file system into a jail,
    starts the VMM, configures it through its API and waits for the agent;
    [Stop] and the unwinding of a failed [Start] release everything again.  The
    machine has a file system (that of the [Store] file, with owners and hard
    links), the running processes and the mounts of the jails.  What the
    operating system and the VMM answer is a parameter: whether a link or a
    change of owner succeeds, the process, the API's answers, and what each
    probe of a socket sees. *)

From S2P Require Import Prelude Effects GoStrings GoPath Store Staging Agent SquashMeta SquashCodec SquashWriter SquashReader SquashBuild SquashImage Rootfs.

(** ** Options *)

Definition defaultBootArgs : string := "console=ttyS0 reboot=k panic=1 pci=off init=/.hpcc/agent root=/dev/vda ro".

Record FirecrackerOptions := mkFirecrackerOptions {
  foFirecrackerBin : string;
  foJailerBin : string;
  foKernelImage : string;
  foRootfsDir : string;
  foRunDir : string;
  foUID : Z;
  foGID : Z;
  foBootArgs : string
}.

Definition NewFirecracker (o : FirecrackerOptions) : result FirecrackerOptions :=
  if String.eqb (foFirecrackerBin o) "" then Err "firecracker runtime: firecracker_bin is required"
  else if String.eqb (foJailerBin o) "" then Err "firecracker runtime: jailer_bin is required"
  else if String.eqb (foKernelImage o) "" then Err "firecracker runtime: kernel_image is required"
  else if String.eqb (foRootfsDir o) "" then Err "firecracker runtime: rootfs_dir is required"
  else if String.eqb (foRunDir o) "" then Err "firecracker runtime: run_dir is required"
  else if (foUID o <=? 0)%Z || (foGID o <=? 0)%Z
  then Err "firecracker runtime: uid/gid must be set to a non-root user (jailer requirement)"
  else Ok (mkFirecrackerOptions (foFirecrackerBin o) (foJailerBin o) (foKernelImage o) (foRootfsDir o) (foRunDir o)
             (foUID o) (foGID o) (if String.eqb (foBootArgs o) "" then defaultBootArgs else foBootArgs o)).

(** ** Waiting *)

(** What one round of [waitForFirecrackerSocket] sees: whether the jailer has
    exited, the dial, the context, the clock, and the jailer again during the
    pause. *)
Record socketProbe := mkSocketProbe {
  spExited : bool;
  spDial : bool;
  spCtx : option string;
  spNow : Z;
  spExitedLater : bool
}.

Definition socketWaitTimeout : Z := 30000.
Definition socketPause : Z := 50.

Definition jailerExited (path : string) : string := "jailer exited before api socket appeared at " +:+ path +:+ " (check stderr above)".

(** Times are in milliseconds; [None] is out of fuel. *)
Fixpoint waitForFirecrackerSocket (fuel : nat) (probes : nat -> socketProbe) (round : nat) (path : string) (deadline : Z)
    : option (result unit) :=
  match fuel with
  | 0 => None
  | S k =>
      let p := probes round in
      if spExited p then Some (Err (jailerExited path))
      else if spDial p then Some (Ok tt)
      else match spCtx p with
      | Some e => Some (Err e)
      | None =>
          if (deadline <? spNow p)%Z then Some (Err ("timeout after 30s waiting for " +:+ path))
          else if spExitedLater p then Some (Err (jailerExited path))
          else waitForFirecrackerSocket k probes (S round) path deadline
      end
  end.

(** A round of [waitForAgent]. *)
Record agentProbe := mkAgentProbe {
  apExited : bool;
  apCtx : option string;
  apDial : result unit
}.

Definition agentDialTimeout : Z := 30000.
Definition agentPause : Z := 100.

Fixpoint waitForAgent (fuel : nat) (probes : nat -> agentProbe) (round : nat) (lastErr : option string) : option (result unit) :=
  match fuel with
  | 0 => None
  | S k =>
      let p := probes round in
      if apExited p then
        Some (Err (match lastErr with
                   | Some e => "guest exited before agent answered: " +:+ e +:+ " (check stderr above)"
                   | None => "guest exited before agent answered (check stderr above)"
                   end))
      else match apCtx p with
      | Some c => Some (Err (match lastErr with Some e => c +:+ " (last vsock error: " +:+ e +:+ ")" | None => c end))
      | None =>
          match apDial p with
          | Ok _ => Some (Ok tt)
          | Err e => waitForAgent k probes (S round) (Some e)
          end
      end
  end.

(** ** The vsock handshake *)

(** The answer line, read from the connection in the given chunks through a
    [bufio.Reader]: the line with its delimiter, what the reader has buffered
    behind it, and the chunks not yet read. *)
Fixpoint readLine (buf : string) (chunks : list string) : option (string * string * list string) :=
  match indexBy (Ascii.eqb "010"%char) buf with
  | Some i => Some (stake (S i) buf, sdrop (S i) buf, chunks)
  | None => match chunks with
            | [] => None
            | c :: rest => readLine (buf +:+ c) rest
            end
  end.

(** [dialVsockUDS] after the dial: the bytes the caller reads from the
    connection it gets. *)
Definition dialVsockUDS (chunks : list string) : result (list string) :=
  match readLine "" chunks with
  | None => Err "read CONNECT reply: EOF"
  | Some (line, _, rest) =>
      if negb (hasPrefix line "OK ") then Err ("vsock connect rejected: " +:+ trimSpace line) else Ok rest
  end.

(** ** The machine *)

Inductive apiCall :=
  | PutMachineConfiguration (vcpus memMib : Z)
  | PutGuestBootSource (kernel bootArgs : string)
  | PutGuestDrive (driveID pathOnHost : string) (isRoot isReadOnly : bool)
  | PutGuestVsock (cid : Z) (udsPath : string)
  | CreateSyncAction (action : string).

(** [mcInodes] are the files with more than one name, by the number of their
    inode. *)
Record machine := mkMachine {
  mcFs : FS;
  mcOwner : gmap (list string) (Z * Z);
  mcInodes : gmap (list string) nat;
  mcProcs : gset Z;
  mcMounts : gset (list string);
  mcCalls : list apiCall
}.

Definition set_mcFs (fs : FS) (m : machine) : machine :=
  mkMachine fs (mcOwner m) (mcInodes m) (mcProcs m) (mcMounts m) (mcCalls m).

Record VmSpec := mkVmSpec {
  vsID : string;
  vsTenantID : string;
  vsImageDigest : string;
  vsVCPUs : Z;
  vsMemoryBytes : Z
}.

(** What the system answers during one [Start]. *)
Record environment := mkEnvironment {
  evLinks : bool;
  evChown : bool;
  evSpawn : list string -> result Z;
  evSocket : nat -> socketProbe;
  evStart : Z;
  evApi : apiCall -> result unit;
  evAgent : nat -> agentProbe;
  evClient : result unit;
  evNow : Z;
  evSharedMounts : bool
}.

Section Lifecycle.
  Context (opts : FirecrackerOptions) (ev : environment).

(** [os.Link]: another name of the same file. *)
Definition freshInode (tab : gmap (list string) nat) : nat := S (map_fold (fun _ i n => i `max` n) 0 tab).

Definition linkFile (src dst : path) (m : machine) : result machine :=
  if negb (evLinks ev) then Err "link failed"
  else match fsFiles (mcFs m) !! src with
       | None => Err "no such file"
       | Some (data, t) =>
           let! fs := writeFile dst data t (mcFs m) in
           let inode := default (freshInode (mcInodes m)) (mcInodes m !! src) in
           Ok (mkMachine fs (mcOwner m) (<[dst := inode]> (<[src := inode]> (mcInodes m))) (mcProcs m) (mcMounts m) (mcCalls m))
       end.

Definition copyFile (src dst : path) (m : machine) : result machine :=
  match fsFiles (mcFs m) !! src with
  | None => Err ("open " +:+ absOf src +:+ ": no such file")
  | Some (data, _) => rmap (fun fs => set_mcFs fs m) (wrapErr ("create " +:+ absOf dst) (writeFile dst data (evNow ev) (mcFs m)))
  end.

(** [os.Chown] changes the owner of the inode, under all its names. *)
Definition namesOf (p : path) (tab : gmap (list string) nat) : list path :=
  p :: match tab !! p with
       | Some i => map fst (List.filter (fun kv => kv.2 =? i) (map_to_list tab))
       | None => []
       end.

Definition chownFile (p : path) (m : machine) : result machine :=
  if negb (evChown ev) then Err ("chown " +:+ absOf p)
  else Ok (mkMachine (mcFs m) (foldr (fun q o => <[q := (foUID opts, foGID opts)]> o) (mcOwner m) (namesOf p (mcInodes m)))
             (mcInodes m) (mcProcs m) (mcMounts m) (mcCalls m)).

Definition unlinkFile (p : path) (m : machine) : machine :=
  mkMachine (removeFile p (mcFs m)) (mcOwner m) (delete p (mcInodes m)) (mcProcs m) (mcMounts m) (mcCalls m).

Definition stageIntoChroot (src dst : path) : act machine unit :=
  let* _ := modify (unlinkFile dst) in
  let* _ := (fun m => match linkFile src dst m with
                      | Ok m1 => (Done tt, m1)
                      | Err _ => match copyFile src dst m with Ok m1 => (Done tt, m1) | Err e => (Failed e, m) end
                      end) in
  fun m => match chownFile dst m with Ok m1 => (Done tt, m1) | Err e => (Failed e, m) end.

(** [_ = os.RemoveAll(p)]: a directory something is mounted on, or below,
    cannot be removed. *)
Definition removeTree (p : path) (m : machine) : machine :=
  let held := filter (fun d => existsb (isBelow d) (elements (mcMounts m)) = true) (fsDirs (mcFs m)) in
  mkMachine (mkFS (fsDirs (removeAll p (mcFs m)) ∪ held) (fsFiles (removeAll p (mcFs m)))) (mcOwner m)
    (filter (fun kv => isBelow p kv.1 = false) (mcInodes m)) (mcProcs m) (mcMounts m) (mcCalls m).

(** [_ = cmd.Process.Kill(); <-exited]. *)
Definition killProc (pid : Z) (m : machine) : machine :=
  mkMachine (mcFs m) (mcOwner m) (mcInodes m) (mcProcs m ∖ {[pid]}) (mcMounts m) (mcCalls m).

(** The jailer binds its root and mounts a file system below it; the mounts
    are seen on the host when its root mount is shared. *)
Definition spawnProc (pid : Z) (chrootRoot : path) (m : machine) : machine :=
  mkMachine (mcFs m) (mcOwner m) (mcInodes m) ({[pid]} ∪ mcProcs m)
    ((if evSharedMounts ev then {[chrootRoot; chrootRoot ++ ["run"]]} else ∅) ∪ mcMounts m) (mcCalls m).

Definition callApi (c : apiCall) : act machine unit := fun m =>
  match evApi ev c with
  | Ok _ => (Done tt, mkMachine (mcFs m) (mcOwner m) (mcInodes m) (mcProcs m) (mcMounts m) (mcCalls m ++ [c]))
  | Err e => (Failed e, m)
  end.

(** [if err != nil \{ cleanup(); return err \}]. *)
Definition orElse {A} (cleanup : machine -> machine) (a : act machine A) : act machine A := fun m =>
  match a m with
  | (Failed e, m') => (Failed e, cleanup m')
  | r => r
  end.

Definition makeDirs (p : path) : act machine unit := fun m =>
  match mkdirAll p (mcFs m) with
  | Ok fs => (Done tt, set_mcFs fs m)
  | Err e => (Failed e, m)
  end.

Definition memMib (bytes : Z) : Z := Z.max 1 (Z.quot bytes (1024 * 1024)).

Definition agentVsockCID : Z := 3.
Definition agentVsockUDS : string := "/run/vsock.sock".

(** The calls that configure and start the machine, in order. *)
Definition bootCalls (spec : VmSpec) : list (string * apiCall) :=
  [("put machine config", PutMachineConfiguration (vsVCPUs spec) (memMib (vsMemoryBytes spec)));
   ("put boot source", PutGuestBootSource "/vmlinux" (foBootArgs opts));
   ("put rootfs drive", PutGuestDrive "rootfs" "/rootfs.sqsh" true true);
   ("put vsock", PutGuestVsock agentVsockCID agentVsockUDS);
   ("instance start", CreateSyncAction "InstanceStart")].

Fixpoint callAll (calls : list (string * apiCall)) : act machine unit :=
  match calls with
  | [] => ret tt
  | (what, c) :: rest => let* _ := wrapping ("firecracker: " +:+ what) (callApi c) in callAll rest
  end.

(** Rounds enough for every wait to end at its deadline. *)
Definition socketFuel : nat := 602.
Definition agentFuel : nat := 302.

Definition checked (what : string) (r : option (result unit)) : act machine unit :=
  match r with
  | Some (Ok _) => ret tt
  | Some (Err e) => failure (what +:+ ": " +:+ e)
  | None => panic
  end.

Record vmContainer := mkVmContainer {
  vcSpec : VmSpec;
  vcPid : Z;
  vcChrootDir : list string;
  vcStopped : bool
}.

(** After the process is spawned. *)
Definition bootVm (spec : VmSpec) (pid : Z) (socketPath : string) : act machine unit :=
  let* _ := checked "firecracker: wait for api socket"
              (waitForFirecrackerSocket socketFuel (evSocket ev) 0 socketPath (evStart ev + socketWaitTimeout)) in
  let* _ := callAll (bootCalls spec) in
  let* _ := checked "firecracker: dial agent" (waitForAgent agentFuel (evAgent ev) 0 None) in
  checked "firecracker: dial agent" (Some (evClient ev)).

Definition chrootDirOf (spec : VmSpec) : path := comps (join [foRunDir opts; "firecracker"; vsID spec]).

Definition jailerArgs (spec : VmSpec) : list string :=
  ["--id"; vsID spec; "--exec-file"; foFirecrackerBin opts; "--uid"; itoa (foUID opts); "--gid"; itoa (foGID opts);
   "--chroot-base-dir"; foRunDir opts; "--"; "--api-sock"; "/run/firecracker.socket"].

Definition Start (spec : VmSpec) : act machine vmContainer := fun m =>
  match encodeRootfsName (vsImageDigest spec) with
  | Err e => (Failed ("firecracker: resolve rootfs path: " +:+ e), m)
  | Ok name =>
      let rootfsHost := comps (join [foRootfsDir opts; name]) in
      if negb (bool_decide (is_Some (fsFiles (mcFs m) !! rootfsHost)) || bool_decide (rootfsHost ∈ fsDirs (mcFs m)))
      then (Failed ("firecracker: prepared rootfs missing for " +:+ vsImageDigest spec), m)
      else
        let chrootDir := chrootDirOf spec in
        let chrootRoot := chrootDir ++ ["root"] in
        (let* _ := wrapping ("firecracker: create chroot " +:+ absOf chrootRoot) (makeDirs chrootRoot) in
         let* _ := orElse (removeTree chrootDir) (wrapping "firecracker: stage kernel"
                     (stageIntoChroot (comps (foKernelImage opts)) (chrootRoot ++ ["vmlinux"]))) in
         let* _ := orElse (removeTree chrootDir) (wrapping "firecracker: stage rootfs"
                     (stageIntoChroot rootfsHost (chrootRoot ++ ["rootfs.sqsh"]))) in
         match evSpawn ev (foJailerBin opts :: jailerArgs spec) with
         | Err e => orElse (removeTree chrootDir) (failure ("firecracker: start jailer " +:+ foJailerBin opts +:+ ": " +:+ e))
         | Ok pid =>
             let* _ := modify (spawnProc pid chrootRoot) in
             let* _ := orElse (fun m => removeTree chrootDir (killProc pid m))
                         (bootVm spec pid (join ["/proc/" +:+ itoa pid +:+ "/root"; "run"; "firecracker.socket"])) in
             ret (mkVmContainer spec pid chrootDir false)
         end) m
  end.

Definition cleanupJailerMounts (chrootDir : path) (m : machine) : machine :=
  mkMachine (mcFs m) (mcOwner m) (mcInodes m) (mcProcs m)
    (mcMounts m ∖ {[chrootDir ++ ["root"; "run"]; chrootDir ++ ["root"]; chrootDir]}) (mcCalls m).

Definition Stop (c : vmContainer) (m : machine) : vmContainer * machine :=
  if vcStopped c then (c, m)
  else (mkVmContainer (vcSpec c) (vcPid c) (vcChrootDir c) true,
        removeTree (vcChrootDir c) (cleanupJailerMounts (vcChrootDir c) (killProc (vcPid c) m))).
End Lifecycle.

(** ** Facts: waiting *)

Lemma waitSocket_ends probes path deadline : forall fuel round,
  (exists i, round <= i < round + fuel /\ (deadline < spNow (probes i))%Z) ->
  exists r, waitForFirecrackerSocket fuel probes round path deadline = Some r.
Proof.
  induction fuel as [|fuel IH]; intros round (i & Hi & Hd); [lia|]. cbn.
  destruct (spExited (probes round)); [by eexists|]. destruct (spDial (probes round)); [by eexists|].
  destruct (spCtx (probes round)); [by eexists|]. destruct (Z.ltb_spec deadline (spNow (probes round))); [by eexists|].
  destruct (spExitedLater (probes round)); [by eexists|]. apply IH. exists i. split; [|done].
  assert (i <> round) by (intros ->; lia). lia.
Qed.

Lemma waitAgent_ends probes : forall fuel round lastErr,
  (exists i, round <= i < round + fuel /\ is_Some (apCtx (probes i))) ->
  exists r, waitForAgent fuel probes round lastErr = Some r.
Proof.
  induction fuel as [|fuel IH]; intros round lastErr (i & Hi & Hd); [lia|]. cbn.
  destruct (apExited (probes round)); [by eexists|]. destruct (apCtx (probes round)) eqn:Ec; [by eexists|].
  destruct (apDial (probes round)); [by eexists|]. apply IH. exists i. split; [|done].
  assert (i <> round) by (intros ->; rewrite Ec in Hd; by destruct Hd). lia.
Qed.

(** The clock advances by the pause in every round, and the context of the
    agent's probes expires at its deadline. *)
Record clockRuns (ev : environment) : Prop := {
  cr_socket i : (evStart ev + socketPause * Z.of_nat i <= spNow (evSocket ev i))%Z;
  cr_agent i : (agentDialTimeout <= agentPause * Z.of_nat i)%Z -> is_Some (apCtx (evAgent ev i))
}.

Lemma callAll_Done ev calls : forall m o m', callAll ev calls m = (o, m') ->
  o <> Panicked /\ mcFs m' = mcFs m /\ mcProcs m' = mcProcs m /\ mcMounts m' = mcMounts m /\ mcOwner m' = mcOwner m /\ mcInodes m' = mcInodes m /\
  (o = Done tt -> mcCalls m' = mcCalls m ++ map snd calls).
Proof.
  induction calls as [|[what c] calls IH]; intros m o m' H; cbn [callAll] in H.
  { unfold ret in H. injection H as <- <-. cbn. by rewrite app_nil_r. }
  unfold bind, wrapping, callApi in H. destruct (evApi ev c) as [[]|e]; [|injection H as <- <-; split_and!; by try discriminate].
  apply IH in H as (Hp & Hf & Hpr & Hm & Ho & Hl & Hc). cbn in *. split_and!; try done. intros E. rewrite (Hc E). by rewrite <- app_assoc.
Qed.

Lemma bootVm_spec opts ev spec pid sock m o m' : bootVm opts ev spec pid sock m = (o, m') ->
  mcFs m' = mcFs m /\ mcProcs m' = mcProcs m /\ mcMounts m' = mcMounts m /\ mcOwner m' = mcOwner m /\ mcInodes m' = mcInodes m /\
  (clockRuns ev -> o <> Panicked) /\ (o = Done tt -> mcCalls m' = mcCalls m ++ map snd (bootCalls opts spec)).
Proof.
  intros H. unfold bootVm, bind at 1 in H.
  destruct (waitForFirecrackerSocket _ _ _ _ _) as [[[]|e]|] eqn:Es; cbn [checked] in H; unfold ret, failure, panic in H.
  - unfold bind in H. destruct (callAll ev _ m) as [o1 m1] eqn:Ec. apply callAll_Done in Ec as (Hp & Hf & Hpr & Hm & Ho & Hl & Hc).
    destruct o1 as [[]|e|]; [|injection H as <- <-; split_and!; by try discriminate|done].
    destruct (waitForAgent _ _ _ _) as [[[]|e]|] eqn:Ea; cbn [checked] in H; unfold ret, failure, panic in H;
      [destruct (evClient ev) as [[]|e]|..]; injection H as <- <-;
      [by split_and!; auto|by split_and!..|]. split_and!; try done. intros C. destruct (waitAgent_ends (evAgent ev) agentFuel 0 None) as [r Hr]; [|congruence].
    exists 300. split; [unfold agentFuel; lia|]. by apply cr_agent.
  - injection H as <- <-. split_and!; by try discriminate.
  - injection H as <- <-. split_and!; try done. intros C.
    destruct (waitSocket_ends (evSocket ev) sock (evStart ev + socketWaitTimeout) socketFuel 0) as [r Hr]; [|congruence].
    exists 601. split; [unfold socketFuel; lia|]. pose proof (cr_socket _ C 601) as Hc. unfold socketPause, socketWaitTimeout in *. lia.
Qed.

(** ** Facts: staging *)

(** Everything but the files is as it was. *)
Definition sameRest (m m' : machine) : Prop :=
  mcProcs m' = mcProcs m /\ mcMounts m' = mcMounts m /\ mcCalls m' = mcCalls m.

(** Owners change only to the VM's user. *)
Definition owners (opts : FirecrackerOptions) (m m' : machine) : Prop :=
  forall q, mcOwner m' !! q = mcOwner m !! q \/ mcOwner m' !! q = Some (foUID opts, foGID opts).

Lemma foldr_owner (owner : Z * Z) (o : gmap (list string) (Z * Z)) l q :
  foldr (fun q o => <[q := owner]> o) o l !! q = o !! q \/ foldr (fun q o => <[q := owner]> o) o l !! q = Some owner.
Proof.
  induction l as [|x l IH]; [by left|]. cbn [foldr].
  destruct (decide (x = q)) as [->|]; [right; apply lookup_insert_eq|]. by rewrite lookup_insert_ne.
Qed.

Lemma chown_owners opts ev p m m' : chownFile opts ev p m = Ok m' -> owners opts m m'.
Proof. unfold chownFile. destruct (negb _); [done|]. intros H q. apply Ok_inj in H as <-. apply foldr_owner. Qed.

Lemma writeFile_Ok p data now fs fs' : writeFile p data now fs = Ok fs' -> fs' = mkFS (fsDirs fs) (<[p := (data, now)]> (fsFiles fs)).
Proof. unfold writeFile. intros H. repeat case_bool_decide; cbn in H; try done. by injection H. Qed.

Lemma stage_spec opts ev src dst m o m' : src <> dst -> stageIntoChroot opts ev src dst m = (o, m') ->
  o <> Panicked /\ sameRest m m' /\ owners opts m m' /\ fsDirs (mcFs m') = fsDirs (mcFs m) /\
  (forall p, p <> dst -> fsFiles (mcFs m') !! p = fsFiles (mcFs m) !! p) /\
  (o = Done tt -> exists data t t', fsFiles (mcFs m) !! src = Some (data, t) /\ fsFiles (mcFs m') !! dst = Some (data, t')).
Proof.
  intros Hne H. unfold stageIntoChroot, bind at 1, modify in H. unfold bind in H.
  set (m0 := unlinkFile dst m) in *. assert (fsFiles (mcFs m0) !! src = fsFiles (mcFs m) !! src) as Esrc
    by (cbn; by rewrite lookup_delete_ne).
  assert (forall p, p <> dst -> fsFiles (mcFs m0) !! p = fsFiles (mcFs m) !! p) as E0 by (intros p Hp; cbn; by rewrite lookup_delete_ne).
  assert (forall m1 data t t', fsFiles (mcFs m0) !! src = Some (data, t) -> sameRest m m1 -> mcOwner m1 = mcOwner m ->
    mcFs m1 = mkFS (fsDirs (mcFs m)) (<[dst := (data, t')]> (fsFiles (mcFs m0))) ->
    (match chownFile opts ev dst m1 with Ok m1 => (Done tt, m1) | Err e => (Failed e, m1) end) = (o, m') ->
    o <> Panicked /\ sameRest m m' /\ owners opts m m' /\ fsDirs (mcFs m') = fsDirs (mcFs m) /\
    (forall p, p <> dst -> fsFiles (mcFs m') !! p = fsFiles (mcFs m) !! p) /\
    (o = Done tt -> exists data t t', fsFiles (mcFs m) !! src = Some (data, t) /\ fsFiles (mcFs m') !! dst = Some (data, t'))) as Hch.
  { intros m1 data t t' Hs Hr Eo Ef Hc.
    assert (mcFs m' = mcFs m1 /\ sameRest m1 m' /\ owners opts m m' /\ o <> Panicked) as (Em & Hr' & Ho & Hp).
    { destruct (chownFile opts ev dst m1) as [m2|e] eqn:Ec; injection Hc as <- <-.
      - pose proof (chown_owners _ _ _ _ _ Ec) as Ho. unfold owners in *. rewrite Eo in Ho.
        unfold chownFile in Ec. destruct (negb _); [done|]. injection Ec as <-. by split_and!.
      - split_and!; try done. intros q. left. by rewrite Eo. }
    rewrite Em, Ef. cbn. destruct Hr as (? & ? & ?), Hr' as (? & ? & ?). split_and!; try done; [split_and!; congruence| |].
    - intros p Hp'. rewrite lookup_insert_ne by done. by apply E0.
    - intros _. exists data, t, t'. rewrite <- Esrc, lookup_insert_eq. done. }
  unfold linkFile, copyFile in H. destruct (fsFiles (mcFs m0) !! src) as [[data t]|] eqn:Es.
  - destruct (evLinks ev); cbn [negb] in H.
    + destruct (writeFile dst data t (mcFs m0)) as [fs1|e] eqn:Ew; cbn [rbind] in H.
      * apply writeFile_Ok in Ew as ->. by eapply Hch in H; [|done|by split_and!|done|done].
      * destruct (writeFile dst data (evNow ev) (mcFs m0)) as [fs1|e'] eqn:Ew'; cbn [rmap wrapErr] in H.
        -- apply writeFile_Ok in Ew' as ->. by eapply Hch in H; [|done|by split_and!|done|done].
        -- injection H as <- <-. split_and!; try done. intros q. by left.
    + destruct (writeFile dst data (evNow ev) (mcFs m0)) as [fs1|e'] eqn:Ew'; cbn [rmap wrapErr] in H.
      * apply writeFile_Ok in Ew' as ->. by eapply Hch in H; [|done|by split_and!|done|done].
      * injection H as <- <-. split_and!; try done. intros q. by left.
  - destruct (evLinks ev); cbn [negb] in H; injection H as <- <-; split_and!; try done; intros q; by left.
Qed.

(** ** Facts: the jail *)

(** No file of the jail is left. *)
Definition gone (cd : path) (fs : FS) : Prop := forall p, inside cd p -> fsFiles fs !! p = None.

Lemma removeTree_spec cd m : confined cd (mcFs m) (mcFs (removeTree cd m)) /\ gone cd (mcFs (removeTree cd m)).
Proof.
  assert (forall p, isBelow cd p = false <-> ~ inside cd p) as Hb.
  { intros p. rewrite <- not_true_iff_false, isBelow_spec. done. }
  split; [split|]; cbn.
  - intros p Hp. apply Hb in Hp. destruct (fsFiles (mcFs m) !! p) eqn:E.
    + apply map_lookup_filter_Some. by split.
    + apply map_lookup_filter_None. by left.
  - intros q [[_ Hq]%elem_of_filter|[_ Hq]%elem_of_filter]%elem_of_union; by left.
  - intros p Hp. assert (isBelow cd p = true) as E by by apply isBelow_spec.
    apply map_lookup_filter_None. right. intros v _. cbn. by rewrite E.
Qed.

Lemma removeTree_kept cd m q : q ∈ fsDirs (mcFs m) -> ~ inside cd q -> q ∈ fsDirs (mcFs (removeTree cd m)).
Proof.
  intros Hq Hn. cbn. apply elem_of_union. left. apply elem_of_filter. split; [|done].
  apply not_true_iff_false. by rewrite isBelow_spec.
Qed.

Lemma removeTree_dirs cd m :
  (forall p, inside cd p -> p ∉ mcMounts m) -> forall p, inside cd p -> p ∉ fsDirs (mcFs (removeTree cd m)).
Proof.
  intros Hm p Hp. cbn. intros [[Hq _]%elem_of_filter|[Hq _]%elem_of_filter]%elem_of_union.
  - apply isBelow_spec in Hp. congruence.
  - apply existsb_exists in Hq as (x & Hx & Hb). apply list_elem_of_In, elem_of_elements in Hx.
    apply isBelow_spec in Hb as [t ->]. destruct Hp as [t' ->]. apply (Hm _ ltac:(by exists (t' ++ t); rewrite app_assoc)). done.
Qed.

Section StartFacts.
  Context (opts : FirecrackerOptions) (ev : environment) (spec : VmSpec).
  #[local] Notation cd := (chrootDirOf opts spec).

(** What has been done so far stays in the jail: files and directories outside
    it are kept, but for the directories above it that may be made, and owners
    change only to the VM's user. *)
Definition jailed (m m' : machine) : Prop :=
  confined cd (mcFs m) (mcFs m') /\
  (forall q, q ∈ fsDirs (mcFs m) -> ~ inside cd q -> q ∈ fsDirs (mcFs m')) /\
  owners opts m m'.

#[global] Instance jailed_preorder : PreOrder jailed.
Proof.
  split; [intros m; split; [reflexivity|split; [done|intros q; by left]]|]. intros a b c (C1 & D1 & O1) (C2 & D2 & O2). split; [by etrans|].
  split; [by auto|]. intros q. destruct (O2 q) as [->|]; auto.
Qed.

(** The jail is gone, and the rest is as it was; or its mounts are left. *)
Definition emptied (m m' : machine) : Prop :=
  gone cd (mcFs m') /\ mcMounts m' = mcMounts m /\
  ((forall p, inside cd p -> p ∉ mcMounts m) -> forall p, inside cd p -> p ∉ fsDirs (mcFs m')).

Definition leftMounted (m m' : machine) : Prop :=
  gone cd (mcFs m') /\ evSharedMounts ev = true /\
  mcMounts m' = {[cd ++ ["root"]; cd ++ ["root"; "run"]]} ∪ mcMounts m.

Lemma stage_jailed src dst m o m' : ~ inside cd src -> inside cd dst -> stageIntoChroot opts ev src dst m = (o, m') ->
  o <> Panicked /\ sameRest m m' /\ jailed m m' /\ (forall p, p <> dst -> fsFiles (mcFs m') !! p = fsFiles (mcFs m) !! p) /\
  (o = Done tt -> exists data t t', fsFiles (mcFs m) !! src = Some (data, t) /\ fsFiles (mcFs m') !! dst = Some (data, t')).
Proof.
  intros Hs Hd H. apply stage_spec in H as (Hp & Hr & Ho & Hdirs & Hf & Hok); [|by intros ->]. split_and!; try done.
  split; [|split; [by rewrite Hdirs|done]]. split; [intros p Hi; apply Hf; by intros ->|]. rewrite Hdirs. auto.
Qed.

Lemma orElse_inv {A} cleanup (a : act machine A) m o m' : orElse cleanup a m = (o, m') ->
  exists m1, a m = (o, m1) /\ m' = match o with Failed _ => cleanup m1 | _ => m1 end.
Proof. unfold orElse. intros H. destruct (a m) as [[]]; simplify_eq; eauto. Qed.

Lemma wrapping_inv {A} ctx (a : act machine A) m o m' : wrapping ctx a m = (o, m') ->
  exists o1, a m = (o1, m') /\ (o = o1 \/ exists e e', o = Failed e /\ o1 = Failed e').
Proof. unfold wrapping. intros H. destruct (a m) as [[]]; simplify_eq; eexists; (split; [done|]); eauto. Qed.

Lemma removeTree_jailed m : jailed m (removeTree cd m).
Proof. destruct (removeTree_spec cd m) as [H1 H2]. split; [done|]. split; [by apply removeTree_kept|]. intros q. by left. Qed.

Lemma removeTree_emptied m m1 : mcMounts m1 = mcMounts m -> emptied m (removeTree cd m1).
Proof.
  intros E. destruct (removeTree_spec cd m1) as [_ H]. split_and!; [done|done|]. rewrite <- E. apply removeTree_dirs.
Qed.

Lemma makeDirs_jailed m o m' : Forall proper cd -> makeDirs (cd ++ ["root"]) m = (o, m') ->
  o <> Panicked /\ sameRest m m' /\ jailed m m' /\ fsFiles (mcFs m') = fsFiles (mcFs m) /\ (o <> Done tt -> m' = m).
Proof.
  intros Hp H. unfold makeDirs in H. destruct (mkdirAll _ _) as [fs|e] eqn:E; injection H as <- <-;
    [|split; [done|]; split; [done|]; split; [reflexivity|done]].
  unfold mkdirAll in E. destruct (existsb _ _); [done|]. injection E as <-. split_and!; try done.
  split; [|split; [intros q Hq _; apply elem_of_union; by right|intros q; by left]]. split; [done|]. cbn [mcFs set_mcFs fsDirs].
  intros q [Hq|Hq]%elem_of_union; [|by left]. right. apply elem_of_list_to_set, pathPrefixes_spec in Hq as [r Hq]. symmetry in Hq.
  apply app_eq_inv in Hq as [(k & -> & _)|(k & -> & _)]; [left|right]; by exists k.
Qed.

Context (clean_dir : Forall proper cd).

(** A staging step of [Start]: the file is there, or the jail is gone. *)
Lemma stageStep_spec ctx src dst m o m' : ~ inside cd src -> inside cd dst ->
  orElse (removeTree cd) (wrapping ctx (stageIntoChroot opts ev src dst)) m = (o, m') ->
  sameRest m m' /\ jailed m m' /\
  ((o = Done tt /\ (forall p, p <> dst -> fsFiles (mcFs m') !! p = fsFiles (mcFs m) !! p) /\
    exists data t t', fsFiles (mcFs m) !! src = Some (data, t) /\ fsFiles (mcFs m') !! dst = Some (data, t')) \/
   (exists e, o = Failed e) /\ emptied m m').
Proof.
  intros Hs Hd H. apply orElse_inv in H as (m1 & H & ->). apply wrapping_inv in H as (o1 & H & Ho).
  apply stage_jailed in H as (Hp & Hr & Hj & Hf & Hok); [|done..].
  assert (o = Done tt \/ exists e, o = Failed e) as [->|[e ->]].
  { destruct Ho as [->|(e & e' & -> & ->)]; [destruct o1 as [[]|e|]; eauto|eauto]. by destruct Hp. }
  - destruct Ho as [<-|(? & ? & ? & _)]; [|done]. split; [done|]. split; [done|]. left. auto.
  - split; [exact Hr|]. split; [etrans; [exact Hj|apply removeTree_jailed]|]. right. split; [eauto|].
    apply removeTree_emptied. apply Hr.
Qed.

(** After the jail is staged. *)
Lemma spawn_spec m o m' pid sock : let chrootRoot := cd ++ ["root"] in
  (let* _ := modify (spawnProc ev pid chrootRoot) in
   let* _ := orElse (fun m => removeTree cd (killProc pid m)) (bootVm opts ev spec pid sock) in
   ret (mkVmContainer spec pid cd false)) m = (o, m') -> pid ∉ mcProcs m ->
  (o = Done (mkVmContainer spec pid cd false) /\ mcFs m' = mcFs m /\ mcProcs m' = {[pid]} ∪ mcProcs m /\
     mcCalls m' = mcCalls m ++ map snd (bootCalls opts spec) /\ mcOwner m' = mcOwner m /\
     mcMounts m' = (if evSharedMounts ev then {[chrootRoot; chrootRoot ++ ["run"]]} else ∅) ∪ mcMounts m) \/
  ((exists e, o = Failed e) /\ jailed m m' /\ mcProcs m' = mcProcs m /\ (emptied m m' \/ leftMounted m m')) \/
  (o = Panicked /\ ~ clockRuns ev).
Proof.
  intros chrootRoot H Hpid. unfold bind at 1, modify in H. unfold bind in H.
  destruct (orElse _ _ _) as [o1 m1] eqn:E. apply orElse_inv in E as (m2 & E & ->).
  apply bootVm_spec in E as (Hf & Hp & Hm & Ho & Hl & Hc & Hcalls). destruct o1 as [[]|e|].
  - unfold ret in H. injection H as <- <-. left. split_and!; try done. by apply Hcalls.
  - injection H as <- <-. right. left. split; [eauto|].
    assert (jailed m (killProc pid m2)) as J.
    { unfold jailed, owners. cbn [killProc mcFs mcOwner]. rewrite Hf, Ho. cbn. split; [reflexivity|auto]. }
    split; [etrans; [exact J|apply removeTree_jailed]|]. split; [cbn; rewrite Hp; cbn; set_solver|].
    assert (mcMounts (killProc pid m2) = (if evSharedMounts ev then {[chrootRoot; chrootRoot ++ ["run"]]} else ∅) ∪ mcMounts m) as Em by exact Hm.
    destruct (evSharedMounts ev) eqn:Esh.
    + right. destruct (removeTree_spec cd (killProc pid m2)) as [_ G]. split_and!; [done|done|]. cbn [removeTree mcMounts].
      cbn [removeTree killProc mcMounts] in *. rewrite Em. unfold chrootRoot. by rewrite <- app_assoc.
    + left. apply removeTree_emptied. rewrite Em. set_solver.
  - injection H as <- <-. right. right. split; [done|]. intros C. by apply Hc in C.
Qed.

Context (kernel_out : ~ inside cd (comps (foKernelImage opts))).
Context (rootfs_out : forall name, encodeRootfsName (vsImageDigest spec) = Ok name -> ~ inside cd (comps (join [foRootfsDir opts; name]))).
Context (clock : clockRuns ev).

(** A machine that runs the VM: its files are staged, it was configured and
    started. *)
Definition booted (m m' : machine) (c : vmContainer) : Prop :=
  exists pid name img kernel ti tk ti' tk',
    evSpawn ev (foJailerBin opts :: jailerArgs opts spec) = Ok pid /\ c = mkVmContainer spec pid cd false /\ encodeRootfsName (vsImageDigest spec) = Ok name /\
    fsFiles (mcFs m) !! comps (join [foRootfsDir opts; name]) = Some (img, ti) /\
    fsFiles (mcFs m') !! (cd ++ ["root"; "rootfs.sqsh"]) = Some (img, ti') /\
    fsFiles (mcFs m) !! comps (foKernelImage opts) = Some (kernel, tk) /\
    fsFiles (mcFs m') !! (cd ++ ["root"; "vmlinux"]) = Some (kernel, tk') /\
    mcProcs m' = {[pid]} ∪ mcProcs m /\ mcCalls m' = mcCalls m ++ map snd (bootCalls opts spec) /\
    mcMounts m' = (if evSharedMounts ev then {[cd ++ ["root"]; cd ++ ["root"; "run"]]} else ∅) ∪ mcMounts m.

Lemma Start_spec m o m' : (forall argv pid, evSpawn ev argv = Ok pid -> pid ∉ mcProcs m) -> Start opts ev spec m = (o, m') ->
  jailed m m' /\
  ((exists c, o = Done c /\ booted m m' c) \/
   (exists e, o = Failed e) /\ mcProcs m' = mcProcs m /\ (m' = m \/ emptied m m' \/ leftMounted m m')).
Proof.
  intros Hpid H. assert (jailed m m) as Hrefl by reflexivity. unfold Start in H.
  destruct (encodeRootfsName (vsImageDigest spec)) as [name|] eqn:En; [|injection H as <- <-; eauto 8].
  destruct (negb _); [injection H as <- <-; eauto 8|]. specialize (rootfs_out name eq_refl). cbn zeta in H.
  set (rootfs := comps (join [foRootfsDir opts; name])) in *. set (kernel := comps (foKernelImage opts)) in *.
  unfold bind at 1 in H. destruct (wrapping _ (makeDirs _) m) as [o1 m1] eqn:E1. apply wrapping_inv in E1 as (o1' & E1 & Ho1).
  apply makeDirs_jailed in E1 as (Hp1 & (Pr1 & Mo1 & Ca1) & J1 & F1 & Hm1); [|done].
  destruct o1 as [[]|e1|];
    [|injection H as <- <-; destruct Ho1 as [<-|(? & ? & _ & ->)]; rewrite Hm1 by done; eauto 8|by destruct Ho1 as [<-|(? & ? & ? & _)]].
  unfold bind at 1 in H. destruct (orElse _ _ m1) as [o2 m2] eqn:E2.
  apply stageStep_spec in E2 as ((Pr2 & Mo2 & Ca2) & J2 & E2); [|done|by eexists; rewrite <- app_assoc].
  assert (jailed m m2) as J2' by (etrans; [exact J1|exact J2]).
  destruct E2 as [(-> & Keep2 & dk & tk & tk' & K2 & K2')|([e ->] & G2)];
    [|injection H as <- <-; split; [done|]; right; split; [eauto|]; split; [congruence|]; right; left; unfold emptied in *; by rewrite <- Mo1].
  unfold bind at 1 in H. destruct (orElse _ _ m2) as [o3 m3] eqn:E3.
  apply stageStep_spec in E3 as ((Pr3 & Mo3 & Ca3) & J3 & E3); [|done|by eexists; rewrite <- app_assoc].
  assert (jailed m m3) as J3' by (etrans; [exact J2'|exact J3]).
  destruct E3 as [(-> & Keep3 & di & ti & ti' & R3 & R3')|([e ->] & G3)];
    [|injection H as <- <-; split; [done|]; right; split; [eauto|]; split; [congruence|]; right; left; unfold emptied in *;
      by rewrite <- Mo1, <- Mo2].
  destruct (evSpawn ev _) as [pid|e] eqn:Es.
  2: { unfold orElse, failure in H. injection H as <- <-. split; [etrans; [exact J3'|apply removeTree_jailed]|].
       right. split; [eauto|]. split; [cbn; congruence|]. right. left. apply removeTree_emptied. congruence. }
  assert (pid ∉ mcProcs m3) as Hp3 by (rewrite Pr3, Pr2, Pr1; by eapply Hpid).
  apply spawn_spec in H as [(-> & Hf & Hpr & Hca & How & Hmo)|[([e ->] & J4 & Hpr & G4)|(_ & Hn)]]; [..|done|done].
  - split; [destruct J3' as (J31 & J32 & J33); split; [by rewrite Hf|]; split; [by rewrite Hf|]; unfold owners; by rewrite How|]. left. eexists. split; [done|].
    exists pid, name, di, dk, ti, tk, ti', tk'. rewrite Hf. split_and!; try done.
    + rewrite <- R3, <- F1. symmetry. transitivity (fsFiles (mcFs m2) !! rootfs); [done|]. apply Keep2. intros E. apply rootfs_out.
      eexists. rewrite <- app_assoc in E. exact E.
    + by rewrite <- app_assoc in R3'.
    + by rewrite <- F1.
    + change (["root"; "vmlinux"]) with (["root"] ++ ["vmlinux"]). rewrite app_assoc, Keep3; [done|]. intros E. by apply app_inj_tail in E as [_ ?].
    + congruence.
    + congruence.
    + rewrite Hmo, Mo3, Mo2, Mo1. by rewrite <- app_assoc.
  - split; [etrans; [exact J3'|exact J4]|]. assert (mcMounts m3 = mcMounts m) as E3 by congruence.
    right. split; [eauto|]. split; [congruence|]. right. unfold emptied, leftMounted in *. by rewrite <- E3.
Qed.
End StartFacts.

Lemma unmounted (b : bool) (x y z : path) (M : gset path) :
  x ∉ M -> y ∉ M -> z ∉ M -> ((if b then {[x; y]} else ∅) ∪ M) ∖ {[y; x; z]} = M.
Proof.
  intros Hx Hy Hz. apply set_eq. intros q. rewrite elem_of_difference, elem_of_union, !elem_of_union, !elem_of_singleton. split.
  - intros [[Hq|Hq] Hn]; [|done]. destruct b; [|by apply elem_of_empty in Hq]. apply elem_of_union in Hq.
    rewrite !elem_of_singleton in Hq. tauto.
  - intros Hq. split; [by right|]. intros [[->| ->]| ->]; done.
Qed.

(** The directories of a machine, but for those above the jail that a start
    makes. *)
Definition sameDirs (cd : path) (m m' : machine) : Prop :=
  forall p, p ∈ fsDirs (mcFs m') -> p ∈ fsDirs (mcFs m) \/ (~ inside cd p /\ exists t, cd = p ++ t).


Section Pulled.
  Context (maxTarTotalBytes maxTarEntryCount : Z).
  Context (deflate : string -> result string) (inflate : string -> option string).
  Context {Image : Type} (cranePull : string -> result Image) (digestOf : Image -> result string).
  Context (configOf : Image -> result (string * string)) (extract : Image -> tarStream).
  Context (readHost : string -> result string).
  #[local] Notation Pull := (PullImage maxTarTotalBytes maxTarEntryCount deflate inflate cranePull digestOf configOf extract readHost).

(** C4: A VM boots the image that was pulled.  Started with a digest that was
    pulled before, its root drive, attached read-only, holds a squashfs image
    in which every path reads as the stream of the registry's image with this
    very digest describes it, the host's agent for its architecture added. *)
Theorem pulled_image_boots visits s imagePath now fs0 opts ev spec m c m' :
  (forall x z, deflate x = Ok z -> inflate z = Some x /\ z <> "") -> (0 <= maxTarTotalBytes)%Z ->
  Pull visits s imagePath (vsImageDigest spec) now fs0 = (Ok tt, mcFs m) ->
  foRootfsDir opts = absOf (rfCacheDir s) ->
  let cd := chrootDirOf opts spec in
  Forall proper cd -> ~ inside cd (comps (foKernelImage opts)) ->
  (forall name, encodeRootfsName (vsImageDigest spec) = Ok name -> ~ inside cd (cachePath s name)) ->
  clockRuns ev -> (forall argv pid, evSpawn ev argv = Ok pid -> pid ∉ mcProcs m) ->
  Start opts ev spec m = (Done c, m') ->
  exists img arch agentBin content t,
    cranePull imagePath = Ok img /\ digestOf img = Ok (vsImageDigest spec) /\ configOf img = Ok ("linux", arch) /\
    loadAgentBinary readHost s arch = Ok agentBin /\
    fsFiles (mcFs m') !! (cd ++ ["root"; "rootfs.sqsh"]) = Some (content, t) /\
    PutGuestDrive "rootfs" "/rootfs.sqsh" true true ∈ mcCalls m' /\
    ((Z.of_nat (slen content) < 2 ^ 48)%Z -> (Z.of_nat (size (imageFs (extract img) agentBin)) < 2 ^ 23)%Z ->
     forall cs, Forall proper cs ->
     readPath (GzipCompressor deflate inflate) content cs =
     viewOf (rootfsConfig deflate inflate) (imageFs (extract img) agentBin) (absOf cs)).
Proof.
  intros Hz Hmax Hpull Hdir cd Hcd Hk Hr Hclock Hpid H.
  destruct (PullImage_publishes _ _ _ _ _ _ _ _ _ _ _ _ _ _ _ _ Hz Hmax Hpull)
    as (img & arch & bin & name & content & Hi & Hd & Hc & Ha & En & Hf & Hread).
  assert (forall name, encodeRootfsName (vsImageDigest spec) = Ok name -> ~ inside cd (comps (join [foRootfsDir opts; name]))) as Hr'
    by (rewrite Hdir; exact Hr).
  destruct (Start_spec opts ev spec Hcd Hk Hr' Hclock m _ m' Hpid H) as [_ [(c' & _ & B)|([e [=]] & _)]].
  destruct B as (pid & name' & data & kernel & ti & tk & ti' & tk' & _ & _ & En' & Hi' & Hs & _ & _ & _ & Hcalls & _).
  assert (name' = name) as -> by congruence. rewrite Hdir in Hi'. fold (cachePath s name) in Hi'.
  assert (data = content) as -> by congruence.
  exists img, arch, bin, content, ti'. split_and!; try done.
  rewrite Hcalls. apply elem_of_app. right. cbn [bootCalls map snd]. apply list_elem_of_In. cbn. tauto.
Qed.
End Pulled.

(** A machine on which everything succeeds, and the image of [exTar] in its
    cache. *)
Definition exOpts : FirecrackerOptions := mkFirecrackerOptions "/fc" "/jailer" "/vmlinux" "/cache" "/jail" 100 100 defaultBootArgs.
Definition exEnv (api : bool) : environment := {|
  evLinks := true; evChown := true; evSpawn _ := Ok 42%Z;
  evSocket i := mkSocketProbe false (1 <=? i) None (50 * Z.of_nat i) false;
  evStart := 0; evApi c := if api then Ok tt else Err "boom";
  evAgent i := mkAgentProbe false (if 300 <=? i then Some "deadline" else None) (if 2 <=? i then Ok tt else Err "refused");
  evClient := Ok tt; evNow := 9; evSharedMounts := true |}.
Definition exVmSpec : VmSpec := mkVmSpec "vm1" "t" "sha256:ab" 2 (512 * 1024 * 1024).
Definition exMachine : machine := mkMachine exPulled ∅ ∅ {[1%Z]} ∅ [].

Lemma exClock api : clockRuns (exEnv api).
Proof.
  split; intros i; cbn [evSocket evAgent evStart exEnv spNow apCtx]; [unfold socketPause; lia|]. unfold agentDialTimeout, agentPause. intros H.
  destruct (Nat.leb_spec 300 i); [by eexists|lia].
Qed.

Lemma exJail : Forall proper (chrootDirOf exOpts exVmSpec).
Proof. decided. Qed.

Lemma exVacantMachine : forall p, inside (chrootDirOf exOpts exVmSpec) p ->
  fsFiles (mcFs exMachine) !! p = None /\ p ∉ fsDirs (mcFs exMachine) /\ p ∉ mcMounts exMachine.
Proof.
  assert (map_Forall (fun p _ => isBelow (chrootDirOf exOpts exVmSpec) p = false) (fsFiles (mcFs exMachine))) as H by decided.
  assert (set_Forall (fun p => isBelow (chrootDirOf exOpts exVmSpec) p = false) (fsDirs (mcFs exMachine))) as H2 by decided.
  intros p Hp. apply isBelow_spec in Hp. split_and!.
  - destruct (fsFiles (mcFs exMachine) !! p) eqn:E; [|done]. apply H in E. congruence.
  - intros E. apply H2 in E. congruence.
  - apply not_elem_of_empty.
Qed.

Lemma exPid api m : 42%Z ∉ mcProcs m -> forall argv pid, evSpawn (exEnv api) argv = Ok pid -> pid ∉ mcProcs m.
Proof. intros H argv pid [= <-]. exact H. Qed.

Lemma exRootfsOut name : encodeRootfsName (vsImageDigest exVmSpec) = Ok name ->
  ~ inside (chrootDirOf exOpts exVmSpec) (comps (join [foRootfsDir exOpts; name])).
Proof. intros [= <-] H%isBelow_spec. vm_compute in H. discriminate. Qed.

Lemma exKernelOut : ~ inside (chrootDirOf exOpts exVmSpec) (comps (foKernelImage exOpts)).
Proof. intros H%isBelow_spec. vm_compute in H. discriminate. Qed.


Lemma pulled_image_boots_witness : exists c m' content t,
  Start exOpts (exEnv true) exVmSpec exMachine = (Done c, m') /\
  fsFiles (mcFs m') !! ["jail"; "firecracker"; "vm1"; "root"; "rootfs.sqsh"] = Some (content, t) /\
  PutGuestDrive "rootfs" "/rootfs.sqsh" true true ∈ mcCalls m'.
Proof.
  assert (exists c, (Start exOpts (exEnv true) exVmSpec exMachine).1 = Done c) as [c Es] by (eexists; vm_compute; reflexivity).
  assert (42%Z ∉ mcProcs exMachine) as Hpid by decided.
  assert (Start exOpts (exEnv true) exVmSpec exMachine = (Done c, (Start exOpts (exEnv true) exVmSpec exMachine).2)) as H
    by (rewrite <- Es; apply surjective_pairing).
  destruct (pulled_image_boots 10 8 exDeflate exInflate _ _ _ _ _ exRootfsVisits exStore "reg/img" 9 exFs0 exOpts (exEnv true) exVmSpec exMachine
    c _ exZlib (Zle_0_pos 10) exPulled_eq eq_refl exJail exKernelOut exRootfsOut (exClock true) (exPid true exMachine Hpid) H)
    as (img & arch & bin & content & t & _ & _ & _ & _ & Hf & Hc & _).
  exists c, (Start exOpts (exEnv true) exVmSpec exMachine).2, content, t. split; [exact H|]. split; [exact Hf|exact Hc].
Defined.

(** A link shares its owner: the jail's user owns the cached image, and the
    kernel, of every later VM. *)
Example chown_reaches_cache : mcOwner (Start exOpts (exEnv true) exVmSpec exMachine).2 !! ["cache"; "sha256-ab.sqsh"] = Some (100, 100)%Z /\
  mcOwner (Start exOpts (exEnv true) exVmSpec exMachine).2 !! ["vmlinux"] = Some (100, 100)%Z.
Proof. vm_compute. split; reflexivity. Qed.

(** The unwinding of a failed start leaves the jailer's mounts, and with them
    the directories of the jail. *)
Example failed_start_leaves_mounts : let m' := (Start exOpts (exEnv false) exVmSpec exMachine).2 in
  mcMounts m' = {[["jail"; "firecracker"; "vm1"; "root"]; ["jail"; "firecracker"; "vm1"; "root"; "run"]]} /\
  bool_decide (["jail"; "firecracker"; "vm1"; "root"] ∈ fsDirs (mcFs m')) = true.
Proof. split; vm_compute; reflexivity. Qed.

(** What arrives in one piece with the answer line is lost. *)
Example handshake_drops_bytes :
  dialVsockUDS ["OK 1" +:+ String "010"%char "PRI * HTTP/2.0"; "rest"] = Ok ["rest"].
Proof. vm_compute. reflexivity. Qed.
