(* ===== verification/FcApi.v ===== *)
(** * FcApi: the client of the VMM's API
    ([firecracker/client/operations], used by [Firecracker.Start]).

    The client is generated code of one shape: an operation has a method, a path
    and parameters, and a reader for its answers; a call submits it through the
    transport and sorts the answer.  The shape is defined once and every
    operation is a value of it.  The transport and its JSON producer are
    parameters.  At the end the client is put under [Start]: what goes over the
    wire when a VM boots. *)

From S2P Require Import Prelude Effects GoStrings GoPath GoJson FcModels Store Staging Agent SquashMeta SquashCodec SquashWriter SquashReader SquashBuild SquashImage Rootfs Firecracker.

(** ** Answers *)

Inductive payloadKind :=
  | NoPayload
  | Payload (t : gotype)
  | AnyPayload.

(** The documented answers of an operation: the status and name of the success
    and of each error, and the name of every other answer. *)
Record responseReader := mkReader {
  rdSuccess : Z;
  rdSuccessName : string;
  rdPayload : payloadKind;
  rdErrors : list (Z * string);
  rdDefault : string
}.

Record ClientOperation := mkOperation {
  opID : string;
  opMethod : string;
  opPathPattern : string;
  opPathParam : option string;
  opHasBody : bool;
  opReader : responseReader
}.

(** A response object: the success, a documented error or the default. *)
Inductive response :=
  | Succeeded (payload : option gval)
  | Documented (code : Z) (name : string) (payload : gval)
  | Default (code : Z) (payload : gval).

Definition responseCode (rd : responseReader) (r : response) : Z :=
  match r with Succeeded _ => rdSuccess rd | Documented code _ _ | Default code _ => code end.

Definition IsSuccess (rd : responseReader) (r : response) : bool := (Z.quot (responseCode rd r) 100 =? 2)%Z.
Definition IsRedirect (rd : responseReader) (r : response) : bool := (Z.quot (responseCode rd r) 100 =? 3)%Z.
Definition IsClientError (rd : responseReader) (r : response) : bool := (Z.quot (responseCode rd r) 100 =? 4)%Z.
Definition IsServerError (rd : responseReader) (r : response) : bool := (Z.quot (responseCode rd r) 100 =? 5)%Z.
Definition IsCode (rd : responseReader) (r : response) (code : Z) : bool := (responseCode rd r =? code)%Z.

(** [Error] of a response. *)
Definition responseError (op : ClientOperation) (r : response) : string :=
  let head := "[" +:+ opMethod op +:+ " " +:+ opPathPattern op +:+ "][" +:+ itoa (responseCode (opReader op) r) +:+ "] " in
  match r with
  | Succeeded _ => head +:+ rdSuccessName (opReader op)
  | Documented _ name p => head +:+ name +:+ " " +:+ MarshalBinary Error p
  | Default _ p => head +:+ rdDefault (opReader op) +:+ " " +:+ MarshalBinary Error p
  end.

(** The JSON consumer reads the first value of a body; an empty body is
    [io.EOF], which the readers ignore. *)
Definition Consume (t : gotype) (body : string) : result gval :=
  if String.eqb (skipSpace body) "" then Ok (zeroOf t)
  else match parseValue (S (slen body)) body with
       | Some (j, _) => fromJson t j (zeroOf t)
       | None => Err "invalid character in body"
       end.

Definition readPayload (k : payloadKind) (body : string) : result (option gval) :=
  match k with
  | NoPayload => Ok None
  | Payload t => rmap Some (Consume t body)
  | AnyPayload => if String.eqb (skipSpace body) "" then Ok None
                  else match parseValue (S (slen body)) body with
                       | Some _ => Ok None
                       | None => Err "invalid character in body"
                       end
  end.

(** [ReadResponse]: the result, or the error that is returned instead. *)
Definition ReadResponse (op : ClientOperation) (code : Z) (body : string) : result response :=
  let rd := opReader op in
  if (code =? rdSuccess rd)%Z then let! p := readPayload (rdPayload rd) body in Ok (Succeeded p)
  else match List.find (fun e => (e.1 =? code)%Z) (rdErrors rd) with
       | Some (_, name) => let! p := Consume Error body in Err (responseError op (Documented code name p))
       | None => let! p := Consume Error body in
                 if (Z.quot code 100 =? 2)%Z then Ok (Default code p) else Err (responseError op (Default code p))
       end.

(** ** Requests *)

Record requestParams := mkParams {
  rpBody : option json;
  rpPathParam : string
}.

Record httpRequest := mkRequest {
  rqMethod : string;
  rqPath : string;
  rqBody : option string
}.

(** [url.PathEscape]. *)
Definition pathSafe (c : ascii) : bool :=
  byteIn 48 57 c || byteIn 65 90 c || byteIn 97 122 c || existsb (Ascii.eqb c) ["-"; "_"; "."; "~"; "$"; "&"; "+"; ":"; "="; "@"]%char.

Definition upperHex (n : N) : ascii := ascii_of_N (if (n <? 10)%N then 48 + n else 55 + n)%N.

Fixpoint pathEscape (s : string) : string :=
  match s with
  | EmptyString => ""
  | String c t =>
      if pathSafe c then String c (pathEscape t)
      else "%" +:+ String (upperHex (N_of_ascii c / 16)) (String (upperHex (N_of_ascii c mod 16)) (pathEscape t))
  end.

Section Client.
  (* The producer of the transport, and the transport: a status and a body. *)
  Context (produce : json -> string) (transport : httpRequest -> result (Z * string)).

(** [WriteToRequest], and the path the transport builds. *)
Definition WriteToRequest (op : ClientOperation) (p : requestParams) : httpRequest :=
  mkRequest (opMethod op)
    (match opPathParam op with
     | None => opPathPattern op
     | Some name => replaceAll (opPathPattern op) ("{" +:+ name +:+ "}") (pathEscape (rpPathParam p))
     end)
    (if opHasBody op then produce <$> rpBody p else None).

(** A method of the client: the success, an error, or the panic of a failed
    type assertion. *)
Definition invoke (op : ClientOperation) (p : requestParams) : outcome (option gval) :=
  match transport (WriteToRequest op p) with
  | Err e => Failed e
  | Ok (code, body) =>
      match ReadResponse op code body with
      | Err e => Failed e
      | Ok (Succeeded payload) => Done payload
      | Ok (Default _ _) => Failed "unexpected success response: content available as default response in error"
      | Ok (Documented _ _ _) => Panicked
      end
  end.
End Client.

(** ** The operations *)

Definition createSnapshotReader : responseReader :=
  mkReader 204 "createSnapshotNoContent" NoPayload [(400%Z, "createSnapshotBadRequest")] "createSnapshot default".
Definition createSnapshot : ClientOperation :=
  mkOperation "createSnapshot" "PUT" "/snapshot/create" None true createSnapshotReader.

Definition createSyncActionReader : responseReader :=
  mkReader 204 "createSyncActionNoContent" NoPayload [(400%Z, "createSyncActionBadRequest")] "createSyncAction default".
Definition createSyncAction : ClientOperation :=
  mkOperation "createSyncAction" "PUT" "/actions" None true createSyncActionReader.

Definition describeBalloonConfigReader : responseReader :=
  mkReader 200 "describeBalloonConfigOK" (Payload Balloon) [(400%Z, "describeBalloonConfigBadRequest")] "describeBalloonConfig default".
Definition describeBalloonConfig : ClientOperation :=
  mkOperation "describeBalloonConfig" "GET" "/balloon" None false describeBalloonConfigReader.

Definition describeBalloonHintingReader : responseReader :=
  mkReader 200 "describeBalloonHintingOK" (Payload BalloonHintingStatus) [(400%Z, "describeBalloonHintingBadRequest")] "describeBalloonHinting default".
Definition describeBalloonHinting : ClientOperation :=
  mkOperation "describeBalloonHinting" "GET" "/balloon/hinting/status" None false describeBalloonHintingReader.

Definition describeBalloonStatsReader : responseReader :=
  mkReader 200 "describeBalloonStatsOK" (Payload BalloonStats) [(400%Z, "describeBalloonStatsBadRequest")] "describeBalloonStats default".
Definition describeBalloonStats : ClientOperation :=
  mkOperation "describeBalloonStats" "GET" "/balloon/statistics" None false describeBalloonStatsReader.

Definition describeInstanceReader : responseReader :=
  mkReader 200 "describeInstanceOK" (Payload InstanceInfo) [] "describeInstance default".
Definition describeInstance : ClientOperation :=
  mkOperation "describeInstance" "GET" "/" None false describeInstanceReader.

Definition getExportVMConfigReader : responseReader :=
  mkReader 200 "getExportVmConfigOK" (Payload FullVMConfiguration) [] "getExportVmConfig default".
Definition getExportVMConfig : ClientOperation :=
  mkOperation "getExportVmConfig" "GET" "/vm/config" None false getExportVMConfigReader.

Definition getFirecrackerVersionReader : responseReader :=
  mkReader 200 "getFirecrackerVersionOK" (Payload FirecrackerVersion) [] "getFirecrackerVersion default".
Definition getFirecrackerVersion : ClientOperation :=
  mkOperation "getFirecrackerVersion" "GET" "/version" None false getFirecrackerVersionReader.

Definition getMachineConfigurationReader : responseReader :=
  mkReader 200 "getMachineConfigurationOK" (Payload MachineConfiguration) [] "getMachineConfiguration default".
Definition getMachineConfiguration : ClientOperation :=
  mkOperation "getMachineConfiguration" "GET" "/machine-config" None false getMachineConfigurationReader.

Definition getMemoryHotplugReader : responseReader :=
  mkReader 200 "getMemoryHotplugOK" (Payload MemoryHotplugStatus) [] "getMemoryHotplug default".
Definition getMemoryHotplug : ClientOperation :=
  mkOperation "getMemoryHotplug" "GET" "/hotplug/memory" None false getMemoryHotplugReader.

Definition getMmdsReader : responseReader :=
  mkReader 200 "getMmdsOK" AnyPayload [(404%Z, "getMmdsNotFound")] "getMmds default".
Definition getMmds : ClientOperation :=
  mkOperation "getMmds" "GET" "/mmds" None false getMmdsReader.

Definition loadSnapshotReader : responseReader :=
  mkReader 204 "loadSnapshotNoContent" NoPayload [(400%Z, "loadSnapshotBadRequest")] "loadSnapshot default".
Definition loadSnapshot : ClientOperation :=
  mkOperation "loadSnapshot" "PUT" "/snapshot/load" None true loadSnapshotReader.

Definition patchBalloonReader : responseReader :=
  mkReader 204 "patchBalloonNoContent" NoPayload [(400%Z, "patchBalloonBadRequest")] "patchBalloon default".
Definition patchBalloon : ClientOperation :=
  mkOperation "patchBalloon" "PATCH" "/balloon" None true patchBalloonReader.

Definition patchBalloonStatsIntervalReader : responseReader :=
  mkReader 204 "patchBalloonStatsIntervalNoContent" NoPayload [(400%Z, "patchBalloonStatsIntervalBadRequest")] "patchBalloonStatsInterval default".
Definition patchBalloonStatsInterval : ClientOperation :=
  mkOperation "patchBalloonStatsInterval" "PATCH" "/balloon/statistics" None true patchBalloonStatsIntervalReader.

Definition patchGuestDriveByIDReader : responseReader :=
  mkReader 204 "patchGuestDriveByIdNoContent" NoPayload [(400%Z, "patchGuestDriveByIdBadRequest")] "patchGuestDriveByID default".
Definition patchGuestDriveByID : ClientOperation :=
  mkOperation "patchGuestDriveByID" "PATCH" "/drives/{drive_id}" (Some "drive_id") true patchGuestDriveByIDReader.

Definition patchGuestNetworkInterfaceByIDReader : responseReader :=
  mkReader 204 "patchGuestNetworkInterfaceByIdNoContent" NoPayload [(400%Z, "patchGuestNetworkInterfaceByIdBadRequest")] "patchGuestNetworkInterfaceByID default".
Definition patchGuestNetworkInterfaceByID : ClientOperation :=
  mkOperation "patchGuestNetworkInterfaceByID" "PATCH" "/network-interfaces/{iface_id}" (Some "iface_id") true patchGuestNetworkInterfaceByIDReader.

Definition patchMachineConfigurationReader : responseReader :=
  mkReader 204 "patchMachineConfigurationNoContent" NoPayload [(400%Z, "patchMachineConfigurationBadRequest")] "patchMachineConfiguration default".
Definition patchMachineConfiguration : ClientOperation :=
  mkOperation "patchMachineConfiguration" "PATCH" "/machine-config" None true patchMachineConfigurationReader.

Definition patchMemoryHotplugReader : responseReader :=
  mkReader 204 "patchMemoryHotplugNoContent" NoPayload [] "patchMemoryHotplug default".
Definition patchMemoryHotplug : ClientOperation :=
  mkOperation "patchMemoryHotplug" "PATCH" "/hotplug/memory" None true patchMemoryHotplugReader.

Definition patchMmdsReader : responseReader :=
  mkReader 204 "patchMmdsNoContent" NoPayload [(400%Z, "patchMmdsBadRequest")] "patchMmds default".
Definition patchMmds : ClientOperation :=
  mkOperation "patchMmds" "PATCH" "/mmds" None true patchMmdsReader.

Definition patchVMReader : responseReader :=
  mkReader 204 "patchVmNoContent" NoPayload [(400%Z, "patchVmBadRequest")] "patchVm default".
Definition patchVM : ClientOperation :=
  mkOperation "patchVm" "PATCH" "/vm" None true patchVMReader.

Definition putBalloonReader : responseReader :=
  mkReader 204 "putBalloonNoContent" NoPayload [(400%Z, "putBalloonBadRequest")] "putBalloon default".
Definition putBalloon : ClientOperation :=
  mkOperation "putBalloon" "PUT" "/balloon" None true putBalloonReader.

Definition putCPUConfigurationReader : responseReader :=
  mkReader 204 "putCpuConfigurationNoContent" NoPayload [(400%Z, "putCpuConfigurationBadRequest")] "putCpuConfiguration default".
Definition putCPUConfiguration : ClientOperation :=
  mkOperation "putCpuConfiguration" "PUT" "/cpu-config" None true putCPUConfigurationReader.

Definition putEntropyDeviceReader : responseReader :=
  mkReader 204 "putEntropyDeviceNoContent" NoPayload [] "putEntropyDevice default".
Definition putEntropyDevice : ClientOperation :=
  mkOperation "putEntropyDevice" "PUT" "/entropy" None true putEntropyDeviceReader.

Definition putGuestBootSourceReader : responseReader :=
  mkReader 204 "putGuestBootSourceNoContent" NoPayload [(400%Z, "putGuestBootSourceBadRequest")] "putGuestBootSource default".
Definition putGuestBootSource : ClientOperation :=
  mkOperation "putGuestBootSource" "PUT" "/boot-source" None true putGuestBootSourceReader.

Definition putGuestDriveByIDReader : responseReader :=
  mkReader 204 "putGuestDriveByIdNoContent" NoPayload [(400%Z, "putGuestDriveByIdBadRequest")] "putGuestDriveByID default".
Definition putGuestDriveByID : ClientOperation :=
  mkOperation "putGuestDriveByID" "PUT" "/drives/{drive_id}" (Some "drive_id") true putGuestDriveByIDReader.

Definition putGuestNetworkInterfaceByIDReader : responseReader :=
  mkReader 204 "putGuestNetworkInterfaceByIdNoContent" NoPayload [(400%Z, "putGuestNetworkInterfaceByIdBadRequest")] "putGuestNetworkInterfaceByID default".
Definition putGuestNetworkInterfaceByID : ClientOperation :=
  mkOperation "putGuestNetworkInterfaceByID" "PUT" "/network-interfaces/{iface_id}" (Some "iface_id") true putGuestNetworkInterfaceByIDReader.

Definition putGuestPmemByIDReader : responseReader :=
  mkReader 204 "putGuestPmemByIdNoContent" NoPayload [(400%Z, "putGuestPmemByIdBadRequest")] "putGuestPmemByID default".
Definition putGuestPmemByID : ClientOperation :=
  mkOperation "putGuestPmemByID" "PUT" "/pmem/{id}" (Some "id") true putGuestPmemByIDReader.

Definition putGuestVsockReader : responseReader :=
  mkReader 204 "putGuestVsockNoContent" NoPayload [(400%Z, "putGuestVsockBadRequest")] "putGuestVsock default".
Definition putGuestVsock : ClientOperation :=
  mkOperation "putGuestVsock" "PUT" "/vsock" None true putGuestVsockReader.

Definition putLoggerReader : responseReader :=
  mkReader 204 "putLoggerNoContent" NoPayload [(400%Z, "putLoggerBadRequest")] "putLogger default".
Definition putLogger : ClientOperation :=
  mkOperation "putLogger" "PUT" "/logger" None true putLoggerReader.

Definition putMachineConfigurationReader : responseReader :=
  mkReader 204 "putMachineConfigurationNoContent" NoPayload [(400%Z, "putMachineConfigurationBadRequest")] "putMachineConfiguration default".
Definition putMachineConfiguration : ClientOperation :=
  mkOperation "putMachineConfiguration" "PUT" "/machine-config" None true putMachineConfigurationReader.

Definition putMemoryHotplugReader : responseReader :=
  mkReader 204 "putMemoryHotplugNoContent" NoPayload [] "putMemoryHotplug default".
Definition putMemoryHotplug : ClientOperation :=
  mkOperation "putMemoryHotplug" "PUT" "/hotplug/memory" None true putMemoryHotplugReader.

Definition putMetricsReader : responseReader :=
  mkReader 204 "putMetricsNoContent" NoPayload [(400%Z, "putMetricsBadRequest")] "putMetrics default".
Definition putMetrics : ClientOperation :=
  mkOperation "putMetrics" "PUT" "/metrics" None true putMetricsReader.

Definition putMmdsReader : responseReader :=
  mkReader 204 "putMmdsNoContent" NoPayload [(400%Z, "putMmdsBadRequest")] "putMmds default".
Definition putMmds : ClientOperation :=
  mkOperation "putMmds" "PUT" "/mmds" None true putMmdsReader.

Definition putMmdsConfigReader : responseReader :=
  mkReader 204 "putMmdsConfigNoContent" NoPayload [(400%Z, "putMmdsConfigBadRequest")] "putMmdsConfig default".
Definition putMmdsConfig : ClientOperation :=
  mkOperation "putMmdsConfig" "PUT" "/mmds/config" None true putMmdsConfigReader.

Definition putSerialDeviceReader : responseReader :=
  mkReader 204 "putSerialDeviceNoContent" NoPayload [] "putSerialDevice default".
Definition putSerialDevice : ClientOperation :=
  mkOperation "putSerialDevice" "PUT" "/serial" None true putSerialDeviceReader.

Definition startBalloonHintingReader : responseReader :=
  mkReader 200 "startBalloonHintingOK" NoPayload [(400%Z, "startBalloonHintingBadRequest")] "startBalloonHinting default".
Definition startBalloonHinting : ClientOperation :=
  mkOperation "startBalloonHinting" "PATCH" "/balloon/hinting/start" None true startBalloonHintingReader.

Definition stopBalloonHintingReader : responseReader :=
  mkReader 200 "stopBalloonHintingOK" NoPayload [(400%Z, "stopBalloonHintingBadRequest")] "stopBalloonHinting default".
Definition stopBalloonHinting : ClientOperation :=
  mkOperation "stopBalloonHinting" "PATCH" "/balloon/hinting/stop" None false stopBalloonHintingReader.

Definition operations : list ClientOperation :=
  [createSnapshot; createSyncAction; describeBalloonConfig; describeBalloonHinting; describeBalloonStats;
   describeInstance; getExportVMConfig; getFirecrackerVersion; getMachineConfiguration; getMemoryHotplug; getMmds;
   loadSnapshot; patchBalloon; patchBalloonStatsInterval; patchGuestDriveByID; patchGuestNetworkInterfaceByID;
   patchMachineConfiguration; patchMemoryHotplug; patchMmds; patchVM; putBalloon; putCPUConfiguration;
   putEntropyDevice; putGuestBootSource; putGuestDriveByID; putGuestNetworkInterfaceByID; putGuestPmemByID;
   putGuestVsock; putLogger; putMachineConfiguration; putMemoryHotplug; putMetrics; putMmds; putMmdsConfig;
   putSerialDevice; startBalloonHinting; stopBalloonHinting].

(** ** Facts *)

Lemma ReadResponse_Ok op code body r : ReadResponse op code body = Ok r ->
  code = rdSuccess (opReader op) /\ (exists p, readPayload (rdPayload (opReader op)) body = Ok p /\ r = Succeeded p) \/
  code <> rdSuccess (opReader op) /\ exists p, r = Default code p.
Proof.
  unfold ReadResponse. destruct (Z.eqb_spec code (rdSuccess (opReader op))) as [->|Hne]; intros H.
  - inv_ok. left. eauto.
  - right. split; [done|]. destruct (List.find _ _) as [[c n]|]; inv_ok. destruct (_ =? 2)%Z; inv_ok. eauto.
Qed.

(** The documented answers of an operation are one success and client errors,
    each with a status of its own. *)
Lemma documented_classes op : op ∈ operations ->
  (forall p, IsSuccess (opReader op) (Succeeded p) = true) /\
  Forall (fun e => forall p, IsClientError (opReader op) (Documented e.1 e.2 p) = true) (rdErrors (opReader op)) /\
  NoDup (rdSuccess (opReader op) :: map fst (rdErrors (opReader op))).
Proof.
  assert (Forall (fun op => Z.quot (rdSuccess (opReader op)) 100 = 2%Z /\ Forall (fun e => Z.quot e.1 100 = 4%Z) (rdErrors (opReader op)) /\
    NoDup (rdSuccess (opReader op) :: map fst (rdErrors (opReader op)))) operations) as H by decided.
  rewrite Forall_forall in H. intros (Hs & He & Hn)%H. unfold IsSuccess, IsClientError. cbn [responseCode]. split_and!; [by rewrite Hs| |done].
  eapply Forall_impl; [exact He|]. intros e E p. cbn in *. by rewrite E.
Qed.

(** A call of the VMM's API succeeds exactly when the VMM answers with the
    documented status and a readable payload: any other status, among them the
    unexpected successes, is an error, and no answer makes the client panic.
    This holds for each of the thirty-seven operations, no two of which share
    a method and path. *)
Theorem client_verdict produce transport op p :
  op ∈ operations ->
  invoke produce transport op p <> Panicked /\
  (forall x, invoke produce transport op p = Done x <->
     exists body, transport (WriteToRequest produce op p) = Ok (rdSuccess (opReader op), body) /\ readPayload (rdPayload (opReader op)) body = Ok x) /\
  forall op', op' ∈ operations -> (opMethod op', opPathPattern op') = (opMethod op, opPathPattern op) -> op' = op.
Proof.
  intros Hop. unfold invoke. split_and!.
  - destruct (transport _) as [[code body]|]; [|done]. destruct (ReadResponse op code body) as [r|] eqn:E; [|done].
    apply ReadResponse_Ok in E as [(_ & x & _ & ->)|(_ & x & ->)]; done.
  - intros x. destruct (transport (WriteToRequest produce op p)) as [[code body]|e]; [|naive_solver].
    destruct (ReadResponse op code body) as [r|e] eqn:E.
    + apply ReadResponse_Ok in E as [(-> & y & Hy & ->)|(Hne & y & ->)].
      * split; [intros [= <-]; eauto|]. intros (body' & [= <-] & Hx). congruence.
      * split; [done|]. intros (body' & E & _). congruence.
    + split; [done|]. intros (body' & [= -> <-] & Hx). unfold ReadResponse in E. rewrite Z.eqb_refl, Hx in E. done.
  - intros op' Hop' E.
    assert (NoDup (map (fun o => (opMethod o, opPathPattern o)) operations)) as Hnd by decided.
    apply list_elem_of_lookup in Hop as [i Hi], Hop' as [j Hj]. pose proof (f_equal (fmap (fun o => (opMethod o, opPathPattern o))) Hi) as Hi'.
    pose proof (f_equal (fmap (fun o => (opMethod o, opPathPattern o))) Hj) as Hj'. rewrite <- list_lookup_fmap in Hi', Hj'. cbn in Hi', Hj'. rewrite E in Hj'.
    assert (i = j) as -> by by eapply NoDup_lookup. congruence.
Qed.

Section Boot.
  Context (produce : json -> string) (transport : httpRequest -> result (Z * string)).

(** The operation, model and value of each call [Start] makes. *)
Definition callOperation (c : apiCall) : ClientOperation :=
  match c with
  | PutMachineConfiguration _ _ => putMachineConfiguration
  | PutGuestBootSource _ _ => putGuestBootSource
  | PutGuestDrive _ _ _ _ => putGuestDriveByID
  | PutGuestVsock _ _ => putGuestVsock
  | CreateSyncAction _ => createSyncAction
  end.

Definition callModel (c : apiCall) : gotype :=
  match c with
  | PutMachineConfiguration _ _ => MachineConfiguration
  | PutGuestBootSource _ _ => BootSource
  | PutGuestDrive _ _ _ _ => Drive
  | PutGuestVsock _ _ => Vsock
  | CreateSyncAction _ => InstanceActionInfo
  end.

Definition callBody (c : apiCall) : gval :=
  match c with
  | PutMachineConfiguration vcpus mem =>
      GStruct [GPtr None; GString ""; GPtr (Some (GInt mem)); GPtr None; GPtr None; GPtr (Some (GInt vcpus))]
  | PutGuestBootSource kernel args => GStruct [GString args; GString ""; GPtr (Some (GString kernel))]
  | PutGuestDrive id path root ro =>
      GStruct [GPtr None; GPtr (Some (GString id)); GPtr None; GBool ro; GPtr (Some (GBool root)); GString ""; GString path; GPtr None; GString ""]
  | PutGuestVsock cid uds => GStruct [GPtr (Some (GInt cid)); GPtr (Some (GString uds)); GString ""]
  | CreateSyncAction action => GStruct [GPtr (Some (GString action))]
  end.

Definition callParams (c : apiCall) : requestParams :=
  mkParams (Some (toJson (callModel c) (callBody c))) (match c with PutGuestDrive id _ _ _ => id | _ => "" end).

Definition sent (c : apiCall) : httpRequest := WriteToRequest produce (callOperation c) (callParams c).

Definition clientApi (c : apiCall) : result unit :=
  match invoke produce transport (callOperation c) (callParams c) with
  | Done _ => Ok tt
  | Failed e => Err e
  | Panicked => Err "panic"
  end.

Lemma callModel_in c : callModel c ∈ models.
Proof. apply list_elem_of_In. destruct c; unfold models, callModel; cbn [In]; repeat first [left; reflexivity | right]. Qed.

Lemma clientApi_Ok c : clientApi c = Ok tt -> exists answer, transport (sent c) = Ok (204, answer)%Z.
Proof.
  unfold clientApi, invoke, sent. destruct (transport _) as [[code body]|]; [|done].
  destruct (ReadResponse _ _ _) as [r|] eqn:E; [|done]. apply ReadResponse_Ok in E as [(-> & _)|(_ & p & ->)]; [|done].
  destruct c; cbn; eauto.
Qed.

Lemma callAll_answers ev calls : forall m m', callAll ev calls m = (Done tt, m') -> Forall (fun c => evApi ev c = Ok tt) (map snd calls).
Proof.
  induction calls as [|[what c] calls IH]; intros m m' H; [constructor|]. cbn [callAll] in H.
  apply bind_Done in H as ([] & m1 & H1 & H). constructor; [|by eapply IH]. cbn [snd].
  unfold wrapping, callApi in H1. destruct (evApi ev c) as [[]|]; [done|discriminate].
Qed.
End Boot.

(** Before the machine is spawned nothing is called. *)
Definition quiet {A} (a : act machine A) : Prop := forall m x m', a m = (Done x, m') -> mcCalls m' = mcCalls m.

Lemma quiet_staged opts ev src dst what clean : quiet (orElse clean (wrapping what (stageIntoChroot opts ev src dst))).
Proof.
  intros m x m' H. unfold orElse, wrapping in H. destruct (stageIntoChroot _ _ _ _ m) as [[y|e|] m1] eqn:E; try discriminate.
  assert (m1 = m') as -> by congruence. unfold stageIntoChroot in E. apply bind_Done in E as (u & m2 & E1 & E). injection E1 as _ <-.
  apply bind_Done in E as (u3 & m3 & E2 & E3). transitivity (mcCalls m3).
  - unfold chownFile in E3. destruct (negb _); [discriminate|]. by injection E3 as _ <-.
  - destruct (linkFile _ _ _ _) eqn:El.
    + injection E2 as _ <-. unfold linkFile in El. destruct (negb _); [done|]. destruct (_ !! src) as [[]|]; inv_ok. done.
    + unfold copyFile in E2. cbn in E2. destruct (_ !! src) as [[]|]; [|done]. destruct (writeFile _ _ _ _); cbn in E2; [|done]. by injection E2 as _ <-.
Qed.

Lemma quiet_dirs p what : quiet (wrapping what (makeDirs p)).
Proof. intros m x m' H. unfold wrapping, makeDirs in H. destruct (mkdirAll p _); [|done]. by injection H as _ <-. Qed.

(** A machine that started was configured by every call, in order, and each
    was accepted. *)
Lemma Start_answers opts ev spec m c m' : Start opts ev spec m = (Done c, m') ->
  mcCalls m' = mcCalls m ++ map snd (bootCalls opts spec) /\ Forall (fun c => evApi ev c = Ok tt) (map snd (bootCalls opts spec)).
Proof.
  intros H. unfold Start in H. destruct (encodeRootfsName _) as [name|]; [|done]. destruct (negb _); [done|]. cbv zeta in H.
  apply bind_Done in H as ([] & m1 & H1%quiet_dirs & H). apply bind_Done in H as ([] & m2 & H2%quiet_staged & H).
  apply bind_Done in H as ([] & m3 & H3%quiet_staged & H). destruct (evSpawn ev _) as [pid|e]; [|done].
  apply bind_Done in H as ([] & m4 & H4 & H). injection H4 as <-. apply bind_Done in H as ([] & m5 & H5 & H). injection H as <- <-.
  unfold orElse in H5. destruct (bootVm _ _ _ _ _ _) as [[[]|e|] m6] eqn:E; try discriminate. injection H5 as <-.
  split.
  - apply bootVm_spec in E as (_ & _ & _ & _ & _ & _ & E). rewrite E by done. cbn [spawnProc mcCalls]. congruence.
  - unfold bootVm in E. apply bind_Done in E as ([] & m7 & _ & E). apply bind_Done in E as ([] & m8 & E & _). by eapply callAll_answers.
Qed.

Lemma memMib_fits bytes : intFits 64 bytes = true -> intFits 64 (memMib bytes) = true.
Proof.
  unfold memMib, intFits. rewrite !andb_true_iff, !Z.leb_le, !Z.ltb_lt. change (2 ^ (64 - 1))%Z with 9223372036854775808%Z. intros [H1 H2].
  assert (Z.quot bytes (1024 * 1024) <= Z.max 0 bytes)%Z; [|lia]. destruct (Z.le_gt_cases 0 bytes) as [H|H].
  - pose proof (Z.quot_le_upper_bound bytes (1024 * 1024) bytes). lia.
  - pose proof (Z.quot_opp_l (- bytes) (1024 * 1024)) as E. rewrite Z.opp_involutive in E. rewrite E by lia.
    pose proof (Z.quot_pos (- bytes) (1024 * 1024)). lia.
Qed.

Lemma bootCalls_typed opts spec :
  utf8 (foBootArgs opts) = true -> intFits 64 (vsVCPUs spec) = true -> intFits 64 (vsMemoryBytes spec) = true ->
  Forall (fun call => hasType (callModel call) (callBody call) = true) (map snd (bootCalls opts spec)).
Proof.
  intros Hargs Hcpu Hmem%memMib_fits. cbn [bootCalls map snd].
  repeat apply Forall_cons_2; [..|apply Forall_nil_2]; cbn [callModel callBody]; [| |vm_compute; reflexivity..].
  - unfold MachineConfiguration. cbn [hasType]. by rewrite Hcpu, Hmem.
  - unfold BootSource. cbn [hasType]. by rewrite Hargs.
Qed.

Lemma bootCalls_valid opts spec :
  Forall (fun call => Validate (callModel call) (callBody call) = []) (map snd (bootCalls opts spec)) <-> (1 <= vsVCPUs spec <= 32)%Z.
Proof.
  cbn [bootCalls map snd]. rewrite !Forall_cons. cbn [callModel callBody].
  assert (Validate MachineConfiguration (callBody (PutMachineConfiguration (vsVCPUs spec) (memMib (vsMemoryBytes spec)))) = [] <-> (1 <= vsVCPUs spec <= 32)%Z) as H.
  { cbn. destruct (Z.ltb_spec (vsVCPUs spec) 1); [cbn; split; [done|lia]|]. destruct (Z.ltb_spec 32 (vsVCPUs spec)); cbn; split; first [done|lia]. }
  cbn [callBody] in H. rewrite H. split; [tauto|]. intros Hv. split; [done|]. split_and!; try done.
  cbn. by destruct (String.eqb (foBootArgs opts) "").
Qed.

Lemma callOperation_body c : opHasBody (callOperation c) = true.
Proof. by destruct c. Qed.

(** C28: What goes over the wire when a VM boots.  A start that succeeds sent
    exactly five requests, in the order of the VMM's contract; each was
    answered with the documented status 204, each body decodes to the model the
    start filled in, and these models pass their own validation exactly when
    the number of CPUs is between 1 and 32. *)
Theorem boot_on_the_wire produce transport opts ev spec m c m' :
  (forall j, wellEncoded j -> parseJson (produce j) = Some j) ->
  (forall call, evApi ev call = clientApi produce transport call) ->
  utf8 (foBootArgs opts) = true -> intFits 64 (vsVCPUs spec) = true -> intFits 64 (vsMemoryBytes spec) = true ->
  Start opts ev spec m = (Done c, m') ->
  exists calls, mcCalls m' = mcCalls m ++ calls /\
    map (fun call => (rqMethod (sent produce call), rqPath (sent produce call))) calls =
      [("PUT", "/machine-config"); ("PUT", "/boot-source"); ("PUT", "/drives/rootfs"); ("PUT", "/vsock"); ("PUT", "/actions")] /\
    Forall (fun call => exists answer, transport (sent produce call) = Ok (204, answer)%Z) calls /\
    Forall (fun call => exists body, rqBody (sent produce call) = Some body /\ UnmarshalBinary (callModel call) body = Ok (callBody call)) calls /\
    (Forall (fun call => Validate (callModel call) (callBody call) = []) calls <-> (1 <= vsVCPUs spec <= 32)%Z).
Proof.
  intros Hprod Hapi Hargs Hcpu Hmem [Hc Ha]%Start_answers. exists (map snd (bootCalls opts spec)). split; [done|]. split; [by vm_compute|].
  split; [eapply Forall_impl; [exact Ha|]; intros call E; cbn in E; rewrite Hapi in E; by apply clientApi_Ok in E|]. split.
  - eapply Forall_impl; [by apply bootCalls_typed|]. intros call Hty. cbn in Hty. pose proof (models_regular _ (callModel_in call)) as Hr.
    unfold sent, WriteToRequest. rewrite callOperation_body. cbn [rqBody callParams rpBody].
    eexists. split; [reflexivity|]. unfold UnmarshalBinary. rewrite Hprod by by apply toJson_wellEncoded. by apply from_to.
  - apply bootCalls_valid.
Qed.

(** ** A VMM that accepts everything *)

Definition exProduce (j : json) : string := encode false j +:+ String "010" "".
Definition exTransport (r : httpRequest) : result (Z * string) := Ok (204%Z, "").

Definition exWired : environment :=
  let e := exEnv true in
  mkEnvironment (evLinks e) (evChown e) (evSpawn e) (evSocket e) (evStart e) (clientApi exProduce exTransport) (evAgent e) (evClient e) (evNow e) (evSharedMounts e).

Lemma client_verdict_witness : invoke exProduce exTransport putGuestVsock (mkParams None "") = Done None /\
  invoke exProduce (fun _ => Ok (400%Z, "{}")) putGuestVsock (mkParams None "") <> Panicked.
Proof.
  assert (putGuestVsock ∈ operations) as Hin by (apply list_elem_of_In; unfold operations; cbn [In]; repeat first [left; reflexivity | right]).
  split; [|by apply client_verdict].
  apply (client_verdict exProduce exTransport putGuestVsock (mkParams None "") Hin). exists "". split; reflexivity.
Defined.

Lemma boot_on_the_wire_witness : exists c m' calls, Start exOpts exWired exVmSpec exMachine = (Done c, m') /\ mcCalls m' = calls /\
  Forall (fun call => Validate (callModel call) (callBody call) = []) calls.
Proof.
  assert (exists c, (Start exOpts exWired exVmSpec exMachine).1 = Done c) as [c Es] by (eexists; vm_compute; reflexivity).
  assert (Start exOpts exWired exVmSpec exMachine = (Done c, (Start exOpts exWired exVmSpec exMachine).2)) as H
    by (rewrite <- Es; apply surjective_pairing).
  destruct (boot_on_the_wire exProduce exTransport exOpts exWired exVmSpec exMachine c _ (parseJson_encode_line false) (fun _ => eq_refl) eq_refl eq_refl eq_refl H)
    as (calls & Hc & _ & _ & _ & Hv).
  exists c, (Start exOpts exWired exVmSpec exMachine).2, calls. split; [exact H|]. split; [exact Hc|]. apply Hv. cbn. lia.
Defined.

(** The bodies are not validated before they are sent: a machine with no CPU
    starts when the VMM lets it. *)
Example unvalidated_cpus : exists c, (Start exOpts exWired (mkVmSpec "vm1" "t" "sha256:ab" 0 0) exMachine).1 = Done c.
Proof. eexists. vm_compute. reflexivity. Qed.
