(* ===== verification/CdImage.v ===== *)
(** * CdImage: prepared images under containerd
    ([internal/worker/image/cdimage]).

    On hosts with containerd a user's image is prepared by stacking one layer on
    it, with the binary that keeps a container alive, and by registering the
    result under a name of its own.  containerd is a parameter, the class
    [ImageDaemon]; [ImageDaemonLaws] is the documented behaviour the code relies
    on, among it that garbage collection keeps what an image record or a label
    of kept content refers to.  The OCI documents, their JSON, the digest
    function and the tar and gzip encoders are parameters too. *)

From stdpp Require Import pretty.
From S2P Require Import Prelude Effects GoStrings.

(** ** OCI documents *)

Record ociDescriptor := mkDescriptor {
  dsMediaType : string;
  dsDigest : string;
  dsSize : Z
}.

Record ociManifest := mkOciManifest {
  omSchemaVersion : Z;
  omMediaType : string;
  omArtifactType : string;
  omConfig : ociDescriptor;
  omLayers : list ociDescriptor;
  omSubject : option ociDescriptor;
  omAnnotations : list (string * string)
}.

Record ociHistory := mkOciHistory {
  ohCreatedBy : string;
  ohOther : string
}.

(** An image's configuration; [oiOther] stands for the fields the code only
    copies. *)
Record ociImage := mkOciImage {
  oiOS : string;
  oiArchitecture : string;
  oiEntrypoint : list string;
  oiCmd : list string;
  oiDiffIDs : list string;
  oiHistory : list ociHistory;
  oiOther : string
}.

Record imageRecord := mkImageRecord {
  irTarget : ociDescriptor;
  irLabels : gmap string string
}.

(** ** containerd *)

Inductive deleteAnswer := Deleted | NotFound | DeleteFailed (e : string).

Class ImageDaemon (D : Type) := {
  idContent : D -> gmap string (string * gmap string string);
  idImages : D -> gmap string imageRecord;
  list_images : D -> result (list (string * imageRecord));
  image_delete : string -> D -> deleteAnswer * D;
  pull_image : string -> D -> result ociDescriptor * D;
  with_lease : D -> result unit;
  read_blob : ociDescriptor -> D -> result string;
  write_blob : ociDescriptor -> string -> gmap string string -> D -> result unit * D;
  image_create : string -> imageRecord -> D -> result unit * D;
  image_update : string -> imageRecord -> D -> result unit * D;
  get_record : string -> D -> result unit;
  unpack : string -> D -> result unit * D;
  collect : D -> D
}.

(** The labels by which content keeps other content. *)
Definition gcRefPrefix : string := "containerd.io/gc.ref.content.".
Definition refersTo (labels : gmap string string) (dgst : string) : Prop :=
  exists k, labels !! k = Some dgst /\ hasPrefix k gcRefPrefix = true.

Section Views.
  Context {D : Type} `{!ImageDaemon D}.

(** What garbage collection keeps. *)
Inductive live (d : D) : string -> Prop :=
  | live_image n r : idImages d !! n = Some r -> live d (dsDigest (irTarget r))
  | live_ref dgst b labels dgst' : live d dgst -> idContent d !! dgst = Some (b, labels) -> refersTo labels dgst' -> live d dgst'.

(** Content is never changed, only added; labels may be added. *)
Definition grows (d d' : D) : Prop :=
  forall dgst b labels, idContent d !! dgst = Some (b, labels) -> exists labels', idContent d' !! dgst = Some (b, labels') /\ labels ⊆ labels'.

Definition blob (d : D) (dgst : string) : option string := fst <$> idContent d !! dgst.
End Views.

Class ImageDaemonLaws (D : Type) `{!ImageDaemon D} := {
  list_images_spec (d : D) l : list_images d = Ok l -> forall n r, (n, r) ∈ l <-> idImages d !! n = Some r;
  image_delete_spec n (d : D) a d' : image_delete n d = (a, d') ->
    idImages d' = match a with Deleted => delete n (idImages d) | _ => idImages d end /\ (a = NotFound -> idImages d !! n = None);
  pull_spec ref (d : D) r d' : pull_image ref d = (r, d') -> forall n, n <> ref -> idImages d' !! n = idImages d !! n;
  read_blob_spec x (d : D) b : read_blob x d = Ok b -> blob d (dsDigest x) = Some b;
  write_blob_spec x b labels (d : D) r d' : write_blob x b labels d = (r, d') ->
    idImages d' = idImages d /\ grows d d' /\ (forall dgst, dgst <> dsDigest x -> idContent d' !! dgst = idContent d !! dgst) /\
    (r = Ok tt -> blob d' (dsDigest x) = Some b /\
       (idContent d !! dsDigest x = None -> idContent d' !! dsDigest x = Some (b, labels)));
  image_create_spec n x (d : D) r d' : image_create n x d = (r, d') ->
    idContent d' = idContent d /\ idImages d' = match r with Ok _ => <[n := x]> (idImages d) | Err _ => idImages d end;
  image_update_spec n x (d : D) r d' : image_update n x d = (r, d') ->
    idContent d' = idContent d /\ idImages d' = match r with Ok _ => <[n := x]> (idImages d) | Err _ => idImages d end;
  unpack_spec n (d : D) r d' : unpack n d = (r, d') -> grows d d' /\ idImages d' = idImages d;
  collect_images (d : D) : idImages (collect d) = idImages d;
  collect_keeps (d : D) dgst : live d dgst -> idContent (collect d) !! dgst = idContent d !! dgst
}.

(** ** Names *)

Definition userDigestLabel : string := "hpcc.dev/user-digest".

Definition normalizeDigest (s : string) : string := if contains s ":" then s else "sha256:" +:+ s.

Definition isManifestMediaType (mt : string) : bool :=
  String.eqb mt "application/vnd.oci.image.manifest.v1+json" || String.eqb mt "application/vnd.docker.distribution.manifest.v2+json".

Definition normalizeLayerPath (p : string) : string :=
  let drive := match sget 1 p with Some c => Ascii.eqb c ":" | None => false end in
  let isWindows := contains p "\" || drive in
  let p := if drive then sdrop 2 p else p in
  let p := replaceAll p "\" "/" in
  let p := trimLeftBy (Ascii.eqb "/") p in
  if isWindows && negb (hasPrefix p "Files/") then "Files/" +:+ p else p.

Definition parentDirs (p : string) : list string :=
  let parts := splitOn "/" p in
  map (fun i => joinWith "/" (take i parts)) (seq 1 (length parts - 1)).

Record PauseBinaries := mkPauseBinaries {
  pbLinuxAmd64 : string;
  pbLinuxArm64 : string;
  pbWindowsAmd64 : string
}.

(** A header of [archive/tar] as the code fills it. *)
Record tarEntry := mkTarEntry {
  teName : string;
  teMode : Z;
  teIsDir : bool;
  teContent : string
}.

Definition pauseEntries (installPath bin : string) : list tarEntry :=
  let tarPath := normalizeLayerPath installPath in
  map (fun d => mkTarEntry (d +:+ "/") 493 true "") (parentDirs tarPath) ++ [mkTarEntry tarPath 493 false bin].

(** ** The store *)

Section Store.
  Context {D : Type} `{!ImageDaemon D}.
  (* The digest of bytes, the encoded part of a digest, the JSON of the OCI
     documents, and the archive formats. *)
  Context (fromBytes encoded : string -> string).
  Context (decodeManifest : string -> result ociManifest) (encodeManifest : ociManifest -> result string).
  Context (decodeConfig : string -> result ociImage) (encodeConfig : ociImage -> result string).
  Context (tarBytes : list tarEntry -> result string) (gzip : string -> result string).
  Context (readHost : string -> result string) (pause : PauseBinaries) (snapshotter : string).

Definition preparedImageName (userDigest : string) : string := "prepared.hpcc.local/img:" +:+ encoded userDigest.
Definition PreparedImageName (userDigest : string) : string := preparedImageName (normalizeDigest userDigest).

Definition call {A} (f : D -> result A * D) : act D A := fun d =>
  match f d with (Ok a, d') => (Done a, d') | (Err e, d') => (Failed e, d') end.

Definition getExistingImages (d : D) : result (list string) :=
  let! imgs := wrapErr "list images" (list_images d) in
  Ok (omap (fun i => match irLabels i.2 !! userDigestLabel with
                     | Some x => if String.eqb x "" then None else Some x
                     | None => None
                     end) imgs).

Definition UntagImage (userDigest : string) : act D unit := fun d =>
  match image_delete (preparedImageName (normalizeDigest userDigest)) d with
  | (DeleteFailed e, d') => (Failed e, d')
  | (_, d') => (Done tt, d')
  end.

Definition loadPauseBinary (goos goarch : string) : result (string * string) :=
  let! choice :=
    if String.eqb goos "linux" && String.eqb goarch "amd64" then Ok (pbLinuxAmd64 pause, "/.hpcc/pause")
    else if String.eqb goos "linux" && String.eqb goarch "arm64" then Ok (pbLinuxArm64 pause, "/.hpcc/pause")
    else if String.eqb goos "windows" && String.eqb goarch "amd64" then Ok (pbWindowsAmd64 pause, "C:\.hpcc\pause.exe")
    else Err ("no pause binary configured for " +:+ goos +:+ "/" +:+ goarch) in
  let '(path, installPath) := choice in
  if String.eqb path "" then Err ("pause binary path for " +:+ goos +:+ "/" +:+ goarch +:+ " is not set")
  else let! bin := wrapErr ("read pause binary " +:+ path) (readHost path) in Ok (bin, installPath).

Definition buildPauseLayer (installPath bin : string) : result (string * string) :=
  let! raw := tarBytes (pauseEntries installPath bin) in
  let! gz := gzip raw in
  Ok (raw, gz).

(** Create, or overwrite what exists. *)
Definition register (what name : string) (r : imageRecord) : act D unit := fun d =>
  match image_create name r d with
  | (Ok _, d1) => (Done tt, d1)
  | (Err e, d1) =>
      match image_update name r d1 with
      | (Ok _, d2) => (Done tt, d2)
      | (Err u, d2) => (Failed ("register prepared " +:+ what +:+ " (create=" +:+ e +:+ ", update=" +:+ u +:+ ")"), d2)
      end
  end.

Definition recordFor (target : ociDescriptor) (userDigest : string) : imageRecord :=
  mkImageRecord target {[ userDigestLabel := userDigest ]}.

Definition registerWindowsAlias (base : ociDescriptor) (userDigest : string) : act D unit :=
  register "alias" (preparedImageName userDigest) (recordFor base userDigest).

Definition layerLabel (i : nat) : string := gcRefPrefix +:+ "l." +:+ itoa (Z.of_nat i).
Definition manifestLabels (m : ociManifest) : gmap string string :=
  list_to_map (imap (fun i l => (layerLabel i, dsDigest l)) (omLayers m)) ∪ {[ (gcRefPrefix +:+ "config") := dsDigest (omConfig m) ]}.

Definition descriptorOf (mediaType data : string) : ociDescriptor := mkDescriptor mediaType (fromBytes data) (Z.of_nat (slen data)).

(** The configuration and the manifest with one more layer. *)
Definition withPause (diffID pausePath : string) (c : ociImage) : ociImage :=
  mkOciImage (oiOS c) (oiArchitecture c) [pausePath] [] (oiDiffIDs c ++ [diffID])
    (oiHistory c ++ [mkOciHistory "hpcc: inject pause binary" ""]) (oiOther c).

Definition stacked (m : ociManifest) (config layer : ociDescriptor) : ociManifest :=
  mkOciManifest (omSchemaVersion m) (omMediaType m) "" config (omLayers m ++ [layer]) None (omAnnotations m).

Definition injectPause (base : ociDescriptor) (userDigest : string) : act D unit :=
  let* _ := wrapping "acquire lease" (check with_lease) in
  let* manifestData := wrapping ("read manifest " +:+ dsDigest base) (check (read_blob base)) in
  if negb (isManifestMediaType (dsMediaType base)) then failure ("expected image manifest, got " +:+ dsMediaType base) else
  let* manifest := wrapping "decode manifest" (check (fun _ => decodeManifest manifestData)) in
  let* configData := wrapping "read image config" (check (read_blob (omConfig manifest))) in
  let* imgCfg := wrapping "decode image config" (check (fun _ => decodeConfig configData)) in
  if String.eqb (oiOS imgCfg) "windows" then registerWindowsAlias base userDigest else
  let* pauseBin := check (fun _ => loadPauseBinary (oiOS imgCfg) (oiArchitecture imgCfg)) in
  let* layer := wrapping "build pause layer" (check (fun _ => buildPauseLayer pauseBin.2 pauseBin.1)) in
  let layerDesc := descriptorOf "application/vnd.oci.image.layer.v1.tar+gzip" layer.2 in
  let* _ := wrapping "write pause layer blob" (call (write_blob layerDesc layer.2 ∅)) in
  let newConfig := withPause (fromBytes layer.1) pauseBin.2 imgCfg in
  let* newConfigData := wrapping "encode new image config" (check (fun _ => encodeConfig newConfig)) in
  let newConfigDesc := descriptorOf (dsMediaType (omConfig manifest)) newConfigData in
  let* _ := wrapping "write image config blob" (call (write_blob newConfigDesc newConfigData ∅)) in
  let newManifest := stacked manifest newConfigDesc layerDesc in
  let* newManifestData := wrapping "encode new manifest" (check (fun _ => encodeManifest newManifest)) in
  let newManifestDesc :=
    descriptorOf (if String.eqb (omMediaType manifest) "" then "application/vnd.oci.image.manifest.v1+json" else omMediaType manifest) newManifestData in
  let* _ := wrapping "write manifest blob" (call (write_blob newManifestDesc newManifestData (manifestLabels newManifest))) in
  let* _ := register "image" (preparedImageName userDigest) (recordFor newManifestDesc userDigest) in
  let* _ := wrapping "re-fetch prepared image for unpack" (check (get_record (preparedImageName userDigest))) in
  wrapping ("unpack prepared image into snapshotter " +:+ snapshotter) (call (unpack (preparedImageName userDigest))).

Definition PullImage (imagePath expectedDigest : string) : act D unit :=
  let* target := wrapping ("pull " +:+ imagePath) (call (pull_image imagePath)) in
  let want := normalizeDigest expectedDigest in
  if negb (String.eqb (dsDigest target) want)
  then failure ("image digest mismatch: expected " +:+ want +:+ ", got " +:+ dsDigest target)
  else injectPause target want.
End Store.

(** ** Facts: labels and collection *)

Definition parts (m : ociManifest) : list string := dsDigest (omConfig m) :: map dsDigest (omLayers m).

Lemma layerLabel_inj i j : layerLabel i = layerLabel j -> i = j.
Proof. unfold layerLabel. intros H. apply (inj (String.append _)), (inj (String.append _)) in H. unfold itoa in H. apply (inj pretty) in H. lia. Qed.

Lemma layerLabels_lookup (l : list ociDescriptor) i x : l !! i = Some x ->
  (list_to_map (imap (fun i l => (layerLabel i, dsDigest l)) l) : gmap string string) !! layerLabel i = Some (dsDigest x).
Proof.
  intros Hi. apply elem_of_list_to_map_1.
  - rewrite fmap_imap. apply NoDup_alt. intros a b k Ha Hb. rewrite list_lookup_imap in Ha, Hb.
    destruct (l !! a), (l !! b); cbn in *; try done. simplify_eq. by apply layerLabel_inj.
  - apply list_elem_of_lookup. exists i. by rewrite list_lookup_imap, Hi.
Qed.

(** The labels of a manifest name all its parts. *)
Lemma manifestLabels_refs m x : x ∈ parts m -> refersTo (manifestLabels m) x.
Proof.
  unfold parts, refersTo, manifestLabels. intros [->|Hx]%elem_of_cons.
  - exists (gcRefPrefix +:+ "config"). split; [|reflexivity]. rewrite lookup_union_r; [by rewrite lookup_singleton_eq|].
    apply not_elem_of_list_to_map_1. rewrite fmap_imap. intros (i & y & E & _)%elem_of_lookup_imap_1. cbn in E. discriminate.
  - apply list_elem_of_fmap in Hx as (l & -> & [i Hi]%list_elem_of_lookup). exists (layerLabel i). split; [|reflexivity].
    apply lookup_union_Some_l. by apply layerLabels_lookup.
Qed.

Lemma refersTo_mono ls ls' x : ls ⊆ ls' -> refersTo ls x -> refersTo ls' x.
Proof. intros Hs (k & Hk & Hp). exists k. split; [by eapply lookup_weaken|done]. Qed.

Section Facts.
  Context {D : Type} `{!ImageDaemon D, !ImageDaemonLaws D}.

#[global] Instance grows_preorder : PreOrder (@grows D _).
Proof.
  split.
  - intros d x b ls H. eauto.
  - intros d1 d2 d3 H12 H23 x b ls H. apply H12 in H as (ls1 & H & S1). apply H23 in H as (ls2 & H & S2). exists ls2. split; [done|]. by etrans.
Qed.

Lemma grows_blob (d d' : D) x b : grows d d' -> blob d x = Some b -> blob d' x = Some b.
Proof. unfold blob. intros Hg H. destruct (idContent d !! x) as [[c ls]|] eqn:E; [|done]. apply Hg in E as (ls' & -> & _). done. Qed.

Lemma same_grows (d d' : D) : idContent d' = idContent d -> grows d d'.
Proof. intros E x b ls H. rewrite E. eauto. Qed.

Lemma live_collect (d : D) x : live d x -> live (collect d) x.
Proof.
  induction 1 as [n r H|x b ls y Hx IH Hc Hr].
  - eapply live_image. by rewrite collect_images.
  - eapply live_ref; [exact IH| |exact Hr]. by rewrite collect_keeps.
Qed.

(** However often the collector runs. *)
Lemma live_forever (d : D) x n : live d x -> live (Nat.iter n collect d) x /\ idContent (Nat.iter n collect d) !! x = idContent d !! x.
Proof.
  intros H. induction n as [|n [IH1 IH2]]; [done|]. cbn. split; [by apply live_collect|]. by rewrite collect_keeps.
Qed.

Lemma images_forever (d : D) n : idImages (Nat.iter n collect d) = idImages d.
Proof. induction n as [|n IH]; [done|]. cbn. by rewrite collect_images. Qed.

Lemma register_spec what name r (d : D) o d' : register what name r d = (o, d') ->
  idContent d' = idContent d /\ (o = Done tt -> idImages d' = <[name := r]> (idImages d)).
Proof.
  unfold register. destruct (image_create name r d) as [[[]|e] d1] eqn:E1; apply image_create_spec in E1 as [C1 I1].
  - intros [= <- <-]. split; [done|]. by rewrite I1.
  - destruct (image_update name r d1) as [[[]|u] d2] eqn:E2; apply image_update_spec in E2 as [C2 I2]; intros [= <- <-].
    + split; [by rewrite C2|]. intros _. by rewrite I2, I1.
    + split; [by rewrite C2|done].
Qed.

(** Untagging takes the prepared name, and it alone, out of the records. *)
Lemma UntagImage_Done encoded userDigest (d d' : D) : UntagImage encoded userDigest d = (Done tt, d') ->
  idImages d' = delete (PreparedImageName encoded userDigest) (idImages d).
Proof.
  unfold UntagImage, PreparedImageName. destruct (image_delete _ d) as [a d1] eqn:E. apply image_delete_spec in E as [Hi Hn].
  destruct a; intros [= <-]; [done|]. by rewrite delete_id by by apply Hn.
Qed.

Lemma call_Done {A} (f : D -> result A * D) d a d' : call f d = (Done a, d') -> f d = (Ok a, d').
Proof. unfold call. destruct (f d) as [[]]; naive_solver. Qed.
End Facts.

(** ** A prepared image *)

Section Prepared.
  Context {D : Type} `{!ImageDaemon D, !ImageDaemonLaws D}.
  Context (fromBytes encoded : string -> string).
  Context (decodeManifest : string -> result ociManifest) (encodeManifest : ociManifest -> result string).
  Context (decodeConfig : string -> result ociImage) (encodeConfig : ociImage -> result string).
  Context (tarBytes : list tarEntry -> result string) (gzip : string -> result string).
  Context (readHost : string -> result string) (pause : PauseBinaries) (snapshotter : string).
  (* A document that was decoded and extended as below decodes again to what
     was encoded, and blobs of different kinds have different digests. *)
  Context (manifest_json : forall b0 base x y b, decodeManifest b0 = Ok base ->
    let m := stacked base (descriptorOf fromBytes (dsMediaType (omConfig base)) x)
                          (descriptorOf fromBytes "application/vnd.oci.image.layer.v1.tar+gzip" y) in
    encodeManifest m = Ok b -> decodeManifest b = Ok m).
  Context (config_json : forall b0 cfg x path bin b, decodeConfig b0 = Ok cfg ->
    loadPauseBinary readHost pause (oiOS cfg) (oiArchitecture cfg) = Ok (bin, path) ->
    encodeConfig (withPause (fromBytes x) path cfg) = Ok b -> decodeConfig b = Ok (withPause (fromBytes x) path cfg)).
  Context (kinds_differ : forall m b, encodeManifest m = Ok b ->
    (forall c x, encodeConfig c = Ok x -> fromBytes x <> fromBytes b) /\ (forall t x, gzip t = Ok x -> fromBytes x <> fromBytes b)).
  #[local] Notation Inject := (injectPause fromBytes encoded decodeManifest encodeManifest decodeConfig encodeConfig tarBytes gzip readHost pause snapshotter).
  #[local] Notation Pull := (PullImage fromBytes encoded decodeManifest encodeManifest decodeConfig encodeConfig tarBytes gzip readHost pause snapshotter).

(** Every manifest in the store keeps its parts. *)
Definition labelled (d : D) : Prop := forall m b e ls, encodeManifest m = Ok b -> idContent d !! fromBytes b = Some (e, ls) ->
  forall x, x ∈ parts m -> refersTo ls x.

Lemma labelled_write x b ls (d : D) r d' : write_blob x b ls d = (r, d') ->
  (forall m y, encodeManifest m = Ok y -> dsDigest x <> fromBytes y) -> labelled d -> labelled d'.
Proof.
  intros (_ & _ & Hne & _)%write_blob_spec Hx Hd m y e l Hy He. rewrite Hne in He; [by eapply Hd|]. intros E. by apply (Hx _ _ Hy).
Qed.

(** The manifest that was written refers to its parts. *)
Lemma written_refs mt m b (d : D) d' : labelled d -> encodeManifest m = Ok b ->
  write_blob (descriptorOf fromBytes mt b) b (manifestLabels m) d = (Ok tt, d') ->
  exists ls, idContent d' !! fromBytes b = Some (b, ls) /\ forall x, x ∈ parts m -> refersTo ls x.
Proof.
  intros Hd Hm (_ & Hg & _ & Hw)%write_blob_spec. destruct (Hw eq_refl) as [Hb Hnew]. cbn [descriptorOf dsDigest] in *.
  destruct (idContent d !! fromBytes b) as [[e ls]|] eqn:E.
  - destruct (Hg _ _ _ E) as (ls' & E' & Hs). unfold blob in Hb. rewrite E' in Hb. injection Hb as ->. exists ls'. split; [done|].
    intros x Hx. eapply refersTo_mono; [exact Hs|]. by eapply Hd.
  - exists (manifestLabels m). split; [by apply Hnew|]. apply manifestLabels_refs.
Qed.

(** What preparing an image leaves: the image it started from, and the new
    one or its alias. *)
Definition injected (d' : D) (want : string) (base : ociManifest) (cfg : ociImage) (r : imageRecord) : Prop :=
  exists bin path raw gz mb cb ls,
    loadPauseBinary readHost pause (oiOS cfg) (oiArchitecture cfg) = Ok (bin, path) /\
    tarBytes (pauseEntries path bin) = Ok raw /\ gzip raw = Ok gz /\
    let config := descriptorOf fromBytes (dsMediaType (omConfig base)) cb in
    let layer := descriptorOf fromBytes "application/vnd.oci.image.layer.v1.tar+gzip" gz in
    encodeConfig (withPause (fromBytes raw) path cfg) = Ok cb /\ encodeManifest (stacked base config layer) = Ok mb /\
    dsDigest (irTarget r) = fromBytes mb /\ idContent d' !! fromBytes mb = Some (mb, ls) /\
    (forall x, x ∈ parts (stacked base config layer) -> refersTo ls x) /\
    blob d' (fromBytes cb) = Some cb /\ blob d' (fromBytes gz) = Some gz.

Lemma injectPause_Done target want (d d' : D) : labelled d -> Inject target want d = (Done tt, d') ->
  exists base cfg r, (exists b, blob d' (dsDigest target) = Some b /\ decodeManifest b = Ok base) /\
    (exists b, blob d' (dsDigest (omConfig base)) = Some b /\ decodeConfig b = Ok cfg) /\
    idImages d' !! preparedImageName encoded want = Some r /\ irLabels r = {[ userDigestLabel := want ]} /\
    (oiOS cfg = "windows" /\ irTarget r = target /\ idContent d' = idContent d /\ idImages d' = <[preparedImageName encoded want := r]> (idImages d) \/
     oiOS cfg <> "windows" /\ injected d' want base cfg r).
Proof.
  intros Hd H. unfold injectPause in H.
  apply bind_Done in H as ([] & d0 & H0 & H). apply wrapping_Done, check_Done in H0 as [_ ->].
  apply bind_Done in H as (mdata & d0 & H0 & H). apply wrapping_Done, check_Done in H0 as [Hrm%read_blob_spec ->].
  destruct (negb _); [done|].
  apply bind_Done in H as (base & d0 & H0 & H). apply wrapping_Done, check_Done in H0 as [Hbase ->].
  apply bind_Done in H as (cdata & d0 & H0 & H). apply wrapping_Done, check_Done in H0 as [Hrc%read_blob_spec ->].
  apply bind_Done in H as (cfg & d0 & H0 & H). apply wrapping_Done, check_Done in H0 as [Hcfg ->].
  destruct (String.eqb_spec (oiOS cfg) "windows") as [Hos|Hos].
  { apply register_spec in H as [Hc Hi]. exists base, cfg, (recordFor target want). specialize (Hi eq_refl). pose proof (same_grows _ _ Hc).
    split_and!; [by eauto using grows_blob..|by rewrite Hi, lookup_insert_eq|done|by left]. }
  apply bind_Done in H as ([bin path] & d0 & H0 & H). apply check_Done in H0 as [Hload ->].
  apply bind_Done in H as ([raw gz] & d0 & H0 & H). apply wrapping_Done, check_Done in H0 as [Hbuild ->]. cbn [fst snd] in H.
  unfold buildPauseLayer in Hbuild. cbn [fst snd] in Hbuild. inv_ok. rename H0 into Htar, H1 into Hgz.
  apply bind_Done in H as ([] & d1 & H0 & H). apply wrapping_Done, call_Done in H0 as Hw1.
  apply bind_Done in H as (cb & d0 & H1 & H). apply wrapping_Done, check_Done in H1 as [Hcb ->].
  apply bind_Done in H as ([] & d2 & H1 & H). apply wrapping_Done, call_Done in H1 as Hw2.
  apply bind_Done in H as (mb & d0 & H2 & H). apply wrapping_Done, check_Done in H2 as [Hmb ->].
  apply bind_Done in H as ([] & d3 & H2 & H). apply wrapping_Done, call_Done in H2 as Hw3.
  apply bind_Done in H as ([] & d4 & [Hc4 Hi4]%register_spec & H). specialize (Hi4 eq_refl).
  apply bind_Done in H as ([] & d5 & H3 & H). apply wrapping_Done, check_Done in H3 as [_ ->].
  apply wrapping_Done, call_Done, unpack_spec in H as [Hg5 Hi5].
  assert (labelled d2) as Hl2.
  { eapply labelled_write; [exact Hw2| |eapply labelled_write; [exact Hw1| |exact Hd]]; intros m y Hy; destruct (kinds_differ m y Hy) as [Hkc Hkz];
      [by apply (Hkc _ _ Hcb)|by apply (Hkz _ _ Hgz)]. }
  destruct (written_refs _ _ _ _ _ Hl2 Hmb Hw3) as (ls & Hcont & Hrefs). rewrite <- Hc4 in Hcont.
  apply Hg5 in Hcont as (ls' & Hcont & Hs).
  apply write_blob_spec in Hw1 as (_ & Hg1 & _ & Hb1), Hw2 as (_ & Hg2 & _ & Hb2), Hw3 as (_ & Hg3 & _ & _).
  destruct (Hb1 eq_refl) as [Hb1' _], (Hb2 eq_refl) as [Hb2' _]. cbn [descriptorOf dsDigest] in Hb1', Hb2'.
  apply same_grows in Hc4. assert (grows d2 d') as Hg by (by etrans; [exact Hg3|etrans; [exact Hc4|]]).
  assert (grows d d') as Hg0 by (by etrans; [exact Hg1|etrans; [exact Hg2|]]).
  eexists base, cfg, _. split_and!; [by eauto using grows_blob..|by rewrite Hi5, Hi4, lookup_insert_eq|done|right]. split; [done|].
  exists bin, path, raw, gz, mb, cb, ls'. cbv zeta. split_and!; try done.
  - intros x Hx. eapply refersTo_mono; [exact Hs|]. by apply Hrefs.
  - by apply (grows_blob d2).
  - apply (grows_blob d1); [|done]. by etrans.
Qed.

End Prepared.

(** ** A small containerd *)

Record toyDaemon := mkToyDaemon {
  tdContent : gmap string (string * gmap string string);
  tdImages : gmap string imageRecord;
  tdUnpacks : bool
}.

(** The collector keeps what an image or a label of any content names. *)
Definition toyKept (d : toyDaemon) : list string :=
  map (fun r => dsDigest (irTarget r.2)) (map_to_list (tdImages d)) ++
  concat (map (fun c => map snd (map_to_list c.2.2)) (map_to_list (tdContent d))).

#[export] Instance toyImages : ImageDaemon toyDaemon := {|
  idContent := tdContent;
  idImages := tdImages;
  list_images d := Ok (map_to_list (tdImages d));
  image_delete n d :=
    (if bool_decide (is_Some (tdImages d !! n)) then Deleted else NotFound, mkToyDaemon (tdContent d) (delete n (tdImages d)) (tdUnpacks d));
  pull_image ref d :=
    let target := mkDescriptor "application/vnd.oci.image.manifest.v1+json" "sha256:base" 4 in
    (Ok target, mkToyDaemon (tdContent d) (<[ref := mkImageRecord target ∅]> (tdImages d)) (tdUnpacks d));
  with_lease _ := Ok tt;
  read_blob x d := match tdContent d !! dsDigest x with Some c => Ok c.1 | None => Err "not found" end;
  write_blob x b labels d :=
    match tdContent d !! dsDigest x with
    | Some c => (if bool_decide (c.1 = b) then Ok tt else Err "unexpected content", d)
    | None => (Ok tt, mkToyDaemon (<[dsDigest x := (b, labels)]> (tdContent d)) (tdImages d) (tdUnpacks d))
    end;
  image_create n r d :=
    if bool_decide (is_Some (tdImages d !! n)) then (Err "already exists", d)
    else (Ok tt, mkToyDaemon (tdContent d) (<[n := r]> (tdImages d)) (tdUnpacks d));
  image_update n r d := (Ok tt, mkToyDaemon (tdContent d) (<[n := r]> (tdImages d)) (tdUnpacks d));
  get_record n d := if bool_decide (is_Some (tdImages d !! n)) then Ok tt else Err "not found";
  unpack _ d := (if tdUnpacks d then Ok tt else Err "no space left on device", d);
  collect d := mkToyDaemon (filter (fun c => c.1 ∈ toyKept d) (tdContent d)) (tdImages d) (tdUnpacks d)
|}.

Lemma toyKept_live d x : live d x -> x ∈ toyKept d.
Proof.
  unfold toyKept. intros [n r H|y b ls x' _ H (k & Hk & _)]; apply elem_of_app; [left|right].
  - apply list_elem_of_fmap. exists (n, r). split; [done|]. by apply elem_of_map_to_list.
  - apply list_elem_of_In, in_concat. exists (map snd (map_to_list ls)). split; apply list_elem_of_In, list_elem_of_fmap.
    + exists (y, (b, ls)). split; [done|]. by apply elem_of_map_to_list.
    + exists (k, x'). split; [done|]. by apply elem_of_map_to_list.
Qed.

#[export] Instance toyImages_laws : ImageDaemonLaws toyDaemon.
Proof.
  split; cbn.
  - intros d l [= <-] n r. apply elem_of_map_to_list.
  - intros n d a d' [= <- <-]. cbn. case_bool_decide as E; [done|]. rewrite delete_id by by apply eq_None_not_Some.
    split; [done|]. intros _. by apply eq_None_not_Some.
  - intros ref d r d' [= <- <-] n Hn. cbn. by rewrite lookup_insert_ne.
  - intros x d b H. unfold blob. cbn. destruct (tdContent d !! dsDigest x); [|done]. cbn in *. congruence.
  - intros x b labels d r d' H. destruct (tdContent d !! dsDigest x) as [c|] eqn:E; injection H as <- <-; cbn.
    + split; [done|]. split; [reflexivity|]. split; [done|]. case_bool_decide as Ec; [|done]. intros _. split; [|done].
      unfold blob. cbn. by rewrite E, <- Ec.
    + split; [done|]. split; [|split; [intros y Hy; by rewrite lookup_insert_ne|]].
      * intros y c ls Hc. cbn in *. exists ls. rewrite lookup_insert_ne; [done|]. intros <-. congruence.
      * intros _. unfold blob. cbn. by rewrite lookup_insert_eq.
  - intros n x d r d' H. case_bool_decide; by injection H as <- <-.
  - intros n x d r d' [= <- <-]. done.
  - intros n d r d' [= <- <-]. done.
  - done.
  - intros d x Hx. cbn. destruct (tdContent d !! x) as [c|] eqn:E.
    + apply map_lookup_filter_Some. split; [done|]. by apply toyKept_live.
    + apply map_lookup_filter_None. by left.
Qed.

#[export] Instance ociDescriptor_dec : EqDecision ociDescriptor.
Proof. solve_decision. Defined.
#[export] Instance ociManifest_dec : EqDecision ociManifest.
Proof. solve_decision. Defined.
#[export] Instance ociHistory_dec : EqDecision ociHistory.
Proof. solve_decision. Defined.
#[export] Instance ociImage_dec : EqDecision ociImage.
Proof. solve_decision. Defined.

(** Documents that are encoded by one letter. *)
Definition exDigest (b : string) : string := "sha256:" +:+ b.
Definition exBase : ociManifest :=
  mkOciManifest 2 "" "" (mkDescriptor "application/vnd.oci.image.config.v1+json" "sha256:cfg" 3) [mkDescriptor "layer" "sha256:l0" 2] None [].
Definition exCfg : ociImage := mkOciImage "linux" "amd64" ["/bin/sh"] ["-c"] ["sha256:d0"] [] "".
Definition exNewCfg : ociImage := withPause (exDigest "tar") "/.hpcc/pause" exCfg.
Definition exNewManifest : ociManifest :=
  stacked exBase (descriptorOf exDigest "application/vnd.oci.image.config.v1+json" "C")
    (descriptorOf exDigest "application/vnd.oci.image.layer.v1.tar+gzip" "gz").
Definition exDecodeManifest (b : string) : result ociManifest :=
  if String.eqb b "M" then Ok exNewManifest else if String.eqb b "base" then Ok exBase else Err "bad manifest".
Definition exEncodeManifest (m : ociManifest) : result string := if decide (m = exNewManifest) then Ok "M" else Err "bad manifest".
Definition exDecodeConfig (b : string) : result ociImage :=
  if String.eqb b "C" then Ok exNewCfg else if String.eqb b "cfg" then Ok exCfg else Err "bad config".
Definition exEncodeConfig (c : ociImage) : result string := if decide (c = exNewCfg) then Ok "C" else Err "bad config".
Definition exDaemon (unpacks : bool) : toyDaemon :=
  mkToyDaemon {[ "sha256:base" := ("base", {[ gcRefPrefix +:+ "config" := "sha256:cfg"; gcRefPrefix +:+ "l.0" := "sha256:l0" ]});
                 "sha256:cfg" := ("cfg", ∅); "sha256:l0" := ("l0", ∅) ]} ∅ unpacks.
Definition exPullImage (unpacks : bool) : outcome unit * toyDaemon :=
  PullImage exDigest (fun s => sdrop 7 s) exDecodeManifest exEncodeManifest exDecodeConfig exEncodeConfig
    (fun _ => Ok "tar") (fun _ => Ok "gz") (fun p => if String.eqb p "/opt/pause" then Ok "ELF" else Err "no such file")
    (mkPauseBinaries "/opt/pause" "" "") "overlayfs" "reg/img" "base" (exDaemon unpacks).

Lemma exManifest_json m b : exEncodeManifest m = Ok b -> exDecodeManifest b = Ok m.
Proof. unfold exEncodeManifest. destruct (decide _) as [->|]; [|done]. by intros [= <-]. Qed.

Lemma exConfig_json c b : exEncodeConfig c = Ok b -> exDecodeConfig b = Ok c.
Proof. unfold exEncodeConfig. destruct (decide _) as [->|]; [|done]. by intros [= <-]. Qed.

Lemma exKinds m b : exEncodeManifest m = Ok b ->
  (forall c x, exEncodeConfig c = Ok x -> exDigest x <> exDigest b) /\ (forall t x : string, Ok "gz" = Ok x -> exDigest x <> exDigest b).
Proof.
  unfold exEncodeManifest, exEncodeConfig. destruct (decide _); [|done]. intros [= <-]. split; [|by intros _ x [= <-]].
  intros c x. destruct (decide _); [|done]. by intros [= <-].
Qed.

Lemma exPulled_labelled target dp : pull_image "reg/img" (exDaemon true) = (Ok target, dp) -> labelled exDigest exEncodeManifest dp.
Proof. intros [= <- <-] m b e ls. unfold exEncodeManifest. destruct (decide _); [|done]. intros [= <-]. cbn. by intros H. Qed.


(** A pull whose last step fails has registered the image all the same: the
    catalogue lists a digest that no container can be made from. *)
Example failed_pull_listed : (exPullImage false).1 = Failed "unpack prepared image into snapshotter overlayfs: no space left on device" /\
  getExistingImages (exPullImage false).2 = Ok ["sha256:base"].
Proof. split; vm_compute; reflexivity. Qed.
