(* ===== verification/Hcsshim.v ===== *)
(** * Hcsshim: containers under containerd
    ([internal/worker/runtime/hcsshim.go], with the unisolated runtime of
    [dangerous.go] and the choice between runtimes in [select.go]).

    A container is a Hyper-V utility VM driven through the agent, or a silo on
    the host's kernel in which commands are children of an idle process and
    files go through directories that are mounted into the container.
    containerd is a parameter, the class [Containerd], with its documented
    behaviour as [ContainerdLaws]: a task that runs cannot be deleted, nor a
    container that has a task.  Paths on the host are those of a Unix build, as
    everywhere; paths in the container are the literal texts of the source. *)

From S2P Require Import Prelude Effects GoStrings GoPath Store Staging Agent SquashMeta SquashCodec SquashWriter SquashReader SquashBuild SquashImage Rootfs Firecracker CdImage.

(** ** Constants and options *)

Definition HandlerHcsshim : string := "runhcs-wcow-hypervisor".
Definition HandlerReallyReallyDangerous : string := "really_really_dangerous".
Definition HandlerFirecracker : string := "firecracker".

Definition IsolationHyperV : string := "hyperv".
Definition IsolationProcess : string := "process".

Definition guestSrcRoot : string := "C:\src".
Definition guestOutRoot : string := "C:\out".
Definition guestPauseDir : string := "C:\.hpcc".
Definition guestPauseExe : string := "C:\.hpcc\pause.exe".
Definition guestAgentExe : string := "C:\.hpcc\agent.exe".
Definition pauseFileName : string := "pause.exe".
Definition pauseMountSub : string := ".hpcc-pause-mount".
Definition agentFileName : string := "agent.exe".
Definition agentMountSub : string := ".hpcc-agent-mount".
Definition guestAgentStagingSrc : string := "C:\hpcc\src".
Definition guestAgentStagingOut : string := "C:\hpcc\out".

Record HcsshimOptions := mkHcsshimOptions {
  hoAddress : string;
  hoNamespace : string;
  hoRunDir : string;
  hoRuntime : string;
  hoSnapshotter : string;
  hoIsolation : string;
  hoPauseHostPath : string;
  hoAgentHostPath : string
}.

Record Hcsshim := mkHcsshim {
  hsOpts : HcsshimOptions;
  hsPauseMountDir : string;
  hsAgentMountDir : string
}.

(** An operation of the file system that returns an error, or the new files. *)
Definition files (f : FS -> result FS) : act FS unit := fun fs =>
  match f fs with Ok fs' => (Done tt, fs') | Err e => (Failed e, fs) end.

(** ** Setting up *)

Section Setup.
  (* The time on files, the answer of icacls for a directory, and of dialling
     containerd. *)
  Context (now : Z) (grant : string -> result unit) (dial : string -> result unit).

(** Opening a directory succeeds; reading it fails after the copy was made. *)
Definition stageEntrypointMount (runDir sub binName src : string) : act FS string :=
  let* data := check (fun fs =>
    match fsFiles fs !! comps src with
    | Some f => Ok (Some f.1)
    | None => if bool_decide (comps src ∈ fsDirs fs) then Ok None else Err ("open " +:+ src +:+ ": no such file")
    end) in
  let mountDir := join [runDir; sub] in
  let* _ := wrapping ("mkdir " +:+ mountDir) (files (mkdirAll (comps mountDir))) in
  let dst := join [mountDir; binName] in
  let* _ := wrapping ("create " +:+ dst) (files (writeFile (comps dst) (default "" data) now)) in
  match data with
  | None => failure ("copy " +:+ src +:+ " -> " +:+ dst +:+ ": is a directory")
  | Some _ => let* _ := wrapping ("grant container access on " +:+ mountDir) (check (fun _ => grant mountDir)) in ret mountDir
  end.

Definition orDefault (s d : string) : string := if String.eqb s "" then d else s.

Definition NewHcsshim (opts : HcsshimOptions) : act FS Hcsshim :=
  if String.eqb (hoAddress opts) "" then failure "hcsshim runtime: address is required" else
  if String.eqb (hoRunDir opts) "" then failure "hcsshim runtime: run_dir is required" else
  let isolation := orDefault (hoIsolation opts) IsolationHyperV in
  let opts := mkHcsshimOptions (hoAddress opts) (orDefault (hoNamespace opts) "hpcc") (hoRunDir opts)
                (orDefault (hoRuntime opts) "io.containerd.runhcs.v1") (orDefault (hoSnapshotter opts) "windows") isolation
                (hoPauseHostPath opts) (hoAgentHostPath opts) in
  if negb (String.eqb isolation IsolationHyperV || String.eqb isolation IsolationProcess)
  then failure ("hcsshim runtime: unknown isolation " +:+ isolation) else
  if String.eqb (hoPauseHostPath opts) "" then failure "hcsshim runtime: pause_host_path is required (host path to hpcc-pause.exe)" else
  let* pauseMountDir := wrapping "hcsshim runtime: stage pause mount"
                          (stageEntrypointMount (hoRunDir opts) pauseMountSub pauseFileName (hoPauseHostPath opts)) in
  let* agentMountDir :=
    if negb (String.eqb isolation IsolationHyperV) then ret "" else
    if String.eqb (hoAgentHostPath opts) "" then failure "hcsshim runtime: agent_host_path is required for Hyper-V isolation (host path to hpcc-agent.exe)" else
    wrapping "hcsshim runtime: stage agent mount" (stageEntrypointMount (hoRunDir opts) agentMountSub agentFileName (hoAgentHostPath opts)) in
  let* _ := wrapping ("hcsshim runtime: dial containerd at " +:+ hoAddress opts) (check (fun _ => dial (hoAddress opts))) in
  ret (mkHcsshim opts pauseMountDir agentMountDir).

(** [Select]. *)
Inductive Runtime := DangerouslyExecOnHost | FirecrackerRuntime (opts : FirecrackerOptions) | HcsshimRuntime (h : Hcsshim).

Definition Select (handler : string) (fc : FirecrackerOptions) (hc : HcsshimOptions) : act FS Runtime :=
  if String.eqb handler HandlerReallyReallyDangerous then ret DangerouslyExecOnHost
  else if String.eqb handler HandlerFirecracker then let* o := check (fun _ => NewFirecracker fc) in ret (FirecrackerRuntime o)
  else if String.eqb handler HandlerHcsshim then let* h := NewHcsshim hc in ret (HcsshimRuntime h)
  else failure ("unknown runtime.handler " +:+ handler).
End Setup.

(** ** containerd *)

Record mountSpec := mkMountSpec {
  moSource : string;
  moDestination : string;
  moReadOnly : bool
}.

(** The options containerd applies, in order, to make the OCI spec of a
    container.  They are kept as the calls the code passes on: what they do to
    the spec is containerd's code. *)
Inductive SpecOpt :=
  | WithImageConfig (img : string)
  | WithMounts (ms : list mountSpec)
  | WithProcessArgs (arg : string)
  | withNoWindowsNIC
  | WithWindowsHyperV
  | WithWindowsCPUCount (n : Z)
  | WithMemoryLimit (n : Z).

Record containerOpts := mkContainerOpts {
  coImage : string;
  coSnapshotter : string;
  coSnapshot : string;
  coRuntime : string;
  coSpec : list SpecOpt;
  coLabels : list (string * string)
}.

Inductive taskStatus := TaskCreated | TaskRunning | TaskStopped.

Class Containerd (D : Type) := {
  cdContainers : D -> gmap string containerOpts;
  cdSnapshots : D -> gset string;
  cdTasks : D -> gmap string taskStatus;
  get_image : string -> D -> result unit;
  new_container : string -> containerOpts -> D -> result unit * D;
  new_task : string -> D -> result unit * D;
  task_start : string -> D -> result unit * D;
  task_kill : string -> D -> result unit * D;
  task_wait : string -> D -> result unit * D;
  task_delete : string -> D -> result unit * D;
  container_delete : string -> D -> result unit * D
}.

Section Laws.
  Context {D : Type} `{!Containerd D}.

(** Nothing but the task of [id] changes, and that by running to its end. *)
Definition mayStop (id : string) (d d' : D) : Prop :=
  cdContainers d' = cdContainers d /\ cdSnapshots d' = cdSnapshots d /\
  (cdTasks d' = cdTasks d \/ is_Some (cdTasks d !! id) /\ cdTasks d' = <[id := TaskStopped]> (cdTasks d)).

Definition sameDaemon (d d' : D) : Prop :=
  cdContainers d' = cdContainers d /\ cdSnapshots d' = cdSnapshots d /\ cdTasks d' = cdTasks d.
End Laws.

Class ContainerdLaws (D : Type) `{!Containerd D} := {
  new_container_spec id o (d : D) r d' : new_container id o d = (r, d') -> cdTasks d' = cdTasks d /\
    match r with
    | Ok _ => cdContainers d !! id = None /\ id ∉ cdSnapshots d /\
              cdContainers d' = <[id := o]> (cdContainers d) /\ cdSnapshots d' = {[id]} ∪ cdSnapshots d
    | Err _ => cdContainers d' = cdContainers d /\ (cdSnapshots d' = cdSnapshots d \/ cdSnapshots d' = {[id]} ∪ cdSnapshots d)
    end;
  new_task_spec id (d : D) r d' : new_task id d = (r, d') ->
    match r with
    | Ok _ => cdContainers d' = cdContainers d /\ cdSnapshots d' = cdSnapshots d /\
              cdTasks d !! id = None /\ cdTasks d' = <[id := TaskCreated]> (cdTasks d)
    | Err _ => sameDaemon d d'
    end;
  task_start_spec id (d : D) r d' : task_start id d = (r, d') ->
    match r with
    | Ok _ => cdContainers d' = cdContainers d /\ cdSnapshots d' = cdSnapshots d /\ cdTasks d' = <[id := TaskRunning]> (cdTasks d)
    | Err _ => sameDaemon d d'
    end;
  task_kill_spec id (d : D) r d' : task_kill id d = (r, d') -> mayStop id d d';
  task_wait_spec id (d : D) r d' : task_wait id d = (r, d') -> mayStop id d d';
  task_delete_spec id (d : D) r d' : task_delete id d = (r, d') ->
    match r with
    | Ok _ => cdTasks d !! id <> Some TaskRunning /\ cdContainers d' = cdContainers d /\ cdSnapshots d' = cdSnapshots d /\
              cdTasks d' = delete id (cdTasks d)
    | Err _ => sameDaemon d d'
    end;
  container_delete_spec id (d : D) r d' : container_delete id d = (r, d') ->
    match r with
    | Ok _ => cdTasks d !! id = None /\ cdTasks d' = cdTasks d /\
              cdContainers d' = delete id (cdContainers d) /\ cdSnapshots d' = cdSnapshots d ∖ {[id]}
    | Err _ => sameDaemon d d'
    end
}.

(** A daemon that does what it may: it deletes what can be deleted, and a task
    that was killed ends before the wait for it does. *)
Class Cooperative (D : Type) `{!Containerd D} := {
  task_delete_can id (d : D) : cdTasks d !! id <> Some TaskRunning -> is_Some (cdTasks d !! id) -> (task_delete id d).1 = Ok tt;
  container_delete_can id (d : D) : cdTasks d !! id = None -> is_Some (cdContainers d !! id) -> (container_delete id d).1 = Ok tt;
  kill_then_wait id (d : D) : cdTasks (task_wait id (task_kill id d).2).2 !! id <> Some TaskRunning
}.

(** ** The life of a container *)

Record hcsshimContainer := mkHcsshimContainer {
  hcSpec : VmSpec;
  hcAgent : bool;
  hcSrcDir : string;
  hcOutDir : string;
  hcScratchDir : string;
  hcStopped : bool
}.

Section Life.
  Context {D : Type} `{!Containerd D}.
  Context (encoded : string -> string) (grant : string -> result unit).

Record hcHost := mkHcHost {
  hhDaemon : D;
  hhFs : FS;
  hhConns : gset string
}.

Definition set_hhDaemon (d : D) (s : hcHost) : hcHost := mkHcHost d (hhFs s) (hhConns s).
Definition set_hhFs (fs : FS) (s : hcHost) : hcHost := mkHcHost (hhDaemon s) fs (hhConns s).

Definition daemon (f : D -> result unit * D) : act hcHost unit := on hhDaemon set_hhDaemon f.

(** [_ = f()]. *)
Definition quietly (f : D -> result unit * D) (s : hcHost) : hcHost := set_hhDaemon (f (hhDaemon s)).2 s.

Definition onFail {A} (cleanup : hcHost -> hcHost) (a : act hcHost A) : act hcHost A := fun s =>
  match a s with
  | (Failed e, s') => (Failed e, cleanup s')
  | r => r
  end.

Definition prepareScratchDirs (h : Hcsshim) (id : string) : act hcHost (string * string * string) :=
  let scratch := join [hoRunDir (hsOpts h); id] in
  let src := join [scratch; "src"] in
  let out := join [scratch; "out"] in
  let* _ := wrapping ("mkdir " +:+ src) (on hhFs set_hhFs (toR (mkdirAll (comps src)))) in
  let* _ := wrapping ("mkdir " +:+ out) (on hhFs set_hhFs (toR (mkdirAll (comps out)))) in
  let* _ := wrapping ("grant container access on " +:+ scratch) (check (fun _ => grant scratch)) in
  ret (src, out, scratch).

Definition containerMountsAndEntrypoint (h : Hcsshim) (srcDir outDir : string) : list mountSpec * string :=
  if String.eqb (hoIsolation (hsOpts h)) IsolationHyperV
  then ([mkMountSpec (hsAgentMountDir h) guestPauseDir true], guestAgentExe)
  else ([mkMountSpec (hsPauseMountDir h) guestPauseDir true; mkMountSpec srcDir guestSrcRoot false; mkMountSpec outDir guestOutRoot false],
        guestPauseExe).

Definition specOpts (h : Hcsshim) (spec : VmSpec) (imgName src out : string) : list SpecOpt :=
  let '(mounts, entrypoint) := containerMountsAndEntrypoint h src out in
  [WithImageConfig imgName; WithMounts mounts; WithProcessArgs entrypoint; withNoWindowsNIC]
    ++ (if String.eqb (hoIsolation (hsOpts h)) IsolationHyperV then [WithWindowsHyperV] else [])
    ++ (if (0 <? vsVCPUs spec)%Z then [WithWindowsCPUCount (vsVCPUs spec)] else [])
    ++ (if (0 <? vsMemoryBytes spec)%Z then [WithMemoryLimit (vsMemoryBytes spec)] else []).

Definition optsFor (h : Hcsshim) (spec : VmSpec) (imgName src out : string) : containerOpts :=
  mkContainerOpts imgName (hoSnapshotter (hsOpts h)) (vsID spec) (hoRuntime (hsOpts h)) (specOpts h spec imgName src out)
    [("hpcc.dev/tenant", vsTenantID spec); ("hpcc.dev/user-digest", vsImageDigest spec); ("hpcc.dev/container-id", vsID spec)].

Definition cleanupScratch (scratch : string) (s : hcHost) : hcHost :=
  if String.eqb scratch "" then s else set_hhFs (removeAll (comps scratch) (hhFs s)) s.

(** [dial] is the answer of [dialContainerAgent]. *)
Definition hcsStart (h : Hcsshim) (dial : result unit) (spec : VmSpec) : act hcHost hcsshimContainer :=
  let id := vsID spec in
  if String.eqb id "" then failure "hcsshim: ContainerSpec.ID is required" else
  if String.eqb (vsImageDigest spec) "" then failure "hcsshim: ContainerSpec.ImageDigest is required" else
  let imgName := PreparedImageName encoded (vsImageDigest spec) in
  let* _ := wrapping ("hcsshim: resolve prepared image " +:+ imgName) (check (fun s => get_image imgName (hhDaemon s))) in
  let useAgent := String.eqb (hoIsolation (hsOpts h)) IsolationHyperV in
  let* dirs := if useAgent then ret ("", "", "") else wrapping "hcsshim: prepare scratch dirs" (prepareScratchDirs h id) in
  let '(src, out, scratch) := dirs in
  let* _ := onFail (cleanupScratch scratch)
              (wrapping ("hcsshim: create container " +:+ id) (daemon (new_container id (optsFor h spec imgName src out)))) in
  let* _ := onFail (fun s => cleanupScratch scratch (quietly (container_delete id) s))
              (wrapping "hcsshim: create task" (daemon (new_task id))) in
  let* _ := onFail (fun s => cleanupScratch scratch (quietly (container_delete id) (quietly (task_delete id) s)))
              (wrapping "hcsshim: start task" (daemon (task_start id))) in
  let* _ := if useAgent
            then onFail (fun s => quietly (container_delete id) (quietly (task_delete id) (quietly (task_kill id) s)))
                   (let* _ := wrapping "hcsshim: dial agent" (check (fun _ => dial)) in
                    modify (fun s => mkHcHost (hhDaemon s) (hhFs s) ({[id]} ∪ hhConns s)))
            else ret tt in
  ret (mkHcsshimContainer spec useAgent src out scratch false).

(** [Stop] and the errors it joins; [closeConn] is the answer of closing the
    connection. *)
Definition hcsStop (closeConn : result unit) (c : hcsshimContainer) (s : hcHost) : list string * hcsshimContainer * hcHost :=
  if hcStopped c then ([], c, s) else
  let id := vsID (hcSpec c) in
  let c' := mkHcsshimContainer (hcSpec c) false (hcSrcDir c) (hcOutDir c) (hcScratchDir c) true in
  let '(errs1, s1) :=
    if hcAgent c
    then (match closeConn with Ok _ => [] | Err e => ["agentConn.Close: " +:+ e] end, mkHcHost (hhDaemon s) (hhFs s) (hhConns s ∖ {[id]}))
    else ([], s) in
  let s2 := quietly (task_wait id) (quietly (task_kill id) s1) in
  let '(r3, d3) := task_delete id (hhDaemon s2) in
  let '(r4, d4) := container_delete id d3 in
  let errs := errs1 ++ match r3 with Ok _ => [] | Err e => ["task.Delete: " +:+ e] end
                    ++ match r4 with Ok _ => [] | Err e => ["container.Delete: " +:+ e] end in
  (errs, c', cleanupScratch (hcScratchDir c) (set_hhDaemon d4 s2)).
End Life.

(** ** Running a command in a silo *)

(** What [filepath.WalkDir] meets below a directory, the directory itself
    first; a directory is [None]. *)
Definition dirsBelow (root : path) (fs : FS) : list (list string) :=
  omap (fun q => if isBelow root q then Some (drop (length root) q) else None) (elements (fsDirs fs)).

Definition walkEntry : Type := list string * option string.
Definition entryOrder (a b : walkEntry) : Prop := walkBefore a.1 b.1 = true.
#[global] Instance entryOrder_dec : RelDecision entryOrder := fun a b => bool_eq_dec _ _.

Definition walkAll (root : path) (fs : FS) : list walkEntry :=
  isort entryOrder (map (fun r => (r, None)) (dirsBelow root fs) ++ map (fun f => (f.1, Some f.2)) (filesBelow root fs)).

Inductive procEnd :=
  | NotCreated (e : string)
  | NoWait (e : string)
  | NotStarted (e : string)
  | Exited (code : Z) (err : option string)
  | Cancelled (e : string).

Record process := mkProcess {
  prArgs : list string;
  prCwd : string;
  prEnv : list string
}.

Record execStage := mkExecStage {
  esHostSrc : string;
  esHostOut : string;
  esGuestSrc : string;
  esGuestOut : string
}.

Definition translateArgs (argv : list string) (srcRoot outRoot : string) : list string :=
  map (fun a => translateExecPath a srcRoot outRoot) argv.

Section Exec.
  (* The time on files, the process of the container's specification, and what
     a process of the container does to the files it can reach. *)
  Context (now : Z) (pspec : result process) (run : string -> process -> FS -> procEnd * FS).

Definition copyRegularFile (src dst content : string) : act FS unit :=
  wrapping ("create " +:+ dst) (files (writeFile (comps dst) content now)).

Definition copyEntry (root : path) (dst : string) (e : walkEntry) : act FS unit :=
  let* name := check (fun _ => rel (absOf root) (absOf (root ++ e.1))) in
  let target := join [dst; name] in
  match e.2 with
  | None => wrapping ("mkdir " +:+ target) (files (mkdirAll (comps target)))
  | Some content =>
      let* _ := wrapping ("mkdir parent of " +:+ target) (files (mkdirAll (comps (dir target)))) in
      copyRegularFile (absOf (root ++ e.1)) target content
  end.

(** The tree is the one there is when the walk starts. *)
Definition copyTree (src dst : string) : act FS unit := fun fs =>
  match fsFiles fs !! comps src with
  | Some f => copyRegularFile src dst f.1 fs
  | None => if bool_decide (comps src ∈ fsDirs fs) then seqA (map (copyEntry (comps src) dst) (walkAll (comps src) fs)) fs
            else (Failed ("stat " +:+ src +:+ ": no such file or directory"), fs)
  end.

Definition stageExecDirs (c : hcsshimContainer) (req : ExecRequest) : act FS execStage :=
  let hostSrc := join [hcSrcDir c; erExecID req] in
  let hostOut := join [hcOutDir c; erExecID req] in
  let undo {A} (a : act FS A) : act FS A := fun fs =>
    match a fs with (Failed e, fs') => (Failed e, removeAll (comps hostOut) fs') | r => r end in
  let* _ := wrapping ("mkdir out staging " +:+ hostOut) (files (mkdirAll (comps hostOut))) in
  let* _ := if negb (String.eqb (erSrcHostPath req) "")
            then undo (wrapping ("copy src " +:+ erSrcHostPath req +:+ " -> " +:+ hostSrc) (copyTree (erSrcHostPath req) hostSrc))
            else undo (wrapping ("mkdir src staging " +:+ hostSrc) (files (mkdirAll (comps hostSrc)))) in
  ret (mkExecStage hostSrc hostOut (guestSrcRoot +:+ "\" +:+ erExecID req) (guestOutRoot +:+ "\" +:+ erExecID req)).

Definition captureOutputs (st : execStage) (outHost : string) : act FS unit :=
  if String.eqb outHost "" then ret tt
  else let* _ := wrapping ("mkdir " +:+ outHost) (files (mkdirAll (comps outHost))) in copyTree (esHostOut st) outHost.

Definition stageCleanup (st : execStage) (fs : FS) : FS :=
  removeAll (comps (esHostOut st)) (removeAll (comps (esHostSrc st)) fs).

(** The process that runs the request. *)
Definition execProcess (st : execStage) (req : ExecRequest) (p : process) : process :=
  let cwd := if negb (String.eqb (erCwd req) "") then translateExecPath (erCwd req) (esGuestSrc st) (esGuestOut st)
             else if negb (String.eqb (erSrcHostPath req) "") then esGuestSrc st else "" in
  mkProcess (translateArgs (erArgv req) (esGuestSrc st) (esGuestOut st))
    (if String.eqb cwd "" then prCwd p else cwd) (if bool_decide (erEnv req = []) then prEnv p else erEnv req).

(** The exit code and the error that are returned. *)
Definition execStaged (st : execStage) (req : ExecRequest) (fs : FS) : Z * option string * FS :=
  match pspec with
  | Err e => (-1, Some ("hcsshim: read container spec: " +:+ e), fs)%Z
  | Ok p =>
      match run (erExecID req) (execProcess st req p) fs with
      | (NotCreated e, fs') => (-1, Some ("hcsshim: task.Exec: " +:+ e), fs')%Z
      | (NoWait e, fs') => (-1, Some ("hcsshim: wait setup: " +:+ e), fs')%Z
      | (NotStarted e, fs') => (-1, Some ("hcsshim: process.Start: " +:+ e), fs')%Z
      | (Cancelled e, fs') => (-1, Some e, fs')%Z
      | (Exited code (Some e), fs') => (code, Some ("hcsshim: exec status: " +:+ e), fs')
      | (Exited code None, fs') =>
          match captureOutputs st (erOutHostPath req) fs' with
          | (Done _, fs'') => (code, None, fs'')
          | (Failed e, fs'') => (code, Some ("hcsshim: capture outputs: " +:+ e), fs'')
          | (Panicked, fs'') => (code, Some "panic", fs'')
          end
      end
  end.

Definition execInSilo (c : hcsshimContainer) (req : ExecRequest) (fs : FS) : Z * option string * FS :=
  match stageExecDirs c req fs with
  | (Failed e, fs') => (-1, Some ("stage exec: " +:+ e), fs')%Z
  | (Panicked, fs') => (-1, Some "panic", fs')%Z
  | (Done st, fs') => let '(code, err, fs'') := execStaged st req fs' in (code, err, stageCleanup st fs'')
  end.

(** [execViaAgentTransport]; [exec] is [execViaAgent] on the container's
    connection, and [None] its nil result. *)
Definition execViaAgentTransport (exec : ExecRequest -> FS -> outcome (option Z) * FS) (req : ExecRequest) (fs : FS) : outcome (Z * option string) * FS :=
  let inSrc := guestAgentStagingSrc +:+ "\" +:+ erExecID req in
  let inOut := guestAgentStagingOut +:+ "\" +:+ erExecID req in
  let cwd := if negb (String.eqb (erCwd req) "") then translateExecPath (erCwd req) inSrc inOut else "" in
  match exec (mkExecRequest (erExecID req) (translateArgs (erArgv req) inSrc inOut) (erEnv req) cwd (erSrcHostPath req) (erOutHostPath req)) fs with
  | (Done (Some code), fs') => (Done (code, None), fs')
  | (Done None, fs') => (Panicked, fs')
  | (Failed e, fs') => (Done (-1, Some ("hcsshim: agent exec: " +:+ e))%Z, fs')
  | (Panicked, fs') => (Panicked, fs')
  end.

(** [Exec] of a container whose task runs. *)
Definition hcsExec (exec : ExecRequest -> FS -> outcome (option Z) * FS) (c : hcsshimContainer) (req : ExecRequest) (fs : FS) : outcome (Z * option string) * FS :=
  if String.eqb (erExecID req) "" then (Done (-1, Some "hcsshim: ExecRequest.ExecID is required")%Z, fs)
  else if bool_decide (erArgv req = []) then (Done (-1, Some "hcsshim: ExecRequest.Argv must be non-empty")%Z, fs)
  else if hcAgent c then execViaAgentTransport exec req fs
  else let '(code, err, fs') := execInSilo c req fs in (Done (code, err), fs').
End Exec.

(** ** Facts: undoing a start *)

Section LifeFacts.
  Context {D : Type} `{!Containerd D, !ContainerdLaws D}.

(** From [d0], the container [id] was made, and a task of status [st]. *)
Record created (id : string) (o : containerOpts) (st : option taskStatus) (d0 d : D) : Prop := {
  cr_fresh : cdContainers d0 !! id = None /\ id ∉ cdSnapshots d0 /\ cdTasks d0 !! id = None;
  cr_containers : cdContainers d = <[id := o]> (cdContainers d0);
  cr_snapshots : cdSnapshots d = {[id]} ∪ cdSnapshots d0;
  cr_tasks : cdTasks d = match st with Some st => <[id := st]> (cdTasks d0) | None => cdTasks d0 end
}.

Lemma created_task id o st d0 d : created id o st d0 d -> cdTasks d !! id = st.
Proof. intros [(_ & _ & Ht) _ _ ->]. destruct st; [by rewrite lookup_insert_eq|done]. Qed.

Lemma created_same id o st d0 d d' : created id o st d0 d -> sameDaemon d d' -> created id o st d0 d'.
Proof. intros [F C S T] (Ec & Es & Et). split; [done|by rewrite Ec|by rewrite Es|by rewrite Et]. Qed.

Lemma created_mayStop id o st d0 d d' : created id o (Some st) d0 d -> mayStop id d d' ->
  created id o (Some st) d0 d' \/ created id o (Some TaskStopped) d0 d'.
Proof.
  intros [F C S T] (Ec & Es & [Et|[_ Et]]); [left|right]; (split; [done|by rewrite Ec|by rewrite Es|rewrite Et, T]); [done|].
  by rewrite insert_insert_eq.
Qed.

Lemma created_container id o d0 d : new_container id o d0 = (Ok tt, d) -> cdTasks d0 !! id = None -> created id o None d0 d.
Proof. intros (Et & Hc & Hs & Ec & Es)%new_container_spec Ht. by split. Qed.

Lemma created_newTask id o d0 d d' : created id o None d0 d -> new_task id d = (Ok tt, d') -> created id o (Some TaskCreated) d0 d'.
Proof. intros [F C S T] (Ec & Es & _ & Et)%new_task_spec. split; [done|by rewrite Ec|by rewrite Es|by rewrite Et, T]. Qed.

Lemma created_started id o st d0 d d' : created id o (Some st) d0 d -> task_start id d = (Ok tt, d') -> created id o (Some TaskRunning) d0 d'.
Proof. intros [F C S T] (Ec & Es & Et)%task_start_spec. split; [done|by rewrite Ec|by rewrite Es|by rewrite Et, T, insert_insert_eq]. Qed.

(** A task that runs, and its container, stay. *)
Lemma stuck id o d0 d : created id o (Some TaskRunning) d0 d ->
  created id o (Some TaskRunning) d0 (container_delete id (task_delete id d).2).2.
Proof.
  intros Hc. assert (created id o (Some TaskRunning) d0 (task_delete id d).2) as Hc1.
  { destruct (task_delete id d) as [[[]|e] d1] eqn:E; apply task_delete_spec in E; cbn [snd].
    - destruct E as [E _]. by rewrite (created_task _ _ _ _ _ Hc) in E.
    - by eapply created_same. }
  destruct (container_delete id (task_delete id d).2) as [[[]|e] d2] eqn:E; apply container_delete_spec in E; cbn [snd].
  - destruct E as [E _]. by rewrite (created_task _ _ _ _ _ Hc1) in E.
  - by eapply created_same.
Qed.

  Context `{!Cooperative D}.

Lemma discard_task id o st d0 d : created id o (Some st) d0 d -> st <> TaskRunning ->
  exists d', task_delete id d = (Ok tt, d') /\ created id o None d0 d'.
Proof.
  intros Hc Hst. pose proof (created_task _ _ _ _ _ Hc) as Ht. destruct (task_delete id d) as [r d'] eqn:E.
  assert (r = Ok tt) as ->. { change r with (r, d').1. rewrite <- E. apply task_delete_can; rewrite Ht; [congruence|by eexists]. }
  exists d'. split; [done|]. apply task_delete_spec in E as (_ & Ec & Es & Et). destruct Hc as [F C S T].
  split; [done|by rewrite Ec|by rewrite Es|]. rewrite Et, T, delete_insert_id by apply F. done.
Qed.

Lemma discard_container id o d0 d : created id o None d0 d -> exists d', container_delete id d = (Ok tt, d') /\ sameDaemon d0 d'.
Proof.
  intros Hc. pose proof (created_task _ _ _ _ _ Hc) as Ht. destruct (container_delete id d) as [r d'] eqn:E. destruct Hc as [(F1 & F2 & F3) C S T].
  assert (r = Ok tt) as ->.
  { change r with (r, d').1. rewrite <- E. apply container_delete_can; [done|]. rewrite C, lookup_insert_eq. by eexists. }
  exists d'. split; [done|]. apply container_delete_spec in E as (_ & Et & Ec & Es). split_and!.
  - rewrite Ec, C. by rewrite delete_insert_id.
  - rewrite Es, S. set_solver.
  - by rewrite Et, T.
Qed.

Lemma discard id o st d0 d : created id o (Some st) d0 d -> st <> TaskRunning ->
  exists d1 d2, task_delete id d = (Ok tt, d1) /\ container_delete id d1 = (Ok tt, d2) /\ sameDaemon d0 d2.
Proof.
  intros Hc Hst. destruct (discard_task _ _ _ _ _ Hc Hst) as (d1 & E1 & H1). destruct (discard_container _ _ _ _ H1) as (d2 & E2 & H2). eauto 6.
Qed.

(** After the kill and the wait a task does not run. *)
Lemma killed id o st d0 d : created id o (Some st) d0 d ->
  exists st', st' <> TaskRunning /\ created id o (Some st') d0 (task_wait id (task_kill id d).2).2.
Proof.
  intros Hc. pose proof (kill_then_wait id d) as Hk. destruct (task_kill id d) as [r1 d1] eqn:E1. cbn [snd] in *. apply task_kill_spec in E1.
  destruct (task_wait id d1) as [r2 d2] eqn:E2. cbn [snd] in *. apply task_wait_spec in E2.
  destruct (created_mayStop _ _ _ _ _ _ Hc E1) as [Hc1|Hc1]; destruct (created_mayStop _ _ _ _ _ _ Hc1 E2) as [Hc2|Hc2];
    eexists; (split; [|exact Hc2]); try done; intros ->; by rewrite (created_task _ _ _ _ _ Hc2) in Hk.
Qed.
End LifeFacts.

(** ** Facts: files *)

Lemma mkdirAll_Ok p fs fs' : mkdirAll p fs = Ok fs' ->
  fsFiles fs' = fsFiles fs /\ fsDirs fs' = list_to_set (pathPrefixes p) ∪ fsDirs fs /\ forall q t, p = q ++ t -> fsFiles fs !! q = None.
Proof.
  unfold mkdirAll. destruct (existsb _ _) eqn:E; [done|]. intros [= <-]. split_and!; [done|done|]. intros q t ->.
  destruct (fsFiles fs !! q) eqn:Eq; [|done]. rewrite <- not_true_iff_false in E. exfalso. apply E. apply existsb_exists. exists q.
  split; [apply list_elem_of_In, pathPrefixes_spec; by exists t|]. apply bool_decide_eq_true. by rewrite Eq.
Qed.

Lemma removeAll_files p fs q : fsFiles (removeAll p fs) !! q = if isBelow p q then None else fsFiles fs !! q.
Proof.
  unfold removeAll. cbn [fsFiles]. destruct (isBelow p q) eqn:E.
  - apply map_lookup_filter_None. right. intros v _ Hv. cbn in Hv. congruence.
  - destruct (fsFiles fs !! q) as [v|] eqn:Eq; [|apply map_lookup_filter_None; by left].
    apply map_lookup_filter_Some. split; [done|]. cbn. congruence.
Qed.

(** ** Facts: starting and stopping *)

Lemma join_proper rs c : Forall proper rs -> proper c -> join [absOf rs; c] = absOf (rs ++ [c]).
Proof.
  intros Hr (H1 & H2 & H3 & H4). rewrite join_absOf, splitOn_word by done. cbn [foldl]. unfold cleanStep.
  apply String.eqb_neq in H1, H2, H3. rewrite H1, H2, H3. cbn [orb rev]. by rewrite rev_involutive.
Qed.

Lemma specOpts_mounts h spec img src out ms : WithMounts ms ∈ specOpts h spec img src out -> ms = (containerMountsAndEntrypoint h src out).1.
Proof.
  unfold specOpts. destruct (containerMountsAndEntrypoint h src out) as [ms' e]. intros H. rewrite !elem_of_app, !elem_of_cons in H.
  destruct (String.eqb _ _), (0 <? vsVCPUs spec)%Z, (0 <? vsMemoryBytes spec)%Z; rewrite ?list_elem_of_singleton, ?elem_of_nil in H; naive_solver.
Qed.

Lemma specOpts_hyperv h spec img src out : WithWindowsHyperV ∈ specOpts h spec img src out <-> String.eqb (hoIsolation (hsOpts h)) IsolationHyperV = true.
Proof.
  unfold specOpts. destruct (containerMountsAndEntrypoint h src out) as [ms' e]. rewrite !elem_of_app, !elem_of_cons.
  destruct (String.eqb _ _), (0 <? vsVCPUs spec)%Z, (0 <? vsMemoryBytes spec)%Z; rewrite ?list_elem_of_singleton, ?elem_of_nil; naive_solver.
Qed.

Section StartFacts.
  Context {D : Type} `{!Containerd D, !ContainerdLaws D, !Cooperative D}.
  Context (encoded : string -> string) (grant : string -> result unit) (h : Hcsshim) (spec : VmSpec) (rd : list string).
  Hypothesis (Hrd : hoRunDir (hsOpts h) = absOf rd) (Prd : Forall proper rd) (Pid : proper (vsID spec)).
  #[local] Notation id := (vsID spec).
  #[local] Notation scratch := (join [hoRunDir (hsOpts h); vsID spec]).
  #[local] Notation state := (@hcHost D).

Lemma scratch_abs : scratch = absOf (rd ++ [id]).
Proof using Hrd Prd Pid. rewrite Hrd. by apply join_proper. Qed.

Lemma scratch_comps : comps scratch = rd ++ [id].
Proof using Hrd Prd Pid. rewrite scratch_abs. apply comps_absOf, Forall_app. split; [done|by apply Forall_singleton]. Qed.

Lemma scratch_sub x : proper x -> comps (join [scratch; x]) = rd ++ [id; x].
Proof using Hrd Prd Pid.
  intros Hx. rewrite scratch_abs, join_proper by (try apply Forall_app; rewrite ?Forall_singleton; done). rewrite <- app_assoc. apply comps_absOf.
  apply Forall_app. split; [done|]. apply Forall_cons. split; [done|by apply Forall_singleton].
Qed.

(** The files, the directories and the connections are the same. *)
Definition sameHost (s s' : state) : Prop :=
  (forall p, fsFiles (hhFs s') !! p = fsFiles (hhFs s) !! p) /\ fsDirs (hhFs s') = fsDirs (hhFs s) /\ hhConns s' = hhConns s.

(** The files and the directories differ at most in the directory [d], and in
    nothing when the container has none. *)
Definition onlyWithin (d : string) (s s' : state) : Prop := forall p, d = "" \/ ~ Staging.inside (comps d) p ->
  fsFiles (hhFs s') !! p = fsFiles (hhFs s) !! p /\ (p ∈ fsDirs (hhFs s') <-> p ∈ fsDirs (hhFs s)).

(** The run directory is there, and nothing lies at the container's. *)
Definition scratchReady (s : state) : Prop :=
  (forall q t, rd = q ++ t -> q ∈ fsDirs (hhFs s)) /\
  (forall p, Staging.inside (rd ++ [id]) p -> fsFiles (hhFs s) !! p = None /\ p ∉ fsDirs (hhFs s)).

(** At most the container's directories were added. *)
Definition prepared (s s' : state) : Prop :=
  fsFiles (hhFs s') = fsFiles (hhFs s) /\ fsDirs (hhFs s) ⊆ fsDirs (hhFs s') /\
  fsDirs (hhFs s') ⊆ {[rd ++ [id]; rd ++ [id; "src"]; rd ++ [id; "out"]]} ∪ fsDirs (hhFs s) /\ hhConns s' = hhConns s.

#[local] Instance sameHost_preorder : PreOrder sameHost.
Proof. split; [done|]. intros a b c (F1 & D1 & C1) (F2 & D2 & C2). split_and!; [intros p; by rewrite F2|by rewrite D2|by rewrite C2]. Qed.

#[local] Instance prepared_preorder : PreOrder prepared.
Proof.
  clear Hrd Prd Pid h Cooperative0 ContainerdLaws0 Containerd0 encoded grant. split; [intros a; split_and!; [done|done|set_solver|done]|].
  intros a b c (F1 & D1 & E1 & C1) (F2 & D2 & E2 & C2). split_and!; [congruence|set_solver|set_solver|congruence].
Qed.

#[local] Instance onlyWithin_trans d : Transitive (onlyWithin d).
Proof. intros a b c H1 H2 p Hp. destruct (H1 p Hp) as [F1 D1], (H2 p Hp) as [F2 D2]. split; [by rewrite F2|by rewrite D2]. Qed.

Lemma prepared_within s s' : prepared s s' -> onlyWithin scratch s s'.
Proof using Hrd Prd Pid.
  intros (F & D1 & D2 & _) p [Hp|Hp]; [by rewrite scratch_abs in Hp|]. rewrite scratch_comps in Hp. rewrite F. split; [done|]. split; [|apply D1].
  intros [Hq|?]%D2%elem_of_union; [|done]. exfalso. apply Hp. rewrite !elem_of_union, !elem_of_singleton in Hq.
  destruct Hq as [[->| ->]| ->]; [exists []; by rewrite app_nil_r|exists ["src"]; by rewrite <- app_assoc|exists ["out"]; by rewrite <- app_assoc].
Qed.

Lemma cleanup_same d s s1 : scratchReady s -> onlyWithin d s s1 -> hhConns s1 = hhConns s -> d = "" \/ d = scratch -> sameHost s (cleanupScratch d s1).
Proof using Hrd Prd Pid.
  intros [_ Hv] W C Hd. unfold cleanupScratch. destruct (String.eqb_spec d "") as [->|Hne].
  - split_and!; [intros p; apply W; by left|apply set_eq; intros p; apply W; by left|done].
  - destruct Hd as [? | ->]; [done|]. rewrite scratch_comps in *. unfold onlyWithin in W. rewrite scratch_comps in W. split_and!; [| |done]; cbn [hhFs set_hhFs].
    + intros p. rewrite removeAll_files. destruct (isBelow _ p) eqn:E; [apply isBelow_spec in E; by rewrite (proj1 (Hv p E))|].
      apply W. right. intros Hp%isBelow_spec. congruence.
    + apply set_eq. intros p. cbn [removeAll fsDirs]. rewrite elem_of_filter. destruct (isBelow (rd ++ [id]) p) eqn:E.
      * apply isBelow_spec in E. destruct (Hv p E). split; [by intros [? _]|done].
      * assert (p ∈ fsDirs (hhFs s1) <-> p ∈ fsDirs (hhFs s)) as <-; [|tauto]. apply W. right. intros Hp%isBelow_spec. congruence.
Qed.

Lemma cleanup_daemon d (s : state) : hhDaemon (cleanupScratch d s) = hhDaemon s.
Proof. unfold cleanupScratch. by destruct (String.eqb d ""). Qed.

Lemma onFail_inv {A} cleanup (a : act state A) s o s' : onFail cleanup a s = (o, s') ->
  exists s1, a s = (o, s1) /\ s' = match o with Failed _ => cleanup s1 | _ => s1 end.
Proof. unfold onFail. intros H. destruct (a s) as [[]]; simplify_eq; eauto. Qed.

(** A call of the daemon that is wrapped and undone on failure. *)
Lemma step_inv cleanup what f (s : state) o s' : onFail cleanup (wrapping what (daemon f)) s = (o, s') ->
  exists r d, f (hhDaemon s) = (r, d) /\
  match r with
  | Ok _ => o = Done tt /\ s' = set_hhDaemon d s
  | Err e => o = Failed (what +:+ ": " +:+ e) /\ s' = cleanup (set_hhDaemon d s)
  end.
Proof.
  intros (s1 & H & ->)%onFail_inv. unfold wrapping, daemon, on in H. destruct (f (hhDaemon s)) as [[[]|e] d];
    injection H as <- <-; eexists _, _; split; try done.
Qed.

Lemma mkdirStep_inv what x (s s0 : state) o s' : x = "src" \/ x = "out" -> scratchReady s0 -> prepared s0 s ->
  wrapping what (on hhFs set_hhFs (toR (mkdirAll (comps (join [scratch; x]))))) s = (o, s') ->
  o <> Panicked /\ prepared s s' /\ hhDaemon s' = hhDaemon s.
Proof using Hrd Prd Pid.
  clear Cooperative0 ContainerdLaws0 Containerd0 encoded grant. intros Hx [Hr _] (_ & HD & _). unfold wrapping, on, toR. rewrite scratch_sub by (by destruct Hx as [->| ->]).
  destruct (mkdirAll _ (hhFs s)) as [fs|e] eqn:E; intros [= <- <-]; [|split; [done|]; split; [destruct s; reflexivity|done]].
  split; [done|]. split; [|done]. apply mkdirAll_Ok in E as (F & Dd & _). split_and!; [done|cbn; rewrite Dd; set_solver| |done]. cbn. rewrite Dd.
  apply union_subseteq. split; [|set_solver]. intros q [t Hq]%elem_of_list_to_set%pathPrefixes_spec.
  apply app_eq_inv in Hq as [(r & Hq & _)|(r & -> & Hr2)]; [apply elem_of_union; right; by apply HD, (Hr q r)|].
  apply elem_of_union. destruct r as [|a [|b [|c r]]]; cbn in Hr2; simplify_eq.
  - right. rewrite app_nil_r. apply HD, (Hr rd []). by rewrite app_nil_r.
  - left. set_solver.
  - left. destruct Hx as [->| ->]; set_solver.
Qed.

Lemma prepareScratchDirs_spec (s : state) o s' : scratchReady s -> prepareScratchDirs grant h id s = (o, s') ->
  prepared s s' /\ hhDaemon s' = hhDaemon s /\ o <> Panicked /\
  forall x, o = Done x -> x = (join [scratch; "src"], join [scratch; "out"], scratch).
Proof using Hrd Prd Pid.
  intros Hr H. unfold prepareScratchDirs in H. unfold bind at 1 in H. destruct (wrapping _ _ s) as [o1 s1] eqn:E1.
  apply (mkdirStep_inv _ "src" s s) in E1 as (P1 & S1 & D1); [|by left|done|reflexivity].
  destruct o1 as [[]|e|]; [|injection H as <- <-; split_and!; by try done|done].
  unfold bind at 1 in H. destruct (wrapping _ _ s1) as [o2 s2] eqn:E2. apply (mkdirStep_inv _ "out" s1 s) in E2 as (P2 & S2 & D2); [|by right|done|done].
  assert (prepared s s2) as S12 by by etrans. assert (hhDaemon s2 = hhDaemon s) as D12 by congruence.
  destruct o2 as [[]|e|]; [|injection H as <- <-; split_and!; by try done|done].
  unfold bind, wrapping, check in H. destruct (grant scratch); injection H as <- <-; split_and!; try done. by intros x [= <-].
Qed.

Definition usesAgent : bool := String.eqb (hoIsolation (hsOpts h)) IsolationHyperV.
Definition scratchDirs : string * string * string :=
  if usesAgent then ("", "", "") else (join [scratch; "src"], join [scratch; "out"], scratch).

Lemma dirsStep_inv (s : state) o s' : scratchReady s ->
  (if usesAgent then ret ("", "", "") else wrapping "hcsshim: prepare scratch dirs" (prepareScratchDirs grant h id)) s = (o, s') ->
  prepared s s' /\ onlyWithin (scratchDirs).2 s s' /\ hhDaemon s' = hhDaemon s /\
  (o = Done scratchDirs \/ exists e, o = Failed ("hcsshim: prepare scratch dirs: " +:+ e) /\ usesAgent = false).
Proof using Hrd Prd Pid.
  intros Hr. unfold scratchDirs. destruct usesAgent eqn:U; [intros [= <- <-]; split_and!; [reflexivity|by intros p|done|by left]|].
  unfold wrapping. destruct (prepareScratchDirs grant h id s) as [o1 s1] eqn:E. apply prepareScratchDirs_spec in E as (S1 & D1 & P1 & X1); [|done].
  apply prepared_within in S1 as W. destruct o1 as [x|e|]; intros [= <- <-]; split_and!; try done; [left; by rewrite (X1 x eq_refl)|right; by eexists].
Qed.

Lemma scratch_known : (scratchDirs).2 = "" \/ (scratchDirs).2 = scratch.
Proof. unfold scratchDirs. destruct usesAgent; auto. Qed.

Lemma scratch_agent : usesAgent = true -> (scratchDirs).2 = "".
Proof. unfold scratchDirs. by intros ->. Qed.

(** What a failed start leaves: nothing, or the VM whose agent did not
    answer and which was still running when it was to be deleted. *)
Definition released (dial : result unit) (s s' : state) : Prop :=
  cdContainers (hhDaemon s') = cdContainers (hhDaemon s) /\ cdTasks (hhDaemon s') = cdTasks (hhDaemon s) /\
    (cdSnapshots (hhDaemon s') = cdSnapshots (hhDaemon s) \/ cdSnapshots (hhDaemon s') = {[id]} ∪ cdSnapshots (hhDaemon s)) \/
  usesAgent = true /\ (exists e, dial = Err e) /\ cdTasks (hhDaemon s') !! id = Some TaskRunning /\ is_Some (cdContainers (hhDaemon s') !! id).

(** And of the host: nothing, or the directories that were being prepared. *)
Definition swept (e : string) (s s' : state) : Prop :=
  sameHost s s' \/ usesAgent = false /\ (exists m, e = "hcsshim: prepare scratch dirs: " +:+ m) /\ prepared s s'.

Lemma released_same dial s s' : sameDaemon (hhDaemon s) (hhDaemon s') -> released dial s s'.
Proof. intros (Ec & Es & Et). left. auto. Qed.

#[local] Notation imgName := (PreparedImageName encoded (vsImageDigest spec)).

Definition startedAs (s s' : state) (c : hcsshimContainer) : Prop :=
  c = mkHcsshimContainer spec usesAgent scratchDirs.1.1 scratchDirs.1.2 scratchDirs.2 false /\
  created id (optsFor h spec imgName scratchDirs.1.1 scratchDirs.1.2) (Some TaskRunning) (hhDaemon s) (hhDaemon s') /\
  onlyWithin scratchDirs.2 s s' /\ hhConns s' = (if usesAgent then {[id]} else ∅) ∪ hhConns s.

Lemma hcsStart_spec dial s o s' : scratchReady s -> cdTasks (hhDaemon s) !! id = None -> hcsStart encoded grant h dial spec s = (o, s') ->
  (exists c, o = Done c /\ startedAs s s' c) \/ exists e, o = Failed e /\ swept e s s' /\ released dial s s'.
Proof using All.
  intros Hv Ht H. assert (forall e, swept e s s) as Hrefl by (left; reflexivity). assert (released dial s s) as Hrel by by apply released_same.
  unfold hcsStart in H. destruct (String.eqb id ""); [injection H as <- <-; eauto 7|]. destruct (String.eqb (vsImageDigest spec) ""); [injection H as <- <-; eauto 7|].
  cbv zeta in H. fold usesAgent in H. unfold bind at 1, wrapping at 1, check at 1 in H. destruct (get_image _ _); [|injection H as <- <-; eauto 7].
  unfold bind at 1 in H. match type of H with (let (_, _) := ?a in _) = _ => destruct a as [o0 s0] eqn:E0 end.
  apply dirsStep_inv in E0 as (P0 & W0 & D0 & [->|(e & -> & U)]); [| |done].
  2: { injection H as <- <-. right. eexists. split; [done|]. split; [right; split_and!; [done|by eexists|done]|]. apply released_same. by rewrite D0. }
  pose proof (proj2 (proj2 (proj2 P0))) as C0.
  unfold startedAs. pose proof scratch_known as Hk. pose proof scratch_agent as Ha. destruct scratchDirs as [[src out] sc]. cbn [fst snd] in *.
  assert (forall s1, hhFs s1 = hhFs s0 -> hhConns s1 = hhConns s0 -> sameHost s (cleanupScratch sc s1)) as Hcl.
  { intros s1 F1 C1. apply cleanup_same; [done| |congruence|done]. intros p Hp. rewrite F1. by apply W0. }
  unfold bind at 1 in H. destruct (onFail _ _ s0) as [o1 s1] eqn:E1. apply step_inv in E1 as ([[]|e1] & d1 & E1 & -> & ->).
  2: { injection H as <- <-. right. eexists. split; [done|]. split; [left; by apply Hcl|]. left. rewrite cleanup_daemon. cbn [hhDaemon set_hhDaemon].
       apply new_container_spec in E1 as (Et & Ec & Es). rewrite <- D0. auto. }
  rewrite D0 in E1. apply created_container in E1; [|done].
  unfold bind at 1 in H. destruct (onFail _ _ (set_hhDaemon d1 s0)) as [o2 s2] eqn:E2. apply step_inv in E2 as ([[]|e2] & d2 & E2 & -> & ->); cbn [hhDaemon set_hhDaemon] in E2.
  2: { injection H as <- <-. right. eexists. split; [done|]. split; [left; by apply Hcl|]. apply released_same. rewrite cleanup_daemon.
       apply new_task_spec in E2. apply (created_same _ _ _ _ _ _ E1), discard_container in E2 as (d3 & E3 & Hs). cbn. by rewrite E3. }
  apply (created_newTask _ _ _ _ _ E1) in E2.
  unfold bind at 1 in H. destruct (onFail _ _ (set_hhDaemon d2 (set_hhDaemon d1 s0))) as [o3 s3] eqn:E3.
  apply step_inv in E3 as ([[]|e3] & d3 & E3 & -> & ->); cbn [hhDaemon set_hhDaemon] in E3.
  2: { injection H as <- <-. right. eexists. split; [done|]. split; [left; by apply Hcl|]. apply released_same. rewrite cleanup_daemon.
       apply task_start_spec in E3. apply (created_same _ _ _ _ _ _ E2), discard in E3 as (d4 & d5 & E4 & E5 & Hs); [|done]. cbn. by rewrite E4; cbn; rewrite E5. }
  apply (created_started _ _ _ _ _ _ E2) in E3. unfold swept, released. destruct usesAgent eqn:U.
  - unfold bind at 1 in H. destruct (onFail _ _ _) as [o4 s4] eqn:E4. apply onFail_inv in E4 as (s5 & E4 & ->).
    unfold bind, wrapping, check, modify in E4. destruct dial as [[]|e]; injection E4 as <- <-; injection H as <- <-.
    + left. eexists. split; [done|]. split_and!; [done|done|exact W0|]. cbn [hhConns set_hhDaemon]. by rewrite C0.
    + right. eexists. split; [done|]. split; [left|].
      { rewrite (Ha eq_refl) in W0. assert (sameHost s s0) as Hs0 by (split_and!; [intros p; apply W0; by left|apply set_eq; intros p; apply W0; by left|done]). exact Hs0. }
      cbn [quietly set_hhDaemon hhDaemon]. destruct (task_kill id d3) as [r d4] eqn:Ek. apply task_kill_spec in Ek. cbn [snd].
      destruct (created_mayStop _ _ _ _ _ _ E3 Ek) as [Hc|Hc].
      * right. apply stuck in Hc. split_and!; [done|eauto|by apply created_task in Hc|]. rewrite (cr_containers _ _ _ _ _ Hc), lookup_insert_eq. by eexists.
      * left. apply discard in Hc as (d5 & d6 & E5 & E6 & Hs & Hs2 & Hs3); [|done]. rewrite E5. cbn [snd]. rewrite E6. cbn [snd]. auto.
  - injection H as <- <-. left. eexists. split; [done|]. split_and!; [done|done|exact W0|]. cbn [hhConns set_hhDaemon]. rewrite C0. set_solver.
Qed.

(** What may have happened since the container started: files and directories
    came and went in its own directory, and its task may have ended. *)
Definition usedSince (c : hcsshimContainer) (s s' : state) : Prop :=
  mayStop id (hhDaemon s) (hhDaemon s') /\ onlyWithin (hcScratchDir c) s s' /\ hhConns s' = hhConns s.

Lemma hcsStop_spec s s' s3 c : scratchReady s -> id ∉ hhConns s -> startedAs s s' c -> usedSince c s' s3 ->
  exists c2 s2, hcsStop (Ok tt) c s3 = ([], c2, s2) /\ hcStopped c2 = true /\ sameDaemon (hhDaemon s) (hhDaemon s2) /\ sameHost s s2.
Proof using All.
  intros Hv Hid (-> & Hc & HW & Hconn) (Hm & HW3 & Hconn3). pose proof scratch_known as Hk. destruct scratchDirs as [[src out] sc].
  cbn [fst snd hcScratchDir] in *. assert (onlyWithin sc s s3) as W by by etrans.
  unfold hcsStop. cbn [hcStopped hcSpec hcAgent hcSrcDir hcOutDir hcScratchDir].
  set (s1 := if usesAgent then mkHcHost (hhDaemon s3) (hhFs s3) (hhConns s3 ∖ {[id]}) else s3).
  assert ((if usesAgent then ([], mkHcHost (hhDaemon s3) (hhFs s3) (hhConns s3 ∖ {[id]})) else ([], s3)) = (@nil string, s1)) as ->
    by (unfold s1; by destruct usesAgent).
  assert (hhDaemon s1 = hhDaemon s3 /\ hhFs s1 = hhFs s3) as [Ed Ef] by (unfold s1; by destruct usesAgent).
  assert (hhConns s1 = hhConns s) as Hs1 by (unfold s1; destruct usesAgent; cbn [hhConns]; rewrite Hconn3, Hconn; set_solver).
  assert (exists st, created id (optsFor h spec imgName src out) (Some st) (hhDaemon s) (hhDaemon s3)) as [st Hst]
    by (destruct (created_mayStop _ _ _ _ _ _ Hc Hm); eauto).
  cbn [quietly set_hhDaemon hhDaemon]. rewrite Ed. apply killed in Hst as (st' & Hne & Hst). apply discard in Hst as (d1 & d2 & E1 & E2 & Hs); [|done].
  rewrite E1, E2. eexists _, _. split; [done|]. split; [done|]. split; [by rewrite cleanup_daemon|]. apply cleanup_same; [done| |done|done].
  intros p Hp. unfold quietly; cbn [hhFs set_hhDaemon]. rewrite Ef. by apply W.
Qed.
End StartFacts.

(** C22: A container is given back.  It starts from the prepared image of its
    digest, in a VM exactly when the isolation asks for one, and what it is
    given of the host to write lies in a directory of its own.  Whenever it is
    stopped, after any use of that directory and also when its task has ended
    by itself, containerd, the files, the directories and the connections are
    as before the start, and stopping it again does nothing.  A start that
    fails leaves no file, no container and no task, with two exceptions: the
    empty directories of the container stay when preparing them failed, and a
    VM whose agent does not answer is left running when containerd has not
    ended it by the time it is deleted.  The run directory is there, as
    [NewHcsshim] leaves it, and nothing of the identifier is in use; containerd
    is [Cooperative]: it deletes what may be deleted, and a task that was killed
    ends before the wait for it does. *)
Theorem container_lifecycle {D} `{!Containerd D, !ContainerdLaws D, !Cooperative D} encoded grant h dial spec rd (s : @hcHost D) o s' :
  hoRunDir (hsOpts h) = absOf rd -> Forall proper rd -> proper (vsID spec) ->
  scratchReady spec rd s -> vsID spec ∉ hhConns s -> cdTasks (hhDaemon s) !! vsID spec = None ->
  hcsStart encoded grant h dial spec s = (o, s') ->
  (exists c opts, o = Done c /\ cdContainers (hhDaemon s') !! vsID spec = Some opts /\ cdTasks (hhDaemon s') !! vsID spec = Some TaskRunning /\
     coImage opts = PreparedImageName encoded (vsImageDigest spec) /\ (WithWindowsHyperV ∈ coSpec opts <-> usesAgent h = true) /\
     (forall ms m, WithMounts ms ∈ coSpec opts -> m ∈ ms -> moReadOnly m = true \/ Staging.inside (rd ++ [vsID spec]) (comps (moSource m))) /\
     forall s3, usedSince spec c s' s3 -> exists c2 s2,
       hcsStop (Ok tt) c s3 = ([], c2, s2) /\ hcsStop (Ok tt) c2 s2 = ([], c2, s2) /\ sameDaemon (hhDaemon s) (hhDaemon s2) /\ sameHost s s2) \/
  exists e, o = Failed e /\ swept h spec rd e s s' /\ released h spec dial s s'.
Proof.
  intros Hrd Prd Pid Hv Hconn Ht H.
  destruct (hcsStart_spec encoded grant h spec rd Hrd Prd Pid dial s o s' Hv Ht H) as [(c & -> & Hc)|Hf]; [left|by right].
  exists c, (optsFor h spec (PreparedImageName encoded (vsImageDigest spec)) (scratchDirs h spec).1.1 (scratchDirs h spec).1.2).
  destruct Hc as (Ec & Hcr & Hc). split; [done|]. split; [by rewrite (cr_containers _ _ _ _ _ Hcr), lookup_insert_eq|]. split; [by apply created_task in Hcr|].
  split_and!; [done|apply specOpts_hyperv| |].
  - intros ms m Hms Hm. apply specOpts_mounts in Hms as ->. unfold containerMountsAndEntrypoint, scratchDirs in Hm. fold (usesAgent h) in Hm.
    destruct (usesAgent h); cbn [fst snd] in Hm; [apply list_elem_of_singleton in Hm as ->; by left|].
    rewrite !elem_of_cons in Hm. destruct Hm as [->|[->|[->|Hm]]]; [by left|right..|by apply elem_of_nil in Hm]; cbn [moSource];
      rewrite (scratch_sub h spec rd Hrd Prd Pid) by done; eexists; by rewrite <- app_assoc.
  - intros s3 Hu. destruct (hcsStop_spec encoded grant h spec rd Hrd Prd Pid s s' s3 c Hv Hconn (conj Ec (conj Hcr Hc)) Hu) as (c2 & s2 & E2 & Hst & Hd & Hs).
    exists c2, s2. split_and!; [done| |done|done]. unfold hcsStop. by rewrite Hst.
Qed.

(** ** Facts: copying a tree *)

Lemma elem_of_dirsBelow root fs r : r ∈ dirsBelow root fs <-> root ++ r ∈ fsDirs fs.
Proof.
  unfold dirsBelow. rewrite list_elem_of_omap. split.
  - intros (q & Hq%elem_of_elements & E). destruct (isBelow root q) eqn:B; [|done]. apply isBelow_spec in B as [t ->].
    rewrite drop_app_length in E. by injection E as ->.
  - intros H. exists (root ++ r). split; [by apply elem_of_elements|]. rewrite (proj2 (isBelow_spec root (root ++ r))) by eauto. by rewrite drop_app_length.
Qed.

Lemma dirsBelow_nodup root fs : NoDup (dirsBelow root fs).
Proof.
  unfold dirsBelow. assert (forall l : list (list string), NoDup l ->
    NoDup (omap (fun q => if isBelow root q then Some (drop (length root) q) else None) l) /\
    forall r, r ∈ omap (fun q => if isBelow root q then Some (drop (length root) q) else None) l -> root ++ r ∈ l) as H.
  { induction l as [|q l IH]; intros Hnd; [split; [apply NoDup_nil_2|intros r Hr; by apply elem_of_nil in Hr]|].
    apply NoDup_cons in Hnd as [Hq Hnd]. destruct (IH Hnd) as [IH1 IH2]. cbn [omap list_omap]. destruct (isBelow root q) eqn:B.
    - apply isBelow_spec in B as [t ->]. rewrite drop_app_length. split.
      + apply NoDup_cons. split; [|done]. intros Ht. by apply Hq, IH2.
      + intros r [->|Hr]%elem_of_cons; [by left|right; by apply IH2].
    - split; [done|]. intros r Hr. right. by apply IH2. }
  apply H, NoDup_elements.
Qed.

Lemma walkAll_spec root fs r x : (r, x) ∈ walkAll root fs <->
  match x with None => root ++ r ∈ fsDirs fs | Some c => r <> [] /\ exists t, fsFiles fs !! (root ++ r) = Some (c, t) end.
Proof.
  unfold walkAll. rewrite isort_Permutation, elem_of_app, !list_elem_of_fmap. split.
  - intros [(r' & [= -> ->] & Hr)|([r' c] & [= -> ->] & Hr)]; [by apply elem_of_dirsBelow|by apply filesBelow_spec].
  - destruct x as [c|]; intros H; [right; exists (r, c); split; [done|by apply filesBelow_spec]|left; exists r; split; [done|by apply elem_of_dirsBelow]].
Qed.

(** Directories with proper names, with no file above or in the place of
    one. *)
Definition dirsLike (fs : FS) : Prop := forall q, q ∈ fsDirs fs -> Forall proper q /\ forall a t, q = a ++ t -> fsFiles fs !! a = None.

Lemma walkAll_nodup root fs : dirsLike fs -> NoDup (map fst (walkAll root fs)).
Proof.
  intros Hd. unfold walkAll. rewrite isort_Permutation, map_app, !map_map. cbn [fst]. rewrite map_id. apply NoDup_app. split_and!.
  - apply dirsBelow_nodup.
  - intros r Hr%elem_of_dirsBelow Hf. apply list_elem_of_fmap in Hf as ([r' c] & -> & Hf). apply filesBelow_spec in Hf as (_ & t & Hf).
    apply Hd in Hr as [_ Hr]. rewrite (Hr (root ++ r') []) in Hf by by rewrite app_nil_r. done.
  - apply filesBelow_nodup.
Qed.

(** Entries that can be made below [dst]. *)
Record fitsAll (dst : path) (es : list walkEntry) (fs : FS) : Prop := {
  fa_names r x : (r, x) ∈ es -> Forall proper r /\ (x <> None -> r <> []);
  fa_nodup : NoDup (map fst es);
  fa_apart r c r' x t : (r, Some c) ∈ es -> (r', x) ∈ es -> r' = r ++ t -> t = [];
  fa_files r c : (r, Some c) ∈ es -> placeable (dst ++ r) fs;
  fa_dirs r q t : (r, None) ∈ es -> dst ++ r = q ++ t -> fsFiles fs !! q = None
}.

Definition filesOf (es : list walkEntry) : list (list string * string) := omap (fun e => (fun c => (e.1, c)) <$> e.2) es.

(** Making a directory, and what it does to the rest. *)
Definition putDir (p : path) (fs : FS) : FS := mkFS (list_to_set (pathPrefixes p) ∪ fsDirs fs) (fsFiles fs).

Lemma mkdirAll_put p fs : (forall q t, p = q ++ t -> fsFiles fs !! q = None) -> mkdirAll p fs = Ok (putDir p fs).
Proof.
  intros H. unfold mkdirAll. destruct (existsb _ _) eqn:E; [|done]. apply existsb_exists in E as (q & Hq & E%bool_decide_eq_true).
  apply list_elem_of_In, pathPrefixes_spec in Hq as [t Hq]. rewrite (H q t Hq) in E. by destruct E.
Qed.

Lemma putDir_placeable p q fs : placeable q fs -> (forall t, p <> q ++ t) -> placeable q (putDir p fs).
Proof.
  intros [Hd Hf] Hp. split; [|done]. cbn. rewrite elem_of_union, elem_of_list_to_set, pathPrefixes_spec. intros [[t E]|?]; [|done]. by apply (Hp t).
Qed.

Section CopyFacts.
  Context (now : Z).

Definition putEntry (dst : path) (e : walkEntry) (fs : FS) : FS :=
  match e.2 with None => putDir (dst ++ e.1) fs | Some c => putFile now (dst ++ e.1) c fs end.

Lemma fitsAll_cons dst e es fs : fitsAll dst (e :: es) fs -> fitsAll dst es (putEntry dst e fs).
Proof.
  destruct e as [r x]. intros [Hn Hnd Ha Hf Hd]. cbn [map fst] in Hnd. apply NoDup_cons in Hnd as [Hr Hnd].
  assert (forall r' y, (r', y) ∈ es -> r' <> r) as Hne by (intros r' y Hin ->; apply Hr; by apply (list_elem_of_fmap_2 fst _ (r, y))).
  split; [intros r' y Hin; apply Hn; by right|done|intros r1 c1 r2 y t H1 H2; apply (Ha r1 c1 r2 y t); by right|..].
  - intros r' c' Hin. assert (placeable (dst ++ r') fs) as Hp by (apply (Hf r' c'); by right).
    assert (forall t, dst ++ r <> (dst ++ r') ++ t) as H1.
    { intros t E. rewrite <- app_assoc in E. apply app_inv_head in E.
      pose proof (Ha r' c' r x t ltac:(by right) ltac:(by left) E) as ->. rewrite app_nil_r in E. by apply (Hne _ _ Hin). }
    unfold putEntry. cbn [fst snd]. destruct x as [c|]; [|by apply putDir_placeable]. apply putFile_placeable; [done|done|].
    intros t E. rewrite <- app_assoc in E. apply app_inv_head in E.
    pose proof (Ha r c r' (Some c') t ltac:(by left) ltac:(by right) E) as ->. rewrite app_nil_r in E. by apply (Hne _ _ Hin).
  - intros r' q t Hin E. assert (fsFiles fs !! q = None) as Hq by (apply (Hd r' q t); [by right|done]).
    unfold putEntry. cbn [fst snd]. destruct x as [c|]; [|done]. cbn [putFile fsFiles]. rewrite lookup_insert_ne; [done|]. intros <-.
    rewrite <- app_assoc in E. apply app_inv_head in E.
    pose proof (Ha r c r' None t ltac:(by left) ltac:(by right) E) as ->. rewrite app_nil_r in E. by apply (Hne _ _ Hin).
Qed.

Lemma target_absOf root dst r : Forall proper root -> Forall proper dst -> Forall proper r ->
  exists name, rel (absOf root) (absOf (root ++ r)) = Ok name /\ join [absOf dst; name] = absOf (dst ++ r).
Proof.
  intros Hroot Hdst Hr. rewrite rel_absOf by (done || by apply Forall_app). destruct (decide (r = [])) as [->|Hne].
  - exists ".". rewrite !app_nil_r, decide_True by done. split; [done|]. rewrite join_absOf by done. cbn. by rewrite rev_involutive.
  - exists (relName r). rewrite decide_False by (intros E; apply Hne; rewrite <- (app_nil_r root) in E at 2; by apply app_inv_head in E).
    rewrite stripCommon_app. split; [done|]. by apply relName_join.
Qed.

Lemma copyEntry_eval root dst e es fs : Forall proper root -> Forall proper dst -> fitsAll dst (e :: es) fs ->
  copyEntry now root (absOf dst) e fs = (Done tt, putEntry dst e fs).
Proof.
  destruct e as [r x]. intros Hroot Hdst [Hn _ _ Hf Hd]. destruct (Hn r x ltac:(by left)) as [Pr Hne].
  destruct (target_absOf root dst r Hroot Hdst Pr) as (name & En & Et). unfold copyEntry. cbn [fst snd]. rewrite bind_check, En, Et.
  assert (Forall proper (dst ++ r)) as Pdr by by apply Forall_app. unfold putEntry. cbn [fst snd]. destruct x as [c|].
  - destruct (Hf r c ltac:(by left)) as [Hp1 Hp2]. destruct r as [|y r _] using rev_ind; [by destruct Hne|]. rewrite app_assoc in *.
    apply Forall_app in Pdr as [P1 [P2 _]%Forall_cons]. rewrite dir_absOf_snoc, comps_absOf by done.
    unfold bind, wrapping, files. rewrite mkdirAll_put by (intros q t E; apply (Hp2 q (t ++ [y])); [by rewrite E, app_assoc|by destruct t]).
    unfold copyRegularFile, wrapping, files, writeFile. rewrite comps_absOf by (apply Forall_app; split; [done|by constructor]).
    cbn [putDir fsDirs fsFiles]. rewrite bool_decide_eq_false_2.
    2: { rewrite elem_of_union, elem_of_list_to_set, pathPrefixes_spec. intros [[t Ht]|?]; [|done].
         apply (f_equal length) in Ht. rewrite !length_app in Ht. cbn in Ht. lia. }
    rewrite length_app. cbn [length]. rewrite Nat.add_sub, take_app_length.
    rewrite bool_decide_eq_true_2 by (apply elem_of_union; left; apply elem_of_list_to_set, pathPrefixes_spec; exists []; by rewrite app_nil_r).
    cbn. unfold putFile. by rewrite removelast_last.
  - unfold wrapping, files. rewrite comps_absOf by done. rewrite mkdirAll_put; [done|]. intros q t E. by apply (Hd r q t ltac:(by left)).
Qed.

Lemma copyEntries_eval root dst es : Forall proper root -> Forall proper dst -> forall fs, fitsAll dst es fs ->
  seqA (map (copyEntry now root (absOf dst)) es) fs = (Done tt, foldl (fun fs e => putEntry dst e fs) fs es).
Proof.
  intros Hroot Hdst. induction es as [|e es IH]; intros fs Hf; [done|]. cbn [map seqA foldl]. unfold bind.
  rewrite (copyEntry_eval root dst e es) by done. apply IH. by apply fitsAll_cons.
Qed.

Lemma putEntries_files dst es : forall fs, fsFiles (foldl (fun fs e => putEntry dst e fs) fs es) = fsFiles (Agent.copyTree now dst (filesOf es) fs).
Proof.
  assert (forall l fs fs', fsFiles fs = fsFiles fs' -> fsFiles (Agent.copyTree now dst l fs) = fsFiles (Agent.copyTree now dst l fs')) as Hext.
  { induction l as [|f l IH]; intros fs fs' E; [done|]. cbn. apply IH. cbn. by rewrite E. }
  induction es as [|[r [c|]] es IH]; intros fs; [done|..]; cbn [foldl]; rewrite IH; [done|]. by apply Hext.
Qed.
End CopyFacts.

Lemma fitsAll_walk root src d fs : treeLike src -> dirsLike src ->
  (forall f, f ∈ walkOf root src -> placeable (d ++ f.1) fs) ->
  (forall r q t, root ++ r ∈ fsDirs src -> d ++ r = q ++ t -> fsFiles fs !! q = None) -> fitsAll d (walkAll root src) fs.
Proof.
  intros Ht Hd Hf Hdirs. split.
  - intros r x Hin. apply walkAll_spec in Hin. destruct x as [c|].
    + destruct Hin as (Hne & t & Hin). apply Ht in Hin as [Hp _]. by apply Forall_app in Hp as [_ ?].
    + apply Hd in Hin as [Hp _]. by apply Forall_app in Hp as [_ ?].
  - by apply walkAll_nodup.
  - intros r c r' x t Hr Hr' E. apply walkAll_spec in Hr as (_ & z & Hr). apply walkAll_spec in Hr'. destruct x as [c'|].
    + destruct Hr' as (_ & z' & Hr'). destruct t as [|y t]; [done|]. apply Ht in Hr' as [_ Hb].
      rewrite (Hb (root ++ r) (y :: t)) in Hr; [done| |done]. by rewrite E, app_assoc.
    + apply Hd in Hr' as [_ Hb]. rewrite (Hb (root ++ r) t) in Hr; [done|]. by rewrite E, app_assoc.
  - intros r c Hin. apply walkAll_spec in Hin. apply (Hf (r, c)). by apply walkOf_spec.
  - intros r q t Hin. apply walkAll_spec in Hin. by apply Hdirs.
Qed.

Lemma elem_of_filesOf root fs r c : (r, c) ∈ filesOf (walkAll root fs) <-> r <> [] /\ exists t, fsFiles fs !! (root ++ r) = Some (c, t).
Proof.
  unfold filesOf. rewrite list_elem_of_omap. split.
  - intros ([r' [c'|]] & Hin & E); cbn in E; [|done]. injection E as -> ->. by apply walkAll_spec in Hin.
  - intros H. exists (r, Some c). split; [by apply walkAll_spec|done].
Qed.

Lemma filesOf_nodup es : NoDup (map fst es) -> NoDup (map fst (filesOf es)).
Proof.
  induction es as [|[r [c|]] es IH]; cbn; intros Hnd; [done|..]; apply NoDup_cons in Hnd as [Hr Hnd]; [|by apply IH].
  apply NoDup_cons. split; [|by apply IH]. intros Hin. apply Hr. apply list_elem_of_fmap in Hin as ([r' c'] & -> & Hin).
  unfold filesOf in Hin. apply list_elem_of_omap in Hin as ([r2 [c2|]] & Hin & E); cbn in E; [|done]. injection E as -> ->.
  by apply (list_elem_of_fmap_2 fst _ (r', Some c')).
Qed.

Lemma putEntries_dirs now dst es : forall fs, fsDirs fs ⊆ fsDirs (foldl (fun fs e => putEntry now dst e fs) fs es).
Proof. induction es as [|[r [c|]] es IH]; intros fs; cbn [foldl]; [done|..]; (etrans; [|apply IH]); cbn; set_solver. Qed.

(** A copied tree has the files of the original, and nothing else changes. *)
Lemma copyTree_eval now src dst fs : Forall proper src -> Forall proper dst -> src ∈ fsDirs fs -> treeLike fs -> dirsLike fs ->
  fitsAll dst (walkAll src fs) fs ->
  exists fs', copyTree now (absOf src) (absOf dst) fs = (Done tt, fs') /\
    (forall r, r <> [] -> fsFiles fs' !! (dst ++ r) =
       match fsFiles fs !! (src ++ r) with Some (c, _) => Some (c, now) | None => fsFiles fs !! (dst ++ r) end) /\
    (forall p, (forall r, p = dst ++ r -> r <> [] -> fsFiles fs !! (src ++ r) = None) -> fsFiles fs' !! p = fsFiles fs !! p) /\
    fsDirs fs ⊆ fsDirs fs'.
Proof.
  intros Psrc Pdst Dsrc Ht Hd Hfit. eexists. unfold copyTree. rewrite comps_absOf by done. destruct (Hd _ Dsrc) as [_ Hn].
  rewrite (Hn src []) by by rewrite app_nil_r. rewrite bool_decide_eq_true_2, copyEntries_eval by done. split; [done|]. rewrite putEntries_files.
  pose proof (filesOf_nodup _ (walkAll_nodup src fs Hd)) as Hnd.
  assert (forall p, (forall r, p = dst ++ r -> r <> [] -> fsFiles fs !! (src ++ r) = None) ->
    fsFiles (Agent.copyTree now dst (filesOf (walkAll src fs)) fs) !! p = fsFiles fs !! p) as Hout.
  { intros p Hp. apply copyTree_out. intros [r c] Hin ->. apply elem_of_filesOf in Hin as (Hne & t & Hin). cbn in *. by rewrite (Hp r) in Hin. }
  split_and!; [|done|apply putEntries_dirs]. intros r Hne. destruct (fsFiles fs !! (src ++ r)) as [[c t]|] eqn:E.
  - apply copyTree_in; [done|]. apply elem_of_filesOf. eauto.
  - apply Hout. intros r' E' Hne'. apply app_inv_head in E' as <-. done.
Qed.

(** ** A command in a silo *)

Lemma vacant_noFile d fs r q t : vacant d fs -> d ++ r = q ++ t -> fsFiles fs !! q = None.
Proof.
  intros [H1 H2] E. apply app_eq_inv in E as [(k & -> & ->)|(k & -> & ->)]; [by eapply H2|].
  destruct k as [|x k]; [apply (H2 _ []); by rewrite !app_nil_r|by apply H1].
Qed.

Lemma dirsLike_mkdir p fs fs' : Forall proper p -> dirsLike fs -> mkdirAll p fs = Ok fs' -> dirsLike fs'.
Proof.
  intros Hp Hd (Ef & Ed & Hn)%mkdirAll_Ok q Hq. rewrite Ed in Hq. apply elem_of_union in Hq as [Hq|Hq].
  - apply elem_of_list_to_set, pathPrefixes_spec in Hq as [t ->]. apply Forall_app in Hp as [Hp _]. split; [done|].
    intros a b ->. rewrite Ef. apply (Hn a (b ++ t)). by rewrite app_assoc.
  - apply Hd in Hq as [H1 H2]. split; [done|]. intros a t E. rewrite Ef. by eapply H2.
Qed.

Lemma treeLike_files fs fs' : fsFiles fs' = fsFiles fs -> treeLike fs -> treeLike fs'.
Proof. unfold treeLike. intros ->. done. Qed.

Section SiloFacts.
  Context (now : Z) (p : process) (run : string -> process -> FS -> procEnd * FS) (exec : ExecRequest -> FS -> outcome (option Z) * FS).
  Context (c : hcsshimContainer) (req : ExecRequest) (sc src : path).
  Context (proper_sc : Forall proper sc) (proper_id : proper (erExecID req)).
  Context (srcDir_c : hcSrcDir c = absOf (sc ++ ["src"])) (outDir_c : hcOutDir c = absOf (sc ++ ["out"])).
  #[local] Notation hs := (sc ++ ["src"; erExecID req]).
  #[local] Notation ho := (sc ++ ["out"; erExecID req]).

Definition stageOf : execStage :=
  mkExecStage (absOf hs) (absOf ho) (guestSrcRoot +:+ "\" +:+ erExecID req) (guestOutRoot +:+ "\" +:+ erExecID req).

Lemma stageDirs_spec : join [hcSrcDir c; erExecID req] = absOf hs /\ join [hcOutDir c; erExecID req] = absOf ho /\ Forall proper hs /\ Forall proper ho.
Proof.
  assert (forall m, proper m -> Forall proper (sc ++ [m]) /\ Forall proper (sc ++ [m; erExecID req])) as Hp.
  { intros m Hm. split; apply Forall_app; (split; [done|]); [by apply Forall_cons_2|]. apply Forall_cons_2; [done|]. by apply Forall_cons_2. }
  destruct (Hp "src") as [P1 P2]; [done|]. destruct (Hp "out") as [P3 P4]; [done|].
  rewrite srcDir_c, outDir_c, !join_proper, <- !app_assoc by done. done.
Qed.

Lemma vacant_mkdirOut fs fs1 : vacant hs fs -> mkdirAll ho fs = Ok fs1 -> vacant hs fs1.
Proof.
  intros [H1 H2] (Ef & Ed & _)%mkdirAll_Ok. split; rewrite Ef; [|done]. intros t Hne. destruct (H1 t Hne) as [Hd Hf]. split; [|done].
  rewrite Ed, elem_of_union, elem_of_list_to_set, pathPrefixes_spec. intros [[k E]|?]; [|done]. rewrite <- !app_assoc in E. apply app_inv_head in E. done.
Qed.

(** The source tree is staged, and nothing else changes. *)
Lemma stageExecDirs_eval fs fs1 : erSrcHostPath req = absOf src -> Forall proper src -> src ∈ fsDirs fs -> treeLike fs -> dirsLike fs ->
  vacant hs fs -> mkdirAll ho fs = Ok fs1 ->
  exists fs2, stageExecDirs now c req fs = (Done stageOf, fs2) /\
    (forall r, r <> [] -> fsFiles fs2 !! (hs ++ r) = (fun f => (f.1, now)) <$> fsFiles fs !! (src ++ r)) /\
    (forall q, ~ Staging.inside hs q -> fsFiles fs2 !! q = fsFiles fs !! q).
Proof.
  intros Esrc Psrc Dsrc Ht Hd Hv H1. destruct stageDirs_spec as (Es & Eo & Ps & Po). pose proof (vacant_mkdirOut _ _ Hv H1) as Hv1.
  pose proof (dirsLike_mkdir _ _ _ Po Hd H1) as Hd1. pose proof (mkdirAll_Ok _ _ _ H1) as (Ef & Ed & _). pose proof (treeLike_files _ _ Ef Ht) as Ht1.
  destruct (copyTree_eval now src hs fs1) as (fs2 & E2 & Hin & Hout & _); try done.
  { rewrite Ed. set_solver. }
  { apply fitsAll_walk; [done|done| |].
    - intros [r x] Hf. apply vacant_placeable; [done|]. by apply walkOf_spec in Hf as [? _].
    - intros r q t _. by apply vacant_noFile. }
  exists fs2. unfold stageExecDirs. rewrite Es, Eo. cbv zeta. unfold bind at 1, wrapping at 1, files at 1. rewrite comps_absOf, H1 by done.
  rewrite Esrc. change (String.eqb (absOf src) "") with false. cbn [negb]. unfold bind, wrapping. rewrite E2. split_and!; [done|..].
  - intros r Hne. rewrite Hin, (proj2 (proj1 Hv1 r Hne)), Ef by done. by destruct (fsFiles fs !! (src ++ r)) as [[]|].
  - intros q Hq. rewrite Hout, Ef; [done|]. intros r -> _. destruct Hq. by eexists.
Qed.

Lemma stageCleanup_files fs q : fsFiles (stageCleanup stageOf fs) !! q = if isBelow ho q || isBelow hs q then None else fsFiles fs !! q.
Proof.
  destruct stageDirs_spec as (_ & _ & Ps & Po). unfold stageCleanup, stageOf. cbn [esHostSrc esHostOut]. rewrite !comps_absOf, !removeAll_files by done.
  by destruct (isBelow ho q), (isBelow hs q).
Qed.

(** C29: A command in a silo behaves like one on a copy of the source tree.
    The process runs on exactly the files of the request's source directory;
    when it exits, its code is returned and the output directory has the files
    it left in its own, and nothing else of the host changes after it.
    Whatever its end, nothing is left of the staging. *)
Theorem silo_exec_faithful fs fs1 : hcAgent c = false -> erArgv req <> [] ->
  erSrcHostPath req = absOf src -> Forall proper src -> src ∈ fsDirs fs -> treeLike fs -> dirsLike fs ->
  vacant hs fs -> mkdirAll ho fs = Ok fs1 ->
  let result := hcsExec now (Ok p) run exec c req fs in
  exists fs2, (forall r, r <> [] -> fsFiles fs2 !! (hs ++ r) = (fun f => (f.1, now)) <$> fsFiles fs !! (src ++ r)) /\
    (forall q, ~ Staging.inside hs q -> fsFiles fs2 !! q = fsFiles fs !! q) /\
    (forall q, Staging.inside hs q \/ Staging.inside ho q -> fsFiles result.2 !! q = None) /\
    forall code fs3 fs4 out, run (erExecID req) (execProcess stageOf req p) fs2 = (Exited code None, fs3) ->
      erOutHostPath req = absOf out -> Forall proper out -> mkdirAll out fs3 = Ok fs4 ->
      ho ∈ fsDirs fs4 -> treeLike fs4 -> dirsLike fs4 -> fitsAll out (walkAll ho fs4) fs4 ->
      result.1 = Done (code, None) /\
      (forall r x t, r <> [] -> ~ Staging.inside hs (out ++ r) -> ~ Staging.inside ho (out ++ r) ->
         fsFiles fs3 !! (ho ++ r) = Some (x, t) -> fsFiles result.2 !! (out ++ r) = Some (x, now)) /\
      (forall q, ~ Staging.inside hs q -> ~ Staging.inside ho q -> (forall r, q = out ++ r -> r <> [] -> fsFiles fs3 !! (ho ++ r) = None) ->
         fsFiles result.2 !! q = fsFiles fs3 !! q).
Proof.
  intros Hag Hargv Esrc Psrc Dsrc Ht Hd Hv H1 result. destruct (stageExecDirs_eval fs fs1) as (fs2 & E2 & Hin & Hout); try done.
  destruct stageDirs_spec as (_ & _ & Ps & Po).
  assert (exists code err fs3', execStaged now (Ok p) run stageOf req fs2 = (code, err, fs3') /\ result = (Done (code, err), stageCleanup stageOf fs3'))
    as (code' & err & fs3' & E3 & Er).
  { unfold result, hcsExec. destruct (String.eqb_spec (erExecID req) "") as [E|_]; [rewrite E in proper_id; by destruct proper_id|].
    rewrite bool_decide_eq_false_2, Hag by done. unfold execInSilo. rewrite E2. destruct (execStaged _ _ _ _ _ _) as [[code err] fs3]. eauto 6. }
  exists fs2. rewrite Er. cbn [fst snd]. split_and!; [done|done|..].
  - intros q Hq. rewrite stageCleanup_files by done. destruct Hq as [Hq%isBelow_spec|Hq%isBelow_spec]; rewrite Hq; [by rewrite orb_true_r|done].
  - intros code fs3 fs4 out Hrun Eout Pout H4 Dho Ht4 Hd4 Hfit. destruct (copyTree_eval now ho out fs4) as (fs5 & E5 & Hin5 & Hout5 & _); try done.
    unfold execStaged in E3. rewrite Hrun in E3. unfold captureOutputs in E3. rewrite Eout in E3. change (String.eqb (absOf out) "") with false in E3.
    cbn [esHostOut stageOf] in E3. unfold bind, wrapping, files in E3. rewrite comps_absOf, H4, E5 in E3 by done. injection E3 as <- <- <-.
    apply mkdirAll_Ok in H4 as (Ef & _).
    assert (forall q, ~ Staging.inside hs q -> ~ Staging.inside ho q -> isBelow ho q || isBelow hs q = false) as Hb.
    { intros q H1' H2'. apply orb_false_iff. split; apply not_true_iff_false; intros Hb%isBelow_spec; [by apply H2'|by apply H1']. }
    split; [done|]. split.
    + intros r x t Hne N1 N2 Hx. rewrite stageCleanup_files, Hb, Hin5, Ef, Hx by done. done.
    + intros q N1 N2 Hq. rewrite stageCleanup_files, Hb, Hout5, Ef by (done || rewrite ?Ef; done). done.
Qed.
End SiloFacts.

(** ** A small containerd *)

Record toyCd := mkToyCd {
  tcContainers : gmap string containerOpts;
  tcSnapshots : gset string;
  tcTasks : gmap string taskStatus;
  tcSlow : bool
}.

Definition tcStop (id : string) (d : toyCd) : toyCd :=
  match tcTasks d !! id with
  | Some _ => mkToyCd (tcContainers d) (tcSnapshots d) (<[id := TaskStopped]> (tcTasks d)) (tcSlow d)
  | None => d
  end.

(** A slow daemon ends a killed task only when it is waited for. *)
#[export] Instance toyContainerd : Containerd toyCd := {|
  cdContainers := tcContainers;
  cdSnapshots := tcSnapshots;
  cdTasks := tcTasks;
  get_image _ _ := Ok tt;
  new_container id o d :=
    if bool_decide (tcContainers d !! id = None /\ id ∉ tcSnapshots d)
    then (Ok tt, mkToyCd (<[id := o]> (tcContainers d)) ({[id]} ∪ tcSnapshots d) (tcTasks d) (tcSlow d)) else (Err "already exists", d);
  new_task id d :=
    if bool_decide (tcTasks d !! id = None)
    then (Ok tt, mkToyCd (tcContainers d) (tcSnapshots d) (<[id := TaskCreated]> (tcTasks d)) (tcSlow d)) else (Err "already exists", d);
  task_start id d := (Ok tt, mkToyCd (tcContainers d) (tcSnapshots d) (<[id := TaskRunning]> (tcTasks d)) (tcSlow d));
  task_kill id d := (Ok tt, if tcSlow d then d else tcStop id d);
  task_wait id d := (Ok tt, tcStop id d);
  task_delete id d :=
    match tcTasks d !! id with
    | None => (Err "not found", d)
    | Some TaskRunning => (Err "task must be stopped before deletion", d)
    | Some _ => (Ok tt, mkToyCd (tcContainers d) (tcSnapshots d) (delete id (tcTasks d)) (tcSlow d))
    end;
  container_delete id d :=
    if bool_decide (tcTasks d !! id = None /\ is_Some (tcContainers d !! id))
    then (Ok tt, mkToyCd (delete id (tcContainers d)) (tcSnapshots d ∖ {[id]}) (tcTasks d) (tcSlow d)) else (Err "cannot delete", d)
|}.

Lemma tcStop_mayStop id (d : toyCd) : mayStop id d (tcStop id d).
Proof. unfold tcStop. destruct (tcTasks d !! id) eqn:E; split_and!; try done; cbn; [right; by rewrite E|by left]. Qed.

#[export] Instance toyContainerd_laws : ContainerdLaws toyCd.
Proof.
  split; cbn.
  - intros id o d r d' H. case_bool_decide as E; injection H as <- <-; cbn; [|by auto]. destruct E. done.
  - intros id d r d' H. case_bool_decide as E; injection H as <- <-; done.
  - intros id d r d' [= <- <-]. done.
  - intros id d r d' [= <- <-]. destruct (tcSlow d); [split_and!; by auto|apply tcStop_mayStop].
  - intros id d r d' [= <- <-]. apply tcStop_mayStop.
  - intros id d r d' H. destruct (tcTasks d !! id) as [[]|]; injection H as <- <-; done.
  - intros id d r d' H. case_bool_decide as E; injection H as <- <-; cbn; [|done]. destruct E. done.
Qed.

#[export] Instance toyContainerd_cooperative : Cooperative toyCd.
Proof.
  split; cbn.
  - intros id d Hr [st E]. rewrite E in *. by destruct st.
  - intros id d Ht Hc. by rewrite bool_decide_eq_true_2.
  - intros id d. assert (forall d', tcTasks (tcStop id d') !! id <> Some TaskRunning) as H; [|apply H].
    intros d'. unfold tcStop. destruct (tcTasks d' !! id) eqn:E; cbn; [by rewrite lookup_insert_eq|congruence].
Qed.

Definition exHcs (isolation : string) : Hcsshim :=
  mkHcsshim (mkHcsshimOptions "pipe" "hpcc" "/run" "io.containerd.runhcs.v1" "windows" isolation "/pause.exe" "/agent.exe") "/run/.hpcc-pause-mount" "/run/.hpcc-agent-mount".
Definition exHcFs : FS := mkFS ({[[]; ["run"]]} ∪ fsDirs exHost) (fsFiles exHost).
Definition exHcHost (slow : bool) : @hcHost toyCd := mkHcHost (mkToyCd ∅ ∅ ∅ slow) exHcFs ∅.
Definition exHcsStart (isolation : string) (dial : result unit) : outcome hcsshimContainer * @hcHost toyCd :=
  hcsStart (fun s => s) (fun _ => Ok tt) (exHcs isolation) dial exVmSpec (exHcHost true).

Lemma exHcs_ready : scratchReady exVmSpec ["run"] (exHcHost true).
Proof.
  assert (Forall (fun q => q ∈ fsDirs exHcFs) (pathPrefixes ["run"])) as H0 by decided.
  assert (map_Forall (fun p _ => isBelow ["run"; "vm1"] p = false) (fsFiles exHcFs)) as H1 by decided.
  assert (set_Forall (fun p => isBelow ["run"; "vm1"] p = false) (fsDirs exHcFs)) as H2 by decided.
  split; [intros q t Hq; eapply Forall_forall in H0; [exact H0|]; apply pathPrefixes_spec; by exists t|].
  intros p Hp%isBelow_spec. cbn in Hp. split; [destruct (fsFiles exHcFs !! p) eqn:E; [|done]; apply H1 in E; cbn in E; congruence|].
  intros Hd%H2. cbn in Hd. congruence.
Qed.

(** A compile has left a file in the container's directory when it is stopped. *)
Definition exUsed : @hcHost toyCd :=
  let s := (exHcsStart IsolationProcess (Ok tt)).2 in
  mkHcHost (hhDaemon s) (mkFS (fsDirs (hhFs s)) (<[["run"; "vm1"; "out"; "a.o"] := ("obj", 7%Z)]> (fsFiles (hhFs s)))) (hhConns s).

Lemma container_lifecycle_witness : exists c c2 s2, (exHcsStart IsolationProcess (Ok tt)).1 = Done c /\
  hcsStop (Ok tt) c exUsed = ([], c2, s2) /\ sameDaemon (hhDaemon (exHcHost true)) (hhDaemon s2) /\ sameHost (exHcHost true) s2.
Proof.
  assert (exists c, (exHcsStart IsolationProcess (Ok tt)).1 = Done c /\ comps (hcScratchDir c) = ["run"; "vm1"] /\ hcScratchDir c <> "") as (c0 & E0 & Hc0 & Hn0)
    by (eexists; vm_compute; split; [reflexivity|]; split; [reflexivity|discriminate]).
  destruct (container_lifecycle (fun s => s) (fun _ => Ok tt) (exHcs IsolationProcess) (Ok tt) exVmSpec ["run"] (exHcHost true)
    (exHcsStart IsolationProcess (Ok tt)).1 (exHcsStart IsolationProcess (Ok tt)).2) as [(c & opts & Ec & _ & _ & _ & _ & _ & Es)|(e & Ef & _)].
  - reflexivity.
  - repeat constructor; discriminate.
  - repeat split; discriminate.
  - exact exHcs_ready.
  - decided.
  - reflexivity.
  - apply surjective_pairing.
  - destruct (Es exUsed) as (c2 & s2 & E2 & _ & Hd & Hs).
    { rewrite E0 in Ec. injection Ec as <-. split_and!; [split_and!; try done; by left| |done]. intros p [Hp|Hp]; [done|]. split; [|done].
      cbn [exUsed hhFs fsFiles]. apply lookup_insert_ne. intros <-. apply Hp. rewrite Hc0. by exists ["out"; "a.o"]. }
    exists c, c2, s2. split; [exact Ec|]. split; [exact E2|]. split; [exact Hd|exact Hs].
  - rewrite E0 in Ef. discriminate.
Defined.

(** A VM whose agent does not answer is killed and deleted at once; a daemon
    that needs time for the kill refuses, and the VM is left running. *)
Example unanswered_vm_leaks : let r := exHcsStart IsolationHyperV (Err "timeout") in
  r.1 = Failed "hcsshim: dial agent: timeout" /\ cdTasks (hhDaemon r.2) !! "vm1" = Some TaskRunning /\ bool_decide (is_Some (cdContainers (hhDaemon r.2) !! "vm1")) = true.
Proof. vm_compute. split_and!; reflexivity. Qed.

(** ** A compile in a silo *)

Definition exSilo : hcsshimContainer := mkHcsshimContainer exVmSpec false "/run/vm1/src" "/run/vm1/out" "/run/vm1" false.
Definition exProcess : process := mkProcess ["pause"] "C:\" ["PATH=C:\bin"].
Definition exStaged : FS := (stageExecDirs 5 exSilo exReq exHost).2.
Definition exCompiled : FS := mkFS (fsDirs exStaged) (<[["run"; "vm1"; "out"; "e1"; "a.o"] := ("obj:int", 6%Z)]> (fsFiles exStaged)).
Definition exRun (id : string) (pr : process) (fs : FS) : procEnd * FS :=
  match fsFiles fs !! ["run"; "vm1"; "src"; "e1"; "a.c"] with
  | Some ("int", _) => (Exited 3 None, exCompiled)
  | _ => (NotStarted "no input", fs)
  end.
Definition exCaptured : FS := forceOk exCompiled (mkdirAll ["out"] exCompiled).

Lemma dirsLike_check fs : Forall (fun q => Forall proper q /\ Forall (fun a => fsFiles fs !! a = None) (pathPrefixes q)) (elements (fsDirs fs)) -> dirsLike fs.
Proof.
  intros H q Hq. rewrite Forall_forall in H. destruct (H q) as [H1 H2]; [by apply elem_of_elements|]. split; [done|]. intros a t E.
  rewrite Forall_forall in H2. apply H2, pathPrefixes_spec. by exists t.
Qed.

Lemma exCaptured_fits : fitsAll ["out"] (walkAll ["run"; "vm1"; "out"; "e1"] exCaptured) exCaptured.
Proof.
  apply fitsAll_walk; [apply treeLike_check; decided|apply dirsLike_check; decided|..].
  - apply Forall_forall. replace (walkOf ["run"; "vm1"; "out"; "e1"] exCaptured) with [(["a.o"], "obj:int")] by (vm_compute; reflexivity).
    apply Forall_cons. split; [|constructor]. apply placeable_check; decided.
  - intros r q t Hr%elem_of_dirsBelow E. replace (dirsBelow ["run"; "vm1"; "out"; "e1"] exCaptured) with [@nil string] in Hr by (vm_compute; reflexivity).
    apply list_elem_of_singleton in Hr as ->. assert (Forall (fun q => fsFiles exCaptured !! q = None) (pathPrefixes ["out"])) as H by decided.
    rewrite Forall_forall in H. apply H, pathPrefixes_spec. rewrite app_nil_r in E. by exists t.
Qed.

Lemma silo_exec_faithful_witness : exists fs', hcsExec 5 (Ok exProcess) exRun (fun _ fs => (Failed "", fs)) exSilo exReq exHost = (Done (3%Z, None), fs') /\
  fsFiles fs' !! ["out"; "a.o"] = Some ("obj:int", 5%Z) /\ fsFiles fs' !! ["run"; "vm1"; "src"; "e1"; "a.c"] = None.
Proof.
  destruct (silo_exec_faithful 5 exProcess exRun (fun _ fs => (Failed "", fs)) exSilo exReq ["run"; "vm1"] ["src"]) with
    (fs := exHost) (fs1 := forceOk exHost (mkdirAll ["run"; "vm1"; "out"; "e1"] exHost)) as (fs2 & Hin & _ & Hgone & Hend).
  - repeat constructor; discriminate.
  - repeat split; discriminate.
  - reflexivity.
  - reflexivity.
  - reflexivity.
  - discriminate.
  - reflexivity.
  - repeat constructor; discriminate.
  - decided.
  - apply treeLike_check. decided.
  - apply dirsLike_check. decided.
  - apply vacant_check; decided.
  - vm_compute. reflexivity.
  - destruct (Hend 3%Z exCompiled exCaptured ["out"]) as (Ec & Ho & _).
    + unfold exRun. assert (fsFiles fs2 !! ["run"; "vm1"; "src"; "e1"; "a.c"] = Some ("int", 5%Z)) as ->; [|reflexivity].
      exact (Hin ["a.c"] ltac:(discriminate)).
    + reflexivity.
    + repeat constructor; discriminate.
    + vm_compute. reflexivity.
    + decided.
    + apply treeLike_check. decided.
    + apply dirsLike_check. decided.
    + exact exCaptured_fits.
    + exists (hcsExec 5 (Ok exProcess) exRun (fun _ fs => (Failed "", fs)) exSilo exReq exHost).2. split; [rewrite <- Ec; apply surjective_pairing|]. split.
      * apply (Ho ["a.o"] "obj:int" 6%Z); [discriminate|by intros [t [=]]|by intros [t [=]]|vm_compute; reflexivity].
      * apply Hgone. left. by exists ["a.c"].
Defined.

(** The connection of a VM: a guest that hangs up before it sends a result
    makes the worker dereference a nil result. *)
Example hangup_panics : (hcsExec 5 (Ok exProcess) exRun
  (fun req fs => let '(o, d) := drainAgentResponses 5 true true (erOutHostPath req) [] None (drainStart fs) in (o, rxFs (drRx d)))
  (mkHcsshimContainer exVmSpec true "" "" "" false) exReq exHost).1 = Panicked.
Proof. vm_compute. reflexivity. Qed.

(** A copy that fails leaves what was copied. *)
Example failed_staging_leaves_sources :
  let fs := mkFS (fsDirs exHost) (<[["run"; "vm1"; "src"; "e1"; "inc"] := ("", 1%Z)]> (<[["src"; "A.c"] := ("first", 1%Z)]> (fsFiles exHost))) in
  let r := hcsExec 5 (Ok exProcess) exRun (fun _ fs => (Failed "", fs)) exSilo exReq (mkFS (list_to_set (pathPrefixes ["run"; "vm1"; "src"; "e1"]) ∪ fsDirs fs) (fsFiles fs)) in
  (exists e, r.1 = Done (-1, Some e)%Z) /\ fsFiles r.2 !! ["run"; "vm1"; "src"; "e1"; "A.c"] = Some ("first", 5%Z).
Proof. split; [eexists|]; vm_compute; reflexivity. Qed.

(** ** The choice of a runtime *)

(** Only the three handlers are known, and the isolated ones only with their
    required options. *)
Lemma Select_known now grant dial handler fc hc fs rt fs' : Select now grant dial handler fc hc fs = (Done rt, fs') ->
  match rt with
  | DangerouslyExecOnHost => handler = HandlerReallyReallyDangerous
  | FirecrackerRuntime o => handler = HandlerFirecracker /\ foFirecrackerBin o <> "" /\ foJailerBin o <> "" /\ (0 < foUID o)%Z /\ (0 < foGID o)%Z
  | HcsshimRuntime h => handler = HandlerHcsshim /\ (hoIsolation (hsOpts h) = IsolationHyperV /\ hoAgentHostPath (hsOpts h) <> "" \/ hoIsolation (hsOpts h) = IsolationProcess)
  end.
Proof.
  unfold Select. destruct (String.eqb_spec handler HandlerReallyReallyDangerous) as [->|_]; [by intros [= <- _]|].
  destruct (String.eqb_spec handler HandlerFirecracker) as [->|_].
  { intros (o & s1 & [Ho _]%check_Done & [= <- _])%bind_Done. unfold NewFirecracker in Ho.
    destruct (String.eqb_spec (foFirecrackerBin fc) ""); [done|]. destruct (String.eqb_spec (foJailerBin fc) ""); [done|].
    do 3 (destruct (String.eqb _ ""); [done|]). destruct (Z.leb_spec (foUID fc) 0); [done|]. destruct (Z.leb_spec (foGID fc) 0); [done|].
    injection Ho as <-. done. }
  destruct (String.eqb_spec handler HandlerHcsshim) as [->|_]; [|done]. intros (h & s1 & H & [= <- _])%bind_Done. split; [done|].
  unfold NewHcsshim in H. do 2 (destruct (String.eqb _ ""); [done|]). cbv zeta in H.
  destruct (negb _) eqn:Ei; [done|]. apply negb_false_iff, orb_true_iff in Ei. cbn [hoPauseHostPath] in H. destruct (String.eqb _ ""); [done|].
  apply bind_Done in H as (pm & s2 & _ & H). apply bind_Done in H as (am & s3 & Ha & H). apply bind_Done in H as ([] & s4 & _ & [= <- _]). cbn [hsOpts hoIsolation hoAgentHostPath].
  destruct (String.eqb_spec (orDefault (hoIsolation hc) IsolationHyperV) IsolationHyperV) as [E|E].
  - left. split; [done|]. cbn [negb hoAgentHostPath] in Ha. destruct (String.eqb_spec (hoAgentHostPath hc) ""); done.
  - right. destruct Ei as [?|?%String.eqb_eq]; done.
Qed.
